(* ===== verification/_CoqProject ===== *)
-Q . S2P
Prelude.v
Machine.v
Bytes.v
MemFuncs.v
MemMove2.v
MemMove2Thms.v
AsmMem.v
AsmStr.v
Strings.v
Printfmt.v
UserMisc.v
Hashtable.v
Locks.v
Ktypes.v
Kmem.v
PageAlloc.v
Boot.v
BootThms.v
Pagetree.v
Supply.v
PageRefs.v
PagetreeSpec.v
PagetreeOps.v
PagetreeWhole.v
PagetreeThms.v
PagetreeFree.v
PagetreeProps.v
Mcs.v
McsProps.v
Mcsrw.v
Darray.v
DarrayThms.v
DarrayProps.v
KMap.v
KMapThms.v
KMapRehash.v
KMapProps.v
Pmap.v
PmapSpec.v
PmapThms.v
PmapProps.v
Kobj.v
Share.v
At.v
Proc.v
Syscall.v
KobjThms.v
Collect.v
KobjProps.v
KernExamples.v
Effects.v
Space.v
AtThms.v
Fault.v
Lookup.v
FaultProps.v
FaultExamples.v
Access.v
Uas.v
UasThms.v
Ramfs.v
RamfsThms.v
RamfsDir.v
Fs.v
UserKernel.v
UasProps.v
FsProps.v
FsExamples.v
