(* ===== verification/Prelude.v ===== *)
(** * Corey, verified

    A verification of the Corey operating system: the kernel from booting the page
    allocator to system calls on kernel objects, its locks, and of the user library the
    memory, string and formatting routines, the address-space manager, the memory file
    system and path lookup.  Paths below are relative to src/.

    ** The program

    Corey is an exokernel for multicore machines.  At boot the kernel reads the BIOS
    memory map and hands every usable page to a page allocator with one free list per
    memory node.  Everything else is built of pages: a page tree is a growable array of
    pages with sharing and copy on write, a dynamic array packs structs into the pages of
    a tree, a kernel map is a hash table whose entries live in a tree.

    The objects of the kernel fill a page each.  Segments are arrays of pages; address
    trees map ranges of addresses to segments and to other address trees, and own a
    hardware page table that page faults fill; shares are tables of objects by
    identifier, and a program reaches an object only through a share of the processor it
    runs on; processors run in an address tree.  Objects nobody refers to wait on a list
    of their CPU for the collector.  The code runs on all CPUs at once, under spin locks,
    reader-writer locks and queue locks.

    Programs see the kernel through system calls.  The user library keeps a copy of the
    table of its address tree and chooses addresses for mappings itself; file systems are
    code in the library that works on mapped segments.  It also brings its own string,
    copy, formatting, random-number and time routines.

    ** How the model is made

    C functions become functions in a monad [M S] of state, return value and fault
    (Prelude): [Ret] is a normal return; a fault is [Panic] (an assertion or a call of
    panic), [Undef] (behaviour C does not define: a stale or mistyped pointer, a signed
    overflow, an access outside an object), [Hang] (a lock that nobody will release) or
    [NoFuel].  [wp c s Q] says that [c] run in [s] returns and that [Q] holds of result
    and state, so each functional theorem is a theorem of total correctness: no fault,
    and termination.  [wpx] also allows a panic under a stated condition.  Out parameters
    are returned with the result, error codes are negative numbers as in C, and integers
    are [Z] with the wrap-around of their C type written out.

    Loops are structural recursions on a count of iterations where C has one, and have
    fuel otherwise; the fuel is computed from the data (the number of slots of a table,
    of bytes of a string, of nodes), and the theorems say that it suffices, since
    [NoFuel] is a fault.  Three recursions have no bound in the code and take their fuel
    as an argument or a constant: [at_pmap_fill] through interior trees (its theorems
    hold for every fuel from 1 on, because they are about mappings of segments), the
    callbacks that halt processors ([depth] in Proc), and the search of the
    address-space manager for a free address ([get_va_loop]; the theorems assume fresh
    addresses, which need no search, and [empty_search_never_ends] shows that the search
    may not stop).

    Memory comes in three forms.  Bytes has byte-addressed memory for the library
    routines.  Kmem has the kernel's memory as a heap of typed pages with the array
    [page_infos] and the allocator's lists.  The library code above the system calls
    (Uas, Ramfs, Fs) reads and writes the bytes of segments through its mappings, with
    the kernel as the class [ProcKernel] and its promises as [ProcKernelLaws]; a kernel
    that keeps them is in UserKernel.  Locks are modelled instruction by instruction for
    any number of CPUs; the rest of the kernel is sequential code that takes and releases
    locks, and a lock that is already held is a [Hang].

    ** Files and the code they model

    - Prelude: integers, the fault monad, [wp], loops, counting, the tactics and the hint
      database [corey].
    - Machine: inc/intmacro.h, inc/safeint.h, the constants of kern/arch/amd64/mmu-x86.h,
      mmu.h, memlayout.h, param.h and inc/error.h.
    - Bytes, MemFuncs: lib/memcpy.c, memmove.c, memset.c, memcmp.c.  MemMove2,
      MemMove2Thms: lib/memmove2.c.  AsmMem, AsmStr: lib/amd64/memcpy.S, memset.S,
      strlen.S, strcpy.S, strcmp.S.
    - Strings: lib/string.c, lib/sysstring.c.  Printfmt: lib/printfmt.c.  UserMisc:
      lib/arc4.c, rand.c, time.c.
    - Hashtable: lib/hashtable.c, over the class [HashBack] of ways to store entries and
      the class [HashStore] of what a store promises; KMap is the kernel's instance.
    - Locks: kern/arch/amd64/spinlock.h, rwlock.h, lib/rwlock.c.  Mcs, McsProps, Mcsrw:
      kern/arch/amd64/mcs.h.
    - Ktypes: the structs of the kernel (the headers of kern/kern).
    - Kmem, PageAlloc: kern/kern/pageinfo.h, pagealloc.c, the address conversions of
      kern/arch/amd64/pmap.c, the node tables of numa.c, atomic32.h.
    - Boot, BootThms: kern/arch/amd64/page.c, numa.c and the memory part of init.c.
    - Pagetree (definitions), PageRefs (ownership of pages), PagetreeSpec, PagetreeOps,
      PagetreeWhole, PagetreeThms, PagetreeFree, PagetreeProps: kern/kern/pagetree.c.
      Supply: how many pages code can take, and what it does not change.
    - Darray, DarrayThms, DarrayProps: kern/kern/darray.c.
    - KMap, KMapThms, KMapRehash, KMapProps: kern/kern/map.c.
    - Pmap, PmapSpec, PmapThms, PmapProps: kern/arch/amd64/pmap.c.
    - Kobj, KobjThms, KobjProps, Collect: kern/kern/kobj.c, id.c, inc/queue.h.
    - Share: kern/kern/share.c, sharemap.c.
    - At: kern/kern/segment.c, atmap.c, at.c, and check_user_access of pmap.c.  Proc:
      kern/kern/processor.c, the callbacks of at.c, share.c and sharemap.c, and the
      collector.  Syscall: kern/kern/syscall.c.  KernExamples: runs of system calls.
    - Effects, Space, AtThms, Fault, Lookup, FaultProps, FaultExamples: page faults.
      Access: the check of user memory.
    - Uas, UasThms, UasProps: lib/as.c, lib/segment.c, against [ProcKernel]; UserKernel
      is an instance.
    - Ramfs, RamfsThms, RamfsDir: fs/ramfs.c.  Fs: fs/fs.c, mount.c, namei.c, lib/fs.c
      and the creation of files in lib/unixfd.c.  FsProps, FsExamples: theorems and runs.

    ** What the theorems show

    - The allocator (PageAlloc, BootThms): booting from any sane memory map establishes
      the allocator's invariant with exactly the unused pages of usable memory free; the
      operations refine a set of free pages; no history of calls hands out a page twice.
    - Page trees, dynamic arrays, kernel maps: a system of trees owns its pages exactly
      ([refs_inv]: reference counts equal the number of references); every operation acts
      on the abstract array, array of entries or finite map and leaves all other trees
      alone; errors leave the abstract value unchanged; freeing returns everything.  Where
      code panics or fails for want of memory the theorem bounds the free pages.
    - Page tables (Pmap): mapping, linking and invalidating change exactly the
      translations they should, for the walk the hardware does; freeing returns exactly
      the tables.
    - Objects (KobjProps, Collect): identifiers are unique, a new object is a fresh page,
      the collector stops and frees what nobody refers to.
    - Page faults (FaultProps, Access): a fault on a mapped segment ends with the address
      showing the page of the segment, with the page map, both tables of mappings, the
      list of mappings of the segment, its array of pages and the allocator all kept
      well-formed; a fault on an unmapped address is refused; the check of user memory is
      exact where no page has to be brought in.
    - Locks: exclusion in all interleavings; for the queue lock also first come, first
      served, and that every waiting CPU gets the lock in every fair run.
    - Library routines: each copy, fill and string routine does exactly its job for every
      length, alignment and overlap, the C and assembly versions agree, a printed number
      is read back as itself, output is bounded by the buffer, the hash table refines a
      finite map, the random generator keeps its table a permutation.
    - Address spaces and files of a process (UasProps, FsProps): mappings do not overlap
      and show their segment, unmapping undoes mapping, created names are found, what is
      written is read back, paths are walked name by name.
    - Deviations the model found: theorems in the files of their components, and runs of
      concrete programs in KernExamples, UasProps and FsExamples.

    ** Not modelled

    - Weak memory: x86 may reorder a store with a later load of another location.  The
      lock proofs take memory to be sequentially consistent, which the locked instructions
      of the acquiring paths provide.
    - Interleavings of the memory-management, object and library code: each operation
      runs alone between taking and releasing its locks.
    - The kernel object layer is modelled whole, but the theorems about all states cover
      allocation, collection of segments and devices, page faults on segments and the
      check of user memory; shares, processors, interior trees and the system calls are
      exercised by concrete runs only.  The monitor mode of processors and the delivery of
      traps to user handlers are left out.
    - That the modelled kernel satisfies [ProcKernelLaws] is not proved: the laws state
      what the library relies on, and UserKernel shows that they can be met.
    - Traps, interrupts and multiprocessor start (trap.c, mp.c, irq.c, locore.S) are
      hardware entry and exit paths; drivers (kern/dev) talk to devices that are not part
      of the sources; console, debugging and profiling only print and count; uinit.c loads
      the first program.
    - Of the user library: threads but for their mutexes, the table of descriptors,
      sockets, mmap, the heap and pfork; the file systems vfs0 and dbfs, whose operations
      are arguments of path lookup; the test programs (user/).
    - pkg/ holds uClibc, lwIP, sqlite and other projects' code. *)
From stdpp Require Export base tactics numbers list gmap.
From Stdlib Require Export ZArith Lia Bool.
#[export] Set Default Goal Selector "!".
Global Open Scope Z_scope.

(** ** Machine integers

    A [w]-bit unsigned C integer is a [Z] kept in [0, 2^w); arithmetic that can
    leave the range is followed by the wrap-around, written out. *)

Definition u8 (z : Z) : Z := z mod 2 ^ 8.
Definition u32 (z : Z) : Z := z mod 2 ^ 32.
Definition u64 (z : Z) : Z := z mod 2 ^ 64.

(** Conversion to a signed type of the same width (two's complement). *)
Definition s32 (z : Z) : Z := (z + 2 ^ 31) mod 2 ^ 32 - 2 ^ 31.
Definition s64 (z : Z) : Z := (z + 2 ^ 63) mod 2 ^ 64 - 2 ^ 63.

Definition in_u32 (z : Z) : Prop := 0 ≤ z < 2 ^ 32.
Definition in_u64 (z : Z) : Prop := 0 ≤ z < 2 ^ 64.

Lemma u32_range z : in_u32 (u32 z).
Proof. unfold in_u32, u32. apply Z.mod_pos_bound. lia. Qed.
Lemma u64_range z : in_u64 (u64 z).
Proof. unfold in_u64, u64. apply Z.mod_pos_bound. lia. Qed.
Lemma u32_small z : in_u32 z → u32 z = z.
Proof. apply Z.mod_small. Qed.
Lemma u64_small z : in_u64 z → u64 z = z.
Proof. apply Z.mod_small. Qed.

Lemma u32_idemp_add a b : u32 (u32 a + b) = u32 (a + b).
Proof. unfold u32. by rewrite Zplus_mod_idemp_l. Qed.
Lemma s32_u32 z : - 2 ^ 31 ≤ z < 2 ^ 31 → s32 (u32 z) = z.
Proof.
  intros Hz. unfold s32, u32. rewrite Zplus_mod_idemp_l, Z.mod_small by lia. lia.
Qed.

(** Lemmas that settle side conditions by themselves. *)
Create HintDb corey.
#[export] Hint Resolve u32_range u64_range : corey.

(** ** Running C code: state, return and fault

    A C function is a function from the state it runs in to an outcome.  It
    either returns a value and the new state, or it does not return:
    - [Panic]: [panic] or a failed [assert];
    - [Undef]: an access outside what the C program may touch (a null or dangling
      pointer, an object of another type, an index past the end of an array);
    - [Hang]: a busy-wait loop whose condition nobody can change any more;
    - [NoFuel]: the bound given to a recursive definition was too small. *)

Inductive fault := Panic | Undef | Hang | NoFuel.

Inductive outcome (S A : Type) :=
| Ret (a : A) (s : S)
| Crash (f : fault).
Arguments Ret {S A} a s.
Arguments Crash {S A} f.

Definition M (S A : Type) : Type := S → outcome S A.

#[export] Instance m_ret {S} : MRet (M S) := λ A a s, Ret a s.
#[export] Instance m_bind {S} : MBind (M S) := λ A B k m s,
  match m s with Ret a s' => k a s' | Crash f => Crash f end.

Definition get {S} : M S S := λ s, Ret s s.
Definition gets {S A} (f : S → A) : M S A := λ s, Ret (f s) s.
Definition put {S} (s' : S) : M S unit := λ _, Ret tt s'.
Definition modify {S} (f : S → S) : M S unit := λ s, Ret tt (f s).
Definition crash {S A} (f : fault) : M S A := λ _, Crash f.
Definition panic {S A} : M S A := crash Panic.
Definition undef {S A} : M S A := crash Undef.
Definition c_assert {S} (b : bool) : M S unit := if b then mret tt else panic.
(** Reading through a pointer: undefined when nothing is there. *)
Definition deref {S A} (f : S → option A) : M S A := λ s,
  match f s with Some a => Ret a s | None => Crash Undef end.
Definition when {S} (b : bool) (m : M S unit) : M S unit := if b then m else mret tt.

(** Running a computation on a part of the state. *)
Definition zoom {S T A} (proj : S → T) (upd : T → S → S) (m : M T A) : M S A := λ s,
  match m (proj s) with Ret a t => Ret a (upd t s) | Crash f => Crash f end.

(** [for (i = lo; i < hi; i++) body] whose body may return early with a value. *)
Fixpoint for_loop {S R} (n : nat) (i : Z) (body : Z → M S (option R)) : M S (option R) :=
  match n with
  | O => mret None
  | S n' => r ← body i;
            match r with
            | Some x => mret (Some x)
            | None => for_loop n' (i + 1) body
            end
  end.

(** [for (i = lo; i < hi; i++) body] with no early exit. *)
Fixpoint for_each {S} (n : nat) (i : Z) (body : Z → M S unit) : M S unit :=
  match n with
  | O => mret tt
  | S n' => body i;; for_each n' (i + 1) body
  end.

(** ** Total correctness of one run

    [wp m s Q]: run from [s], [m] returns, and value and state satisfy [Q].  A
    crash of any kind falsifies it. *)
Definition wp {S A} (m : M S A) (s : S) (Q : A → S → Prop) : Prop :=
  match m s with Ret a s' => Q a s' | Crash _ => False end.

Section wp_rules.
Context {S : Type}.
Implicit Types s : S.

Lemma wp_ret {A} (a : A) s (Q : A → S → Prop) : Q a s → wp (mret a) s Q.
Proof. done. Qed.
Lemma wp_bind {A B} (m : M S A) (k : A → M S B) s Q :
  wp m s (λ a s', wp (k a) s' Q) → wp (m ≫= k) s Q.
Proof. unfold wp, mbind, m_bind. by destruct (m s). Qed.
Lemma wp_bind_inv {A B} (m : M S A) (k : A → M S B) s Q :
  wp (m ≫= k) s Q → wp m s (λ a s', wp (k a) s' Q).
Proof. unfold wp, mbind, m_bind. by destruct (m s). Qed.
Lemma wp_mono {A} (m : M S A) s (Q R : A → S → Prop) :
  wp m s Q → (∀ a s', Q a s' → R a s') → wp m s R.
Proof. unfold wp. destruct (m s); naive_solver. Qed.
Lemma wp_conj {A} (m : M S A) s (Q R : A → S → Prop) :
  wp m s Q → wp m s R → wp m s (λ a s', Q a s' ∧ R a s').
Proof. unfold wp. destruct (m s); naive_solver. Qed.
Lemma wp_gets {A} (f : S → A) s (Q : A → S → Prop) : Q (f s) s → wp (gets f) s Q.
Proof. done. Qed.
Lemma wp_get s (Q : S → S → Prop) : Q s s → wp get s Q.
Proof. done. Qed.
Lemma wp_put s s' (Q : unit → S → Prop) : Q tt s' → wp (put s') s Q.
Proof. done. Qed.
Lemma wp_modify (f : S → S) s (Q : unit → S → Prop) : Q tt (f s) → wp (modify f) s Q.
Proof. done. Qed.
Lemma wp_assert b s (Q : unit → S → Prop) : b = true → Q tt s → wp (c_assert b) s Q.
Proof. by intros ->. Qed.
Lemma wp_deref {A} (f : S → option A) s a (Q : A → S → Prop) :
  f s = Some a → Q a s → wp (deref f) s Q.
Proof. unfold wp, deref. by intros ->. Qed.
Lemma wp_when_true b (m : M S unit) s Q : b = true → wp m s Q → wp (when b m) s Q.
Proof. by intros ->. Qed.
Lemma wp_when_false b (m : M S unit) s (Q : unit → S → Prop) :
  b = false → Q tt s → wp (when b m) s Q.
Proof. by intros ->. Qed.
Lemma wp_run {A} (m : M S A) s Q : wp m s Q ↔ ∃ a s', m s = Ret a s' ∧ Q a s'.
Proof.
  unfold wp. destruct (m s) as [a s'|f]; split; [|by intros (?&?&[= <- <-]&?)|done|by intros (?&?&?&?)].
  intros HQ. by exists a, s'.
Qed.

(** A loop whose body never exits early keeps an invariant indexed by the counter. *)
Lemma wp_for_each (I : Z → S → Prop) n lo body s Q :
  I lo s →
  (∀ i s', lo ≤ i < lo + Z.of_nat n → I i s' → wp (body i) s' (λ _ s'', I (i + 1) s'')) →
  (∀ s', I (lo + Z.of_nat n) s' → Q tt s') →
  wp (for_each n lo body) s Q.
Proof.
  revert lo s. induction n as [|n IH]; intros lo s HI Hbody HQ; simpl.
  - apply wp_ret, HQ. by replace (lo + Z.of_nat 0) with lo by lia.
  - apply wp_bind. eapply wp_mono; [apply Hbody; [lia|done]|].
    intros [] s' HI'. apply IH; [done| |].
    + intros i s'' Hi. apply Hbody. lia.
    + intros s'' HI''. apply HQ. by replace (lo + Z.of_nat (Datatypes.S n)) with (lo + 1 + Z.of_nat n) by lia.
Qed.

(** The same for loops with early exit: [E] is what an early exit guarantees. *)
Lemma wp_for_loop {R} (I : Z → S → Prop) (E : R → S → Prop) n lo body s Q :
  I lo s →
  (∀ i s', lo ≤ i < lo + Z.of_nat n → I i s' →
     wp (body i) s' (λ o s'', match o with Some x => E x s'' | None => I (i + 1) s'' end)) →
  (∀ x s', E x s' → Q (Some x) s') →
  (∀ s', I (lo + Z.of_nat n) s' → Q None s') →
  wp (for_loop n lo body) s Q.
Proof.
  revert lo s. induction n as [|n IH]; intros lo s HI Hbody HE HQ; simpl.
  - apply wp_ret, HQ. by replace (lo + Z.of_nat 0) with lo by lia.
  - apply wp_bind. eapply wp_mono; [apply Hbody; [lia|done]|].
    intros [x|] s' Hs'; simpl; [by apply wp_ret, HE|].
    apply IH; [done| |done|].
    + intros i s'' Hi. apply Hbody. lia.
    + intros s'' HI''. apply HQ. by replace (lo + Z.of_nat (Datatypes.S n)) with (lo + 1 + Z.of_nat n) by lia.
Qed.

Lemma wp_zoom {T A} (proj : S → T) (upd : T → S → S) (m : M T A) s Q :
  wp m (proj s) (λ a t, Q a (upd t s)) → wp (zoom proj upd m) s Q.
Proof. unfold wp, zoom. by destruct (m (proj s)). Qed.
End wp_rules.

(** Code that may also panic, but only under condition [X]. *)
Definition wpx {S A} (m : M S A) (s : S) (Q : A → S → Prop) (X : Prop) : Prop :=
  match m s with Ret a s' => Q a s' | Crash f => f = Panic ∧ X end.

Lemma wp_eq {S A} (c : M S A) s a s' (Q : A → S → Prop) : c s = Ret a s' → Q a s' → wp c s Q.
Proof. unfold wp. by intros ->. Qed.
Lemma bind_ret {S A B} (m : M S A) (k : A → M S B) s a s' r : m s = Ret a s' → k a s' = r → (m ≫= k) s = r.
Proof. unfold mbind, m_bind. by intros ->. Qed.
Lemma bind_crash {S A B} (m : M S A) (k : A → M S B) s f : m s = Crash f → (m ≫= k) s = Crash f.
Proof. unfold mbind, m_bind. by intros ->. Qed.
Lemma wp_wpx {S A} (m : M S A) s (Q : A → S → Prop) X : wp m s Q → wpx m s Q X.
Proof. unfold wp, wpx. by destruct (m s). Qed.
Lemma wpx_wp {S A} (m : M S A) s (Q : A → S → Prop) X : wpx m s Q X → ¬ X → wp m s Q.
Proof. unfold wp, wpx. destruct (m s); tauto. Qed.
Lemma wpx_bind_wp {S A B} (m : M S A) (k : A → M S B) s (Q : B → S → Prop) X :
  wp m s (λ a s', wpx (k a) s' Q X) → wpx (m ≫= k) s Q X.
Proof. unfold wp, wpx, mbind, m_bind. by destruct (m s). Qed.
Lemma wpx_bind {S A B} (m : M S A) (k : A → M S B) s (Q : B → S → Prop) X :
  wpx m s (λ a s', wpx (k a) s' Q X) X → wpx (m ≫= k) s Q X.
Proof. unfold wpx, mbind, m_bind. by destruct (m s). Qed.
Lemma wpx_mono {S A} (m : M S A) s (Q R : A → S → Prop) (X Y : Prop) :
  wpx m s Q X → (∀ a s', Q a s' → R a s') → (X → Y) → wpx m s R Y.
Proof. unfold wpx. destruct (m s); [auto|tauto]. Qed.

(** [wp_pure] runs the administrative steps of a goal [wp _ _ _], tests of
    result codes included: it stops at the first step that needs a fact about
    the state. *)
Ltac wp_pure1 :=
  lazymatch goal with
  | |- wp (mbind _ _) _ _ => apply wp_bind
  | |- wp (mret _) _ _ => apply wp_ret
  | |- wp (gets _) _ _ => apply wp_gets
  | |- wp get _ _ => apply wp_get
  | |- wp (put _) _ _ => apply wp_put
  | |- wp (modify _) _ _ => apply wp_modify
  | |- wp (zoom _ _ _) _ _ => apply wp_zoom
  | |- wp (if 0 <? 0 then _ else _) _ _ => change (0 <? 0) with false
  | |- wp (if 0 =? 0 then _ else _) _ _ => change (0 =? 0) with true
  | |- wp (if - ?e <? 0 then _ else _) _ _ => is_const e; change (- e <? 0) with true
  end.
Ltac wp_pure := cbv beta iota; repeat (wp_pure1; cbv beta iota).

(** Linear arithmetic with division and remainder by constants. *)
Ltac dlia := Z.to_euclidean_division_equations; lia.

(** ** Generic lemmas *)

Lemma omap_length_le {A B} (f : A → option B) (l : list A) : (length (omap f l) ≤ length l)%nat.
Proof. induction l as [|x l IH]; csimpl; [done|]. destruct (f x); csimpl; lia. Qed.

(** A mask of low bits is a remainder. *)
Lemma land_mask z mask k : 0 ≤ k → mask = 2 ^ k - 1 → Z.land z mask = z mod 2 ^ k.
Proof. intros Hk ->. rewrite <- Z.land_ones by lia. f_equal. rewrite Z.ones_equiv. lia. Qed.
(** A test that holds on a range, checked by running it. *)
Lemma forallb_seqZ (p : Z → bool) lo n x : forallb p (seqZ lo n) = true → lo ≤ x < lo + n → p x = true.
Proof. rewrite forallb_forall. intros Hall Hx. apply Hall, list_elem_of_In, elem_of_seqZ. lia. Qed.

(** Counting the elements of a list that satisfy a test. *)
Fixpoint countb {A} (p : A → bool) (l : list A) : Z :=
  match l with [] => 0 | x :: l' => Z.b2z (p x) + countb p l' end.

Section countb.
Context {A : Type} (p : A → bool).
Implicit Types l : list A.

Lemma b2z_range (b : bool) : 0 ≤ Z.b2z b ≤ 1.
Proof. destruct b; simpl; lia. Qed.
Lemma countb_range l : 0 ≤ countb p l ≤ Z.of_nat (length l).
Proof. induction l as [|x l IH]; simpl; [lia|]. pose proof (b2z_range (p x)). lia. Qed.
Lemma countb_insert l i x y :
  l !! i = Some x → countb p (<[i := y]> l) = countb p l - Z.b2z (p x) + Z.b2z (p y).
Proof.
  revert i. induction l as [|z l IH]; intros [|i]; simpl; try done; [intros [= ->]; lia|].
  intros Hi. rewrite (IH _ Hi). lia.
Qed.
Lemma countb_pos l i x : l !! i = Some x → p x = true → 0 < countb p l.
Proof.
  revert i. induction l as [|z l IH]; intros [|i]; simpl; try done.
  - intros [= ->] ->. pose proof (countb_range l). simpl. lia.
  - intros Hi Hx. pose proof (b2z_range (p z)). pose proof (IH _ Hi Hx). lia.
Qed.
Lemma countb_unique l i j x y :
  countb p l ≤ 1 → l !! i = Some x → p x = true → l !! j = Some y → p y = true → i = j.
Proof.
  revert i j. induction l as [|z l IH]; intros i j Hc Hi Hx Hj Hy; [done|].
  pose proof (b2z_range (p z)). simpl in Hc. destruct i as [|i], j as [|j]; simpl in *; try done.
  - injection Hi as ->. rewrite Hx in Hc. simpl in Hc. pose proof (countb_pos _ _ _ Hj Hy). lia.
  - injection Hj as ->. rewrite Hy in Hc. simpl in Hc. pose proof (countb_pos _ _ _ Hi Hx). lia.
  - f_equal. apply (IH i j); [lia|done..].
Qed.
Lemma countb_none l : countb p l = 0 ↔ ∀ i x, l !! i = Some x → p x = false.
Proof.
  split.
  - intros H0 i x Hi. destruct (p x) eqn:Hx; [|done]. pose proof (countb_pos _ _ _ Hi Hx). lia.
  - induction l as [|z l IH]; intros Hno; [done|]. simpl.
    rewrite IH by (intros i x Hi; by apply (Hno (S i))). by rewrite (Hno 0%nat z eq_refl).
Qed.
Lemma countb_le_1 l : (∀ i j x y, l !! i = Some x → l !! j = Some y → p x = true → p y = true → i = j) → countb p l ≤ 1.
Proof.
  induction l as [|a l IH]; intros Hu; simpl; [lia|]. destruct (p a) eqn:Ha; simpl.
  - assert (countb p l = 0); [|lia]. apply countb_none. intros i x Hi. destruct (p x) eqn:Hx; [|done].
    by discriminate (Hu 0%nat (S i) a x eq_refl Hi Ha Hx).
  - apply IH. intros i j x y Hi Hj Hx Hy. by injection (Hu (S i) (S j) x y Hi Hj Hx Hy).
Qed.
Lemma countb_replicate n x : p x = false → countb p (replicate n x) = 0.
Proof. intros Hx. induction n as [|n IH]; simpl; [done|]. by rewrite Hx, IH. Qed.
End countb.

Lemma countb_mono {A} (p q : A → bool) l : (∀ x, p x = true → q x = true) → countb p l ≤ countb q l.
Proof.
  intros Hpq. induction l as [|x l IH]; simpl; [lia|]. specialize (Hpq x).
  destruct (p x), (q x); simpl; lia.
Qed.

(** An invariant of a step relation holds in all reachable states. *)
Lemma rtc_invariant {A} (R : relation A) (I : A → Prop) x y :
  (∀ x y, I x → R x y → I y) → I x → rtc R x y → I y.
Proof. intros Hs Hx Hr. revert Hx. induction Hr as [|x y z Hxy _ IH]; eauto. Qed.

(** ** Error codes (inc/error.h) *)
Definition E_UNSPEC : Z := 1.
Definition E_INVAL : Z := 2.
Definition E_NO_MEM : Z := 3.
Definition E_RESTART : Z := 4.
Definition E_NOT_FOUND : Z := 5.
Definition E_PERM : Z := 6.
Definition E_BUSY : Z := 7.
Definition E_NO_SPACE : Z := 8.
Definition E_AGAIN : Z := 9.
Definition E_IO : Z := 10.
Definition E_BAD_TYPE : Z := 11.
Definition E_EXISTS : Z := 12.
Definition E_RANGE : Z := 13.
