(* ===== verification/Machine.v ===== *)
(** * Machine-level macros

    The integer macros every component uses: rounding (inc/intmacro.h), the
    overflow-reporting arithmetic (inc/safeint.h), the page-size and page-table
    index macros (kern/arch/amd64/mmu-x86.h) and the constants of the address
    space layout (kern/arch/amd64/memlayout.h).

    The theorems say when rounding is exact and where it wraps, that
    [safe_add64] and [safe_mul64] report exactly the overflows, and that the four
    page-table indices and the page offset determine a user address. *)
From S2P Require Import Prelude.

(** ** inc/intmacro.h *)

(** [ROUNDDOWN(a, n)]: [__ra - __ra % n] on [uintptr_t]. *)
Definition ROUNDDOWN (a n : Z) : Z := u64 a - u64 a mod n.

(** [ROUNDUP(a, n)]: [ROUNDDOWN((uintptr_t) a + n - 1, n)], the sum wrapping at 64 bits. *)
Definition ROUNDUP (a n : Z) : Z := ROUNDDOWN (u64 (a + n - 1)) n.

Definition JMIN (a b : Z) : Z := if a <=? b then a else b.
Definition JMAX (a b : Z) : Z := if a >=? b then a else b.

(** [!(((n) - 1) & (n))] *)
Definition IS_POWER_OF_2 (n : Z) : bool := Z.land (n - 1) n =? 0.

(** ** inc/safeint.h

    [SAFEINT_FUNCTIONS(suffix, T)]: both arguments are [uint64_t], the result is
    of type [T]; the flag [*of] is only ever raised. *)
Definition safe_add (T : Z → Z) (ovf a b : Z) : Z * Z :=
  let r := T (u64 (a + b)) in (r, if r <? a then 1 else ovf).
Definition safe_mul (T : Z → Z) (ovf a b : Z) : Z * Z :=
  let r := T (u64 (a * b)) in (r, if negb (a =? 0) && negb (r / a =? b) then 1 else ovf).

Definition safe_add32 := safe_add u32.
Definition safe_mul32 := safe_mul u32.
Definition safe_add64 := safe_add u64.
Definition safe_mul64 := safe_mul u64.
Definition safe_addptr := safe_add u64.
Definition safe_mulptr := safe_mul u64.

(** ** kern/arch/amd64/mmu-x86.h and mmu.h *)
Definition PGSHIFT : Z := 12.
Definition PGSIZE : Z := Z.shiftl 1 PGSHIFT.
Definition PGMASK : Z := PGSIZE - 1.
Definition PGOFF (la : Z) : Z := Z.land (u64 la) PGMASK.
Definition PGADDR (la : Z) : Z := Z.land (u64 la) (u64 (Z.lnot PGMASK)).
Definition PPN (la : Z) : Z := Z.shiftr la PGSHIFT.

Definition NPTBITS : Z := 9.
Definition NPTLVLS : Z := 3.
Definition NPTENTRIES : Z := Z.shiftl 1 NPTBITS.
Definition PDXMASK : Z := Z.shiftl 1 NPTBITS - 1.
Definition PDSHIFT (n : Z) : Z := 12 + NPTBITS * n.
Definition PDX (n la : Z) : Z := Z.land (Z.shiftr (u64 la) (PDSHIFT n)) PDXMASK.

(** The part of the address space an interior page map covers. *)
Definition PISHIFT : Z := 30.
Definition PISIZE : Z := Z.shiftl 1 PISHIFT.
Definition PIPAGES : Z := Z.shiftr PISIZE PGSHIFT.

Definition PTE_P : Z := 0x001.
Definition PTE_W : Z := 0x002.
Definition PTE_U : Z := 0x004.
Definition PTE_PS : Z := 0x080.
Definition PTE_G : Z := 0x100.
Definition PTE_NX : Z := 0x8000000000000000.
Definition PTE_ADDR (pte : Z) : Z := Z.land (u64 pte) 0xffffffffff000.
Definition PTE_FLAGS (pte : Z) : Z := Z.land (u64 pte) 0xfff0000000000fff.

(** ** kern/arch/amd64/memlayout.h and param.h *)
Definition KERNBASE : Z := 0xffffffff80000000.
Definition PHYSBASE : Z := 0xffff800000000000.
Definition ULIM : Z := 0x0000800000000000.
Definition RELOC (x : Z) : Z := u64 (x - KERNBASE).
Definition IOPHYSMEM : Z := 0x0A0000.
Definition BIOSPHYSMEM : Z := 0x0F0000.
Definition EXTPHYSMEM : Z := 0x100000.
Definition JOS_NCPU : Z := 16.
Definition JOS_NNODE : Z := JOS_NCPU.

(** ** Rounding *)

Lemma ROUNDDOWN_small a n : in_u64 a → ROUNDDOWN a n = a - a mod n.
Proof. intros Ha. unfold ROUNDDOWN. by rewrite u64_small. Qed.

Lemma ROUNDDOWN_spec a n :
  in_u64 a → 0 < n → ROUNDDOWN a n ≤ a < ROUNDDOWN a n + n ∧ ROUNDDOWN a n mod n = 0.
Proof.
  intros Ha Hn. rewrite ROUNDDOWN_small by done.
  pose proof (Z.mod_pos_bound a n Hn). split; [lia|].
  rewrite Zminus_mod, Zmod_mod, Z.sub_diag. apply Z.mod_0_l. lia.
Qed.

Lemma ROUNDUP_exact a n :
  in_u64 a → 0 < n → a + n - 1 < 2 ^ 64 →
  ROUNDUP a n = n * ((a + n - 1) / n) ∧ a ≤ ROUNDUP a n < a + n.
Proof.
  intros [Ha0 Ha] Hn Hof. unfold ROUNDUP.
  rewrite (u64_small (a + n - 1)) by (unfold in_u64; lia).
  rewrite ROUNDDOWN_small by (unfold in_u64; lia).
  pose proof (Z.div_mod (a + n - 1) n ltac:(lia)).
  pose proof (Z.mod_pos_bound (a + n - 1) n Hn). lia.
Qed.

(** Number of [n]-sized pieces that cover [a]: [ROUNDUP(a, n) / n]. *)
Lemma ROUNDUP_div a n :
  in_u64 a → 0 < n → a + n - 1 < 2 ^ 64 → ROUNDUP a n / n = (a + n - 1) / n.
Proof.
  intros Ha Hn Hof. destruct (ROUNDUP_exact a n Ha Hn Hof) as [-> _].
  rewrite Z.mul_comm. apply Z.div_mul. lia.
Qed.

(** [ROUNDUP] is the least multiple of [n] that is at least [a], as long as
    [a + n - 1] does not exceed the 64-bit range; past it the sum wraps and the
    result is below [n] (for [n] dividing [2^64]), not above [a]. *)
Theorem ROUNDUP_spec a n :
  in_u64 a → 0 < n → (n | 2 ^ 64) →
  (a + n - 1 < 2 ^ 64 → ROUNDUP a n mod n = 0 ∧ a ≤ ROUNDUP a n ∧
     ∀ m, m mod n = 0 → a ≤ m → ROUNDUP a n ≤ m) ∧
  (2 ^ 64 ≤ a + n - 1 → ROUNDUP a n = 0).
Proof.
  intros Ha Hn Hdiv. assert (n ≤ 2 ^ 64) by (apply Z.divide_pos_le; [lia|done]).
  split.
  - intros Hof. destruct (ROUNDUP_exact a n Ha Hn Hof) as [Heq Hb].
    split; [|split; [lia|]].
    + rewrite Heq, Z.mul_comm. apply Z.mod_mul. lia.
    + intros m Hm Ham. rewrite Heq.
      pose proof (Z.div_mod m n ltac:(lia)). rewrite Hm, Z.add_0_r in *.
      enough ((a + n - 1) / n ≤ m / n) by nia.
      replace (m / n) with ((m + n - 1) / n).
      * apply Z.div_le_mono; lia.
      * replace (m + n - 1) with ((n - 1) + (m / n) * n) by lia.
        rewrite Z.div_add, Z.div_small by lia. lia.
  - intros Hof. unfold ROUNDUP, in_u64 in *.
    assert (u64 (a + n - 1) = a + n - 1 - 2 ^ 64) as ->.
    { unfold u64. symmetry. apply Z.mod_unique with 1; lia. }
    rewrite ROUNDDOWN_small by (unfold in_u64; lia).
    rewrite Z.mod_small by lia. lia.
Qed.

Lemma ROUNDUP_spec_witness :
  ROUNDUP 4097 4096 = 8192 ∧ ROUNDUP (2 ^ 64 - 1) 4096 = 0.
Proof.
  destruct (ROUNDUP_spec 4097 4096) as [[_ [Hle Hmin]] _];
    [unfold in_u64; lia|lia|exists (2 ^ 52); lia|lia|].
  destruct (ROUNDUP_spec (2 ^ 64 - 1) 4096) as [_ Hw];
    [unfold in_u64; lia|lia|exists (2 ^ 52); lia|].
  split; [reflexivity|apply Hw; lia].
Defined.

(** ** Overflow-reporting arithmetic *)

(** the 64-bit helpers report exactly the overflows: the flag rises iff the
    mathematical result does not fit in 64 bits, and otherwise the result is the
    mathematical one.  The address computations of [at_pmap_fill] and
    [at_check_uat] rely on this. *)
Theorem safe64_exact a b :
  in_u64 a → in_u64 b →
  safe_add64 0 a b = (u64 (a + b), if a + b <? 2 ^ 64 then 0 else 1) ∧
  safe_mul64 0 a b = (u64 (a * b), if a * b <? 2 ^ 64 then 0 else 1).
Proof.
  intros [Ha0 Ha] [Hb0 Hb]. unfold safe_add64, safe_mul64, safe_add, safe_mul.
  assert (∀ z, u64 (u64 z) = u64 z) as Huu by (intros; apply u64_small, u64_range).
  rewrite !Huu. split; f_equal.
  - destruct (Z.ltb_spec (a + b) (2 ^ 64)) as [Hs|Hs].
    + rewrite u64_small by (unfold in_u64; lia). destruct (Z.ltb_spec (a + b) a); lia.
    + assert (u64 (a + b) = a + b - 2 ^ 64) as ->.
      { unfold u64. symmetry. apply Z.mod_unique with 1; lia. }
      destruct (Z.ltb_spec (a + b - 2 ^ 64) a); lia.
  - destruct (Z.eqb_spec a 0) as [->|Hne]; [reflexivity|]. simpl negb.
    destruct (Z.ltb_spec (a * b) (2 ^ 64)) as [Hs|Hs].
    + rewrite u64_small by (unfold in_u64; nia).
      rewrite Z.mul_comm, Z.div_mul by lia. by rewrite Z.eqb_refl.
    + pose proof (u64_range (a * b)) as [Hr0 Hr].
      destruct (Z.eqb_spec (u64 (a * b) / a) b) as [Heq|]; [|done].
      pose proof (Z.mul_div_le (u64 (a * b)) a ltac:(lia)). nia.
Qed.

Lemma safe64_exact_witness :
  safe_add64 0 (2 ^ 63) (2 ^ 63) = (0, 1) ∧ safe_mul64 0 (2 ^ 33) (2 ^ 30) = (2 ^ 63, 0).
Proof.
  destruct (safe64_exact (2 ^ 63) (2 ^ 63)) as [-> _]; [unfold in_u64; lia..|].
  destruct (safe64_exact (2 ^ 33) (2 ^ 30)) as [_ ->]; [unfold in_u64; lia..|].
  done.
Defined.

(** ** Page offsets and page-table indices *)


Lemma PGOFF_mod la : in_u64 la → PGOFF la = la mod 4096.
Proof.
  intros Hla. unfold PGOFF, PGMASK, PGSIZE, PGSHIFT. rewrite u64_small by done.
  by apply (land_mask la _ 12).
Qed.

Lemma PDX_div n la : 0 ≤ n → in_u64 la → PDX n la = (la / 2 ^ (PDSHIFT n)) mod 512.
Proof.
  intros Hn Hla. unfold PDX, PDXMASK, NPTBITS. rewrite u64_small by done.
  rewrite Z.shiftr_div_pow2 by (unfold PDSHIFT, NPTBITS; lia).
  by apply (land_mask _ _ 9).
Qed.

(** the indices [PDX(3), PDX(2), PDX(1), PDX(0)] that the page-table walk
    uses, with the page offset, recompose a user address; so two user addresses
    with the same four indices lie in the same page. *)
Theorem PDX_decompose va :
  0 ≤ va < ULIM →
  va = Z.shiftl (PDX 3 va) (PDSHIFT 3) + Z.shiftl (PDX 2 va) (PDSHIFT 2) +
       Z.shiftl (PDX 1 va) (PDSHIFT 1) + Z.shiftl (PDX 0 va) (PDSHIFT 0) + PGOFF va.
Proof.
  unfold ULIM. intros Hva.
  assert (in_u64 va) by (unfold in_u64; lia).
  rewrite !PDX_div, PGOFF_mod by (done || lia).
  unfold PDSHIFT, NPTBITS. rewrite !Z.shiftl_mul_pow2 by lia.
  change (2 ^ (12 + 9 * 3)) with (2 ^ 39). change (2 ^ (12 + 9 * 2)) with (2 ^ 30).
  change (2 ^ (12 + 9 * 1)) with (2 ^ 21). change (2 ^ (12 + 9 * 0)) with 4096.
  assert (va / 2 ^ 39 mod 512 = va / 2 ^ 39) as ->.
  { apply Z.mod_small. split; [apply Z.div_pos; lia|apply Z.div_lt_upper_bound; lia]. }
  rewrite !Zmod_eq by lia. rewrite !Z.div_div by lia.
  change (2 ^ 30 * 512) with (2 ^ 39). change (2 ^ 21 * 512) with (2 ^ 30).
  change (4096 * 512) with (2 ^ 21). lia.
Qed.

Lemma PDX_decompose_witness :
  let va := 0x0000700601234567 in
  va = Z.shiftl (PDX 3 va) (PDSHIFT 3) + Z.shiftl (PDX 2 va) (PDSHIFT 2) +
       Z.shiftl (PDX 1 va) (PDSHIFT 1) + Z.shiftl (PDX 0 va) (PDSHIFT 0) + PGOFF va.
Proof. apply (PDX_decompose 0x0000700601234567). unfold ULIM. lia. Defined.
