(* ===== verification/Bytes.v ===== *)
(** * Byte-addressed memory

    The memory the string, copy, formatting and sorting routines of lib/ work on:
    a finite map from addresses to bytes.  An access to an address that holds no
    byte, and a word access that is not aligned, are faults, so a routine that is
    shown to return never makes one.  Words are little-endian.

    [copied m m' dst src n] is what all copy routines promise: the [n] bytes at
    [dst] are those that were at [src] before, and nothing else changed. *)
From S2P Require Import Prelude.

Abbreviation mem := (gmap Z Z).

Definition is_byte (b : Z) : Prop := 0 ≤ b < 256.

(** [*(uint8_t * ) a] and the store through it. *)
Definition load8 (a : Z) : M mem Z := deref (λ m, m !! a).
Definition store8 (a v : Z) : M mem unit := λ m,
  match m !! a with Some _ => Ret tt (<[a := u8 v]> m) | None => Crash Undef end.

(** [char] is signed on this machine. *)
Definition s8 (z : Z) : Z := (z + 2 ^ 7) mod 2 ^ 8 - 2 ^ 7.
Definition loadc (a : Z) : M mem Z := b ← load8 a; mret (s8 b).

Fixpoint load_le (n : nat) (a : Z) : M mem Z :=
  match n with
  | O => mret 0
  | S n' => b ← load8 a; w ← load_le n' (a + 1); mret (b + 256 * w)
  end.
Fixpoint store_le (n : nat) (a w : Z) : M mem unit :=
  match n with
  | O => mret tt
  | S n' => store8 a (w mod 256);; store_le n' (a + 1) (w / 256)
  end.

Definition load64 (a : Z) : M mem Z := if a mod 8 =? 0 then load_le 8 a else undef.
Definition store64 (a w : Z) : M mem unit := if a mod 8 =? 0 then store_le 8 a w else undef.
Definition load32 (a : Z) : M mem Z := if a mod 4 =? 0 then load_le 4 a else undef.
Definition store32 (a w : Z) : M mem unit := if a mod 4 =? 0 then store_le 4 a w else undef.

(** Byte [j] of a word. *)
Definition wbyte (w j : Z) : Z := (w / 2 ^ (8 * j)) mod 256.

(** ** Regions *)
Definition readable (m : mem) (a n : Z) : Prop :=
  ∀ x, a ≤ x < a + n → ∃ b, m !! x = Some b ∧ is_byte b.

Definition copied (m m' : mem) (dst src n : Z) : Prop :=
  ∀ x, m' !! x = if decide (dst ≤ x < dst + n) then m !! (x - dst + src) else m !! x.

Definition filled (m m' : mem) (dst n : Z) (f : Z → Z) : Prop :=
  ∀ x, m' !! x = if decide (dst ≤ x < dst + n) then Some (f (x - dst)) else m !! x.

(** The bytes of a region, as a list. *)
Definition bytes_at (m : mem) (a : Z) (l : list Z) : Prop :=
  ∀ i b, l !! i = Some b → m !! (a + Z.of_nat i) = Some b.

(** A memory that holds the list of bytes from address [a] on. *)
Fixpoint mem_of (a : Z) (l : list Z) : mem :=
  match l with [] => ∅ | b :: l' => <[a := b]> (mem_of (a + 1) l') end.

(** ** Words and their bytes *)

Lemma wbyte_range w j : is_byte (wbyte w j).
Proof. unfold wbyte, is_byte. apply Z.mod_pos_bound. lia. Qed.
Lemma wbyte_0 w : wbyte w 0 = w mod 256.
Proof. unfold wbyte. by rewrite Z.mul_0_r, Z.pow_0_r, Z.div_1_r. Qed.
Lemma wbyte_S w j : 0 ≤ j → wbyte w (j + 1) = wbyte (w / 256) j.
Proof.
  intros Hj. unfold wbyte. replace (8 * (j + 1)) with (8 + 8 * j) by lia.
  rewrite Z.pow_add_r by lia. change (2 ^ 8) with 256. rewrite Z.div_div by lia. done.
Qed.
Lemma wbyte_testbit w j i : 0 ≤ j → 0 ≤ i < 8 → Z.testbit (wbyte w j) i = Z.testbit w (8 * j + i).
Proof.
  intros Hj Hi. unfold wbyte. change 256 with (2 ^ 8). rewrite Z.mod_pow2_bits_low by lia.
  rewrite Z.div_pow2_bits by lia. f_equal. lia.
Qed.
Lemma byte_ext b c : is_byte b → is_byte c → (∀ i, 0 ≤ i < 8 → Z.testbit b i = Z.testbit c i) → b = c.
Proof.
  intros Hb Hc Hbits. apply Z.bits_inj'. intros i Hi. destruct (decide (i < 8)).
  { apply Hbits. lia. }
  assert (Hhi : ∀ x, is_byte x → Z.testbit x i = false).
  { intros x Hx. unfold is_byte in Hx. rewrite <- (Z.mod_small x (2 ^ 8)) by lia.
    apply Z.mod_pow2_bits_high. lia. }
  by rewrite !Hhi.
Qed.
Lemma u8_byte b : is_byte b → u8 b = b.
Proof. apply Z.mod_small. Qed.
Lemma u8_is_byte b : is_byte (u8 b).
Proof. unfold u8, is_byte. apply Z.mod_pos_bound. lia. Qed.


Lemma u64_bits z i : 0 ≤ i → Z.testbit (u64 z) i = (i <? 64) && Z.testbit z i.
Proof.
  intros Hi. unfold u64. destruct (Z.ltb_spec i 64).
  - rewrite Z.mod_pow2_bits_low by lia. done.
  - rewrite Z.mod_pow2_bits_high by lia. done.
Qed.

(** A number without bits from [n] on is below [2 ^ n], and conversely. *)
Lemma high_bits n x i : 0 ≤ x < 2 ^ n → 0 ≤ n ≤ i → Z.testbit x i = false.
Proof. intros Hx Hi. rewrite <- (Z.mod_small x (2 ^ n)) by lia. apply Z.mod_pow2_bits_high. lia. Qed.
Lemma bits_small n x : 0 ≤ n → (∀ i, n ≤ i → Z.testbit x i = false) → 0 ≤ x < 2 ^ n.
Proof.
  intros Hn Hhi. assert (x = x mod 2 ^ n) as ->; [|apply Z.mod_pos_bound; lia].
  apply Z.bits_inj'. intros i Hi. destruct (decide (i < n)).
  - by rewrite Z.mod_pow2_bits_low by lia.
  - by rewrite Z.mod_pow2_bits_high, Hhi by lia.
Qed.

(** Rounding down by a mask. *)
Lemma land_neg_pow2 k z : 0 ≤ k → Z.land z (- 2 ^ k) = 2 ^ k * (z / 2 ^ k).
Proof.
  intros Hk. replace (- 2 ^ k) with (Z.lnot (Z.ones k)) by (rewrite Z.ones_equiv; unfold Z.lnot; lia).
  rewrite <- Z.ldiff_land, Z.ldiff_ones_r by lia. rewrite Z.shiftl_mul_pow2, Z.shiftr_div_pow2 by lia. lia.
Qed.

(** ** Regions, continued *)

Lemma readable_sub m a n a' n' : readable m a n → a ≤ a' → a' + n' ≤ a + n → readable m a' n'.
Proof. intros H ?? x Hx. apply H. lia. Qed.
Lemma readable_copied m m' dst src n a k :
  readable m src n → readable m a k → copied m m' dst src n → readable m' a k.
Proof.
  intros Hs Ha Hc x Hx. rewrite Hc. destruct (decide _); [apply Hs; lia|by apply Ha].
Qed.
Lemma readable_filled m m' dst n f a k :
  (∀ i, 0 ≤ i < n → is_byte (f i)) → readable m a k → filled m m' dst n f → readable m' a k.
Proof.
  intros Hf Ha Hc x Hx. rewrite Hc. destruct (decide _); [|by apply Ha].
  eexists. split; [done|]. apply Hf. lia.
Qed.

Lemma copied_0 m dst src : copied m m dst src 0.
Proof. intros x. rewrite decide_False; [done|lia]. Qed.
Lemma copied_same m dst n : copied m m dst dst n.
Proof. intros x. destruct (decide _); [|done]. f_equal. lia. Qed.
Lemma copied_fwd m m1 m2 dst src a b :
  0 ≤ a → 0 ≤ b → dst ≤ src ∨ src + a + b ≤ dst →
  copied m m1 dst src a → copied m1 m2 (dst + a) (src + a) b → copied m m2 dst src (a + b).
Proof.
  intros Ha Hb Hd H1 H2 x. rewrite H2.
  destruct (decide (dst + a ≤ x < dst + a + b)) as [Hx|Hx].
  - rewrite (decide_True (P := dst ≤ x < dst + (a + b))) by lia. rewrite H1, decide_False by lia. f_equal. lia.
  - rewrite H1. destruct (decide (dst ≤ x < dst + a)).
    + by rewrite (decide_True (P := dst ≤ x < dst + (a + b))) by lia.
    + by rewrite (decide_False (P := dst ≤ x < dst + (a + b))) by lia.
Qed.
Lemma copied_bwd m m1 m2 dst src a b :
  0 ≤ a → 0 ≤ b → src ≤ dst ∨ dst + a + b ≤ src →
  copied m m1 (dst + a) (src + a) b → copied m1 m2 dst src a → copied m m2 dst src (a + b).
Proof.
  intros Ha Hb Hd H1 H2 x. rewrite H2.
  destruct (decide (dst ≤ x < dst + a)) as [Hx|Hx].
  - rewrite (decide_True (P := dst ≤ x < dst + (a + b))) by lia. rewrite H1, decide_False by lia. f_equal.
  - rewrite H1. destruct (decide (dst + a ≤ x < dst + a + b)).
    + rewrite (decide_True (P := dst ≤ x < dst + (a + b))) by lia. f_equal. lia.
    + by rewrite (decide_False (P := dst ≤ x < dst + (a + b))) by lia.
Qed.
Lemma filled_app m m1 m2 dst a b f g h :
  0 ≤ a → 0 ≤ b → (∀ i, 0 ≤ i < a → h i = f i) → (∀ i, 0 ≤ i < b → h (a + i) = g i) →
  filled m m1 dst a f → filled m1 m2 (dst + a) b g → filled m m2 dst (a + b) h.
Proof.
  intros Ha Hb Hf Hg H1 H2 x. rewrite H2.
  destruct (decide (dst + a ≤ x < dst + a + b)) as [Hx|Hx].
  - rewrite decide_True by lia. rewrite <- Hg by lia. do 2 f_equal. lia.
  - rewrite H1. destruct (decide (dst ≤ x < dst + a)).
    + rewrite decide_True by lia. by rewrite Hf by lia.
    + by rewrite decide_False by lia.
Qed.
Lemma filled_0 m dst f : filled m m dst 0 f.
Proof. intros x. rewrite decide_False; [done|lia]. Qed.

Lemma bytes_at_cons m a b l : bytes_at m a (b :: l) ↔ m !! a = Some b ∧ bytes_at m (a + 1) l.
Proof.
  split.
  - intros H. split.
    + rewrite <- (H 0%nat b eq_refl). f_equal. simpl. lia.
    + intros i c Hi. rewrite <- (H (S i) c Hi). f_equal. lia.
  - intros [H0 H] [|i] c; simpl; [intros [= <-]; rewrite <- H0; f_equal; lia|].
    intros Hi. rewrite <- (H i c Hi). f_equal. lia.
Qed.
Lemma mem_of_below a l x : x < a → mem_of a l !! x = None.
Proof.
  revert a. induction l as [|b l IH]; intros a Hx; simpl; [apply lookup_empty|].
  rewrite lookup_insert_ne by lia. apply IH. lia.
Qed.
Lemma mem_of_bytes a l : bytes_at (mem_of a l) a l.
Proof.
  revert a. induction l as [|b l IH]; intros a; [by intros i c|].
  apply bytes_at_cons. simpl. split; [apply lookup_insert_eq|].
  intros i c Hi. rewrite lookup_insert_ne by lia. by apply IH.
Qed.
Lemma bytes_at_readable m a l :
  bytes_at m a l → Forall is_byte l → readable m a (Z.of_nat (length l)).
Proof.
  intros Hb Hl x Hx. destruct (lookup_lt_is_Some_2 l (Z.to_nat (x - a))) as [b Hi]; [lia|].
  exists b. split; [|by eapply Forall_lookup_1]. rewrite <- (Hb _ _ Hi). f_equal. lia.
Qed.
Lemma bytes_at_app m a l k :
  bytes_at m a (l ++ k) ↔ bytes_at m a l ∧ bytes_at m (a + Z.of_nat (length l)) k.
Proof.
  revert a. induction l as [|b l IH]; intros a; simpl.
  - rewrite Z.add_0_r. split; [intros H; by split; [intros i c|]|]. by intros [_ H].
  - rewrite !bytes_at_cons, IH. replace (a + 1 + Z.of_nat (length l)) with (a + Z.of_nat (S (length l))) by lia.
    tauto.
Qed.
Lemma bytes_at_copied m m' dst src n l :
  copied m m' dst src n → bytes_at m src l → Z.of_nat (length l) ≤ n → bytes_at m' dst l.
Proof.
  intros Hc Hb Hl i b Hi. pose proof (lookup_lt_Some _ _ _ Hi).
  rewrite Hc, decide_True by lia. rewrite <- (Hb i b Hi). f_equal. lia.
Qed.
Lemma bytes_at_copied_frame m m' dst src n a l :
  copied m m' dst src n → bytes_at m a l → a + Z.of_nat (length l) ≤ dst ∨ dst + n ≤ a → bytes_at m' a l.
Proof.
  intros Hc Hb Hl i b Hi. pose proof (lookup_lt_Some _ _ _ Hi). rewrite Hc, decide_False by lia. by apply Hb.
Qed.

(** ** Running loads and stores *)

Lemma load8_wp m a b (Q : Z → mem → Prop) : m !! a = Some b → Q b m → wp (load8 a) m Q.
Proof. by apply wp_deref. Qed.
Lemma store8_wp m a v (Q : unit → mem → Prop) :
  is_Some (m !! a) → Q tt (<[a := u8 v]> m) → wp (store8 a v) m Q.
Proof. intros [b Hb] HQ. unfold wp, store8. by rewrite Hb. Qed.
Lemma loadc_wp m a b (Q : Z → mem → Prop) : m !! a = Some b → Q (s8 b) m → wp (loadc a) m Q.
Proof. intros Hb HQ. unfold loadc. apply wp_bind. by eapply load8_wp. Qed.

Lemma load_le_wp n a m (Q : Z → mem → Prop) :
  readable m a (Z.of_nat n) →
  (∀ w, 0 ≤ w < 256 ^ Z.of_nat n → (∀ j, 0 ≤ j < Z.of_nat n → m !! (a + j) = Some (wbyte w j)) → Q w m) →
  wp (load_le n a) m Q.
Proof.
  revert a Q. induction n as [|n IH]; intros a Q Hr HQ; simpl.
  - apply wp_ret, HQ; simpl; lia.
  - destruct (Hr a) as (b & Hb & Hbyte); [lia|]. apply wp_bind. eapply load8_wp; [done|].
    apply wp_bind, IH; [eapply readable_sub; [done|lia|lia]|].
    intros w Hw Hbytes. apply wp_ret, HQ; unfold is_byte in Hbyte.
    + rewrite Nat2Z.inj_succ, Z.pow_succ_r by lia. lia.
    + intros j Hj. destruct (decide (j = 0)) as [->|].
      * rewrite wbyte_0, Z.add_0_r, Hb. f_equal. rewrite Z.mul_comm, Z_mod_plus_full, Z.mod_small by lia. done.
      * replace (a + j) with (a + 1 + (j - 1)) by lia. rewrite Hbytes by lia. f_equal.
        replace j with (j - 1 + 1) at 2 by lia. rewrite wbyte_S by lia. f_equal.
        rewrite Z.mul_comm, Z_div_plus_full by lia. rewrite Z.div_small by lia. lia.
Qed.
Lemma store_le_wp n a w m (Q : unit → mem → Prop) :
  readable m a (Z.of_nat n) →
  (∀ m', filled m m' a (Z.of_nat n) (wbyte w) → Q tt m') → wp (store_le n a w) m Q.
Proof.
  revert a w m Q. induction n as [|n IH]; intros a w m Q Hr HQ; simpl.
  - apply wp_ret, HQ, filled_0.
  - destruct (Hr a) as (b & Hb & _); [lia|]. apply wp_bind, store8_wp; [by eexists|].
    rewrite u8_byte by (rewrite <- wbyte_0; apply wbyte_range). rewrite <- wbyte_0.
    assert (H1 : filled m (<[a := wbyte w 0]> m) a 1 (wbyte w)).
    { intros x. destruct (decide _) as [Hx|Hx].
      - assert (x = a) as -> by lia. by rewrite lookup_insert_eq, Z.sub_diag.
      - by rewrite lookup_insert_ne by lia. }
    apply IH.
    { eapply (readable_filled m); [|eapply readable_sub; [exact Hr|lia|lia]|exact H1]. intros; apply wbyte_range. }
    intros m' H2. apply HQ. rewrite Nat2Z.inj_succ, <- Z.add_1_l.
    eapply filled_app; [lia|lia| | |exact H1|exact H2]; [done|].
    intros i Hi. rewrite Z.add_comm. apply wbyte_S. lia.
Qed.
Lemma load64_wp a m (Q : Z → mem → Prop) :
  a mod 8 = 0 → readable m a 8 →
  (∀ w, 0 ≤ w < 2 ^ 64 → (∀ j, 0 ≤ j < 8 → m !! (a + j) = Some (wbyte w j)) → Q w m) →
  wp (load64 a) m Q.
Proof. intros Ha Hr HQ. unfold load64. rewrite Ha, Z.eqb_refl. by apply load_le_wp. Qed.
Lemma store64_wp a w m (Q : unit → mem → Prop) :
  a mod 8 = 0 → readable m a 8 → (∀ m', filled m m' a 8 (wbyte w) → Q tt m') → wp (store64 a w) m Q.
Proof. intros Ha Hr HQ. unfold store64. rewrite Ha, Z.eqb_refl. by apply store_le_wp. Qed.
Lemma load32_wp a m (Q : Z → mem → Prop) :
  a mod 4 = 0 → readable m a 4 →
  (∀ w, 0 ≤ w < 2 ^ 32 → (∀ j, 0 ≤ j < 4 → m !! (a + j) = Some (wbyte w j)) → Q w m) →
  wp (load32 a) m Q.
Proof. intros Ha Hr HQ. unfold load32. rewrite Ha, Z.eqb_refl. by apply load_le_wp. Qed.
Lemma store32_wp a w m (Q : unit → mem → Prop) :
  a mod 4 = 0 → readable m a 4 → (∀ m', filled m m' a 4 (wbyte w) → Q tt m') → wp (store32 a w) m Q.
Proof. intros Ha Hr HQ. unfold store32. rewrite Ha, Z.eqb_refl. by apply store_le_wp. Qed.

(** A word written where another was read is a copy of its bytes. *)
Lemma filled_copied m m' dst src n w :
  (∀ j, 0 ≤ j < n → m !! (src + j) = Some (wbyte w j)) → filled m m' dst n (wbyte w) → copied m m' dst src n.
Proof.
  intros Hs Hf x. rewrite Hf. destruct (decide _); [|done].
  rewrite <- Hs by lia. f_equal. lia.
Qed.

#[global] Arguments load_le : simpl never.
#[global] Arguments store_le : simpl never.

(** A block has no more bytes than memory. *)
Lemma bytes_at_size m a l : bytes_at m a l → (length l ≤ size m)%nat.
Proof.
  revert m a. induction l as [|b l IH]; intros m a Hb; [simpl; lia|]. apply bytes_at_cons in Hb as [H0 Hb].
  rewrite <- (insert_delete_id m a b H0), map_size_insert_None by apply lookup_delete_eq. simpl.
  assert (length l ≤ size (delete a m))%nat; [|lia]. apply (IH _ (a + 1)). intros i c Hi.
  rewrite lookup_delete_ne by lia. by apply Hb.
Qed.
