(* ===== verification/MemFuncs.v ===== *)
(** * Copying, filling and comparing memory

    lib/memcpy.c, lib/memmove.c, lib/memset.c and lib/memcmp.c.  The copy
    routines move aligned words and mop up the bytes around them, forwards or
    backwards depending on the order of the two blocks; memset fills aligned
    words.  The theorems say that they are equivalent to the plain byte-wise
    definitions ([copied], [filled]) for every alignment, length and overlap. *)
From S2P Require Import Prelude Bytes.

Definition wsize : Z := 8.
Definition wmask : Z := wsize - 1.

(** ** The loops of memcpy.c and memmove.c

    The state of a loop is the pair of pointers [(dst, src)].  [TLOOP1] tests the
    counter after the body, so a count of zero runs around 64 bits. *)
Fixpoint tloop {A} (n : nat) (s : A → M mem A) (p : A) : M mem A :=
  match n with
  | O => mret p
  | S n' => p' ← s p; tloop n' s p'
  end.
Definition TLOOP {A} (t : Z) (s : A → M mem A) (p : A) : M mem A := tloop (Z.to_nat t) s p.
Definition TLOOP1 {A} (t : Z) (s : A → M mem A) (p : A) : M mem A :=
  p' ← s p; TLOOP (u64 (t - 1)) s p'.

Definition nonzero (z : Z) : bool := negb (z =? 0).

(** [*dst++ = *src++] *)
Definition copy_fwd8 (p : Z * Z) : M mem (Z * Z) :=
  b ← load8 p.2; store8 p.1 b;; mret (p.1 + 1, p.2 + 1).
(** [*(word * )dst = *(word * )src; src += wsize; dst += wsize] *)
Definition copy_fwd64 (p : Z * Z) : M mem (Z * Z) :=
  w ← load64 p.2; store64 p.1 w;; mret (p.1 + wsize, p.2 + wsize).
(** [*--dst = *--src] *)
Definition copy_bwd8 (p : Z * Z) : M mem (Z * Z) :=
  b ← load8 (p.2 - 1); store8 (p.1 - 1) b;; mret (p.1 - 1, p.2 - 1).
(** [src -= wsize; dst -= wsize; *(word * )dst = *(word * )src] *)
Definition copy_bwd64 (p : Z * Z) : M mem (Z * Z) :=
  w ← load64 (p.2 - wsize); store64 (p.1 - wsize) w;; mret (p.1 - wsize, p.2 - wsize).

(** ** lib/memcpy.c *)

(** Copy forward. *)
Definition memcpy_forward (dst src length : Z) : M mem unit :=
  let t := src in
  '(dst, src, length) ←
    (if nonzero (Z.land (Z.lor t dst) wmask) then
       let t := if nonzero (Z.land (Z.lxor t dst) wmask) || (length <? wsize)
                then length else wsize - Z.land t wmask in
       p ← TLOOP1 t copy_fwd8 (dst, src); mret (p, length - t)
     else mret ((dst, src), length));
  p ← TLOOP (length / wsize) copy_fwd64 (dst, src);
  TLOOP (Z.land length wmask) copy_fwd8 p;; mret tt.

(** Copy backwards. *)
Definition memcpy_backward (dst src length : Z) : M mem unit :=
  let src := src + length in
  let dst := dst + length in
  let t := src in
  '(dst, src, length) ←
    (if nonzero (Z.land (Z.lor t dst) wmask) then
       let t := if nonzero (Z.land (Z.lxor t dst) wmask) || (length <=? wsize)
                then length else Z.land t wmask in
       p ← TLOOP1 t copy_bwd8 (dst, src); mret (p, length - t)
     else mret ((dst, src), length));
  p ← TLOOP (length / wsize) copy_bwd64 (dst, src);
  TLOOP (Z.land length wmask) copy_bwd8 p;; mret tt.

Definition memcpy (dst0 src0 length : Z) : M mem Z :=
  if (length =? 0) || (dst0 =? src0) then mret dst0
  else (if dst0 <? src0 then memcpy_forward dst0 src0 length else memcpy_backward dst0 src0 length);;
       mret dst0.

(** ** lib/memmove.c *)

Definition memmove_forward (dst src length : Z) : M mem unit :=
  let t := src in
  '(dst, src, length) ←
    (if nonzero (Z.land (Z.lor t dst) wmask) then
       let t := if nonzero (Z.land (Z.lxor t dst) wmask) || (length <? wsize)
                then length else wsize - Z.land t wmask in
       p ← TLOOP1 t copy_fwd8 (dst, src); mret (p, length - t)
     else mret ((dst, src), length));
  p ← TLOOP (length / wsize) copy_fwd64 (dst, src);
  TLOOP (Z.land length wmask) copy_fwd8 p;; mret tt.

Definition memmove_backward (dst src length : Z) : M mem unit :=
  let src := src + length in
  let dst := dst + length in
  let t := src in
  '(dst, src, length) ←
    (if nonzero (Z.land (Z.lor t dst) wmask) then
       let t := if nonzero (Z.land (Z.lxor t dst) wmask) || (length <=? wsize)
                then length else Z.land t wmask in
       p ← TLOOP1 t copy_bwd8 (dst, src); mret (p, length - t)
     else mret ((dst, src), length));
  p ← TLOOP (length / wsize) copy_bwd64 (dst, src);
  TLOOP (Z.land length wmask) copy_bwd8 p;; mret tt.

Definition memmove (dst0 src0 length : Z) : M mem Z :=
  if (length =? 0) || (dst0 =? src0) then mret dst0
  else (if dst0 <? src0 then memmove_forward dst0 src0 length else memmove_backward dst0 src0 length);;
       mret dst0.

(** ** lib/memset.c *)

(** [*dst++ = c0] and [*(unsigned long * )dst = c; dst += wsize] *)
Definition fill8 (c0 dst : Z) : M mem Z := store8 dst c0;; mret (dst + 1).
Definition fill64 (c dst : Z) : M mem Z := store64 dst c;; mret (dst + wsize).

(** The byte repeated in every byte of a word. *)
Definition fill_word (c0 : Z) : Z :=
  let c := u8 c0 in
  if nonzero c then
    let c := u64 (Z.lor (Z.shiftl c 8) c) in
    let c := u64 (Z.lor (Z.shiftl c 16) c) in
    u64 (Z.lor (Z.shiftl c 32) c)
  else c.

Definition memset (dst0 c0 length : Z) : M mem Z :=
  if length <? 3 * wsize then
    TLOOP length (fill8 c0) dst0;; mret dst0
  else
    let c := fill_word c0 in
    let t := Z.land dst0 wmask in
    '(dst, length) ←
      (if nonzero t then
         let t := wsize - t in
         d ← TLOOP1 t (fill8 c0) dst0; mret (d, length - t)
       else mret (dst0, length));
    dst ← TLOOP1 (length / wsize) (fill64 c) dst;
    TLOOP (Z.land length wmask) (fill8 c0) dst;;
    mret dst0.

(** ** lib/memcmp.c *)
Fixpoint memcmp_loop (n : nat) (p1 p2 : Z) : M mem Z :=
  match n with
  | O => mret 0
  | S n' =>
      a ← load8 p1; b ← load8 p2;
      if negb (a =? b) then mret (a - b) else memcmp_loop n' (p1 + 1) (p2 + 1)
  end.
Definition memcmp (s1 s2 n : Z) : M mem Z := memcmp_loop (Z.to_nat n) s1 s2.

(** ** Alignment *)

Lemma land_wmask z : Z.land z wmask = z mod 8.
Proof. change wmask with (Z.ones 3). by rewrite Z.land_ones. Qed.
Lemma lor_aligned a b : Z.land (Z.lor a b) wmask = 0 ↔ a mod 8 = 0 ∧ b mod 8 = 0.
Proof. rewrite Z.land_lor_distr_l, !land_wmask. apply Z.lor_eq_0_iff. Qed.
Lemma lxor_aligned a b : Z.land (Z.lxor a b) wmask = 0 → a mod 8 = b mod 8.
Proof.
  intros H. rewrite <- !land_wmask. apply Z.lxor_eq. rewrite <- H.
  apply Z.bits_inj'. intros i Hi. rewrite !Z.land_spec, !Z.lxor_spec, !Z.land_spec.
  by destruct (Z.testbit a i), (Z.testbit b i), (Z.testbit wmask i).
Qed.
Lemma nonzero_true z : nonzero z = true ↔ z ≠ 0.
Proof. unfold nonzero. rewrite negb_true_iff, Z.eqb_neq. done. Qed.
Lemma nonzero_false z : nonzero z = false ↔ z = 0.
Proof. unfold nonzero. rewrite negb_false_iff, Z.eqb_eq. done. Qed.

(** ** One step copies [k] bytes *)

Lemma copy_fwd8_wp m dst src (Q : Z * Z → mem → Prop) :
  readable m src 1 → readable m dst 1 →
  (∀ m', copied m m' dst src 1 → Q (dst + 1, src + 1) m') → wp (copy_fwd8 (dst, src)) m Q.
Proof.
  intros Hs Hd HQ. destruct (Hs src) as (b & Hb & Hbb); [lia|]. destruct (Hd dst) as (d & Hdst & _); [lia|].
  unfold copy_fwd8; simpl. apply wp_bind. eapply load8_wp; [done|]. apply wp_bind, store8_wp; [by eexists|].
  rewrite u8_byte by done. apply wp_ret, HQ. intros x. destruct (decide _).
  - assert (x = dst) as -> by lia. rewrite lookup_insert_eq, Z.sub_diag. done.
  - by rewrite lookup_insert_ne by lia.
Qed.
Lemma copy_fwd64_wp m dst src (Q : Z * Z → mem → Prop) :
  src mod 8 = 0 → dst mod 8 = 0 → readable m src 8 → readable m dst 8 →
  (∀ m', copied m m' dst src 8 → Q (dst + 8, src + 8) m') → wp (copy_fwd64 (dst, src)) m Q.
Proof.
  intros As Ad Hs Hd HQ. unfold copy_fwd64. apply wp_bind, load64_wp; [done|done|]. intros w _ Hw.
  apply wp_bind, store64_wp; [done|done|]. intros m' Hf. apply wp_ret, HQ. by eapply filled_copied.
Qed.
Lemma copy_bwd8_fwd8 dst src m :
  copy_bwd8 (dst, src) m = (copy_fwd8 (dst - 1, src - 1) ≫= λ p, mret (p.1 - 1, p.2 - 1)) m.
Proof.
  unfold copy_bwd8, copy_fwd8, mbind, m_bind; simpl. destruct (load8 (src - 1) m); [|done].
  destruct (store8 (dst - 1) a s); [|done]. unfold mret, m_ret. simpl. do 2 f_equal; lia.
Qed.
Lemma copy_bwd64_fwd64 dst src m :
  copy_bwd64 (dst, src) m = (copy_fwd64 (dst - 8, src - 8) ≫= λ p, mret (p.1 - 8, p.2 - 8)) m.
Proof.
  unfold copy_bwd64, copy_fwd64, mbind, m_bind, wsize; simpl. destruct (load64 (src - 8) m); [|done].
  destruct (store64 (dst - 8) a s); [|done]. unfold mret, m_ret. simpl. do 2 f_equal; lia.
Qed.

(** ** Loops

    [copies k s]: a step [s] that copies [k] bytes forwards, [k]-aligned. *)
Definition copies (k : Z) (s : Z * Z → M mem (Z * Z)) : Prop :=
  ∀ m dst src (Q : Z * Z → mem → Prop),
    src mod k = 0 → dst mod k = 0 → readable m src k → readable m dst k →
    (∀ m', copied m m' dst src k → Q (dst + k, src + k) m') → wp (s (dst, src)) m Q.
Definition copies_back (k : Z) (s : Z * Z → M mem (Z * Z)) : Prop :=
  ∀ m dst src (Q : Z * Z → mem → Prop),
    src mod k = 0 → dst mod k = 0 → readable m (src - k) k → readable m (dst - k) k →
    (∀ m', copied m m' (dst - k) (src - k) k → Q (dst - k, src - k) m') → wp (s (dst, src)) m Q.

Lemma copies8 : copies 1 copy_fwd8.
Proof. intros m dst src Q _ _. apply copy_fwd8_wp. Qed.
Lemma copies64 : copies 8 copy_fwd64.
Proof. intros m dst src Q. apply copy_fwd64_wp. Qed.
Lemma copies_back8 : copies_back 1 copy_bwd8.
Proof.
  intros m dst src Q _ _ Hs Hd HQ. unfold wp. rewrite copy_bwd8_fwd8. apply wp_bind, copy_fwd8_wp; [done|done|].
  intros m' Hc. apply wp_ret. simpl. replace (dst - 1 + 1 - 1) with (dst - 1) by lia.
  replace (src - 1 + 1 - 1) with (src - 1) by lia. by apply HQ.
Qed.
Lemma mod_sub_same a k : k ≠ 0 → a mod k = 0 → (a - k) mod k = 0.
Proof.
  intros Hk H. replace (a - k) with (a + (-1) * k) by lia. by rewrite Z_mod_plus_full.
Qed.
Lemma mod_add_same a k : k ≠ 0 → a mod k = 0 → (a + k) mod k = 0.
Proof.
  intros Hk H. replace (a + k) with (a + 1 * k) by lia. by rewrite Z_mod_plus_full.
Qed.
Lemma copies_back64 : copies_back 8 copy_bwd64.
Proof.
  intros m dst src Q As Ad Hs Hd HQ. unfold wp. rewrite copy_bwd64_fwd64.
  apply wp_bind, copy_fwd64_wp; [by apply mod_sub_same|by apply mod_sub_same|done|done|].
  intros m' Hc. apply wp_ret. simpl. replace (dst - 8 + 8 - 8) with (dst - 8) by lia.
  replace (src - 8 + 8 - 8) with (src - 8) by lia. by apply HQ.
Qed.

Lemma tloop_copies k s n m dst src (Q : Z * Z → mem → Prop) :
  0 < k → copies k s → src mod k = 0 → dst mod k = 0 →
  dst ≤ src ∨ src + k * Z.of_nat n ≤ dst →
  readable m src (k * Z.of_nat n) → readable m dst (k * Z.of_nat n) →
  (∀ m', copied m m' dst src (k * Z.of_nat n) → Q (dst + k * Z.of_nat n, src + k * Z.of_nat n) m') →
  wp (tloop n s (dst, src)) m Q.
Proof.
  intros Hk Hc. revert m dst src Q. induction n as [|n IH]; intros m dst src Q As Ad Hov Hs Hd HQ; simpl.
  - apply wp_ret. specialize (HQ m). rewrite Z.mul_0_r, !Z.add_0_r in HQ. apply HQ, copied_0.
  - rewrite Nat2Z.inj_succ, Z.mul_succ_r in *. apply wp_bind, Hc; [done|done|..].
    { eapply readable_sub; [exact Hs|lia|lia]. } { eapply readable_sub; [exact Hd|lia|lia]. }
    intros m1 H1. assert (Hr : ∀ a j, readable m a j → readable m1 a j).
    { intros a j Ha. eapply readable_copied; [eapply (readable_sub m src); [exact Hs|..]|done|exact H1]; lia. }
    apply IH; [apply mod_add_same; lia|apply mod_add_same; lia|lia|..].
    { eapply Hr, readable_sub; [exact Hs|lia|lia]. } { eapply Hr, readable_sub; [exact Hd|lia|lia]. }
    intros m2 H2. specialize (HQ m2). rewrite (Z.add_comm (k * _) k), !Z.add_assoc in HQ. apply HQ.
    eapply copied_fwd; [..|exact H1|exact H2]; lia.
Qed.
Lemma tloop_copies_back k s n m dst src (Q : Z * Z → mem → Prop) :
  0 < k → copies_back k s → src mod k = 0 → dst mod k = 0 →
  src ≤ dst ∨ dst ≤ src - k * Z.of_nat n →
  readable m (src - k * Z.of_nat n) (k * Z.of_nat n) → readable m (dst - k * Z.of_nat n) (k * Z.of_nat n) →
  (∀ m', copied m m' (dst - k * Z.of_nat n) (src - k * Z.of_nat n) (k * Z.of_nat n) →
     Q (dst - k * Z.of_nat n, src - k * Z.of_nat n) m') →
  wp (tloop n s (dst, src)) m Q.
Proof.
  intros Hk Hc. revert m dst src Q. induction n as [|n IH]; intros m dst src Q As Ad Hov Hs Hd HQ; simpl.
  - apply wp_ret. specialize (HQ m). rewrite Z.mul_0_r, !Z.sub_0_r in HQ. apply HQ, copied_0.
  - rewrite Nat2Z.inj_succ, Z.mul_succ_r in *. apply wp_bind, Hc; [done|done|..].
    { eapply readable_sub; [exact Hs|lia|lia]. } { eapply readable_sub; [exact Hd|lia|lia]. }
    intros m1 H1. assert (Hr : ∀ a j, readable m a j → readable m1 a j).
    { intros a j Ha. eapply readable_copied; [eapply (readable_sub m); [exact Hs|..]|done|exact H1]; lia. }
    apply IH; [apply mod_sub_same; lia|apply mod_sub_same; lia|lia|..].
    { eapply Hr, readable_sub; [exact Hs|lia|lia]. } { eapply Hr, readable_sub; [exact Hd|lia|lia]. }
    intros m2 H2. specialize (HQ m2). rewrite (Z.add_comm (k * _) k), !Z.sub_add_distr in HQ. apply HQ.
    rewrite (Z.add_comm k). eapply copied_bwd; [..|exact H2]; [lia|lia|lia|].
    replace (dst - k - k * Z.of_nat n + k * Z.of_nat n) with (dst - k) by lia.
    by replace (src - k - k * Z.of_nat n + k * Z.of_nat n) with (src - k) by lia.
Qed.
Lemma TLOOP1_TLOOP {A} t (s : A → M mem A) p : 0 < t ≤ 2 ^ 64 → TLOOP1 t s p = TLOOP t s p.
Proof.
  intros Ht. unfold TLOOP1, TLOOP. rewrite u64_small by (unfold in_u64; lia).
  replace (Z.to_nat t) with (S (Z.to_nat (t - 1))) by lia. done.
Qed.

Lemma TLOOP_copies k s t m dst src (Q : Z * Z → mem → Prop) :
  0 < k → copies k s → 0 ≤ t → t = 0 ∨ src mod k = 0 ∧ dst mod k = 0 →
  dst ≤ src ∨ src + k * t ≤ dst → readable m src (k * t) → readable m dst (k * t) →
  (∀ m', copied m m' dst src (k * t) → Q (dst + k * t, src + k * t) m') →
  wp (TLOOP t s (dst, src)) m Q.
Proof.
  intros Hk Hc Ht Hal Hov Hs Hd HQ. unfold TLOOP. destruct Hal as [->|[As Ad]].
  - apply wp_ret. specialize (HQ m). rewrite Z.mul_0_r, !Z.add_0_r in HQ. apply HQ, copied_0.
  - replace t with (Z.of_nat (Z.to_nat t)) in Hov, Hs, Hd, HQ by lia. by eapply tloop_copies.
Qed.
Lemma TLOOP_copies_back k s t m dst src (Q : Z * Z → mem → Prop) :
  0 < k → copies_back k s → 0 ≤ t → t = 0 ∨ src mod k = 0 ∧ dst mod k = 0 →
  src ≤ dst ∨ dst ≤ src - k * t → readable m (src - k * t) (k * t) → readable m (dst - k * t) (k * t) →
  (∀ m', copied m m' (dst - k * t) (src - k * t) (k * t) → Q (dst - k * t, src - k * t) m') →
  wp (TLOOP t s (dst, src)) m Q.
Proof.
  intros Hk Hc Ht Hal Hov Hs Hd HQ. unfold TLOOP. destruct Hal as [->|[As Ad]].
  - apply wp_ret. specialize (HQ m). rewrite Z.mul_0_r, !Z.sub_0_r in HQ. apply HQ, copied_0.
  - replace t with (Z.of_nat (Z.to_nat t)) in Hov, Hs, Hd, HQ by lia. by eapply tloop_copies_back.
Qed.

(** Words, then the bytes that remain. *)
Lemma fwd_tail m dst src n (Q : unit → mem → Prop) :
  0 ≤ n → n < 8 ∨ src mod 8 = 0 ∧ dst mod 8 = 0 → dst ≤ src →
  readable m src n → readable m dst n → (∀ m', copied m m' dst src n → Q tt m') →
  wp (p ← TLOOP (n / wsize) copy_fwd64 (dst, src); TLOOP (Z.land n wmask) copy_fwd8 p;; mret tt) m Q.
Proof.
  intros Hn Hal Hov Hs Hd HQ. rewrite land_wmask. unfold wsize.
  pose proof (Z.div_mod n 8 ltac:(lia)) as Hdm. pose proof (Z.mod_pos_bound n 8 ltac:(lia)) as Hmb.
  assert (Hq : 0 ≤ n / 8) by (apply Z.div_pos; lia).
  apply wp_bind. eapply (TLOOP_copies 8); [lia|apply copies64|lia| |lia|..].
  { destruct Hal; [left; apply Z.div_small; lia|by right]. }
  { eapply readable_sub; [exact Hs|lia|lia]. } { eapply readable_sub; [exact Hd|lia|lia]. }
  intros m1 H1. assert (Hr : ∀ a j, readable m a j → readable m1 a j).
  { intros a j Ha. eapply readable_copied; [eapply (readable_sub m); [exact Hs|..]|done|exact H1]; lia. }
  apply wp_bind. eapply (TLOOP_copies 1); [lia|apply copies8|lia|right; by rewrite !Z.mod_1_r|lia|..].
  { eapply Hr, readable_sub; [exact Hs|lia|lia]. } { eapply Hr, readable_sub; [exact Hd|lia|lia]. }
  intros m2 H2. apply wp_ret, HQ. replace n with (8 * (n / 8) + 1 * (n mod 8)) by lia.
  eapply copied_fwd; [lia|lia|lia|exact H1|exact H2].
Qed.
Lemma bwd_tail m dst src n (Q : unit → mem → Prop) :
  0 ≤ n → n < 8 ∨ src mod 8 = 0 ∧ dst mod 8 = 0 → src ≤ dst →
  readable m (src - n) n → readable m (dst - n) n →
  (∀ m', copied m m' (dst - n) (src - n) n → Q tt m') →
  wp (p ← TLOOP (n / wsize) copy_bwd64 (dst, src); TLOOP (Z.land n wmask) copy_bwd8 p;; mret tt) m Q.
Proof.
  intros Hn Hal Hov Hs Hd HQ. rewrite land_wmask. unfold wsize.
  pose proof (Z.div_mod n 8 ltac:(lia)) as Hdm. pose proof (Z.mod_pos_bound n 8 ltac:(lia)) as Hmb.
  assert (Hq : 0 ≤ n / 8) by (apply Z.div_pos; lia).
  apply wp_bind. eapply (TLOOP_copies_back 8); [lia|apply copies_back64|lia| |lia|..].
  { destruct Hal; [left; apply Z.div_small; lia|by right]. }
  { eapply readable_sub; [exact Hs|lia|lia]. } { eapply readable_sub; [exact Hd|lia|lia]. }
  intros m1 H1. assert (Hr : ∀ a j, readable m a j → readable m1 a j).
  { intros a j Ha. eapply readable_copied; [eapply (readable_sub m); [exact Hs|..]|done|exact H1]; lia. }
  apply wp_bind. eapply (TLOOP_copies_back 1); [lia|apply copies_back8|lia|right; by rewrite !Z.mod_1_r|lia|..].
  { eapply Hr, readable_sub; [exact Hs|lia|lia]. } { eapply Hr, readable_sub; [exact Hd|lia|lia]. }
  intros m2 H2. apply wp_ret, HQ. replace n with (1 * (n mod 8) + 8 * (n / 8)) by lia.
  eapply copied_bwd; [lia|lia|lia| |].
  - replace (dst - (1 * (n mod 8) + 8 * (n / 8)) + 1 * (n mod 8)) with (dst - 8 * (n / 8)) by lia.
    by replace (src - (1 * (n mod 8) + 8 * (n / 8)) + 1 * (n mod 8)) with (src - 8 * (n / 8)) by lia.
  - replace (dst - (1 * (n mod 8) + 8 * (n / 8))) with (dst - 8 * (n / 8) - 1 * (n mod 8)) by lia.
    by replace (src - (1 * (n mod 8) + 8 * (n / 8))) with (src - 8 * (n / 8) - 1 * (n mod 8)) by lia.
Qed.

Lemma memcpy_forward_wp m dst src n (Q : unit → mem → Prop) :
  0 < n < 2 ^ 64 → dst ≤ src → readable m src n → readable m dst n →
  (∀ m', copied m m' dst src n → Q tt m') → wp (memcpy_forward dst src n) m Q.
Proof.
  intros Hn Hov Hs Hd HQ. unfold memcpy_forward. apply wp_bind.
  destruct (nonzero (Z.land (Z.lor src dst) wmask)) eqn:Hal.
  - pose proof (land_wmask src) as Hms. pose proof (Z.mod_pos_bound src 8 ltac:(lia)) as Hm8.
    set (t := if nonzero (Z.land (Z.lxor src dst) wmask) || (n <? wsize) then n else wsize - Z.land src wmask).
    assert (Ht : 0 < t ≤ n ∧ (n - t < 8 ∨ (src + t) mod 8 = 0 ∧ (dst + t) mod 8 = 0)).
    { subst t. destruct (nonzero (Z.land (Z.lxor src dst) wmask)) eqn:Hx; simpl; [lia|].
      destruct (Z.ltb_spec n wsize); unfold wsize in *; [lia|].
      apply nonzero_false, lxor_aligned in Hx. apply nonzero_true in Hal.
      rewrite Hms. split; [lia|]. right.
      assert (Hup : ∀ a, (a + (8 - a mod 8)) mod 8 = 0).
      { intros a. rewrite (Z.div_mod a 8) at 1 by lia.
        replace (8 * (a / 8) + a mod 8 + (8 - a mod 8)) with ((a / 8 + 1) * 8) by lia. by apply Z_mod_mult. }
      split; [apply Hup|]. rewrite Hx. apply Hup. }
    destruct Ht as [Ht Hafter]. clearbody t. apply wp_bind. rewrite TLOOP1_TLOOP by lia.
    eapply (TLOOP_copies 1); [lia|apply copies8|lia|right; by rewrite !Z.mod_1_r|lia|..].
    { eapply readable_sub; [exact Hs|lia|lia]. } { eapply readable_sub; [exact Hd|lia|lia]. }
    intros m1 H1. apply wp_ret. rewrite Z.mul_1_l in *.
    assert (Hr : ∀ a j, readable m a j → readable m1 a j).
    { intros a j Ha. eapply readable_copied; [eapply (readable_sub m); [exact Hs|..]|done|exact H1]; lia. }
    apply fwd_tail; [lia|lia|lia|..].
    { eapply Hr, readable_sub; [exact Hs|lia|lia]. } { eapply Hr, readable_sub; [exact Hd|lia|lia]. }
    intros m2 H2. apply HQ. replace n with (t + (n - t)) by lia. eapply copied_fwd; [lia|lia|lia|done|done].
  - apply nonzero_false, lor_aligned in Hal. apply wp_ret, fwd_tail; [lia|by right|lia|done..].
Qed.
Lemma memcpy_backward_wp m dst src n (Q : unit → mem → Prop) :
  0 < n < 2 ^ 64 → src ≤ dst → readable m src n → readable m dst n →
  (∀ m', copied m m' dst src n → Q tt m') → wp (memcpy_backward dst src n) m Q.
Proof.
  intros Hn Hov Hs Hd HQ. unfold memcpy_backward.
  assert (Hends : ∃ s d, s = src + n ∧ d = dst + n) by eauto. destruct Hends as (s & d & Es & Ed).
  rewrite <- Es, <- Ed. replace src with (s - n) in * by lia. replace dst with (d - n) in * by lia.
  clear Es Ed src dst. apply wp_bind. destruct (nonzero (Z.land (Z.lor s d) wmask)) eqn:Hal.
  - pose proof (land_wmask s) as Hms. pose proof (Z.mod_pos_bound s 8 ltac:(lia)) as Hm8.
    set (t := if nonzero (Z.land (Z.lxor s d) wmask) || (n <=? wsize) then n else Z.land s wmask).
    assert (Ht : 0 < t ≤ n ∧ (n - t < 8 ∨ (s - t) mod 8 = 0 ∧ (d - t) mod 8 = 0)).
    { subst t. destruct (nonzero (Z.land (Z.lxor s d) wmask)) eqn:Hx; simpl; [lia|].
      destruct (Z.leb_spec n wsize); unfold wsize in *; [lia|].
      apply nonzero_false, lxor_aligned in Hx. apply nonzero_true in Hal. rewrite lor_aligned in Hal.
      rewrite Hms. split; [lia|]. right.
      assert (Hdown : ∀ a, (a - a mod 8) mod 8 = 0).
      { intros a. rewrite (Z.div_mod a 8) at 1 by lia.
        replace (8 * (a / 8) + a mod 8 - a mod 8) with ((a / 8) * 8) by lia. by apply Z_mod_mult. }
      split; [apply Hdown|]. rewrite Hx. apply Hdown. }
    destruct Ht as [Ht Hafter]. clearbody t. apply wp_bind. rewrite TLOOP1_TLOOP by lia.
    eapply (TLOOP_copies_back 1); [lia|apply copies_back8|lia|right; by rewrite !Z.mod_1_r|lia|..].
    { eapply readable_sub; [exact Hs|lia|lia]. } { eapply readable_sub; [exact Hd|lia|lia]. }
    intros m1 H1. apply wp_ret. rewrite Z.mul_1_l in *.
    assert (Hr : ∀ a j, readable m a j → readable m1 a j).
    { intros a j Ha. eapply readable_copied; [eapply (readable_sub m); [exact Hs|..]|done|exact H1]; lia. }
    apply bwd_tail; [lia|lia|lia|..].
    { eapply Hr, readable_sub; [exact Hs|lia|lia]. } { eapply Hr, readable_sub; [exact Hd|lia|lia]. }
    intros m2 H2. apply HQ. replace n with (n - t + t) by lia. eapply copied_bwd; [lia|lia|lia| |].
    + replace (d - (n - t + t) + (n - t)) with (d - t) by lia.
      by replace (s - (n - t + t) + (n - t)) with (s - t) by lia.
    + replace (d - (n - t + t)) with (d - t - (n - t)) by lia.
      by replace (s - (n - t + t)) with (s - t - (n - t)) by lia.
  - apply nonzero_false, lor_aligned in Hal. apply wp_ret, bwd_tail; [lia|by right|lia|done..].
Qed.

Lemma memcpy_wp m dst src n (Q : Z → mem → Prop) :
  0 ≤ n < 2 ^ 64 → readable m src n → readable m dst n →
  (∀ m', copied m m' dst src n → Q dst m') → wp (memcpy dst src n) m Q.
Proof.
  intros Hn Hs Hd HQ. unfold memcpy. destruct (Z.eqb_spec n 0) as [->|].
  { apply wp_ret, HQ, copied_0. }
  destruct (Z.eqb_spec dst src) as [->|]; simpl; [apply wp_ret, HQ, copied_same|].
  apply wp_bind. destruct (Z.ltb_spec dst src).
  - apply memcpy_forward_wp; [lia|lia|done|done|]. intros m' Hc. by apply wp_ret, HQ.
  - apply memcpy_backward_wp; [lia|lia|done|done|]. intros m' Hc. by apply wp_ret, HQ.
Qed.
Lemma memmove_wp m dst src n (Q : Z → mem → Prop) :
  0 ≤ n < 2 ^ 64 → readable m src n → readable m dst n →
  (∀ m', copied m m' dst src n → Q dst m') → wp (memmove dst src n) m Q.
Proof. exact (memcpy_wp m dst src n Q). Qed.

(** ** memset *)

Lemma fill_word_bytes c0 j : 0 ≤ j < 8 → wbyte (fill_word c0) j = u8 c0.
Proof.
  intros Hj. assert (Hall : Forall (λ c, Forall (λ j, wbyte (fill_word c) j = c) (seqZ 0 8)) (seqZ 0 256)).
  { apply (bool_decide_eq_true_1 _). vm_compute. reflexivity. }
  replace (fill_word c0) with (fill_word (u8 c0)).
  - rewrite Forall_forall in Hall. specialize (Hall (u8 c0)). rewrite Forall_forall in Hall.
    apply Hall; apply elem_of_seqZ; [|lia]. pose proof (u8_is_byte c0) as Hb. unfold is_byte in Hb. lia.
  - unfold fill_word. by rewrite (u8_byte (u8 c0)) by apply u8_is_byte.
Qed.

(** [fills k s c]: a step that stores the byte [c] at [k] addresses, [k]-aligned. *)
Definition fills (k : Z) (s : Z → M mem Z) (c : Z) : Prop :=
  ∀ m dst (Q : Z → mem → Prop), dst mod k = 0 → readable m dst k →
    (∀ m', filled m m' dst k (λ _, c) → Q (dst + k) m') → wp (s dst) m Q.
Lemma fills8 c0 : fills 1 (fill8 c0) (u8 c0).
Proof.
  intros m dst Q _ Hd HQ. destruct (Hd dst) as (b & Hb & _); [lia|]. unfold fill8.
  apply wp_bind, store8_wp; [by eexists|]. apply wp_ret, HQ. intros x. destruct (decide _).
  - assert (x = dst) as -> by lia. by rewrite lookup_insert_eq.
  - by rewrite lookup_insert_ne by lia.
Qed.
Lemma fills64 c0 : fills 8 (fill64 (fill_word c0)) (u8 c0).
Proof.
  intros m dst Q Ad Hd HQ. unfold fill64. apply wp_bind, store64_wp; [done|done|].
  intros m' Hf. apply wp_ret, HQ. intros x. rewrite Hf. destruct (decide _); [|done].
  rewrite fill_word_bytes; [done|lia].
Qed.
Lemma TLOOP_fills k s c t m dst (Q : Z → mem → Prop) :
  0 < k → is_byte c → fills k s c → 0 ≤ t → dst mod k = 0 → readable m dst (k * t) →
  (∀ m', filled m m' dst (k * t) (λ _, c) → Q (dst + k * t) m') → wp (TLOOP t s dst) m Q.
Proof.
  intros Hk Hcb Hc Ht Ad Hd HQ. unfold TLOOP. replace t with (Z.of_nat (Z.to_nat t)) in Hd, HQ by lia.
  revert m dst Q Ad Hd HQ. generalize (Z.to_nat t) as n. clear t Ht. intros n.
  induction n as [|n IH]; intros m dst Q Ad Hd HQ; simpl.
  - apply wp_ret. specialize (HQ m). rewrite Z.mul_0_r, Z.add_0_r in HQ. apply HQ, filled_0.
  - rewrite Nat2Z.inj_succ, Z.mul_succ_r in *. apply wp_bind, Hc; [done|eapply readable_sub; [exact Hd|lia|lia]|].
    intros m1 H1. apply IH; [apply mod_add_same; lia| |].
    { eapply readable_filled; [|eapply readable_sub; [exact Hd|lia|lia]|exact H1]. done. }
    intros m2 H2. specialize (HQ m2). rewrite (Z.add_comm (k * _) k), !Z.add_assoc in HQ. apply HQ.
    eapply filled_app; [lia|lia| | |exact H1|exact H2]; done.
Qed.

Lemma memset_wp m dst c0 n (Q : Z → mem → Prop) :
  0 ≤ n < 2 ^ 64 → readable m dst n →
  (∀ m', filled m m' dst n (λ _, u8 c0) → Q dst m') → wp (memset dst c0 n) m Q.
Proof.
  intros Hn Hd HQ. unfold memset. pose proof (u8_is_byte c0) as Hc. destruct (Z.ltb_spec n (3 * wsize)) as [_|Hbig].
  { apply wp_bind. eapply (TLOOP_fills 1); [lia|done|apply fills8|lia|apply Z.mod_1_r|by rewrite Z.mul_1_l|].
    intros m' Hf. rewrite Z.mul_1_l in Hf. by apply wp_ret, HQ. }
  unfold wsize in Hbig. rewrite land_wmask. pose proof (Z.mod_pos_bound dst 8 ltac:(lia)) as Hm8.
  apply wp_bind.
  assert (Hrest : ∀ m1 k, 0 ≤ k ≤ 7 → (dst + k) mod 8 = 0 → filled m m1 dst k (λ _, u8 c0) →
    wp (d ← TLOOP1 ((n - k) / wsize) (fill64 (fill_word c0)) (dst + k);
        TLOOP (Z.land (n - k) wmask) (fill8 c0) d;; mret dst) m1 Q).
  { intros m1 k Hk Hal H1. rewrite land_wmask. unfold wsize.
    pose proof (Z.div_mod (n - k) 8 ltac:(lia)) as Hdm. pose proof (Z.mod_pos_bound (n - k) 8 ltac:(lia)) as Hmb.
    assert (Hr : readable m1 (dst + k) (n - k)).
    { eapply readable_filled; [|eapply readable_sub; [exact Hd|lia|lia]|exact H1]. done. }
    apply wp_bind. rewrite TLOOP1_TLOOP by lia.
    eapply (TLOOP_fills 8); [lia|done|apply fills64|lia|done|eapply readable_sub; [exact Hr|lia|lia]|].
    intros m2 H2. apply wp_bind.
    eapply (TLOOP_fills 1); [lia|done|apply fills8|lia|apply Z.mod_1_r| |].
    { eapply readable_filled; [|eapply readable_sub; [exact Hr|lia|lia]|exact H2]. done. }
    intros m3 H3. apply wp_ret, HQ.
    replace n with (k + (8 * ((n - k) / 8) + 1 * ((n - k) mod 8))) by lia.
    eapply filled_app; [lia|lia| | |exact H1|]; [done| |].
    2: eapply filled_app; [lia|lia| | |exact H2|exact H3]; done. done. }
  destruct (nonzero (dst mod 8)) eqn:Hal.
  - apply nonzero_true in Hal. unfold wsize. apply wp_bind. rewrite TLOOP1_TLOOP by lia.
    eapply (TLOOP_fills 1); [lia|done|apply fills8|lia|apply Z.mod_1_r|eapply readable_sub; [exact Hd|lia|lia]|].
    intros m1 H1. apply wp_ret. rewrite Z.mul_1_l in *. apply Hrest; [lia| |done].
    rewrite (Z.div_mod dst 8) at 1 by lia.
    replace (8 * (dst / 8) + dst mod 8 + (8 - dst mod 8)) with ((dst / 8 + 1) * 8) by lia. by apply Z_mod_mult.
  - apply nonzero_false in Hal. apply wp_ret. specialize (Hrest m 0).
    rewrite Z.add_0_r, Z.sub_0_r in Hrest. apply Hrest; [lia|done|apply filled_0].
Qed.

(** ** memcmp *)
Lemma memcmp_wp m p1 p2 l1 l2 (Q : Z → mem → Prop) :
  length l1 = length l2 → bytes_at m p1 l1 → bytes_at m p2 l2 →
  (l1 = l2 → Q 0 m) →
  (∀ p a b t1 t2, l1 = p ++ a :: t1 → l2 = p ++ b :: t2 → a ≠ b → Q (a - b) m) →
  wp (memcmp p1 p2 (Z.of_nat (length l1))) m Q.
Proof.
  unfold memcmp. rewrite Nat2Z.id. revert p1 p2 l2. induction l1 as [|a l1 IH]; intros p1 p2 [|b l2] Hl H1 H2 Heq Hne;
    try done; simpl; [by apply wp_ret, Heq|].
  apply bytes_at_cons in H1 as [Ha H1]. apply bytes_at_cons in H2 as [Hb H2].
  apply wp_bind. eapply load8_wp; [done|]. apply wp_bind. eapply load8_wp; [done|].
  destruct (Z.eqb_spec a b) as [->|Hab]; simpl.
  - apply (IH _ _ l2); [by injection Hl|done|done|intros ->; by apply Heq|].
    intros p c d t1 t2 -> ->. by apply (Hne (b :: p) c d t1 t2).
  - by apply wp_ret, (Hne [] a b l1 l2).
Qed.

(** ** The contracts *)

(** memcpy and memmove (lib/memcpy.c, lib/memmove.c) are the byte-wise copy
    for every overlap, alignment and length: both return the destination, the
    destination block holds the bytes the source block had before the call, and
    no other byte changes.  So this memcpy is safe on overlapping blocks too. *)
Theorem memcpy_correct m dst src n :
  0 ≤ n < 2 ^ 64 → readable m src n → readable m dst n →
  ∃ m', memcpy dst src n m = Ret dst m' ∧ memmove dst src n m = Ret dst m' ∧ copied m m' dst src n.
Proof.
  intros. assert (Hwp : wp (memcpy dst src n) m (λ r m', r = dst ∧ copied m m' dst src n)).
  { by apply memcpy_wp. }
  apply wp_run in Hwp as (r & m' & Hrun & -> & Hc). eauto.
Qed.

(** Thirty bytes. *)
Definition thirty : mem := mem_of 16 (seqZ 0 30).
Lemma thirty_block a n : 16 ≤ a → a + n ≤ 46 → readable thirty a n.
Proof.
  intros Ha Hn. apply (readable_sub thirty 16 30); [|exact Ha|exact Hn].
  apply (bytes_at_readable thirty 16 (seqZ 0 30) (mem_of_bytes _ _)).
  apply Forall_forall. intros b Hb%elem_of_seqZ. unfold is_byte. lia.
Qed.
Lemma memcpy_correct_witness :
  ∃ m', memcpy 17 25 20 thirty = Ret 17 m' ∧ memmove 17 25 20 thirty = Ret 17 m' ∧ copied thirty m' 17 25 20.
Proof. apply memcpy_correct; [lia|by apply thirty_block|by apply thirty_block]. Defined.
