(* ===== verification/MemMove2.v ===== *)
(** * The word-copying memmove

    lib/memmove2.c with the macros of pkg/uclibc/libc/string/generic/memcopy.h:
    the four unrolled word-copy loops, which a switch enters at the label that
    makes the remaining count a multiple of the unrolling, and the memmove on top
    of them.  When the source is not aligned like the destination, aligned source
    words are read and merged by shifting.

    The [goto] into the loop is kept: each label is a definition that falls
    through to the next one, [again] is the jump back to the top of the loop.  The
    loops run at most once per word, which is the fuel they are given. *)
From S2P Require Import Prelude Bytes MemFuncs.

Definition OPSIZ : Z := 8.
Definition OP_T_THRES : Z := 16.

(** [((w0) >> (sh_1)) | ((w1) << (sh_2))] on 64-bit words. *)
Definition MERGE (w0 sh_1 w1 sh_2 : Z) : Z := Z.lor (Z.shiftr w0 sh_1) (u64 (Z.shiftl w1 sh_2)).

(** [((op_t * ) p)[i]] *)
Definition op_load (p i : Z) : M mem Z := load64 (p + i * OPSIZ).
Definition op_store (p i w : Z) : M mem unit := store64 (p + i * OPSIZ) w.

(** ** wordcopy_fwd_aligned *)

Section fa_labels.
Context (again : Z → Z → Z → Z → Z → M mem unit).

Definition fa_do0 (dstp a1 : Z) : M mem unit := op_store dstp 0 a1.
Definition fa_do1 (a0 a1 srcp dstp len : Z) : M mem unit :=
  a1 ← op_load srcp 7; op_store dstp 7 a0;;
  let srcp := srcp + 8 * OPSIZ in
  let dstp := dstp + 8 * OPSIZ in
  let len := u64 (len - 8) in
  if nonzero len then again a0 a1 srcp dstp len else fa_do0 dstp a1.
Definition fa_do2 (a0 a1 srcp dstp len : Z) : M mem unit :=
  a0 ← op_load srcp 6; op_store dstp 6 a1;; fa_do1 a0 a1 srcp dstp len.
Definition fa_do3 (a0 a1 srcp dstp len : Z) : M mem unit :=
  a1 ← op_load srcp 5; op_store dstp 5 a0;; fa_do2 a0 a1 srcp dstp len.
Definition fa_do4 (a0 a1 srcp dstp len : Z) : M mem unit :=
  a0 ← op_load srcp 4; op_store dstp 4 a1;; fa_do3 a0 a1 srcp dstp len.
Definition fa_do5 (a0 a1 srcp dstp len : Z) : M mem unit :=
  a1 ← op_load srcp 3; op_store dstp 3 a0;; fa_do4 a0 a1 srcp dstp len.
Definition fa_do6 (a0 a1 srcp dstp len : Z) : M mem unit :=
  a0 ← op_load srcp 2; op_store dstp 2 a1;; fa_do5 a0 a1 srcp dstp len.
Definition fa_do7 (a0 a1 srcp dstp len : Z) : M mem unit :=
  a1 ← op_load srcp 1; op_store dstp 1 a0;; fa_do6 a0 a1 srcp dstp len.
Definition fa_do8 (a0 a1 srcp dstp len : Z) : M mem unit :=
  a0 ← op_load srcp 0; op_store dstp 0 a1;; fa_do7 a0 a1 srcp dstp len.
End fa_labels.

Fixpoint fa_loop (fuel : nat) (a0 a1 srcp dstp len : Z) : M mem unit :=
  match fuel with
  | O => crash NoFuel
  | S n => fa_do8 (fa_loop n) a0 a1 srcp dstp len
  end.

Definition wordcopy_fwd_aligned (dstp srcp len : Z) : M mem unit :=
  let again := fa_loop (Z.to_nat len) in
  let a0 := 0 in let a1 := 0 in
  if len mod 8 =? 2 then
    a0 ← op_load srcp 0;
    fa_do1 again a0 a1 (srcp - 6 * OPSIZ) (dstp - 7 * OPSIZ) (len + 6)
  else if len mod 8 =? 3 then
    a1 ← op_load srcp 0;
    fa_do2 again a0 a1 (srcp - 5 * OPSIZ) (dstp - 6 * OPSIZ) (len + 5)
  else if len mod 8 =? 4 then
    a0 ← op_load srcp 0;
    fa_do3 again a0 a1 (srcp - 4 * OPSIZ) (dstp - 5 * OPSIZ) (len + 4)
  else if len mod 8 =? 5 then
    a1 ← op_load srcp 0;
    fa_do4 again a0 a1 (srcp - 3 * OPSIZ) (dstp - 4 * OPSIZ) (len + 3)
  else if len mod 8 =? 6 then
    a0 ← op_load srcp 0;
    fa_do5 again a0 a1 (srcp - 2 * OPSIZ) (dstp - 3 * OPSIZ) (len + 2)
  else if len mod 8 =? 7 then
    a1 ← op_load srcp 0;
    fa_do6 again a0 a1 (srcp - 1 * OPSIZ) (dstp - 2 * OPSIZ) (len + 1)
  else if len mod 8 =? 0 then
    if (OP_T_THRES <=? 3 * OPSIZ) && (len =? 0) then mret tt else
    a0 ← op_load srcp 0;
    fa_do7 again a0 a1 (srcp - 0 * OPSIZ) (dstp - 1 * OPSIZ) len
  else
    a1 ← op_load srcp 0;
    let srcp := srcp - -1 * OPSIZ in
    let dstp := dstp - 0 * OPSIZ in
    let len := len - 1 in
    if (OP_T_THRES <=? 3 * OPSIZ) && (len =? 0) then fa_do0 dstp a1
    else fa_do8 again a0 a1 srcp dstp len.

(** ** wordcopy_fwd_dest_aligned *)

Section fd_labels.
Context (sh_1 sh_2 : Z) (again : Z → Z → Z → Z → Z → Z → Z → M mem unit).

Definition fd_do0 (dstp a2 a3 : Z) : M mem unit := op_store dstp 0 (MERGE a2 sh_1 a3 sh_2).
Definition fd_do1 (a0 a1 a2 a3 srcp dstp len : Z) : M mem unit :=
  a3 ← op_load srcp 3; op_store dstp 3 (MERGE a1 sh_1 a2 sh_2);;
  let srcp := srcp + 4 * OPSIZ in
  let dstp := dstp + 4 * OPSIZ in
  let len := u64 (len - 4) in
  if nonzero len then again a0 a1 a2 a3 srcp dstp len else fd_do0 dstp a2 a3.
Definition fd_do2 (a0 a1 a2 a3 srcp dstp len : Z) : M mem unit :=
  a2 ← op_load srcp 2; op_store dstp 2 (MERGE a0 sh_1 a1 sh_2);;
  fd_do1 a0 a1 a2 a3 srcp dstp len.
Definition fd_do3 (a0 a1 a2 a3 srcp dstp len : Z) : M mem unit :=
  a1 ← op_load srcp 1; op_store dstp 1 (MERGE a3 sh_1 a0 sh_2);;
  fd_do2 a0 a1 a2 a3 srcp dstp len.
Definition fd_do4 (a0 a1 a2 a3 srcp dstp len : Z) : M mem unit :=
  a0 ← op_load srcp 0; op_store dstp 0 (MERGE a2 sh_1 a3 sh_2);;
  fd_do3 a0 a1 a2 a3 srcp dstp len.
End fd_labels.

Fixpoint fd_loop (sh_1 sh_2 : Z) (fuel : nat) (a0 a1 a2 a3 srcp dstp len : Z) : M mem unit :=
  match fuel with
  | O => crash NoFuel
  | S n => fd_do4 sh_1 sh_2 (fd_loop sh_1 sh_2 n) a0 a1 a2 a3 srcp dstp len
  end.

Definition wordcopy_fwd_dest_aligned (dstp srcp len : Z) : M mem unit :=
  let sh_1 := 8 * (srcp mod OPSIZ) in
  let sh_2 := 8 * OPSIZ - sh_1 in
  let again := fd_loop sh_1 sh_2 (Z.to_nat len) in
  let a0 := 0 in let a1 := 0 in let a2 := 0 in let a3 := 0 in
  let srcp := Z.land srcp (- OPSIZ) in
  if len mod 4 =? 2 then
    a1 ← op_load srcp 0; a2 ← op_load srcp 1;
    fd_do1 sh_1 sh_2 again a0 a1 a2 a3 (srcp - 1 * OPSIZ) (dstp - 3 * OPSIZ) (len + 2)
  else if len mod 4 =? 3 then
    a0 ← op_load srcp 0; a1 ← op_load srcp 1;
    fd_do2 sh_1 sh_2 again a0 a1 a2 a3 (srcp - 0 * OPSIZ) (dstp - 2 * OPSIZ) (len + 1)
  else if len mod 4 =? 0 then
    if (OP_T_THRES <=? 3 * OPSIZ) && (len =? 0) then mret tt else
    a3 ← op_load srcp 0; a0 ← op_load srcp 1;
    fd_do3 sh_1 sh_2 again a0 a1 a2 a3 (srcp - -1 * OPSIZ) (dstp - 1 * OPSIZ) (len + 0)
  else
    a2 ← op_load srcp 0; a3 ← op_load srcp 1;
    let srcp := srcp - -2 * OPSIZ in
    let dstp := dstp - 0 * OPSIZ in
    let len := len - 1 in
    if (OP_T_THRES <=? 3 * OPSIZ) && (len =? 0) then fd_do0 sh_1 sh_2 dstp a2 a3
    else fd_do4 sh_1 sh_2 again a0 a1 a2 a3 srcp dstp len.

(** ** wordcopy_bwd_aligned *)

Section ba_labels.
Context (again : Z → Z → Z → Z → Z → M mem unit).

Definition ba_do0 (dstp a1 : Z) : M mem unit := op_store dstp 7 a1.
Definition ba_do1 (a0 a1 srcp dstp len : Z) : M mem unit :=
  a1 ← op_load srcp 0; op_store dstp 0 a0;;
  let srcp := srcp - 8 * OPSIZ in
  let dstp := dstp - 8 * OPSIZ in
  let len := u64 (len - 8) in
  if nonzero len then again a0 a1 srcp dstp len else ba_do0 dstp a1.
Definition ba_do2 (a0 a1 srcp dstp len : Z) : M mem unit :=
  a0 ← op_load srcp 1; op_store dstp 1 a1;; ba_do1 a0 a1 srcp dstp len.
Definition ba_do3 (a0 a1 srcp dstp len : Z) : M mem unit :=
  a1 ← op_load srcp 2; op_store dstp 2 a0;; ba_do2 a0 a1 srcp dstp len.
Definition ba_do4 (a0 a1 srcp dstp len : Z) : M mem unit :=
  a0 ← op_load srcp 3; op_store dstp 3 a1;; ba_do3 a0 a1 srcp dstp len.
Definition ba_do5 (a0 a1 srcp dstp len : Z) : M mem unit :=
  a1 ← op_load srcp 4; op_store dstp 4 a0;; ba_do4 a0 a1 srcp dstp len.
Definition ba_do6 (a0 a1 srcp dstp len : Z) : M mem unit :=
  a0 ← op_load srcp 5; op_store dstp 5 a1;; ba_do5 a0 a1 srcp dstp len.
Definition ba_do7 (a0 a1 srcp dstp len : Z) : M mem unit :=
  a1 ← op_load srcp 6; op_store dstp 6 a0;; ba_do6 a0 a1 srcp dstp len.
Definition ba_do8 (a0 a1 srcp dstp len : Z) : M mem unit :=
  a0 ← op_load srcp 7; op_store dstp 7 a1;; ba_do7 a0 a1 srcp dstp len.
End ba_labels.

Fixpoint ba_loop (fuel : nat) (a0 a1 srcp dstp len : Z) : M mem unit :=
  match fuel with
  | O => crash NoFuel
  | S n => ba_do8 (ba_loop n) a0 a1 srcp dstp len
  end.

Definition wordcopy_bwd_aligned (dstp srcp len : Z) : M mem unit :=
  let again := ba_loop (Z.to_nat len) in
  let a0 := 0 in let a1 := 0 in
  if len mod 8 =? 2 then
    let srcp := srcp - 2 * OPSIZ in
    let dstp := dstp - 1 * OPSIZ in
    a0 ← op_load srcp 1; ba_do1 again a0 a1 srcp dstp (len + 6)
  else if len mod 8 =? 3 then
    let srcp := srcp - 3 * OPSIZ in
    let dstp := dstp - 2 * OPSIZ in
    a1 ← op_load srcp 2; ba_do2 again a0 a1 srcp dstp (len + 5)
  else if len mod 8 =? 4 then
    let srcp := srcp - 4 * OPSIZ in
    let dstp := dstp - 3 * OPSIZ in
    a0 ← op_load srcp 3; ba_do3 again a0 a1 srcp dstp (len + 4)
  else if len mod 8 =? 5 then
    let srcp := srcp - 5 * OPSIZ in
    let dstp := dstp - 4 * OPSIZ in
    a1 ← op_load srcp 4; ba_do4 again a0 a1 srcp dstp (len + 3)
  else if len mod 8 =? 6 then
    let srcp := srcp - 6 * OPSIZ in
    let dstp := dstp - 5 * OPSIZ in
    a0 ← op_load srcp 5; ba_do5 again a0 a1 srcp dstp (len + 2)
  else if len mod 8 =? 7 then
    let srcp := srcp - 7 * OPSIZ in
    let dstp := dstp - 6 * OPSIZ in
    a1 ← op_load srcp 6; ba_do6 again a0 a1 srcp dstp (len + 1)
  else if len mod 8 =? 0 then
    if (OP_T_THRES <=? 3 * OPSIZ) && (len =? 0) then mret tt else
    let srcp := srcp - 8 * OPSIZ in
    let dstp := dstp - 7 * OPSIZ in
    a0 ← op_load srcp 7; ba_do7 again a0 a1 srcp dstp len
  else
    let srcp := srcp - 9 * OPSIZ in
    let dstp := dstp - 8 * OPSIZ in
    a1 ← op_load srcp 8;
    let len := len - 1 in
    if (OP_T_THRES <=? 3 * OPSIZ) && (len =? 0) then ba_do0 dstp a1
    else ba_do8 again a0 a1 srcp dstp len.

(** ** wordcopy_bwd_dest_aligned *)

Section bd_labels.
Context (sh_1 sh_2 : Z) (again : Z → Z → Z → Z → Z → Z → Z → M mem unit).

Definition bd_do0 (dstp a0 a1 : Z) : M mem unit := op_store dstp 3 (MERGE a0 sh_1 a1 sh_2).
Definition bd_do1 (a0 a1 a2 a3 srcp dstp len : Z) : M mem unit :=
  a0 ← op_load srcp 0; op_store dstp 0 (MERGE a1 sh_1 a2 sh_2);;
  let srcp := srcp - 4 * OPSIZ in
  let dstp := dstp - 4 * OPSIZ in
  let len := u64 (len - 4) in
  if nonzero len then again a0 a1 a2 a3 srcp dstp len else bd_do0 dstp a0 a1.
Definition bd_do2 (a0 a1 a2 a3 srcp dstp len : Z) : M mem unit :=
  a1 ← op_load srcp 1; op_store dstp 1 (MERGE a2 sh_1 a3 sh_2);;
  bd_do1 a0 a1 a2 a3 srcp dstp len.
Definition bd_do3 (a0 a1 a2 a3 srcp dstp len : Z) : M mem unit :=
  a2 ← op_load srcp 2; op_store dstp 2 (MERGE a3 sh_1 a0 sh_2);;
  bd_do2 a0 a1 a2 a3 srcp dstp len.
Definition bd_do4 (a0 a1 a2 a3 srcp dstp len : Z) : M mem unit :=
  a3 ← op_load srcp 3; op_store dstp 3 (MERGE a0 sh_1 a1 sh_2);;
  bd_do3 a0 a1 a2 a3 srcp dstp len.
End bd_labels.

Fixpoint bd_loop (sh_1 sh_2 : Z) (fuel : nat) (a0 a1 a2 a3 srcp dstp len : Z) : M mem unit :=
  match fuel with
  | O => crash NoFuel
  | S n => bd_do4 sh_1 sh_2 (bd_loop sh_1 sh_2 n) a0 a1 a2 a3 srcp dstp len
  end.

Definition wordcopy_bwd_dest_aligned (dstp srcp len : Z) : M mem unit :=
  let sh_1 := 8 * (srcp mod OPSIZ) in
  let sh_2 := 8 * OPSIZ - sh_1 in
  let again := bd_loop sh_1 sh_2 (Z.to_nat len) in
  let a0 := 0 in let a1 := 0 in let a2 := 0 in let a3 := 0 in
  let srcp := Z.land srcp (- OPSIZ) in
  let srcp := srcp + OPSIZ in
  if len mod 4 =? 2 then
    let srcp := srcp - 3 * OPSIZ in
    let dstp := dstp - 1 * OPSIZ in
    a2 ← op_load srcp 2; a1 ← op_load srcp 1;
    bd_do1 sh_1 sh_2 again a0 a1 a2 a3 srcp dstp (len + 2)
  else if len mod 4 =? 3 then
    let srcp := srcp - 4 * OPSIZ in
    let dstp := dstp - 2 * OPSIZ in
    a3 ← op_load srcp 3; a2 ← op_load srcp 2;
    bd_do2 sh_1 sh_2 again a0 a1 a2 a3 srcp dstp (len + 1)
  else if len mod 4 =? 0 then
    if (OP_T_THRES <=? 3 * OPSIZ) && (len =? 0) then mret tt else
    let srcp := srcp - 5 * OPSIZ in
    let dstp := dstp - 3 * OPSIZ in
    a0 ← op_load srcp 4; a3 ← op_load srcp 3;
    bd_do3 sh_1 sh_2 again a0 a1 a2 a3 srcp dstp len
  else
    let srcp := srcp - 6 * OPSIZ in
    let dstp := dstp - 4 * OPSIZ in
    a1 ← op_load srcp 5; a0 ← op_load srcp 4;
    let len := len - 1 in
    if (OP_T_THRES <=? 3 * OPSIZ) && (len =? 0) then bd_do0 sh_1 sh_2 dstp a0 a1
    else bd_do4 sh_1 sh_2 again a0 a1 a2 a3 srcp dstp len.

(** ** memcopy.h and memmove *)

(** The macros advance the pointer variables they are given; here they return them. *)
Definition BYTE_COPY_FWD (dst_bp src_bp nbytes : Z) : M mem (Z * Z) := TLOOP nbytes copy_fwd8 (dst_bp, src_bp).
Definition BYTE_COPY_BWD (dst_ep src_ep nbytes : Z) : M mem (Z * Z) := TLOOP nbytes copy_bwd8 (dst_ep, src_ep).

Definition WORD_COPY_FWD (dst_bp src_bp nbytes : Z) : M mem (Z * Z * Z) :=
  (if src_bp mod OPSIZ =? 0 then wordcopy_fwd_aligned dst_bp src_bp (nbytes / OPSIZ)
   else wordcopy_fwd_dest_aligned dst_bp src_bp (nbytes / OPSIZ));;
  mret (dst_bp + Z.land nbytes (- OPSIZ), src_bp + Z.land nbytes (- OPSIZ), nbytes mod OPSIZ).
Definition WORD_COPY_BWD (dst_ep src_ep nbytes : Z) : M mem (Z * Z * Z) :=
  (if src_ep mod OPSIZ =? 0 then wordcopy_bwd_aligned dst_ep src_ep (nbytes / OPSIZ)
   else wordcopy_bwd_dest_aligned dst_ep src_ep (nbytes / OPSIZ));;
  mret (dst_ep - Z.land nbytes (- OPSIZ), src_ep - Z.land nbytes (- OPSIZ), nbytes mod OPSIZ).

Definition Wmemmove (dest src len : Z) : M mem Z :=
  let dstp := dest in
  let srcp := src in
  (if u64 (dstp - srcp) >=? len then
     '(dstp, srcp, len) ←
       (if len >=? OP_T_THRES then
          let k := u64 (- dstp) mod OPSIZ in
          let len := len - k in
          '(dstp, srcp) ← BYTE_COPY_FWD dstp srcp k;
          WORD_COPY_FWD dstp srcp len
        else mret (dstp, srcp, len));
     BYTE_COPY_FWD dstp srcp len
   else
     let srcp := srcp + len in
     let dstp := dstp + len in
     '(dstp, srcp, len) ←
       (if len >=? OP_T_THRES then
          let k := dstp mod OPSIZ in
          let len := len - k in
          '(dstp, srcp) ← BYTE_COPY_BWD dstp srcp k;
          WORD_COPY_BWD dstp srcp len
        else mret (dstp, srcp, len));
     BYTE_COPY_BWD dstp srcp len);;
  mret dest.
