(* ===== verification/MemMove2Thms.v ===== *)
(** * Correctness of the word-copying memmove

    Each line of an unrolled loop reads one source word ahead and writes one
    destination word ([fa_line], [fd_line] and their mirror images); the invariant
    says which word each register holds and that the words before it are copied.
    The theorem: memmove is the byte-wise copy for every overlap, alignment and
    length, all its word accesses are aligned, and it reads only words that
    contain a byte of the source. *)
From S2P Require Import Prelude Bytes MemFuncs MemMove2.

(** ** Merging two words *)

Lemma MERGE_byte w0 w1 o j :
  0 ≤ w0 < 2 ^ 64 → 0 ≤ o < 8 → 0 ≤ j < 8 →
  wbyte (MERGE w0 (8 * o) w1 (8 * OPSIZ - 8 * o)) j =
    if decide (j < 8 - o) then wbyte w0 (j + o) else wbyte w1 (j - (8 - o)).
Proof.
  intros Hw0 Ho Hj. unfold MERGE, OPSIZ.
  assert (Hhi : ∀ i, 64 ≤ i → Z.testbit w0 i = false).
  { intros i Hi. rewrite <- (Z.mod_small w0 (2 ^ 64)) by lia. apply Z.mod_pow2_bits_high. lia. }
  apply byte_ext; [apply wbyte_range|destruct (decide _); apply wbyte_range|].
  intros i Hi. rewrite wbyte_testbit, Z.lor_spec, Z.shiftr_spec, u64_bits, Z.shiftl_spec by lia.
  destruct (Z.ltb_spec (8 * j + i) 64); [|lia]. rewrite andb_true_l. destruct (decide _).
  - rewrite (Z.testbit_neg_r w1) by lia. rewrite orb_false_r, wbyte_testbit by lia. f_equal. lia.
  - rewrite Hhi by lia. rewrite orb_false_l, wbyte_testbit by lia. f_equal. lia.
Qed.

Lemma land_OPSIZ z : Z.land z (- OPSIZ) = 8 * (z / 8).
Proof. by apply (land_neg_pow2 3). Qed.
Lemma same_word a x : a mod 8 = 0 → a ≤ x < a + 8 → x / 8 = a / 8.
Proof. intros Ha Hx. dlia. Qed.

(** Splits the tests of a switch. *)
Ltac split_switch :=
  repeat match goal with |- wp (if ?b then _ else _) _ _ => destruct b eqn:? end;
  repeat match goal with
    | H : (_ =? _) = true |- _ => apply Z.eqb_eq in H
    | H : (_ =? _) = false |- _ => apply Z.eqb_neq in H
    end.

(** ** The invariants

    [N] words go from [S] to [D], forwards; the memory was [m0]. *)
Section fwd.
Context (m0 : mem) (S D N : Z).
Context (Hov : D ≤ S ∨ S + 8 * N ≤ D) (HD : D mod 8 = 0).
Context (HrD : readable m0 D (8 * N)).

(** The bytes of the source block that the word at [a] covers are those of [w]. *)
Definition holds (a w : Z) : Prop :=
  0 ≤ w < 2 ^ 64 ∧ ∀ j, 0 ≤ j < 8 → S ≤ a + j < S + 8 * N → m0 !! (a + j) = Some (wbyte w j).

(** [i] words written, nothing else changed. *)
Definition fwd_done (i : Z) (m : mem) : Prop := 0 ≤ i < N ∧ copied m0 m D S (8 * i).

(** Every word of the source and the destination can be read. *)
Context (HrS : ∀ x, (∃ y, S ≤ y < S + 8 * N ∧ x / 8 = y / 8) → ∃ b, m0 !! x = Some b ∧ is_byte b).

Lemma HrS0 : readable m0 S (8 * N).
Proof. intros x Hx. apply HrS. eauto. Qed.
Lemma fwd_done_readable i m x : fwd_done i m → (∃ b, m0 !! x = Some b ∧ is_byte b) → ∃ b, m !! x = Some b ∧ is_byte b.
Proof. intros [Hi Hc] Hx. rewrite Hc. destruct (decide _); [apply HrS0; lia|done]. Qed.
(** Reading an aligned source word whose bytes lie past what has been written. *)
Lemma fwd_load i m a (Q : Z → mem → Prop) :
  fwd_done i m → a mod 8 = 0 → (∃ y, S ≤ y < S + 8 * N ∧ a ≤ y < a + 8) → i = 0 ∨ D + 8 * i ≤ a ∨ S + 8 * N ≤ D →
  (∀ w, holds a w → Q w m) → wp (load64 a) m Q.
Proof.
  intros Hdone Ha (y & Hy & Hya) Hfar HQ. apply load64_wp; [done| |].
  - intros x Hx. eapply fwd_done_readable; [done|]. apply HrS. exists y. split; [done|].
    by rewrite (same_word a x), (same_word a y) by (done || lia).
  - intros w Hw Hb. apply HQ. split; [done|]. intros j Hj Hin. destruct Hdone as [Hi Hc].
    rewrite <- Hb by lia. rewrite Hc, decide_False by lia. done.
Qed.
(** Writing destination word [i]. *)
Lemma fwd_store i m w (Q : mem → Prop) :
  fwd_done i m → (∀ j, 0 ≤ j < 8 → m0 !! (S + 8 * i + j) = Some (wbyte w j)) →
  (∀ m', copied m0 m' D S (8 * (i + 1)) → Q m') → wp (store64 (D + 8 * i) w) m (λ _, Q).
Proof.
  intros [Hi Hc] Hw HQ. apply store64_wp.
  - rewrite Z.mul_comm, Z_mod_plus_full. done.
  - intros x Hx. eapply fwd_done_readable; [by split|]. apply HrD. lia.
  - intros m' Hf. apply HQ. replace (8 * (i + 1)) with (8 * i + 8) by lia.
    intros x. rewrite Hf. destruct (decide (D + 8 * i ≤ x < D + 8 * i + 8)).
    + rewrite decide_True by lia. rewrite <- Hw by lia. f_equal. lia.
    + rewrite Hc. destruct (decide (D ≤ x < D + 8 * i)).
      * by rewrite decide_True by lia.
      * by rewrite decide_False by lia.
Qed.

(** *** Aligned source *)
Definition fa_st (i : Z) (m : mem) (reg : Z) : Prop :=
  fwd_done i m ∧ ∀ j, 0 ≤ j < 8 → m0 !! (S + 8 * i + j) = Some (wbyte reg j).

Lemma fa_line i m reg s d (k : Z → M mem unit) (Q : unit → mem → Prop) :
  fa_st i m reg → i + 1 < N → S mod 8 = 0 → s = S + 8 * (i + 1) → d = D + 8 * i →
  (∀ r m', fa_st (i + 1) m' r → wp (k r) m' Q) →
  wp (r ← load64 s; store64 d reg;; k r) m Q.
Proof.
  intros [Hdone Hreg] Hi HS -> -> HQ. apply wp_bind. pose proof Hdone as [Hi0 _]. eapply (fwd_load i); [done|..].
  - rewrite Z.mul_comm, Z_mod_plus_full. done.
  - exists (S + 8 * (i + 1)). lia.
  - lia.
  - intros w Hw. apply wp_bind. eapply fwd_store; [done|done|]. intros m' Hc. apply HQ.
    split; [split; [lia|done]|]. intros j Hj. by apply Hw; lia.
Qed.
Lemma fa_first m s (k : Z → M mem unit) (Q : unit → mem → Prop) :
  m = m0 → s = S → 0 < N → S mod 8 = 0 → (∀ r, fa_st 0 m r → wp (k r) m Q) → wp (r ← load64 s; k r) m Q.
Proof.
  intros -> -> HN HS HQ. apply wp_bind. assert (Hd : fwd_done 0 m0) by (split; [lia|apply copied_0]).
  eapply (fwd_load 0); [done|done|exists S; lia|lia|]. intros w Hw. apply HQ. split; [done|].
  intros j Hj. rewrite Z.mul_0_r, Z.add_0_r. apply Hw; lia.
Qed.
Lemma fa_last i m reg d (Q : unit → mem → Prop) :
  fa_st i m reg → i + 1 = N → d = D + 8 * i → (∀ m', copied m0 m' D S (8 * N) → Q tt m') →
  wp (store64 d reg) m Q.
Proof.
  intros [Hdone Hreg] Hi -> HQ. eapply wp_mono; [by eapply fwd_store; [done|done|]; intros m' Hc; exact Hc|].
  intros [] m' Hc. simpl in Hc. rewrite Hi in Hc. by apply HQ.
Qed.

(** *** Source at offset [o] from an aligned address [A] *)
Definition fd_st (A : Z) (i : Z) (m : mem) (p q : Z) : Prop :=
  fwd_done i m ∧ holds (A + 8 * i) p ∧ holds (A + 8 * (i + 1)) q.

Lemma fd_merge A o i m p q :
  S = A + o → 0 < o < 8 → fd_st A i m p q →
  ∀ j, 0 ≤ j < 8 → m0 !! (S + 8 * i + j) = Some (wbyte (MERGE p (8 * o) q (8 * OPSIZ - 8 * o)) j).
Proof.
  intros HS Ho (Hd & Hp & Hq) j Hj. destruct Hp as [Hp64 Hp], Hd as [Hi _], Hq as [_ Hq].
  rewrite MERGE_byte by lia. destruct (decide _).
  - rewrite <- Hp by lia. f_equal. lia.
  - rewrite <- Hq by lia. f_equal. lia.
Qed.
Lemma fd_line A o i m p q s d (k : Z → M mem unit) (Q : unit → mem → Prop) :
  S = A + o → 0 < o < 8 → A mod 8 = 0 → fd_st A i m p q → i + 1 < N → s = A + 8 * (i + 2) → d = D + 8 * i →
  (∀ r m', fd_st A (i + 1) m' q r → wp (k r) m' Q) →
  wp (r ← load64 s; store64 d (MERGE p (8 * o) q (8 * OPSIZ - 8 * o));; k r) m Q.
Proof.
  intros HS Ho HA Hst Hi -> -> HQ. pose proof (fd_merge _ _ _ _ _ _ HS Ho Hst) as Hm.
  destruct Hst as (Hdone & Hp & Hq). pose proof Hdone as [Hi0 _].
  apply wp_bind. eapply (fwd_load i); [done|..].
  - rewrite Z.mul_comm, Z_mod_plus_full. done.
  - exists (A + 8 * (i + 2)). lia.
  - lia.
  - intros w Hw. apply wp_bind. eapply fwd_store; [done|done|]. intros m' Hc. apply HQ.
    split_and!; [split; [lia|done]|done|]. by replace (i + 1 + 1) with (i + 2) by lia.
Qed.
Lemma fd_first A o m s1 s2 (k : Z → Z → M mem unit) (Q : unit → mem → Prop) :
  m = m0 → S = A + o → 0 < o < 8 → A mod 8 = 0 → s1 = A → s2 = A + 8 → 0 < N →
  (∀ p q, fd_st A 0 m p q → wp (k p q) m Q) → wp (p ← load64 s1; q ← load64 s2; k p q) m Q.
Proof.
  intros -> HS Ho HA -> -> HN HQ. assert (Hd : fwd_done 0 m0) by (split; [lia|apply copied_0]).
  apply wp_bind. eapply (fwd_load 0); [done|done|exists S; lia|lia|]. intros p Hp.
  apply wp_bind. eapply (fwd_load 0); [done|by apply mod_add_same|exists (A + 8); lia|lia|]. intros q Hq.
  apply HQ. split_and!; [done|by rewrite Z.mul_0_r, Z.add_0_r|done].
Qed.
Lemma fd_last A o i m p q d (Q : unit → mem → Prop) :
  S = A + o → 0 < o < 8 → fd_st A i m p q → i + 1 = N → d = D + 8 * i →
  (∀ m', copied m0 m' D S (8 * N) → Q tt m') →
  wp (store64 d (MERGE p (8 * o) q (8 * OPSIZ - 8 * o))) m Q.
Proof.
  intros HS Ho Hst Hi -> HQ. pose proof (fd_merge _ _ _ _ _ _ HS Ho Hst) as Hm. destruct Hst as (Hdone & _).
  eapply wp_mono; [by eapply fwd_store; [done|done|]; intros m' Hc; exact Hc|].
  intros [] m' Hc. simpl in Hc. rewrite Hi in Hc. by apply HQ.
Qed.

(** *** The unrolled loops *)
Context (HN : N < 2 ^ 61) (Q : unit → mem → Prop) (HQ : ∀ m', copied m0 m' D S (8 * N) → Q tt m').

(** What the jump back to the top of the loop may rely on. *)
Definition fa_top (again : Z → Z → Z → Z → Z → M mem unit) (bound : Z) : Prop :=
  ∀ i m a0 a1 srcp dstp len,
    fa_st i m a1 → srcp = S + 8 * (i + 1) → dstp = D + 8 * i → len = N - 1 - i → len mod 8 = 0 → 0 < len < bound →
    wp (again a0 a1 srcp dstp len) m Q.
Definition fd_top (A : Z) (again : Z → Z → Z → Z → Z → Z → Z → M mem unit) (bound : Z) : Prop :=
  ∀ i m a0 a1 a2 a3 srcp dstp len,
    fd_st A i m a2 a3 → srcp = A + 8 * (i + 2) → dstp = D + 8 * i → len = N - 1 - i → len mod 4 = 0 → 0 < len < bound →
    wp (again a0 a1 a2 a3 srcp dstp len) m Q.

Lemma fa_do1_wp again i m a0 a1 srcp dstp len :
  S mod 8 = 0 → fa_top again len → fa_st i m a0 → srcp + 56 = S + 8 * (i + 1) → dstp + 56 = D + 8 * i →
  len = N - 1 - i + 7 → len mod 8 = 0 → 8 ≤ len < 2 ^ 64 →
  wp (fa_do1 again a0 a1 srcp dstp len) m Q.
Proof.
  intros HS Hag Hst Hs Hd Hl Hm Hb. unfold fa_do1, op_load, op_store, OPSIZ.
  eapply fa_line; [exact Hst|lia|done|lia|lia|]. intros r m' Hst'. cbv zeta.
  rewrite u64_small by (unfold in_u64; lia). destruct (nonzero (len - 8)) eqn:Hz.
  - apply nonzero_true in Hz. eapply (Hag (i + 1)); [done|lia|lia|lia|by apply mod_sub_same|lia].
  - apply nonzero_false in Hz. unfold fa_do0, op_store, OPSIZ. eapply fa_last; [done|lia|lia|done].
Qed.
Lemma fd_do1_wp A o again i m a0 a1 a2 a3 srcp dstp len :
  S = A + o → 0 < o < 8 → A mod 8 = 0 → fd_top A again len → fd_st A i m a1 a2 →
  srcp + 24 = A + 8 * (i + 2) → dstp + 24 = D + 8 * i →
  len = N - 1 - i + 3 → len mod 4 = 0 → 4 ≤ len < 2 ^ 64 →
  wp (fd_do1 (8 * o) (8 * OPSIZ - 8 * o) again a0 a1 a2 a3 srcp dstp len) m Q.
Proof.
  intros HS Ho HA Hag Hst Hs Hd Hl Hm Hb. unfold fd_do1, op_load, op_store.
  eapply fd_line; [done|done|done|exact Hst|lia|unfold OPSIZ; lia|unfold OPSIZ; lia|]. intros r m' Hst'. cbv zeta.
  rewrite u64_small by (unfold in_u64; lia). unfold OPSIZ at 1 2. destruct (nonzero (len - 4)) eqn:Hz.
  - apply nonzero_true in Hz. eapply (Hag (i + 1)); [done|lia|lia|lia|by apply mod_sub_same|lia].
  - apply nonzero_false in Hz. unfold fd_do0, op_store. eapply fd_last; [done|done|done|lia|unfold OPSIZ; lia|done].
Qed.

(** Runs one line of an unrolled loop; then, at the bottom, the loop test. *)
Ltac fa_step :=
  lazymatch goal with |- wp (mbind _ _) _ _ => idtac end;
  unfold op_load, op_store, OPSIZ; eapply fa_line; [eassumption|dlia|done|lia|lia|]; intros ? ? ?.
Ltac fa_run :=
  unfold fa_do8, fa_do7, fa_do6, fa_do5, fa_do4, fa_do3, fa_do2; repeat fa_step;
  eapply fa_do1_wp; [done|first [eassumption|match goal with H : ∀ _, _ |- _ => apply H; dlia end]|eassumption|unfold OPSIZ; lia|unfold OPSIZ; lia|lia|dlia|dlia].
Ltac fd_step :=
  lazymatch goal with |- wp (mbind _ _) _ _ => idtac end;
  unfold op_load, op_store; eapply fd_line; [done|done|done|eassumption|dlia|unfold OPSIZ; lia|unfold OPSIZ; lia|]; intros ? ? ?.
Ltac fd_run :=
  unfold fd_do4, fd_do3, fd_do2; repeat fd_step;
  eapply fd_do1_wp; [done|done|done|first [eassumption|match goal with H : ∀ _, _ |- _ => apply H; dlia end]|eassumption|unfold OPSIZ; lia|unfold OPSIZ; lia|lia|dlia|dlia].

Lemma fa_loop_wp n : S mod 8 = 0 → fa_top (fa_loop n) (Z.of_nat n).
Proof.
  intros HS. induction n as [|n IH]; intros i m a0 a1 srcp dstp len Hst Hs Hd Hl Hm Hb; [lia|]. simpl.
  assert (Hag : fa_top (fa_loop n) len).
  { intros i' m' ???????????. eapply IH; [done..|lia]. }
  assert (Hi := Hst). destruct Hi as [[Hi _] _]. assert (8 ≤ len) by dlia. fa_run.
Qed.
Lemma fd_loop_wp A o n :
  S = A + o → 0 < o < 8 → A mod 8 = 0 → fd_top A (fd_loop (8 * o) (8 * OPSIZ - 8 * o) n) (Z.of_nat n).
Proof.
  intros HS Ho HA. induction n as [|n IH]; intros i m a0 a1 a2 a3 srcp dstp len Hst Hs Hd Hl Hm Hb; [lia|]. simpl.
  assert (Hag : fd_top A (fd_loop (8 * o) (8 * OPSIZ - 8 * o) n) len).
  { intros i' m' ?????????????. eapply IH; [done..|lia]. }
  assert (Hi := Hst). destruct Hi as [[Hi _] _]. assert (4 ≤ len) by dlia. fd_run.
Qed.

Lemma wordcopy_fwd_aligned_wp : 0 ≤ N → S mod 8 = 0 → wp (wordcopy_fwd_aligned D S N) m0 Q.
Proof.
  intros HN0 HS. unfold wordcopy_fwd_aligned. cbv zeta. change (OP_T_THRES <=? 3 * OPSIZ) with true. rewrite !andb_true_l.
  assert (Hag : ∀ len, len ≤ Z.of_nat (Z.to_nat N) + 7 ∧ len mod 8 = 0 → fa_top (fa_loop (Z.to_nat N)) len).
  { intros len [Hle Hm0] i m ?????????? Hlen. eapply (fa_loop_wp (Z.to_nat N)); [done..|]. dlia. }
  split_switch.
  all: try (apply wp_ret, HQ; replace (8 * N) with 0 by lia; apply copied_0).
  all: unfold op_load at 1; eapply fa_first; [done|unfold OPSIZ; lia|dlia|done|]; intros r Hst.
  8: split_switch; [unfold fa_do0, op_store, OPSIZ; eapply fa_last; [exact Hst|lia|lia|done]|].
  all: fa_run.
Qed.
Lemma wordcopy_fwd_dest_aligned_wp : 0 ≤ N → S mod 8 ≠ 0 → wp (wordcopy_fwd_dest_aligned D S N) m0 Q.
Proof.
  intros HN0 HSm. unfold wordcopy_fwd_dest_aligned. cbv zeta. change (OP_T_THRES <=? 3 * OPSIZ) with true.
  rewrite !andb_true_l, land_OPSIZ. change (S mod OPSIZ) with (S mod 8).
  assert (HA : ∃ A, A = 8 * (S / 8)) by eauto. destruct HA as (A & HA). rewrite <- HA.
  assert (HS : S = A + S mod 8) by dlia. assert (Ho : 0 < S mod 8 < 8) by dlia.
  assert (HA8 : A mod 8 = 0) by dlia. set (o := S mod 8) in *. clearbody o.
  assert (Hag : ∀ len, len ≤ Z.of_nat (Z.to_nat N) + 3 ∧ len mod 4 = 0 → fd_top A (fd_loop (8 * o) (8 * OPSIZ - 8 * o) (Z.to_nat N)) len).
  { intros len [Hle Hm0] i m ???????????? Hlen. eapply (fd_loop_wp A o (Z.to_nat N)); [done..|]. dlia. }
  split_switch.
  all: try (apply wp_ret, HQ; replace (8 * N) with 0 by lia; apply copied_0).
  all: unfold op_load at 1 2; eapply fd_first; [done|done|done|done|unfold OPSIZ; lia|unfold OPSIZ; lia|dlia|]; intros p q Hst.
  4: split_switch; [unfold fd_do0, op_store; eapply fd_last; [done|done|exact Hst|lia|unfold OPSIZ; lia|done]|].
  all: fd_run.
Qed.
End fwd.

(** ** Backwards: [S] and [D] point past the end of the blocks *)
Section bwd.
Context (m0 : mem) (S D N : Z).
Context (Hov : S ≤ D ∨ D ≤ S - 8 * N) (HD : D mod 8 = 0).
Context (HrD : readable m0 (D - 8 * N) (8 * N)).
Context (HrS : ∀ x, (∃ y, S - 8 * N ≤ y < S ∧ x / 8 = y / 8) → ∃ b, m0 !! x = Some b ∧ is_byte b).

Definition bholds (a w : Z) : Prop := holds m0 (S - 8 * N) N a w.
Definition bwd_done (i : Z) (m : mem) : Prop := 0 ≤ i < N ∧ copied m0 m (D - 8 * i) (S - 8 * i) (8 * i).

Lemma bwd_done_readable i m x : bwd_done i m → (∃ b, m0 !! x = Some b ∧ is_byte b) → ∃ b, m !! x = Some b ∧ is_byte b.
Proof.
  intros [Hi Hc] Hx. rewrite Hc. destruct (decide _); [|done].
  apply HrS. eexists. split; [|done]. lia.
Qed.
Lemma bwd_load i m a (Q : Z → mem → Prop) :
  bwd_done i m → a mod 8 = 0 → (∃ y, S - 8 * N ≤ y < S ∧ a ≤ y < a + 8) →
  i = 0 ∨ a + 8 ≤ D - 8 * i ∨ D ≤ S - 8 * N →
  (∀ w, bholds a w → Q w m) → wp (load64 a) m Q.
Proof.
  intros Hdone Ha (y & Hy & Hya) Hfar HQ. apply load64_wp; [done| |].
  - intros x Hx. eapply bwd_done_readable; [done|]. apply HrS. exists y. split; [done|].
    by rewrite (same_word a x), (same_word a y) by (done || lia).
  - intros w Hw Hb. apply HQ. split; [done|]. intros j Hj Hin. destruct Hdone as [Hi Hc].
    rewrite <- Hb by lia. rewrite Hc, decide_False by lia. done.
Qed.
Lemma bwd_store i m w (Q : mem → Prop) :
  bwd_done i m → (∀ j, 0 ≤ j < 8 → m0 !! (S - 8 * (i + 1) + j) = Some (wbyte w j)) →
  (∀ m', copied m0 m' (D - 8 * (i + 1)) (S - 8 * (i + 1)) (8 * (i + 1)) → Q m') →
  wp (store64 (D - 8 * (i + 1)) w) m (λ _, Q).
Proof.
  intros [Hi Hc] Hw HQ. apply store64_wp.
  - dlia.
  - intros x Hx. eapply bwd_done_readable; [by split|]. apply HrD. lia.
  - intros m' Hf. apply HQ. intros x. rewrite Hf. destruct (decide (D - 8 * (i + 1) ≤ x < D - 8 * (i + 1) + 8)).
    + rewrite decide_True by lia. rewrite <- Hw by lia. f_equal. lia.
    + rewrite Hc. destruct (decide (D - 8 * i ≤ x < D - 8 * i + 8 * i)).
      * rewrite decide_True by lia. f_equal. lia.
      * by rewrite decide_False by lia.
Qed.

(** *** Aligned source *)
Definition ba_st (i : Z) (m : mem) (reg : Z) : Prop :=
  bwd_done i m ∧ ∀ j, 0 ≤ j < 8 → m0 !! (S - 8 * (i + 1) + j) = Some (wbyte reg j).

Lemma ba_line i m reg s d (k : Z → M mem unit) (Q : unit → mem → Prop) :
  ba_st i m reg → i + 1 < N → S mod 8 = 0 → s = S - 8 * (i + 2) → d = D - 8 * (i + 1) →
  (∀ r m', ba_st (i + 1) m' r → wp (k r) m' Q) →
  wp (r ← load64 s; store64 d reg;; k r) m Q.
Proof.
  intros [Hdone Hreg] Hi HS -> -> HQ. apply wp_bind. pose proof Hdone as [Hi0 _].
  eapply (bwd_load i); [done|dlia|exists (S - 8 * (i + 2)); lia|lia|].
  intros w Hw. apply wp_bind. eapply bwd_store; [done|done|]. intros m' Hc. apply HQ.
  split; [split; [lia|done]|]. intros j Hj. replace (i + 1 + 1) with (i + 2) by lia. by apply Hw; lia.
Qed.
Lemma ba_first m s (k : Z → M mem unit) (Q : unit → mem → Prop) :
  m = m0 → s = S - 8 → 0 < N → S mod 8 = 0 → (∀ r, ba_st 0 m r → wp (k r) m Q) → wp (r ← load64 s; k r) m Q.
Proof.
  intros -> -> HN HS HQ. apply wp_bind. assert (Hd : bwd_done 0 m0) by (split; [lia|apply copied_0]).
  eapply (bwd_load 0); [done|dlia|exists (S - 8); lia|lia|]. intros w Hw. apply HQ. split; [done|].
  intros j Hj. apply Hw; lia.
Qed.
Lemma ba_last i m reg d (Q : unit → mem → Prop) :
  ba_st i m reg → i + 1 = N → d = D - 8 * (i + 1) →
  (∀ m', copied m0 m' (D - 8 * N) (S - 8 * N) (8 * N) → Q tt m') → wp (store64 d reg) m Q.
Proof.
  intros [Hdone Hreg] Hi -> HQ. eapply wp_mono; [by eapply bwd_store; [done|done|]; intros m' Hc; exact Hc|].
  intros [] m' Hc. simpl in Hc. rewrite Hi in Hc. by apply HQ.
Qed.

(** *** Source end at offset [o] from an aligned address [B] *)
Definition bd_st (B : Z) (i : Z) (m : mem) (p q : Z) : Prop :=
  bwd_done i m ∧ bholds (B - 8 * (i + 1)) p ∧ bholds (B - 8 * i) q.

Lemma bd_merge B o i m p q :
  S = B + o → 0 < o < 8 → bd_st B i m p q →
  ∀ j, 0 ≤ j < 8 → m0 !! (S - 8 * (i + 1) + j) = Some (wbyte (MERGE p (8 * o) q (8 * OPSIZ - 8 * o)) j).
Proof.
  intros HS Ho (Hd & Hp & Hq) j Hj. destruct Hp as [Hp64 Hp], Hd as [Hi _], Hq as [_ Hq].
  rewrite MERGE_byte by lia. destruct (decide _).
  - rewrite <- Hp by lia. f_equal. lia.
  - rewrite <- Hq by lia. f_equal. lia.
Qed.
Lemma bd_line B o i m p q s d (k : Z → M mem unit) (Q : unit → mem → Prop) :
  S = B + o → 0 < o < 8 → B mod 8 = 0 → bd_st B i m p q → i + 1 < N → s = B - 8 * (i + 2) → d = D - 8 * (i + 1) →
  (∀ r m', bd_st B (i + 1) m' r p → wp (k r) m' Q) →
  wp (r ← load64 s; store64 d (MERGE p (8 * o) q (8 * OPSIZ - 8 * o));; k r) m Q.
Proof.
  intros HS Ho HA Hst Hi -> -> HQ. pose proof (bd_merge _ _ _ _ _ _ HS Ho Hst) as Hm.
  destruct Hst as (Hdone & Hp & Hq). pose proof Hdone as [Hi0 _].
  apply wp_bind. eapply (bwd_load i); [done|dlia|exists (B - 8 * (i + 2) + o); lia|lia|].
  intros w Hw. apply wp_bind. eapply bwd_store; [done|done|]. intros m' Hc. apply HQ.
  split_and!; [split; [lia|done]| |done]. by replace (i + 1 + 1) with (i + 2) by lia.
Qed.
Lemma bd_first B o m s1 s2 (k : Z → Z → M mem unit) (Q : unit → mem → Prop) :
  m = m0 → S = B + o → 0 < o < 8 → B mod 8 = 0 → s1 = B → s2 = B - 8 → 0 < N →
  (∀ p q, bd_st B 0 m p q → wp (k q p) m Q) → wp (q ← load64 s1; p ← load64 s2; k q p) m Q.
Proof.
  intros -> HS Ho HA -> -> HN HQ. assert (Hd : bwd_done 0 m0) by (split; [lia|apply copied_0]).
  apply wp_bind. eapply (bwd_load 0); [done|done|exists B; lia|lia|]. intros q Hq.
  apply wp_bind. eapply (bwd_load 0); [done|dlia|exists (B - 8 + o); lia|lia|]. intros p Hp.
  apply HQ. split_and!; [done|done|by rewrite Z.mul_0_r, Z.sub_0_r].
Qed.
Lemma bd_last B o i m p q d (Q : unit → mem → Prop) :
  S = B + o → 0 < o < 8 → bd_st B i m p q → i + 1 = N → d = D - 8 * (i + 1) →
  (∀ m', copied m0 m' (D - 8 * N) (S - 8 * N) (8 * N) → Q tt m') →
  wp (store64 d (MERGE p (8 * o) q (8 * OPSIZ - 8 * o))) m Q.
Proof.
  intros HS Ho Hst Hi -> HQ. pose proof (bd_merge _ _ _ _ _ _ HS Ho Hst) as Hm. destruct Hst as (Hdone & _).
  eapply wp_mono; [by eapply bwd_store; [done|done|]; intros m' Hc; exact Hc|].
  intros [] m' Hc. simpl in Hc. rewrite Hi in Hc. by apply HQ.
Qed.

(** *** The unrolled loops *)
Context (HN : N < 2 ^ 61) (Q : unit → mem → Prop).
Context (HQ : ∀ m', copied m0 m' (D - 8 * N) (S - 8 * N) (8 * N) → Q tt m').

Definition ba_top (again : Z → Z → Z → Z → Z → M mem unit) (bound : Z) : Prop :=
  ∀ i m a0 a1 srcp dstp len,
    ba_st i m a1 → srcp + 56 = S - 8 * (i + 2) → dstp + 56 = D - 8 * (i + 1) → len = N - 1 - i → len mod 8 = 0 →
    0 < len < bound → wp (again a0 a1 srcp dstp len) m Q.
Definition bd_top (B : Z) (again : Z → Z → Z → Z → Z → Z → Z → M mem unit) (bound : Z) : Prop :=
  ∀ i m a0 a1 a2 a3 srcp dstp len,
    bd_st B i m a0 a1 → srcp + 24 = B - 8 * (i + 2) → dstp + 24 = D - 8 * (i + 1) → len = N - 1 - i → len mod 4 = 0 →
    0 < len < bound → wp (again a0 a1 a2 a3 srcp dstp len) m Q.

Lemma ba_do1_wp again i m a0 a1 srcp dstp len :
  S mod 8 = 0 → ba_top again len → ba_st i m a0 → srcp = S - 8 * (i + 2) → dstp = D - 8 * (i + 1) →
  len = N - 1 - i + 7 → len mod 8 = 0 → 8 ≤ len < 2 ^ 64 →
  wp (ba_do1 again a0 a1 srcp dstp len) m Q.
Proof.
  intros HS Hag Hst Hs Hd Hl Hm Hb. unfold ba_do1, op_load, op_store, OPSIZ.
  eapply ba_line; [exact Hst|lia|done|lia|lia|]. intros r m' Hst'. cbv zeta.
  rewrite u64_small by (unfold in_u64; lia). destruct (nonzero (len - 8)) eqn:Hz.
  - apply nonzero_true in Hz. eapply (Hag (i + 1)); [done|lia|lia|lia|by apply mod_sub_same|lia].
  - apply nonzero_false in Hz. unfold ba_do0, op_store, OPSIZ. eapply ba_last; [done|lia|lia|done].
Qed.
Lemma bd_do1_wp B o again i m a0 a1 a2 a3 srcp dstp len :
  S = B + o → 0 < o < 8 → B mod 8 = 0 → bd_top B again len → bd_st B i m a1 a2 →
  srcp = B - 8 * (i + 2) → dstp = D - 8 * (i + 1) →
  len = N - 1 - i + 3 → len mod 4 = 0 → 4 ≤ len < 2 ^ 64 →
  wp (bd_do1 (8 * o) (8 * OPSIZ - 8 * o) again a0 a1 a2 a3 srcp dstp len) m Q.
Proof.
  intros HS Ho HA Hag Hst Hs Hd Hl Hm Hb. unfold bd_do1, op_load, op_store.
  eapply bd_line; [done|done|done|exact Hst|lia|unfold OPSIZ; lia|unfold OPSIZ; lia|]. intros r m' Hst'. cbv zeta.
  rewrite u64_small by (unfold in_u64; lia). unfold OPSIZ at 1 2. destruct (nonzero (len - 4)) eqn:Hz.
  - apply nonzero_true in Hz. eapply (Hag (i + 1)); [done|lia|lia|lia|by apply mod_sub_same|lia].
  - apply nonzero_false in Hz. unfold bd_do0, op_store. eapply bd_last; [done|done|done|lia|unfold OPSIZ; lia|done].
Qed.

Ltac ba_step :=
  lazymatch goal with |- wp (mbind _ _) _ _ => idtac end;
  unfold op_load, op_store, OPSIZ; eapply ba_line; [eassumption|dlia|done|lia|lia|]; intros ? ? ?.
Ltac ba_run :=
  unfold ba_do8, ba_do7, ba_do6, ba_do5, ba_do4, ba_do3, ba_do2; repeat ba_step;
  eapply ba_do1_wp; [done|first [eassumption|match goal with H : ∀ _, _ |- _ => apply H; dlia end]|eassumption|unfold OPSIZ; lia|unfold OPSIZ; lia|lia|dlia|dlia].
Ltac bd_step :=
  lazymatch goal with |- wp (mbind _ _) _ _ => idtac end;
  unfold op_load, op_store; eapply bd_line; [done|done|done|eassumption|dlia|unfold OPSIZ; lia|unfold OPSIZ; lia|]; intros ? ? ?.
Ltac bd_run :=
  unfold bd_do4, bd_do3, bd_do2; repeat bd_step;
  eapply bd_do1_wp; [done|done|done|first [eassumption|match goal with H : ∀ _, _ |- _ => apply H; dlia end]|eassumption|unfold OPSIZ; lia|unfold OPSIZ; lia|lia|dlia|dlia].

Lemma ba_loop_wp n : S mod 8 = 0 → ba_top (ba_loop n) (Z.of_nat n).
Proof.
  intros HS. induction n as [|n IH]; intros i m a0 a1 srcp dstp len Hst Hs Hd Hl Hm Hb; [lia|]. simpl.
  assert (Hag : ba_top (ba_loop n) len).
  { intros i' m' ???????????. eapply IH; [done..|lia]. }
  assert (Hi := Hst). destruct Hi as [[Hi _] _]. assert (8 ≤ len) by dlia. ba_run.
Qed.
Lemma bd_loop_wp B o n :
  S = B + o → 0 < o < 8 → B mod 8 = 0 → bd_top B (bd_loop (8 * o) (8 * OPSIZ - 8 * o) n) (Z.of_nat n).
Proof.
  intros HS Ho HA. induction n as [|n IH]; intros i m a0 a1 a2 a3 srcp dstp len Hst Hs Hd Hl Hm Hb; [lia|]. simpl.
  assert (Hag : bd_top B (bd_loop (8 * o) (8 * OPSIZ - 8 * o) n) len).
  { intros i' m' ?????????????. eapply IH; [done..|lia]. }
  assert (Hi := Hst). destruct Hi as [[Hi _] _]. assert (4 ≤ len) by dlia. bd_run.
Qed.

Lemma wordcopy_bwd_aligned_wp : 0 ≤ N → S mod 8 = 0 → wp (wordcopy_bwd_aligned D S N) m0 Q.
Proof.
  intros HN0 HS. unfold wordcopy_bwd_aligned. cbv zeta. change (OP_T_THRES <=? 3 * OPSIZ) with true. rewrite !andb_true_l.
  assert (Hag : ∀ len, len ≤ Z.of_nat (Z.to_nat N) + 7 ∧ len mod 8 = 0 → ba_top (ba_loop (Z.to_nat N)) len).
  { intros len [Hle Hm0] i m ?????????? Hlen. eapply (ba_loop_wp (Z.to_nat N)); [done..|]. dlia. }
  split_switch.
  all: try (apply wp_ret, HQ; replace (8 * N) with 0 by lia; apply copied_0).
  all: unfold op_load at 1; eapply ba_first; [done|unfold OPSIZ; lia|dlia|done|]; intros r Hst.
  8: split_switch; [unfold ba_do0, op_store, OPSIZ; eapply ba_last; [exact Hst|lia|lia|done]|].
  all: ba_run.
Qed.
Lemma wordcopy_bwd_dest_aligned_wp : 0 ≤ N → S mod 8 ≠ 0 → wp (wordcopy_bwd_dest_aligned D S N) m0 Q.
Proof.
  intros HN0 HSm. unfold wordcopy_bwd_dest_aligned. cbv zeta. change (OP_T_THRES <=? 3 * OPSIZ) with true.
  rewrite !andb_true_l, land_OPSIZ. change (S mod OPSIZ) with (S mod 8).
  assert (HA : ∃ B, B = 8 * (S / 8)) by eauto. destruct HA as (B & HA). rewrite <- HA.
  assert (HS : S = B + S mod 8) by dlia. assert (Ho : 0 < S mod 8 < 8) by dlia.
  assert (HA8 : B mod 8 = 0) by dlia. set (o := S mod 8) in *. clearbody o.
  assert (Hag : ∀ len, len ≤ Z.of_nat (Z.to_nat N) + 3 ∧ len mod 4 = 0 → bd_top B (bd_loop (8 * o) (8 * OPSIZ - 8 * o) (Z.to_nat N)) len).
  { intros len [Hle Hm0] i m ???????????? Hlen. eapply (bd_loop_wp B o (Z.to_nat N)); [done..|]. dlia. }
  split_switch.
  all: try (apply wp_ret, HQ; replace (8 * N) with 0 by lia; apply copied_0).
  all: unfold op_load at 1 2; eapply bd_first; [done|done|done|done|unfold OPSIZ; lia|unfold OPSIZ; lia|dlia|]; intros p q Hst.
  4: split_switch; [unfold bd_do0, op_store; eapply bd_last; [done|done|exact Hst|lia|unfold OPSIZ; lia|done]|].
  all: bd_run.
Qed.
End bwd.

(** ** memmove

    Every aligned word that contains a byte of the block can be read.  (A page
    boundary never splits a word.) *)
Definition words_readable (m : mem) (a n : Z) : Prop :=
  ∀ x, (∃ y, a ≤ y < a + n ∧ x / 8 = y / 8) → ∃ b, m !! x = Some b ∧ is_byte b.

Lemma words_readable_block m a n : words_readable m a n → readable m a n.
Proof. intros H x Hx. apply H. eauto. Qed.
Lemma words_readable_sub m a n a' n' : words_readable m a n → a ≤ a' → a' + n' ≤ a + n → words_readable m a' n'.
Proof. intros H ?? x (y & Hy & Hxy). apply H. exists y. split; [lia|done]. Qed.
Lemma words_readable_copied m m' dst src n a k :
  readable m src n → words_readable m a k → copied m m' dst src n → words_readable m' a k.
Proof. intros Hs Ha Hc x Hx. rewrite Hc. destruct (decide _); [apply Hs; lia|by apply Ha]. Qed.

Lemma WORD_COPY_FWD_wp m dst src n (Q : Z * Z * Z → mem → Prop) :
  0 ≤ n < 2 ^ 64 → dst mod 8 = 0 → dst ≤ src ∨ src + n ≤ dst → words_readable m src n → readable m dst n →
  (∀ m', copied m m' dst src (8 * (n / 8)) → Q (dst + 8 * (n / 8), src + 8 * (n / 8), n mod 8) m') →
  wp (WORD_COPY_FWD dst src n) m Q.
Proof.
  intros Hn Hal Hov Hs Hd HQ. unfold WORD_COPY_FWD. rewrite land_OPSIZ. change OPSIZ with 8.
  assert (Hw : words_readable m src (8 * (n / 8))) by (eapply words_readable_sub; [exact Hs|lia|dlia]).
  assert (Hwd : readable m dst (8 * (n / 8))) by (eapply readable_sub; [exact Hd|lia|dlia]).
  apply wp_bind. destruct (Z.eqb_spec (src mod 8) 0).
  - eapply wordcopy_fwd_aligned_wp; [dlia|done|done|done|dlia| |dlia|done]. intros m' Hc. by apply wp_ret, HQ.
  - eapply wordcopy_fwd_dest_aligned_wp; [dlia|done|done|done|dlia| |dlia|done]. intros m' Hc. by apply wp_ret, HQ.
Qed.
Lemma WORD_COPY_BWD_wp m dst src n (Q : Z * Z * Z → mem → Prop) :
  0 ≤ n < 2 ^ 64 → dst mod 8 = 0 → src ≤ dst ∨ dst ≤ src - n → words_readable m (src - n) n → readable m (dst - n) n →
  (∀ m', copied m m' (dst - 8 * (n / 8)) (src - 8 * (n / 8)) (8 * (n / 8)) →
     Q (dst - 8 * (n / 8), src - 8 * (n / 8), n mod 8) m') →
  wp (WORD_COPY_BWD dst src n) m Q.
Proof.
  intros Hn Hal Hov Hs Hd HQ. unfold WORD_COPY_BWD. rewrite land_OPSIZ. change OPSIZ with 8.
  assert (Hwd : readable m (dst - 8 * (n / 8)) (8 * (n / 8))) by (eapply readable_sub; [exact Hd|dlia|dlia]).
  assert (Hw : ∀ x, (∃ y, src - 8 * (n / 8) ≤ y < src ∧ x / 8 = y / 8) → ∃ b, m !! x = Some b ∧ is_byte b).
  { intros x (y & Hy & Hxy). apply Hs. exists y. split; [dlia|done]. }
  apply wp_bind. destruct (Z.eqb_spec (src mod 8) 0).
  - eapply wordcopy_bwd_aligned_wp; [dlia|done|done|done|dlia| |dlia|done]. intros m' Hc. by apply wp_ret, HQ.
  - eapply wordcopy_bwd_dest_aligned_wp; [dlia|done|done|done|dlia| |dlia|done]. intros m' Hc. by apply wp_ret, HQ.
Qed.
Lemma BYTE_COPY_FWD_wp m dst src n (Q : Z * Z → mem → Prop) :
  0 ≤ n → dst ≤ src ∨ src + n ≤ dst → readable m src n → readable m dst n →
  (∀ m', copied m m' dst src n → Q (dst + n, src + n) m') → wp (BYTE_COPY_FWD dst src n) m Q.
Proof.
  intros Hn Hov Hs Hd HQ. unfold BYTE_COPY_FWD.
  eapply (TLOOP_copies 1); rewrite ?Z.mul_1_l; [lia|apply copies8|lia|right; by rewrite !Z.mod_1_r|done..].
Qed.
Lemma BYTE_COPY_BWD_wp m dst src n (Q : Z * Z → mem → Prop) :
  0 ≤ n → src ≤ dst ∨ dst ≤ src - n → readable m (src - n) n → readable m (dst - n) n →
  (∀ m', copied m m' (dst - n) (src - n) n → Q (dst - n, src - n) m') → wp (BYTE_COPY_BWD dst src n) m Q.
Proof.
  intros Hn Hov Hs Hd HQ. unfold BYTE_COPY_BWD.
  eapply (TLOOP_copies_back 1); rewrite ?Z.mul_1_l; [lia|apply copies_back8|lia|right; by rewrite !Z.mod_1_r|done..].
Qed.

(** The two directions of [Wmemmove], from the first byte to the last. *)
Lemma Wmemmove_fwd_wp m dst src n (Q : Z * Z → mem → Prop) :
  0 ≤ n < 2 ^ 64 → 0 ≤ dst → dst + n ≤ 2 ^ 64 → dst ≤ src ∨ src + n ≤ dst → words_readable m src n → readable m dst n →
  (∀ p m', copied m m' dst src n → Q p m') →
  wp ('(dstp, srcp, len) ←
        (if n >=? OP_T_THRES then
           let k := u64 (- dst) mod OPSIZ in
           let len := n - k in
           '(dstp, srcp) ← BYTE_COPY_FWD dst src k;
           WORD_COPY_FWD dstp srcp len
         else mret (dst, src, n));
      BYTE_COPY_FWD dstp srcp len) m Q.
Proof.
  intros Hn Hd0 Htop Hov Hs Hd HQ. pose proof (words_readable_block _ _ _ Hs) as Hsb. apply wp_bind.
  destruct (Z.geb_spec n OP_T_THRES) as [Hbig|_]; unfold OP_T_THRES in *.
  2: { apply wp_ret. apply BYTE_COPY_FWD_wp; [lia|done|done|done|]. intros m' Hc. by apply HQ. }
  cbv zeta. set (k := u64 (- dst) mod OPSIZ). assert (Hk : 0 ≤ k < 8 ∧ (dst + k) mod 8 = 0).
  { subst k. unfold OPSIZ, u64. change (2 ^ 64) with 18446744073709551616. split; [dlia|]. dlia. }
  clearbody k. destruct Hk as [Hk Hal]. apply wp_bind. apply BYTE_COPY_FWD_wp; [lia|lia|..].
  { eapply readable_sub; [exact Hsb|lia|lia]. } { eapply readable_sub; [exact Hd|lia|lia]. }
  intros m1 H1. assert (Hr : ∀ a j, readable m a j → readable m1 a j).
  { intros a j Ha. eapply readable_copied; [eapply (readable_sub m); [exact Hsb|..]|done|exact H1]; lia. }
  apply WORD_COPY_FWD_wp; [lia|done|lia|..].
  { eapply words_readable_copied; [|eapply words_readable_sub; [exact Hs|lia|lia]|exact H1].
    eapply readable_sub; [exact Hsb|lia|lia]. }
  { eapply Hr, readable_sub; [exact Hd|lia|lia]. }
  intros m2 H2. set (q := 8 * ((n - k) / 8)) in *. assert (Hq : 0 ≤ q ∧ n - k = q + (n - k) mod 8 ∧ 0 ≤ (n - k) mod 8) by (subst q; dlia).
  clearbody q. destruct Hq as (Hq & Heq & Hm).
  assert (H12 : copied m m2 dst src (k + q)) by (eapply copied_fwd; [lia|lia|lia|done|done]).
  assert (Hr2 : ∀ a j, readable m a j → readable m2 a j).
  { intros a j Ha. eapply readable_copied; [eapply (readable_sub m); [exact Hsb|..]|done|exact H12]; lia. }
  apply BYTE_COPY_FWD_wp; [lia|lia|..].
  { eapply Hr2, readable_sub; [exact Hsb|lia|lia]. } { eapply Hr2, readable_sub; [exact Hd|lia|lia]. }
  intros m3 H3. apply HQ. replace n with (k + q + (n - k) mod 8) by lia.
  rewrite <- !Z.add_assoc in H3. eapply copied_fwd; [lia|lia|lia|exact H12|exact H3].
Qed.
Lemma Wmemmove_bwd_wp m dst src n (Q : Z * Z → mem → Prop) :
  0 ≤ n < 2 ^ 64 → src ≤ dst ∨ dst ≤ src - n → words_readable m (src - n) n → readable m (dst - n) n →
  (∀ p m', copied m m' (dst - n) (src - n) n → Q p m') →
  wp ('(dstp, srcp, len) ←
        (if n >=? OP_T_THRES then
           let k := dst mod OPSIZ in
           let len := n - k in
           '(dstp, srcp) ← BYTE_COPY_BWD dst src k;
           WORD_COPY_BWD dstp srcp len
         else mret (dst, src, n));
      BYTE_COPY_BWD dstp srcp len) m Q.
Proof.
  intros Hn Hov Hs Hd HQ. pose proof (words_readable_block _ _ _ Hs) as Hsb. apply wp_bind.
  destruct (Z.geb_spec n OP_T_THRES) as [Hbig|_]; unfold OP_T_THRES in *.
  2: { apply wp_ret. apply BYTE_COPY_BWD_wp; [lia|done|done|done|]. intros m' Hc. by apply HQ. }
  cbv zeta. set (k := dst mod OPSIZ). assert (Hk : 0 ≤ k < 8 ∧ (dst - k) mod 8 = 0).
  { subst k. unfold OPSIZ. split; dlia. }
  clearbody k. destruct Hk as [Hk Hal]. apply wp_bind. apply BYTE_COPY_BWD_wp; [lia|lia|..].
  { eapply readable_sub; [exact Hsb|lia|lia]. } { eapply readable_sub; [exact Hd|lia|lia]. }
  intros m1 H1. assert (Hr : ∀ a j, readable m a j → readable m1 a j).
  { intros a j Ha. eapply readable_copied; [eapply (readable_sub m); [exact Hsb|..]|done|exact H1]; lia. }
  apply WORD_COPY_BWD_wp; [lia|done|lia|..].
  { eapply words_readable_copied; [|eapply words_readable_sub; [exact Hs|lia|lia]|exact H1].
    eapply readable_sub; [exact Hsb|lia|lia]. }
  { eapply Hr, readable_sub; [exact Hd|lia|lia]. }
  intros m2 H2. set (q := 8 * ((n - k) / 8)) in *. assert (Hq : 0 ≤ q ∧ n - k = q + (n - k) mod 8 ∧ 0 ≤ (n - k) mod 8) by (subst q; dlia).
  clearbody q. destruct Hq as (Hq & Heq & Hm). set (t := (n - k) mod 8) in *. clearbody t.
  assert (H12 : copied m m2 (dst - (q + k)) (src - (q + k)) (q + k)).
  { eapply copied_bwd; [lia|lia|lia| |].
    - by replace (dst - (q + k) + q) with (dst - k) by lia; replace (src - (q + k) + q) with (src - k) by lia.
    - by replace (dst - (q + k)) with (dst - k - q) by lia; replace (src - (q + k)) with (src - k - q) by lia. }
  assert (Hr2 : ∀ a j, readable m a j → readable m2 a j).
  { intros a j Ha. eapply readable_copied; [eapply (readable_sub m); [exact Hsb|..]|done|exact H12]; lia. }
  apply BYTE_COPY_BWD_wp; [lia|lia|..].
  { eapply Hr2, readable_sub; [exact Hsb|lia|lia]. } { eapply Hr2, readable_sub; [exact Hd|lia|lia]. }
  intros m3 H3. apply HQ. replace n with (t + (q + k)) by lia. eapply copied_bwd; [lia|lia|lia| |].
  - by replace (dst - (t + (q + k)) + t) with (dst - (q + k)) by lia; replace (src - (t + (q + k)) + t) with (src - (q + k)) by lia.
  - by replace (dst - (t + (q + k))) with (dst - k - q - t) by lia; replace (src - (t + (q + k))) with (src - k - q - t) by lia.
Qed.

Lemma Wmemmove_wp m dst src n (Q : Z → mem → Prop) :
  0 ≤ n < 2 ^ 64 → 0 ≤ dst < 2 ^ 64 → dst + n ≤ 2 ^ 64 → 0 ≤ src < 2 ^ 64 → src + n ≤ 2 ^ 64 →
  words_readable m src n → readable m dst n →
  (∀ m', copied m m' dst src n → Q dst m') → wp (Wmemmove dst src n) m Q.
Proof.
  intros Hn Hd0 Hdn Hs0 Hsn Hs Hd HQ. unfold Wmemmove. cbv zeta. apply wp_bind.
  assert (Hu : u64 (dst - src) = if decide (src ≤ dst) then dst - src else dst - src + 2 ^ 64).
  { unfold u64. destruct (decide _); [apply Z.mod_small; lia|]. symmetry. apply (Z.mod_unique _ _ (-1)); lia. }
  destruct (Z.geb_spec (u64 (dst - src)) n) as [Hge|Hlt]; rewrite Hu in *.
  - apply Wmemmove_fwd_wp; [done|lia|done|destruct (decide _); lia|done|done|].
    intros p m' Hc. by apply wp_ret, HQ.
  - destruct (decide _); [|lia]. apply Wmemmove_bwd_wp; [done|lia| | |].
    { by replace (src + n - n) with src by lia. } { by replace (dst + n - n) with dst by lia. }
    intros p m' Hc. replace (src + n - n) with src in Hc by lia. replace (dst + n - n) with dst in Hc by lia.
    by apply wp_ret, HQ.
Qed.

(** C29: memmove of lib/memmove2.c, with its four unrolled word-copy loops entered
    through a switch, is the byte-wise copy: for every overlap, alignment and
    length it returns the destination, the destination block holds the bytes the
    source block had before the call, and no other byte changes.  It makes no
    unaligned word access and reads nothing outside the words of the source. *)
Theorem Wmemmove_correct m dst src n :
  0 ≤ n < 2 ^ 64 → 0 ≤ dst < 2 ^ 64 → dst + n ≤ 2 ^ 64 → 0 ≤ src < 2 ^ 64 → src + n ≤ 2 ^ 64 →
  words_readable m src n → readable m dst n →
  ∃ m', Wmemmove dst src n m = Ret dst m' ∧ copied m m' dst src n.
Proof.
  intros. assert (Hwp : wp (Wmemmove dst src n) m (λ r m', r = dst ∧ copied m m' dst src n)).
  { by apply Wmemmove_wp. }
  apply wp_run in Hwp as (r & m' & Hrun & -> & Hc). eauto.
Qed.

(** Forty bytes; a block of 21 moves up by three bytes, over itself. *)
Definition forty : mem := mem_of 64 (seqZ 0 40).
Lemma forty_words : words_readable forty 66 21.
Proof.
  intros x (y & Hy & Hxy). apply (bytes_at_readable forty 64 (seqZ 0 40) (mem_of_bytes _ _)).
  - apply Forall_forall. intros b Hb%elem_of_seqZ. unfold is_byte. lia.
  - rewrite length_seqZ. dlia.
Qed.
Lemma forty_block a n : 64 ≤ a → a + n ≤ 104 → readable forty a n.
Proof.
  intros Ha Hn. apply (readable_sub forty 64 40); [|exact Ha|exact Hn].
  apply (bytes_at_readable forty 64 (seqZ 0 40) (mem_of_bytes _ _)).
  apply Forall_forall. intros b Hb%elem_of_seqZ. unfold is_byte. lia.
Qed.
Lemma Wmemmove_correct_witness :
  ∃ m', Wmemmove 69 66 21 forty = Ret 69 m' ∧ copied forty m' 69 66 21.
Proof. apply Wmemmove_correct; [lia|lia|lia|lia|lia|apply forty_words|by apply forty_block]. Defined.
