(* ===== verification/AsmMem.v ===== *)
(** * The assembly memcpy and memset

    lib/amd64/memcpy.S and lib/amd64/memset.S, the routines the user library is
    linked with.  A block of loads into registers followed by the stores is one
    definition; the labels of the file are the definitions.  Unlike C, the machine
    allows word accesses at any address.  Prefetches, the fence and the
    save and restore of registers do not change memory and are left out.

    The theorems: memcpy copies disjoint blocks exactly, whatever the size class
    the block falls into; memset fills exactly its block. *)
From S2P Require Import Prelude Bytes MemFuncs.

(** ** Blocks of moves *)
Fixpoint load_words (n : nat) (rsi : Z) : M mem (list Z) :=
  match n with
  | O => mret []
  | S n' => w ← load_le 8 rsi; ws ← load_words n' (rsi + 8); mret (w :: ws)
  end.
Fixpoint store_words (rdi : Z) (ws : list Z) : M mem unit :=
  match ws with
  | [] => mret tt
  | w :: ws' => store_le 8 rdi w;; store_words (rdi + 8) ws'
  end.
(** [n] words from [rsi] to registers, the registers to [rdi], both pointers
    advanced: a pair [(rdi, rsi)] goes in and out. *)
Definition move_words (n : nat) (p : Z * Z) : M mem (Z * Z) :=
  ws ← load_words n p.2; store_words p.1 ws;; mret (p.1 + 8 * Z.of_nat n, p.2 + 8 * Z.of_nat n).
(** One load and one store of [n] bytes. *)
Definition move_bytes (n : nat) (p : Z * Z) : M mem (Z * Z) :=
  w ← load_le n p.2; store_le n p.1 w;; mret (p.1 + Z.of_nat n, p.2 + Z.of_nat n).

(** A loop whose body is written twice, with a test of the counter after each. *)
Fixpoint loop2 (fuel : nat) (s : Z * Z → M mem (Z * Z)) (rcx : Z) (p : Z * Z) : M mem (Z * Z) :=
  match fuel with
  | O => crash NoFuel
  | S n =>
      let rcx := rcx - 1 in
      p ← s p;
      if rcx =? 0 then mret p
      else
        let rcx := rcx - 1 in
        p ← s p;
        if nonzero rcx then loop2 n s rcx p else mret p
  end.

(** ** memcpy.S *)
Definition x86_64_data_cache_size_half : Z := 16384.
Definition x86_64_shared_cache_size_half : Z := 1048576.
Definition x86_64_prefetchw : Z := 0.

(** [testb $n, %dl; jz ...]: [n] bytes, once. *)
Definition move_once (n : Z) (rdx : Z) (p : Z * Z) : M mem (Z * Z) :=
  if nonzero (Z.land rdx n) then move_bytes (Z.to_nat n) p else mret p.

(** [L(1)] to [L(exit)]: up to 255 bytes; [L(1loop)] takes 16 off [edx] until it is zero. *)
Definition L_1 (rdx : Z) (p : Z * Z) : M mem unit :=
  p ← move_once 1 rdx p;
  p ← move_once 2 rdx p;
  p ← move_once 4 rdx p;
  p ← move_once 8 rdx p;
  let edx := Z.land rdx 0xf0 in
  if edx =? 0 then mret tt
  else TLOOP1 (edx / 16) (move_words 2) p;; mret tt.

(** [L(align)]: bytes until the source is aligned; the loop counts [ecx - 8] up to zero. *)
Definition L_align (rdx : Z) (p : Z * Z) : M mem (Z * Z * Z) :=
  let ecx := Z.land p.2 7 in
  if ecx =? 0 then mret (p, rdx)
  else
    let rdx := ecx + rdx - 8 in
    p ← TLOOP1 (8 - ecx) (move_bytes 1) p;
    mret (p, rdx).

(** What is left over, if anything. *)
Definition L_leftover (rdx : Z) (p : Z * Z) : M mem unit :=
  if nonzero rdx then L_1 rdx p else mret tt.

(** [L(32)]: up to 1 KB. *)
Definition L_32 (rdx : Z) (p : Z * Z) : M mem unit :=
  let ecx := Z.shiftr rdx 5 in
  p ← (if ecx =? 0 then mret p else loop2 (Z.to_nat ecx) (move_words 4) ecx p);
  L_leftover (Z.land rdx 31) p.

(** [L(NT)]: 128 bytes at a time with non-temporal stores. *)
Definition move_nt (p : Z * Z) : M mem (Z * Z) :=
  ws ← load_words 8 p.2; store_words p.1 ws;;
  ws ← load_words 8 (p.2 + 64); store_words (p.1 + 64) ws;;
  mret (p.1 + 128, p.2 + 128).
Definition L_NT (rdx : Z) (p : Z * Z) : M mem unit :=
  let rcx := Z.shiftr rdx 7 in
  p ← (if rcx =? 0 then mret p else TLOOP1 rcx move_nt p);
  L_leftover (Z.land rdx 127) p.

(** [L(pre)]: 64 bytes at a time, two loops that differ in their prefetches. *)
Definition L_pre (rdx : Z) (p : Z * Z) : M mem unit :=
  let r8 := Z.min rdx x86_64_shared_cache_size_half in
  let rcx := Z.shiftr r8 6 in
  let r8 := Z.land r8 (-64) in
  p ← (if rcx =? 0 then mret p
       else if x86_64_prefetchw =? 0 then loop2 (Z.to_nat rcx) (move_words 8) rcx p
       else loop2 (Z.to_nat rcx) (move_words 8) rcx p);
  let rdx := rdx - r8 in
  if nonzero (Z.land rdx (-64)) then L_NT rdx p
  else L_leftover (Z.land rdx 63) p.

(** [L(fast)]: [rep movsq]. *)
Definition L_fast (rdx : Z) (p : Z * Z) : M mem unit :=
  let r11 := Z.min rdx x86_64_data_cache_size_half in
  let rcx := Z.shiftr r11 3 in
  let r11 := Z.land r11 (-8) in
  p ← TLOOP rcx (move_words 1) p;
  let rdx := rdx - r11 in
  if nonzero (Z.land rdx (-8)) then L_pre rdx p
  else L_leftover (Z.land rdx 7) p.

Definition asm_memcpy (rdi rsi rdx : Z) : M mem Z :=
  let rax := rdi in
  (if rdx <? 32 then L_1 rdx (rdi, rsi)
   else
     '(p, rdx) ← L_align rdx (rdi, rsi);
     if rdx <=? 1024 then L_32 rdx p else L_fast rdx p);;
  mret rax.

(** ** memset.S *)
Definition LARGE : Z := 120000.

(** [mov %sil,(%rcx); inc %rcx] *)
Definition set_byte (rsi rcx : Z) : M mem Z := store8 rcx rsi;; mret (rcx + 1).
(** [mov %r8,(%rcx)], eight times; the non-temporal form stores the same. *)
Definition set_64 (r8 rcx : Z) : M mem Z := store_words rcx (replicate 8 r8);; mret (rcx + 0x40).
Definition set_8 (r8 rcx : Z) : M mem Z := store_le 8 rcx r8;; mret (rcx + 8).

(** Bytes until the pointer is aligned: at most seven. *)
Fixpoint set_align (fuel : nat) (rsi rcx rdx : Z) : M mem (Z * Z) :=
  match fuel with
  | O => crash NoFuel
  | S n =>
      store8 rcx rsi;;
      let rdx := rdx - 1 in
      let rcx := rcx + 1 in
      if nonzero (Z.land rcx 7) then set_align n rsi rcx rdx else mret (rcx, rdx)
  end.

Definition asm_memset (rdi rsi rdx : Z) : M mem Z :=
  let rcx := rdi in
  (if rdx <=? 7 then TLOOP rdx (set_byte rsi) rcx
   else
     let r8 := u64 (0x0101010101010101 * u8 rsi) in
     '(rcx, rdx) ←
       (if Z.land rdi 7 =? 0 then mret (rcx, rdx)
        else set_align 8 rsi rcx rdx);
     let rax := Z.shiftr rdx 6 in
     rcx ← (if rax =? 0 then mret rcx
            else if rdx >=? LARGE then TLOOP1 rax (set_64 r8) rcx
            else TLOOP1 rax (set_64 r8) rcx);
     let rdx := Z.land rdx 0x3f in
     let rax := Z.shiftr rdx 3 in
     rcx ← (if rax =? 0 then mret rcx else TLOOP1 rax (set_8 r8) rcx);
     let rdx := Z.land rdx 7 in
     TLOOP rdx (set_byte rsi) rcx);;
  mret rdi.

(** ** Steps and loops on disjoint blocks *)

Definition apart (dst src n : Z) : Prop := dst + n ≤ src ∨ src + n ≤ dst.

(** [moves k s]: [s] copies [k] bytes between disjoint blocks and advances the pointers. *)
Definition moves (k : Z) (s : Z * Z → M mem (Z * Z)) : Prop :=
  ∀ m dst src (Q : Z * Z → mem → Prop),
    apart dst src k → readable m src k → readable m dst k →
    (∀ m', copied m m' dst src k → Q (dst + k, src + k) m') → wp (s (dst, src)) m Q.

Lemma move_bytes_moves n : moves (Z.of_nat n) (move_bytes n).
Proof.
  intros m dst src Q Hap Hs Hd HQ. unfold move_bytes; simpl. apply wp_bind, load_le_wp; [done|].
  intros w _ Hw. apply wp_bind, store_le_wp; [done|]. intros m' Hf. apply wp_ret, HQ. by eapply filled_copied.
Qed.

(** What [load_words] leaves in the registers. *)
Definition words_at (m : mem) (a : Z) (ws : list Z) : Prop :=
  ∀ j, 0 ≤ j < 8 * Z.of_nat (length ws) → m !! (a + j) = Some (wbyte (nth (Z.to_nat (j / 8)) ws 0) (j mod 8)).
Lemma words_at_cons m a w ws :
  (∀ j, 0 ≤ j < 8 → m !! (a + j) = Some (wbyte w j)) → words_at m (a + 8) ws → words_at m a (w :: ws).
Proof.
  intros Hw Hws j Hj. simpl in Hj. destruct (decide (j < 8)).
  - rewrite Z.div_small, Z.mod_small by lia. apply Hw. lia.
  - replace (a + j) with (a + 8 + (j - 8)) by lia. rewrite Hws by lia.
    replace (Z.to_nat (j / 8)) with (S (Z.to_nat ((j - 8) / 8))) by dlia. simpl. do 2 f_equal. dlia.
Qed.
Lemma load_words_wp n a m (Q : list Z → mem → Prop) :
  readable m a (8 * Z.of_nat n) → (∀ ws, length ws = n → words_at m a ws → Q ws m) → wp (load_words n a) m Q.
Proof.
  revert a Q. induction n as [|n IH]; intros a Q Hr HQ; simpl.
  { apply wp_ret, HQ; [done|]. intros j Hj. simpl in Hj. lia. }
  apply wp_bind, load_le_wp; [eapply readable_sub; [exact Hr|lia|lia]|]. intros w _ Hw.
  apply wp_bind, IH; [eapply readable_sub; [exact Hr|lia|lia]|]. intros ws Hlen Hws.
  apply wp_ret, HQ; [simpl; lia|by apply words_at_cons].
Qed.
Lemma store_words_wp ws a m (Q : unit → mem → Prop) :
  readable m a (8 * Z.of_nat (length ws)) →
  (∀ m', filled m m' a (8 * Z.of_nat (length ws)) (λ j, wbyte (nth (Z.to_nat (j / 8)) ws 0) (j mod 8)) → Q tt m') →
  wp (store_words a ws) m Q.
Proof.
  revert a m Q. induction ws as [|w ws IH]; intros a m Q Hr HQ; simpl in *; [apply wp_ret, HQ, filled_0|].
  apply wp_bind, store_le_wp; [eapply readable_sub; [exact Hr|lia|lia]|]. intros m1 H1.
  apply IH.
  { eapply readable_filled; [|eapply readable_sub; [exact Hr|lia|lia]|exact H1]. intros; apply wbyte_range. }
  intros m2 H2. apply HQ. replace (8 * Z.of_nat (S (length ws))) with (8 + 8 * Z.of_nat (length ws)) by lia.
  eapply filled_app; [lia|lia| | |exact H1|exact H2].
  - intros i Hi. rewrite Z.div_small, Z.mod_small by lia. done.
  - intros i Hi. replace (Z.to_nat ((8 + i) / 8)) with (S (Z.to_nat (i / 8))) by dlia. simpl. f_equal. dlia.
Qed.
Lemma words_copied m m' dst src ws :
  words_at m src ws →
  filled m m' dst (8 * Z.of_nat (length ws)) (λ j, wbyte (nth (Z.to_nat (j / 8)) ws 0) (j mod 8)) →
  copied m m' dst src (8 * Z.of_nat (length ws)).
Proof.
  intros Hw Hf x. rewrite Hf. destruct (decide _); [|done].
  replace (x - dst + src) with (src + (x - dst)) by lia. by rewrite Hw by lia.
Qed.
Lemma move_words_moves n : moves (8 * Z.of_nat n) (move_words n).
Proof.
  intros m dst src Q Hap Hs Hd HQ. unfold move_words; simpl. apply wp_bind, load_words_wp; [done|].
  intros ws <- Hw. apply wp_bind, store_words_wp; [done|]. intros m' Hf. apply wp_ret, HQ. by apply words_copied.
Qed.
Lemma move_nt_moves : moves 128 move_nt.
Proof.
  intros m dst src Q Hap Hs Hd HQ. unfold move_nt; cbn [fst snd]. unfold apart in Hap.
  apply wp_bind, load_words_wp; [eapply readable_sub; [exact Hs|lia|lia]|]. intros ws Hl Hw.
  apply wp_bind, store_words_wp; rewrite ?Hl; [eapply readable_sub; [exact Hd|lia|lia]|]. intros m1 Hf. 
  assert (H1 : copied m m1 dst src 64) by (eapply words_copied in Hw; [|by rewrite Hl]; by rewrite Hl in Hw).
  assert (Hr : ∀ a j, readable m a j → readable m1 a j).
  { intros a j Ha. eapply readable_copied; [eapply (readable_sub m); [exact Hs|..]|done|exact H1]; lia. }
  apply wp_bind, load_words_wp; [eapply Hr, readable_sub; [exact Hs|lia|lia]|]. intros ws2 Hl2 Hw2.
  apply wp_bind, store_words_wp; rewrite ?Hl2; [eapply Hr, readable_sub; [exact Hd|lia|lia]|]. intros m2 Hf2. 
  assert (H2 : copied m1 m2 (dst + 64) (src + 64) 64) by (eapply words_copied in Hw2; [|by rewrite Hl2]; by rewrite Hl2 in Hw2).
  apply wp_ret, HQ. change 128 with (64 + 64). eapply copied_fwd; [lia|lia|lia|done|done].
Qed.

Lemma tloop_moves k s n m dst src (Q : Z * Z → mem → Prop) :
  0 < k → moves k s → apart dst src (k * Z.of_nat n) →
  readable m src (k * Z.of_nat n) → readable m dst (k * Z.of_nat n) →
  (∀ m', copied m m' dst src (k * Z.of_nat n) → Q (dst + k * Z.of_nat n, src + k * Z.of_nat n) m') →
  wp (tloop n s (dst, src)) m Q.
Proof.
  intros Hk Hc. unfold apart. revert m dst src Q. induction n as [|n IH]; intros m dst src Q Hov Hs Hd HQ; simpl.
  - apply wp_ret. specialize (HQ m). rewrite Z.mul_0_r, !Z.add_0_r in HQ. apply HQ, copied_0.
  - rewrite Nat2Z.inj_succ, Z.mul_succ_r in *. apply wp_bind, Hc; [unfold apart; lia|..].
    { eapply readable_sub; [exact Hs|lia|lia]. } { eapply readable_sub; [exact Hd|lia|lia]. }
    intros m1 H1. assert (Hr : ∀ a j, readable m a j → readable m1 a j).
    { intros a j Ha. eapply readable_copied; [eapply (readable_sub m src); [exact Hs|..]|done|exact H1]; lia. }
    apply IH; [lia|..].
    { eapply Hr, readable_sub; [exact Hs|lia|lia]. } { eapply Hr, readable_sub; [exact Hd|lia|lia]. }
    intros m2 H2. specialize (HQ m2). rewrite (Z.add_comm (k * _) k), !Z.add_assoc in HQ. apply HQ.
    eapply copied_fwd; [..|exact H1|exact H2]; lia.
Qed.
(** The twice-written loop runs its body [rcx] times. *)
Lemma loop2_tloop s fuel n p m : (0 < n ≤ fuel)%nat → loop2 fuel s (Z.of_nat n) p m = tloop n s p m.
Proof.
  revert n p m. induction fuel as [|f IH]; intros n p m Hn; [lia|]. destruct n as [|n]; [lia|].
  cbn [loop2 tloop]. unfold mbind, m_bind. destruct (s p m) as [p1 m1|]; [|done].
  replace (Z.of_nat (S n) - 1) with (Z.of_nat n) by lia. destruct n as [|n]; [done|].
  destruct (Z.eqb_spec (Z.of_nat (S n)) 0); [lia|]. cbn [tloop]. unfold mbind, m_bind.
  destruct (s p1 m1) as [p2 m2|]; [|done]. replace (Z.of_nat (S n) - 1) with (Z.of_nat n) by lia.
  destruct n as [|n]; [done|]. unfold nonzero. destruct (Z.eqb_spec (Z.of_nat (S n)) 0); [lia|]. simpl negb.
  cbv iota. apply IH. lia.
Qed.

(** ** memcpy *)

(** [finishes n c]: [c] copies the remaining [n] bytes. *)
Definition finishes (n : Z) (c : Z * Z → M mem unit) : Prop :=
  ∀ m dst src (Q : unit → mem → Prop),
    apart dst src n → readable m src n → readable m dst n →
    (∀ m', copied m m' dst src n → Q tt m') → wp (c (dst, src)) m Q.

Lemma finishes_0 : finishes 0 (λ _, mret tt).
Proof. intros m dst src Q _ _ _ HQ. apply wp_ret, HQ, copied_0. Qed.
Lemma moves_0 : moves 0 mret.
Proof. intros m dst src Q _ _ _ HQ. apply wp_ret. specialize (HQ m). rewrite !Z.add_0_r in HQ. apply HQ, copied_0. Qed.
Lemma stage k n s c : moves k s → 0 ≤ k ≤ n → finishes (n - k) c → finishes n (λ p, s p ≫= c).
Proof.
  intros Hm Hk Hf m dst src Q Hap Hs Hd HQ. unfold apart in Hap. apply wp_bind, Hm; [unfold apart; lia|..].
  { eapply readable_sub; [exact Hs|lia|lia]. } { eapply readable_sub; [exact Hd|lia|lia]. }
  intros m1 H1. assert (Hr : ∀ a j, readable m a j → readable m1 a j).
  { intros a j Ha. eapply readable_copied; [eapply (readable_sub m); [exact Hs|..]|done|exact H1]; lia. }
  apply Hf; [unfold apart; lia|..].
  { eapply Hr, readable_sub; [exact Hs|lia|lia]. } { eapply Hr, readable_sub; [exact Hd|lia|lia]. }
  intros m2 H2. apply HQ. replace n with (k + (n - k)) by lia. eapply copied_fwd; [lia|lia|lia|done|done].
Qed.
Lemma TLOOP_moves k t s : 0 < k → 0 ≤ t → moves k s → moves (k * t) (TLOOP t s).
Proof.
  intros Hk Ht Hm m dst src Q Hap Hs Hd HQ. unfold TLOOP.
  replace t with (Z.of_nat (Z.to_nat t)) in Hap, Hs, Hd, HQ by lia. by eapply tloop_moves.
Qed.
Lemma TLOOP1_moves k t s : 0 < k → 0 < t < 2 ^ 64 → moves k s → moves (k * t) (TLOOP1 t s).
Proof.
  intros Hk Ht Hm m dst src Q Hap Hs Hd HQ. rewrite TLOOP1_TLOOP by lia. by eapply (TLOOP_moves k t s); [lia|lia|..].
Qed.
Lemma loop2_moves k t s : 0 < k → 0 < t → moves k s → moves (k * t) (loop2 (Z.to_nat t) s t).
Proof.
  intros Hk Ht Hm m dst src Q Hap Hs Hd HQ. unfold wp.
  replace (loop2 (Z.to_nat t) s t) with (loop2 (Z.to_nat t) s (Z.of_nat (Z.to_nat t))) by (f_equal; lia).
  rewrite loop2_tloop by lia. by eapply (TLOOP_moves k t s); [lia|lia|..].
Qed.
Lemma move_once_moves n rdx :
  0 ≤ n → Z.land rdx n = 0 ∨ Z.land rdx n = n → moves (Z.land rdx n) (move_once n rdx).
Proof.
  intros Hn Hbit. unfold move_once. destruct (nonzero (Z.land rdx n)) eqn:Hz.
  - apply nonzero_true in Hz. destruct Hbit as [Hbit|Hbit]; [done|]. rewrite Hbit.
    pose proof (move_bytes_moves (Z.to_nat n)) as Hm. by rewrite Z2Nat.id in Hm by lia.
  - apply nonzero_false in Hz. rewrite Hz. apply moves_0.
Qed.

Definition byte_split (n : Z) : bool :=
  forallb (λ k, (Z.land n k =? 0) || (Z.land n k =? k)) [1; 2; 4; 8] &&
  (n =? Z.land n 1 + Z.land n 2 + Z.land n 4 + Z.land n 8 + Z.land n 0xf0) &&
  (16 * (Z.land n 0xf0 / 16) =? Z.land n 0xf0) && (0 <=? Z.land n 0xf0).
Lemma byte_split_all n : 0 ≤ n < 256 → byte_split n = true.
Proof.
  intros Hn. assert (Hall : forallb byte_split (seqZ 0 256) = true) by (vm_compute; reflexivity).
  by apply (forallb_seqZ _ _ _ n Hall).
Qed.
Lemma L_1_finishes n : 0 ≤ n < 256 → finishes n (L_1 n).
Proof.
  intros Hn. pose proof (byte_split_all n Hn) as Hb. unfold byte_split in Hb. simpl forallb in Hb.
  rewrite !andb_true_iff, !orb_true_iff, !Z.eqb_eq, Z.leb_le in Hb.
  destruct Hb as [[[(H1 & H2 & H4 & H8 & _) Hsum] H16] H0].
  unfold L_1. eapply stage; [by apply move_once_moves|lia|].
  eapply stage; [by apply move_once_moves|lia|].
  eapply stage; [by apply move_once_moves|lia|].
  eapply stage; [by apply move_once_moves|lia|].
  set (k := n - _ - _ - _ - _). assert (Hk : k = Z.land n 0xf0) by (subst k; lia). rewrite <- Hk in *. clearbody k.
  intros m dst src Q. cbv zeta. destruct (Z.eqb_spec k 0) as [->|Hz]; [apply finishes_0|].
  eapply (stage k); [|lia|].
  - rewrite <- H16 at 1. apply (TLOOP1_moves 16); [lia|dlia|apply (move_words_moves 2)].
  - rewrite Z.sub_diag. apply finishes_0.
Qed.
Lemma L_leftover_finishes n : 0 ≤ n < 256 → finishes n (L_leftover n).
Proof.
  intros Hn. unfold L_leftover. destruct (nonzero n) eqn:Hz; [by apply L_1_finishes|].
  apply nonzero_false in Hz as ->. apply finishes_0.
Qed.

Lemma L_32_finishes n : 0 ≤ n < 2 ^ 63 → finishes n (L_32 n).
Proof.
  intros Hn. unfold L_32. rewrite (land_mask n 31 5), Z.shiftr_div_pow2 by lia. change (2 ^ 5) with 32. cbv zeta.
  eapply (stage (32 * (n / 32))); [|dlia|].
  - destruct (Z.eqb_spec (n / 32) 0) as [H0|H0]; [rewrite H0; apply moves_0|].
    apply (loop2_moves 32); [lia|dlia|apply (move_words_moves 4)].
  - replace (n - 32 * (n / 32)) with (n mod 32) by dlia. apply L_leftover_finishes. dlia.
Qed.
Lemma L_NT_finishes n : 0 ≤ n < 2 ^ 63 → finishes n (L_NT n).
Proof.
  intros Hn. unfold L_NT. rewrite (land_mask n 127 7), Z.shiftr_div_pow2 by lia. change (2 ^ 7) with 128. cbv zeta.
  eapply (stage (128 * (n / 128))); [|dlia|].
  - destruct (Z.eqb_spec (n / 128) 0) as [H0|H0]; [rewrite H0; apply moves_0|].
    apply (TLOOP1_moves 128); [lia|dlia|apply move_nt_moves].
  - replace (n - 128 * (n / 128)) with (n mod 128) by dlia. apply L_leftover_finishes. dlia.
Qed.
Lemma L_pre_finishes n : 0 ≤ n < 2 ^ 63 → finishes n (L_pre n).
Proof.
  intros Hn. unfold L_pre. cbv zeta. set (r8 := Z.min n _). assert (Hr8 : 0 ≤ r8 ≤ n) by (subst r8; unfold x86_64_shared_cache_size_half; lia).
  clearbody r8. change (-64) with (- 2 ^ 6). rewrite !land_neg_pow2, (land_mask _ 63 6), Z.shiftr_div_pow2 by lia. change (2 ^ 6) with 64.
  eapply (stage (64 * (r8 / 64))); [|dlia|].
  - destruct (Z.eqb_spec (r8 / 64) 0) as [H0|H0]; [rewrite H0; apply moves_0|].
    apply (loop2_moves 64); [lia|dlia|apply (move_words_moves 8)].
  - set (r := n - 64 * (r8 / 64)). assert (Hr : 0 ≤ r < 2 ^ 63) by (subst r; dlia). clearbody r.
    destruct (nonzero (64 * (r / 64))) eqn:Hz; [by apply L_NT_finishes|].
    apply nonzero_false in Hz. replace (r mod 64) with r by dlia. apply L_leftover_finishes. dlia.
Qed.
Lemma L_fast_finishes n : 0 ≤ n < 2 ^ 63 → finishes n (L_fast n).
Proof.
  intros Hn. unfold L_fast. cbv zeta. set (r8 := Z.min n _). assert (Hr8 : 0 ≤ r8 ≤ n) by (subst r8; unfold x86_64_data_cache_size_half; lia).
  clearbody r8. change (-8) with (- 2 ^ 3). rewrite !land_neg_pow2, (land_mask _ 7 3), Z.shiftr_div_pow2 by lia. change (2 ^ 3) with 8.
  eapply (stage (8 * (r8 / 8))); [|dlia|].
  - apply (TLOOP_moves 8); [lia|dlia|apply (move_words_moves 1)].
  - set (r := n - 8 * (r8 / 8)). assert (Hr : 0 ≤ r < 2 ^ 63) by (subst r; dlia). clearbody r.
    destruct (nonzero (8 * (r / 8))) eqn:Hz; [by apply L_pre_finishes|].
    apply nonzero_false in Hz. replace (r mod 8) with r by dlia. apply L_leftover_finishes. dlia.
Qed.

(** The part of memcpy for blocks of at least 32 bytes. *)
Lemma L_1after_finishes n : 32 ≤ n < 2 ^ 63 → finishes n (λ p, '(p, rdx) ← L_align n p; if rdx <=? 1024 then L_32 rdx p else L_fast rdx p).
Proof.
  intros Hn.
  assert (Hlast : ∀ r, 0 ≤ r < 2 ^ 63 → finishes r (λ p, if r <=? 1024 then L_32 r p else L_fast r p)).
  { intros r Hr. destruct (Z.leb_spec r 1024); [by apply L_32_finishes|by apply L_fast_finishes]. }
  intros m dst src Q Hap Hs Hd HQ. unfold L_align. cbn [snd]. rewrite (land_mask _ 7 3) by lia. change (2 ^ 3) with 8.
  assert (Hm8 : 0 ≤ src mod 8 < 8) by dlia. destruct (Z.eqb_spec (src mod 8) 0) as [_|Hz].
  { apply wp_bind, wp_ret. apply (Hlast n); [lia|done..]. }
  apply wp_bind. cbv zeta. set (k := 8 - src mod 8). replace (src mod 8 + n - 8) with (n - k) by lia.
  apply wp_bind, (wp_bind_inv _ (λ p, if n - k <=? 1024 then L_32 (n - k) p else L_fast (n - k) p) m Q).
  eapply (stage k n (TLOOP1 k (move_bytes 1))); [|lia|apply (Hlast (n - k)); lia|done..].
  rewrite <- (Z.mul_1_l k) at 1. apply (TLOOP1_moves 1); [lia|lia|apply (move_bytes_moves 1)].
Qed.

Lemma asm_memcpy_wp m dst src n (Q : Z → mem → Prop) :
  0 ≤ n < 2 ^ 63 → apart dst src n → readable m src n → readable m dst n →
  (∀ m', copied m m' dst src n → Q dst m') → wp (asm_memcpy dst src n) m Q.
Proof.
  intros Hn Hap Hs Hd HQ. unfold asm_memcpy. cbv zeta. apply wp_bind. destruct (Z.ltb_spec n 32).
  - apply L_1_finishes; [lia|done|done|done|]. intros m' Hc. by apply wp_ret, HQ.
  - apply L_1after_finishes; [lia|done|done|done|]. intros m' Hc. by apply wp_ret, HQ.
Qed.

(** ** memset *)

(** [sets k s c]: a step that stores the byte [c] at [k] addresses. *)
Definition sets (k : Z) (s : Z → M mem Z) (c : Z) : Prop :=
  ∀ m dst (Q : Z → mem → Prop), readable m dst k →
    (∀ m', filled m m' dst k (λ _, c) → Q (dst + k) m') → wp (s dst) m Q.
Lemma TLOOP_sets k s c t m dst (Q : Z → mem → Prop) :
  0 < k → is_byte c → sets k s c → 0 ≤ t → readable m dst (k * t) →
  (∀ m', filled m m' dst (k * t) (λ _, c) → Q (dst + k * t) m') → wp (TLOOP t s dst) m Q.
Proof.
  intros Hk Hcb Hc Ht Hd HQ. unfold TLOOP. replace t with (Z.of_nat (Z.to_nat t)) in Hd, HQ by lia.
  revert m dst Q Hd HQ. generalize (Z.to_nat t) as n. clear t Ht. intros n.
  induction n as [|n IH]; intros m dst Q Hd HQ; simpl.
  - apply wp_ret. specialize (HQ m). rewrite Z.mul_0_r, Z.add_0_r in HQ. apply HQ, filled_0.
  - rewrite Nat2Z.inj_succ, Z.mul_succ_r in *. apply wp_bind, Hc; [eapply readable_sub; [exact Hd|lia|lia]|].
    intros m1 H1. apply IH.
    { eapply readable_filled; [|eapply readable_sub; [exact Hd|lia|lia]|exact H1]. done. }
    intros m2 H2. specialize (HQ m2). rewrite (Z.add_comm (k * _) k), !Z.add_assoc in HQ. apply HQ.
    eapply filled_app; [lia|lia| | |exact H1|exact H2]; done.
Qed.
Lemma set_byte_sets c : sets 1 (set_byte c) (u8 c).
Proof. intros m dst Q Hd HQ. by apply (fills8 c m dst Q); [apply Z.mod_1_r|..]. Qed.

Lemma spread_byte c j : 0 ≤ j < 8 → wbyte (u64 (0x0101010101010101 * u8 c)) j = u8 c.
Proof.
  intros Hj. assert (Hall : Forall (λ c, Forall (λ j, wbyte (u64 (0x0101010101010101 * c)) j = c) (seqZ 0 8)) (seqZ 0 256)).
  { apply (bool_decide_eq_true_1 _). vm_compute. reflexivity. }
  rewrite Forall_forall in Hall. specialize (Hall (u8 c)). rewrite Forall_forall in Hall.
  apply Hall; apply elem_of_seqZ; [|lia]. pose proof (u8_is_byte c) as Hb. unfold is_byte in Hb. lia.
Qed.
Lemma set_8_sets c : sets 8 (set_8 (u64 (0x0101010101010101 * u8 c))) (u8 c).
Proof.
  intros m dst Q Hd HQ. unfold set_8. apply wp_bind, store_le_wp; [done|]. intros m' Hf.
  apply wp_ret, HQ. intros x. rewrite Hf. destruct (decide _); [|done]. by rewrite spread_byte by lia.
Qed.
Lemma set_64_sets c : sets 64 (set_64 (u64 (0x0101010101010101 * u8 c))) (u8 c).
Proof.
  intros m dst Q Hd HQ. unfold set_64. apply wp_bind, store_words_wp; [done|]. intros m' Hf.
  apply wp_ret, HQ. intros x. rewrite Hf. change (8 * Z.of_nat _) with 64. destruct (decide _); [|done]. f_equal.
  assert (Hnth : (Z.to_nat ((x - dst) / 8) < 8)%nat) by dlia.
  rewrite nth_lookup, lookup_replicate_2 by done. simpl. apply spread_byte. dlia.
Qed.

Lemma set_align_wp fuel c m rcx rdx (Q : Z * Z → mem → Prop) :
  rcx mod 8 ≠ 0 → 8 - rcx mod 8 ≤ Z.of_nat fuel → readable m rcx (8 - rcx mod 8) →
  (∀ m', filled m m' rcx (8 - rcx mod 8) (λ _, u8 c) → Q (rcx + (8 - rcx mod 8), rdx - (8 - rcx mod 8)) m') →
  wp (set_align fuel c rcx rdx) m Q.
Proof.
  revert m rcx rdx Q. induction fuel as [|fuel IH]; intros m rcx rdx Q Hz Hf Hd HQ; [dlia|]. simpl.
  assert (Hm : 0 < 8 - rcx mod 8) by dlia. destruct (Hd rcx) as (b & Hb & _); [lia|].
  apply wp_bind, store8_wp; [by eexists|]. rewrite (land_mask _ 7 3) by lia. change (2 ^ 3) with 8.
  assert (H1 : filled m (<[rcx := u8 c]> m) rcx 1 (λ _, u8 c)).
  { intros x. destruct (decide _); [by assert (x = rcx) as -> by lia; rewrite lookup_insert_eq|].
    by rewrite lookup_insert_ne by lia. }
  destruct (nonzero ((rcx + 1) mod 8)) eqn:Hn.
  - apply nonzero_true in Hn. assert (Hs : rcx mod 8 = (rcx + 1) mod 8 - 1) by dlia. rewrite Hs in *.
    apply IH; [done|lia| |].
    { eapply readable_filled; [|eapply readable_sub; [exact Hd|lia|lia]|exact H1]. intros; apply u8_is_byte. }
    intros m' H2. specialize (HQ m'). set (r := (rcx + 1) mod 8) in *.
    replace (rcx + 1 + (8 - r)) with (rcx + (8 - (r - 1))) by lia.
    replace (rdx - 1 - (8 - r)) with (rdx - (8 - (r - 1))) by lia. apply HQ.
    replace (8 - (r - 1)) with (1 + (8 - r)) by lia. assert (0 ≤ 8 - r) by (subst r; dlia).
    eapply filled_app; [lia|lia| | |exact H1|exact H2]; done.
  - apply nonzero_false in Hn. assert (Hs : rcx mod 8 = 7) by dlia. rewrite Hs in *. by apply wp_ret, (HQ _ H1).
Qed.

Lemma asm_memset_wp m dst c n (Q : Z → mem → Prop) :
  0 ≤ n < 2 ^ 64 → readable m dst n →
  (∀ m', filled m m' dst n (λ _, u8 c) → Q dst m') → wp (asm_memset dst c n) m Q.
Proof.
  intros Hn Hd HQ. unfold asm_memset. cbv zeta. pose proof (u8_is_byte c) as Hc. apply wp_bind.
  destruct (Z.leb_spec n 7).
  { eapply (TLOOP_sets 1); [lia|done|apply set_byte_sets|lia|by rewrite Z.mul_1_l|].
    intros m' Hf. rewrite Z.mul_1_l in Hf. by apply wp_ret, HQ. }
  set (r8 := u64 _). apply wp_bind. rewrite (land_mask dst 7 3) by lia. change (2 ^ 3) with 8.
  set (k := if dst mod 8 =? 0 then 0 else 8 - dst mod 8).
  assert (Hk : 0 ≤ k < 8) by (subst k; destruct (Z.eqb_spec (dst mod 8) 0); dlia).
  assert (Hhead : ∀ Q' : Z * Z → mem → Prop, (∀ m', filled m m' dst k (λ _, u8 c) → Q' (dst + k, n - k) m') →
    wp (if dst mod 8 =? 0 then mret (dst, n) else set_align 8 c dst n) m Q').
  { intros Q' HQ'. subst k. destruct (Z.eqb_spec (dst mod 8) 0).
    - apply wp_ret. specialize (HQ' m). rewrite Z.add_0_r, Z.sub_0_r in HQ'. apply HQ', filled_0.
    - apply set_align_wp; [done|dlia| |done]. eapply readable_sub; [exact Hd|lia|dlia]. }
  apply Hhead. clear Hhead. clearbody k. intros m1 H1.
  rewrite (land_mask _ 0x3f 6), (land_mask _ 7 3), !Z.shiftr_div_pow2 by lia. change (2 ^ 6) with 64. change (2 ^ 3) with 8.
  set (r := n - k) in *. assert (Hr : readable m1 (dst + k) r).
  { eapply readable_filled; [|eapply readable_sub; [exact Hd|lia|lia]|exact H1]. done. }
  assert (H0r : 0 < r < 2 ^ 64) by lia. set (a := 64 * (r / 64)). set (b := 8 * (r mod 64 / 8)).
  apply wp_bind. eapply (wp_mono _ _ (λ p m2, p = dst + k + a ∧ filled m1 m2 (dst + k) a (λ _, u8 c))).
  { assert (Hloop : r / 64 ≠ 0 → wp (TLOOP1 (r / 64) (set_64 r8) (dst + k)) m1
       (λ p m2, p = dst + k + a ∧ filled m1 m2 (dst + k) a (λ _, u8 c))).
    { intros Hnz. rewrite TLOOP1_TLOOP by dlia.
      eapply (TLOOP_sets 64); [lia|done|apply set_64_sets|dlia|eapply readable_sub; [exact Hr|lia|dlia]|done]. }
    destruct (Z.eqb_spec (r / 64) 0) as [E|E].
    - apply wp_ret. subst a. rewrite E. split; [lia|apply filled_0].
    - destruct (r >=? LARGE); by apply Hloop. }
  intros p m2 [-> H2]. assert (Hr2 : readable m2 (dst + k) r) by (eapply readable_filled; [|exact Hr|exact H2]; done).
  assert (Ha : 0 ≤ a ∧ 0 ≤ b ∧ r = a + (b + r mod 64 mod 8) ∧ 0 ≤ r mod 64 mod 8) by (subst a b; dlia).
  apply wp_bind. eapply (wp_mono _ _ (λ p m3, p = dst + k + a + b ∧ filled m2 m3 (dst + k + a) b (λ _, u8 c))).
  { destruct (Z.eqb_spec (r mod 64 / 8) 0) as [E|E].
    - apply wp_ret. subst b. rewrite E. split; [lia|apply filled_0].
    - rewrite TLOOP1_TLOOP by dlia. eapply (TLOOP_sets 8); [lia|done|apply set_8_sets|dlia| |done].
      eapply readable_sub; [exact Hr2|lia|]. fold b. lia. }
  intros p m3 [-> H3]. clearbody a b. eapply (TLOOP_sets 1); [lia|done|apply set_byte_sets|lia| |].
  { eapply readable_filled; [|eapply readable_sub; [exact Hr2|lia|lia]|exact H3]. done. }
  intros m4 H4. apply wp_ret, HQ. rewrite Z.mul_1_l in H4.
  replace n with (k + (a + (b + r mod 64 mod 8))) by lia.
  eapply filled_app; [lia|lia| | |exact H1|]; [done| |eapply filled_app; [lia|lia| | |exact H2|]]; [done|done| |].
  2: { eapply filled_app; [lia|lia| | |exact H3|exact H4]; done. } done.
Qed.

(** ** The contracts *)

(** C30: the assembly memcpy copies: for disjoint blocks of any length and
    alignment, through each of its size classes, the destination block holds the
    bytes of the source block afterwards and no other byte changes. *)
Theorem asm_memcpy_correct m dst src n :
  0 ≤ n < 2 ^ 63 → apart dst src n → readable m src n → readable m dst n →
  ∃ m', asm_memcpy dst src n m = Ret dst m' ∧ copied m m' dst src n.
Proof.
  intros. assert (Hwp : wp (asm_memcpy dst src n) m (λ r m', r = dst ∧ copied m m' dst src n)).
  { by apply asm_memcpy_wp. }
  apply wp_run in Hwp as (r & m' & Hrun & -> & Hc). eauto.
Qed.
Definition hundred_bytes : mem := mem_of 3 (seqZ 0 100).
Lemma asm_memcpy_correct_witness :
  ∃ m', asm_memcpy 55 10 40 hundred_bytes = Ret 55 m' ∧ copied hundred_bytes m' 55 10 40.
Proof.
  assert (Hr : readable hundred_bytes 3 100).
  { apply (bytes_at_readable hundred_bytes 3 (seqZ 0 100) (mem_of_bytes _ _)).
    apply Forall_forall. intros b Hb%elem_of_seqZ. unfold is_byte. lia. }
  apply asm_memcpy_correct; [lia|unfold apart; lia|..]; (eapply readable_sub; [exact Hr|lia|lia]).
Defined.

(** C31: the assembly memset is equivalent to the memset written in C: both set
    exactly the bytes of the block, whatever its alignment and length. *)
Theorem memset_agree m dst c n :
  0 ≤ n < 2 ^ 64 → readable m dst n →
  ∃ m1 m2, memset dst c n m = Ret dst m1 ∧ asm_memset dst c n m = Ret dst m2 ∧ m1 = m2 ∧
    filled m m1 dst n (λ _, u8 c).
Proof.
  intros Hn Hr.
  assert (H1 : wp (memset dst c n) m (λ r m', r = dst ∧ filled m m' dst n (λ _, u8 c))) by (by apply memset_wp).
  assert (H2 : wp (asm_memset dst c n) m (λ r m', r = dst ∧ filled m m' dst n (λ _, u8 c))) by (by apply asm_memset_wp).
  apply wp_run in H1 as (r & m1 & Hrun1 & -> & F1). apply wp_run in H2 as (r & m2 & Hrun2 & -> & F2).
  exists m1, m2. split_and!; [done|done| |done]. apply map_eq. intros x. by rewrite F1, F2.
Qed.
Lemma memset_agree_witness :
  ∃ m1 m2, memset 17 300 28 thirty = Ret 17 m1 ∧ asm_memset 17 300 28 thirty = Ret 17 m2 ∧ m1 = m2 ∧
    filled thirty m1 17 28 (λ _, u8 300).
Proof. apply memset_agree; [lia|by apply thirty_block]. Defined.
