(* ===== verification/AsmStr.v ===== *)
(** * The assembly string routines

    lib/amd64/strlen.S, strcpy.S and strcmp.S.  strlen and strcpy look at eight
    bytes at a time: they add a magic constant to the word and look at the carries
    to find out whether one of the bytes is zero ([has_nul]).  The lemma
    [has_nul_spec] says that this test is exact; a false alarm would make strlen
    return a wrong length. *)
From S2P Require Import Prelude Bytes MemFuncs.

(** A C string: the bytes of [l], none of them zero, and a terminator. *)
Definition cstring (m : mem) (a : Z) (l : list Z) : Prop :=
  bytes_at m a (l ++ [0]) ∧ Forall (λ b, 0 < b < 256) l.

(** The words a string and its terminator lie in can be read. *)
Definition string_words (m : mem) (a : Z) (n : nat) : Prop :=
  ∀ x, (∃ y, a ≤ y ≤ a + Z.of_nat n ∧ x / 8 = y / 8) → ∃ b, m !! x = Some b ∧ is_byte b.

(** ** strlen.S *)
Definition magic : Z := 0xfefefefefefefeff.

(** [movq %r8, %rdx; addq %rcx, %rdx; jnc 3f; xorq %rcx, %rdx; orq %r8, %rdx; incq %rdx; jnz 3f] *)
Definition has_nul (rcx : Z) : bool :=
  let rdx := magic + rcx in
  if rdx <? 2 ^ 64 then true
  else
    let rdx := u64 rdx in
    let rdx := Z.lxor rdx rcx in
    let rdx := Z.lor rdx magic in
    nonzero (u64 (rdx + 1)).

(** Label [0]: bytes up to the first aligned address. *)
Fixpoint strlen_bytes (ecx : nat) (rax : Z) : M mem (bool * Z) :=
  match ecx with
  | O => mret (false, rax)
  | S n => b ← load8 rax; if b =? 0 then mret (true, rax) else strlen_bytes n (rax + 1)
  end.

(** Label [3]: which byte of the word is the first zero. *)
Definition strlen_tail (rcx rax : Z) : Z :=
  let rax := rax - 8 in
  if Z.land rcx 0xff =? 0 then rax else
  if Z.land rcx 0xff00 =? 0 then rax + 1 else
  if Z.land rcx 0x00ff0000 =? 0 then rax + 2 else
  if Z.land rcx 0xff000000 =? 0 then rax + 3 else
  let rcx := Z.shiftr rcx 32 in
  if Z.land rcx 0xff =? 0 then rax + 4 else
  if Z.land rcx 0xff00 =? 0 then rax + 5 else
  if Z.land rcx 0xff0000 =? 0 then rax + 6 else
  rax + 7.

(** Label [4]: the loop, unrolled four times. *)
Fixpoint strlen_loop (fuel : nat) (rax : Z) : M mem Z :=
  match fuel with
  | O => crash NoFuel
  | S n =>
      rcx ← load64 rax; let rax := rax + 8 in
      if has_nul rcx then mret (strlen_tail rcx rax) else
      rcx ← load64 rax; let rax := rax + 8 in
      if has_nul rcx then mret (strlen_tail rcx rax) else
      rcx ← load64 rax; let rax := rax + 8 in
      if has_nul rcx then mret (strlen_tail rcx rax) else
      rcx ← load64 rax; let rax := rax + 8 in
      if has_nul rcx then mret (strlen_tail rcx rax) else
      strlen_loop n rax
  end.

(** A string has fewer bytes than memory, which bounds the number of words read. *)
Definition strlen (rdi : Z) : M mem Z :=
  fuel ← gets (λ m, S (size m));
  let rax := rdi in
  let ecx := Z.land rdi 7 in
  '(found, rax) ← (if ecx =? 0 then mret (false, rax) else strlen_bytes (Z.to_nat (8 - ecx)) rax);
  rax ← (if found : bool then mret rax else strlen_loop fuel rax);
  mret (rax - rdi).

(** ** strcpy.S *)

(** Label [0]. *)
Fixpoint strcpy_bytes (ecx : nat) (rsi rdx : Z) : M mem (bool * (Z * Z)) :=
  match ecx with
  | O => mret (false, (rsi, rdx))
  | S n =>
      al ← load8 rsi; store8 rdx al;;
      if al =? 0 then mret (true, (rsi, rdx)) else strcpy_bytes n (rsi + 1) (rdx + 1)
  end.

(** Label [3]: the last bytes, two per turn. *)
Fixpoint strcpy_tail (fuel : nat) (rax rdx : Z) : M mem unit :=
  match fuel with
  | O => crash NoFuel
  | S n =>
      store8 rdx (Z.land rax 0xff);;
      if Z.land rax 0xff =? 0 then mret tt else
      let rdx := rdx + 1 in
      store8 rdx (Z.land (Z.shiftr rax 8) 0xff);;
      if Z.land (Z.shiftr rax 8) 0xff =? 0 then mret tt else
      let rdx := rdx + 1 in
      strcpy_tail n (Z.shiftr rax 16) rdx
  end.

(** Label [1]: the loop, unrolled four times; the destination may be unaligned. *)
Fixpoint strcpy_loop (fuel : nat) (rsi rdx : Z) : M mem unit :=
  match fuel with
  | O => crash NoFuel
  | S n =>
      rax ← load64 rsi; let rsi := rsi + 8 in
      if has_nul rax then strcpy_tail 5 rax rdx else
      store_le 8 rdx rax;; let rdx := rdx + 8 in
      rax ← load64 rsi; let rsi := rsi + 8 in
      if has_nul rax then strcpy_tail 5 rax rdx else
      store_le 8 rdx rax;; let rdx := rdx + 8 in
      rax ← load64 rsi; let rsi := rsi + 8 in
      if has_nul rax then strcpy_tail 5 rax rdx else
      store_le 8 rdx rax;; let rdx := rdx + 8 in
      rax ← load64 rsi; let rsi := rsi + 8 in
      if has_nul rax then strcpy_tail 5 rax rdx else
      store_le 8 rdx rax;; let rdx := rdx + 8 in
      strcpy_loop n rsi rdx
  end.

Definition strcpy (rdi rsi : Z) : M mem Z :=
  fuel ← gets (λ m, S (size m));
  let ecx := Z.land rsi 7 in
  let rdx := rdi in
  '(done, (rsi, rdx)) ←
    (if ecx =? 0 then mret (false, (rsi, rdx)) else strcpy_bytes (Z.to_nat (8 - ecx)) rsi rdx);
  (if done : bool then mret tt else strcpy_loop fuel rsi rdx);;
  mret rdi.

(** ** strcmp.S: bytes are compared unsigned, the result is -1, 0 or 1. *)
Fixpoint asm_strcmp_loop (fuel : nat) (rdi rsi : Z) : M mem Z :=
  match fuel with
  | O => crash NoFuel
  | S n =>
      al ← load8 rdi; b ← load8 rsi;
      if negb (al =? b) then mret (if al <? b then -1 else 1)
      else if al =? 0 then mret 0
      else asm_strcmp_loop n (rdi + 1) (rsi + 1)
  end.
Definition asm_strcmp (rdi rsi : Z) : M mem Z :=
  fuel ← gets (λ m, S (size m)); asm_strcmp_loop fuel rdi rsi.

(** ** The zero-byte test is exact *)

(** 0x01...01 with [k] ones. *)
Fixpoint ones8 (k : nat) : Z :=
  match k with O => 0 | S k' => ones8 k' + 2 ^ (8 * Z.of_nat k') end.

Lemma low_bytes w k : 0 ≤ k → w mod 2 ^ (8 * (k + 1)) = w mod 2 ^ (8 * k) + 2 ^ (8 * k) * wbyte w k.
Proof.
  intros Hk. replace (8 * (k + 1)) with (8 * k + 8) by lia. rewrite Z.pow_add_r by lia.
  rewrite Z.rem_mul_r by lia. done.
Qed.
Lemma ones8_ge k : (0 < k)%nat → 2 ^ (8 * (Z.of_nat k - 1)) ≤ ones8 k.
Proof.
  destruct k as [|k]; [lia|]. intros _. simpl. replace (Z.of_nat (S k) - 1) with (Z.of_nat k) by lia.
  assert (0 ≤ ones8 k); [|lia]. clear. induction k as [|k IH]; simpl; [lia|]. pose proof (Z.pow_nonneg 2 (8 * Z.of_nat k)). lia.
Qed.
(** All of the first [k] bytes are nonzero iff each prefix is at least 0x01...01. *)
Lemma nonzero_bytes w k :
  (∀ j, (j < k)%nat → wbyte w (Z.of_nat j) ≠ 0) ↔ (∀ i, (i < k)%nat → ones8 (S i) ≤ w mod 2 ^ (8 * Z.of_nat (S i))).
Proof.
  induction k as [|k IH]; [split; intros; lia|]. pose proof (low_bytes w (Z.of_nat k) ltac:(lia)) as Hlow.
  replace (Z.of_nat k + 1) with (Z.of_nat (S k)) in Hlow by lia.
  assert (Hp : 0 < 2 ^ (8 * Z.of_nat k)) by (apply Z.pow_pos_nonneg; lia).
  pose proof (Z.mod_pos_bound w _ Hp) as Hb. pose proof (wbyte_range w (Z.of_nat k)) as Hr. unfold is_byte in Hr.
  split.
  - intros Hnz. assert (Hk := Hnz k ltac:(lia)). assert (Hprev : ∀ i, (i < k)%nat → ones8 (S i) ≤ w mod 2 ^ (8 * Z.of_nat (S i))).
    { apply IH. intros j Hj. apply Hnz. lia. }
    intros i Hi. destruct (decide (i = k)) as [->|]; [|apply Hprev; lia]. rewrite Hlow. cbn [ones8].
    assert (ones8 k ≤ w mod 2 ^ (8 * Z.of_nat k)).
    { destruct k as [|k]; [simpl; lia|]. apply (Hprev k). lia. }
    nia.
  - intros Hge. assert (Hprev : ∀ j, (j < k)%nat → wbyte w (Z.of_nat j) ≠ 0).
    { apply IH. intros i Hi. apply Hge. lia. }
    intros j Hj. destruct (decide (j = k)) as [->|]; [|apply Hprev; lia]. intros H0.
    specialize (Hge k ltac:(lia)). rewrite Hlow, H0 in Hge. pose proof (ones8_ge (S k) ltac:(lia)) as Ho.
    replace (Z.of_nat (S k) - 1) with (Z.of_nat k) in Ho by lia. lia.
Qed.

(** The carry into byte [k], seen through the exclusive or. *)
Lemma carry_bit w k :
  (0 < k < 8)%nat → 0 ≤ w →
  Z.testbit (Z.lxor (u64 (magic + w)) w) (8 * Z.of_nat k) = (ones8 k <=? w mod 2 ^ (8 * Z.of_nat k)).
Proof.
  intros Hk Hw. rewrite Z.lxor_spec, u64_bits by lia. destruct (Z.ltb_spec (8 * Z.of_nat k) 64); [|lia].
  rewrite andb_true_l, !Z.testbit_odd, !Z.shiftr_div_pow2 by lia.
  set (P := 2 ^ (8 * Z.of_nat k)). assert (HP : 0 < P) by (apply Z.pow_pos_nonneg; lia).
  assert (Hm : magic mod P = P - ones8 k ∧ Z.odd (magic / P) = false).
  { subst P. do 8 (destruct k as [|k]; [split; vm_compute; reflexivity || lia|]). lia. }
  destruct Hm as [Hm Hodd]. pose proof (Z.mod_pos_bound w P HP) as Hb.
  pose proof (Z.mod_pos_bound magic P HP) as Hbm. rewrite Hm in Hbm.
  replace ((magic + w) / P) with (magic / P + w / P + Z.b2z (ones8 k <=? w mod P)).
  - rewrite !Z.odd_add, Hodd. by destruct (Z.odd (w / P)), (ones8 k <=? w mod P).
  - pose proof (Z.div_mod magic P ltac:(lia)) as D1. pose proof (Z.div_mod w P ltac:(lia)) as D2. rewrite Hm in D1.
    destruct (Z.leb_spec (ones8 k) (w mod P)); simpl Z.b2z.
    + apply (Z.div_unique _ _ _ (w mod P - ones8 k)); lia.
    + apply (Z.div_unique _ _ _ (w mod P + P - ones8 k)); lia.
Qed.
Lemma magic_bits i : 0 ≤ i < 64 → Z.testbit magic i = true ∨ ∃ k, (0 < k < 8)%nat ∧ i = 8 * Z.of_nat k.
Proof.
  intros Hi. assert (Hall : forallb (λ i, Z.testbit magic i || existsb (λ k, i =? 8 * Z.of_nat k) (seq 1 7)) (seqZ 0 64) = true) by (vm_compute; reflexivity).
  apply (forallb_seqZ _ _ _ i) in Hall; [|lia]. rewrite orb_true_iff, existsb_exists in Hall.
  destruct Hall as [?|(k & Hk & Hik)]; [by left|].
  right. exists k. apply list_elem_of_In, elem_of_seq in Hk. apply Z.eqb_eq in Hik. split; [lia|done].
Qed.
Lemma magic_hole k : (0 < k < 8)%nat → Z.testbit magic (8 * Z.of_nat k) = false.
Proof. intros Hk. do 8 (destruct k as [|k]; [lia || (vm_compute; reflexivity)|]). lia. Qed.

Lemma all_ones x : 0 ≤ x < 2 ^ 64 → nonzero (u64 (x + 1)) = false ↔ ∀ i, 0 ≤ i < 64 → Z.testbit x i = true.
Proof.
  intros Hx. rewrite nonzero_false. split.
  - intros H0 i Hi. assert (x = Z.ones 64) as ->.
    { unfold u64 in H0. change (Z.ones 64) with (2 ^ 64 - 1). destruct (decide (x + 1 < 2 ^ 64)); [|lia].
      rewrite Z.mod_small in H0 by lia. lia. }
    apply Z.ones_spec_low. lia.
  - intros Hall. assert (x = Z.ones 64) as ->; [|reflexivity]. apply Z.bits_inj'. intros i Hi.
    destruct (decide (i < 64)); [rewrite Hall, Z.ones_spec_low by lia; done|].
    rewrite Z.ones_spec_high by lia. rewrite <- (Z.mod_small x (2 ^ 64)) by lia. apply Z.mod_pow2_bits_high. lia.
Qed.

Lemma has_nul_spec w : 0 ≤ w < 2 ^ 64 → has_nul w = false ↔ ∀ j, 0 ≤ j < 8 → wbyte w j ≠ 0.
Proof.
  intros Hw. transitivity (∀ i, (i < 8)%nat → ones8 (S i) ≤ w mod 2 ^ (8 * Z.of_nat (S i))).
  2: { rewrite <- nonzero_bytes. split; intros H j Hj; [|by apply H; lia].
       specialize (H (Z.to_nat j)). rewrite Z2Nat.id in H by lia. apply H. lia. }
  unfold has_nul. cbv zeta. destruct (Z.ltb_spec (magic + w) (2 ^ 64)) as [Hnc|Hc].
  { split; [done|]. intros H. specialize (H 7%nat ltac:(lia)). change (8 * Z.of_nat 8) with 64 in H.
    rewrite Z.mod_small in H by lia. change (ones8 8) with 0x0101010101010101 in H. unfold magic in Hnc. lia. }
  assert (Hrange : 0 ≤ Z.lor (Z.lxor (u64 (magic + w)) w) magic < 2 ^ 64).
  { apply bits_small; [lia|]. intros i Hi. pose proof (u64_range (magic + w)) as Hu. unfold in_u64 in Hu.
    by rewrite Z.lor_spec, Z.lxor_spec, (high_bits 64 (u64 _)), (high_bits 64 w), (high_bits 64 magic) by (lia || (unfold magic; lia)). }
  rewrite all_ones by done. split.
  - intros Hall i Hi. destruct (decide (i = 7%nat)) as [->|].
    { change (8 * Z.of_nat 8) with 64. rewrite Z.mod_small by lia. change (ones8 8) with 0x0101010101010101. unfold magic in Hc. lia. }
    specialize (Hall (8 * Z.of_nat (S i)) ltac:(lia)). rewrite Z.lor_spec, magic_hole, orb_false_r, carry_bit in Hall by lia.
    by apply Z.leb_le in Hall.
  - intros Hge i Hi. rewrite Z.lor_spec, orb_true_iff. destruct (magic_bits i Hi) as [?|(k & Hk & ->)]; [by right|left].
    rewrite carry_bit by lia. apply Z.leb_le. destruct k as [|k]; [lia|]. apply Hge. lia.
Qed.

(** ** strlen *)

Lemma land_byte w k : 0 ≤ k → Z.land w (255 * 2 ^ (8 * k)) = wbyte w k * 2 ^ (8 * k).
Proof.
  intros Hk. apply Z.bits_inj'. intros i Hi. rewrite Z.land_spec. destruct (decide (i < 8 * k)).
  - rewrite !Z.mul_pow2_bits_low by lia. apply andb_false_r.
  - rewrite !Z.mul_pow2_bits by lia. destruct (decide (i - 8 * k < 8)).
    + rewrite wbyte_testbit by lia. change 255 with (Z.ones 8). rewrite Z.ones_spec_low by lia.
      rewrite andb_true_r. f_equal. lia.
    + rewrite (high_bits 8 255) by lia. pose proof (wbyte_range w k) as Hr. unfold is_byte in Hr.
      rewrite (high_bits 8 (wbyte w k)) by lia. apply andb_false_r.
Qed.
Lemma land_byte_zero w k mask : 0 ≤ k → mask = 255 * 2 ^ (8 * k) → (Z.land w mask =? 0) = (wbyte w k =? 0).
Proof.
  intros Hk ->. rewrite land_byte by done. assert (0 < 2 ^ (8 * k)) by (apply Z.pow_pos_nonneg; lia).
  apply eq_true_iff_eq. rewrite !Z.eqb_eq. nia.
Qed.
Lemma wbyte_shiftr w k j : 0 ≤ k → 0 ≤ j → wbyte (Z.shiftr w (8 * k)) j = wbyte w (k + j).
Proof.
  intros Hk Hj. unfold wbyte. rewrite Z.shiftr_div_pow2, Z.div_div, <- Z.pow_add_r by lia. do 3 f_equal. lia.
Qed.
Lemma strlen_tail_spec w a j :
  0 ≤ j < 8 → (∀ i, 0 ≤ i < j → wbyte w i ≠ 0) → wbyte w j = 0 → strlen_tail w (a + 8) = a + j.
Proof.
  intros Hj Hnz Hz. unfold strlen_tail. cbv zeta.
  rewrite (land_byte_zero w 0 0xff), (land_byte_zero w 1 0xff00), (land_byte_zero w 2 0x00ff0000),
    (land_byte_zero w 3 0xff000000), (land_byte_zero _ 0 0xff), (land_byte_zero _ 1 0xff00),
    (land_byte_zero _ 2 0xff0000) by (lia || reflexivity).
  change 32 with (8 * 4). rewrite !wbyte_shiftr by lia. change (4 + 0) with 4. change (4 + 1) with 5. change (4 + 2) with 6.
  assert (Hf : ∀ i, 0 ≤ i < j → (wbyte w i =? 0) = false) by (intros i Hi; by apply Z.eqb_neq, Hnz).
  apply Z.eqb_eq in Hz. assert (Hc : j ∈ seqZ 0 8) by (apply elem_of_seqZ; lia).
  change (seqZ 0 8) with [0; 1; 2; 3; 4; 5; 6; 7] in Hc. rewrite !elem_of_cons, elem_of_nil in Hc.
  destruct_or! Hc; subst j; rewrite ?Hf by lia; rewrite ?Hz; lia.
Qed.

Section strlen.
Context (m : mem) (s : Z) (l : list Z) (Hs : cstring m s l) (Hw : string_words m s (length l)).

Lemma string_byte x : s ≤ x < s + Z.of_nat (length l) → ∃ b, m !! x = Some b ∧ 0 < b < 256.
Proof.
  intros Hx. destruct Hs as [Hb Hl]. destruct (lookup_lt_is_Some_2 l (Z.to_nat (x - s))) as [b Hi]; [lia|].
  exists b. split; [|exact (Forall_lookup_1 _ _ _ _ Hl Hi)]. rewrite <- (Hb (Z.to_nat (x - s)) b).
  - f_equal. lia.
  - by rewrite lookup_app_l by lia.
Qed.
Lemma string_end : m !! (s + Z.of_nat (length l)) = Some 0.
Proof. destruct Hs as [Hb _]. apply (Hb (length l)). by rewrite list_lookup_middle. Qed.
Lemma string_size : (length l < size m)%nat.
Proof. destruct Hs as [Hb _]. apply bytes_at_size in Hb. rewrite length_app in Hb. simpl in Hb. lia. Qed.

(** One aligned word of the string: either all of it is before the terminator, or
    the first zero byte of the word is the terminator. *)
Lemma string_word a (Q : Z → mem → Prop) :
  a mod 8 = 0 → s ≤ a ≤ s + Z.of_nat (length l) →
  (∀ w, 0 ≤ w < 2 ^ 64 → (∀ j, 0 ≤ j < 8 → m !! (a + j) = Some (wbyte w j)) →
     (a + 8 ≤ s + Z.of_nat (length l) ∧ has_nul w = false ∨
      s + Z.of_nat (length l) < a + 8 ∧ has_nul w = true ∧
        (∀ i, 0 ≤ i < s + Z.of_nat (length l) - a → wbyte w i ≠ 0) ∧ wbyte w (s + Z.of_nat (length l) - a) = 0) →
     Q w m) →
  wp (load64 a) m Q.
Proof.
  intros Ha Hin HQ. apply load64_wp; [done| |].
  { intros x Hx. apply Hw. exists a. split; [lia|dlia]. }
  intros w H64 Hbytes. assert (Hnz : ∀ j, 0 ≤ j < 8 → a + j < s + Z.of_nat (length l) → wbyte w j ≠ 0).
  { intros j Hj Hlt. destruct (string_byte (a + j)) as (b & Hb & Hpos); [lia|]. rewrite Hbytes in Hb by lia. injection Hb. lia. }
  apply HQ; [done|done|]. destruct (decide (a + 8 ≤ s + Z.of_nat (length l))) as [Hle|Hgt]; [left|right].
  - split; [done|]. apply has_nul_spec; [done|]. intros j Hj. apply Hnz; lia.
  - assert (H0 : wbyte w (s + Z.of_nat (length l) - a) = 0).
    { pose proof string_end as He. rewrite <- (Z.sub_simpl_r (s + Z.of_nat (length l)) a) in He.
      rewrite (Z.add_comm _ a) in He. rewrite Hbytes in He by lia. by injection He. }
    split_and!; [lia| |intros i Hi; apply Hnz; lia|done].
    apply not_false_is_true. intros Hf. destruct (has_nul_spec w H64) as [Hf1 _]. eapply (Hf1 Hf); [|exact H0]. lia.
Qed.

Lemma strlen_step a (k : M mem Z) (Q : Z → mem → Prop) :
  a mod 8 = 0 → s ≤ a ≤ s + Z.of_nat (length l) → Q (s + Z.of_nat (length l)) m →
  (a + 8 ≤ s + Z.of_nat (length l) → wp k m Q) →
  wp (rcx ← load64 a; if has_nul rcx then mret (strlen_tail rcx (a + 8)) else k) m Q.
Proof.
  intros Ha Hin HQ Hk. apply wp_bind, string_word; [done|done|].
  intros w Hw64 _ [[Hle ->]|(Hgt & -> & Hnz & H0)]; [by apply Hk|].
  apply wp_ret. rewrite (strlen_tail_spec w a (s + Z.of_nat (length l) - a)) by (done || lia).
  by replace (a + (s + Z.of_nat (length l) - a)) with (s + Z.of_nat (length l)) by lia.
Qed.
Lemma strlen_loop_wp fuel a (Q : Z → mem → Prop) :
  a mod 8 = 0 → s ≤ a ≤ s + Z.of_nat (length l) → s + Z.of_nat (length l) - a < 32 * Z.of_nat fuel →
  Q (s + Z.of_nat (length l)) m → wp (strlen_loop fuel a) m Q.
Proof.
  revert a. induction fuel as [|n IH]; intros a Ha Hin Hf HQ; [lia|]. cbn [strlen_loop]. cbv zeta.
  apply (strlen_step a); [done|done|done|]. intros H1.
  apply (strlen_step (a + 8)); [dlia|lia|done|]. intros H2.
  apply (strlen_step (a + 8 + 8)); [dlia|lia|done|]. intros H3.
  apply (strlen_step (a + 8 + 8 + 8)); [dlia|lia|done|]. intros H4.
  apply IH; [dlia|lia|lia|done].
Qed.
Lemma strlen_bytes_wp n a (Q : bool * Z → mem → Prop) :
  s ≤ a ≤ s + Z.of_nat (length l) → Q (true, s + Z.of_nat (length l)) m →
  (a + Z.of_nat n ≤ s + Z.of_nat (length l) → Q (false, a + Z.of_nat n) m) →
  wp (strlen_bytes n a) m Q.
Proof.
  revert a. induction n as [|n IH]; intros a Hin Ht Hf; simpl.
  - apply wp_ret. rewrite Z.add_0_r in Hf. apply Hf. lia.
  - destruct (decide (a = s + Z.of_nat (length l))) as [->|].
    + apply wp_bind. eapply load8_wp; [apply string_end|]. by apply wp_ret.
    + destruct (string_byte a) as (b & Hb & Hpos); [lia|]. apply wp_bind. eapply load8_wp; [done|].
      destruct (Z.eqb_spec b 0); [lia|]. apply IH; [lia|done|]. intros Hle.
      replace (a + 1 + Z.of_nat n) with (a + Z.of_nat (S n)) in * by lia. by apply Hf.
Qed.
Lemma strlen_wp (Q : Z → mem → Prop) : Q (Z.of_nat (length l)) m → wp (strlen s) m Q.
Proof.
  intros HQ. unfold strlen. apply wp_bind, wp_gets. cbv zeta. rewrite (land_mask s 7 3) by lia. change (2 ^ 3) with 8.
  pose proof string_size as Hsz. apply wp_bind.
  assert (Hend : ∀ r, r = s + Z.of_nat (length l) → wp (mret (r - s)) m Q).
  { intros r ->. apply wp_ret. by replace (s + Z.of_nat (length l) - s) with (Z.of_nat (length l)) by lia. }
  destruct (Z.eqb_spec (s mod 8) 0) as [H0|H0].
  - apply wp_ret, wp_bind, strlen_loop_wp; [done|lia|lia|by apply Hend].
  - apply strlen_bytes_wp; [lia| |].
    + by apply wp_bind, wp_ret, Hend.
    + intros Hle. apply wp_bind, strlen_loop_wp; [dlia|lia|lia|by apply Hend].
Qed.
End strlen.

(** ** strcpy *)

Lemma store8_filled m a v (Q : unit → mem → Prop) f :
  (∃ b, m !! a = Some b ∧ is_byte b) → f 0 = v → is_byte v → (∀ m', filled m m' a 1 f → Q tt m') → wp (store8 a v) m Q.
Proof.
  intros (b & Hb & _) Hf Hv HQ. apply store8_wp; [by eexists|]. rewrite u8_byte by done. apply HQ.
  intros x. destruct (decide _).
  - assert (x = a) as -> by lia. by rewrite lookup_insert_eq, Z.sub_diag, Hf.
  - by rewrite lookup_insert_ne by lia.
Qed.
Lemma strcpy_tail_wp fuel w rdx j m (Q : unit → mem → Prop) :
  0 ≤ j < 2 * Z.of_nat fuel → (∀ i, 0 ≤ i < j → wbyte w i ≠ 0) → wbyte w j = 0 → readable m rdx (j + 1) →
  (∀ m', filled m m' rdx (j + 1) (wbyte w) → Q tt m') → wp (strcpy_tail fuel w rdx) m Q.
Proof.
  revert w rdx j m Q. induction fuel as [|n IH]; intros w rdx j m Q Hj Hnz Hz Hd HQ; [lia|]. cbn [strcpy_tail]. cbv zeta.
  assert (H0 : Z.land w 0xff = wbyte w 0) by (rewrite wbyte_0; apply (land_mask w 0xff 8); lia).
  assert (H1 : Z.land (Z.shiftr w 8) 0xff = wbyte w 1).
  { rewrite (land_mask _ 0xff 8) by lia. change (2 ^ 8) with 256. rewrite <- wbyte_0. by apply (wbyte_shiftr w 1 0). }
  rewrite H0, H1. apply wp_bind. eapply (store8_filled _ _ _ _ (wbyte w)); [apply Hd; lia|done|apply wbyte_range|].
  intros m1 F1. destruct (Z.eqb_spec (wbyte w 0) 0) as [E0|E0].
  { assert (j = 0) as -> by (destruct (decide (j = 0)); [done|by destruct (Hnz 0); [lia|]]). by apply wp_ret, HQ. }
  assert (Hj1 : 1 ≤ j) by (destruct (decide (j = 0)) as [->|]; [done|lia]).
  apply wp_bind. eapply (store8_filled _ _ _ _ (λ i, wbyte w (1 + i))); [|done|apply wbyte_range|].
  { eapply (readable_filled m); [|exact Hd|exact F1|lia]. intros; apply wbyte_range. }
  intros m2 F2. assert (F12 : filled m m2 rdx 2 (wbyte w)).
  { change 2 with (1 + 1). eapply filled_app; [lia|lia| | |exact F1|exact F2]; done. }
  destruct (Z.eqb_spec (wbyte w 1) 0) as [E1|E1].
  { assert (j = 1) as -> by (destruct (decide (j = 1)); [done|by destruct (Hnz 1); [lia|]]). by apply wp_ret, HQ. }
  assert (Hj2 : 2 ≤ j) by (destruct (decide (j = 1)) as [->|]; [done|lia]).
  assert (Hsh : ∀ i, 0 ≤ i → wbyte (Z.shiftr w 16) i = wbyte w (2 + i)) by (intros i Hi; by apply (wbyte_shiftr w 2 i)).
  apply (IH _ _ (j - 2)); [lia|intros i Hi; rewrite Hsh by lia; apply Hnz; lia| | |].
  { rewrite Hsh by lia. by replace (2 + (j - 2)) with j by lia. }
  { eapply (readable_filled m); [|eapply readable_sub; [exact Hd|lia|lia]|exact F12]. intros; apply wbyte_range. }
  intros m3 F3. apply HQ. replace (j + 1) with (2 + (j - 2 + 1)) by lia.
  eapply filled_app; [lia|lia| | |exact F12|]; [done| |by replace (rdx + 2) with (rdx + 1 + 1) by lia].
  intros i Hi. symmetry. apply Hsh. lia.
Qed.

Lemma cstring_frame m m' d s0 n s l :
  copied m m' d s0 n → d + n ≤ s ∨ s + Z.of_nat (length l) + 1 ≤ d → cstring m s l → cstring m' s l.
Proof.
  intros Hc Hap [Hb Hl]. split; [|done]. eapply bytes_at_copied_frame; [done|done|].
  rewrite length_app. simpl. lia.
Qed.

Section strcpy.
Context (m0 : mem) (s d : Z) (l : list Z).
Abbreviation len := (Z.of_nat (length l)).
Context (Hs : cstring m0 s l) (Hw : string_words m0 s (length l)) (Hd : readable m0 d (len + 1)).
Context (Hap : d + len + 1 ≤ s ∨ s + len + 1 ≤ d).

Lemma string_readable : readable m0 s (len + 1).
Proof. intros x Hx. apply Hw. exists x. split; [lia|done]. Qed.
(** [k] bytes copied so far. *)
Lemma strcpy_state k m :
  0 ≤ k ≤ len + 1 → copied m0 m d s k →
  cstring m s l ∧ string_words m s (length l) ∧ readable m d (len + 1).
Proof.
  intros Hk Hc. assert (Hr : readable m0 s k) by (eapply readable_sub; [apply string_readable|lia|lia]).
  split_and!.
  - eapply cstring_frame; [done| |done]. lia.
  - intros x Hx. rewrite Hc. destruct (decide _); [apply Hr; lia|by apply Hw].
  - by eapply readable_copied.
Qed.
Lemma strcpy_step k sa da m (c : M mem unit) (Q : unit → mem → Prop) :
  sa = s + k → da = d + k → (s + k) mod 8 = 0 → 0 ≤ k ≤ len → copied m0 m d s k → (∀ m', copied m0 m' d s (len + 1) → Q tt m') →
  (∀ m', k + 8 ≤ len → copied m0 m' d s (k + 8) → wp c m' Q) →
  wp (rax ← load64 sa; if has_nul rax then strcpy_tail 5 rax da else store_le 8 da rax;; c) m Q.
Proof.
  intros -> -> Ha Hk Hc HQ Hnext. destruct (strcpy_state k m) as (Hs' & Hw' & Hd'); [lia|done|].
  apply wp_bind. eapply (string_word m s l Hs' Hw'); [done|lia|].
  intros w H64 Hbytes [[Hle ->]|(Hgt & -> & Hnz & H0)].
  - apply wp_bind, store_le_wp; [eapply readable_sub; [exact Hd'|lia|lia]|]. intros m' Hf.
    apply Hnext; [lia|]. eapply copied_fwd; [lia|lia|lia|exact Hc|]. eapply filled_copied; [exact Hbytes|exact Hf].
  - replace (s + len - (s + k)) with (len - k) in * by lia.
    eapply (strcpy_tail_wp _ _ _ (len - k)); [lia|done|done|eapply readable_sub; [exact Hd'|lia|lia]|].
    intros m' Hf. apply HQ. replace (len + 1) with (k + (len - k + 1)) by lia.
    eapply copied_fwd; [lia|lia|lia|exact Hc|]. eapply filled_copied; [|exact Hf]. intros j Hj. apply Hbytes. lia.
Qed.
Lemma strcpy_loop_wp fuel k sa da m (Q : unit → mem → Prop) :
  sa = s + k → da = d + k → (s + k) mod 8 = 0 → 0 ≤ k ≤ len → len - k < 32 * Z.of_nat fuel → copied m0 m d s k →
  (∀ m', copied m0 m' d s (len + 1) → Q tt m') → wp (strcpy_loop fuel sa da) m Q.
Proof.
  revert k sa da m. induction fuel as [|n IH]; intros k sa da m -> -> Ha Hk Hf Hc HQ; [lia|]. cbn [strcpy_loop]. cbv zeta.
  apply (strcpy_step k); [done|done|done|done|done|done|]. intros m1 H1 C1.
  apply (strcpy_step (k + 8)); [lia|lia|dlia|lia|done|done|]. intros m2 H2 C2.
  apply (strcpy_step (k + 8 + 8)); [lia|lia|dlia|lia|done|done|]. intros m3 H3 C3.
  apply (strcpy_step (k + 8 + 8 + 8)); [lia|lia|dlia|lia|done|done|]. intros m4 H4 C4.
  apply (IH (k + 8 + 8 + 8 + 8)); [lia|lia|dlia|lia|lia|done|done].
Qed.
Lemma strcpy_bytes_wp n k sa da m (Q : bool * (Z * Z) → mem → Prop) :
  sa = s + k → da = d + k → 0 ≤ k ≤ len → copied m0 m d s k → (∀ p m', copied m0 m' d s (len + 1) → Q (true, p) m') →
  (∀ m', k + Z.of_nat n ≤ len → copied m0 m' d s (k + Z.of_nat n) → Q (false, (s + (k + Z.of_nat n), d + (k + Z.of_nat n))) m') →
  wp (strcpy_bytes n sa da) m Q.
Proof.
  revert k sa da m. induction n as [|n IH]; intros k sa da m -> -> Hk Hc Ht Hf; simpl.
  - apply wp_ret. rewrite Z.add_0_r in Hf. apply Hf; [lia|done].
  - destruct (strcpy_state k m) as (Hs' & Hw' & Hd'); [lia|done|].
    assert (Hb : ∃ b, m !! (s + k) = Some b ∧ is_byte b ∧ (b = 0 ↔ k = len)).
    { destruct (decide (k = len)) as [->|]; [exists 0; unfold is_byte; split_and!; [by apply string_end|lia|lia|done]|].
      destruct (string_byte m s l Hs' (s + k)) as (b & Hb & Hpos); [lia|]. exists b. unfold is_byte. split_and!; [done|lia|lia|lia]. }
    destruct Hb as (b & Hb & Hbyte & Hz). apply wp_bind. eapply load8_wp; [done|].
    apply wp_bind. eapply (store8_filled _ _ _ _ (λ _, b)); [apply Hd'; lia|done|done|]. intros m' Hfill.
    assert (C1 : copied m0 m' d s (k + 1)).
    { eapply copied_fwd; [lia|lia|lia|exact Hc|]. intros x. rewrite Hfill. destruct (decide _); [|done].
      rewrite <- Hb. f_equal. lia. }
    destruct (Z.eqb_spec b 0) as [E|E]; [apply wp_ret, Ht; apply Hz in E; by rewrite <- E|].
    apply (IH (k + 1)); [lia|lia|lia|done|done|]. intros m'' Hle C2.
    replace (k + 1 + Z.of_nat n) with (k + Z.of_nat (S n)) in * by lia. by apply Hf.
Qed.
Lemma strcpy_wp (Q : Z → mem → Prop) :
  (∀ m', copied m0 m' d s (len + 1) → Q d m') → wp (strcpy d s) m0 Q.
Proof.
  intros HQ. unfold strcpy. apply wp_bind, wp_gets. cbv zeta. rewrite (land_mask s 7 3) by lia. change (2 ^ 3) with 8.
  pose proof (string_size m0 s l Hs) as Hsz. apply wp_bind.
  destruct (Z.eqb_spec (s mod 8) 0) as [H0|H0].
  - apply wp_ret, wp_bind. apply (strcpy_loop_wp _ 0); [lia|lia|by rewrite Z.add_0_r|lia|lia|apply copied_0|]. intros m' Hc. by apply wp_ret, HQ.
  - apply (strcpy_bytes_wp _ 0); [lia|lia|lia|apply copied_0| |].
    + intros [] m' Hc. by apply wp_bind, wp_ret, wp_ret, HQ.
    + intros m' Hle Hc. eapply wp_bind, strcpy_loop_wp; [done|done|dlia|lia|lia|done|]. intros m'' Hc'. by apply wp_ret, HQ.
Qed.
End strcpy.

(** ** The contracts *)

(** the assembly strlen, which reads eight bytes at a time and looks for a zero
    byte in the carries of an addition, returns the length of every string. *)
Theorem strlen_correct m s l :
  cstring m s l → string_words m s (length l) → ∃ m', strlen s m = Ret (Z.of_nat (length l)) m'.
Proof.
  intros Hs Hw. assert (Hwp : wp (strlen s) m (λ r _, r = Z.of_nat (length l))) by (by eapply strlen_wp).
  apply wp_run in Hwp as (r & m' & Hrun & ->). eauto.
Qed.

(** Two strings: thirteen characters, the first at address 9, its words readable. *)
Definition two_strings : mem := mem_of 8 (0 :: replicate 13 129 ++ 0 :: replicate 25 5).
Lemma two_strings_cstring : cstring two_strings 9 (replicate 13 129).
Proof.
  split; [|by repeat constructor]. pose proof (mem_of_bytes 8 (0 :: replicate 13 129 ++ 0 :: replicate 25 5)) as Hb.
  apply bytes_at_cons in Hb as [_ Hb]. change (replicate 13 129 ++ 0 :: replicate 25 5) with ((replicate 13 129 ++ [0]) ++ replicate 25 5) in Hb.
  by apply bytes_at_app in Hb as [Hb _].
Qed.
Lemma two_strings_readable : readable two_strings 8 40.
Proof.
  apply (bytes_at_readable two_strings 8 (0 :: replicate 13 129 ++ 0 :: replicate 25 5) (mem_of_bytes _ _)).
  by repeat constructor.
Qed.
Lemma two_strings_words : string_words two_strings 9 (length (replicate 13 129)).
Proof. intros x (y & Hy & Hxy). apply two_strings_readable. simpl in Hy. dlia. Qed.
Lemma strlen_correct_witness : ∃ m', strlen 9 two_strings = Ret 13 m'.
Proof. apply (strlen_correct two_strings 9 (replicate 13 129)); [apply two_strings_cstring|apply two_strings_words]. Defined.

(** the assembly strcpy copies a string with its terminator to a disjoint
    buffer of any alignment, and changes nothing else. *)
Theorem strcpy_correct m d s l :
  cstring m s l → string_words m s (length l) → readable m d (Z.of_nat (length l) + 1) →
  d + Z.of_nat (length l) + 1 ≤ s ∨ s + Z.of_nat (length l) + 1 ≤ d →
  ∃ m', strcpy d s m = Ret d m' ∧ copied m m' d s (Z.of_nat (length l) + 1) ∧ cstring m' d l.
Proof.
  intros Hs Hw Hd Hap.
  assert (Hwp : wp (strcpy d s) m (λ r m', r = d ∧ copied m m' d s (Z.of_nat (length l) + 1))) by (by eapply strcpy_wp).
  apply wp_run in Hwp as (r & m' & Hrun & -> & Hc). exists m'. split; [done|]. split; [done|].
  destruct Hs as [Hb Hl]. split; [|done]. eapply bytes_at_copied; [exact Hc|done|]. rewrite length_app. simpl. lia.
Qed.
Lemma strcpy_correct_witness :
  ∃ m', strcpy 30 9 two_strings = Ret 30 m' ∧ copied two_strings m' 30 9 14 ∧ cstring m' 30 (replicate 13 129).
Proof.
  apply (strcpy_correct two_strings 30 9 (replicate 13 129)); [apply two_strings_cstring|apply two_strings_words| |simpl; lia].
  eapply readable_sub; [apply two_strings_readable|lia|simpl; lia].
Defined.
