(* ===== verification/Strings.v ===== *)
(** * Strings and number parsing

    lib/string.c (the kernel's string routines and the library's strtou64) and
    e2s of lib/sysstring.c.  Out parameters are returned with the result. *)
From S2P Require Import Prelude Bytes MemFuncs AsmStr.

(** ** strncpy, strncmp, strcmp, strchr, strstr *)

Fixpoint strncpy_loop (n : nat) (dst src : Z) : M mem unit :=
  match n with
  | O => mret tt
  | S n' =>
      b ← load8 src; store8 dst b;;
      let dst := dst + 1 in
      c ← load8 src;
      strncpy_loop n' dst (if nonzero c then src + 1 else src)
  end.
Definition strncpy (dst src n : Z) : M mem Z :=
  strncpy_loop (Z.to_nat n) dst src;; mret dst.

Fixpoint strncmp_loop (n : nat) (p q : Z) : M mem Z :=
  match n with
  | O => mret 0
  | S n' =>
      a ← load8 p; b ← load8 q;
      if nonzero a && (a =? b) then strncmp_loop n' (p + 1) (q + 1) else mret (a - b)
  end.
Definition strncmp (p q n : Z) : M mem Z := strncmp_loop (Z.to_nat n) p q.

Fixpoint strcmp_loop (fuel : nat) (p q : Z) : M mem Z :=
  match fuel with
  | O => crash NoFuel
  | S n =>
      a ← load8 p; b ← load8 q;
      if nonzero a && (a =? b) then strcmp_loop n (p + 1) (q + 1) else mret (a - b)
  end.
Definition strcmp (p q : Z) : M mem Z := fuel ← gets (λ m, S (size m)); strcmp_loop fuel p q.

Fixpoint strchr_loop (fuel : nat) (s c : Z) : M mem Z :=
  match fuel with
  | O => crash NoFuel
  | S n =>
      b ← loadc s;
      if nonzero b then if b =? c then mret s else strchr_loop n (s + 1) c
      else mret 0
  end.
Definition strchr (s c : Z) : M mem Z := fuel ← gets (λ m, S (size m)); strchr_loop fuel s c.

Fixpoint strstr_loop (fuel : nat) (haystack needle nlen : Z) : M mem Z :=
  match fuel with
  | O => crash NoFuel
  | S n =>
      b ← load8 haystack;
      if nonzero b then
        r ← strncmp haystack needle nlen;
        if r =? 0 then mret haystack else strstr_loop n (haystack + 1) needle nlen
      else mret 0
  end.
Definition strstr (haystack needle : Z) : M mem Z :=
  fuel ← gets (λ m, S (size m));
  nlen ← strlen needle; strstr_loop fuel haystack needle nlen.

(** ** strtou64 *)
Definition unsigned64_overflow_vals : list Z :=
  [0; 0; 9223372036854775807; 6148914691236517205; 4611686018427387903; 3689348814741910323; 3074457345618258602;
   2635249153387078802; 2305843009213693951; 2049638230412172401; 1844674407370955161; 1676976733973595601;
   1537228672809129301; 1418980313362273201; 1317624576693539401; 1229782938247303441; 1152921504606846975;
   1085102592571150095; 1024819115206086200; 970881267037344821; 922337203685477580; 878416384462359600;
   838488366986797800; 802032351030850070; 768614336404564650; 737869762948382064; 709490156681136600;
   683212743470724133; 658812288346769700; 636094623231363848; 614891469123651720; 595056260442243600;
   576460752303423487; 558992244657865200; 542551296285575047; 527049830677415760].

(** Initial whitespace. *)
Fixpoint gobble (fuel : nat) (s : Z) : M mem Z :=
  match fuel with
  | O => crash NoFuel
  | S n => c ← loadc s; if (c =? 32) || (c =? 9) then gobble n (s + 1) else mret s
  end.

(** The value of a digit character, [None] where the loop breaks. *)
Definition digit (c : Z) : option Z :=
  if (48 <=? c) && (c <=? 57) then Some (c - 48)
  else if (97 <=? c) && (c <=? 122) then Some (c - 97 + 10)
  else if (65 <=? c) && (c <=? 90) then Some (c - 65 + 10)
  else None.

(** The digits; [result] is [-E_INVAL] until the first one. *)
Fixpoint digits_loop (fuel : nat) (base overflow_val overflow_digit s val result : Z) : M mem (Z * Z * Z) :=
  match fuel with
  | O => crash NoFuel
  | S n =>
      c ← loadc s;
      match digit c with
      | None => mret (s, val, result)
      | Some dig =>
          if dig >=? base then mret (s, val, result)
          else
            let result := if result =? - E_INVAL then 0 else result in
            let result := if (val >? overflow_val) || ((val =? overflow_val) && (dig >? overflow_digit))
                          then - E_RANGE else result in
            digits_loop n base overflow_val overflow_digit (s + 1) (u64 (u64 (val * base) + dig)) result
      end
  end.

(** The result code, [*endptr] and what is stored in [*return_value]. *)
Definition strtou64 (begin base : Z) : M mem (Z * Z * option Z) :=
  let result := - E_INVAL in
  if begin =? 0 then mret (result, begin, None)
  else
    fuel ← gets (λ m, S (size m));
    s ← gobble fuel begin;
    c ← loadc s;
    let s := if c =? 43 then s + 1 else s in
    c ← loadc s;
    x ← (if ((base =? 0) || (base =? 16)) && (c =? 48) then loadc (s + 1) else mret 0);
    let '(s, base, ok) :=
      if ((base =? 0) || (base =? 16)) && (c =? 48) && ((x =? 120) || (x =? 88)) then (s + 2, 16, true)
      else if (base =? 0) && (c =? 48) then (s, 8, true)
      else if base =? 0 then (s, 10, true)
      else if (base <? 2) || (base >? 36) then (s, base, false)
      else (s, base, true) in
    if negb ok then mret (result, s, None)
    else
      overflow_val ← deref (λ _, unsigned64_overflow_vals !! Z.to_nat base);
      let overflow_digit := s32 (u32 (u64 (2 ^ 64 - 1 - u64 (overflow_val * base)))) in
      '(s, val, result) ← digits_loop fuel base overflow_val overflow_digit s 0 result;
      if result =? - E_INVAL then mret (result, begin, None)
      else if result =? - E_RANGE then mret (result, s, Some (2 ^ 64 - 1))
      else mret (result, s, Some val).

(** ** e2s

    The strings are represented by the codes they are listed under; [missing] is
    the text for an empty slot.  Reading outside the table is undefined. *)
Definition E_MAXERROR : Z := 14.
Inductive errstr := Described (code : Z) | Missing.
Global Instance errstr_eq_dec : EqDecision errstr.
Proof. solve_decision. Defined.
Definition error_string : list (option Z) :=
  [Some 0; Some E_UNSPEC; Some E_INVAL; Some E_NO_MEM; Some E_RESTART; Some E_NOT_FOUND; Some E_PERM; Some E_BUSY;
   Some E_NO_SPACE; Some E_AGAIN; Some E_IO; Some E_BAD_TYPE; Some E_EXISTS; None; Some E_MAXERROR].
Definition e2s (err : Z) : M unit errstr :=
  let err := if err <? 0 then s32 (u32 (- err)) else err in
  let err := if err >? E_MAXERROR then E_MAXERROR else err in
  s ← deref (λ _, if err <? 0 then None else error_string !! Z.to_nat err);
  mret (match s with Some c => Described c | None => Missing end).

(** ** Reading a string character by character *)

Lemma cstring_cons m a b l : cstring m a (b :: l) → m !! a = Some b ∧ 0 < b < 256 ∧ cstring m (a + 1) l.
Proof.
  intros [Hb Hl]. simpl in Hb. apply bytes_at_cons in Hb as [H0 Hb]. apply Forall_cons in Hl as [? Hl].
  split; [done|]. split; [done|]. by split.
Qed.
Lemma cstring_nil m a : cstring m a [] → m !! a = Some 0.
Proof. intros [Hb _]. by apply bytes_at_cons in Hb as [H0 _]. Qed.
Lemma cstring_head m a l : cstring m a l → m !! a = Some (List.hd 0 l).
Proof. destruct l as [|b l]; [apply cstring_nil|]. intros H. by apply cstring_cons in H as (? & _). Qed.
Lemma cstring_size m a l : cstring m a l → (length l < size m)%nat.
Proof. intros [Hb _]. apply bytes_at_size in Hb. rewrite length_app in Hb. simpl in Hb. lia. Qed.
Lemma cstring_drop m a l k : cstring m a l → (k ≤ length l)%nat → cstring m (a + Z.of_nat k) (drop k l).
Proof.
  revert a k. induction l as [|b l IH]; intros a [|k] Hs Hk; simpl in *; try lia; [by rewrite Z.add_0_r..|].
  apply cstring_cons in Hs as (_ & _ & Hs). specialize (IH (a + 1) k Hs ltac:(lia)).
  by replace (a + Z.of_nat (S k)) with (a + 1 + Z.of_nat k) by lia.
Qed.
Lemma s8_small b : 0 ≤ b < 128 → s8 b = b.
Proof. intros Hb. unfold s8. rewrite Z.mod_small by lia. lia. Qed.

(** ** strncpy pads with zeros *)
Lemma strncpy_wp m dst src n l (Q : Z → mem → Prop) :
  0 ≤ n → cstring m src l → readable m dst n → dst + n ≤ src ∨ src + Z.of_nat (length l) + 1 ≤ dst →
  (∀ m', filled m m' dst n (λ i, nth (Z.to_nat i) l 0) → Q dst m') → wp (strncpy dst src n) m Q.
Proof.
  intros Hn Hs Hd Hap HQ. unfold strncpy. apply wp_bind.
  assert (Hloop : ∀ k m d s l, cstring m s l → readable m d (Z.of_nat k) →
    d + Z.of_nat k ≤ s ∨ s + Z.of_nat (length l) + 1 ≤ d →
    wp (strncpy_loop k d s) m (λ _ m', filled m m' d (Z.of_nat k) (λ i, nth (Z.to_nat i) l 0))).
  { clear. intros k. induction k as [|k IH]; intros m d s l Hs Hd Hap; cbn [strncpy_loop]; [apply wp_ret, filled_0|].
    pose proof (cstring_head _ _ _ Hs) as Hh. set (b := List.hd 0 l) in *.
    assert (Hb : 0 ≤ b < 256). { destruct l as [|x l]; [by subst b|]. apply cstring_cons in Hs as (_ & ? & _). subst b. simpl. lia. }
    apply wp_bind. eapply load8_wp; [done|]. apply wp_bind.
    eapply (store8_filled _ _ _ _ (λ i, nth (Z.to_nat i) l 0)); [apply Hd; lia|by destruct l|done|]. intros m1 F1.
    assert (Hc1 : ∀ l', l' = l ∨ (∃ x, l = x :: l') → ∀ s', s' + Z.of_nat (length l') = s + Z.of_nat (length l) → s ≤ s' → cstring m s' l' → cstring m1 s' l').
    { intros l' Hl' s' Hs' Hss [Hb' Hall]. split; [|done]. intros i c Hi. pose proof (lookup_lt_Some _ _ _ Hi) as Hlt.
      rewrite length_app in Hlt. simpl in Hlt. rewrite F1, decide_False by lia. by apply Hb'. }
    apply wp_bind. eapply load8_wp; [rewrite F1, decide_False by lia; exact Hh|]. cbv zeta.
    assert (Hrest : ∀ s' l', cstring m1 s' l' → d + 1 + Z.of_nat k ≤ s' ∨ s' + Z.of_nat (length l') + 1 ≤ d + 1 →
      (∀ i, 0 ≤ i < Z.of_nat k → nth (Z.to_nat (1 + i)) l 0 = nth (Z.to_nat i) l' 0) →
      wp (strncpy_loop k (d + 1) s') m1 (λ _ m', filled m m' d (Z.of_nat (S k)) (λ i, nth (Z.to_nat i) l 0))).
    { intros s' l' Hs' Hap' Hnth. eapply wp_mono; [apply (IH _ _ _ l'); [done| |lia]|].
      - eapply (readable_filled m); [|eapply readable_sub; [exact Hd|lia|lia]|exact F1].
        intros i Hi. assert (i = 0) as -> by lia. by destruct l.
      - intros [] m2 F2. rewrite Nat2Z.inj_succ, <- Z.add_1_l.
        eapply filled_app; [lia|lia| | |exact F1|exact F2]; done. }
    destruct l as [|x l]; simpl in b.
    - subst b. apply (Hrest s []); [apply Hc1; [by left|done|lia|done]|simpl in *; lia|].
      intros i Hi. destruct (Z.to_nat (1 + i)), (Z.to_nat i); done.
    - apply cstring_cons in Hs as (Hx & Hxr & Hs'). subst b. unfold nonzero. destruct (Z.eqb_spec x 0); [lia|]. simpl negb. cbv iota.
      apply (Hrest (s + 1) l); [apply Hc1; [eauto|simpl; lia|lia|done]|simpl in *; lia|].
      intros i Hi. by replace (Z.to_nat (1 + i)) with (S (Z.to_nat i)) by lia. }
  eapply wp_mono; [apply (Hloop _ m dst src l); [done|by rewrite Z2Nat.id by lia|by rewrite Z2Nat.id by lia]|].
  intros [] m' Hf. rewrite Z2Nat.id in Hf by lia. by apply wp_ret, HQ.
Qed.

(** ** Comparing strings *)

(** Where two strings differ first, terminators included. *)
Inductive differ : list Z → list Z → Z → Z → Prop :=
| differ_here a b l k : a ≠ b → differ (a :: l) (b :: k) a b
| differ_end_l b k : b ≠ 0 → differ [] (b :: k) 0 b
| differ_end_r a l : a ≠ 0 → differ (a :: l) [] a 0
| differ_later x a b l k : differ l k a b → differ (x :: l) (x :: k) a b.

Lemma differ_neq l k a b : differ l k a b → a ≠ b ∧ l ≠ k.
Proof.
  induction 1 as [a b l k Hab|b k Hb|a l Ha|x a b l k _ [Hab Hlk]]; (split; [done|congruence]).
Qed.

Lemma differ_fun l k a b a' b' : differ l k a b → differ l k a' b' → a = a' ∧ b = b'.
Proof.
  intros Hd. revert a' b'. induction Hd as [a b l k Hab|b k Hb|a l Ha|x a b l k Hd IH]; intros a' b' Hd';
    inversion Hd'; subst; try done. by apply IH.
Qed.
Lemma differ_dec l k :
  Forall (λ b, 0 < b < 256) l → Forall (λ b, 0 < b < 256) k → l = k ∨ ∃ a b, differ l k a b.
Proof.
  intros A1. revert k. induction A1 as [|a l Ha A1 IH]; intros k A2; destruct A2 as [|b k Hb A2]; [by left|..].
  - right. exists 0, b. constructor. lia.
  - right. exists a, 0. constructor. lia.
  - destruct (decide (a = b)) as [->|Hab]; [|right; exists a, b; by constructor].
    destruct (IH k A2) as [->|(x & y & Hd)]; [by left|]. right. exists x, y. by constructor.
Qed.

(** The loop of either strcmp, with the answer [diff] gives at the first difference. *)
Lemma strcmp_loop_spec (loop : nat → Z → Z → M mem Z) (diff : Z → Z → Z) m (Q : Z → mem → Prop) :
  (∀ n p q a b, m !! p = Some a → m !! q = Some b →
     loop (S n) p q m = if a =? b then if a =? 0 then Ret 0 m else loop n (p + 1) (q + 1) m else Ret (diff a b) m) →
  ∀ fuel p q l1 l2, (length l1 < fuel)%nat → cstring m p l1 → cstring m q l2 →
  (l1 = l2 → Q 0 m) → (∀ a b, differ l1 l2 a b → Q (diff a b) m) → wp (loop fuel p q) m Q.
Proof.
  intros Hloop fuel. induction fuel as [|n IH]; intros p q l1 l2 Hf H1 H2 Heq Hne; [lia|]. unfold wp.
  rewrite (Hloop n p q _ _ (cstring_head _ _ _ H1) (cstring_head _ _ _ H2)).
  destruct l1 as [|a l1], l2 as [|b l2]; cbn [List.hd] in *.
  - by apply Heq.
  - apply cstring_cons in H2 as (_ & Hb & _). destruct (Z.eqb_spec 0 b); [lia|]. apply Hne. constructor. lia.
  - apply cstring_cons in H1 as (_ & Ha & _). destruct (Z.eqb_spec a 0); [lia|]. apply Hne. by constructor.
  - apply cstring_cons in H1 as (_ & Ha & H1), H2 as (_ & Hb & H2).
    destruct (Z.eqb_spec a b) as [->|Hab]; [|by apply Hne; constructor].
    destruct (Z.eqb_spec b 0); [lia|]. apply (IH _ _ l1 l2); [simpl in Hf; lia|done|done|intros ->; by apply Heq|].
    intros a' b' Hd. apply Hne. by constructor.
Qed.
Lemma strcmp_wp m p q l1 l2 (Q : Z → mem → Prop) :
  cstring m p l1 → cstring m q l2 → (l1 = l2 → Q 0 m) → (∀ a b, differ l1 l2 a b → Q (a - b) m) →
  wp (strcmp p q) m Q.
Proof.
  intros H1 H2 Heq Hne. unfold strcmp. apply wp_bind, wp_gets.
  apply (strcmp_loop_spec strcmp_loop Z.sub) with l1 l2; [|apply cstring_size in H1; lia|done..].
  intros n p' q' a b Ha Hb. cbn [strcmp_loop]. unfold mbind, m_bind, load8, deref. rewrite Ha, Hb. unfold nonzero.
  destruct (Z.eqb_spec a 0) as [->|]; cbn [negb andb]; [|by destruct (a =? b)].
  destruct (Z.eqb_spec 0 b) as [<-|]; done.
Qed.
Lemma asm_strcmp_wp m p q l1 l2 (Q : Z → mem → Prop) :
  cstring m p l1 → cstring m q l2 → (l1 = l2 → Q 0 m) →
  (∀ a b, differ l1 l2 a b → Q (if a <? b then -1 else 1) m) → wp (asm_strcmp p q) m Q.
Proof.
  intros H1 H2 Heq Hne. unfold asm_strcmp. apply wp_bind, wp_gets.
  apply (strcmp_loop_spec asm_strcmp_loop (λ a b, if a <? b then -1 else 1)) with l1 l2; [|apply cstring_size in H1; lia|done..].
  intros n p' q' a b Ha Hb. cbn [asm_strcmp_loop]. unfold mbind, m_bind, load8, deref. rewrite Ha, Hb.
  destruct (a =? b); simpl; [|done]. by destruct (a =? 0).
Qed.

(** strncmp is zero exactly when the first [n] characters agree. *)
Lemma strncmp_wp m p q n l1 l2 (Q : Z → mem → Prop) :
  0 ≤ n → cstring m p l1 → cstring m q l2 →
  (∀ r, (r = 0 ↔ take (Z.to_nat n) l1 = take (Z.to_nat n) l2) → Q r m) → wp (strncmp p q n) m Q.
Proof.
  intros Hn H1 H2 HQ. unfold strncmp. revert p q l1 l2 H1 H2 HQ. generalize (Z.to_nat n) as k. clear n Hn. intros k.
  induction k as [|k IH]; intros p q l1 l2 H1 H2 HQ; cbn [strncmp_loop]; [by apply wp_ret, HQ|].
  apply wp_bind. eapply load8_wp; [by apply cstring_head|]. apply wp_bind. eapply load8_wp; [by apply cstring_head|].
  destruct l1 as [|a l1], l2 as [|b l2]; cbn [List.hd] in *.
  - by apply wp_ret, HQ.
  - apply cstring_cons in H2 as (_ & Hb & _). apply wp_ret, HQ. split; [lia|done].
  - apply cstring_cons in H1 as (_ & Ha & _). unfold nonzero. destruct (Z.eqb_spec a 0); [lia|]. simpl.
    apply wp_ret, HQ. split; [lia|done].
  - apply cstring_cons in H1 as (_ & Ha & H1), H2 as (_ & Hb & H2). unfold nonzero. destruct (Z.eqb_spec a 0); [lia|].
    simpl. destruct (Z.eqb_spec a b) as [->|Hab].
    + apply (IH _ _ l1 l2); [done|done|]. intros r Hr. apply HQ. rewrite Hr. cbn [take]. split; [by intros ->|by intros [= ->]].
    + apply wp_ret, HQ. split; [lia|by intros [= ? _]].
Qed.

(** strchr finds the first occurrence; it never finds the terminator. *)
Lemma strchr_wp m s c l (Q : Z → mem → Prop) :
  cstring m s l →
  (∀ i, s8 <$> l !! i = Some c → (∀ j, (j < i)%nat → s8 <$> l !! j ≠ Some c) → Q (s + Z.of_nat i) m) →
  ((∀ i, s8 <$> l !! i ≠ Some c) → Q 0 m) → wp (strchr s c) m Q.
Proof.
  intros Hs Hfound Hno. unfold strchr. apply wp_bind, wp_gets. pose proof (cstring_size _ _ _ Hs) as Hsz.
  assert (Hf : (length l < S (size m))%nat) by lia. revert Hf. generalize (S (size m)) as fuel. clear Hsz. intros fuel.
  revert s l Hs Hfound Hno. induction fuel as [|n IH]; intros s l Hs Hfound Hno Hf; [lia|]. cbn [strchr_loop].
  apply wp_bind. eapply loadc_wp; [by apply cstring_head|]. destruct l as [|b l]; cbn [List.hd].
  { apply wp_ret, Hno. done. }
  apply cstring_cons in Hs as (_ & Hb & Hs). unfold nonzero. destruct (Z.eqb_spec (s8 b) 0) as [H0|_].
  { unfold s8 in H0. dlia. }
  simpl. destruct (Z.eqb_spec (s8 b) c) as [<-|Hbc].
  - apply wp_ret. specialize (Hfound 0%nat). rewrite Z.add_0_r in Hfound. apply Hfound; [done|lia].
  - apply (IH _ l); [done| | |simpl in Hf; lia].
    + intros i Hi Hlt. replace (s + 1 + Z.of_nat i) with (s + Z.of_nat (S i)) by lia. apply Hfound; [done|].
      intros [|j] Hj; simpl; [congruence|apply Hlt; lia].
    + intros Hn. apply Hno. intros [|i]; simpl; [congruence|apply Hn].
Qed.

(** strstr finds the first occurrence that starts before the end of the haystack. *)
Lemma strstr_wp m h nd l1 l2 (Q : Z → mem → Prop) :
  cstring m h l1 → cstring m nd l2 → string_words m nd (length l2) →
  (∀ i, (i < length l1)%nat → l2 `prefix_of` drop i l1 → (∀ j, (j < i)%nat → ¬ l2 `prefix_of` drop j l1) →
     Q (h + Z.of_nat i) m) →
  ((∀ i, (i < length l1)%nat → ¬ l2 `prefix_of` drop i l1) → Q 0 m) → wp (strstr h nd) m Q.
Proof.
  intros H1 H2 Hw Hfound Hno. unfold strstr. apply wp_bind, wp_gets, wp_bind. apply (strlen_wp m nd l2 H2 Hw).
  pose proof (cstring_size _ _ _ H1) as Hsz. assert (Hf : (length l1 < S (size m))%nat) by lia.
  revert Hf. generalize (S (size m)) as fuel. clear Hsz. intros fuel.
  revert h l1 H1 Hfound Hno. induction fuel as [|n IH]; intros h l1 H1 Hfound Hno Hf; [lia|]. cbn [strstr_loop].
  apply wp_bind. eapply load8_wp; [by apply cstring_head|]. destruct l1 as [|b l1]; cbn [List.hd].
  { apply wp_ret, Hno. simpl. lia. }
  pose proof (cstring_cons _ _ _ _ H1) as (_ & Hb & H1'). unfold nonzero. destruct (Z.eqb_spec b 0); [lia|]. cbn [negb].
  apply wp_bind. eapply (strncmp_wp _ _ _ _ (b :: l1) l2); [lia|done|done|]. rewrite Nat2Z.id. intros r Hr.
  assert (Hpre : r = 0 ↔ l2 `prefix_of` b :: l1).
  { rewrite Hr, (firstn_all l2). split.
    - intros <-. apply prefix_take.
    - intros [k ->]. by rewrite take_app_length. }
  destruct (Z.eqb_spec r 0) as [H0|H0].
  - apply wp_ret. specialize (Hfound 0%nat). rewrite Z.add_0_r in Hfound. apply Hfound; [simpl; lia|by apply Hpre|lia].
  - apply (IH _ l1); [done| | |simpl in Hf; lia].
    + intros i Hi Hp Hlt. replace (h + 1 + Z.of_nat i) with (h + Z.of_nat (S i)) by lia. apply Hfound; [simpl; lia|done|].
      intros [|j] Hj; simpl; [by rewrite <- Hpre|apply Hlt; lia].
    + intros Hn. apply Hno. intros [|i] Hi; simpl in *; [by rewrite <- Hpre|apply Hn; lia].
Qed.

(** ** strtou64 *)

(** The number a list of digits denotes, most significant first. *)
Definition value (base : Z) (ds : list Z) : Z := fold_left (λ v d, v * base + d) ds 0.

(** The characters [cs] are the digits [ds] of a number in base [base]. *)
Definition digits_of (base : Z) (cs ds : list Z) : Prop :=
  Forall2 (λ c d, c < 128 ∧ digit c = Some d ∧ d < base) cs ds.

(** Where the digits stop. *)
Definition no_digit (base c : Z) : Prop := ∀ d, digit (s8 c) = Some d → base ≤ d.

Lemma digit_range c d : digit c = Some d → 0 ≤ d < 36.
Proof.
  unfold digit.
  repeat match goal with |- context [?a <=? ?b] => destruct (Z.leb_spec a b) end; simpl; intros [= <-]; lia.
Qed.

(** The table holds the largest number that can still be multiplied. *)
Lemma overflow_table base :
  2 ≤ base ≤ 35 →
  ∃ ov, unsigned64_overflow_vals !! Z.to_nat base = Some ov ∧ ov = (2 ^ 64 - 1) / base ∧
    s32 (u32 (u64 (2 ^ 64 - 1 - u64 (ov * base)))) = (2 ^ 64 - 1) mod base.
Proof.
  intros Hb. set (ok b := match unsigned64_overflow_vals !! Z.to_nat b with
    | Some ov => (ov =? (2 ^ 64 - 1) / b) && (s32 (u32 (u64 (2 ^ 64 - 1 - u64 (ov * b)))) =? (2 ^ 64 - 1) mod b)
    | None => false end).
  assert (Hall : forallb ok (seqZ 2 34) = true) by (vm_compute; reflexivity).
  apply (forallb_seqZ _ _ _ base) in Hall; [|lia]. unfold ok in Hall.
  destruct (unsigned64_overflow_vals !! Z.to_nat base) as [ov|]; [|done].
  exists ov. rewrite andb_true_iff, !Z.eqb_eq in Hall. done.
Qed.
(** The test before each digit reports exactly the overflow. *)
Lemma overflow_test base v d :
  2 ≤ base ≤ 35 → 0 ≤ v < 2 ^ 64 → 0 ≤ d < base →
  (v >? (2 ^ 64 - 1) / base) || ((v =? (2 ^ 64 - 1) / base) && (d >? (2 ^ 64 - 1) mod base)) = (v * base + d >=? 2 ^ 64).
Proof.
  intros Hb Hv Hd. pose proof (Z.div_mod (2 ^ 64 - 1) base ltac:(lia)) as Hdm.
  pose proof (Z.mod_pos_bound (2 ^ 64 - 1) base ltac:(lia)) as Hm.
  set (ov := (2 ^ 64 - 1) / base) in *. set (od := (2 ^ 64 - 1) mod base) in *. clearbody ov od.
  apply eq_true_iff_eq. rewrite orb_true_iff, andb_true_iff, Z.eqb_eq, !Z.gtb_lt, Z.geb_le. nia.
Qed.

(** What the loop carries after digits of value [v], [none] telling that it saw none. *)
Definition scanned (v : Z) (none : bool) (val result : Z) : Prop :=
  0 ≤ v ∧ (v < 2 ^ 64 → val = v ∧ result = if none then - E_INVAL else 0) ∧
  (2 ^ 64 ≤ v → 0 ≤ val < 2 ^ 64 ∧ result = - E_RANGE).

Lemma scanned_digit base v none val result d :
  2 ≤ base ≤ 35 → 0 ≤ d < base → scanned v none val result →
  scanned (v * base + d) false (u64 (u64 (val * base) + d))
    (if (val >? (2 ^ 64 - 1) / base) || ((val =? (2 ^ 64 - 1) / base) && (d >? (2 ^ 64 - 1) mod base)) then - E_RANGE
     else if result =? - E_INVAL then 0 else result).
Proof.
  intros Hb Hd (H0 & Hlt & Hge). split; [nia|]. pose proof (u64_range (u64 (val * base) + d)) as Hr. unfold in_u64 in Hr.
  destruct (decide (v < 2 ^ 64)) as [Hv|Hv].
  - destruct (Hlt Hv) as [-> ->]. rewrite overflow_test by lia. split.
    + intros Hs. destruct (Z.geb_spec (v * base + d) (2 ^ 64)); [lia|]. split; [|by destruct none].
      rewrite (u64_small (v * base)), u64_small by (unfold in_u64; nia). done.
    + intros Hs. destruct (Z.geb_spec (v * base + d) (2 ^ 64)); [|lia]. done.
  - destruct (Hge ltac:(lia)) as [_ ->]. split; [nia|]. intros _. split; [done|].
    by destruct ((_ >? _) || _).
Qed.

Lemma digits_loop_wp base fuel m s cs rest ds v none val result (Q : Z * Z * Z → mem → Prop) :
  2 ≤ base ≤ 35 → cstring m s (cs ++ rest) → (length cs < fuel)%nat → digits_of base cs ds →
  no_digit base (List.hd 0 rest) → scanned v none val result →
  (∀ val' result', scanned (fold_left (λ v d, v * base + d) ds v) (none && bool_decide (ds = [])) val' result' →
     Q (s + Z.of_nat (length cs), val', result') m) →
  wp (digits_loop fuel base ((2 ^ 64 - 1) / base) ((2 ^ 64 - 1) mod base) s val result) m Q.
Proof.
  intros Hb. revert s cs ds v none val result. induction fuel as [|n IH]; intros s cs ds v none val result Hs Hf Hds Hno Hsc HQ; [lia|].
  cbn [digits_loop]. apply wp_bind. eapply loadc_wp; [by apply cstring_head|]. destruct Hds as [|c d cs ds (Hc128 & Hdig & Hlt) Hds].
  - rewrite app_nil_l. assert (Hstop : wp (mret (s, val, result)) m Q).
    { apply wp_ret. specialize (HQ val result). rewrite Z.add_0_r in HQ. apply HQ. simpl. by rewrite andb_true_r. }
    destruct (digit (s8 (List.hd 0 rest))) as [d|] eqn:Hd; [|done]. specialize (Hno d Hd).
    destruct (Z.geb_spec d base); [done|lia].
  - cbn [app List.hd]. apply cstring_cons in Hs as (_ & Hc & Hs). rewrite s8_small, Hdig by lia.
    pose proof (digit_range _ _ Hdig) as Hd36. destruct (Z.geb_spec d base); [lia|]. cbv zeta.
    eapply (IH _ cs ds _ false); [done|simpl in Hf; lia|done|done|eapply scanned_digit; [lia|lia|exact Hsc]|].
    intros val' result' Hsc'. replace (s + 1 + Z.of_nat (length cs)) with (s + Z.of_nat (length (c :: cs))) by (simpl; lia).
    apply HQ. by rewrite (bool_decide_eq_false_2 (d :: ds = [])), andb_false_r.
Qed.

Lemma gobble_wp fuel m s ws l (Q : Z → mem → Prop) :
  Forall (λ c, c = 32 ∨ c = 9) ws → cstring m s (ws ++ l) → (length ws < fuel)%nat →
  s8 (List.hd 0 l) ≠ 32 → s8 (List.hd 0 l) ≠ 9 → Q (s + Z.of_nat (length ws)) m → wp (gobble fuel s) m Q.
Proof.
  intros Hws. revert fuel s. induction Hws as [|c ws Hc Hws IH]; intros [|n] s Hs Hf H32 H9 HQ; simpl in Hf; try lia;
    cbn [gobble app] in *; apply wp_bind; (eapply loadc_wp; [by apply cstring_head|]).
  - destruct (Z.eqb_spec (s8 (List.hd 0 l)) 32); [done|]. destruct (Z.eqb_spec (s8 (List.hd 0 l)) 9); [done|].
    apply wp_ret. by rewrite Z.add_0_r in HQ.
  - cbn [List.hd]. apply cstring_cons in Hs as (_ & _ & Hs). rewrite s8_small by lia.
    assert ((c =? 32) || (c =? 9) = true) as -> by (destruct Hc as [->| ->]; done).
    apply IH; [done|lia|done|done|]. replace (s + 1 + Z.of_nat (length ws)) with (s + Z.of_nat (length (c :: ws))) by (simpl; lia). done.
Qed.

(** Whitespace and an optional plus sign. *)
Definition blanks (pre : list Z) : Prop :=
  ∃ ws sg, pre = ws ++ sg ∧ Forall (λ c, c = 32 ∨ c = 9) ws ∧ (sg = [] ∨ sg = [43]).

Lemma cstring_app m a l k : cstring m a (l ++ k) → cstring m (a + Z.of_nat (length l)) k.
Proof.
  intros Hs. pose proof (cstring_drop m a (l ++ k) (length l) Hs) as Hd. rewrite drop_app_length in Hd.
  apply Hd. rewrite length_app. lia.
Qed.
Lemma digit_not_blank c d : digit (s8 c) = Some d → s8 c ≠ 32 ∧ s8 c ≠ 9 ∧ s8 c ≠ 43.
Proof.
  unfold digit. repeat match goal with |- context [?a <=? ?b] => destruct (Z.leb_spec a b) end; simpl; intros [=]; lia.
Qed.

(** The answer for digits of value [v] that end at [e]. *)
Definition strtou64_answer (v e : Z) : Z * Z * option Z :=
  if v <? 2 ^ 64 then (0, e, Some v) else (- E_RANGE, e, Some (2 ^ 64 - 1)).

(** *** The reference

    What strtou64 computes, as a function of the characters of the string. *)
Definition blank (c : Z) : bool := (c =? 32) || (c =? 9).
Fixpoint skip_blanks (l : list Z) : nat * list Z :=
  match l with
  | c :: l' => if blank c then let '(n, r) := skip_blanks l' in (S n, r) else (O, l)
  | [] => (O, [])
  end.
Definition skip_plus (l : list Z) : nat * list Z :=
  match l with c :: l' => if c =? 43 then (1%nat, l') else (O, l) | [] => (O, []) end.
(** The base in which the digits are read and the length of its prefix. *)
Definition number_base (base : Z) (l : list Z) : option (Z * nat) :=
  let zero := List.hd 0 l =? 48 in
  let x := List.hd 0 (tail l) in
  if ((base =? 0) || (base =? 16)) && zero && ((x =? 120) || (x =? 88)) then Some (16, 2%nat)
  else if base =? 0 then Some (if zero then 8 else 10, O)
  else if (2 <=? base) && (base <=? 36) then Some (base, O) else None.
(** The values of the digits a string begins with. *)
Fixpoint leading_digits (base : Z) (l : list Z) : list Z :=
  match l with
  | c :: l' => match digit (s8 c) with Some d => if d <? base then d :: leading_digits base l' else [] | None => [] end
  | [] => []
  end.
Definition strtou64_spec (begin base : Z) (l : list Z) : Z * Z * option Z :=
  let '(n, l) := skip_blanks l in
  let '(k, l) := skip_plus l in
  let s := begin + Z.of_nat n + Z.of_nat k in
  match number_base base l with
  | None => (- E_INVAL, s, None)
  | Some (b, p) =>
      match leading_digits b (drop p l) with
      | [] => (- E_INVAL, begin, None)
      | ds => strtou64_answer (value b ds) (s + Z.of_nat p + Z.of_nat (length ds))
      end
  end.

Lemma skip_blanks_split l n r : skip_blanks l = (n, r) →
  ∃ ws, l = ws ++ r ∧ length ws = n ∧ Forall (λ c, c = 32 ∨ c = 9) ws ∧ blank (List.hd 0 r) = false.
Proof.
  revert n r. induction l as [|c l IH]; simpl; intros n r.
  - intros [= <- <-]. exists []. by split_and!.
  - destruct (blank c) eqn:Hc; [|intros [= <- <-]; exists []; by split_and!].
    destruct (skip_blanks l) as [n' r'] eqn:E. intros [= <- <-]. destruct (IH n' r' eq_refl) as (ws & -> & <- & Hws & Hb).
    exists (c :: ws). split_and!; [done|done| |done]. constructor; [|done]. unfold blank in Hc. lia.
Qed.
Lemma skip_plus_split l k r : skip_plus l = (k, r) → ∃ sg, l = sg ++ r ∧ length sg = k ∧ (sg = [43] ∨ sg = [] ∧ List.hd 0 l ≠ 43).
Proof.
  destruct l as [|c l]; simpl; [intros [= <- <-]; exists []; split_and!; auto|]. destruct (Z.eqb_spec c 43) as [->|].
  - intros [= <- <-]. exists [43]. split_and!; auto.
  - intros [= <- <-]. exists []. split_and!; auto.
Qed.
Lemma s8_high b : 128 ≤ b < 256 → s8 b < 0.
Proof. intros Hb. unfold s8. dlia. Qed.
Lemma digits_split base l : Forall (λ b, 0 < b < 256) l →
  ∃ cs rest, l = cs ++ rest ∧ digits_of base cs (leading_digits base l) ∧ no_digit base (List.hd 0 rest).
Proof.
  induction 1 as [|c l Hc Hl (cs & rest & -> & Hds & Hno)]; simpl.
  { exists [], []. split_and!; [done|constructor|]. intros d. change (s8 0) with 0. done. }
  destruct (digit (s8 c)) as [d|] eqn:Hd.
  2:{ exists [], (c :: cs ++ rest). split_and!; [done|constructor|]. intros d. cbn [List.hd]. by rewrite Hd. }
  destruct (Z.ltb_spec d base).
  - exists (c :: cs), rest. split_and!; [done| |done]. constructor; [|done].
    destruct (Z.lt_ge_cases c 128); [rewrite s8_small in Hd by lia; done|]. pose proof (s8_high c ltac:(lia)).
    unfold digit in Hd. rewrite !(proj2 (Z.leb_gt _ (s8 c))) in Hd by lia. done.
  - exists [], (c :: cs ++ rest). split_and!; [done|constructor|]. intros d'. cbn [List.hd]. rewrite Hd. intros [= <-]. done.
Qed.
(** Comparing a character of a string with one below 128. *)
Lemma s8_eqb l x : Forall (λ b, 0 < b < 256) l → 0 ≤ x < 128 → (s8 (List.hd 0 l) =? x) = (List.hd 0 l =? x).
Proof.
  intros Hl Hx. assert (Hr : 0 ≤ List.hd 0 l < 256) by (destruct Hl; simpl; lia).
  destruct (Z.lt_ge_cases (List.hd 0 l) 128); [rewrite s8_small by lia; done|]. pose proof (s8_high (List.hd 0 l) ltac:(lia)).
  rewrite (proj2 (Z.eqb_neq (s8 _) x)), (proj2 (Z.eqb_neq (List.hd 0 l) x)) by lia. done.
Qed.
Lemma cstring_chars m a l : cstring m a l → Forall (λ b, 0 < b < 256) l.
Proof. by intros [_ ?]. Qed.

(** The digits, once base and start are known. *)
Lemma strtou64_digits m begin b s l fuel (Q : Z * Z * option Z → mem → Prop) :
  2 ≤ b ≤ 35 → cstring m s l → (length l < fuel)%nat →
  Q (match leading_digits b l with [] => (- E_INVAL, begin, None) | ds => strtou64_answer (value b ds) (s + Z.of_nat (length ds)) end) m →
  wp (overflow_val ← deref (λ _, unsigned64_overflow_vals !! Z.to_nat b);
      let overflow_digit := s32 (u32 (u64 (2 ^ 64 - 1 - u64 (overflow_val * b)))) in
      '(s, val, result) ← digits_loop fuel b overflow_val overflow_digit s 0 (- E_INVAL);
      if result =? - E_INVAL then mret (result, begin, None)
      else if result =? - E_RANGE then mret (result, s, Some (2 ^ 64 - 1))
      else mret (result, s, Some val)) m Q.
Proof.
  intros Hb Hs Hf HQ. destruct (digits_split b l (cstring_chars _ _ _ Hs)) as (cs & rest & El & Hds & Hno).
  set (ds := leading_digits b l) in *. clearbody ds. subst l. pose proof (Forall2_length _ _ _ Hds) as Hlen.
  destruct (overflow_table b Hb) as (ov & Hov & -> & Hod). apply wp_bind. eapply wp_deref; [exact Hov|]. cbv zeta. rewrite Hod.
  apply wp_bind. eapply (digits_loop_wp b _ _ _ cs rest ds 0 true); [done|exact Hs|rewrite length_app in Hf; lia|done|done| |].
  { split; [lia|]. split; [done|]. intros; lia. }
  intros val result (_ & Hsmall & Hlarge). fold (value b ds) in *. destruct ds as [|d ds].
  - destruct (Hsmall ltac:(vm_compute; reflexivity)) as [-> ->]. by apply wp_ret.
  - rewrite (bool_decide_eq_false_2 (d :: ds = [])) in Hsmall by done. cbn [andb] in Hsmall. rewrite Hlen. unfold strtou64_answer in HQ.
    destruct (Z.ltb_spec (value b (d :: ds)) (2 ^ 64)) as [Hv|Hv].
    + destruct (Hsmall Hv) as [-> ->]. by apply wp_ret.
    + destruct (Hlarge Hv) as [_ ->]. by apply wp_ret.
Qed.
Lemma number_base_spec base l b p : base ≠ 36 → number_base base l = Some (b, p) → 2 ≤ b ≤ 35 ∧ (p ≤ length l)%nat.
Proof.
  intros H36. unfold number_base. destruct (_ && _ && _) eqn:E.
  - intros [= <- <-]. split; [lia|]. apply andb_true_iff in E as [E Hx]. apply andb_true_iff in E as [_ Hz].
    destruct l as [|c [|x l]]; simpl in *; [done| |lia]. done.
  - destruct (base =? 0); [intros [= <- <-]; split; [destruct (_ =? 48); lia|lia]|].
    destruct (Z.leb_spec 2 base), (Z.leb_spec base 36); simpl; try done. intros [= <- <-]. split; lia.
Qed.
(** The choice of the base, as the code makes it. *)
Lemma strtou64_base {A} m s base l (K : Z → Z → bool → M mem A) (Q : A → mem → Prop) :
  cstring m s l →
  wp (match number_base base l with Some (b, p) => K (s + Z.of_nat p) b true | None => K s base false end) m Q →
  wp (c ← loadc s;
      x ← (if ((base =? 0) || (base =? 16)) && (c =? 48) then loadc (s + 1) else mret 0);
      let '(s, base, ok) :=
        if ((base =? 0) || (base =? 16)) && (c =? 48) && ((x =? 120) || (x =? 88)) then (s + 2, 16, true)
        else if (base =? 0) && (c =? 48) then (s, 8, true)
        else if base =? 0 then (s, 10, true)
        else if (base <? 2) || (base >? 36) then (s, base, false)
        else (s, base, true) in K s base ok) m Q.
Proof.
  intros Hs HQ. pose proof (cstring_chars _ _ _ Hs) as Hl. apply wp_bind. eapply loadc_wp; [by apply cstring_head|].
  rewrite (s8_eqb l 48 Hl) by lia. apply wp_bind.
  eapply (wp_mono _ _ (λ x m', m' = m ∧ (((base =? 0) || (base =? 16)) && (List.hd 0 l =? 48) && ((x =? 120) || (x =? 88))) =
    (((base =? 0) || (base =? 16)) && (List.hd 0 l =? 48) && ((List.hd 0 (tail l) =? 120) || (List.hd 0 (tail l) =? 88))))).
  { destruct (((base =? 0) || (base =? 16)) && (List.hd 0 l =? 48)) eqn:E; [|by apply wp_ret]. apply andb_true_iff in E as [_ Hz].
    destruct l as [|c l]; [done|]. apply cstring_cons in Hs as (_ & _ & Hs). eapply loadc_wp; [by apply cstring_head|].
    split; [done|]. apply Forall_cons in Hl as [_ Hl]. cbn [tail]. rewrite !(s8_eqb l) by (done || lia). done. }
  intros x m' [-> Ex]. rewrite Ex. unfold number_base in HQ. cbv zeta in HQ. destruct (_ && _ && _); [exact HQ|].
  rewrite Z.gtb_ltb. destruct (base =? 0); simpl.
  - destruct (List.hd 0 l =? 48); by rewrite Z.add_0_r in HQ.
  - destruct (Z.leb_spec 2 base), (Z.ltb_spec base 2); try lia; destruct (Z.leb_spec base 36), (Z.ltb_spec 36 base); try lia; simpl in *;
      by rewrite ?Z.add_0_r in HQ.
Qed.

Lemma strtou64_run m begin base l :
  begin ≠ 0 → base ≠ 36 → cstring m begin l → wp (strtou64 begin base) m (λ r m', r = strtou64_spec begin base l ∧ m' = m).
Proof.
  intros Hnull H36 Hs. unfold strtou64. destruct (Z.eqb_spec begin 0); [done|]. apply wp_bind, wp_gets.
  assert (Hsz := cstring_size _ _ _ Hs). unfold strtou64_spec. destruct (skip_blanks l) as [n1 l1] eqn:E1.
  destruct (skip_blanks_split _ _ _ E1) as (ws & -> & <- & Hws & Hnb). assert (Hs1 := cstring_app _ _ _ _ Hs).
  pose proof (cstring_chars _ _ _ Hs1) as Hl1. unfold blank in Hnb. apply orb_false_iff in Hnb as [H32 H9].
  apply wp_bind. eapply (gobble_wp _ _ _ ws); [done|exact Hs|rewrite length_app in Hsz; lia|..].
  { apply Z.eqb_neq. rewrite s8_eqb by (done || lia). done. } { apply Z.eqb_neq. rewrite s8_eqb by (done || lia). done. }
  apply wp_bind. eapply loadc_wp; [by apply cstring_head|]. rewrite s8_eqb by (done || lia).
  destruct (skip_plus l1) as [k l2] eqn:E2. destruct (skip_plus_split _ _ _ E2) as (sg & -> & <- & Hsg).
  assert (Hs2 := cstring_app _ _ _ _ Hs1). set (s0 := begin + Z.of_nat (length ws) + Z.of_nat (length sg)) in *. cbv zeta.
  replace (if _ =? 43 then _ else _) with s0.
  2:{ unfold s0. destruct Hsg as [->|[-> Hne]]; [done|]. rewrite (proj2 (Z.eqb_neq _ _) Hne). cbn [length]. lia. }
  rewrite !length_app in Hsz. clearbody s0. eapply (strtou64_base m s0 base l2 (λ s b ok, if negb ok then mret (- E_INVAL, s, None) else _)); [exact Hs2|].
  destruct (number_base base l2) as [[b p]|] eqn:Enb; [|by apply wp_ret]. destruct (number_base_spec _ _ _ _ H36 Enb) as [Hb Hp].
  cbn [negb]. apply (strtou64_digits m begin b (s0 + Z.of_nat p) (drop p l2)); [done|by apply cstring_drop|rewrite length_drop; lia|].
  split; [|done]. by destruct (leading_digits b (drop p l2)).
Qed.


(** A string of digits. *)
Lemma leading_digits_all base cs ds : digits_of base cs ds → Forall (λ b, 0 < b < 256) cs → leading_digits base cs = ds.
Proof.
  induction 1 as [|c d cs ds (Hc & Hd & Hlt) _ IH]; intros Hcs; [done|]. apply Forall_cons in Hcs as [Hc0 Hcs].
  cbn [leading_digits]. rewrite s8_small, Hd by lia. rewrite (proj2 (Z.ltb_lt _ _) Hlt). by rewrite IH.
Qed.
Lemma strtou64_plain m begin base cs ds :
  begin ≠ 0 → 2 ≤ base ≤ 35 → cstring m begin cs → cs ≠ [] → digits_of base cs ds →
  base ≠ 16 ∨ List.hd 0 (tail cs) ≠ 120 ∧ List.hd 0 (tail cs) ≠ 88 →
  wp (strtou64 begin base) m (λ r m', r = strtou64_answer (value base ds) (begin + Z.of_nat (length cs)) ∧ m' = m).
Proof.
  intros Hnull Hb Hs Hne Hds Hx. pose proof (cstring_chars _ _ _ Hs) as Hl. eapply wp_mono; [apply (strtou64_run m begin base cs); [done|lia|done]|].
  intros r m' [-> ->]. split; [|done]. pose proof (leading_digits_all base cs ds Hds Hl) as El. pose proof (Forall2_length _ _ _ Hds) as Hlen.
  destruct Hds as [|c d cs ds (Hc & Hd & _) Hds]; [done|]. apply Forall_cons in Hl as [Hc0 _].
  destruct (digit_not_blank c d) as (H1 & H2 & H3); [by rewrite s8_small by lia|]. rewrite s8_small in H1, H2, H3 by lia.
  unfold strtou64_spec. cbn [skip_blanks]. unfold blank. rewrite (proj2 (Z.eqb_neq c 32)), (proj2 (Z.eqb_neq c 9)) by done.
  cbn [orb skip_plus]. rewrite (proj2 (Z.eqb_neq c 43)) by done. unfold number_base. rewrite (proj2 (Z.eqb_neq base 0)) by lia. cbn [orb].
  replace ((base =? 16) && _ && _) with false.
  2:{ symmetry. destruct (Z.eqb_spec base 16); [|done]. destruct Hx as [|[Hx1 Hx2]]; [done|].
      rewrite (proj2 (Z.eqb_neq _ _) Hx1), (proj2 (Z.eqb_neq _ _) Hx2). by rewrite andb_false_r. }
  rewrite (proj2 (Z.leb_le 2 base)), (proj2 (Z.leb_le base 36)) by lia. cbn [andb]. rewrite drop_0, El, <- Hlen. f_equal. lia.
Qed.

(** Base 36 passes the check of the argument and reads past the table. *)
Lemma strtou64_base36 m begin pre c rest :
  begin ≠ 0 → cstring m begin (pre ++ c :: rest) → blanks pre → s8 c ≠ 32 → s8 c ≠ 9 → s8 c ≠ 43 →
  strtou64 begin 36 m = Crash Undef.
Proof.
  intros Hnull Hs (ws & sg & -> & Hws & Hsg) H32 H9 H43. unfold strtou64. destruct (Z.eqb_spec begin 0); [done|].
  assert (Hsz := cstring_size _ _ _ Hs). rewrite !length_app in Hsz. rewrite <- app_assoc in Hs.
  assert (Hs1 := cstring_app _ _ _ _ Hs). assert (Hs2 := cstring_app _ _ _ _ Hs1).
  assert (Hg : wp (gobble (S (size m)) begin) m (λ s m', m' = m ∧ s = begin + Z.of_nat (length ws))).
  { eapply (gobble_wp _ _ _ ws); [done|exact Hs|lia|..|done]; by destruct Hsg as [->| ->]. }
  apply wp_run in Hg as (s & m' & Hg & -> & ->). eapply bind_ret; [done|]. eapply bind_ret; [exact Hg|].
  eapply bind_ret. { unfold loadc. eapply bind_ret; [|done]. unfold load8, deref. by rewrite (cstring_head _ _ _ Hs1). }
  destruct Hsg as [->| ->]; cbn [app List.hd length] in *.
  - destruct (Z.eqb_spec (s8 c) 43); [done|]. cbv zeta. rewrite Z.add_0_r in Hs2.
    eapply bind_ret. { unfold loadc. eapply bind_ret; [|done]. unfold load8, deref. by rewrite (cstring_head _ _ _ Hs2). } done.
  - change (Z.of_nat 1) with 1 in Hs2. change (s8 43 =? 43) with true. cbv zeta iota. eapply bind_ret. { unfold loadc. eapply bind_ret; [|done]. unfold load8, deref. by rewrite (cstring_head _ _ _ Hs2). } done.
Qed.

(** ** The contracts *)

(** C32: strtou64 on any string, with any base argument but 36, computes the reference
    [strtou64_spec]: it skips blanks and a plus sign, takes base 16 from a prefix [0x] if
    the argument is 0 or 16, base 8 from a leading 0 and base 10 otherwise if it is 0,
    and reads the digits below the base.  Below [2^64] it returns 0 and the value of all
    the digits, from [2^64] on [-E_RANGE] and the largest number, in both cases with the
    end pointer right behind the last digit; without a digit it returns [-E_INVAL] and the
    start of the string, and for a base below 2 or above 36 [-E_INVAL] and the place where
    the digits would begin.  Memory does not change.  Base 36 is excluded because there
    the code reads past its table ([strtou64_base36_undef]). *)
Theorem strtou64_correct m begin base l :
  begin ≠ 0 → base ≠ 36 → cstring m begin l → strtou64 begin base m = Ret (strtou64_spec begin base l) m.
Proof.
  intros Hnull H36 Hs. destruct (proj1 (wp_run _ _ _) (strtou64_run m begin base l Hnull H36 Hs)) as (r & m' & Hrun & -> & ->). exact Hrun.
Qed.

(** " +0xffk": 255 in base 0, from the prefix, stopped by the k. *)
Definition hexk : mem := mem_of 4 [32; 43; 48; 120; 102; 102; 107; 0].
Lemma strtou64_correct_witness : strtou64 4 0 hexk = Ret (0, 10, Some 255) hexk.
Proof.
  apply (strtou64_correct hexk 4 0 [32; 43; 48; 120; 102; 102; 107]).
  - lia.
  - lia.
  - split; [exact (mem_of_bytes 4 [32; 43; 48; 120; 102; 102; 107; 0])|repeat constructor].
Defined.

(** " +ffk" *)
Definition ffk : mem := mem_of 4 [32; 43; 102; 102; 107; 0].
Lemma ffk_string : cstring ffk 4 ([32; 43] ++ [102; 102] ++ [107]).
Proof. split; [exact (mem_of_bytes 4 [32; 43; 102; 102; 107; 0])|]. repeat constructor. Qed.
Lemma ffk_blanks : blanks [32; 43].
Proof. exists [32], [43]. split; [done|]. split; [|by right]. constructor; [by left|constructor]. Qed.

(** strtou64 accepts base 36, but its overflow table ends at base 35: it reads
    past the end of the table, whatever the digits are. *)
Theorem strtou64_base36_undef m begin pre c rest :
  begin ≠ 0 → cstring m begin (pre ++ c :: rest) → blanks pre → s8 c ≠ 32 → s8 c ≠ 9 → s8 c ≠ 43 →
  strtou64 begin 36 m = Crash Undef.
Proof. exact (strtou64_base36 m begin pre c rest). Qed.
Lemma strtou64_base36_undef_witness : strtou64 4 36 ffk = Crash Undef.
Proof.
  apply (strtou64_base36_undef ffk 4 [32; 43] 102 [102; 107]); [lia|apply ffk_string|apply ffk_blanks|vm_compute; discriminate..].
Defined.

(** the kernel's strcmp in C and the assembly strcmp agree: both are zero on
    equal strings and otherwise have the sign of the first difference, the bytes
    taken unsigned. *)
Theorem strcmp_agree m p q l1 l2 :
  cstring m p l1 → cstring m q l2 →
  ∃ r m1 m2, strcmp p q m = Ret r m1 ∧ asm_strcmp p q m = Ret (Z.sgn r) m2 ∧
    (r = 0 ↔ l1 = l2) ∧ (∀ a b, differ l1 l2 a b → r = a - b).
Proof.
  intros H1 H2.
  assert (Hs : wp (strcmp p q) m (λ r _, (r = 0 ↔ l1 = l2) ∧ (∀ a b, differ l1 l2 a b → r = a - b))).
  { eapply strcmp_wp; [done|done|..].
    - intros ->. split; [done|]. intros a b Hd. by apply differ_neq in Hd as [_ ?].
    - intros a b Hd. pose proof (differ_neq _ _ _ _ Hd) as [Hab Hne]. split; [split; [lia|done]|].
      intros a' b' Hd'. by destruct (differ_fun _ _ _ _ _ _ Hd Hd') as [-> ->]. }
  apply wp_run in Hs as (r & m1 & Hrun & Hz & Hd). exists r, m1.
  assert (Ha : wp (asm_strcmp p q) m (λ r' _, r' = Z.sgn r)).
  { eapply asm_strcmp_wp; [done|done|..].
    - intros Heq. by rewrite (proj2 Hz Heq).
    - intros a b Hab. rewrite (Hd a b Hab). apply differ_neq in Hab as [Hab _].
      destruct (Z.ltb_spec a b); [rewrite Z.sgn_neg by lia|rewrite Z.sgn_pos by lia]; done. }
  apply wp_run in Ha as (r' & m2 & Hrun' & ->). eauto 7.
Qed.
Lemma strcmp_agree_witness :
  ∃ r m1 m2, strcmp 4 5 ffk = Ret r m1 ∧ asm_strcmp 4 5 ffk = Ret (Z.sgn r) m2 ∧
    (r = 0 ↔ [32; 43; 102; 102; 107] = [43; 102; 102; 107]) ∧
    (∀ a b, differ [32; 43; 102; 102; 107] [43; 102; 102; 107] a b → r = a - b).
Proof.
  apply strcmp_agree; [apply ffk_string|]. exact (cstring_drop ffk 4 _ 1 ffk_string ltac:(simpl; lia)).
Defined.

(** e2s describes every error code of inc/error.h except E_RANGE, for which the
    table has no entry, and reads outside the table for the most negative integer,
    whose negation overflows. *)
Theorem e2s_gaps :
  (∀ err, 0 ≤ err < E_MAXERROR → err ≠ E_RANGE → e2s (- err) tt = Ret (Described err) tt) ∧
  e2s (- E_RANGE) tt = Ret Missing tt ∧
  (∀ err, E_MAXERROR < err < 2 ^ 31 → e2s (- err) tt = Ret (Described E_MAXERROR) tt) ∧
  e2s (- 2 ^ 31) tt = Crash Undef.
Proof.
  split_and!; [|done| |done].
  - intros err Herr Hne. set (ok e := (e =? E_RANGE) || match e2s (- e) tt with Ret s _ => bool_decide (s = Described e) | _ => false end).
    assert (Hall : forallb ok (seqZ 0 E_MAXERROR) = true) by (vm_compute; reflexivity).
    apply (forallb_seqZ _ _ _ err) in Hall; [|lia]. unfold ok in Hall. destruct (Z.eqb_spec err E_RANGE); [done|].
    destruct (e2s (- err) tt) as [s []|]; [|done]. by apply bool_decide_eq_true in Hall as ->.
  - intros err Herr. unfold e2s. destruct (Z.ltb_spec (- err) 0); [|unfold E_MAXERROR in *; lia].
    rewrite Z.opp_involutive, s32_u32 by (unfold E_MAXERROR in *; lia). destruct (Z.gtb_spec err E_MAXERROR); [done|lia].
Qed.
