(* ===== verification/Printfmt.v ===== *)
(** * Formatted output

    lib/printfmt.c.  The formatter calls [putch] once per character and never
    looks at anything [putch] changes, so it is modelled by the list of its calls,
    in order; [None] is a run that reads where it must not.  A format is the list
    of its bytes with the terminator, an argument list is what va_arg hands out.
    Signed arithmetic wraps as compiled. *)
From S2P Require Import Prelude Bytes MemFuncs Machine AsmStr Strings.

(** ** printnum *)
Definition hexdigits : list Z := [48; 49; 50; 51; 52; 53; 54; 55; 56; 57; 97; 98; 99; 100; 101; 102].

(** [for (x = buf; num; num /= base) *x++ = "0123456789abcdef"[num % base];] on a
    buffer of 68 characters; the fuel bounds the digits of a 64-bit number. *)
Fixpoint printnum_digits (fuel : nat) (num base : Z) (buf : list Z) : option (list Z) :=
  match fuel with
  | O => None
  | S n =>
      if num =? 0 then Some buf
      else if 68 <=? Z.of_nat (length buf) then None
      else c ← hexdigits !! Z.to_nat (num mod base); printnum_digits n (num / base) base (buf ++ [c])
  end.

(** [for (; width > k; width--) putch (c)] *)
Definition pad (width k c : Z) : list Z := replicate (Z.to_nat (width - k)) c.

Definition printnum (num base width padc : Z) : option (list Z) :=
  buf ← printnum_digits 69 num base [];
  let buf := match buf with [] => [48] | _ => buf end in
  let x := Z.of_nat (length buf) in
  let before := if negb (padc =? 45) then pad width x padc else [] in
  let width := if negb (padc =? 45) then Z.min width x else width in
  let width := width - x in
  let after := if padc =? 45 then pad width 0 32 else [] in
  Some (before ++ reverse buf ++ after).

(** ** vprintfmt *)
Inductive arg := AInt (z : Z) | AStr (p : option (list Z)).

Record flags := Flags { padc : Z; width : Z; precision : Z; lflag : Z; altflag : bool }.
Definition flags0 : flags := Flags 32 (-1) (-1) 0 false.

Definition va_int (ap : list arg) : option (Z * list arg) :=
  match ap with AInt z :: ap' => Some (z, ap') | _ => None end.
Definition va_str (ap : list arg) : option (option (list Z) * list arg) :=
  match ap with AStr p :: ap' => Some (p, ap') | _ => None end.

Definition getuint (lflag : Z) (ap : list arg) : option (Z * list arg) :=
  '(v, ap) ← va_int ap; Some (if 1 <=? lflag then u64 v else u32 v, ap).
(** The value as the [unsigned long long] it is assigned to. *)
Definition getint (lflag : Z) (ap : list arg) : option (Z * list arg) :=
  '(v, ap) ← va_int ap; Some (u64 (if 1 <=? lflag then s64 v else s32 v), ap).

(** [process_precision:] *)
Definition process_precision (f : flags) (p : Z) : flags :=
  if width f <? 0 then Flags (padc f) p (-1) (lflag f) (altflag f)
  else Flags (padc f) (width f) p (lflag f) (altflag f).

(** The characters of a string argument up to the precision. *)
Fixpoint put_string (altflag : bool) (precision : Z) (p : list Z) : list Z :=
  match p with
  | [] => []
  | c :: p' =>
      if (precision <? 0) || (0 <=? precision - 1) then
        let ch := s8 c in
        (if altflag && ((ch <? 32) || (126 <? ch)) then 63 else ch)
        :: put_string altflag (if precision <? 0 then precision else precision - 1) p'
      else []
  end.
Definition null_string : list Z := [40; 110; 117; 108; 108; 41].
Definition put_str_arg (f : flags) (p : option (list Z)) : list Z :=
  let p := default null_string p in
  let w := if (0 <? width f) && negb (padc f =? 45) then s32 (u32 (width f - Z.of_nat (length p))) else width f in
  let before := if (0 <? width f) && negb (padc f =? 45) then pad w 0 (padc f) else [] in
  let w := if (0 <? width f) && negb (padc f =? 45) then Z.min w 0 else w in
  let body := put_string (altflag f) (precision f) p in
  before ++ body ++ pad (w - Z.of_nat (length body)) 0 32.

(** What a character of an escape sequence makes the formatter do. *)
Inductive action :=
| Reswitch (f : flags) (ap : list arg)
| Digits (f : flags)
| Put (out : list Z) (ap : list arg).

Definition number (f : flags) (pre : list Z) (num base : Z) (ap : list arg) : option action :=
  out ← printnum num base (JMAX (width f) 0) (padc f); Some (Put (pre ++ out) ap).

Definition escape (f : flags) (ch : Z) (ap : list arg) : option action :=
  if ch =? 45 then Some (Reswitch (Flags 45 (width f) (precision f) (lflag f) (altflag f)) ap)
  else if ch =? 48 then Some (Reswitch (Flags 48 (width f) (precision f) (lflag f) (altflag f)) ap)
  else if (49 <=? ch) && (ch <=? 57) then Some (Digits f)
  else if ch =? 42 then '(v, ap) ← va_int ap; Some (Reswitch (process_precision f (s32 v)) ap)
  else if ch =? 46 then
    Some (Reswitch (if width f <? 0 then Flags (padc f) 0 (precision f) (lflag f) (altflag f) else f) ap)
  else if ch =? 35 then Some (Reswitch (Flags (padc f) (width f) (precision f) (lflag f) true) ap)
  else if ch =? 108 then Some (Reswitch (Flags (padc f) (width f) (precision f) (lflag f + 1) (altflag f)) ap)
  else if ch =? 122 then Some (Reswitch (Flags (padc f) (width f) (precision f) 1 (altflag f)) ap)
  else if ch =? 99 then '(v, ap) ← va_int ap; Some (Put [s32 v] ap)
  else if ch =? 115 then '(p, ap) ← va_str ap; Some (Put (put_str_arg f p) ap)
  else if ch =? 98 then '(num, ap) ← getint (lflag f) ap; number f [] num 2 ap
  else if ch =? 100 then
    '(num, ap) ← getint (lflag f) ap;
    if s64 num <? 0 then number f [45] (u64 (- s64 num)) 10 ap else number f [] num 10 ap
  else if ch =? 117 then '(num, ap) ← getuint (lflag f) ap; number f [] num 10 ap
  else if ch =? 111 then '(num, ap) ← getuint (lflag f) ap; number f [] num 8 ap
  else if ch =? 112 then '(v, ap) ← va_int ap; number f [48; 120] (u64 v) 16 ap
  else if ch =? 120 then '(num, ap) ← getuint (lflag f) ap; number f [] num 16 ap
  else if ch =? 37 then Some (Put [ch] ap)
  else Some (Put (37 :: replicate (Z.to_nat (lflag f)) 108 ++ [ch]) ap).

(** Copying text, inside an escape sequence, inside a run of digits. *)
Inductive mode := Text | Escape (f : flags) | Number (f : flags) (p : Z).

Fixpoint vprintfmt (fmt : list Z) (md : mode) (ap : list arg) : option (list Z) :=
  match fmt with
  | [] => None
  | ch :: fmt' =>
      let esc (f : flags) :=
        a ← escape f ch ap;
        match a with
        | Reswitch f' ap' => vprintfmt fmt' (Escape f') ap'
        | Digits f' => vprintfmt fmt' (Number f' (ch - 48)) ap
        | Put out ap' => rest ← vprintfmt fmt' Text ap'; Some (out ++ rest)
        end in
      match md with
      | Text =>
          if ch =? 37 then vprintfmt fmt' (Escape flags0) ap
          else if ch =? 0 then Some []
          else rest ← vprintfmt fmt' Text ap; Some (ch :: rest)
      | Escape f => esc f
      | Number f p =>
          if (48 <=? ch) && (ch <=? 57) then vprintfmt fmt' (Number f (s32 (u32 (p * 10 + ch - 48)))) ap
          else esc (process_precision f p)
      end
  end.

(** ** vsnprintf *)
Record sprintbuf := SprintBuf { sb_buf : Z; sb_ebuf : Z; sb_cnt : Z }.

Definition sprintputch (ch : Z) (b : sprintbuf) : M mem sprintbuf :=
  let cnt := s32 (u32 (sb_cnt b + 1)) in
  if sb_buf b <? sb_ebuf b then
    store8 (sb_buf b) ch;; mret (SprintBuf (sb_buf b + 1) (sb_ebuf b) cnt)
  else mret (SprintBuf (sb_buf b) (sb_ebuf b) cnt).

Fixpoint put_all (out : list Z) (b : sprintbuf) : M mem sprintbuf :=
  match out with
  | [] => mret b
  | ch :: out' => b ← sprintputch ch b; put_all out' b
  end.

Definition vsnprintf (buf n : Z) (fmt : list Z) (ap : list arg) : M mem Z :=
  let b := SprintBuf buf (buf + n - 1) 0 in
  if (buf =? 0) || (n <? 1) then mret (- E_INVAL)
  else
    out ← deref (λ _, vprintfmt fmt Text ap);
    b ← put_all out b;
    store8 (sb_buf b) 0;;
    mret (sb_cnt b).
Definition snprintf (buf n : Z) (fmt : list Z) (ap : list arg) : M mem Z := vsnprintf buf n fmt ap.
Definition sprintf (buf : Z) (fmt : list Z) (ap : list arg) : M mem Z := vsnprintf buf 100000 fmt ap.

(** ** printnum prints the number *)

Definition hexchar (d : Z) : Z := nth (Z.to_nat d) hexdigits 0.
Definition le_value (base : Z) (ds : list Z) : Z := foldr (λ d v, d + base * v) 0 ds.

Lemma hexchar_lookup d : 0 ≤ d < 16 → hexdigits !! Z.to_nat d = Some (hexchar d).
Proof.
  intros Hd. unfold hexchar. rewrite nth_lookup.
  destruct (lookup_lt_is_Some_2 hexdigits (Z.to_nat d)) as [c Hc]; [simpl; lia|]. by rewrite Hc.
Qed.
Lemma value_snoc base ds d : value base (ds ++ [d]) = value base ds * base + d.
Proof. unfold value. by rewrite fold_left_app. Qed.
Lemma value_reverse base ds : value base (reverse ds) = le_value base ds.
Proof.
  induction ds as [|d ds IH]; [done|]. rewrite reverse_cons, value_snoc, IH. simpl. lia.
Qed.

(** Little-endian digits without superfluous zeros. *)
Definition digits_ok (base num : Z) (ds : list Z) : Prop :=
  Forall (λ d, 0 ≤ d < base) ds ∧ le_value base ds = num ∧ last ds ≠ Some 0.

Lemma digits_ok_cons base num ds :
  2 ≤ base → 0 < num → digits_ok base (num / base) ds → digits_ok base num (num mod base :: ds).
Proof.
  intros Hb Hn (Hall & Hv & Hl). split_and!.
  - constructor; [apply Z.mod_pos_bound; lia|done].
  - simpl. rewrite Hv. pose proof (Z.div_mod num base ltac:(lia)). lia.
  - destruct ds as [|d ds]; [|by rewrite last_cons_cons]. simpl in *. intros [= H0].
    pose proof (Z.div_mod num base ltac:(lia)). lia.
Qed.
Lemma printnum_digits_ok base fuel num buf k :
  2 ≤ base ≤ 16 → 0 ≤ num < 2 ^ Z.of_nat k → (k < fuel)%nat → (length buf + k ≤ 68)%nat →
  ∃ ds, printnum_digits fuel num base buf = Some (buf ++ map hexchar ds) ∧ digits_ok base num ds ∧ (length ds ≤ k)%nat.
Proof.
  intros Hb. revert num buf k. induction fuel as [|n IH]; intros num buf k Hn Hk Hbuf; [lia|]. cbn [printnum_digits].
  destruct (Z.eqb_spec num 0) as [->|H0].
  { exists []. rewrite app_nil_r. split_and!; [done|by repeat constructor|simpl; lia]. }
  destruct k as [|k]; [simpl in Hn; lia|]. destruct (Z.leb_spec 68 (Z.of_nat (length buf))); [lia|].
  pose proof (Z.mod_pos_bound num base ltac:(lia)) as Hm. rewrite hexchar_lookup by lia. cbn [mbind option_bind].
  assert (Hdiv : 0 ≤ num / base < 2 ^ Z.of_nat k).
  { split; [apply Z.div_pos; lia|]. apply Z.div_lt_upper_bound; [lia|]. rewrite Nat2Z.inj_succ, Z.pow_succ_r in Hn by lia. nia. }
  destruct (IH (num / base) (buf ++ [hexchar (num mod base)]) k) as (ds & Hrun & Hok & Hlen); [done|lia|rewrite length_app; simpl; lia|].
  exists (num mod base :: ds). rewrite Hrun, <- app_assoc. split_and!; [done|apply digits_ok_cons; [lia|lia|done]|simpl; lia].
Qed.

(** The digits printed, most significant first: the number, "0" for zero. *)
Lemma printnum_spec num base width padc :
  2 ≤ base ≤ 16 → 0 ≤ num < 2 ^ 64 →
  ∃ ds, printnum num base width padc =
      Some ((if padc =? 45 then [] else pad width (Z.of_nat (length ds)) padc) ++ map hexchar ds ++
            (if padc =? 45 then pad (width - Z.of_nat (length ds)) 0 32 else [])) ∧
    Forall (λ d, 0 ≤ d < base) ds ∧ value base ds = num ∧ (head ds = Some 0 → num = 0) ∧ (0 < length ds ≤ 64)%nat.
Proof.
  intros Hb Hn. destruct (printnum_digits_ok base 69 num [] 64) as (ds & Hrun & (Hall & Hv & Hl) & Hlen); [done|done|lia|simpl; lia|].
  unfold printnum. rewrite Hrun. cbn [mbind option_bind app]. destruct ds as [|d ds].
  - exists [0]. simpl in Hv. subst num. split_and!; [|constructor; [lia|constructor]|done|done|simpl; lia|simpl; lia].
    simpl map. cbv iota zeta. by destruct (padc =? 45).
  - exists (reverse (d :: ds)). split_and!.
    + cbn [map]. cbv iota zeta. rewrite length_reverse, <- (map_cons hexchar), length_map. f_equal.
      replace (map hexchar (reverse (d :: ds))) with (reverse (map hexchar (d :: ds))) by (by rewrite fmap_reverse).
      by destruct (padc =? 45).
    + by apply Forall_reverse.
    + by rewrite value_reverse.
    + rewrite head_reverse. intros Hh. done.
    + rewrite length_reverse. cbn [length]. lia.
    + by rewrite length_reverse.
Qed.

(** ** The buffer of vsnprintf *)
Lemma put_all_wp out p e c m (Q : sprintbuf → mem → Prop) :
  p ≤ e → readable m p (e - p) → 0 ≤ c → c + Z.of_nat (length out) < 2 ^ 31 →
  (∀ m', filled m m' p (Z.min (Z.of_nat (length out)) (e - p)) (λ i, u8 (nth (Z.to_nat i) out 0)) →
     Q (SprintBuf (p + Z.min (Z.of_nat (length out)) (e - p)) e (c + Z.of_nat (length out))) m') →
  wp (put_all out (SprintBuf p e c)) m Q.
Proof.
  revert p c m. induction out as [|ch out IH]; intros p c m Hpe Hr Hc Hlen HQ; cbn [put_all].
  - apply wp_ret. specialize (HQ m). simpl in HQ. rewrite Z.min_l, !Z.add_0_r in HQ by lia. apply HQ, filled_0.
  - cbn [length] in *. apply wp_bind. unfold sprintputch. cbn [sb_buf sb_ebuf sb_cnt]. rewrite s32_u32 by lia.
    destruct (Z.ltb_spec p e).
    + destruct (Hr p) as (b & Hb & _); [lia|]. apply wp_bind, store8_wp; [by eexists|]. apply wp_ret.
      assert (F1 : filled m (<[p := u8 ch]> m) p 1 (λ i, u8 (nth (Z.to_nat i) (ch :: out) 0))).
      { intros x. destruct (decide _); [by assert (x = p) as -> by lia; rewrite lookup_insert_eq, Z.sub_diag|].
        by rewrite lookup_insert_ne by lia. }
      apply IH; [lia| |lia|lia|].
      { eapply (readable_filled m); [|eapply readable_sub; [exact Hr|lia|lia]|exact F1]. intros; apply u8_is_byte. }
      intros m' F2. specialize (HQ m').
      replace (p + 1 + Z.min (Z.of_nat (length out)) (e - (p + 1))) with (p + Z.min (Z.of_nat (S (length out))) (e - p)) by lia.
      replace (c + 1 + Z.of_nat (length out)) with (c + Z.of_nat (S (length out))) by lia. apply HQ.
      replace (Z.min (Z.of_nat (S (length out))) (e - p)) with (1 + Z.min (Z.of_nat (length out)) (e - (p + 1))) by lia.
      eapply filled_app; [lia|lia| | |exact F1|exact F2]; [done|].
      intros i Hi. by replace (Z.to_nat (1 + i)) with (S (Z.to_nat i)) by lia.
    + apply wp_ret. assert (p = e) as -> by lia. apply IH; [lia|done|lia|lia|]. intros m' F. specialize (HQ m').
      rewrite Z.sub_diag, !Z.min_r in * by lia. replace (c + 1 + Z.of_nat (length out)) with (c + Z.of_nat (S (length out))) by lia.
      apply HQ. intros x. rewrite F. destruct (decide _); [lia|done].
Qed.
Lemma vsnprintf_wp buf n fmt ap out m (Q : Z → mem → Prop) :
  buf ≠ 0 → 1 ≤ n → readable m buf n → vprintfmt fmt Text ap = Some out → Z.of_nat (length out) < 2 ^ 31 →
  (∀ m', let k := Z.min (Z.of_nat (length out)) (n - 1) in
     filled m m' buf (k + 1) (λ i, if i =? k then 0 else u8 (nth (Z.to_nat i) out 0)) → Q (Z.of_nat (length out)) m') →
  wp (vsnprintf buf n fmt ap) m Q.
Proof.
  intros Hbuf Hn Hr Hout Hlen HQ. unfold vsnprintf. destruct (Z.eqb_spec buf 0); [done|]. destruct (Z.ltb_spec n 1); [lia|]. cbn [orb].
  apply wp_bind. eapply wp_deref; [exact Hout|]. apply wp_bind. apply put_all_wp; [lia| |lia|lia|].
  { eapply readable_sub; [exact Hr|lia|lia]. }
  replace (buf + n - 1 - buf) with (n - 1) by lia. set (k := Z.min _ _) in *. intros m1 F1. cbn [sb_buf sb_cnt].
  assert (Hk : 0 ≤ k ≤ n - 1) by lia. destruct (readable_filled m m1 buf k _ buf n ltac:(intros; apply u8_is_byte) Hr F1 (buf + k)) as (b & Hb & _); [lia|].
  apply wp_bind, store8_wp; [by eexists|]. apply wp_ret, HQ. cbv zeta. change (u8 0) with 0.
  intros x. destruct (decide (x = buf + k)) as [->|Hx].
  - rewrite lookup_insert_eq, decide_True by lia. replace (buf + k - buf) with k by lia. by rewrite Z.eqb_refl.
  - rewrite lookup_insert_ne, F1 by lia. destruct (decide (buf ≤ x < buf + k)).
    + rewrite decide_True by lia. destruct (Z.eqb_spec (x - buf) k); [lia|done].
    + by rewrite decide_False by lia.
Qed.

(** ** Printing and parsing *)

Lemma hexchar_digit base d : base ≤ 16 → 0 ≤ d < base → 0 < hexchar d < 128 ∧ digit (hexchar d) = Some d ∧ hexchar d ≠ 120 ∧ hexchar d ≠ 88.
Proof.
  intros Hb Hd. set (ok d := (0 <? hexchar d) && (hexchar d <? 128) && bool_decide (digit (hexchar d) = Some d) &&
    negb (hexchar d =? 120) && negb (hexchar d =? 88)).
  assert (Hall : forallb ok (seqZ 0 16) = true) by (vm_compute; reflexivity).
  apply (forallb_seqZ _ _ _ d) in Hall; [|lia]. unfold ok in Hall.
  rewrite !andb_true_iff, !Z.ltb_lt, bool_decide_eq_true, !negb_true_iff, !Z.eqb_neq in Hall.
  destruct Hall as [[[[? ?] ?] ?] ?]. split_and!; [lia|lia|done|done|done].
Qed.
Lemma hexchars_digits base ds :
  base ≤ 16 → Forall (λ d, 0 ≤ d < base) ds → digits_of base (map hexchar ds) ds ∧ Forall (λ b, 0 < b < 256) (map hexchar ds).
Proof.
  intros Hb Hall. induction Hall as [|d ds Hd Hall [IH1 IH2]]; [by split; constructor|].
  destruct (hexchar_digit base d Hb Hd) as (? & ? & _). simpl. split; constructor; [|done|lia|done]. split_and!; [lia|done|lia].
Qed.

(** The unsigned conversions of a 64-bit argument, [%lu], [%lx], [%lo] and [%lb], and their
    bases: every base in which vprintfmt prints. *)
Definition long_format (conv : Z) : list Z := [37; 108; conv; 0].
Definition conversions : list (Z * Z) := [(117, 10); (120, 16); (111, 8); (98, 2)].

Lemma vprintfmt_long conv base v :
  (conv, base) ∈ conversions → 0 ≤ v < 2 ^ 64 →
  ∃ ds, vprintfmt (long_format conv) Text [AInt v] = Some (map hexchar ds) ∧
    Forall (λ d, 0 ≤ d < base) ds ∧ value base ds = v ∧ (0 < length ds ≤ 64)%nat.
Proof.
  intros Hin Hv. assert (Hb : 2 ≤ base ≤ 16).
  { unfold conversions in Hin. rewrite !elem_of_cons, elem_of_nil in Hin. destruct_or! Hin; simplify_eq; lia. }
  destruct (printnum_spec v base 0 32) as (ds & Hrun & Hall & Hval & _ & Hlen); [done|done|].
  exists ds. split_and!; [|done|done|lia|lia].
  assert (Hesc : escape (Flags 32 (-1) (-1) 1 false) conv [AInt v] = Some (Put (map hexchar ds) [])).
  { unfold pad in Hrun. replace (Z.to_nat (0 - Z.of_nat (length ds))) with 0%nat in Hrun by lia.
    rewrite app_nil_r in Hrun. simpl app in Hrun.
    assert (Hu : u64 v = v) by (apply u64_small; unfold in_u64; lia).
    assert (Hs : u64 (s64 v) = v) by (unfold s64, u64; destruct (Z.ltb_spec v (2 ^ 63)); dlia).
    unfold conversions in Hin. rewrite !elem_of_cons, elem_of_nil in Hin. destruct_or! Hin; simplify_eq;
      unfold escape; cbn -[printnum u64 s64]; rewrite ?Hs, ?Hu; unfold number; cbn [width padc]; change (JMAX (-1) 0) with 0; rewrite Hrun; done. }
  change (vprintfmt (long_format conv) Text [AInt v]) with
    (a ← escape (Flags 32 (-1) (-1) 1 false) conv [AInt v];
     match a with
     | Reswitch f' ap' => vprintfmt [0] (Escape f') ap'
     | Digits f' => vprintfmt [0] (Number f' (conv - 48)) [AInt v]
     | Put out ap' => rest ← vprintfmt [0] Text ap'; Some (out ++ rest)
     end).
  rewrite Hesc. simpl. by rewrite app_nil_r.
Qed.

Lemma print_parse_spec m buf n conv base v :
  0 < buf → 65 ≤ n → readable m buf n → (conv, base) ∈ conversions → 0 ≤ v < 2 ^ 64 →
  wp (k ← vsnprintf buf n (long_format conv) [AInt v]; r ← strtou64 buf base; mret (k, r)) m
     (λ p _, p = (p.1, (0, buf + p.1, Some v))).
Proof.
  intros Hbuf Hn Hr Hin Hv. destruct (vprintfmt_long conv base v Hin Hv) as (ds & Hfmt & Hall & Hval & Hlen).
  assert (Hb : 2 ≤ base ≤ 16).
  { unfold conversions in Hin. rewrite !elem_of_cons, elem_of_nil in Hin. destruct_or! Hin; simplify_eq; lia. }
  destruct (hexchars_digits base ds ltac:(lia) Hall) as [Hdig Hpos].
  apply wp_bind. eapply vsnprintf_wp; [lia|lia|done|exact Hfmt|rewrite length_map; lia|].
  cbv zeta. rewrite length_map, Z.min_l by lia. intros m' F.
  assert (Hs : cstring m' buf (map hexchar ds)).
  { split; [|done]. intros i b Hi. assert (Hlt := lookup_lt_Some _ _ _ Hi). rewrite length_app, length_map in Hlt. simpl in Hlt.
    rewrite F, decide_True by lia. f_equal. replace (buf + Z.of_nat i - buf) with (Z.of_nat i) by lia.
    destruct (Z.eqb_spec (Z.of_nat i) (Z.of_nat (length ds))) as [E|E].
    - rewrite list_lookup_middle in Hi by (rewrite length_map; lia). by injection Hi.
    - rewrite lookup_app_l in Hi by (rewrite length_map; lia). rewrite Nat2Z.id, nth_lookup, Hi. simpl.
      apply u8_byte. rewrite Forall_lookup in Hpos. specialize (Hpos i b Hi). unfold is_byte. lia. }
  apply wp_bind. eapply wp_mono; [apply (strtou64_plain m' buf base (map hexchar ds) ds); [lia|lia|done| |done|]|].
  - intros E. apply (f_equal length) in E. rewrite length_map in E. simpl in E. lia.
  - right. destruct ds as [|d0 [|d1 ds]]; [done|done|].
    apply Forall_cons in Hall as [_ Hall]. apply Forall_cons in Hall as [Hd1 _].
    by destruct (hexchar_digit base d1 ltac:(lia) Hd1) as (? & _ & ? & ?).
  - intros r m2 [-> _]. apply wp_ret. cbn [fst]. f_equal. unfold strtou64_answer. rewrite Hval, length_map.
    destruct (Z.ltb_spec v (2 ^ 64)); [done|lia].
Qed.

(** ** The contracts *)

(** C34: vsnprintf into a buffer of [n] bytes returns the number of characters the
    format produces, however many fit; the buffer holds the first [n - 1] of them
    and a terminator, and no byte outside the buffer changes. *)
Theorem vsnprintf_bounded buf n fmt ap out m :
  buf ≠ 0 → 1 ≤ n → readable m buf n → vprintfmt fmt Text ap = Some out → Z.of_nat (length out) < 2 ^ 31 →
  ∃ m', vsnprintf buf n fmt ap m = Ret (Z.of_nat (length out)) m' ∧
    bytes_at m' buf (map u8 (take (Z.to_nat (n - 1)) out) ++ [0]) ∧
    (∀ x, x < buf ∨ buf + n ≤ x → m' !! x = m !! x).
Proof.
  intros Hbuf Hn Hr Hout Hlen.
  assert (Hwp : wp (vsnprintf buf n fmt ap) m (λ r m', r = Z.of_nat (length out) ∧
    bytes_at m' buf (map u8 (take (Z.to_nat (n - 1)) out) ++ [0]) ∧ (∀ x, x < buf ∨ buf + n ≤ x → m' !! x = m !! x))).
  { eapply vsnprintf_wp; [done|done|done|exact Hout|done|]. cbv zeta. intros m' F. split; [done|]. split.
    - intros i b Hi. assert (Hlt := lookup_lt_Some _ _ _ Hi). rewrite length_app, length_map, length_take in Hlt. simpl in Hlt.
      rewrite F, decide_True by lia. f_equal. replace (buf + Z.of_nat i - buf) with (Z.of_nat i) by lia. rewrite Nat2Z.id.
      destruct (Z.eqb_spec (Z.of_nat i) (Z.min (Z.of_nat (length out)) (n - 1))) as [E|E].
      + rewrite list_lookup_middle in Hi by (rewrite length_map, length_take; lia). by injection Hi.
      + rewrite lookup_app_l in Hi by (rewrite length_map, length_take; lia).
        rewrite list_lookup_fmap in Hi. apply fmap_Some in Hi as (c & Hc & ->).
        rewrite lookup_take_lt in Hc by lia. by rewrite nth_lookup, Hc.
    - intros x Hx. rewrite F, decide_False by lia. done. }
  apply wp_run in Hwp as (r & m' & Hrun & -> & ?). eauto.
Qed.
(** "%d cpus" for -12, cut off after five characters. *)
Definition cpus_format : list Z := [37; 100; 32; 99; 112; 117; 115; 0].
Lemma vsnprintf_bounded_witness :
  ∃ m', vsnprintf 16 6 cpus_format [AInt (-12)] thirty = Ret 8 m' ∧
    bytes_at m' 16 ([45; 49; 50; 32; 99] ++ [0]) ∧ (∀ x, x < 16 ∨ 16 + 6 ≤ x → m' !! x = thirty !! x).
Proof.
  apply (vsnprintf_bounded 16 6 cpus_format [AInt (-12)] [45; 49; 50; 32; 99; 112; 117; 115] thirty).
  - lia.
  - lia.
  - by apply thirty_block.
  - vm_compute. reflexivity.
  - simpl. lia.
Defined.

(** C33: a 64-bit number printed by vsnprintf with [%lu], [%lx], [%lo] or [%lb] into a
    buffer of at least 65 bytes is read back by strtou64 in base 10, 16, 8 or 2: same
    value, all characters used. *)
Theorem print_parse m buf n conv base v :
  0 < buf → 65 ≤ n → readable m buf n → (conv, base) ∈ conversions → 0 ≤ v < 2 ^ 64 →
  ∃ k m1 m2, vsnprintf buf n (long_format conv) [AInt v] m = Ret k m1 ∧
    strtou64 buf base m1 = Ret (0, buf + k, Some v) m2.
Proof.
  intros Hbuf Hn Hr Hin Hv. pose proof (print_parse_spec m buf n conv base v Hbuf Hn Hr Hin Hv) as Hwp.
  apply wp_bind_inv, wp_run in Hwp as (k & m1 & H1 & Hwp). exists k, m1.
  apply wp_bind_inv, wp_run in Hwp as (r & m2 & H2 & Hwp). exists m2. split; [done|].
  rewrite H2. unfold wp, mret, m_ret in Hwp. simpl in Hwp. by injection Hwp as ->.
Qed.
Definition hundred : mem := mem_of 8 (replicate 100 7).
Lemma print_parse_witness :
  ∃ k m1 m2, vsnprintf 8 100 (long_format 98) [AInt 48879] hundred = Ret k m1 ∧
    strtou64 8 2 m1 = Ret (0, 8 + k, Some 48879) m2.
Proof.
  apply print_parse; [lia|lia| |vm_compute; do 3 right; left|lia].
  apply (bytes_at_readable hundred 8 (replicate 100 7) (mem_of_bytes _ _)). apply Forall_replicate. unfold is_byte. lia.
Defined.

(** a format that ends in a lone [%] makes vprintfmt print the terminator and
    go on reading behind the end of the format. *)
Theorem vprintfmt_lone_percent text ap :
  Forall (λ c, c ≠ 37 ∧ c ≠ 0) text → vprintfmt (text ++ [37; 0]) Text ap = None.
Proof.
  induction 1 as [|c text [H37 H0] _ IH]; [done|]. cbn [app vprintfmt].
  destruct (Z.eqb_spec c 37); [done|]. destruct (Z.eqb_spec c 0); [done|]. by rewrite IH.
Qed.
Lemma vprintfmt_lone_percent_witness : vprintfmt ([49; 48; 48] ++ [37; 0]) Text [] = None.
Proof. apply vprintfmt_lone_percent. repeat constructor; lia. Defined.
