(* ===== verification/UserMisc.v ===== *)
(** * Random numbers and time

    lib/arc4.c, inc/arc4.h and lib/rand.c (the ARC4 generator and its seeding) and
    lib/time.c (conversion of ticks and cycles).

    The generator's table stays a permutation of the bytes; keys of more than 128
    bytes are mishandled.  The conversion is exact as long as the two rates sum up
    to at most 2^32, and loses its high part beyond. *)
From S2P Require Import Prelude Bytes.

(** ** inc/arc4.h and lib/arc4.c *)
Module Arc4.

Record arc4 := MkArc4 { ai : Z; aj : Z; sbox : list Z }.

Definition S_at (k : Z) : M arc4 Z := deref (λ a, sbox a !! Z.to_nat k).
Definition set_i (z : Z) : M arc4 unit := modify (λ a, MkArc4 z (aj a) (sbox a)).
Definition set_j (z : Z) : M arc4 unit := modify (λ a, MkArc4 (ai a) z (sbox a)).
Definition set_S (k v : Z) : M arc4 unit := modify (λ a, MkArc4 (ai a) (aj a) (<[Z.to_nat k := v]> (sbox a))).

Definition arc4_getbyte : M arc4 Z :=
  i ← gets ai; set_i (Z.land (i + 1) 0xff);;
  i ← gets ai; si ← S_at i;
  j ← gets aj; set_j (Z.land (j + si) 0xff);;
  j ← gets aj; sj ← S_at j;
  set_S i sj;;
  set_S j si;;
  S_at (Z.land (si + sj) 0xff).

Definition arc4_reset : M arc4 unit := put (MkArc4 0xff 0 (seqZ 0 0x100)).

(** [key] is the object the key points into, [off] the offset of the pointer. *)
Fixpoint setkey_loop (n : nat) (key : list Z) (off keylen keypos : Z) : M arc4 unit :=
  match n with
  | O => mret tt
  | S n' =>
      let keypos := if keypos >=? keylen then 0 else keypos in
      i ← gets ai; set_i (Z.land (i + 1) 0xff);;
      i ← gets ai; si ← S_at i;
      k ← deref (λ _, key !! Z.to_nat (off + keypos));
      j ← gets aj; set_j (Z.land (j + si + k) 0xff);;
      j ← gets aj; sj ← S_at j;
      set_S i sj;;
      set_S j si;;
      setkey_loop n' key off keylen (keypos + 1)
  end.
Definition _arc4_setkey (key : list Z) (off keylen : Z) : M arc4 unit := setkey_loop 256 key off keylen 0.

Fixpoint setkey_chunks (fuel : nat) (key : list Z) (off len : Z) : M arc4 (Z * Z) :=
  match fuel with
  | O => crash NoFuel
  | S n =>
      if len >? 128 then
        let len := len - 128 in
        let off := off + 128 in
        _arc4_setkey key off 128;;
        setkey_chunks n key off len
      else mret (off, len)
  end.
Definition arc4_setkey (key : list Z) (len : Z) : M arc4 unit :=
  arc4_reset;;
  '(off, len) ← setkey_chunks (S (Z.to_nat len)) key 0 len;
  (if len >? 0 then _arc4_setkey key off len else mret tt);;
  i ← gets ai; set_j i.

(** *** lib/rand.c *)
Record rand := MkRand { a4 : arc4; a4_inited : bool }.
Definition on_a4 {A} : M arc4 A → M rand A := zoom a4 (λ a r, MkRand a (a4_inited r)).

(** The seed is given as the bytes of its words. *)
Definition jrand_seed (seed : list Z) (n : Z) : M rand unit :=
  on_a4 arc4_reset;;
  on_a4 (arc4_setkey seed (u64 (n * 8)));;
  modify (λ r, MkRand (a4 r) true).

(** [keybuf]: the processor's id, the buffer's address, the cycle counter, the pid. *)
Definition jrand_init (keybuf : Z * Z * Z * Z) : M rand unit :=
  let '(k0, k1, k2, k3) := keybuf in
  jrand_seed (flat_map (λ w, wbyte w <$> seqZ 0 8) [k0; k1; k2; k3]) 4.

(** [((char * )&ret)[i] = arc4_getbyte(&a4)] for the eight bytes. *)
Fixpoint jrand_bytes (n : nat) : M arc4 (list Z) :=
  match n with
  | O => mret []
  | S n' => b ← arc4_getbyte; bs ← jrand_bytes n'; mret (b :: bs)
  end.
Definition jrand (keybuf : Z * Z * Z * Z) : M rand Z :=
  inited ← gets a4_inited;
  when (negb inited) (jrand_init keybuf);;
  bs ← on_a4 (jrand_bytes 8);
  mret (foldr (λ b v : Z, b + 256 * v) 0 bs).

(** The table is a permutation of the 256 bytes, the indices are bytes. *)
Definition arc4_inv (a : arc4) : Prop :=
  0 ≤ ai a < 256 ∧ 0 ≤ aj a < 256 ∧ length (sbox a) = 256%nat ∧ NoDup (sbox a) ∧ Forall (λ b, 0 ≤ b < 256) (sbox a).

(** Exchanging two entries keeps the entries distinct. *)
Lemma swap_NoDup (l : list Z) i j x y :
  NoDup l → l !! i = Some x → l !! j = Some y → NoDup (<[j := x]> (<[i := y]> l)).
Proof.
  rewrite !NoDup_alt. intros Hnd Hi Hj. assert (Hli := lookup_lt_Some _ _ _ Hi). assert (Hlj := lookup_lt_Some _ _ _ Hj).
  set (f k := if decide (k = j) then i else if decide (k = i) then j else k).
  assert (Hf : ∀ k, <[j := x]> (<[i := y]> l) !! k = l !! f k).
  { intros k. subst f. cbn beta. destruct (decide (k = j)) as [->|Hkj].
    - rewrite list_lookup_insert_eq by (by rewrite length_insert). done.
    - rewrite list_lookup_insert_ne by done. destruct (decide (k = i)) as [->|Hki].
      + by rewrite list_lookup_insert_eq.
      + by rewrite list_lookup_insert_ne. }
  intros p q z. rewrite !Hf. intros Hp Hq. specialize (Hnd _ _ _ Hp Hq). subst f. cbn beta in Hnd.
  repeat destruct (decide _); congruence.
Qed.

Lemma land_255 z : 0 ≤ Z.land z 0xff < 256.
Proof. rewrite (land_mask z 0xff 8) by lia. apply Z.mod_pos_bound. lia. Qed.
Lemma S_at_wp a k (Q : Z → arc4 → Prop) :
  arc4_inv a → 0 ≤ k < 256 → (∀ b, sbox a !! Z.to_nat k = Some b → 0 ≤ b < 256 → Q b a) → wp (S_at k) a Q.
Proof.
  intros (_ & _ & Hl & _ & Hb) Hk HQ. destruct (lookup_lt_is_Some_2 (sbox a) (Z.to_nat k)) as [b Hkb]; [lia|].
  eapply wp_deref; [exact Hkb|]. apply HQ; [done|]. exact (Forall_lookup_1 _ _ _ _ Hb Hkb).
Qed.

(** The exchange both loops make, as one step. *)
Lemma swap_run a si (f : Z → Z) :
  arc4_inv a → sbox a !! Z.to_nat (ai a) = Some si →
  ∃ sj a', arc4_inv a' ∧ 0 ≤ sj < 256 ∧ ∀ B (k : Z → M arc4 B),
    (j ← gets aj; set_j (Z.land (f j) 0xff);;
     j ← gets aj; sj ← S_at j; set_S (ai a) sj;; set_S j si;; k sj) a = k sj a'.
Proof.
  intros (Hi & Hj & Hl & Hnd & Hb) Hsi. pose proof (land_255 (f (aj a))) as Hj'.
  destruct (lookup_lt_is_Some_2 (sbox a) (Z.to_nat (Z.land (f (aj a)) 255))) as [sj Hsj]; [lia|].
  exists sj, (MkArc4 (ai a) (Z.land (f (aj a)) 255) (<[Z.to_nat (Z.land (f (aj a)) 255) := si]> (<[Z.to_nat (ai a) := sj]> (sbox a)))).
  assert (Hbytes : ∀ k b, sbox a !! k = Some b → 0 ≤ b < 256) by (intros k b; exact (Forall_lookup_1 _ _ _ _ Hb)). split; [|split; [exact (Hbytes _ _ Hsj)|]].
  - split_and!; cbn [ai aj sbox]; [lia|lia|lia|lia|by rewrite !length_insert|by apply swap_NoDup|].
    apply Forall_insert; [apply Forall_insert; [done|]|]; eauto.
  - intros B k. do 2 (eapply bind_ret; [done|]). eapply bind_ret; [done|]. cbn [aj].
    eapply bind_ret; [unfold S_at, deref; cbn [sbox]; by rewrite Hsj|]. by do 2 (eapply bind_ret; [done|]).
Qed.
Lemma swap_wp {B} a si (f : Z → Z) (Q : B → arc4 → Prop) (k : Z → M arc4 B) :
  arc4_inv a → sbox a !! Z.to_nat (ai a) = Some si →
  (∀ sj a', arc4_inv a' → 0 ≤ sj < 256 → wp (k sj) a' Q) →
  wp (j ← gets aj; set_j (Z.land (f j) 0xff);;
      j ← gets aj; sj ← S_at j; set_S (ai a) sj;; set_S j si;; k sj) a Q.
Proof.
  intros Hinv Hsi HQ. destruct (swap_run a si f Hinv Hsi) as (sj & a' & Ha' & Hsj & Hk). unfold wp. rewrite Hk. by apply HQ.
Qed.

Lemma setkey_loop_wp n key off keylen keypos a (Q : unit → arc4 → Prop) :
  arc4_inv a → 0 ≤ off → 0 < keylen → off + keylen ≤ Z.of_nat (length key) → 0 ≤ keypos ≤ keylen →
  (∀ a', arc4_inv a' → Q tt a') → wp (setkey_loop n key off keylen keypos) a Q.
Proof.
  intros Hinv Hoff Hlen Hkey. revert keypos a Hinv. induction n as [|n IH]; intros keypos a Hinv Hpos HQ; cbn [setkey_loop].
  - by apply wp_ret, HQ.
  - cbv zeta. set (kp := if keypos >=? keylen then 0 else keypos).
    assert (Hkp : 0 ≤ kp < keylen) by (subst kp; destruct (Z.geb_spec keypos keylen); lia). clearbody kp.
    pose proof (land_255 (ai a + 1)) as Hi'. unfold set_i. wp_pure.
    assert (Hinv' : arc4_inv (MkArc4 (Z.land (ai a + 1) 255) (aj a) (sbox a))).
    { destruct Hinv as (? & ? & ? & ? & ?). by split_and!; cbn [ai aj sbox]; try lia. }
    apply S_at_wp; [done|done|]. cbn [sbox]. intros si Hsi Hsir. wp_pure.
    destruct (lookup_lt_is_Some_2 key (Z.to_nat (off + kp))) as [b Hb]; [lia|]. eapply wp_deref; [exact Hb|].
    refine (swap_wp _ si (λ j, j + si + b) Q (λ _, setkey_loop n key off keylen (kp + 1)) Hinv' Hsi _).
    intros _ a' Ha' _. apply IH; [done|lia|done].
Qed.
Lemma arc4_getbyte_wp a (Q : Z → arc4 → Prop) :
  arc4_inv a → (∀ b a', arc4_inv a' → 0 ≤ b < 256 → Q b a') → wp arc4_getbyte a Q.
Proof.
  intros Hinv HQ. unfold arc4_getbyte, set_i. pose proof (land_255 (ai a + 1)) as Hi'. wp_pure.
  assert (Hinv' : arc4_inv (MkArc4 (Z.land (ai a + 1) 255) (aj a) (sbox a))).
  { destruct Hinv as (? & ? & ? & ? & ?). by split_and!; cbn [ai aj sbox]; try lia. }
  apply S_at_wp; [done|done|]. cbn [sbox]. intros si Hsi Hsir.
  refine (swap_wp _ si (λ j, j + si) Q (λ sj, S_at (Z.land (si + sj) 0xff)) Hinv' Hsi _).
  intros sj a' Ha' _. apply S_at_wp; [done|apply land_255|]. intros b _ Hb. by apply HQ.
Qed.
Lemma jrand_bytes_wp n a (Q : list Z → arc4 → Prop) :
  arc4_inv a → (∀ bs a', arc4_inv a' → Forall (λ b, 0 ≤ b < 256) bs → length bs = n → Q bs a') → wp (jrand_bytes n) a Q.
Proof.
  revert a Q. induction n as [|n IH]; intros a Q Hinv HQ; cbn [jrand_bytes]; [by apply wp_ret, HQ|].
  apply wp_bind, arc4_getbyte_wp; [done|]. intros b a' Ha' Hb. apply wp_bind, IH; [done|].
  intros bs a'' Ha'' Hbs Hl. apply wp_ret, HQ; [done|by constructor|simpl; lia].
Qed.
Lemma reset_inv : arc4_inv (MkArc4 0xff 0 (seqZ 0 0x100)).
Proof.
  split_and!; cbn [ai aj sbox]; [lia|lia|lia|lia|done|apply NoDup_seqZ|].
  apply Forall_forall. intros b Hb%elem_of_seqZ. lia.
Qed.
Lemma arc4_setkey_wp key len a (Q : unit → arc4 → Prop) :
  0 ≤ len ≤ 128 → len ≤ Z.of_nat (length key) → (∀ a', arc4_inv a' → Q tt a') → wp (arc4_setkey key len) a Q.
Proof.
  intros Hlen Hkey HQ. unfold arc4_setkey, arc4_reset. wp_pure. cbn [setkey_chunks].
  destruct (Z.gtb_spec len 128); [lia|]. wp_pure. pose proof reset_inv as Hinv.
  assert (Hlast : ∀ a', arc4_inv a' → wp (i ← gets ai; set_j i) a' Q).
  { intros a' (? & ? & ? & ? & ?). unfold set_j. wp_pure. apply HQ. by split_and!; cbn [ai aj sbox]; try lia. }
  destruct (Z.gtb_spec len 0).
  - apply setkey_loop_wp; [done|lia|lia|lia|lia|done].
  - apply wp_ret. by apply Hlast.
Qed.

Lemma on_a4_wp {A} (m : M arc4 A) r (Q : A → rand → Prop) :
  wp m (a4 r) (λ x a, Q x (MkRand a (a4_inited r))) → wp (on_a4 m) r Q.
Proof. intros Hm. unfold on_a4. by apply wp_zoom. Qed.
Lemma le_word_range bs n :
  Forall (λ b, 0 ≤ b < 256) bs → length bs = n → 0 ≤ foldr (λ b v, b + 256 * v) 0 bs < 256 ^ Z.of_nat n.
Proof.
  intros Hbs. revert n. induction Hbs as [|b bs Hb Hbs IH]; intros n Hn; [subst; simpl; lia|].
  destruct n as [|n]; [done|]. specialize (IH n ltac:(by injection Hn)). cbn [foldr].
  rewrite Nat2Z.inj_succ, Z.pow_succ_r by lia. lia.
Qed.
Lemma jrand_init_wp keybuf r (Q : unit → rand → Prop) :
  (∀ r', a4_inited r' = true → arc4_inv (a4 r') → Q tt r') → wp (jrand_init keybuf) r Q.
Proof.
  intros HQ. destruct keybuf as [[[k0 k1] k2] k3]. unfold jrand_init, jrand_seed.
  apply wp_bind, on_a4_wp. apply wp_put. apply wp_bind, on_a4_wp.
  apply arc4_setkey_wp; [by vm_compute|by vm_compute|].
  intros a' Ha'. wp_pure. by apply HQ.
Qed.
Lemma inv_permutation a : arc4_inv a → sbox a ≡ₚ seqZ 0 256.
Proof.
  intros (_ & _ & Hl & Hnd & Hb). apply submseteq_length_Permutation; [|by rewrite Hl, length_seqZ].
  apply NoDup_submseteq; [done|]. intros b Hin. apply elem_of_seqZ. rewrite Forall_forall in Hb. specialize (Hb b Hin). lia.
Qed.

(** *** Keys of more than 128 bytes *)

(** A round over a full key reads all of it. *)
Lemma setkey_loop_reads n key off keylen keypos a :
  arc4_inv a → 0 ≤ off → 0 ≤ keypos < keylen → Z.of_nat (length key) < off + keylen →
  off + keypos ≤ Z.of_nat (length key) → Z.of_nat (length key) - off - keypos < Z.of_nat n →
  setkey_loop n key off keylen keypos a = Crash Undef.
Proof.
  intros Hinv Hoff. revert keypos a Hinv. induction n as [|n IH]; intros keypos a Hinv Hpos Hshort Hin Hn; [lia|].
  cbn [setkey_loop]. destruct (Z.geb_spec keypos keylen); [lia|]. cbv zeta.
  destruct (lookup_lt_is_Some_2 (sbox a) (Z.to_nat (Z.land (ai a + 1) 255))) as [si Hsi].
  { pose proof (land_255 (ai a + 1)). destruct Hinv as (_ & _ & -> & _). lia. }
  assert (Hinv' : arc4_inv (MkArc4 (Z.land (ai a + 1) 255) (aj a) (sbox a))).
  { pose proof (land_255 (ai a + 1)). destruct Hinv as (? & ? & ? & ? & ?). by split_and!; cbn [ai aj sbox]; try lia. }
  do 3 (eapply bind_ret; [done|]). cbn [ai]. eapply bind_ret; [unfold S_at, deref; cbn [sbox]; by rewrite Hsi|].
  destruct (key !! Z.to_nat (off + keypos)) as [b|] eqn:Hb.
  - eapply bind_ret; [done|]. assert (Hlt := lookup_lt_Some _ _ _ Hb).
    destruct (swap_run _ si (λ j, j + si + b) Hinv' Hsi) as (sj & a' & Ha' & _ & Hk).
    etrans; [exact (Hk _ (λ _, setkey_loop n key off keylen (keypos + 1)))|]. apply IH; [done|lia|lia|lia|lia].
  - by eapply bind_crash.
Qed.
(** The chunks: [off] bytes behind, [len] bytes ahead of the pointer. *)
Lemma setkey_chunks_overrun fuel key off len a :
  arc4_inv a → 0 ≤ off → 128 < len → len mod 128 ≠ 0 → off + len = Z.of_nat (length key) → len < Z.of_nat fuel →
  setkey_chunks fuel key off len a = Crash Undef.
Proof.
  revert off len a. induction fuel as [|n IH]; intros off len a Hinv Hoff Hlen Hmod Hkey Hf; [lia|]. cbn [setkey_chunks].
  destruct (Z.gtb_spec len 128); [|lia]. cbv zeta. destruct (decide (len < 256)).
  - eapply bind_crash, setkey_loop_reads; [done|lia|lia|lia|lia|lia].
  - assert (Hok : wp (_arc4_setkey key (off + 128) 128) a (λ _ a', arc4_inv a')).
    { apply setkey_loop_wp; [done|lia|lia|lia|lia|done]. }
    apply wp_run in Hok as ([] & a' & Hrun & Ha'). eapply bind_ret; [exact Hrun|].
    assert (len ≠ 256) by (intros ->; done). apply IH; [done|lia|lia|dlia|lia|lia].
Qed.

(** The generator over its whole life (inc/arc4.h, lib/arc4.c, lib/rand.c): from
    a key of at most 128 bytes, [arc4_setkey] and then any number of [arc4_getbyte]
    run without a fault, every output is a byte, and the table is at each point a
    permutation of the 256 bytes with both indices inside it. *)
Theorem arc4_stream key len n a :
  0 ≤ len ≤ 128 → len ≤ Z.of_nat (length key) →
  ∃ bs a', (arc4_setkey key len;; jrand_bytes n) a = Ret bs a' ∧ arc4_inv a' ∧
    length bs = n ∧ Forall (λ b, 0 ≤ b < 256) bs ∧ sbox a' ≡ₚ seqZ 0 256.
Proof.
  intros Hlen Hkey.
  assert (Hwp : wp (arc4_setkey key len;; jrand_bytes n) a
    (λ bs a', arc4_inv a' ∧ Forall (λ b, 0 ≤ b < 256) bs ∧ length bs = n)).
  { apply wp_bind, arc4_setkey_wp; [done|done|]. intros a' Ha'. by apply jrand_bytes_wp. }
  apply wp_run in Hwp as (bs & a' & Hrun & Ha' & Hbs & Hl). exists bs, a'. split_and!; try done; try apply Ha'.
  by apply inv_permutation.
Qed.

(** The generator of the process: seeded at its first use. *)
Definition rand_inv (r : rand) : Prop := a4_inited r = true → arc4_inv (a4 r).

(** [jrand] (lib/rand.c, over inc/arc4.h and lib/arc4.c) never faults and keeps
    the invariant that an initialised generator's table is a permutation of the 256
    bytes with both indices inside it: from any state that has it, the zeroed
    state before the first call included, it returns a 64-bit value, seeds the
    generator if it was not, and leaves a state that has it. *)
Theorem jrand_inv keybuf r :
  rand_inv r →
  ∃ v r', jrand keybuf r = Ret v r' ∧ in_u64 v ∧ a4_inited r' = true ∧ rand_inv r' ∧ sbox (a4 r') ≡ₚ seqZ 0 256.
Proof.
  intros Hinv.
  assert (Hwp : wp (jrand keybuf) r (λ v r', in_u64 v ∧ a4_inited r' = true ∧ rand_inv r' ∧ sbox (a4 r') ≡ₚ seqZ 0 256)).
  { unfold jrand. wp_pure.
    assert (Hdraw : ∀ r', a4_inited r' = true → arc4_inv (a4 r') →
      wp (bs ← on_a4 (jrand_bytes 8); mret (foldr (λ b v : Z, b + 256 * v) 0 bs)) r'
        (λ v r', in_u64 v ∧ a4_inited r' = true ∧ rand_inv r' ∧ sbox (a4 r') ≡ₚ seqZ 0 256)).
    { intros r' Hi Ha. apply wp_bind, on_a4_wp, jrand_bytes_wp; [done|]. intros bs a' Ha' Hbs Hl. apply wp_ret.
      split_and!; [exact (le_word_range bs 8 Hbs Hl)|done|by intros _|by apply inv_permutation]. }
    destruct (a4_inited r) eqn:Hi; [|by apply jrand_init_wp]. apply wp_ret. apply Hdraw; [done|by apply Hinv]. }
  apply wp_run in Hwp as (v & r' & Hrun & ?). by exists v, r'.
Qed.
Lemma jrand_inv_witness :
  ∃ v r', jrand (3, 0x7000, 12345, 1) (MkRand (MkArc4 0 0 (replicate 256 0)) false) = Ret v r' ∧
    in_u64 v ∧ a4_inited r' = true ∧ rand_inv r' ∧ sbox (a4 r') ≡ₚ seqZ 0 256.
Proof. by apply (jrand_inv (3, 0x7000, 12345, 1) (MkRand (MkArc4 0 0 (replicate 256 0)) false)). Defined.

(** [arc4_setkey] (lib/arc4.c) advances the key pointer before it uses the first
    128 bytes, so that for a key of more than 128 bytes whose length is not a
    multiple of 128 it reads beyond the key, whatever the key and the state. *)
Theorem arc4_setkey_long key a :
  128 < Z.of_nat (length key) → Z.of_nat (length key) mod 128 ≠ 0 →
  arc4_setkey key (Z.of_nat (length key)) a = Crash Undef.
Proof.
  intros Hlen Hmod. unfold arc4_setkey. eapply bind_ret; [done|]. eapply bind_crash.
  apply setkey_chunks_overrun; [apply reset_inv|lia|lia|done|lia|lia].
Qed.
Lemma arc4_setkey_long_witness :
  arc4_setkey (replicate 129 7) 129 (MkArc4 0 0 []) = Crash Undef.
Proof. by apply (arc4_setkey_long (replicate 129 7)). Defined.

End Arc4.

(** ** lib/time.c *)
Module Time.

Definition NSEC_PER_SECOND : Z := 1000000000.

Record time := MkTime { ticks : Z; int_hz : Z; def_hz : Z }.
Definition time0 : time := MkTime 0 0 100.

(** Division by zero raises an exception. *)
Definition udiv {S} (x y : Z) : M S Z := if y =? 0 then crash Undef else mret (x / y).

Definition timer_convert {S} (n a b : Z) : M S Z :=
  let hi := Z.shiftr n 32 in
  let lo := Z.land n 0xffffffff in
  let hi_hz := u64 (hi * a) in
  hi_b ← udiv hi_hz b;
  let hi_hz_carry := u64 (hi_hz - u64 (hi_b * b)) in
  let lo_hz := u64 (u64 (lo * a) + u64 (Z.shiftl hi_hz_carry 32)) in
  lo_b ← udiv lo_hz b;
  mret (u64 (u64 (Z.shiftl hi_b 32) + lo_b)).

Section clock.
(** The result of [sys_processor_set_interval] for a rate. *)
Context (set_interval : Z → Z).

Definition time_init (hz : Z) : M time unit :=
  if set_interval hz <? 0 then crash Panic else modify (λ t, MkTime (ticks t) hz (def_hz t)).

Definition time_nsec : M time Z :=
  hz ← gets int_hz;
  when (hz =? 0) (d ← gets def_hz; time_init d);;
  n ← gets ticks; hz ← gets int_hz;
  timer_convert n NSEC_PER_SECOND hz.

Definition time_tick : M time unit :=
  n ← gets ticks;
  if n =? 2 ^ 64 - 1 then crash Panic else modify (λ t, MkTime (n + 1) (int_hz t) (def_hz t)).

Definition gettimeofday : M time (Z * Z) :=
  nsec ← time_nsec;
  mret (nsec / NSEC_PER_SECOND, nsec mod NSEC_PER_SECOND / 1000).
End clock.

Definition time_cycles_to_nsec {S} (cpufreq cycles : Z) : M S Z :=
  timer_convert cycles NSEC_PER_SECOND cpufreq.

(** Splitting a product at 32 bits and dividing the parts gives the quotient. *)
Lemma split_div hi lo a b :
  0 < b → (hi * 2 ^ 32 + lo) * a / b = hi * a / b * 2 ^ 32 + (lo * a + (hi * a - hi * a / b * b) * 2 ^ 32) / b.
Proof.
  intros Hb. rewrite <- Z.div_add_l by lia. f_equal. lia.
Qed.
Lemma timer_convert_spec {S} n a b (s : S) :
  in_u64 n → 0 ≤ a → 0 < b → a + b ≤ 2 ^ 32 → timer_convert n a b s = Ret (u64 (n * a / b)) s.
Proof.
  intros Hn Ha Hb Hab. unfold in_u64 in Hn. unfold timer_convert, udiv. destruct (Z.eqb_spec b 0); [lia|].
  assert (Hhi : 0 ≤ Z.shiftr n 32 < 2 ^ 32) by (rewrite Z.shiftr_div_pow2 by lia; dlia).
  assert (Hlo : 0 ≤ Z.land n 0xffffffff < 2 ^ 32) by (rewrite (land_mask n 0xffffffff 32) by lia; dlia).
  assert (Hsplit : n = Z.shiftr n 32 * 2 ^ 32 + Z.land n 0xffffffff).
  { rewrite (land_mask n 0xffffffff 32), Z.shiftr_div_pow2 by lia. dlia. }
  revert Hhi Hlo Hsplit. generalize (Z.shiftr n 32) as hi, (Z.land n 0xffffffff) as lo. intros hi lo Hhi Hlo ->.
  assert (0 ≤ hi * a < 2 ^ 64) by nia. assert (0 ≤ lo * a < 2 ^ 64) by nia.
  assert (Hq : 0 ≤ hi * a / b * b ≤ hi * a) by (pose proof (Z.mul_div_le (hi * a) b); pose proof (Z.div_pos (hi * a) b); nia).
  assert (Hr : hi * a - hi * a / b * b < b) by (pose proof (Z.mul_succ_div_gt (hi * a) b); lia).
  rewrite (u64_small (hi * a)) by done. cbn -[Z.pow Z.shiftl u64]. unfold mbind, m_bind, mret, m_ret. cbn -[Z.pow Z.shiftl u64].
  f_equal. rewrite !Z.shiftl_mul_pow2 by lia. rewrite (u64_small (hi * a / b * b)) by (unfold in_u64; lia).
  rewrite (u64_small (hi * a - hi * a / b * b)) by (unfold in_u64; lia).
  rewrite (u64_small ((hi * a - hi * a / b * b) * 2 ^ 32)), (u64_small (lo * a)) by (unfold in_u64; lia).
  rewrite (u64_small (lo * a + _)) by (unfold in_u64; nia). rewrite split_div by done. apply Z.add_mod_idemp_l. lia.
Qed.
Lemma time_nsec_spec set_interval t hz :
  hz = (if int_hz t =? 0 then def_hz t else int_hz t) →
  (int_hz t = 0 → 0 ≤ set_interval hz) →
  in_u64 (ticks t) → 0 < hz → NSEC_PER_SECOND + hz ≤ 2 ^ 32 →
  time_nsec set_interval t = Ret (u64 (ticks t * NSEC_PER_SECOND / hz)) (MkTime (ticks t) hz (def_hz t)).
Proof.
  intros Hhz Hset Hn Hpos Hle. unfold time_nsec. eapply bind_ret; [done|].
  assert (Hinit : when (int_hz t =? 0) (d ← gets def_hz; time_init set_interval d) t = Ret tt (MkTime (ticks t) hz (def_hz t))).
  { destruct (Z.eqb_spec (int_hz t) 0) as [H0|H0]; [|subst hz; by destruct t].
    cbn [when]. eapply bind_ret; [done|]. unfold time_init. subst hz. specialize (Hset H0).
    destruct (Z.ltb_spec (set_interval (def_hz t)) 0); [lia|done]. }
  eapply bind_ret; [exact Hinit|]. do 2 (eapply bind_ret; [done|]). by apply timer_convert_spec.
Qed.

(** [gettimeofday] (lib/time.c) reports the tick count exactly: for an interrupt
    rate [hz] with 10^9 + hz ≤ 2^32 and a time that fits 64 bits of nanoseconds, the
    seconds and microseconds it returns are those of [floor (ticks * 10^6 / hz)]
    microseconds, with the microseconds below a million; on the first use the rate is
    the default one, and it is the rate from then on. *)
Theorem gettimeofday_exact set_interval t hz :
  hz = (if int_hz t =? 0 then def_hz t else int_hz t) →
  (int_hz t = 0 → 0 ≤ set_interval hz) →
  in_u64 (ticks t) → 0 < hz → NSEC_PER_SECOND + hz ≤ 2 ^ 32 →
  in_u64 (ticks t * NSEC_PER_SECOND / hz) →
  ∃ sec usec, gettimeofday set_interval t = Ret (sec, usec) (MkTime (ticks t) hz (def_hz t)) ∧
    0 ≤ usec < 1000000 ∧ sec * 1000000 + usec = ticks t * 1000000 / hz.
Proof.
  intros Hhz Hset Hn Hpos Hle Hfit. eexists _, _. split; [|split].
  - unfold gettimeofday. eapply bind_ret; [by apply time_nsec_spec|]. rewrite u64_small by done. done.
  - unfold NSEC_PER_SECOND. dlia.
  - replace (ticks t * 1000000 / hz) with (ticks t * NSEC_PER_SECOND / hz / 1000).
    + unfold NSEC_PER_SECOND. generalize (ticks t * 1000000000 / hz). intros z. dlia.
    + rewrite Z.div_div, (Z.mul_comm hz), <- Z.div_div by lia. do 2 f_equal.
      unfold NSEC_PER_SECOND. rewrite (Z.mul_assoc _ 1000000 1000 : ticks t * 1000000000 = _). by rewrite Z.div_mul.
Qed.
Lemma gettimeofday_exact_witness :
  ∃ sec usec, gettimeofday (λ _, 0) (MkTime 12345 0 100) = Ret (sec, usec) (MkTime 12345 100 100) ∧
    0 ≤ usec < 1000000 ∧ sec * 1000000 + usec = 12345 * 1000000 / 100.
Proof. by apply (gettimeofday_exact (λ _, 0) (MkTime 12345 0 100) 100). Defined.

(** At 3.6 GHz the sum [lo * a + (carry << 32)] of [timer_convert] (lib/time.c)
    leaves 64 bits although both rates are below 2^32: [time_cycles_to_nsec] runs
    backwards by more than a second between two successive cycle counts. *)
Theorem time_cycles_to_nsec_backwards :
  ∃ before after, time_cycles_to_nsec 3600000000 33908626339 tt = Ret before tt ∧
    time_cycles_to_nsec 3600000000 33908626340 tt = Ret after tt ∧ after + NSEC_PER_SECOND < before.
Proof. by eexists _, _. Qed.
End Time.
