(* ===== verification/Hashtable.v ===== *)
(** * The open-addressing hash table (lib/hashtable.c, inc/hashtable.h)

    Linear probing with tombstones, shared by the kernel (kern/kern/map.c) and the
    user-level file cache (fs/vfs0cache.c).  The table does not own its entries:
    it reaches them through [hash_ent], which calls a client function, indexes an
    array of pages, or indexes a flat array.  The client side is the class
    [HashBack]; what the table relies on is the class [HashStore]; the theorems
    are proved against [HashStore] and hold for every client that provides it.

    The theorems relate the table to a finite map from keys to values: a
    well-formed table's [hash_get] is lookup, [hash_put] of an absent key is
    insertion, [hash_del] is deletion, and the iterator enumerates the map. *)
From S2P Require Import Prelude Machine.

Definition TOMB : Z := 0xFFFFFFFFFFFFFFFF.
Definition LEN : Z := 1.
Definition LEV : Z := 0xDEADBEEF.

Record hashentry := HashEntry { he_key : Z; he_val : Z }.

(** [struct hashtable]; [ht_arg] is the union [entry]/[entry2]/[arg] and
    [ht_hash_ent] says whether the function pointer [hash_ent] is set. *)
Record hashtable (A : Type) := HashTable {
  ht_arg : A;
  ht_hash_ent : bool;
  ht_capacity : Z;
  ht_size : Z;
  ht_pgents : Z;
}.
Arguments HashTable {A}.
Arguments ht_arg {A}.
Arguments ht_hash_ent {A}.
Arguments ht_capacity {A}.
Arguments ht_size {A}.
Arguments ht_pgents {A}.

Definition set_size {A} (t : hashtable A) (n : Z) : hashtable A :=
  HashTable (ht_arg t) (ht_hash_ent t) (ht_capacity t) n (ht_pgents t).

#[export] Instance hashentry_eq_dec : EqDecision hashentry.
Proof. solve_decision. Defined.

(** ** The hash function *)

Definition mix64 (abc : Z * Z * Z) : Z * Z * Z :=
  let '(a, b, c) := abc in
  let a := u64 (a - b) in let a := u64 (a - c) in let a := Z.lxor a (Z.shiftr c 43) in
  let b := u64 (b - c) in let b := u64 (b - a) in let b := Z.lxor b (u64 (Z.shiftl a 9)) in
  let c := u64 (c - a) in let c := u64 (c - b) in let c := Z.lxor c (Z.shiftr b 8) in
  let a := u64 (a - b) in let a := u64 (a - c) in let a := Z.lxor a (Z.shiftr c 38) in
  let b := u64 (b - c) in let b := u64 (b - a) in let b := Z.lxor b (u64 (Z.shiftl a 23)) in
  let c := u64 (c - a) in let c := u64 (c - b) in let c := Z.lxor c (Z.shiftr b 5) in
  let a := u64 (a - b) in let a := u64 (a - c) in let a := Z.lxor a (Z.shiftr c 35) in
  let b := u64 (b - c) in let b := u64 (b - a) in let b := Z.lxor b (u64 (Z.shiftl a 49)) in
  let c := u64 (c - a) in let c := u64 (c - b) in let c := Z.lxor c (Z.shiftr b 11) in
  let a := u64 (a - b) in let a := u64 (a - c) in let a := Z.lxor a (Z.shiftr c 12) in
  let b := u64 (b - c) in let b := u64 (b - a) in let b := Z.lxor b (u64 (Z.shiftl a 18)) in
  let c := u64 (c - a) in let c := u64 (c - b) in let c := Z.lxor c (Z.shiftr b 22) in
  (a, b, c).

(** The main loop of [hash2]: three words at a time, then the last [len < 3]. *)
Fixpoint hash2_loop (k : list Z) (abc : Z * Z * Z) : list Z * (Z * Z * Z) :=
  match k with
  | k0 :: k1 :: k2 :: k' =>
      let '(a, b, c) := abc in
      hash2_loop k' (mix64 (u64 (a + k0), u64 (b + k1), u64 (c + k2)))
  | _ => (k, abc)
  end.

Definition hash2 (k : list Z) (level : Z) : Z :=
  let '(rest, (a, b, c)) := hash2_loop k (level, level, 0x9e3779b97f4a7c13) in
  let c := u64 (c + Z.of_nat (length k)) in
  let '(a, b) :=
    match rest with
    | [k0; k1] => (u64 (a + k0), u64 (b + k1))
    | [k0] => (u64 (a + k0), b)
    | _ => (a, b)
    end in
  let '(_, _, c) := mix64 (a, b, c) in c.

#[global] Opaque hash2.

(** [probe = (hash2(&key, LEN, LEV) + i) % table->capacity]: the sum is a
    [uint64_t] and wraps; the [int] capacity is converted to [uint64_t]. *)
Definition probe_of (key cap i : Z) : Z := u64 (hash2 [key] LEV + i) mod u64 cap.

(** ** Operations *)

(** What the client of a table provides: its three ways to find an entry, and
    reading and writing through an entry pointer. *)
Class HashBack (S A L : Type) := {
  hb_call : A → Z → M S L;
  hb_entry2 : A → Z → Z → M S L;
  hb_entry : A → Z → L;
  hb_read : L → M S hashentry;
  hb_write : L → hashentry → M S unit;
}.

Section ops.
Context {S A L : Type} `{HB : HashBack S A L}.

Definition hash_ent (t : hashtable A) (idx : Z) : M S L :=
  if ht_hash_ent t then hb_call (ht_arg t) idx
  else if negb (ht_pgents t =? 0)
  then hb_entry2 (ht_arg t) (idx / u64 (ht_pgents t)) (idx mod u64 (ht_pgents t))
  else mret (hb_entry (ht_arg t) idx).

Definition bad_key (key : Z) : bool := (key =? 0) || (key =? TOMB).

(** [!skip || !skip(e->val, arg)] *)
Definition not_skipped (skip : option (Z → M S bool)) (v : Z) : M S bool :=
  match skip with
  | None => mret true
  | Some f => b ← f v; mret (negb b)
  end.

(** The probe loop of [hash_put_fn]: [inl r] returns [r] from the function,
    [inr (probe, e)] leaves the loop with these values of the two variables. *)
Fixpoint put_loop (t : hashtable A) (key : Z) (skip : option (Z → M S bool))
    (n : nat) (i probe : Z) (e : option L) : M S (Z + Z * option L) :=
  match n with
  | O => mret (inr (probe, e))
  | Datatypes.S n' =>
      let probe := probe_of key (ht_capacity t) i in
      e ← hash_ent t probe;
      en ← hb_read e;
      if (he_key en =? 0) || (he_key en =? TOMB) then mret (inr (probe, Some e))
      else if he_key en =? key then
        ns ← not_skipped skip (he_val en);
        if ns : bool then mret (inl (- E_INVAL))
        else put_loop t key skip n' (i + 1) probe (Some e)
      else put_loop t key skip n' (i + 1) probe (Some e)
  end.

(** Returns the result code, the value of [*val] and the table. *)
Definition hash_put_fn (t : hashtable A) (key val : Z) (val_fn : option (Z → Z → M S Z))
    (skip : option (Z → M S bool)) : M S (Z * Z * hashtable A) :=
  if bad_key key then mret (- E_INVAL, val, t)
  else if ht_size t =? ht_capacity t then mret (- E_NO_SPACE, val, t)
  else
    res ← put_loop t key skip (Z.to_nat (ht_capacity t)) 0 0 None;
    match res with
    | inl r => mret (r, val, t)
    | inr (_, None) => undef
    | inr (probe, Some e) =>
        en ← hb_read e;
        let oldkey := he_key en in
        t' ← (if negb (oldkey =? key)
              then c_assert ((oldkey =? 0) || (oldkey =? TOMB));;
                   mret (set_size t (s32 (ht_size t + 1)))
              else mret t);
        val' ← match val_fn with None => mret val | Some f => f probe val end;
        hb_write e (HashEntry key val');;
        mret (0, val', t')
    end.

Definition hash_put (t : hashtable A) (key val : Z) : M S (Z * hashtable A) :=
  '(r, _, t') ← hash_put_fn t key val None None; mret (r, t').

(** The probe loop of [hash_get_fn]; [Some v] is the value found. *)
Fixpoint get_loop (t : hashtable A) (key : Z) (skip : option (Z → M S bool))
    (n : nat) (i : Z) : M S (option Z) :=
  match n with
  | O => mret None
  | Datatypes.S n' =>
      e ← hash_ent t (probe_of key (ht_capacity t) i);
      en ← hb_read e;
      hit ← (if he_key en =? key then not_skipped skip (he_val en) else mret false);
      if hit : bool then mret (Some (he_val en))
      else if he_key en =? 0 then mret None
      else get_loop t key skip n' (i + 1)
  end.

(** Returns the result code and the value of [*val], which an error leaves as it was. *)
Definition hash_get_fn (t : hashtable A) (key val : Z) (skip : option (Z → M S bool)) :
    M S (Z * Z) :=
  if bad_key key then mret (- E_INVAL, val)
  else
    o ← get_loop t key skip (Z.to_nat (ht_capacity t)) 0;
    mret (match o with Some v => (0, v) | None => (- E_NOT_FOUND, val) end).

Definition hash_get (t : hashtable A) (key val : Z) : M S (Z * Z) :=
  hash_get_fn t key val None.

Fixpoint del_loop (t : hashtable A) (key : Z) (n : nat) (i : Z) : M S (Z * hashtable A) :=
  match n with
  | O => mret (- E_NOT_FOUND, t)
  | Datatypes.S n' =>
      e ← hash_ent t (probe_of key (ht_capacity t) i);
      en ← hb_read e;
      if he_key en =? key then
        hb_write e (HashEntry TOMB 0);;
        mret (0, set_size t (s32 (ht_size t - 1)))
      else if he_key en =? 0 then mret (- E_NOT_FOUND, t)
      else del_loop t key n' (i + 1)
  end.

Definition hash_del (t : hashtable A) (key : Z) : M S (Z * hashtable A) :=
  if bad_key key then mret (- E_INVAL, t)
  else del_loop t key (Z.to_nat (ht_capacity t)) 0.

(** [memset(hash_ent(table, i), 0, sizeof(struct hashentry))] for each [i < n] *)
Definition clear_entries (t : hashtable A) (n : Z) : M S unit :=
  for_each (Z.to_nat n) 0 (λ i, e ← hash_ent t i; hb_write e (HashEntry 0 0)).

Definition hash_init (back : A) (n : Z) : M S (hashtable A) :=
  for_each (Z.to_nat n) 0 (λ i, hb_write (hb_entry back i) (HashEntry 0 0));;
  mret (HashTable back false n 0 0).

Definition hash_init2 (back : A) (n pgsize : Z) : M S (hashtable A) :=
  let t := HashTable back false n 0 (pgsize / 16) in
  clear_entries t n;; mret t.

Definition hash_init3 (arg : A) (n : Z) : M S (hashtable A) :=
  let t := HashTable arg true n 0 0 in
  clear_entries t n;; mret t.

(** [struct hashiter], without the pointer to its table. *)
Record hashiter := HashIter { hi_index : Z; hi_key : Z; hi_val : Z }.

Definition hashiter_init : hashiter := HashIter 0 0 0.

Definition hashiter_next (t : hashtable A) (it : hashiter) : M S (Z * hashiter) :=
  o ← for_loop (Z.to_nat (ht_capacity t - hi_index it)) (hi_index it) (λ i,
        e ← hash_ent t i;
        en ← hb_read e;
        mret (if negb (he_key en =? 0) && negb (he_key en =? TOMB)
              then Some (HashIter (i + 1) (he_key en) (he_val en)) else None));
  mret (match o with Some it' => (1, it') | None => (0, it) end).
End ops.

(** ** What the table relies on

    [hs_view s i] is slot [i] of the table's backing store in state [s].  Finding
    an entry may change the state (the kernel's callback walks a page tree) but
    not what the slots hold; [hs_frame] is whatever else the client guarantees. *)
Class HashStore {S A L : Type} `{HashBack S A L} (a : A) (cb : bool) (pg n : Z) := {
  hs_inv : S → Prop;
  hs_view : S → Z → hashentry;
  hs_at : S → L → Z → Prop;
  hs_frame : S → S → Prop;
  hs_frame_po :: PreOrder hs_frame;
  hs_ent : ∀ sz s i, hs_inv s → 0 ≤ i < n →
    wp (hash_ent (HashTable a cb n sz pg) i) s (λ l s',
      hs_inv s' ∧ hs_frame s s' ∧ (∀ j, 0 ≤ j < n → hs_view s' j = hs_view s j) ∧ hs_at s' l i);
  hs_read : ∀ s l i, hs_inv s → 0 ≤ i < n → hs_at s l i →
    wp (hb_read l) s (λ e s', s' = s ∧ e = hs_view s i);
  hs_write : ∀ s l i e, hs_inv s → 0 ≤ i < n → hs_at s l i →
    wp (hb_write l e) s (λ _ s', hs_inv s' ∧ hs_frame s s' ∧ hs_view s' i = e ∧
      ∀ j, 0 ≤ j < n → j ≠ i → hs_view s' j = hs_view s j);
}.

(** ** The table as a finite map *)

Definition liveb (e : hashentry) : bool := negb (bad_key (he_key e)).

(** The key-value pairs of the live slots, in slot order, and the map they form. *)
Definition slot_kv (f : Z → hashentry) (j : Z) : option (Z * Z) :=
  if liveb (f j) then Some (he_key (f j), he_val (f j)) else None.
Definition kvs (n : Z) (f : Z → hashentry) : list (Z * Z) := omap (slot_kv f) (seqZ 0 n).
Definition amap (n : Z) (f : Z → hashentry) : gmap Z Z := list_to_map (kvs n f).

(** Well-formed slots: a key sits in one slot only, and probing for it reaches
    that slot before any empty one (tombstones do not stop the search). *)
Record slots_wf (n : Z) (f : Z → hashentry) : Prop := {
  wf_unique : ∀ j j', 0 ≤ j < n → 0 ≤ j' < n → liveb (f j) = true →
    he_key (f j) = he_key (f j') → j = j';
  wf_reach : ∀ j, 0 ≤ j < n → liveb (f j) = true →
    ∃ i, 0 ≤ i < n ∧ probe_of (he_key (f j)) n i = j ∧
      ∀ i', 0 ≤ i' < i → he_key (f (probe_of (he_key (f j)) n i')) ≠ 0;
}.

Lemma bad_key_false key : bad_key key = false ↔ key ≠ 0 ∧ key ≠ TOMB.
Proof. unfold bad_key. rewrite orb_false_iff, !Z.eqb_neq. done. Qed.
Lemma liveb_true e : liveb e = true ↔ he_key e ≠ 0 ∧ he_key e ≠ TOMB.
Proof. unfold liveb. rewrite negb_true_iff. apply bad_key_false. Qed.
Lemma liveb_false e : liveb e = false ↔ he_key e = 0 ∨ he_key e = TOMB.
Proof. unfold liveb, bad_key. rewrite negb_false_iff, orb_true_iff, !Z.eqb_eq. done. Qed.

Lemma slot_kv_Some f j k v :
  slot_kv f j = Some (k, v) ↔ liveb (f j) = true ∧ f j = HashEntry k v.
Proof.
  unfold slot_kv. destruct (f j) as [k' v']. destruct (liveb _); split; [|by intros [_ [= -> ->]]|done|by intros [? _]].
  by intros [= -> ->].
Qed.

Lemma elem_of_kvs n f k v :
  (k, v) ∈ kvs n f ↔ ∃ j, 0 ≤ j < n ∧ liveb (f j) = true ∧ f j = HashEntry k v.
Proof.
  unfold kvs. rewrite list_elem_of_omap.
  setoid_rewrite slot_kv_Some. setoid_rewrite elem_of_seqZ. done.
Qed.

Lemma kvs_ext n f g : (∀ j, 0 ≤ j < n → f j = g j) → kvs n f = kvs n g.
Proof.
  intros Heq. unfold kvs. apply list_omap_ext, Forall_Forall2_diag, Forall_forall.
  intros j Hj%elem_of_seqZ. unfold slot_kv. by rewrite Heq by lia.
Qed.
Lemma amap_ext n f g : (∀ j, 0 ≤ j < n → f j = g j) → amap n f = amap n g.
Proof. intros Heq. unfold amap. by rewrite (kvs_ext n f g). Qed.
Lemma slots_wf_ext n f g : (∀ j, 0 ≤ j < n → f j = g j) → 0 < n < 2 ^ 64 →
  slots_wf n f → slots_wf n g.
Proof.
  intros Heq Hn [Hu Hr]. split.
  - intros j j' Hj Hj'. rewrite <- !Heq by done. by apply Hu.
  - intros j Hj. rewrite <- Heq by done. intros Hl. destruct (Hr j Hj Hl) as (i & Hi & Hp & Hz).
    exists i. split; [done|]. split; [done|]. intros i' Hi'.
    rewrite <- Heq; [by apply Hz|]. unfold probe_of. rewrite (u64_small n) by (unfold in_u64; lia).
    apply Z.mod_pos_bound. lia.
Qed.

(** Keys of the pairs are pairwise distinct as soon as slots with equal live keys are equal. *)
Lemma kvs_NoDup n f : slots_wf n f → NoDup (kvs n f).*1.
Proof.
  intros [Hu _]. unfold kvs.
  assert (∀ l : list Z, NoDup l → (∀ j, j ∈ l → 0 ≤ j < n) → NoDup (omap (slot_kv f) l).*1) as Hl.
  { induction l as [|j l IH]; intros Hnd Hin; [constructor|].
    apply NoDup_cons in Hnd as [Hj Hnd]. csimpl.
    assert (NoDup (omap (slot_kv f) l).*1) by (apply IH; [done|intros; apply Hin; by right]).
    destruct (slot_kv f j) as [[k v]|] eqn:Hkv; csimpl; [|done].
    apply NoDup_cons. split; [|done].
    intros ([k' v'] & Hk & (j' & Hj' & Heq)%list_elem_of_omap)%list_elem_of_fmap. simpl in Hk. subst k'.
    apply slot_kv_Some in Hkv as [Hlive Hf]. apply slot_kv_Some in Heq as [Hlive' Hf'].
    apply Hj. rewrite (Hu j j'); [done| | |done|by rewrite Hf, Hf']; apply Hin; [by left|by right]. }
  apply Hl; [apply NoDup_seqZ|]. intros j Hj%elem_of_seqZ. lia.
Qed.

Lemma amap_lookup n f k v :
  slots_wf n f →
  amap n f !! k = Some v ↔ ∃ j, 0 ≤ j < n ∧ liveb (f j) = true ∧ f j = HashEntry k v.
Proof.
  intros Hwf. unfold amap. rewrite <- elem_of_list_to_map by (by apply kvs_NoDup).
  apply elem_of_kvs.
Qed.
Lemma amap_lookup_None n f k :
  slots_wf n f → bad_key k = false →
  amap n f !! k = None ↔ ∀ j, 0 ≤ j < n → he_key (f j) ≠ k.
Proof.
  intros Hwf Hk%bad_key_false. split.
  - intros Hnone j Hj Heq. destruct (f j) as [k' v] eqn:Hf. simpl in *. subst k'.
    assert (amap n f !! k = Some v); [|congruence].
    apply amap_lookup; [done|]. exists j. rewrite Hf. split_and!; [lia..| |done].
    by apply liveb_true.
  - intros Hne. destruct (amap n f !! k) as [v|] eqn:Hs; [|done].
    apply amap_lookup in Hs as (j & Hj & _ & Hf); [|done].
    destruct (Hne j Hj). by rewrite Hf.
Qed.

(** A table whose map is smaller than its capacity has a slot that is not live. *)
Lemma free_slot n f :
  slots_wf n f → Z.of_nat (size (amap n f)) < n → ∃ j, 0 ≤ j < n ∧ liveb (f j) = false.
Proof.
  intros Hwf Hsz.
  destruct (decide (Exists (λ j, liveb (f j) = false) (seqZ 0 n))) as [Hex|Hall].
  - apply Exists_exists in Hex as (j & Hj%elem_of_seqZ & Hl). exists j. split; [lia|done].
  - exfalso. assert (length (kvs n f) = Z.to_nat n) as Hlen.
    { unfold kvs. rewrite <- (length_seqZ 0 n). apply not_Exists_Forall in Hall; [|apply _].
      induction Hall as [|j l Hj Hall IH]; [done|]. csimpl.
      apply not_false_iff_true in Hj.
      unfold slot_kv at 1. rewrite Hj. csimpl. by rewrite IH. }
    unfold amap in Hsz. rewrite map_size_list_to_map, Hlen in Hsz by (by apply kvs_NoDup). lia.
Qed.

(** ** Probe sequences *)

Section probes.
Context (n : Z) (Hn : 0 < n < 2 ^ 31).

Lemma probe_range key i : 0 ≤ probe_of key n i < n.
Proof using Hn.
  unfold probe_of. rewrite (u64_small n) by (unfold in_u64; lia). apply Z.mod_pos_bound. lia.
Qed.

(** With a capacity that divides [2^64] (in Corey always a power of two) the
    wrap-around of [hash2(..) + i] does not disturb the sequence: it visits every
    slot within [n] steps. *)
Lemma probe_cover key j : (n | 2 ^ 64) → 0 ≤ j < n → ∃ i, 0 ≤ i < n ∧ probe_of key n i = j.
Proof using Hn.
  intros Hdiv Hj. exists ((j - hash2 [key] LEV) mod n).
  split; [apply Z.mod_pos_bound; lia|].
  unfold probe_of. rewrite (u64_small n) by (unfold in_u64; lia). unfold u64.
  rewrite Z.mod_mod_divide by done.
  rewrite Zplus_mod_idemp_r. replace (_ + _) with j by lia. apply Z.mod_small. lia.
Qed.

(** A search that met neither the key nor an empty slot before position [i], and
    ends there, has shown that the key is nowhere in the table. *)
Lemma absent_from_probe f key i :
  slots_wf n f → bad_key key = false → 0 ≤ i ≤ n →
  (∀ i', 0 ≤ i' < i → he_key (f (probe_of key n i')) ≠ key) →
  (i = n ∨ he_key (f (probe_of key n i)) = 0) →
  ∀ j, 0 ≤ j < n → he_key (f j) ≠ key.
Proof using Hn.
  intros Hwf Hk%bad_key_false Hi Hbefore Hend j Hj Heq.
  destruct (wf_reach n f Hwf j Hj) as (i0 & Hi0 & Hp & Hz); [apply liveb_true; by rewrite Heq|].
  rewrite Heq in Hp, Hz. destruct (Z.lt_trichotomy i0 i) as [Hlt|[->|Hgt]].
  - apply (Hbefore i0); [lia|]. by rewrite Hp.
  - destruct Hend as [->|Hend]; [lia|]. rewrite Hp in Hend. lia.
  - destruct Hend as [->|Hend]; [lia|]. by apply (Hz i); [lia|].
Qed.

(** Writing a new key into the first free slot of its probe sequence. *)
Lemma slots_insert f f' key v i :
  slots_wf n f → bad_key key = false → 0 ≤ i < n →
  (∀ j, 0 ≤ j < n → he_key (f j) ≠ key) →
  liveb (f (probe_of key n i)) = false →
  (∀ i', 0 ≤ i' < i → he_key (f (probe_of key n i')) ≠ 0) →
  f' (probe_of key n i) = HashEntry key v →
  (∀ j, 0 ≤ j < n → j ≠ probe_of key n i → f' j = f j) →
  slots_wf n f' ∧ amap n f' = <[key := v]> (amap n f).
Proof using Hn.
  intros Hwf Hk Hi Habs Hfree Hbefore Hp Hother.
  set (p := probe_of key n i) in *. pose proof (probe_range key i) as Hpr. fold p in Hpr.
  assert (slots_wf n f') as Hwf'.
  { split.
    - intros j j' Hj Hj' Hl Heq.
      destruct (decide (j = p)) as [->|Hne], (decide (j' = p)) as [->|Hne']; [done| | |].
      + rewrite Hp, (Hother j') in Heq by done. by destruct (Habs j').
      + rewrite Hp, (Hother j) in Heq by done. by destruct (Habs j).
      + rewrite !Hother in * by assumption. by apply (wf_unique n f Hwf).
    - intros j Hj Hl. destruct (decide (j = p)) as [->|Hne].
      + rewrite Hp. exists i. split_and!; [lia..|done|]. intros i' Hi'. simpl.
        destruct (decide (probe_of key n i' = p)) as [->|Hne].
        * rewrite Hp. by apply bad_key_false in Hk as [? _].
        * rewrite Hother by (assumption || apply probe_range). by apply Hbefore.
      + rewrite Hother in Hl |- * by done.
        destruct (wf_reach n f Hwf j Hj Hl) as (i0 & Hi0 & Hp0 & Hz).
        exists i0. split_and!; [lia..|done|]. intros i' Hi'.
        destruct (decide (probe_of (he_key (f j)) n i' = p)) as [->|Hne'].
        * rewrite Hp. by apply bad_key_false in Hk as [? _].
        * rewrite Hother by (assumption || apply probe_range). by apply Hz. }
  split; [done|]. apply map_eq. intros k. apply option_eq. intros w.
  rewrite lookup_insert_Some, !amap_lookup by done. split.
  - intros (j & Hj & Hl & Hf). destruct (decide (j = p)) as [->|Hne].
    + rewrite Hp in Hf. left. by simplify_eq.
    + rewrite Hother in Hl, Hf by done. right. split; [|by exists j].
      intros <-. apply (Habs j Hj). by rewrite Hf.
  - intros [[<- <-]|[Hne (j & Hj & Hl & Hf)]].
    + exists p. rewrite Hp. split_and!; [lia..| |done]. by apply liveb_true, bad_key_false.
    + exists j. rewrite Hother; [done..|]. intros ->. congruence.
Qed.

(** Overwriting a live slot by a tombstone. *)
Lemma slots_delete f f' p key :
  slots_wf n f → bad_key key = false → 0 ≤ p < n → he_key (f p) = key →
  f' p = HashEntry TOMB 0 →
  (∀ j, 0 ≤ j < n → j ≠ p → f' j = f j) →
  slots_wf n f' ∧ amap n f' = delete key (amap n f).
Proof using Hn.
  intros Hwf Hk Hp Hkey Hp' Hother.
  assert (∀ j, 0 ≤ j < n → liveb (f' j) = true → j ≠ p) as Hnp.
  { intros j Hj Hl ->. rewrite Hp' in Hl. by apply liveb_true in Hl as [_ ?]. }
  assert (liveb (f p) = true) as Hlp by (apply liveb_true; rewrite Hkey; by apply bad_key_false).
  assert (slots_wf n f') as Hwf'.
  { split.
    - intros j j' Hj Hj' Hl Heq. pose proof (Hnp j Hj Hl).
      destruct (decide (j' = p)) as [->|Hne'].
      + rewrite Hp' in Heq. apply liveb_true in Hl as [_ ?]. done.
      + rewrite !Hother in * by assumption. by apply (wf_unique n f Hwf).
    - intros j Hj Hl. pose proof (Hnp j Hj Hl). rewrite Hother in Hl |- * by done.
      destruct (wf_reach n f Hwf j Hj Hl) as (i0 & Hi0 & Hp0 & Hz).
      exists i0. split_and!; [lia..|done|]. intros i' Hi'.
      destruct (decide (probe_of (he_key (f j)) n i' = p)) as [->|Hne'].
      + by rewrite Hp'.
      + rewrite Hother by (assumption || apply probe_range). by apply Hz. }
  split; [done|]. apply map_eq. intros k. apply option_eq. intros w.
  rewrite lookup_delete_Some, !amap_lookup by done. split.
  - intros (j & Hj & Hl & Hf). pose proof (Hnp j Hj Hl). rewrite Hother in Hl, Hf by done.
    split; [|by exists j]. intros ->. apply (wf_unique n f Hwf j p) in Hl; [done..|].
    by rewrite Hf, Hkey.
  - intros [Hne (j & Hj & Hl & Hf)]. exists j. rewrite Hother; [done..|].
    intros ->. rewrite Hf in Hkey. simpl in Hkey. congruence.
Qed.
End probes.

(** ** The operations, against the interface *)

(** A search for [key] that takes the first slot without a key finds the tombstone at probe
    [i], before any slot that holds [key]. *)
Definition shadowed (n : Z) (f : Z → hashentry) (key i : Z) : Prop :=
  0 ≤ i < n ∧ he_key (f (probe_of key n i)) = TOMB ∧
  ∀ i', 0 ≤ i' < i → liveb (f (probe_of key n i')) = true ∧ he_key (f (probe_of key n i')) ≠ key.
Lemma not_shadowed n f key i0 :
  bad_key key = false → he_key (f (probe_of key n i0)) = key → 0 ≤ i0 < n →
  (∀ i', 0 ≤ i' < i0 → liveb (f (probe_of key n i')) = true) → ∀ i, ¬ shadowed n f key i.
Proof.
  intros [_ Hk]%bad_key_false Hkey Hi0 Hlive i (Hi & Ht & Hb). destruct (Z.lt_trichotomy i i0) as [Hlt|[->|Hgt]].
  - specialize (Hlive i ltac:(lia)). apply liveb_true in Hlive as [_ Hlive]. congruence.
  - congruence.
  - by destruct (Hb i0 ltac:(lia)).
Qed.

Section table.
Context {S A L : Type} `{HB : HashBack S A L} (a : A) (cb : bool) (pg n : Z).
Context `{HS : !HashStore a cb pg n} (Hn : 0 < n < 2 ^ 31).

Abbreviation tbl sz := (HashTable a cb n sz pg).

(** [s'] differs from [s] only by what finding entries may change. *)
Definition quiet (s s' : S) : Prop :=
  hs_inv s' ∧ hs_frame s s' ∧ ∀ j, 0 ≤ j < n → hs_view s' j = hs_view s j.

(** In state [s] the table [t] is well formed and represents the map [m]. *)
Definition hash_rep (s : S) (t : hashtable A) (m : gmap Z Z) : Prop :=
  t = tbl (Z.of_nat (size m)) ∧ hs_inv s ∧ slots_wf n (hs_view s) ∧ amap n (hs_view s) = m.

Lemma quiet_refl s : hs_inv s → quiet s s.
Proof. intros. split_and!; done. Qed.
Lemma quiet_trans s1 s2 s3 : quiet s1 s2 → quiet s2 s3 → quiet s1 s3.
Proof.
  intros (_ & Hf1 & Hv1) (Hi2 & Hf2 & Hv2). split_and!; [done|by etrans|].
  intros j Hj. by rewrite Hv2, Hv1.
Qed.
Lemma quiet_rep s s' t m : quiet s s' → hash_rep s t m → hash_rep s' t m.
Proof using Hn.
  intros (Hi & _ & Hv) (-> & _ & Hwf & Hm). split_and!; [done|done| |].
  - eapply slots_wf_ext; [|lia|exact Hwf]. intros j Hj. by rewrite Hv.
  - rewrite <- Hm. by apply amap_ext.
Qed.

(** Finding slot [i] and reading it. *)
Lemma wp_slot {B} sz i (k : L → hashentry → M S B) s Q :
  hs_inv s → 0 ≤ i < n →
  (∀ l s', quiet s s' → hs_at s' l i → wp (k l (hs_view s i)) s' Q) →
  wp (e ← hash_ent (tbl sz) i; en ← hb_read e; k e en) s Q.
Proof using HS.
  intros Hi Hr Hk. apply wp_bind.
  eapply wp_mono; [by apply hs_ent|]. intros l s' (Hi' & Hf & Hv & Hat).
  apply wp_bind. eapply wp_mono; [by eapply hs_read|]. intros en s'' [-> ->].
  rewrite Hv by done. by apply Hk.
Qed.

Lemma get_loop_spec key sz m i s :
  hs_inv s → slots_wf n (hs_view s) → bad_key key = false →
  0 ≤ i → i + Z.of_nat m = n →
  (∀ i', 0 ≤ i' < i → he_key (hs_view s (probe_of key n i')) ≠ key) →
  wp (get_loop (tbl sz) key None m i) s (λ o s', quiet s s' ∧
    amap n (hs_view s) !! key = o).
Proof using Hn.
  intros Hi Hwf Hk. revert i s Hi Hwf.
  induction m as [|m IH]; intros i s Hinv Hwf Hi Him Hbefore; simpl.
  - apply wp_ret. split; [by apply quiet_refl|]. apply amap_lookup_None; [done..|].
    eapply (absent_from_probe n Hn _ key i); eauto; lia.
  - apply wp_slot; [done|by apply probe_range|]. intros l s' Hq _.
    pose proof (probe_range n Hn key i) as Hpr.
    destruct (Z.eqb_spec (he_key (hs_view s (probe_of key n i))) key) as [Heq|Hne].
    + wp_pure. split; [done|]. apply amap_lookup; [done|].
      eexists. split; [exact Hpr|]. destruct (hs_view s _) as [k v]. simpl in *. subst k.
      split; [|done]. by apply liveb_true, bad_key_false.
    + wp_pure. destruct (Z.eqb_spec (he_key (hs_view s (probe_of key n i))) 0) as [Hz|Hnz].
      * apply wp_ret. split; [done|]. apply amap_lookup_None; [done..|].
        eapply (absent_from_probe n Hn _ key i); eauto; lia.
      * pose proof Hq as (Hinv' & _ & Hv).
        eapply wp_mono; [apply IH; [done| |lia|lia|]|].
        -- eapply slots_wf_ext; [|lia|exact Hwf]. intros j Hj. by rewrite Hv.
        -- intros i' Hi'. rewrite Hv by (by apply probe_range).
           destruct (decide (i' = i)) as [->|]; [done|]. apply Hbefore. lia.
        -- intros o s'' [Hq' <-]. split; [by eapply quiet_trans|].
           by rewrite (amap_ext n (hs_view s') (hs_view s)).
Qed.

(** The probe loop of [hash_put_fn] stops at the key or at the first slot that is
    not live; [cover] is the only use of the capacity dividing [2^64]. *)
Lemma put_loop_spec key sz m i probe e s :
  (n | 2 ^ 64) →
  hs_inv s → slots_wf n (hs_view s) → bad_key key = false →
  (∃ j, 0 ≤ j < n ∧ liveb (hs_view s j) = false) →
  0 ≤ i → i + Z.of_nat m = n →
  (∀ i', 0 ≤ i' < i → liveb (hs_view s (probe_of key n i')) = true ∧
     he_key (hs_view s (probe_of key n i')) ≠ key) →
  wp (put_loop (tbl sz) key None m i probe e) s (λ res s', quiet s s' ∧
    match res with
    | inl r => r = - E_INVAL ∧ ∃ i0, 0 ≤ i0 < n ∧ he_key (hs_view s (probe_of key n i0)) = key ∧
        ∀ i', 0 ≤ i' < i0 → liveb (hs_view s (probe_of key n i')) = true
    | inr (_, None) => False
    | inr (p, Some l) => ∃ i0, 0 ≤ i0 < n ∧ p = probe_of key n i0 ∧ hs_at s' l p ∧
        liveb (hs_view s p) = false ∧
        ∀ i', 0 ≤ i' < i0 → liveb (hs_view s (probe_of key n i')) = true ∧
          he_key (hs_view s (probe_of key n i')) ≠ key
    end).
Proof using Hn.
  intros Hdiv Hinv Hwf Hk Hfree. revert i probe e s Hinv Hwf Hfree.
  induction m as [|m IH]; intros i probe e s Hinv Hwf Hfree Hi Him Hbefore; simpl.
  - exfalso. destruct Hfree as (j & Hj & Hl).
    destruct (probe_cover n Hn key j Hdiv Hj) as (i' & Hi' & Hp).
    destruct (Hbefore i') as [Hl' _]; [lia|]. rewrite Hp in Hl'. congruence.
  - apply wp_slot; [done|by apply probe_range|]. intros l s' Hq Hat.
    pose proof (probe_range n Hn key i) as Hpr.
    destruct (bad_key (he_key (hs_view s (probe_of key n i)))) eqn:Hbad; unfold bad_key in Hbad;
      rewrite Hbad.
    { apply wp_ret. split; [done|]. exists i. split_and!; try done; try lia.
      unfold liveb, bad_key. by rewrite Hbad. }
    assert (liveb (hs_view s (probe_of key n i)) = true) as Hlive
      by (unfold liveb, bad_key; by rewrite Hbad).
    destruct (Z.eqb_spec (he_key (hs_view s (probe_of key n i))) key) as [Heq|Hne].
    + wp_pure. split; [done|]. split; [done|]. exists i. split_and!; [lia..|done|].
      intros i' Hi'. by apply Hbefore.
    + pose proof Hq as (Hinv' & _ & Hv).
      eapply wp_mono; [apply IH; [done| | |lia|lia|]|].
      * eapply slots_wf_ext; [|lia|exact Hwf]. intros j Hj. by rewrite Hv.
      * destruct Hfree as (j & Hj & Hl). exists j. by rewrite Hv.
      * intros i' Hi'. rewrite Hv by (by apply probe_range).
        destruct (decide (i' = i)) as [->|]; [done|]. apply Hbefore. lia.
      * intros res s'' [Hq' Hres]. split; [by eapply quiet_trans|].
        destruct res as [r|[p [l'|]]]; [| |done].
        -- destruct Hres as (-> & i0 & Hi0 & Hkey & Hb'). split; [done|]. exists i0.
           rewrite Hv in Hkey by (by apply probe_range). split_and!; [lia..|done|].
           intros i' Hi'. rewrite <- Hv by (by apply probe_range). by apply Hb'.
        -- destruct Hres as (i0 & Hi0 & -> & Hat' & Hl' & Hb').
           pose proof (probe_range n Hn key i0). rewrite Hv in Hl' by done.
           exists i0. split_and!; try done; try lia. intros i' Hi'.
           rewrite <- Hv by (by apply probe_range). by apply Hb'.
Qed.

Lemma del_loop_spec key sz m i s :
  hs_inv s → slots_wf n (hs_view s) → bad_key key = false →
  0 ≤ i → i + Z.of_nat m = n →
  (∀ i', 0 ≤ i' < i → he_key (hs_view s (probe_of key n i')) ≠ key) →
  wp (del_loop (tbl sz) key m i) s (λ '(r, t) s',
    hs_inv s' ∧ hs_frame s s' ∧ slots_wf n (hs_view s') ∧
    amap n (hs_view s') = delete key (amap n (hs_view s)) ∧
    match amap n (hs_view s) !! key with
    | Some _ => r = 0 ∧ t = tbl (s32 (sz - 1))
    | None => r = - E_NOT_FOUND ∧ t = tbl sz
    end).
Proof using Hn.
  intros Hi Hwf Hk. revert i s Hi Hwf.
  assert (∀ s s', quiet s s' → slots_wf n (hs_view s) →
    (∀ j, 0 ≤ j < n → he_key (hs_view s j) ≠ key) →
    hs_inv s' ∧ hs_frame s s' ∧ slots_wf n (hs_view s') ∧
    amap n (hs_view s') = delete key (amap n (hs_view s)) ∧ amap n (hs_view s) !! key = None)
    as Habsent.
  { intros s s' (Hinv' & Hf & Hv) Hwf Habs.
    assert (amap n (hs_view s) !! key = None) by (by apply amap_lookup_None).
    split_and!; [done|done| | |done].
    - eapply slots_wf_ext; [|lia|exact Hwf]. intros j Hj. by rewrite Hv.
    - rewrite delete_id by done. by apply amap_ext. }
  induction m as [|m IH]; intros i s Hinv Hwf Hi Him Hbefore; simpl.
  - apply wp_ret. destruct (Habsent s s) as (?&?&?&?&Hnone); [by apply quiet_refl|done| |].
    { eapply (absent_from_probe n Hn _ key i); eauto; lia. }
    by rewrite Hnone.
  - apply wp_slot; [done|by apply probe_range|]. intros l s' Hq Hat.
    pose proof (probe_range n Hn key i) as Hpr. pose proof Hq as (Hinv' & Hf & Hv).
    destruct (Z.eqb_spec (he_key (hs_view s (probe_of key n i))) key) as [Heq|Hne].
    + wp_pure. eapply wp_mono; [by eapply hs_write|]. intros [] s'' (Hinv'' & Hf' & Hw & Ho).
      wp_pure. destruct (slots_delete n Hn (hs_view s) (hs_view s'') (probe_of key n i) key)
        as [Hwf' Hdel]; [done..| |].
      { intros j Hj Hjp. by rewrite Ho, Hv. }
      split_and!; [done|by etrans|done|done|].
      destruct (amap n (hs_view s) !! key) eqn:Hlk; [done|].
      by apply (proj1 (amap_lookup_None n _ key Hwf Hk) Hlk _ Hpr) in Heq.
    + destruct (Z.eqb_spec (he_key (hs_view s (probe_of key n i))) 0) as [Hz|Hnz].
      * apply wp_ret. destruct (Habsent s s') as (?&?&?&?&Hnone); [done|done| |].
        { eapply (absent_from_probe n Hn _ key i); eauto; lia. }
        by rewrite Hnone.
      * eapply wp_mono; [apply IH; [done| |lia|lia|]|].
        -- eapply slots_wf_ext; [|lia|exact Hwf]. intros j Hj. by rewrite Hv.
        -- intros i' Hi'. rewrite Hv by (by apply probe_range).
           destruct (decide (i' = i)) as [->|]; [done|]. apply Hbefore. lia.
        -- assert (amap n (hs_view s') = amap n (hs_view s)) as -> by (by apply amap_ext).
           intros [r t] s'' (?&?&?&?&?). split_and!; [done|by etrans|done..].
Qed.

Lemma rep_size_le s t m : hash_rep s t m → Z.of_nat (size m) ≤ n.
Proof using Hn.
  intros (_ & _ & Hwf & <-). unfold amap. rewrite map_size_list_to_map by (by apply kvs_NoDup).
  unfold kvs. pose proof (omap_length_le (slot_kv (hs_view s)) (seqZ 0 n)) as Hlen.
  rewrite length_seqZ in Hlen. lia.
Qed.

Lemma hash_get_spec s t m key v0 :
  hash_rep s t m →
  wp (hash_get t key v0) s (λ '(r, v) s', hash_rep s' t m ∧ hs_frame s s' ∧
    (r, v) = if bad_key key then (- E_INVAL, v0)
             else match m !! key with Some v' => (0, v') | None => (- E_NOT_FOUND, v0) end).
Proof using Hn.
  intros Hrep. pose proof Hrep as (-> & Hinv & Hwf & Hm). unfold hash_get, hash_get_fn.
  destruct (bad_key key) eqn:Hk; [by wp_pure|]. simpl ht_capacity.
  apply wp_bind. eapply wp_mono; [apply get_loop_spec; [done|done|done|lia|lia|]|].
  { intros i' Hi'. lia. }
  intros o s' [Hq Ho]. wp_pure. rewrite Hm in Ho. subst o.
  destruct (m !! key); (split; [by eapply quiet_rep|split; [by destruct Hq as (_&?&_)|done]]).
Qed.

(** [hash_get] on a well-formed table is lookup in the represented map: it
    returns 0 and the value for a present key, [-E_NOT_FOUND] for an absent one
    and [-E_INVAL] for the two reserved keys, leaves [*val] alone on an error and
    leaves the table as it was. *)
Theorem hash_get_refines s t m key v0 :
  hash_rep s t m →
  wp (hash_get t key v0) s (λ '(r, v) s', hash_rep s' t m ∧ hs_frame s s' ∧
    (r, v) = if bad_key key then (- E_INVAL, v0)
             else match m !! key with Some v' => (0, v') | None => (- E_NOT_FOUND, v0) end).
Proof using Hn. exact (hash_get_spec s t m key v0). Qed.

Lemma hash_put_spec s t m key v :
  (n | 2 ^ 64) → hash_rep s t m →
  wp (hash_put t key v) s (λ '(r, t') s', hs_frame s s' ∧
    if bad_key key then r = - E_INVAL ∧ hash_rep s' t' m
    else if Z.of_nat (size m) =? n then r = - E_NO_SPACE ∧ hash_rep s' t' m
    else match m !! key with
         | None => r = 0 ∧ hash_rep s' t' (<[key := v]> m)
         | Some _ =>
             (∀ i, ¬ shadowed n (hs_view s) key i) ∧ r = - E_INVAL ∧ hash_rep s' t' m ∨
             ∃ i, shadowed n (hs_view s) key i ∧ r = 0 ∧ t' = tbl (Z.of_nat (size m) + 1) ∧ hs_inv s' ∧
               hs_view s' (probe_of key n i) = HashEntry key v ∧
               ∀ j, 0 ≤ j < n → j ≠ probe_of key n i → hs_view s' j = hs_view s j
         end).
Proof using Hn.
  intros Hdiv Hrep. pose proof (rep_size_le _ _ _ Hrep) as Hle.
  pose proof Hrep as (-> & Hinv & Hwf & Hm). unfold hash_put, hash_put_fn.
  destruct (bad_key key) eqn:Hk; [by wp_pure|].
  simpl ht_size. simpl ht_capacity. destruct (Z.eqb_spec (Z.of_nat (size m)) n) as [Hfull|Hroom].
  { by wp_pure. }
  do 2 apply wp_bind. eapply wp_mono; [apply put_loop_spec; try done; try lia|].
  { apply free_slot; [done|]. rewrite Hm. lia. }
  intros res s' [Hq Hres]. pose proof Hq as (Hinv' & Hf & Hv).
  destruct res as [r|[p [l|]]]; [| |done].
  - destruct Hres as (-> & i0 & Hi0 & Hkey & Hlive). wp_pure. split; [done|].
    destruct (m !! key) eqn:Hlk; [left; split; [by eapply not_shadowed|split; [done|by eapply quiet_rep]]|].
    rewrite <- Hm in Hlk. pose proof (probe_range n Hn key i0) as Hpr.
    by apply (proj1 (amap_lookup_None n _ key Hwf Hk) Hlk _ Hpr) in Hkey.
  - destruct Hres as (i0 & Hi0 & -> & Hat & Hfree & Hbefore).
    pose proof (probe_range n Hn key i0) as Hpr.
    wp_pure. eapply wp_mono; [by eapply hs_read|]. intros en s'' [-> ->].
    rewrite Hv by done. apply liveb_false in Hfree as Hfree'.
    apply bad_key_false in Hk as Hk'.
    destruct (Z.eqb_spec (he_key (hs_view s (probe_of key n i0))) key) as [Heq|Hne];
      [destruct Hk', Hfree'; congruence|].
    simpl negb. wp_pure. apply wp_assert; [by rewrite orb_true_iff, !Z.eqb_eq|].
    wp_pure. eapply wp_mono; [by eapply hs_write|]. intros [] s'' (Hinv'' & Hf' & Hw & Ho).
    wp_pure. split; [by etrans|]. destruct (m !! key) as [v'|] eqn:Hlk.
    + right. exists i0. destruct Hfree' as [Hz|Ht].
      * exfalso. rewrite <- Hm in Hlk. apply amap_lookup in Hlk as (j & Hj & Hl & Hfj); [|done].
        eapply (absent_from_probe n Hn (hs_view s) key i0) in Hj; eauto; [by rewrite Hfj in Hj|lia|].
        intros i' Hi'. by apply Hbefore.
      * split; [done|]. split; [done|]. split; [|split_and!; [done|done|intros j Hj Hjp; by rewrite Ho, Hv]].
        unfold set_size. simpl. f_equal. unfold s32. rewrite Z.mod_small by lia. lia.
    + split; [done|]. rewrite <- Hm in Hlk.
      destruct (slots_insert n Hn (hs_view s) (hs_view s'') key v i0) as [Hwf' Hins]; try done.
      * by apply amap_lookup_None.
      * intros i' Hi'. destruct (Hbefore i' Hi') as [Hl _]. by apply liveb_true in Hl as [? _].
      * intros j Hj Hjp. by rewrite Ho, Hv.
      * rewrite Hm in Hins, Hlk. split_and!; try done.
        rewrite map_size_insert_None by done. unfold set_size. simpl. f_equal. unfold s32.
        rewrite Z.mod_small by lia. lia.
Qed.


Lemma hash_del_spec s t m key :
  hash_rep s t m →
  wp (hash_del t key) s (λ '(r, t') s', hs_frame s s' ∧
    if bad_key key then r = - E_INVAL ∧ hash_rep s' t' m
    else hash_rep s' t' (delete key m) ∧
         r = if decide (is_Some (m !! key)) then 0 else - E_NOT_FOUND).
Proof using Hn.
  intros Hrep. pose proof (rep_size_le _ _ _ Hrep) as Hle.
  pose proof Hrep as (-> & Hinv & Hwf & Hm). unfold hash_del.
  destruct (bad_key key) eqn:Hk; [by wp_pure|]. simpl ht_capacity.
  eapply wp_mono; [apply del_loop_spec; [done|done|done|lia|lia|]|].
  { intros i' Hi'. lia. }
  intros [r t'] s' (Hinv' & Hf & Hwf' & Hdel & Hr). rewrite Hm in Hdel, Hr.
  split; [done|]. destruct (m !! key) as [v|] eqn:Hlk; destruct Hr as [-> ->].
  - assert (size m ≠ 0%nat). { intros Hz%map_size_empty_inv. by rewrite Hz, lookup_empty in Hlk. }
    rewrite decide_True by done. split; [|done]. split_and!; try done.
    rewrite map_size_delete_Some by done. f_equal. unfold s32. rewrite Z.mod_small by lia. lia.
  - rewrite decide_False by (by intros [??]). split; [|done].
    rewrite delete_id in Hdel |- * by done. by split_and!.
Qed.

(** C19: [hash_del] on a well-formed table deletes the key from the represented
    map and reports [-E_NOT_FOUND] when there is nothing to delete. *)
Theorem hash_del_refines s t m key :
  hash_rep s t m →
  wp (hash_del t key) s (λ '(r, t') s', hs_frame s s' ∧
    if bad_key key then r = - E_INVAL ∧ hash_rep s' t' m
    else hash_rep s' t' (delete key m) ∧
         r = if decide (is_Some (m !! key)) then 0 else - E_NOT_FOUND).
Proof using Hn. exact (hash_del_spec s t m key). Qed.

(** [for (i = 0; i < n; i++) memset(hash_ent(table, i), 0, ..)] empties the map. *)
Lemma clear_entries_spec s sz :
  hs_inv s →
  wp (clear_entries (tbl sz) n) s (λ _ s', hs_frame s s' ∧ hash_rep s' (tbl 0) ∅).
Proof using Hn.
  intros Hinv. unfold clear_entries.
  apply (wp_for_each (λ i s', hs_inv s' ∧ hs_frame s s' ∧
    ∀ j, 0 ≤ j < i → hs_view s' j = HashEntry 0 0)).
  - split_and!; [done|done|]. intros j Hj. lia.
  - intros i s' Hi (Hinv' & Hf & Hz). apply wp_bind.
    eapply wp_mono; [apply hs_ent; [done|lia]|]. intros l s1 (Hinv1 & Hf1 & Hv1 & Hat).
    eapply wp_mono; [apply (hs_write s1 l i); [done|lia|done]|].
    intros [] s2 (Hinv2 & Hf2 & Hw & Ho). split_and!; [done|by rewrite Hf, Hf1|].
    intros j Hj. destruct (decide (j = i)) as [->|Hne]; [done|].
    rewrite Ho, Hv1 by lia. apply Hz. lia.
  - rewrite Z.add_0_l, Z2Nat.id by lia. intros s' (Hinv' & Hf & Hz). split; [done|].
    assert (kvs n (hs_view s') = []) as Hk.
    { destruct (kvs n (hs_view s')) as [|[k v] l] eqn:Hk; [done|].
      assert ((k, v) ∈ kvs n (hs_view s')) as (j & Hj & Hl & _)%elem_of_kvs by (rewrite Hk; by left).
      by rewrite Hz in Hl. }
    split_and!; [done|done| |by unfold amap; rewrite Hk].
    split; intros j Hj; intros; by rewrite Hz in *.
Qed.
End table.

(** ** Iteration *)

(** [while (hashiter_next(&iter)) body]: the pairs the loop sees, in order. *)
Fixpoint hash_iter_all {S A L} `{HashBack S A L} (fuel : nat) (t : hashtable A) (it : hashiter) :
    M S (list (Z * Z)) :=
  match fuel with
  | O => crash NoFuel
  | Datatypes.S fuel' =>
      '(more, it') ← hashiter_next t it;
      if more =? 0 then mret []
      else l ← hash_iter_all fuel' t it'; mret ((hi_key it', hi_val it') :: l)
  end.

Section iteration.
Context {S A L : Type} `{HB : HashBack S A L} (a : A) (cb : bool) (pg n : Z).
Context `{HS : !HashStore a cb pg n} (Hn : 0 < n < 2 ^ 31).
Abbreviation tbl sz := (HashTable a cb n sz pg).

(** One step: skip the slots that are not live, stop at the first live one. *)
Lemma hashiter_next_spec sz it s :
  hs_inv s → 0 ≤ hi_index it ≤ n →
  wp (hashiter_next (tbl sz) it) s (λ '(more, it') s', quiet a cb pg n s s' ∧
    let rest i := omap (slot_kv (hs_view s)) (seqZ i (n - i)) in
    if more =? 0 then rest (hi_index it) = []
    else hi_index it < hi_index it' ≤ n ∧
         rest (hi_index it) = (hi_key it', hi_val it') :: rest (hi_index it')).
Proof using Hn.
  intros Hinv Hi. unfold hashiter_next. apply wp_bind. simpl ht_capacity.
  set (rest i := omap (slot_kv (hs_view s)) (seqZ i (n - i))).
  assert (∀ i, i < n → rest i = match slot_kv (hs_view s) i with
    Some p => p :: rest (i + 1) | None => rest (i + 1) end) as Hrest.
  { intros i Hlt. unfold rest. rewrite seqZ_cons by lia. csimpl.
    replace (Z.pred (n - i)) with (n - (i + 1)) by lia. by rewrite <- Z.add_1_r. }
  apply (wp_for_loop (λ i s', quiet a cb pg n s s' ∧ 0 ≤ i ∧ rest (hi_index it) = rest i)
    (λ it' s', quiet a cb pg n s s' ∧ hi_index it < hi_index it' ≤ n ∧
       rest (hi_index it) = (hi_key it', hi_val it') :: rest (hi_index it'))).
  - split_and!; [done..|lia|done].
  - intros i s' Hii (Hq & Hi0 & Heq). pose proof Hq as (Hinv' & _ & Hv).
    eapply (wp_slot a cb pg n); [done|lia|]. intros l s2 Hq2 _. wp_pure.
    rewrite Hv by lia. rewrite (Hrest i) in Heq by lia.
    assert (quiet a cb pg n s s2) as Hqq by (by eapply quiet_trans).
    unfold slot_kv, liveb, bad_key in Heq. rewrite negb_orb in Heq.
    destruct (negb (he_key (hs_view s i) =? 0) && negb (he_key (hs_view s i) =? TOMB));
      (split; [exact Hqq|split; [simpl; lia|done]]).
  - intros it' s' (Hq & Hidx & Heq). wp_pure. by split_and!.
  - intros s' (Hq & Hi0 & Heq). wp_pure. split; [done|]. change (rest (hi_index it) = []).
    rewrite Heq. unfold rest. by rewrite seqZ_nil by lia.
Qed.

Lemma hash_iter_all_spec sz fuel it s :
  hs_inv s → 0 ≤ hi_index it ≤ n → (Z.to_nat (n - hi_index it) < fuel)%nat →
  wp (hash_iter_all fuel (tbl sz) it) s (λ l s', quiet a cb pg n s s' ∧
    l = omap (slot_kv (hs_view s)) (seqZ (hi_index it) (n - hi_index it))).
Proof using Hn.
  revert it s. induction fuel as [|fuel IH]; intros it s Hinv Hi Hf; [lia|]. simpl.
  apply wp_bind. eapply wp_mono; [by apply hashiter_next_spec|].
  intros [more it'] s' (Hq & Hres). destruct (more =? 0).
  - apply wp_ret. split; [done|]. by rewrite Hres.
  - destruct Hres as [Hidx ->]. pose proof Hq as (Hinv' & _ & Hv).
    apply wp_bind. eapply wp_mono; [apply IH; [done|lia|lia]|].
    intros l s'' [Hq' ->]. apply wp_ret. split; [by eapply quiet_trans|]. f_equal.
    apply list_omap_ext, Forall_Forall2_diag, Forall_forall.
    intros j Hj%elem_of_seqZ. unfold slot_kv. by rewrite Hv by lia.
Qed.

(** the iterator visits every binding of the represented map exactly once:
    the loop [while (hashiter_next(&iter))] ends after at most [capacity + 1]
    calls and the pairs it sees are the bindings, without repetition. *)
Theorem hash_iter_complete s t m :
  hash_rep a cb pg n s t m →
  wp (hash_iter_all (Datatypes.S (Z.to_nat n)) t hashiter_init) s (λ l s',
    hash_rep a cb pg n s' t m ∧ hs_frame s s' ∧ NoDup l.*1 ∧ l ≡ₚ map_to_list m).
Proof using Hn.
  intros Hrep. pose proof Hrep as (-> & Hinv & Hwf & Hm).
  eapply wp_mono; [apply hash_iter_all_spec; simpl; [done|lia|lia]|].
  intros l s' [Hq ->]. simpl. rewrite Z.sub_0_r. fold (kvs n (hs_view s)).
  split; [by eapply quiet_rep|]. split; [by destruct Hq as (_&?&_)|].
  split; [by apply kvs_NoDup|]. rewrite <- Hm. unfold amap.
  symmetry. apply map_to_list_to_map. by apply kvs_NoDup.
Qed.
End iteration.

(** ** Two clients: a flat array and an array of pages

    The memory holds entries at 16-byte strides and, for [hash_init2], an array of
    page pointers at 8-byte strides.  ([hash_ent]'s callback is not used here; the
    kernel's is in kern/kern/map.c.) *)
Record hmem := HMem { hm_ents : gmap Z hashentry; hm_ptrs : gmap Z Z }.

#[export] Instance hmem_back : HashBack hmem Z Z := {
  hb_call _ _ := undef;
  hb_entry2 arg i j := p ← deref (λ h, hm_ptrs h !! (arg + 8 * i)); mret (p + 16 * j);
  hb_entry arg i := arg + 16 * i;
  hb_read l := deref (λ h, hm_ents h !! l);
  hb_write l e := deref (λ h, hm_ents h !! l);;
                  modify (λ h, HMem (<[l := e]> (hm_ents h)) (hm_ptrs h));
}.

Section flat.
Context (arg n : Z).

Definition hmem_slot (addr : Z → Z) (h : hmem) (i : Z) : hashentry :=
  default (HashEntry 0 0) (hm_ents h !! addr i).

Program Definition flat_store : HashStore (S := hmem) arg false 0 n := {|
  hs_inv h := ∀ i, 0 ≤ i < n → is_Some (hm_ents h !! (arg + 16 * i));
  hs_view := hmem_slot (λ i, arg + 16 * i);
  hs_at _ l i := l = arg + 16 * i;
  hs_frame h h' := hm_ptrs h' = hm_ptrs h ∧
    ∀ l, (∀ i, 0 ≤ i < n → l ≠ arg + 16 * i) → hm_ents h' !! l = hm_ents h !! l;
|}.
Next Obligation.
  split; [by intros h|]. intros h1 h2 h3 [E1 H1] [E2 H2].
  split; [congruence|]. intros l Hl. by rewrite H2, H1.
Qed.
Next Obligation. intros sz h i Hinv Hi. unfold hash_ent. simpl. by apply wp_ret. Qed.
Next Obligation.
  intros h l i Hinv Hi ->. destruct (Hinv i Hi) as [e He]. simpl.
  eapply wp_deref; [done|]. split; [done|]. unfold hmem_slot. by rewrite He.
Qed.
Next Obligation.
  intros h l i e Hinv Hi ->. destruct (Hinv i Hi) as [e0 He]. simpl. wp_pure.
  eapply wp_deref; [done|]. wp_pure. simpl. unfold hmem_slot. simpl. split_and!.
  - intros j Hj. rewrite lookup_insert. case_decide; [done|]. by apply Hinv.
  - done.
  - intros l Hl. rewrite lookup_insert_ne; [done|]. intros <-. by apply (Hl i).
  - by rewrite lookup_insert_eq.
  - intros j Hj Hne. rewrite lookup_insert_ne; [done|lia].
Qed.
End flat.

Section paged.
Context (arg n pg : Z) (Hpg : 0 < pg < 2 ^ 31) (ptr : Z → Z).
(** [ptr q] is the [q]-th page of entries; pages do not overlap. *)
Context (Hdisj : ∀ i j, 0 ≤ i < n → 0 ≤ j < n →
  ptr (i / pg) + 16 * (i mod pg) = ptr (j / pg) + 16 * (j mod pg) → i = j).

Program Definition paged_store : HashStore (S := hmem) arg false pg n := {|
  hs_inv h := ∀ i, 0 ≤ i < n →
    hm_ptrs h !! (arg + 8 * (i / pg)) = Some (ptr (i / pg)) ∧
    is_Some (hm_ents h !! (ptr (i / pg) + 16 * (i mod pg)));
  hs_view := hmem_slot (λ i, ptr (i / pg) + 16 * (i mod pg));
  hs_at _ l i := l = ptr (i / pg) + 16 * (i mod pg);
  hs_frame h h' := hm_ptrs h' = hm_ptrs h ∧
    ∀ l, (∀ i, 0 ≤ i < n → l ≠ ptr (i / pg) + 16 * (i mod pg)) → hm_ents h' !! l = hm_ents h !! l;
|}.
Next Obligation.
  split; [by intros h|]. intros h1 h2 h3 [E1 H1] [E2 H2].
  split; [congruence|]. intros l Hl. by rewrite H2, H1.
Qed.
Next Obligation.
  intros sz h i Hinv Hi. unfold hash_ent. simpl.
  destruct (Z.eqb_spec pg 0) as [|_]; [lia|]. simpl negb. cbv iota. simpl. wp_pure.
  rewrite (u64_small pg) by (unfold in_u64; lia). destruct (Hinv i Hi) as [Hp _].
  eapply wp_deref; [done|]. by wp_pure.
Qed.
Next Obligation.
  intros h l i Hinv Hi ->. destruct (Hinv i Hi) as [_ [e He]]. simpl.
  eapply wp_deref; [done|]. split; [done|]. unfold hmem_slot. by rewrite He.
Qed.
Next Obligation.
  intros h l i e Hinv Hi ->. destruct (Hinv i Hi) as [Hp [e0 He]]. simpl. wp_pure.
  eapply wp_deref; [done|]. wp_pure. simpl. unfold hmem_slot. simpl. split_and!.
  - intros j Hj. destruct (Hinv j Hj) as [Hpj Hej]. split; [done|].
    rewrite lookup_insert. by case_decide.
  - done.
  - intros l Hl. rewrite lookup_insert_ne; [done|]. intros <-. by apply (Hl i).
  - by rewrite lookup_insert_eq.
  - intros j Hj Hne. rewrite lookup_insert_ne; [done|]. intros Heq. by apply Hdisj in Heq.
Qed.
End paged.

(** ** Initialisation *)

(** the three initialisers produce a well-formed table that represents the
    empty map, for the flat array, the array of pages and the callback. *)
Theorem hash_init_empty {S A L : Type} `{HB : HashBack S A L} (arg : A) (n : Z) (s : S) :
  0 < n < 2 ^ 31 →
  (∀ HS : HashStore arg false 0 n, hs_inv s →
     wp (hash_init arg n) s (λ t s', hash_rep arg false 0 n s' t ∅)) ∧
  (∀ pgsize, ∀ HS : HashStore arg false (pgsize / 16) n, hs_inv s →
     wp (hash_init2 arg n pgsize) s (λ t s', hash_rep arg false (pgsize / 16) n s' t ∅)) ∧
  (∀ HS : HashStore arg true 0 n, hs_inv s →
     wp (hash_init3 arg n) s (λ t s', hash_rep arg true 0 n s' t ∅)).
Proof.
  intros Hn. split_and!.
  - intros HS Hinv. unfold hash_init.
    change (λ i, hb_write (hb_entry arg i) (HashEntry 0 0)) with
      (λ i, e ← hash_ent (HashTable arg false n 0 0) i; hb_write e (HashEntry 0 0)).
    fold (clear_entries (HashTable arg false n 0 0) n).
    apply wp_bind. eapply wp_mono; [by apply clear_entries_spec|].
    intros _ s' [_ Hrep]. by apply wp_ret.
  - intros pgsize HS Hinv. unfold hash_init2.
    apply wp_bind. eapply wp_mono; [by apply clear_entries_spec|].
    intros _ s' [_ Hrep]. by apply wp_ret.
  - intros HS Hinv. unfold hash_init3.
    apply wp_bind. eapply wp_mono; [by apply clear_entries_spec|].
    intros _ s' [_ Hrep]. by apply wp_ret.
Qed.

(** ** Deciding well-formedness of a concrete table *)

Definition slot_unique (n : Z) (f : Z → hashentry) (j : Z) : bool :=
  forallb (λ j', negb (he_key (f j) =? he_key (f j')) || (j =? j')) (seqZ 0 n).
Definition slot_reach (n : Z) (f : Z → hashentry) (j : Z) : bool :=
  existsb (λ i, (probe_of (he_key (f j)) n i =? j) &&
    forallb (λ i', negb (he_key (f (probe_of (he_key (f j)) n i')) =? 0)) (seqZ 0 i)) (seqZ 0 n).
Definition slots_wfb (n : Z) (f : Z → hashentry) : bool :=
  forallb (λ j, negb (liveb (f j)) || (slot_unique n f j && slot_reach n f j)) (seqZ 0 n).

Lemma existsb_seqZ (P : Z → bool) i n :
  existsb P (seqZ i n) = true → ∃ j, i ≤ j < i + n ∧ P j = true.
Proof.
  rewrite List.existsb_exists. intros (j & Hj%list_elem_of_In%elem_of_seqZ & HP). by exists j.
Qed.

Lemma slots_wfb_sound n f : slots_wfb n f = true → slots_wf n f.
Proof.
  unfold slots_wfb. intros Hall.
  assert (∀ j, 0 ≤ j < n → liveb (f j) = true → slot_unique n f j = true ∧ slot_reach n f j = true)
    as Hj.
  { intros j Hj Hl. apply forallb_seqZ with (x := j) in Hall; [|lia].
    rewrite Hl in Hall. by apply andb_prop in Hall. }
  split.
  - intros j j' Hjr Hj'r Hl Heq. destruct (Hj j Hjr Hl) as [Hu _].
    apply forallb_seqZ with (x := j') in Hu; [|lia]. rewrite Heq, Z.eqb_refl in Hu.
    by apply Z.eqb_eq.
  - intros j Hjr Hl. destruct (Hj j Hjr Hl) as [_ Hr].
    apply existsb_seqZ in Hr as (i & Hi & Hp). apply andb_prop in Hp as [Hp Hz].
    exists i. split; [lia|]. split; [by apply Z.eqb_eq|]. intros i' Hi'.
    apply forallb_seqZ with (x := i') in Hz; [|lia]. by apply negb_true_iff, Z.eqb_neq in Hz.
Qed.

(** ** A concrete table

    Capacity 4 at address 100.  Keys 1 and 3 both hash to slot 0; key 1 was put
    first and then deleted, so slot 0 is a tombstone and key 3 sits in slot 1. *)
Module Example.
Definition mem : hmem := HMem (list_to_map
  [(100, HashEntry TOMB 0); (116, HashEntry 3 30); (132, HashEntry 0 0); (148, HashEntry 0 0)]) ∅.
Definition tab : hashtable Z := HashTable 100 false 4 1 0.
Definition store : HashStore (S := hmem) 100 false 0 4 := flat_store 100 4.
#[global] Existing Instance store.

Lemma inv_mem : hs_inv (HashStore := store) mem.
Proof.
  intros i Hi. assert (i = 0 ∨ i = 1 ∨ i = 2 ∨ i = 3) as [-> | [-> | [-> | ->]]] by lia; by eexists.
Qed.
Lemma rep_mem : hash_rep 100 false 0 4 mem tab {[3 := 30]}.
Proof.
  split; [done|]. split; [exact inv_mem|]. split; [|by vm_compute].
  apply slots_wfb_sound. by vm_compute.
Qed.
End Example.

Lemma hash_get_refines_witness :
  ∃ s', hash_get Example.tab 3 0 Example.mem = Ret (0, 30) s'.
Proof.
  pose proof (hash_get_refines 100 false 0 4 ltac:(lia) Example.mem Example.tab {[3 := 30]} 3 0
    Example.rep_mem) as H.
  destruct (proj1 (wp_run _ _ _) H) as ([r v] & s' & Hrun & _ & _ & Hrv); clear H. exists s'. rewrite Hrun, Hrv. reflexivity.
Defined.


Lemma hash_del_refines_witness :
  ∃ t' s', hash_del Example.tab 3 Example.mem = Ret (0, t') s' ∧ hash_rep 100 false 0 4 s' t' ∅.
Proof.
  pose proof (hash_del_refines 100 false 0 4 ltac:(lia) Example.mem Example.tab {[3 := 30]} 3
    Example.rep_mem) as H.
  destruct (proj1 (wp_run _ _ _) H) as ([r t'] & s' & Hrun & _ & Hrep & ->); clear H. exists t', s'. exact (conj Hrun Hrep).
Defined.

Lemma hash_iter_complete_witness :
  ∃ s', hash_iter_all 5 Example.tab hashiter_init Example.mem = Ret [(3, 30)] s'.
Proof.
  pose proof (hash_iter_complete 100 false 0 4 ltac:(lia) Example.mem Example.tab {[3 := 30]}
    Example.rep_mem) as H.
  destruct (proj1 (wp_run _ _ _) H) as (l & s' & Hrun & _ & _ & _ & Hl); clear H.
  exists s'. change (Datatypes.S (Z.to_nat 4)) with 5%nat in Hrun. rewrite Hrun. f_equal.
  rewrite map_to_list_singleton in Hl. by apply Permutation_singleton_r in Hl.
Defined.

Lemma hash_init_empty_witness :
  ∃ t s', hash_init 100 4 Example.mem = Ret t s' ∧ hash_rep 100 false 0 4 s' t ∅.
Proof.
  destruct (hash_init_empty (S := hmem) 100 4 Example.mem ltac:(lia)) as [H _].
  specialize (H Example.store Example.inv_mem).
  destruct (proj1 (wp_run _ _ _) H) as (t & s' & Hrun & Hrep); clear H. exists t, s'. exact (conj Hrun Hrep).
Defined.
