(* ===== verification/Locks.v ===== *)
(** * Locks (kern/arch/amd64/spinlock.h, kern/arch/amd64/rwlock.h, lib/rwlock.c)

    Each lock is modelled at the granularity of its atomic instructions: the
    state is the lock's words and, for every CPU, the place in the code it has
    reached.  A step is one instruction of one CPU, in any interleaving; memory is
    sequentially consistent, which on x86 the [lock] prefixes of the acquiring
    instructions provide.  The safety theorems are invariants of all reachable
    states.

    [rw_read_lock] and the other [rw_] functions at the end of [Rw] are the same code run by
    one CPU alone, where a spin that nobody can end is a hang: this is the form in
    which the rest of the kernel model uses the locks. *)
From S2P Require Import Prelude Machine.

(** ** Spin locks *)

Module Spin.
(** [SLock] is about to execute the [xchgq], [SWait] is in the [pause] loop. *)
Inductive pc := SIdle | SLock | SWait | SHeld.
Record state := State { locked : Z; cpus : list pc }.

Inductive spin_step : state → state → Prop :=
| call s i : cpus s !! i = Some SIdle → spin_step s (State (locked s) (<[i := SLock]> (cpus s)))
(** [lock; xchgq]: 1 goes in, the old value decides. *)
| xchg_got s i : cpus s !! i = Some SLock → locked s = 0 →
    spin_step s (State 1 (<[i := SHeld]> (cpus s)))
| xchg_busy s i : cpus s !! i = Some SLock → locked s ≠ 0 →
    spin_step s (State 1 (<[i := SWait]> (cpus s)))
(** [pause; cmp $0, %0; jne 2b; jmp 1b] *)
| spin s i : cpus s !! i = Some SWait → locked s ≠ 0 → spin_step s s
| retry s i : cpus s !! i = Some SWait → locked s = 0 →
    spin_step s (State (locked s) (<[i := SLock]> (cpus s)))
| unlock s i : cpus s !! i = Some SHeld → spin_step s (State 0 (<[i := SIdle]> (cpus s))).

Definition spin_init (n : nat) : state := State 0 (replicate n SIdle).
Definition held (p : pc) : bool := match p with SHeld => true | _ => false end.

Definition inv (s : state) : Prop := locked s = countb held (cpus s) ∧ locked s ≤ 1.

Lemma spin_inv_init n : inv (spin_init n).
Proof. split; simpl; [by rewrite countb_replicate|lia]. Qed.

Lemma spin_inv_step s s' : inv s → spin_step s s' → inv s'.
Proof.
  intros [H1 H2] Hs. pose proof (countb_range held (cpus s)).
  destruct Hs as [s i Hi|s i Hi H0|s i Hi H0|s i Hi H0|s i Hi H0|s i Hi]; unfold inv in *; simpl;
    rewrite ?(countb_insert _ _ _ _ _ Hi); simpl; try lia.
  pose proof (countb_pos held _ _ _ Hi eq_refl). lia.
Qed.
End Spin.

(** a spin lock excludes: in every state reachable from an unlocked lock,
    however the instructions of the CPUs interleave, at most one CPU holds it, and
    the lock word is 0 exactly when nobody does. *)
Theorem spin_lock_exclusive n s :
  rtc Spin.spin_step (Spin.spin_init n) s →
  (∀ i j, Spin.cpus s !! i = Some Spin.SHeld → Spin.cpus s !! j = Some Spin.SHeld → i = j) ∧
  (Spin.locked s = 0 ↔ ∀ i, Spin.cpus s !! i ≠ Some Spin.SHeld).
Proof.
  intros Hr.
  assert (Hi : Spin.inv s).
  { eapply rtc_invariant; [apply Spin.spin_inv_step|apply Spin.spin_inv_init|exact Hr]. }
  destruct Hi as [H1 H2]. split.
  - intros i j Hi Hj. eapply (countb_unique Spin.held); try done. lia.
  - split.
    + intros H0 i Hi. pose proof (countb_pos Spin.held _ _ _ Hi eq_refl). lia.
    + intros Hno. rewrite H1. apply countb_none. intros i x Hi. destruct x; try done. by destruct (Hno i).
Qed.

Lemma spin_lock_exclusive_witness :
  ∃ s, rtc Spin.spin_step (Spin.spin_init 2) s ∧ Spin.cpus s = [Spin.SHeld; Spin.SWait] ∧ Spin.locked s = 1 ∧
       (Spin.locked s = 0 ↔ ∀ i, Spin.cpus s !! i ≠ Some Spin.SHeld).
Proof.
  set (s := Spin.State 1 [Spin.SHeld; Spin.SWait]).
  assert (Hr : rtc Spin.spin_step (Spin.spin_init 2) s).
  { eapply rtc_l; [apply (Spin.call _ 0); reflexivity|].
    eapply rtc_l; [apply (Spin.call _ 1); reflexivity|].
    eapply rtc_l; [apply (Spin.xchg_got _ 0); reflexivity|].
    apply rtc_once. exact (Spin.xchg_busy (Spin.State 1 [Spin.SHeld; Spin.SLock]) 1 eq_refl ltac:(discriminate)). }
  exists s. split; [exact Hr|]. split; [reflexivity|]. split; [reflexivity|].
  exact (proj2 (spin_lock_exclusive 2 s Hr)).
Defined.

(** ** Recursive locks

    [rec_lock] lacks a semicolon after its [return], so that the compiler reads
    [if (r->owner == arch_cpu()) return spin_lock(&r->l);] and the model does too. *)

Module Rec.
Record reclock := Reclock { l : Z; owner : Z }.

Definition spin_lock : M reclock unit :=
  r ← get; if l r =? 0 then put (Reclock 1 (owner r)) else crash Hang.
Definition spin_unlock : M reclock unit := modify (λ r, Reclock 0 (owner r)).
Definition set_owner (o : Z) : M reclock unit := modify (λ r, Reclock (l r) o).

Definition rec_lock (cpu : Z) : M reclock unit :=
  r ← get;
  if owner r =? cpu then spin_lock else set_owner cpu.
Definition rec_unlock : M reclock unit := set_owner (u32 (-1));; spin_unlock.
Definition rec_init : reclock := Reclock 0 (u32 (-1)).

Lemma rec_lock_other cpu r : owner r ≠ cpu → rec_lock cpu r = Ret tt (Reclock (l r) cpu).
Proof. intros Hne. unfold rec_lock, mbind, m_bind, get. by rewrite (proj2 (Z.eqb_neq _ _) Hne). Qed.
Lemma rec_lock_owner cpu v :
  rec_lock cpu (Reclock v cpu) = if v =? 0 then Ret tt (Reclock 1 cpu) else Crash Hang.
Proof. unfold rec_lock, spin_lock, mbind, m_bind, get; simpl. rewrite Z.eqb_refl; simpl. by destruct (v =? 0). Qed.
End Rec.

(** [rec_lock] gives no exclusion: after [rec_init] two different CPUs
    acquire the lock one after the other without a release in between, and
    neither acquisition takes the spin lock; while one CPU that acquires it three times,
    which a recursive lock allows, spins for ever. *)
Theorem rec_lock_not_exclusive (c1 c2 : Z) :
  0 ≤ c1 < JOS_NCPU → 0 ≤ c2 < JOS_NCPU → c1 ≠ c2 →
  (Rec.rec_lock c1;; Rec.rec_lock c2) Rec.rec_init = Ret tt (Rec.Reclock 0 c2) ∧
  (Rec.rec_lock c1;; Rec.rec_lock c1;; Rec.rec_lock c1) Rec.rec_init = Crash Hang.
Proof.
  intros H1 H2 Hne.
  assert (Hn : Rec.owner Rec.rec_init ≠ c1).
  { change (Rec.owner Rec.rec_init) with (2 ^ 32 - 1). unfold JOS_NCPU in *. lia. }
  unfold mbind, m_bind. rewrite (Rec.rec_lock_other c1) by exact Hn. split; [by apply Rec.rec_lock_other|].
  rewrite Rec.rec_lock_owner; simpl. by rewrite Rec.rec_lock_owner.
Qed.

Lemma rec_lock_not_exclusive_witness :
  (Rec.rec_lock 0;; Rec.rec_lock 1) Rec.rec_init = Ret tt (Rec.Reclock 0 1) ∧
  (Rec.rec_lock 0;; Rec.rec_lock 0;; Rec.rec_lock 0) Rec.rec_init = Crash Hang.
Proof. apply (rec_lock_not_exclusive 0 1); [by vm_compute|by vm_compute|discriminate]. Defined.

(** ** Reader-writer locks *)

Module Rw.
Definition RW_LOCK_BIAS : Z := 0x01000000.

(** [struct rwlock]: a 32-bit word; [RW_LOCK_BIAS] minus the number of readers
    when there is no writer. *)
Definition rwlock := Z.

(** The places of a CPU in [rw_read_lock] and [rw_write_lock], named by the
    instruction about to be executed. *)
Inductive pc :=
| Idle
| RSub    (* lock; subl $1 *)
| RInc    (* 1: lock; incl *)
| RSpin   (* 2: cmpl $1 *)
| RDec    (* lock; decl *)
| RHeld   (* 3: *)
| WSub    (* lock; subl $RW_LOCK_BIAS *)
| WAdd    (* 1: lock; addl *)
| WSpin   (* 2: cmpl *)
| WSub2   (* lock; subl *)
| WHeld.  (* 3: *)

Record state := State { word : rwlock; cpus : list pc }.

(** CPU [i] goes to [p] and the word becomes [w]. *)
Definition goto (s : state) (i : nat) (p : pc) (w : Z) : state := State w (<[i := p]> (cpus s)).

Inductive rw_step : state → state → Prop :=
| call_read s i : cpus s !! i = Some Idle → rw_step s (goto s i RSub (word s))
| call_write s i : cpus s !! i = Some Idle → rw_step s (goto s i WSub (word s))
(** [subl] and [decl] set the sign flag from the result. *)
| read_got s i p : cpus s !! i = Some p → p = RSub ∨ p = RDec → 0 ≤ s32 (u32 (word s - 1)) →
    rw_step s (goto s i RHeld (u32 (word s - 1)))
| read_busy s i p : cpus s !! i = Some p → p = RSub ∨ p = RDec → s32 (u32 (word s - 1)) < 0 →
    rw_step s (goto s i RInc (u32 (word s - 1)))
| read_undo s i : cpus s !! i = Some RInc → rw_step s (goto s i RSpin (u32 (word s + 1)))
| read_spin s i : cpus s !! i = Some RSpin → s32 (u32 (word s - 1)) < 0 → rw_step s s
| read_retry s i : cpus s !! i = Some RSpin → 0 ≤ s32 (u32 (word s - 1)) → rw_step s (goto s i RDec (word s))
| write_got s i p : cpus s !! i = Some p → p = WSub ∨ p = WSub2 → u32 (word s - RW_LOCK_BIAS) = 0 →
    rw_step s (goto s i WHeld 0)
| write_busy s i p : cpus s !! i = Some p → p = WSub ∨ p = WSub2 → u32 (word s - RW_LOCK_BIAS) ≠ 0 →
    rw_step s (goto s i WAdd (u32 (word s - RW_LOCK_BIAS)))
| write_undo s i : cpus s !! i = Some WAdd → rw_step s (goto s i WSpin (u32 (word s + RW_LOCK_BIAS)))
| write_spin s i : cpus s !! i = Some WSpin → word s ≠ RW_LOCK_BIAS → rw_step s s
| write_retry s i : cpus s !! i = Some WSpin → word s = RW_LOCK_BIAS → rw_step s (goto s i WSub2 (word s))
| read_unlock s i : cpus s !! i = Some RHeld → rw_step s (goto s i Idle (u32 (word s + 1)))
| write_unlock s i : cpus s !! i = Some WHeld → rw_step s (goto s i Idle (u32 (word s + RW_LOCK_BIAS))).

Definition rw_start (n : nat) : state := State RW_LOCK_BIAS (replicate n Idle).

(** CPUs whose subtraction is in the word: holders and those about to undo it. *)
Definition rd (p : pc) : bool := match p with RInc | RHeld => true | _ => false end.
Definition wr (p : pc) : bool := match p with WAdd | WHeld => true | _ => false end.
Definition rheld (p : pc) : bool := match p with RHeld => true | _ => false end.
Definition wheld (p : pc) : bool := match p with WHeld => true | _ => false end.

Definition value (s : state) : Z :=
  RW_LOCK_BIAS - countb rd (cpus s) - RW_LOCK_BIAS * countb wr (cpus s).

Record inv (s : state) : Prop := Inv {
  i_cpus : Z.of_nat (length (cpus s)) ≤ JOS_NCPU;
  i_word : word s = u32 (value s);
  i_excl : 0 < countb wheld (cpus s) → countb wheld (cpus s) = 1 ∧ countb rheld (cpus s) = 0;
}.

Lemma rw_inv_init n : Z.of_nat n ≤ JOS_NCPU → inv (rw_start n).
Proof.
  intros Hn. split; simpl; [by rewrite length_replicate| |]; unfold value; simpl;
    rewrite ?countb_replicate by done; [reflexivity|lia].
Qed.

Lemma value_range s : inv s → - 2 ^ 30 < value s ≤ RW_LOCK_BIAS.
Proof.
  intros [Hn _ _]. pose proof (countb_range rd (cpus s)). pose proof (countb_range wr (cpus s)).
  unfold value, RW_LOCK_BIAS, JOS_NCPU in *. lia.
Qed.

(** What CPU [i] at [p] contributes to the word. *)
Definition weight (p : pc) : Z := Z.b2z (rd p) + RW_LOCK_BIAS * Z.b2z (wr p).

(** A CPU moving from [p] to [q] keeps the invariant if the word moves by the
    difference of their weights, and a CPU starts to hold the lock only when
    the counts allow it. *)
Lemma rw_goto_inv s i p q w :
  inv s → cpus s !! i = Some p → w = u32 (value s + (weight p - weight q)) →
  (rheld q = true → countb wr (cpus s) = 0) →
  (wheld q = true → countb rd (cpus s) = 0 ∧ countb wr (cpus s) = 0) → inv (goto s i q w).
Proof.
  intros [Hn Hw He] Hi -> Hrq Hwq.
  assert (Hrh : countb rheld (cpus s) ≤ countb rd (cpus s)) by (apply countb_mono; by intros []).
  assert (Hwh : countb wheld (cpus s) ≤ countb wr (cpus s)) by (apply countb_mono; by intros []).
  pose proof (countb_range rheld (cpus s)). pose proof (countb_range wheld (cpus s)).
  assert (Hpw := countb_pos wheld (cpus s) i p Hi). assert (Hpr := countb_pos rheld (cpus s) i p Hi).
  split; simpl; [by rewrite length_insert| |].
  - f_equal. unfold value, goto, weight; simpl. rewrite !(countb_insert _ _ _ _ _ Hi). lia.
  - rewrite !(countb_insert _ _ _ _ _ Hi).
    assert (Hp : rheld p && wheld p = false) by by destruct p.
    assert (Hq : rheld q && wheld q = false) by by destruct q.
    destruct (rheld q), (wheld q), (wheld p), (rheld p); try done; simpl; intuition lia.
Qed.

(** The counts in a state whose word allows an acquisition. *)
Lemma read_room s : inv s → 0 ≤ s32 (u32 (word s - 1)) → countb wr (cpus s) = 0.
Proof.
  intros Hinv. pose proof (value_range s Hinv) as Hv. rewrite (i_word s Hinv).
  rewrite <-Z.add_opp_r, u32_idemp_add, s32_u32 by (unfold RW_LOCK_BIAS in *; lia).
  pose proof (countb_range rd (cpus s)). pose proof (countb_range wr (cpus s)).
  unfold value, RW_LOCK_BIAS in *. lia.
Qed.
Lemma write_room s : inv s → u32 (word s - RW_LOCK_BIAS) = 0 → countb rd (cpus s) = 0 ∧ countb wr (cpus s) = 0.
Proof.
  intros Hinv. pose proof (value_range s Hinv) as Hv. rewrite (i_word s Hinv).
  rewrite <-Z.add_opp_r, u32_idemp_add. intros H0.
  assert (Hz : s32 (u32 (value s + - RW_LOCK_BIAS)) = 0) by by rewrite H0.
  rewrite s32_u32 in Hz by (unfold RW_LOCK_BIAS in *; lia).
  pose proof (countb_range rd (cpus s)). pose proof (countb_range wr (cpus s)).
  unfold value, RW_LOCK_BIAS in *. lia.
Qed.

Lemma rw_inv_step s s' : inv s → rw_step s s' → inv s'.
Proof.
  intros Hinv Hs. pose proof (i_word s Hinv) as Hw.
  destruct Hs as [s i Hi|s i Hi|s i p Hi Hp Hc|s i p Hi Hp Hc|s i Hi|s i Hi Hc|s i Hi Hc
                 |s i p Hi Hp Hc|s i p Hi Hp Hc|s i Hi|s i Hi Hc|s i Hi Hc|s i Hi|s i Hi]; try exact Hinv;
    eapply rw_goto_inv; try exact Hinv; try exact Hi; try discriminate.
  all: try (intros _; by apply read_room).
  all: try (intros _; by apply write_room).
  all: try rewrite <-Hc; rewrite Hw; rewrite <-?Z.add_opp_r, ?u32_idemp_add;
    try (destruct Hp as [-> | ->]); try (f_equal; unfold weight; simpl; lia).
  all: rewrite Z.add_0_r; unfold u32; by rewrite Z.mod_mod.
Qed.

(** The same code run by one CPU while no other touches the lock: a failed
    attempt is undone and then spins on a word that cannot change. *)
Definition rw_init : rwlock := RW_LOCK_BIAS.
Definition rw_read_lock {S} (w : rwlock) : M S rwlock :=
  if 0 <=? s32 (u32 (w - 1)) then mret (u32 (w - 1)) else crash Hang.
Definition rw_write_lock {S} (w : rwlock) : M S rwlock :=
  if u32 (w - RW_LOCK_BIAS) =? 0 then mret 0 else crash Hang.
Definition rw_read_unlock (w : rwlock) : rwlock := u32 (w + 1).
Definition rw_write_unlock (w : rwlock) : rwlock := u32 (w + RW_LOCK_BIAS).
Definition rw_read_can_lock (w : rwlock) : bool := 0 <? w.
Definition rw_write_can_lock (w : rwlock) : bool := w =? RW_LOCK_BIAS.

(** They are runs of the instructions above. *)
Lemma rw_read_lock_run {S} w w' (t t' : S) :
  rw_read_lock w t = Ret w' t' → rtc rw_step (State w [Idle]) (State w' [RHeld]).
Proof.
  unfold rw_read_lock. case_match eqn:Hc; [|done]. intros [= <- _]. apply Z.leb_le in Hc.
  eapply rtc_l; [by apply (call_read _ 0)|].
  apply rtc_once. exact (read_got (State w [RSub]) 0 RSub eq_refl (or_introl eq_refl) Hc).
Qed.
Lemma rw_write_lock_run {S} w w' (t t' : S) :
  rw_write_lock w t = Ret w' t' → rtc rw_step (State w [Idle]) (State w' [WHeld]).
Proof.
  unfold rw_write_lock. case_match eqn:Hc; [|done]. intros [= <- _]. apply Z.eqb_eq in Hc.
  eapply rtc_l; [by apply (call_write _ 0)|].
  apply rtc_once. exact (write_got (State w [WSub]) 0 WSub eq_refl (or_introl eq_refl) Hc).
Qed.
End Rw.

(** C39: [rw_read_lock], [rw_write_lock] and their unlocks, interleaved
    instruction by instruction on any number of CPUs the machine can have, keep
    writers apart from everyone else: no two writers hold the lock, no writer
    and reader do; and whenever no CPU is inside a lock operation or holds the
    lock, the word is back at [RW_LOCK_BIAS], so that a retreating CPU never
    leaves the lock busy. *)
Theorem rw_lock_exclusive (n : nat) (s : Rw.state) :
  Z.of_nat n ≤ JOS_NCPU → rtc Rw.rw_step (Rw.rw_start n) s →
  (∀ i j, Rw.cpus s !! i = Some Rw.WHeld → Rw.cpus s !! j = Some Rw.WHeld → i = j) ∧
  (∀ i j, Rw.cpus s !! i = Some Rw.WHeld → Rw.cpus s !! j ≠ Some Rw.RHeld) ∧
  ((∀ i p, Rw.cpus s !! i = Some p → p = Rw.Idle) → Rw.word s = Rw.RW_LOCK_BIAS).
Proof.
  intros Hn Hr.
  assert (Hinv : Rw.inv s).
  { eapply rtc_invariant; [apply Rw.rw_inv_step|by apply Rw.rw_inv_init|exact Hr]. }
  destruct Hinv as [_ Hw He]. split; [|split].
  - intros i j Hi Hj. eapply (countb_unique Rw.wheld); [|exact Hi|done|exact Hj|done].
    pose proof (countb_pos Rw.wheld _ _ _ Hi eq_refl). lia.
  - intros i j Hi Hj. pose proof (countb_pos Rw.wheld _ _ _ Hi eq_refl).
    pose proof (countb_pos Rw.rheld _ _ _ Hj eq_refl). lia.
  - intros Hidle. rewrite Hw. unfold Rw.value.
    rewrite !(proj2 (countb_none _ _)) by (intros i p Hi; by rewrite (Hidle i p Hi)). reflexivity.
Qed.

Lemma rw_lock_exclusive_witness :
  ∃ s, rtc Rw.rw_step (Rw.rw_start 2) s ∧ Rw.cpus s = [Rw.WHeld; Rw.RSpin] ∧
       ∀ i j, Rw.cpus s !! i = Some Rw.WHeld → Rw.cpus s !! j ≠ Some Rw.RHeld.
Proof.
  set (s := Rw.State 0 [Rw.WHeld; Rw.RSpin]).
  assert (Hr : rtc Rw.rw_step (Rw.rw_start 2) s).
  { eapply rtc_l; [apply (Rw.call_write _ 0); reflexivity|].
    eapply rtc_l; [apply (Rw.write_got _ 0 Rw.WSub); [reflexivity|by left|reflexivity]|].
    eapply rtc_l; [apply (Rw.call_read _ 1); reflexivity|].
    eapply rtc_l; [apply (Rw.read_busy _ 1 Rw.RSub); [reflexivity|by left|reflexivity]|].
    apply rtc_once. exact (Rw.read_undo (Rw.State (2 ^ 32 - 1) [Rw.WHeld; Rw.RInc]) 1 eq_refl). }
  exists s. split; [exact Hr|]. split; [reflexivity|].
  exact (proj1 (proj2 (rw_lock_exclusive 2 s ltac:(vm_compute; discriminate) Hr))).
Defined.

(** ** Split reader-writer locks (lib/rwlock.c) *)

Module Srw.
Definition SRW_NREADERS : nat := 16.

(** The places of a thread, named by the access to the lock it is about to
    make.  A reader carries its process id. *)
Inductive pc :=
| Idle
| RInc (pid : Z)     (* jos_atomic_inc(&l->readers[pid % SRW_NREADERS].locked) *)
| RWait (pid : Z)    (* while (jos_atomic_read(&l->write_locked)) *)
| RHeld (pid : Z)    (* srw_read_lock returned; next the assert of srw_read_unlock *)
| RDec (pid : Z)     (* jos_atomic_dec of srw_read_unlock *)
| WScan (i : nat)    (* first loop, jos_atomic_read(&l->readers[i].locked) *)
| WCas               (* jos_atomic_compare_exchange(&l->write_locked, 0, 1) *)
| WRescan (i : nat)  (* second loop *)
| WBack              (* jos_atomic_set(&l->write_locked, 0); goto top *)
| WHeld              (* srw_write_lock returned; next the assert of srw_write_unlock *)
| WClear             (* jos_atomic_set of srw_write_unlock *)
| Failed.            (* an assertion failed *)

Record state := State { write_locked : Z; readers : list Z; threads : list pc }.

Definition slot (pid : Z) : nat := Z.to_nat (pid mod Z.of_nat SRW_NREADERS).

Definition goto (s : state) (t : nat) (p : pc) : state :=
  State (write_locked s) (readers s) (<[t := p]> (threads s)).
Definition set_wl (w : Z) (s : state) : state := State w (readers s) (threads s).
Definition add_reader (k : nat) (d : Z) (s : state) : state :=
  State (write_locked s) (alter (λ c, u32 (c + d)) k (readers s)) (threads s).

Inductive srw_step : state → state → Prop :=
| read_call s t pid : threads s !! t = Some Idle → srw_step s (goto s t (RInc pid))
| read_inc s t pid : threads s !! t = Some (RInc pid) →
    srw_step s (add_reader (slot pid) 1 (goto s t (RWait pid)))
| read_spin s t pid : threads s !! t = Some (RWait pid) → write_locked s ≠ 0 → srw_step s s
| read_got s t pid : threads s !! t = Some (RWait pid) → write_locked s = 0 → srw_step s (goto s t (RHeld pid))
| read_assert s t pid : threads s !! t = Some (RHeld pid) →
    srw_step s (goto s t (if bool_decide (write_locked s ≤ 1) then RDec pid else Failed))
| read_dec s t pid : threads s !! t = Some (RDec pid) →
    srw_step s (add_reader (slot pid) (-1) (goto s t Idle))
| write_call s t : threads s !! t = Some Idle → srw_step s (goto s t (WScan 0))
| write_scan s t i c : threads s !! t = Some (WScan i) → readers s !! i = Some c →
    srw_step s (goto s t (if bool_decide (c ≠ 0) then WScan 0
                      else if bool_decide (S i < SRW_NREADERS)%nat then WScan (S i) else WCas))
| write_cas s t : threads s !! t = Some WCas → write_locked s = 0 → srw_step s (set_wl 1 (goto s t (WRescan 0)))
| write_cas_spin s t : threads s !! t = Some WCas → write_locked s = 1 → srw_step s s
(** The exchange fails with a value other than 1: the loop ends without the lock. *)
| write_cas_other s t : threads s !! t = Some WCas → write_locked s ≠ 0 → write_locked s ≠ 1 →
    srw_step s (goto s t (WRescan 0))
| write_rescan s t i c : threads s !! t = Some (WRescan i) → readers s !! i = Some c →
    srw_step s (goto s t (if bool_decide (c ≠ 0) then WBack
                      else if bool_decide (S i < SRW_NREADERS)%nat then WRescan (S i) else WHeld))
| write_back s t : threads s !! t = Some WBack → srw_step s (set_wl 0 (goto s t (WScan 0)))
| write_assert s t : threads s !! t = Some WHeld →
    srw_step s (goto s t (if bool_decide (write_locked s = 1) then WClear else Failed))
| write_clear s t : threads s !! t = Some WClear → srw_step s (set_wl 0 (goto s t Idle)).

(** [srw_init] *)
Definition srw_init (n : nat) : state := State 0 (replicate SRW_NREADERS 0) (replicate n Idle).

(** Threads counted in [readers[k]], threads between a successful exchange and
    the reset of [write_locked], and readers a writer at [p] has excluded. *)
Definition counted (k : nat) (p : pc) : bool :=
  match p with RWait pid | RHeld pid | RDec pid => bool_decide (slot pid = k) | _ => false end.
Definition owner (p : pc) : bool := match p with WRescan _ | WBack | WHeld | WClear => true | _ => false end.
Definition excludes (p q : pc) : bool :=
  match p, q with
  | WRescan i, (RHeld pid | RDec pid) => bool_decide (slot pid < i)%nat
  | (WHeld | WClear), (RHeld _ | RDec _) => true
  | _, _ => false
  end.

Record inv (s : state) : Prop := Inv {
  i_wl : write_locked s = countb owner (threads s);
  i_one : write_locked s ≤ 1;
  i_len : length (readers s) = SRW_NREADERS;
  i_cnt k c : readers s !! k = Some c → c = countb (counted k) (threads s);
  i_excl t u p q : threads s !! t = Some p → threads s !! u = Some q → excludes p q = false;
  i_safe t : threads s !! t ≠ Some Failed;
  i_n : Z.of_nat (length (threads s)) < 2 ^ 31;
}.

Lemma srw_inv_init n : Z.of_nat n < 2 ^ 31 → inv (srw_init n).
Proof.
  intros Hn. split; simpl; try done; [by rewrite countb_replicate| | | |by rewrite length_replicate].
  - intros k c Hk. apply (lookup_replicate SRW_NREADERS 0) in Hk as [-> _]. by rewrite countb_replicate.
  - intros t u p q [-> _]%lookup_replicate. done.
  - intros t [Ht _]%lookup_replicate. done.
Qed.

Lemma excludes_self p : excludes p p = false.
Proof. by destruct p. Qed.

(** A thread moves from [p] to [q]. *)
Lemma move_inv s t p q wl rd :
  inv s → threads s !! t = Some p → q ≠ Failed →
  wl = write_locked s - Z.b2z (owner p) + Z.b2z (owner q) → wl ≤ 1 →
  length rd = SRW_NREADERS →
  (∀ k c', rd !! k = Some c' →
     ∃ c, readers s !! k = Some c ∧ c' = c - Z.b2z (counted k p) + Z.b2z (counted k q)) →
  (∀ u r, threads s !! u = Some r → excludes q r = false ∧ excludes r q = false) →
  inv (State wl rd (<[t := q]> (threads s))).
Proof.
  intros [Hwl H1 Hl Hc Hx Hs Hn] Ht Hq -> Hle Hlen Hcnt Hex. split; simpl; try done.
  - rewrite (countb_insert _ _ _ _ _ Ht). lia.
  - intros k c' Hk. destruct (Hcnt k c' Hk) as (c & Hk' & ->).
    rewrite (countb_insert _ _ _ _ _ Ht), (Hc k c Hk'). done.
  - intros v u p' q' [[<- [<- _]]|[_ Hv]]%list_lookup_insert_Some
      [[<- [<- _]]|[_ Hu]]%list_lookup_insert_Some; [apply excludes_self| | |by eapply Hx]; by eapply Hex.
  - intros v [[_ [? _]]|[_ Hv]]%list_lookup_insert_Some; [done|by eapply Hs].
  - by rewrite length_insert.
Qed.

(** A move that leaves the lock's words alone. *)
Lemma srw_goto_inv s t p q :
  inv s → threads s !! t = Some p → q ≠ Failed → owner p = owner q → (∀ k, counted k p = counted k q) →
  (∀ u r, threads s !! u = Some r → excludes q r = false ∧ excludes r q = false) → inv (goto s t q).
Proof.
  intros Hi Ht Hq Ho Hc Hex. eapply move_inv; try done.
  - rewrite Ho. lia.
  - apply Hi.
  - apply Hi.
  - intros k c Hk. exists c. rewrite Hc. split; [done|lia].
Qed.

(** A thread that excludes nobody and is excluded by nobody. *)
Lemma excl_none s q : (∀ r, excludes q r = false) → (∀ r, excludes r q = false) →
  ∀ u r, threads s !! u = Some r → excludes q r = false ∧ excludes r q = false.
Proof. auto. Qed.
(** A thread that keeps the exclusions of its previous place. *)
Lemma excl_keep s t p q : inv s → threads s !! t = Some p →
  (∀ r, excludes q r = excludes p r) → (∀ r, excludes r q = excludes r p) →
  ∀ u r, threads s !! u = Some r → excludes q r = false ∧ excludes r q = false.
Proof. intros Hi Ht H1 H2 u r Hu. rewrite H1, H2. split; by eapply (i_excl s Hi). Qed.

Lemma excludes_owner p q : excludes p q = true → owner p = true.
Proof. by destruct p. Qed.

(** Nobody owns a lock whose [write_locked] is 0. *)
Lemma free_no_owner s u r : inv s → write_locked s = 0 → threads s !! u = Some r → owner r = false.
Proof. intros Hi H0 Hu. eapply countb_none; [rewrite <-(i_wl s Hi); exact H0|exact Hu]. Qed.
Lemma excl_free s q : inv s → write_locked s = 0 → (∀ r, excludes q r = false) →
  ∀ u r, threads s !! u = Some r → excludes q r = false ∧ excludes r q = false.
Proof.
  intros Hi H0 Hq u r Hu. split; [apply Hq|]. pose proof (free_no_owner s u r Hi H0 Hu).
  destruct (excludes r q) eqn:E; [|done]. by rewrite (excludes_owner _ _ E) in *.
Qed.

(** A slot that reads 0 has no reader. *)
Lemma empty_slot s k u r : inv s → readers s !! k = Some 0 → threads s !! u = Some r → counted k r = false.
Proof. intros Hi Hk Hu. eapply countb_none; [symmetry; by apply (i_cnt s Hi)|exact Hu]. Qed.

(** The second loop goes on to the next slot, or is done. *)
Lemma excl_rescan s t i q :
  inv s → threads s !! t = Some (WRescan i) → readers s !! i = Some 0 →
  q = WRescan (S i) ∨ (q = WHeld ∧ S i = SRW_NREADERS) →
  ∀ u r, threads s !! u = Some r → excludes q r = false ∧ excludes r q = false.
Proof.
  intros Hi Ht Hk Hq u r Hu. pose proof (i_excl s Hi t u _ _ Ht Hu) as He.
  pose proof (empty_slot s i u r Hi Hk Hu) as Hc.
  assert (Hs : ∀ pid, (slot pid < SRW_NREADERS)%nat).
  { intros pid. unfold slot, SRW_NREADERS. pose proof (Z.mod_pos_bound pid 16). lia. }
  split; [|destruct Hq as [-> | [-> _]]; by destruct r].
  destruct Hq as [-> | [-> Hn]]; destruct r as [|pid|pid|pid|pid| | | | | | |]; try done; simpl in *;
    apply bool_decide_eq_false in He, Hc; first [apply bool_decide_eq_false|exfalso];
    specialize (Hs pid); lia.
Qed.

(** A reader enters or leaves its slot's count. *)
Lemma add_reader_inv s t pid p q d :
  inv s → threads s !! t = Some p → q ≠ Failed → owner p = false → owner q = false →
  (∀ k, Z.b2z (counted k q) - Z.b2z (counted k p) = if bool_decide (slot pid = k) then d else 0) → -1 ≤ d ≤ 1 →
  (∀ u r, threads s !! u = Some r → excludes q r = false ∧ excludes r q = false) →
  inv (add_reader (slot pid) d (goto s t q)).
Proof.
  intros Hi Ht Hq Hop Hoq Hd Hd1 Hex. eapply move_inv; try done; simpl.
  - rewrite Hop, Hoq. simpl. lia.
  - apply Hi.
  - rewrite length_alter. apply Hi.
  - intros k c'. specialize (Hd k). destruct (decide (slot pid = k)) as [<-|Hne].
    + rewrite list_lookup_alter_eq, bool_decide_true in * by done.
      intros (c & Hc & ->)%fmap_Some_1. exists c. split; [done|].
      rewrite (i_cnt s Hi _ _ Hc).
      pose proof (countb_range (counted (slot pid)) (<[t := q]> (threads s))) as Hr.
      rewrite (countb_insert _ _ _ _ _ Ht), length_insert in Hr.
      pose proof (i_n s Hi). unfold u32. rewrite Z.mod_small by lia. lia.
    + rewrite list_lookup_alter_ne, bool_decide_false in * by done.
      intros Hc. exists c'. split; [done|]. lia.
Qed.

Lemma srw_inv_step s s' : inv s → srw_step s s' → inv s'.
Proof.
  intros Hi Hs. pose proof (i_wl s Hi) as Hwl. pose proof (i_one s Hi) as H1.
  pose proof (countb_range owner (threads s)) as Hr.
  destruct Hs as [s t pid Ht|s t pid Ht|s t pid Ht Hw|s t pid Ht Hw|s t pid Ht|s t pid Ht
    |s t Ht|s t i c Ht Hc|s t Ht Hw|s t Ht Hw|s t Ht Hw Hw'|s t i c Ht Hc|s t Ht|s t Ht|s t Ht]; try done.
  - eapply srw_goto_inv; try done. apply excl_none; by intros [].
  - eapply (add_reader_inv s t pid (RInc pid)); try done; [by intros k; simpl; case_bool_decide|].
    apply excl_none; by intros [].
  - eapply srw_goto_inv; try done. by apply excl_free.
  - rewrite bool_decide_true by done. eapply srw_goto_inv; try done. eapply excl_keep; try done; by intros [].
  - eapply (add_reader_inv s t pid (RDec pid)); try done; [by intros k; simpl; case_bool_decide|].
    apply excl_none; by intros [].
  - eapply srw_goto_inv; try done. apply excl_none; by intros [].
  - repeat case_bool_decide; eapply srw_goto_inv; try done; apply excl_none; by intros [].
  - eapply (move_inv s t WCas); try done; [by rewrite Hw|apply Hi| |].
    + intros k c Hk. exists c. split; [done|simpl; lia].
    + apply excl_none; by intros [].
  - lia.
  - repeat case_bool_decide.
    + eapply srw_goto_inv; try done. apply excl_none; by intros [].
    + assert (c = 0) as -> by lia. eapply srw_goto_inv; try done. eapply excl_rescan; [done|exact Ht|done|by left].
    + assert (c = 0) as -> by lia. eapply srw_goto_inv; try done. eapply excl_rescan; [done|exact Ht|done|right].
      split; [done|]. pose proof (lookup_lt_Some _ _ _ Hc). rewrite (i_len s Hi) in *. lia.
  - pose proof (countb_pos owner _ _ _ Ht eq_refl).
    eapply (move_inv s t WBack); try done; [simpl; lia|apply Hi| |].
    + intros k c Hk. exists c. split; [done|simpl; lia].
    + apply excl_none; by intros [].
  - pose proof (countb_pos owner _ _ _ Ht eq_refl). rewrite bool_decide_true by lia.
    eapply srw_goto_inv; try done. eapply excl_keep; try done; by intros [].
  - pose proof (countb_pos owner _ _ _ Ht eq_refl).
    eapply (move_inv s t WClear); try done; [simpl; lia|apply Hi| |].
    + intros k c Hk. exists c. split; [done|simpl; lia].
    + apply excl_none; by intros [].
Qed.
End Srw.

(** the split reader-writer lock of lib/rwlock.c, whose readers only
    touch the slot of their process and whose writer scans all slots twice, is
    correct for any number of threads in any interleaving of their atomic
    accesses: at most one writer holds it, a writer and a reader never do
    together, and the assertions in the unlock functions do not fail. *)
Theorem srw_lock_exclusive (n : nat) (s : Srw.state) :
  Z.of_nat n < 2 ^ 31 → rtc Srw.srw_step (Srw.srw_init n) s →
  (∀ t u, Srw.threads s !! t = Some Srw.WHeld → Srw.threads s !! u = Some Srw.WHeld → t = u) ∧
  (∀ t u pid, Srw.threads s !! t = Some Srw.WHeld → Srw.threads s !! u ≠ Some (Srw.RHeld pid)) ∧
  (∀ t, Srw.threads s !! t ≠ Some Srw.Failed).
Proof.
  intros Hn Hr.
  assert (Hinv : Srw.inv s).
  { eapply rtc_invariant; [apply Srw.srw_inv_step|by apply Srw.srw_inv_init|exact Hr]. }
  destruct Hinv as [Hw H1 _ _ Hx Hs _]. split; [|split; [|exact Hs]].
  - intros t u Ht Hu. eapply (countb_unique Srw.owner); [|exact Ht|done|exact Hu|done]. lia.
  - intros t u pid Ht Hu. discriminate (Hx t u _ _ Ht Hu).
Qed.

Lemma srw_lock_exclusive_witness :
  ∃ s, rtc Srw.srw_step (Srw.srw_init 2) s ∧ Srw.threads s = [Srw.WHeld; Srw.RWait 3] ∧ Srw.readers s !! 3%nat = Some 1 ∧
       ∀ t, Srw.threads s !! t ≠ Some Srw.Failed.
Proof.
  set (s := Srw.State 1 (<[3%nat := 1]> (replicate 16 0)) [Srw.WHeld; Srw.RWait 3]).
  assert (Hr : rtc Srw.srw_step (Srw.srw_init 2) s).
  { eapply rtc_l; [apply (Srw.write_call _ 0); reflexivity|].
    do 16 (eapply rtc_l; [eapply (Srw.write_scan _ 0); reflexivity|]; cbv).
    eapply rtc_l; [apply (Srw.write_cas _ 0); reflexivity|]; cbv.
    do 16 (eapply rtc_l; [eapply (Srw.write_rescan _ 0); reflexivity|]; cbv).
    eapply rtc_l; [apply (Srw.read_call _ 1 3); reflexivity|]; cbv.
    eapply rtc_l; [eapply (Srw.read_inc _ 1 3); reflexivity|]; cbv.
    apply rtc_refl. }
  exists s. split; [exact Hr|]. split; [reflexivity|]. split; [reflexivity|].
  exact (proj2 (proj2 (srw_lock_exclusive 2 s ltac:(vm_compute; reflexivity) Hr))).
Defined.
