(* ===== verification/Ktypes.v ===== *)
(** * The structs of the kernel

    The C structs that live in pages: page trees, dynamic arrays, kernel maps and the
    kernel objects built of them.  They come first because a page of memory (Kmem) may
    hold any of them.  A pointer is the address of what it points to, 0 is null, a spin
    lock is held or not, a reader-writer lock is its word. *)
From S2P Require Import Prelude Machine Hashtable Locks.

(** [struct pagetree_entry]: the page (0 for none), its mode and its spin lock. *)
Record pagetree_entry := PtEnt { pe_page : Z; pe_mode : Z; pe_lock : bool }.
Definition null_ent : pagetree_entry := PtEnt 0 0 false.

Record pagetree := Pagetree {
  pt_direct : list pagetree_entry;
  pt_indir : list Z;
  pt_pid : Z;
  pt_demand : bool;
}.

Record darray := Darray {
  da_pt : pagetree;
  da_ptl : Rw.rwlock;
  da_pid : Z;
  da_pp : Z;
  da_esz : Z;
  da_nent : Z;
  da_demand : bool;
}.

(** [struct Map]; [map[0]] and [map[1]] are the two sides. *)
Record Map := MkMap {
  mp_back0 : pagetree; mp_table0 : hashtable bool;
  mp_back1 : pagetree; mp_table1 : hashtable bool;
  mp_npages : Z;
  mp_cur : bool;
  mp_pid : Z;
}.

(** ** Lists (inc/queue.h) *)

(** The heads of the lists, named by what holds them: the collector's list and the two
    lists of share actions of a CPU, the free blobs of a share on a CPU, the mappings of
    a segment or interior address tree, and the processors of an address tree. *)
Inductive lhead :=
| HGc (cpu : Z) | HCi (cpu : Z) | HRm (cpu : Z)
| HBlob (sh cpu : Z) | HAml (ko : Z) | HPs (at_ : Z).
(** A pointer to a pointer to an element: a head or the [le_next] of an element. *)
Inductive lptr := PHead (h : lhead) | PNext (e : Z).
(** [LIST_ENTRY] *)
Record link := Link { le_next : Z; le_prev : option lptr }.
Definition null_link : link := Link 0 None.

(** ** Kernel objects *)

Record sobj_ref := Sobj { so_share : Z; so_object : Z }.

(** [kobject_type_t] *)
Definition kobj_segment : Z := 0.
Definition kobj_address_tree : Z := 1.
Definition kobj_processor : Z := 2.
Definition kobj_share : Z := 3.
Definition kobj_device : Z := 4.
Definition kobj_ntypes : Z := 5.
Definition kobj_any : Z := 6.
Definition JOS_KOBJ_NAME_LEN : Z := 32.

Record kobject_hdr := KoHdr {
  ko_id : Z;
  ko_type : Z;
  ko_name : list Z;
  ko_ref : Z;
  ko_lock : bool;
  ko_pid : Z;
}.

(** [struct address_map_list]; the first element is the head [HAml]. *)
Record address_map_list := Aml { aml_first : Z; aml_lock : bool }.

Record Segment := Seg { sg_map_list : address_map_list; sg_pages : darray }.

(** [struct mcsrwlock] where one CPU at a time is in it: the queue lock is held or not. *)
Record mcsrwlock := McsRw { mw_ml : bool; mw_x : Z }.
(** One element of [sh_blob]: the first free blob, the number of pages, the pages. *)
Record share_store := ShStore { ss_free : Z; ss_npages : Z; ss_pt : pagetree }.
Record Share := MkShare {
  sh_kobject_map : Map;
  sh_blob : list share_store;
  sh_kobject_lock : mcsrwlock;
  sh_mask : Z;
}.

Record Sharemap := MkSharemap { sm_lock : bool; sm_map : Map; sm_owner : Z; sm_mask : Z }.

(** The object lookup cache [at_obj] and the range cache [at_range]. *)
Record at_obj_t := AtObj { ao_ref : sobj_ref; ao_ko : Z; ao_ps_id : Z }.
Record at_range_t := AtRange { ar_va_start : Z; ar_va_end : Z; ar_uam : Z }.
Record Address_tree := MkAt {
  at_ps_list : Z;
  at_ps_list_lock : Rec.reclock;
  at_pgmap : Z;
  at_pgmap_lock : bool;
  at_utrap_entry : Z;
  at_utrap_stack_base : Z;
  at_utrap_stack_top : Z;
  at_interior : bool;
  at_map_list : address_map_list;
  at_map_lock : Rw.rwlock;
  at_uaddrmap : darray;
  at_addrmap : darray;
  at_obj : at_obj_t;
  at_obj_lock : bool;
  at_range : at_range_t;
}.

(** [struct Trapframe] *)
Record Trapframe := MkTf {
  tf_rax : Z; tf_rbx : Z; tf_rcx : Z; tf_rdx : Z; tf_rsi : Z; tf_rdi : Z; tf_rbp : Z; tf_rsp : Z;
  tf_r8 : Z; tf_r9 : Z; tf_r10 : Z; tf_r11 : Z; tf_r12 : Z; tf_r13 : Z; tf_r14 : Z; tf_r15 : Z;
  tf_rip : Z; tf_rflags : Z; tf_cs : Z; tf_ss : Z; tf_ds : Z; tf_es : Z; tf_fs : Z; tf_gs : Z;
}.
Record Processor := MkPs {
  ps_tf : Trapframe;
  ps_fp_enabled : bool;
  ps_pid : Z;
  ps_running : bool;
  ps_halt : bool;
  ps_interval_hz : Z;
  ps_mode : Z;
  ps_sharemap : Sharemap;
  ps_monitor_obj : list sobj_ref;
  ps_at : Z;
  ps_atref : sobj_ref;
  ps_at_link : link;
}.

(** The union of [struct kobject]; a device has the number of its handler. *)
Inductive kobj_body :=
| KSg (sg : Segment) | KAt (a : Address_tree) | KPs (ps : Processor) | KSh (sh : Share) | KDv (dh : Z).
Record kobject := Kobject { ko_hdr : kobject_hdr; ko_body : kobj_body; ko_gc_link : link }.

(** ** Structs packed into pages *)

(** [struct u_address_mapping], 56 bytes. *)
Record u_address_mapping := Uam {
  um_type : Z;
  um_object : sobj_ref;
  um_kslot : Z;
  um_flags : Z;
  um_va : Z;
  um_start_page : Z;
  um_num_pages : Z;
}.
(** [struct address_mapping2], 80 bytes. *)
Record address_mapping2 := Am {
  am_lock : bool;
  am_kobj : Z;
  am_parent : Z;
  am_ps : Z;
  am_sh : Z;
  am_va_first : Z;
  am_va_last : Z;
  am_at_slot : Z;
  am_link : link;
}.
(** [struct share_info], [struct share_action] and their union [struct share_blob],
    40 bytes; [sa_dec] tells the two actions [share_action_dec] and [share_action_ci]
    apart. *)
Record share_info := ShInfo { si_ko : Z; si_co : Z; si_cnt : Z }.
Record share_action := ShAction { sa_sh : Z; sa_si : Z; sa_dec : bool; sa_link : link }.
Inductive share_blob := BInfo (si : share_info) | BAction (sa : share_action) | BLink (l : link).

Definition zero_uam : u_address_mapping := Uam 0 (Sobj 0 0) 0 0 0 0 0.
Definition zero_am : address_mapping2 := Am false 0 0 0 0 0 0 0 null_link.
