(* ===== verification/Kmem.v ===== *)
(** * Physical memory as the kernel sees it

    Everything the kernel allocates is a page: data pages, page-tree nodes, hash
    table pages and the kernel objects themselves.  The memory model keeps the
    pages by their kernel virtual address with their contents typed by use, the
    array [page_infos] (kern/kern/pageinfo.h) by physical page number, and the
    state of the page allocator.  Reading a page at a type it does not hold is
    [Undef], so a proof that code returns is also a proof that it never follows a
    stale or mistyped pointer.

    Also here: the address conversions of kern/arch/amd64/pmap.c ([pa2kva],
    [kva2pa], [pa2ppn], [ppn2pa]), the node tables of kern/arch/amd64/numa.c and
    the atomic counters of kern/arch/amd64/atomic32.h. *)
From S2P Require Import Prelude Machine Hashtable Ktypes.

(** ** Data *)

(** [page_sharing_mode] (inc/copy.h): a wrapped [int]. *)
Definition page_shared_cow : Z := 1.
Definition page_shared_cor : Z := 2.
Definition page_excl : Z := 3.

(** What a page holds.  [PgJunk] is memory whose contents nobody may rely on: a
    page on a free list (the list link lives in the page) or fresh from one.
    Arrays inside a page are maps from the index; an index that is not in the map
    reads as zero, so [PgZero] is an empty array of every type. *)
Inductive page :=
| PgJunk
| PgZero
| PgData (words : gmap Z Z)
| PgEnts (ents : gmap Z pagetree_entry)
| PgPtrs (ptrs : gmap Z Z)
| PgHash (ents : gmap Z hashentry)
| PgKobj (ko : kobject)
| PgUams (uams : gmap Z u_address_mapping)
| PgAms (ams : gmap Z address_mapping2)
| PgBlobs (blobs : gmap Z share_blob).

(** [struct page_info]; the one-bit fields are booleans, and the spin lock is
    held or not. *)
Record page_info := PageInfo {
  pi_ref : Z;
  pi_freepage : bool;
  pi_hwpage : bool;
  pi_pmap : bool;
  pi_pmap_int : bool;
  pi_clear : bool;
  pi_clear_lock : bool;
  pi_hw_ref : Z;
}.
Definition zero_info : page_info := PageInfo 0 false false false false false false 0.

Definition pi_set_ref (r : Z) (p : page_info) : page_info :=
  PageInfo r (pi_freepage p) (pi_hwpage p) (pi_pmap p) (pi_pmap_int p) (pi_clear p) (pi_clear_lock p) (pi_hw_ref p).
Definition pi_set_free (b : bool) (p : page_info) : page_info :=
  PageInfo (pi_ref p) b (pi_hwpage p) (pi_pmap p) (pi_pmap_int p) (pi_clear p) (pi_clear_lock p) (pi_hw_ref p).
Definition pi_set_hwpage (b : bool) (p : page_info) : page_info :=
  PageInfo (pi_ref p) (pi_freepage p) b (pi_pmap p) (pi_pmap_int p) (pi_clear p) (pi_clear_lock p) (pi_hw_ref p).
Definition pi_set_pmap (b : bool) (p : page_info) : page_info :=
  PageInfo (pi_ref p) (pi_freepage p) (pi_hwpage p) b (pi_pmap_int p) (pi_clear p) (pi_clear_lock p) (pi_hw_ref p).
Definition pi_set_pmap_int (b : bool) (p : page_info) : page_info :=
  PageInfo (pi_ref p) (pi_freepage p) (pi_hwpage p) (pi_pmap p) b (pi_clear p) (pi_clear_lock p) (pi_hw_ref p).
Definition pi_set_clear (b : bool) (p : page_info) : page_info :=
  PageInfo (pi_ref p) (pi_freepage p) (pi_hwpage p) (pi_pmap p) (pi_pmap_int p) b (pi_clear_lock p) (pi_hw_ref p).
Definition pi_set_clear_lock (b : bool) (p : page_info) : page_info :=
  PageInfo (pi_ref p) (pi_freepage p) (pi_hwpage p) (pi_pmap p) (pi_pmap_int p) (pi_clear p) b (pi_hw_ref p).
Definition pi_set_hw_ref (r : Z) (p : page_info) : page_info :=
  PageInfo (pi_ref p) (pi_freepage p) (pi_hwpage p) (pi_pmap p) (pi_pmap_int p) (pi_clear p) (pi_clear_lock p) r.

(** [struct memory_node] (kern/kern/lib.h): an address range and the CPUs local to it. *)
Record memory_node := MemNode { mn_baseaddr : Z; mn_length : Z; mn_cpu : list bool }.

(** What is fixed once the machine has booted: the CPU this code runs on, the
    node of each CPU ([cpus[p].nodeid]), [memnode[0..nmemnode)], [global_npages]
    and the end of the kernel image. *)
Record mconf := MConf {
  mc_cpu : Z;
  mc_nodeid : list Z;
  mc_memnode : list memory_node;
  mc_npages : Z;
  mc_end : Z;
}.
Definition nmemnode (c : mconf) : Z := Z.of_nat (length (mc_memnode c)).

(** The memory: the allocator's free lists and their locks (the set of locks
    held), [page_stats.failures], [page_infos] and the pages. *)
Record pmem := PMem {
  pm_conf : mconf;
  pm_free : gmap Z (list Z);
  pm_lock : gset Z;
  pm_failures : Z;
  pm_info : gmap Z page_info;
  pm_page : gmap Z page;
}.
Definition set_free (n : Z) (l : list Z) (m : pmem) : pmem :=
  PMem (pm_conf m) (<[n := l]> (pm_free m)) (pm_lock m) (pm_failures m) (pm_info m) (pm_page m).
Definition set_locks (l : gset Z) (m : pmem) : pmem :=
  PMem (pm_conf m) (pm_free m) l (pm_failures m) (pm_info m) (pm_page m).
Definition set_failures (n : Z) (m : pmem) : pmem :=
  PMem (pm_conf m) (pm_free m) (pm_lock m) n (pm_info m) (pm_page m).
Definition set_info (pn : Z) (i : page_info) (m : pmem) : pmem :=
  PMem (pm_conf m) (pm_free m) (pm_lock m) (pm_failures m) (<[pn := i]> (pm_info m)) (pm_page m).
Definition set_page (p : Z) (c : page) (m : pmem) : pmem :=
  PMem (pm_conf m) (pm_free m) (pm_lock m) (pm_failures m) (pm_info m) (<[p := c]> (pm_page m)).

(** ** Address conversions (kern/arch/amd64/pmap.c) *)

Definition pa2kva (pa : Z) : Z := u64 (pa + PHYSBASE).

Definition kva2pa (kva : Z) : M pmem Z :=
  c ← gets pm_conf;
  if (KERNBASE <=? kva) && (kva <? mc_end c) then mret (kva - KERNBASE)
  else if (PHYSBASE <=? kva) && (kva <? u64 (PHYSBASE + u64 (Z.shiftl (mc_npages c) PGSHIFT)))
  then mret (kva - PHYSBASE)
  else panic.

Definition pa2ppn (pa : Z) : M pmem Z :=
  c ← gets pm_conf;
  let pn := Z.shiftr pa PGSHIFT in
  if mc_npages c <? pn then panic else mret pn.

Definition ppn2pa (pn : Z) : M pmem Z :=
  c ← gets pm_conf;
  if mc_npages c <? pn then panic else mret (u64 (Z.shiftl pn PGSHIFT)).

(** [page_to_pageinfo(p)]: the index of the page's element of [page_infos]. *)
Definition page_to_pageinfo (p : Z) : M pmem Z := pa ← kva2pa p; pa2ppn pa.

Definition get_info (pn : Z) : M pmem page_info := deref (λ m, pm_info m !! pn).
Definition put_info (pn : Z) (i : page_info) : M pmem unit := modify (set_info pn i).
Definition upd_info (pn : Z) (f : page_info → page_info) : M pmem unit :=
  i ← get_info pn; put_info pn (f i).

(** ** Nodes (kern/arch/amd64/numa.c) *)

(** The loop returns the first node whose range holds the address. *)
Fixpoint node_scan (l : list memory_node) (i p : Z) : option Z :=
  match l with
  | [] => None
  | n :: l' => if (mn_baseaddr n <=? p) && (p <? u64 (mn_baseaddr n + mn_length n)) then Some i
               else node_scan l' (u8 (i + 1)) p
  end.
Definition arch_node_by_addr (p : Z) : M pmem Z :=
  c ← gets pm_conf;
  match node_scan (mc_memnode c) 0 p with Some i => mret i | None => panic end.

(** [cpus[p].nodeid]; [cpus] has [JOS_NCPU] elements. *)
Definition arch_node_by_cpu (p : Z) : M pmem Z :=
  deref (λ m, if (0 <=? p) then mc_nodeid (pm_conf m) !! Z.to_nat p else None).

Definition arch_cpu : M pmem Z := gets (λ m, mc_cpu (pm_conf m)).

(** ** 32-bit atomic counters (kern/arch/amd64/atomic32.h) *)
Definition jos_atomic_inc (v : Z) : Z := u32 (v + 1).
Definition jos_atomic_dec (v : Z) : Z := u32 (v - 1).
(** The new value, and whether it is zero. *)
Definition jos_atomic_dec_and_test (v : Z) : Z * bool :=
  let v' := u32 (v - 1) in (v', v' =? 0).
(** The new value and the old one, which is returned. *)
Definition jos_atomic_compare_exchange (v old newv : Z) : Z * Z :=
  (if v =? old then newv else v, v).

(** ** Page contents *)

Definition read_page (p : Z) : M pmem page := deref (λ m, pm_page m !! p).
Definition write_page (p : Z) (c : page) : M pmem unit :=
  read_page p;; modify (set_page p c).

(** [page_zero] (lib/amd64/pagezero.S). *)
Definition page_zero (p : Z) : M pmem unit := write_page p PgZero.

(** [memcpy(dst, src, PGSIZE)] *)
Definition copy_page (dst src : Z) : M pmem unit := c ← read_page src; write_page dst c.

Definition as_ents (c : page) : option (gmap Z pagetree_entry) :=
  match c with PgZero => Some ∅ | PgEnts m => Some m | _ => None end.
Definition as_ptrs (c : page) : option (gmap Z Z) :=
  match c with PgZero => Some ∅ | PgPtrs m => Some m | _ => None end.
Definition as_hash (c : page) : option (gmap Z hashentry) :=
  match c with PgZero => Some ∅ | PgHash m => Some m | _ => None end.

(** ** Conversions of the addresses the allocator hands out *)

(** [p] is the kernel address of physical page [pn]. *)
Definition page_at (m : pmem) (pn p : Z) : Prop :=
  p = PHYSBASE + PGSIZE * pn ∧ 0 ≤ pn < mc_npages (pm_conf m).

(** The machine has fewer than [2^34] pages (64 TB), so physical memory fits
    between [PHYSBASE] and [KERNBASE]; the image ends inside the address space. *)
Definition conf_ok (c : mconf) : Prop := 0 ≤ mc_npages c < 2 ^ 34 ∧ mc_end c < 2 ^ 64.

Lemma kva2pa_page m pn p Q :
  conf_ok (pm_conf m) → page_at m pn p → Q (PGSIZE * pn) m → wp (kva2pa p) m Q.
Proof.
  intros [Hc _] [-> Hpn] HQ. unfold kva2pa. wp_pure.
  change PGSIZE with 4096 in *. unfold PHYSBASE, KERNBASE, PGSHIFT in *.
  rewrite (Z.shiftl_mul_pow2 _ 12) by lia. rewrite (u64_small (_ * _)) by (unfold in_u64; lia).
  rewrite u64_small by (unfold in_u64; lia).
  rewrite (proj2 (Z.leb_gt _ (_ + _))) by lia. simpl.
  rewrite (proj2 (Z.leb_le _ (_ + _))) by lia. rewrite (proj2 (Z.ltb_lt (_ + _) _)) by lia. simpl.
  wp_pure. by replace (_ - _) with (4096 * pn) by lia.
Qed.

Lemma page_to_pageinfo_page m pn p Q :
  conf_ok (pm_conf m) → page_at m pn p → Q pn m → wp (page_to_pageinfo p) m Q.
Proof.
  intros Hc Hp HQ. unfold page_to_pageinfo. wp_pure. eapply kva2pa_page; [done..|].
  destruct Hp as [_ Hpn]. unfold pa2ppn. wp_pure. unfold PGSIZE, PGSHIFT.
  rewrite Z.shiftl_1_l, Z.shiftr_div_pow2, Z.mul_comm, Z.div_mul by lia.
  rewrite (proj2 (Z.ltb_ge _ _)) by lia. by wp_pure.
Qed.

Lemma page_at_inj m pn pn' p : page_at m pn p → page_at m pn' p → pn = pn'.
Proof. intros [-> _] [Heq _]. change PGSIZE with 4096 in Heq. lia. Qed.

Lemma page_at_nonzero m pn p : page_at m pn p → 0 < p.
Proof. intros [-> Hpn]. change PGSIZE with 4096. unfold PHYSBASE. lia. Qed.

Lemma page_at_aligned m pn p : conf_ok (pm_conf m) → page_at m pn p → PGOFF p = 0.
Proof.
  intros [Hc _] [-> Hpn]. rewrite PGOFF_mod; change PGSIZE with 4096; unfold PHYSBASE, in_u64 in *.
  - rewrite Z.mul_comm, Z.mod_add by lia. done.
  - lia.
Qed.

Lemma wp_get_info m pn i Q : pm_info m !! pn = Some i → Q i m → wp (get_info pn) m Q.
Proof. intros Hi HQ. by eapply wp_deref. Qed.
Lemma wp_upd_info m pn f i Q :
  pm_info m !! pn = Some i → Q tt (set_info pn (f i) m) → wp (upd_info pn f) m Q.
Proof. intros Hi HQ. unfold upd_info. wp_pure. eapply wp_get_info; [done|]. unfold put_info. by wp_pure. Qed.
Lemma wp_write_page m p c Q :
  is_Some (pm_page m !! p) → Q tt (set_page p c m) → wp (write_page p c) m Q.
Proof. intros [c0 Hc] HQ. unfold write_page. wp_pure. eapply wp_deref; [done|]. by wp_pure. Qed.
