(* ===== verification/PageAlloc.v ===== *)
(** * The page allocator (kern/kern/pagealloc.c)

    One free list per memory node.  [page_alloc] takes the first page of the list
    of the caller's node and falls back on the other nodes in cyclic order;
    [page_free] puts a page at the head of the list of the node its address
    belongs to.  The lists are [TAILQ]s threaded through the free pages: here they
    are lists of page addresses, and a page on a list is [PgJunk] because its
    first bytes are the list link.

    [alloc_inv] is the allocator's invariant; its operations are specified by
    equations between the memory before and after, which is all that clients of
    the allocator use ([page_alloc_wp], [page_free_wp]). *)
From S2P Require Import Prelude Machine Hashtable Ktypes Kmem.

(** ** The code *)

(** [spin_lock(&page_free_list_lock[n].val)]: on one CPU a held lock is a hang. *)
Definition list_lock (n : Z) : M pmem unit :=
  l ← gets pm_lock;
  if decide (n ∈ l) then crash Hang else modify (set_locks ({[n]} ∪ l)).
Definition list_unlock (n : Z) : M pmem unit :=
  l ← gets pm_lock; modify (set_locks (l ∖ {[n]})).

(** [page_free_list[n].val], an array of [JOS_NNODE] heads. *)
Definition free_list (n : Z) : M pmem (list Z) := deref (λ m, pm_free m !! n).

Definition tailq_first (n : Z) : M pmem (option Z) := l ← free_list n; mret (head l).

(** [TAILQ_INSERT_HEAD(&page_free_list[n].val, pl, pp_link)] writes the link into
    the page. *)
Definition tailq_insert_head (n pl : Z) : M pmem unit :=
  l ← free_list n; write_page pl PgJunk;; modify (set_free n (pl :: l)).

(** [TAILQ_REMOVE] of the element [TAILQ_FIRST] returned. *)
Definition tailq_remove_first (n : Z) : M pmem unit :=
  l ← free_list n; match l with [] => undef | _ :: l' => modify (set_free n l') end.

Definition page_free (v : Z) : M pmem unit :=
  pi ← page_to_pageinfo v;
  i ← get_info pi;
  if pi_hwpage i then mret tt else
  pa ← kva2pa v;
  node ← arch_node_by_addr pa;
  c_assert (0 <=? node);;
  (if PGOFF v =? 0 then mret tt else panic);;
  c_assert (negb (pi_freepage i));;
  upd_info pi (pi_set_free true);;
  upd_info pi (pi_set_clear false);;
  list_lock node;;
  tailq_insert_head node v;;
  list_unlock node.

(** [for (n = (node + 1) % nmemnode; n != node; n = (n + 1) % nmemnode)]: the
    first node with a free page, left locked.  [fuel] bounds the number of nodes
    looked at; [nmemnode] is enough when [node] is one of them. *)
Fixpoint alloc_search (fuel : nat) (n node : Z) : M pmem (option (Z * Z)) :=
  if n =? node then mret None else
  match fuel with
  | O => crash NoFuel
  | S fuel' =>
      list_lock n;;
      pl ← tailq_first n;
      match pl with
      | Some p => mret (Some (n, p))
      | None =>
          list_unlock n;;
          c ← gets pm_conf;
          alloc_search fuel' ((n + 1) mod nmemnode c) node
      end
  end.

(** The result is the error code and, on success, what is stored in [*vp]. *)
Definition page_alloc (pid : Z) : M pmem (Z * Z) :=
  node ← (if pid =? 0xFFFFFFFF then cpu ← arch_cpu; arch_node_by_cpu cpu else arch_node_by_cpu pid);
  c_assert (0 <=? node);;
  list_lock node;;
  pl ← tailq_first node;
  found ← match pl with
          | Some p => mret (Some (node, p))
          | None =>
              list_unlock node;;
              c ← gets pm_conf;
              if nmemnode c =? 0 then undef else
              alloc_search (Z.to_nat (nmemnode c)) ((node + 1) mod nmemnode c) node
          end;
  match found with
  | None =>
      f ← gets pm_failures;
      modify (set_failures (u64 (f + 1)));;
      mret (- E_NO_MEM, 0)
  | Some (node, pl) =>
      tailq_remove_first node;;
      list_unlock node;;
      pi ← page_to_pageinfo pl;
      i ← get_info pi;
      c_assert (pi_freepage i);;
      upd_info pi (pi_set_free false);;
      mret (0, pl)
  end.

Definition page_get_hw (pa : Z) : M pmem (Z * Z) :=
  let kva := pa2kva pa in
  pi ← page_to_pageinfo kva;
  i ← get_info pi;
  if negb (pi_hwpage i) then mret (- E_INVAL, 0) else mret (0, kva).

Definition page_register_hw (v : Z) : M pmem unit :=
  pi ← page_to_pageinfo v;
  i ← get_info pi;
  c_assert (negb (pi_freepage i));;
  c_assert (negb (pi_hwpage i));;
  upd_info pi (pi_set_hwpage true).

(** [TAILQ_INIT] and [spin_init] of every node. *)
Definition page_alloc_init : M pmem unit :=
  for_each (Z.to_nat JOS_NNODE) 0 (λ i,
    modify (set_free i []);; list_unlock i).

(** ** The invariant *)

(** The tables [numa_init] leaves: at least one node, every CPU on one of them,
    and every page of memory in the range of one of them. *)
Definition nodes_ok (c : mconf) : Prop :=
  0 < nmemnode c ≤ JOS_NNODE ∧
  Forall (λ n, 0 ≤ n < nmemnode c) (mc_nodeid c) ∧
  (0 ≤ mc_cpu c < Z.of_nat (length (mc_nodeid c))) ∧
  ∀ pn, 0 ≤ pn < mc_npages c → ∃ n, node_scan (mc_memnode c) 0 (PGSIZE * pn) = Some n.

(** The node the physical page belongs to. *)
Definition page_node (c : mconf) (pn : Z) : option Z := node_scan (mc_memnode c) 0 (PGSIZE * pn).

Definition page_addr (pn : Z) : Z := PHYSBASE + PGSIZE * pn.

(** The state of one physical page: its [page_info] and contents exist, and it
    is on the free list of its node exactly when its [pi_freepage] bit is set.  Pages of
    the hardware are not free, and free pages are not marked as cleared. *)
Definition pg_ok (m : pmem) (pn : Z) : Prop :=
  ∃ i, pm_info m !! pn = Some i ∧ is_Some (pm_page m !! page_addr pn) ∧
       (pi_hwpage i = true ∨ pi_clear i = true → pi_freepage i = false) ∧
       (pi_freepage i = true →
        ∃ n l, page_node (pm_conf m) pn = Some n ∧ pm_free m !! n = Some l ∧ page_addr pn ∈ l).

(** A free list holds free pages of its node, each once. *)
Definition list_ok (m : pmem) (n : Z) (l : list Z) : Prop :=
  NoDup l ∧
  ∀ p, p ∈ l → ∃ pn i, page_at m pn p ∧ page_node (pm_conf m) pn = Some n ∧
                       pm_info m !! pn = Some i ∧ pi_freepage i = true.

Record alloc_inv (m : pmem) : Prop := AllocInv {
  ai_conf : conf_ok (pm_conf m);
  ai_nodes : nodes_ok (pm_conf m);
  ai_unlocked : pm_lock m = ∅;
  ai_heads : ∀ n, 0 ≤ n < JOS_NNODE → is_Some (pm_free m !! n);
  ai_pages : ∀ pn, 0 ≤ pn < mc_npages (pm_conf m) → pg_ok m pn;
  ai_lists : ∀ n l, pm_free m !! n = Some l → list_ok m n l;
}.

(** What a client needs to know of a page: it is free, or it belongs to someone. *)
Definition page_free_p (m : pmem) (p : Z) : Prop :=
  ∃ pn i, page_at m pn p ∧ pm_info m !! pn = Some i ∧ pi_freepage i = true.
Definition page_used (m : pmem) (p : Z) : Prop :=
  ∃ pn i, page_at m pn p ∧ pm_info m !! pn = Some i ∧ pi_freepage i = false ∧ pi_hwpage i = false.

(** The memory after page [pn] has been taken off the list of node [n]. *)
Definition alloc_post (m : pmem) (pn n : Z) (l : list Z) (i : page_info) : pmem :=
  set_info pn (pi_set_free false i) (set_free n l m).
(** The memory after page [pn] has been put on the list of node [n]. *)
Definition free_post (m : pmem) (pn n : Z) (l : list Z) (i : page_info) : pmem :=
  set_free n (page_addr pn :: l)
    (set_page (page_addr pn) PgJunk
       (set_info pn (pi_set_clear false (pi_set_free true i)) m)).

(** ** Auxiliary facts *)

Lemma node_scan_range l i p n :
  node_scan l i p = Some n → 0 ≤ i → i + Z.of_nat (length l) ≤ 255 → i ≤ n < i + Z.of_nat (length l).
Proof.
  revert i. induction l as [|x l IH]; intros i; simpl; [done|].
  case_match; [intros [= <-]; lia|]. intros Hs Hi Hl.
  unfold u8 in Hs. rewrite (Z.mod_small (i + 1)) in Hs by lia.
  apply IH in Hs; lia.
Qed.

Lemma page_node_range c pn n : nodes_ok c → page_node c pn = Some n → 0 ≤ n < nmemnode c.
Proof.
  intros (Hn&_) Hp. apply node_scan_range in Hp; unfold nmemnode, JOS_NNODE, JOS_NCPU in *; lia.
Qed.

Lemma set_locks_id m : pm_lock m = ∅ → set_locks ∅ m = m.
Proof. intros H. destruct m. simpl in H. by subst. Qed.

Lemma wp_list_lock n m (Q : unit → pmem → Prop) :
  n ∉ pm_lock m → Q tt (set_locks ({[n]} ∪ pm_lock m) m) → wp (list_lock n) m Q.
Proof. intros Hn HQ. unfold list_lock. wp_pure. rewrite decide_False by done. by wp_pure. Qed.

Lemma wp_list_unlock n m (Q : unit → pmem → Prop) :
  Q tt (set_locks (pm_lock m ∖ {[n]}) m) → wp (list_unlock n) m Q.
Proof. intros HQ. unfold list_unlock. by wp_pure. Qed.

Lemma lock_unlock n : (({[n]} ∪ ∅) ∖ {[n]} : gset Z) = ∅.
Proof. apply leibniz_equiv. intros x. rewrite elem_of_difference, elem_of_union, elem_of_empty. tauto. Qed.

Lemma wp_tailq_first n m l Q :
  pm_free m !! n = Some l → Q (head l) m → wp (tailq_first n) m Q.
Proof. intros Hl HQ. unfold tailq_first, free_list. wp_pure. eapply wp_deref; [done|]. by wp_pure. Qed.

(** Stepping around the ring of nodes. *)
Lemma ring_mod node k N : 0 ≤ node < N → 0 ≤ k ≤ N →
  (node + k) mod N = if node + k <? N then node + k else node + k - N.
Proof.
  intros. case_match.
  - apply Z.mod_small. lia.
  - rewrite <- (Z.mod_small (node + k - N) N) by lia.
    replace (node + k) with (node + k - N + 1 * N) at 1 by lia. apply Z.mod_add. lia.
Qed.
Lemma ring_home node k N : 0 ≤ node < N → 1 ≤ k ≤ N → ((node + k) mod N =? node) = (k =? N).
Proof. intros. rewrite ring_mod by lia. case_match; lia. Qed.
Lemma ring_next node k N : 0 < N → ((node + k) mod N + 1) mod N = (node + (k + 1)) mod N.
Proof. intros. rewrite Zplus_mod_idemp_l. f_equal. lia. Qed.
Lemma ring_range node k N : 0 < N → 0 ≤ (node + k) mod N < N.
Proof. intros. apply Z.mod_pos_bound. lia. Qed.

(** The lists of the nodes [lo <= j < hi] steps after [node] are empty. *)
Definition ring_empty (m : pmem) (node lo hi : Z) : Prop :=
  ∀ j, lo ≤ j < hi → pm_free m !! ((node + j) mod nmemnode (pm_conf m)) = Some [].

Lemma alloc_search_wp m node fuel k Q :
  alloc_inv m → 0 ≤ node < nmemnode (pm_conf m) → 1 ≤ k ≤ nmemnode (pm_conf m) →
  nmemnode (pm_conf m) - k ≤ Z.of_nat fuel →
  (ring_empty m node k (nmemnode (pm_conf m)) → Q None m) →
  (∀ j p l, k ≤ j < nmemnode (pm_conf m) → ring_empty m node k j →
     pm_free m !! ((node + j) mod nmemnode (pm_conf m)) = Some (p :: l) →
     Q (Some ((node + j) mod nmemnode (pm_conf m), p))
       (set_locks ({[ (node + j) mod nmemnode (pm_conf m) ]} ∪ ∅) m)) →
  wp (alloc_search fuel ((node + k) mod nmemnode (pm_conf m)) node) m Q.
Proof.
  intros Hinv Hnode Hk Hfuel HN HS. destruct (ai_nodes _ Hinv) as [HNN _].
  revert k Hk Hfuel HN HS. induction fuel as [|fuel IH]; intros k Hk Hfuel HN HS; simpl;
    rewrite ring_home by lia; destruct (Z.eqb_spec k (nmemnode (pm_conf m))) as [->|Hne];
    try (apply wp_ret, HN; intros j Hj; lia); [lia|].
  set (n := (node + k) mod nmemnode (pm_conf m)).
  assert (0 ≤ n < nmemnode (pm_conf m)) by (apply ring_range; lia).
  destruct (ai_heads _ Hinv n) as [l Hl]; [lia|].
  pose proof (ai_unlocked _ Hinv) as Hul.
  wp_pure. apply wp_list_lock; [rewrite Hul; set_solver|]. wp_pure.
  eapply wp_tailq_first; [exact Hl|]. rewrite Hul.
  destruct l as [|p l]; simpl.
  - wp_pure. apply wp_list_unlock. wp_pure. simpl. rewrite lock_unlock.
    replace (set_locks ∅ _) with m by (symmetry; apply (set_locks_id m Hul)).
    unfold n. rewrite ring_next by lia. apply IH; [lia|lia| |].
    + intros He. apply HN. intros j Hj. destruct (decide (j = k)) as [->|]; [exact Hl|]. apply He. lia.
    + intros j p l Hj He. apply HS; [lia|]. intros j' Hj'.
      destruct (decide (j' = k)) as [->|]; [exact Hl|]. apply He. lia.
  - apply wp_ret. eapply HS; [lia| |exact Hl]. intros j Hj. lia.
Qed.

(** The node [page_alloc] starts from. *)
Definition home_node (c : mconf) (pid : Z) : option Z :=
  let cpu := if pid =? 0xFFFFFFFF then mc_cpu c else pid in
  if 0 <=? cpu then mc_nodeid c !! Z.to_nat cpu else None.

Lemma home_node_wp m pid node Q :
  home_node (pm_conf m) pid = Some node → Q node m →
  wp (if pid =? 0xFFFFFFFF then cpu ← arch_cpu; arch_node_by_cpu cpu else arch_node_by_cpu pid) m Q.
Proof.
  intros Hh HQ. unfold home_node in Hh. destruct (pid =? 0xFFFFFFFF).
  - unfold arch_cpu. wp_pure. by eapply wp_deref.
  - by eapply wp_deref.
Qed.

Lemma home_node_range c pid node : nodes_ok c → home_node c pid = Some node → 0 ≤ node < nmemnode c.
Proof.
  intros (_&Hc&_) Hh. unfold home_node in Hh. repeat case_match; try done;
    by eapply Forall_lookup_1 in Hc.
Qed.

Lemma page_at_addr m pn : 0 ≤ pn < mc_npages (pm_conf m) → page_at m pn (page_addr pn).
Proof. done. Qed.

(** The head of a free list, with everything the invariant says about it. *)
Lemma list_head_page m n p l :
  alloc_inv m → pm_free m !! n = Some (p :: l) →
  ∃ pn i, page_at m pn p ∧ p = page_addr pn ∧ page_node (pm_conf m) pn = Some n ∧
          pm_info m !! pn = Some i ∧ pi_freepage i = true ∧ p ∉ l.
Proof.
  intros Hinv Hl. destruct (ai_lists _ Hinv _ _ Hl) as [Hnd Hin].
  apply NoDup_cons in Hnd as [Hp _]. destruct (Hin p) as (pn&i&Hat&Hn&Hi&Hf); [by left|].
  exists pn, i. split_and!; try done. apply Hat.
Qed.

Lemma alloc_take_wp m n p l (Q : Z * Z → pmem → Prop) :
  alloc_inv m → pm_free m !! n = Some (p :: l) →
  (∀ pn i, page_at m pn p → page_node (pm_conf m) pn = Some n → pm_info m !! pn = Some i →
     pi_freepage i = true → Q (0, p) (alloc_post m pn n l i)) →
  wp (tailq_remove_first n;; list_unlock n;;
      pi ← page_to_pageinfo p; i ← get_info pi; c_assert (pi_freepage i);;
      upd_info pi (pi_set_free false);; mret (0, p))
     (set_locks ({[n]} ∪ ∅) m) Q.
Proof.
  intros Hinv Hl HQ. destruct (list_head_page _ _ _ _ Hinv Hl) as (pn&i&Hat&_&Hn&Hi&Hf&_).
  pose proof (ai_unlocked _ Hinv) as Hul.
  unfold tailq_remove_first, free_list. wp_pure. eapply wp_deref; [exact Hl|]. wp_pure.
  apply wp_list_unlock. wp_pure. simpl. rewrite lock_unlock.
  replace (set_locks ∅ _) with (set_free n l m) by (symmetry; apply (set_locks_id (set_free n l m)), Hul).
  eapply page_to_pageinfo_page; [apply Hinv|exact Hat|]. wp_pure.
  eapply wp_get_info; [exact Hi|]. wp_pure. apply wp_assert; [done|]. wp_pure.
  eapply wp_upd_info; [exact Hi|]. wp_pure. by apply HQ.
Qed.

(** [page_alloc] returns the first page of the first nonempty list in ring order
    from the home node, or [-E_NO_MEM] when every list is empty. *)
Lemma page_alloc_wp m pid node (Q : Z * Z → pmem → Prop) :
  alloc_inv m → home_node (pm_conf m) pid = Some node →
  (ring_empty m node 0 (nmemnode (pm_conf m)) →
     Q (- E_NO_MEM, 0) (set_failures (u64 (pm_failures m + 1)) m)) →
  (∀ j pn l i, 0 ≤ j < nmemnode (pm_conf m) → ring_empty m node 0 j →
     let n := (node + j) mod nmemnode (pm_conf m) in
     pm_free m !! n = Some (page_addr pn :: l) →
     page_at m pn (page_addr pn) → page_node (pm_conf m) pn = Some n →
     pm_info m !! pn = Some i → pi_freepage i = true →
     Q (0, page_addr pn) (alloc_post m pn n l i)) →
  wp (page_alloc pid) m Q.
Proof.
  intros Hinv Hh HN HS. unfold page_alloc. wp_pure. eapply home_node_wp; [exact Hh|].
  destruct (ai_nodes _ Hinv) as [HNN _]. pose proof (ai_unlocked _ Hinv) as Hul.
  assert (Hr := home_node_range _ _ _ (ai_nodes _ Hinv) Hh).
  assert (H0 : (node + 0) mod nmemnode (pm_conf m) = node) by (rewrite Z.add_0_r; by apply Z.mod_small).
  wp_pure. apply wp_assert; [lia|]. wp_pure.
  apply wp_list_lock; [rewrite Hul; apply not_elem_of_empty|]. wp_pure. rewrite Hul.
  destruct (ai_heads _ Hinv node) as [l Hl]; [lia|]. eapply wp_tailq_first; [exact Hl|]. wp_pure.
  assert (HS' : ∀ j p l, 0 ≤ j < nmemnode (pm_conf m) → ring_empty m node 0 j →
     let n := (node + j) mod nmemnode (pm_conf m) in
     pm_free m !! n = Some (p :: l) →
     wp (tailq_remove_first n;; list_unlock n;;
         pi ← page_to_pageinfo p; i ← get_info pi; c_assert (pi_freepage i);;
         upd_info pi (pi_set_free false);; mret (0, p)) (set_locks ({[n]} ∪ ∅) m) Q).
  { intros j p l' Hj He n Hn. eapply alloc_take_wp; [done|exact Hn|].
    intros pn i Hat Hpn Hi Hf. destruct Hat as [-> Hat]. by eapply HS. }
  destruct l as [|p l]; simpl.
  - wp_pure. apply wp_list_unlock. wp_pure. simpl. rewrite lock_unlock.
    replace (set_locks ∅ _) with m by (symmetry; apply (set_locks_id m Hul)).
    rewrite (proj2 (Z.eqb_neq _ _)) by lia.
    assert (Hcons : ∀ j, ring_empty m node 1 j → ring_empty m node 0 j).
    { intros j He j' Hj'. destruct (decide (j' = 0)) as [->|]; [by rewrite H0|]. apply He. lia. }
    eapply alloc_search_wp; [done|lia|lia|lia| |].
    + intros He. wp_pure. by apply HN, Hcons.
    + intros j p l Hj He Hp. eapply HS'; [lia|by apply Hcons|exact Hp].
  - wp_pure. specialize (HS' 0 p l). simpl in HS'. rewrite H0 in HS'. apply wp_bind_inv, HS'; [lia| |done].
    intros j Hj. lia.
Qed.

(** ** The invariant is preserved *)

Lemma page_addr_inj pn pn' : page_addr pn = page_addr pn' → pn = pn'.
Proof. unfold page_addr. change PGSIZE with 4096. lia. Qed.

(** Bookkeeping of a page that leaves its free bit alone. *)
Lemma alloc_inv_info m pn i i' :
  alloc_inv m → pm_info m !! pn = Some i → pi_freepage i' = pi_freepage i →
  (pi_hwpage i' = true ∨ pi_clear i' = true → (pi_hwpage i = true ∨ pi_clear i = true) ∨ pi_freepage i' = false) →
  alloc_inv (set_info pn i' m).
Proof.
  intros [Hc Hn Hu Hh Hp Hl] Hi Hf Hw. split; try done.
  - intros pn' Hpn'. destruct (Hp pn' Hpn') as (i1&Hi1&Hpg&H1&H2). simpl.
    destruct (decide (pn = pn')) as [->|].
    + exists i'. simpl. rewrite lookup_insert_eq. simplify_eq. split_and!; [done|done| |by rewrite Hf].
      intros [Hh1|?]%Hw; [|done]. rewrite Hf. by apply H1.
    + exists i1. simpl. rewrite lookup_insert_ne by done. by split_and!.
  - intros n l Hnl. destruct (Hl n l Hnl) as [Hnd Hin]. split; [done|].
    intros p Hpl. destruct (Hin p Hpl) as (pn'&i1&Hat&Hn'&Hi1&Hf1).
    destruct (decide (pn = pn')) as [->|].
    + exists pn', i'. simpl. rewrite lookup_insert_eq, Hf. simplify_eq. by split_and!.
    + exists pn', i1. simpl. rewrite lookup_insert_ne by done. by split_and!.
Qed.

Lemma alloc_post_inv m pn n l i :
  alloc_inv m → pm_free m !! n = Some (page_addr pn :: l) → page_at m pn (page_addr pn) →
  page_node (pm_conf m) pn = Some n → pm_info m !! pn = Some i → pi_freepage i = true →
  alloc_inv (alloc_post m pn n l i).
Proof.
  intros [Hc Hn Hu Hh Hp Hl] Hfl Hat Hpn Hi Hf.
  destruct (Hl _ _ Hfl) as [Hnd Hin]. apply NoDup_cons in Hnd as [Hni Hnd].
  split; try done; simpl.
  - intros n' Hn'. destruct (decide (n = n')) as [->|]; [by rewrite lookup_insert_eq|].
    rewrite lookup_insert_ne by done. by apply Hh.
  - intros pn' Hpn'. destruct (Hp pn' Hpn') as (i'&Hi'&Hpg&Hhw&Hfr).
    destruct (decide (pn = pn')) as [<-|Hne].
    + exists (pi_set_free false i). simpl. rewrite lookup_insert_eq. by simplify_eq.
    + exists i'. simpl. rewrite lookup_insert_ne by done. split_and!; try done.
      intros Hf'. destruct (Hfr Hf') as (n'&l'&Hn'&Hl'&Hin'). exists n'.
      destruct (decide (n = n')) as [<-|]; [|exists l'; by rewrite lookup_insert_ne].
      exists l. rewrite lookup_insert_eq. split_and!; try done. simplify_eq.
      apply list_elem_of_In in Hin'. destruct Hin' as [Heq|Hin']; [by apply page_addr_inj in Heq|].
      by apply list_elem_of_In.
  - assert (Hkeep : ∀ n' l', (∀ p, p ∈ l' → p ≠ page_addr pn) → list_ok m n' l' →
                     list_ok (alloc_post m pn n l i) n' l').
    { intros n' l' Hnin [Hnd' Hok]. split; [done|]. intros p Hpl.
      destruct (Hok p Hpl) as (pn'&i'&Hat'&Hn'&Hi'&Hf'). exists pn', i'. split_and!; try done. simpl.
      rewrite lookup_insert_ne; [done|]. intros ->. apply (Hnin p Hpl), Hat'. }
    intros n' l'. destruct (decide (n = n')) as [<-|Hne].
    + rewrite lookup_insert_eq. intros [= <-]. apply Hkeep; [by intros p Hpl ->|].
      split; [done|]. intros p Hpl. apply Hin. by right.
    + rewrite lookup_insert_ne by done. intros Hl'. apply Hkeep; [|by apply Hl].
      intros p Hpl ->. destruct (Hl _ _ Hl') as [_ Hok].
      destruct (Hok _ Hpl) as (pn'&i'&Hat'&Hn'&_). destruct Hat' as [Heq%page_addr_inj _]. congruence.
Qed.

Lemma free_post_inv m pn n l i :
  alloc_inv m → pm_free m !! n = Some l → page_at m pn (page_addr pn) →
  page_node (pm_conf m) pn = Some n → pm_info m !! pn = Some i → pi_freepage i = false →
  pi_hwpage i = false → alloc_inv (free_post m pn n l i).
Proof.
  intros [Hc Hn Hu Hh Hp Hl] Hfl Hat Hpn Hi Hf Hw.
  assert (Hnin : ∀ n' l', pm_free m !! n' = Some l' → page_addr pn ∉ l').
  { intros n' l' Hl' Hpl. destruct (Hl _ _ Hl') as [_ Hok].
    destruct (Hok _ Hpl) as (pn'&i'&[Heq%page_addr_inj _]&_&Hi'&Hf'). congruence. }
  split; try done; simpl.
  - intros n' Hn'. destruct (decide (n = n')) as [->|]; [by rewrite lookup_insert_eq|].
    rewrite lookup_insert_ne by done. by apply Hh.
  - intros pn' Hpn'. destruct (Hp pn' Hpn') as (i'&Hi'&Hpg&Hhw&Hfr).
    destruct (decide (pn = pn')) as [<-|Hne].
    + exists (pi_set_clear false (pi_set_free true i)). simpl. rewrite !lookup_insert_eq.
      split_and!; [done|done|intros [?|?]; simpl in *; congruence|]. intros _. exists n, (page_addr pn :: l).
      rewrite lookup_insert_eq. split_and!; try done. by left.
    + exists i'. simpl. rewrite !lookup_insert_ne by (done || by intros ?%page_addr_inj).
      split_and!; try done. intros Hf'. destruct (Hfr Hf') as (n'&l'&Hn'&Hl'&Hin'). exists n'.
      destruct (decide (n = n')) as [<-|]; [|exists l'; by rewrite lookup_insert_ne].
      exists (page_addr pn :: l). rewrite lookup_insert_eq. simplify_eq. split_and!; try done. by right.
  - assert (Hkeep : ∀ n' l', pm_free m !! n' = Some l' → list_ok (free_post m pn n l i) n' l').
    { intros n' l' Hl'. destruct (Hl _ _ Hl') as [Hnd' Hok]. split; [done|]. intros p Hpl.
      destruct (Hok p Hpl) as (pn'&i'&Hat'&Hn'&Hi'&Hf'). exists pn', i'. split_and!; try done. simpl.
      rewrite lookup_insert_ne; [done|]. intros ->. apply (Hnin _ _ Hl').
      destruct Hat' as [Heq _]. by rewrite Heq in Hpl. }
    intros n' l'. destruct (decide (n = n')) as [<-|Hne].
    + rewrite lookup_insert_eq. intros [= <-]. destruct (Hkeep _ _ Hfl) as [Hnd Hok].
      split; [by apply NoDup_cons_2; [apply (Hnin n)|]|].
      intros p [->|Hpl]%elem_of_cons; [|by apply Hok].
      exists pn, (pi_set_clear false (pi_set_free true i)). simpl. by rewrite lookup_insert_eq.
    + rewrite lookup_insert_ne by done. apply Hkeep.
Qed.

Lemma page_used_free_list m p :
  alloc_inv m → page_used m p →
  ∃ pn i n l, page_at m pn p ∧ p = page_addr pn ∧ pm_info m !! pn = Some i ∧ pi_freepage i = false ∧
              pi_hwpage i = false ∧ page_node (pm_conf m) pn = Some n ∧ pm_free m !! n = Some l.
Proof.
  intros Hinv (pn&i&Hat&Hi&Hf&Hw). destruct (ai_nodes _ Hinv) as (HN&_&_&Hscan).
  destruct (Hscan pn) as [n Hn]; [apply Hat|].
  assert (Hr := page_node_range _ _ _ (ai_nodes _ Hinv) Hn).
  destruct (ai_heads _ Hinv n) as [l Hl]; [lia|].
  exists pn, i, n, l. split_and!; try done. apply Hat.
Qed.

(** [page_free] of a page in use puts it at the head of its node's list. *)
Lemma page_free_wp m p (Q : unit → pmem → Prop) :
  alloc_inv m → page_used m p →
  (∀ pn i n l, page_at m pn p → p = page_addr pn → pm_info m !! pn = Some i →
     pi_freepage i = false → pi_hwpage i = false → page_node (pm_conf m) pn = Some n →
     pm_free m !! n = Some l → Q tt (free_post m pn n l i)) →
  wp (page_free p) m Q.
Proof.
  intros Hinv Hus HQ. destruct (page_used_free_list _ _ Hinv Hus) as (pn&i&n&l&Hat&Hp&Hi&Hf&Hw&Hn&Hl).
  pose proof (ai_unlocked _ Hinv) as Hul. pose proof (ai_conf _ Hinv) as Hc.
  assert (Hr := page_node_range _ _ _ (ai_nodes _ Hinv) Hn).
  destruct (ai_pages _ Hinv pn) as (_&_&Hpg&_); [apply Hat|].
  unfold page_free. wp_pure. eapply page_to_pageinfo_page; [done|exact Hat|].
  wp_pure. eapply wp_get_info; [exact Hi|]. rewrite Hw. wp_pure.
  eapply kva2pa_page; [done|exact Hat|]. wp_pure. unfold arch_node_by_addr. wp_pure.
  change (node_scan _ _ _) with (page_node (pm_conf m) pn). rewrite Hn. wp_pure.
  apply wp_assert; [lia|]. rewrite (page_at_aligned _ _ _ Hc Hat). simpl. wp_pure.
  apply wp_assert; [by rewrite Hf|]. wp_pure. eapply wp_upd_info; [exact Hi|]. wp_pure.
  eapply wp_upd_info; [apply lookup_insert_eq|]. wp_pure.
  apply wp_list_lock; [simpl; rewrite Hul; apply not_elem_of_empty|]. wp_pure.
  unfold tailq_insert_head, free_list. wp_pure. eapply wp_deref; [exact Hl|]. wp_pure.
  apply wp_write_page; [by rewrite Hp|]. wp_pure. apply wp_list_unlock. simpl. rewrite Hul, lock_unlock.
  specialize (HQ _ _ _ _ Hat Hp Hi Hf Hw Hn Hl). unfold free_post in HQ. rewrite <- Hp in HQ.
  unfold set_locks, set_free, set_page, set_info in *. simpl in *. rewrite insert_insert_eq.
  by rewrite Hul in HQ.
Qed.

(** ** What clients rely on *)

(** Page [p] went from free to in use; no contents changed. *)
Definition alloc_rel (m : pmem) (p : Z) (m' : pmem) : Prop :=
  ∃ pn i, page_at m pn p ∧ pm_info m !! pn = Some i ∧ pi_freepage i = true ∧ pi_hwpage i = false ∧
          pm_info m' = <[pn := pi_set_free false i]> (pm_info m) ∧
          pm_page m' = pm_page m ∧ pm_conf m' = pm_conf m.

(** Page [p] went from in use to free and lost its contents; nothing else did. *)
Definition free_rel (m : pmem) (p : Z) (m' : pmem) : Prop :=
  ∃ pn i, page_at m pn p ∧ pm_info m !! pn = Some i ∧ pi_freepage i = false ∧ pi_hwpage i = false ∧
          pm_info m' = <[pn := pi_set_clear false (pi_set_free true i)]> (pm_info m) ∧
          pm_page m' = <[p := PgJunk]> (pm_page m) ∧ pm_conf m' = pm_conf m.

(** [n] is the first node with a free page, in ring order from [node]. *)
Definition nearest (m : pmem) (node n : Z) : Prop :=
  ∃ j, 0 ≤ j < nmemnode (pm_conf m) ∧ n = (node + j) mod nmemnode (pm_conf m) ∧ ring_empty m node 0 j.

Lemma free_page_listed m p :
  alloc_inv m → page_free_p m p →
  ∃ pn n l, p = page_addr pn ∧ page_node (pm_conf m) pn = Some n ∧ pm_free m !! n = Some l ∧ p ∈ l.
Proof.
  intros Hinv (pn&i&[-> Hr]&Hi&Hf). destruct (ai_pages _ Hinv pn Hr) as (i'&Hi'&_&_&Hl).
  simplify_eq. destruct (Hl Hf) as (n&l&?&?&?). by exists pn, n, l.
Qed.

(** The ring visits every node. *)
Lemma ring_onto node n N : 0 ≤ node < N → 0 ≤ n < N → ∃ j, 0 ≤ j < N ∧ (node + j) mod N = n.
Proof.
  intros. destruct (decide (node ≤ n)).
  - exists (n - node). split; [lia|]. rewrite ring_mod by lia. case_match; lia.
  - exists (n - node + N). split; [lia|]. rewrite ring_mod by lia. case_match; lia.
Qed.

Lemma ring_all_empty m node p :
  alloc_inv m → 0 ≤ node < nmemnode (pm_conf m) →
  ring_empty m node 0 (nmemnode (pm_conf m)) → ¬ page_free_p m p.
Proof.
  intros Hinv Hnode He Hf. destruct (free_page_listed _ _ Hinv Hf) as (pn&n&l&_&Hn&Hl&Hp).
  assert (Hr := page_node_range _ _ _ (ai_nodes _ Hinv) Hn).
  destruct (ring_onto node n _ Hnode Hr) as (j&Hj&<-). rewrite (He j Hj) in Hl.
  injection Hl as <-. by apply not_elem_of_nil in Hp.
Qed.

Lemma set_failures_inv m f : alloc_inv m → alloc_inv (set_failures f m).
Proof. intros []. by split. Qed.

(** The post-condition of [page_alloc] run on behalf of a CPU of node [node]. *)
Definition page_alloc_post (m : pmem) (node : Z) (res : Z * Z) (m' : pmem) : Prop :=
  alloc_inv m' ∧
  match res with
  | (r, p) =>
      (r = 0 ∧ alloc_rel m p m' ∧
       ∃ pn n, p = page_addr pn ∧ page_node (pm_conf m) pn = Some n ∧ nearest m node n) ∨
      (r = - E_NO_MEM ∧ m' = set_failures (u64 (pm_failures m + 1)) m ∧ ∀ q, ¬ page_free_p m q)
  end.

Lemma page_alloc_spec m pid node :
  alloc_inv m → home_node (pm_conf m) pid = Some node →
  wp (page_alloc pid) m (page_alloc_post m node).
Proof.
  intros Hinv Hh. assert (Hr := home_node_range _ _ _ (ai_nodes _ Hinv) Hh).
  eapply page_alloc_wp; [done|exact Hh| |].
  - intros He. split; [by apply set_failures_inv|]. right. split_and!; try done.
    intros q. by eapply ring_all_empty.
  - intros j pn l i Hj He n Hl Hat Hn Hi Hf. split; [by eapply alloc_post_inv|]. left.
    split; [done|]. split.
    + exists pn, i. destruct (ai_pages _ Hinv pn) as (i'&Hi'&_&Hhw&_); [apply Hat|]. simplify_eq.
      split_and!; try done. destruct (pi_hwpage i); [|done]. by rewrite Hhw in Hf by (by left).
    + exists pn, n. split_and!; try done. by exists j.
Qed.

Lemma page_free_spec m p :
  alloc_inv m → page_used m p →
  wp (page_free p) m (λ _ m', alloc_inv m' ∧ free_rel m p m').
Proof.
  intros Hinv Hus. apply page_free_wp; [done..|]. intros pn i n l Hat -> Hi Hf Hw Hn Hl.
  split; [by eapply free_post_inv|]. by exists pn, i.
Qed.

Lemma page_at_conf m m' pn p : pm_conf m' = pm_conf m → page_at m' pn p ↔ page_at m pn p.
Proof. unfold page_at. by intros ->. Qed.

(** How the status of a page changes. *)
Lemma alloc_rel_status m p m' :
  alloc_rel m p m' →
  page_free_p m p ∧ page_used m' p ∧
  (∀ q, q ≠ p → page_used m q → page_used m' q) ∧
  (∀ q, page_free_p m q ↔ page_free_p m' q ∨ q = p).
Proof.
  intros (pn&i&Hat&Hi&Hf&Hw&Hi'&_&Hc).
  assert (Hne : ∀ q pn', q ≠ p → page_at m pn' q → pm_info m' !! pn' = pm_info m !! pn').
  { intros q pn' Hq Hat'. rewrite Hi', lookup_insert_ne; [done|]. intros ->.
    destruct Hat, Hat'. congruence. }
  assert (Hnew : pm_info m' !! pn = Some (pi_set_free false i)) by (rewrite Hi'; apply lookup_insert_eq).
  split_and!.
  - by exists pn, i.
  - exists pn, (pi_set_free false i). by rewrite page_at_conf.
  - intros q Hq (pn'&i'&Hat'&Hin&?&?). exists pn', i'. rewrite page_at_conf by done.
    by rewrite (Hne q).
  - intros q. split.
    + intros (pn'&i'&Hat'&Hin&?). destruct (decide (q = p)) as [->|Hq]; [by right|]. left.
      exists pn', i'. rewrite page_at_conf by done. by rewrite (Hne q).
    + intros [(pn'&i'&Hat'&Hin&Hf')| ->]; [|by exists pn, i].
      rewrite page_at_conf in Hat' by done. destruct (decide (q = p)) as [->|Hq]; [by exists pn, i|].
      exists pn', i'. by rewrite (Hne q) in Hin.
Qed.

Lemma free_rel_status m p m' :
  free_rel m p m' →
  page_free_p m' p ∧ page_used m p ∧
  (∀ q, q ≠ p → page_used m q → page_used m' q) ∧
  (∀ q, page_free_p m' q ↔ page_free_p m q ∨ q = p).
Proof.
  intros (pn&i&Hat&Hi&Hf&Hw&Hi'&_&Hc).
  assert (Hne : ∀ q pn', q ≠ p → page_at m pn' q → pm_info m' !! pn' = pm_info m !! pn').
  { intros q pn' Hq Hat'. rewrite Hi', lookup_insert_ne; [done|]. intros ->.
    destruct Hat, Hat'. congruence. }
  set (i1 := pi_set_clear false (pi_set_free true i)).
  assert (Hnew : pm_info m' !! pn = Some i1) by (rewrite Hi'; apply lookup_insert_eq).
  split_and!.
  - exists pn, i1. by rewrite page_at_conf.
  - by exists pn, i.
  - intros q Hq (pn'&i'&Hat'&Hin&?&?). exists pn', i'. rewrite page_at_conf by done.
    by rewrite (Hne q).
  - intros q. split.
    + intros (pn'&i'&Hat'&Hin&Hf'). rewrite page_at_conf in Hat' by done.
      destruct (decide (q = p)) as [->|Hq]; [by right|]. left.
      exists pn', i'. by rewrite (Hne q) in Hin.
    + intros [(pn'&i'&Hat'&Hin&Hf')| ->]; [|exists pn, i1; by rewrite page_at_conf].
      destruct (decide (q = p)) as [->|Hq]; [exists pn, i1; by rewrite page_at_conf|].
      exists pn', i'. rewrite page_at_conf by done. by rewrite (Hne q).
Qed.

(** ** A checker for the invariant *)

Definition opt_is (o : option Z) (z : Z) : bool := match o with Some x => x =? z | None => false end.

Definition pg_okb (m : pmem) (pn : Z) : bool :=
  match pm_info m !! pn, pm_page m !! page_addr pn with
  | Some i, Some _ =>
      negb ((pi_hwpage i || pi_clear i) && pi_freepage i) &&
      (negb (pi_freepage i) ||
       match page_node (pm_conf m) pn with
       | Some n => match pm_free m !! n with
                   | Some l => existsb (Z.eqb (page_addr pn)) l
                   | None => false
                   end
       | None => false
       end)
  | _, _ => false
  end.

Definition list_okb (m : pmem) (nl : Z * list Z) : bool :=
  bool_decide (NoDup nl.2) &&
  forallb (λ p,
    let pn := (p - PHYSBASE) / PGSIZE in
    (p =? page_addr pn) && (0 <=? pn) && (pn <? mc_npages (pm_conf m)) &&
    opt_is (page_node (pm_conf m) pn) nl.1 &&
    match pm_info m !! pn with Some i => pi_freepage i | None => false end) nl.2.

Definition alloc_invb (m : pmem) : bool :=
  let c := pm_conf m in
  (0 <=? mc_npages c) && (mc_npages c <? 2 ^ 34) && (mc_end c <? 2 ^ 64) &&
  (0 <? nmemnode c) && (nmemnode c <=? JOS_NNODE) &&
  forallb (λ n, (0 <=? n) && (n <? nmemnode c)) (mc_nodeid c) &&
  (0 <=? mc_cpu c) && (mc_cpu c <? Z.of_nat (length (mc_nodeid c))) &&
  forallb (λ pn, match page_node c pn with Some _ => true | None => false end) (seqZ 0 (mc_npages c)) &&
  bool_decide (pm_lock m = ∅) &&
  forallb (λ n, match pm_free m !! n with Some _ => true | None => false end) (seqZ 0 JOS_NNODE) &&
  forallb (pg_okb m) (seqZ 0 (mc_npages c)) &&
  forallb (list_okb m) (map_to_list (pm_free m)).

Lemma forallb_elem {A} (f : A → bool) l x : forallb f l = true → x ∈ l → f x = true.
Proof. intros Hf Hx. rewrite forallb_forall in Hf. apply Hf. by apply list_elem_of_In. Qed.

Lemma pg_okb_sound m pn : pg_okb m pn = true → pg_ok m pn.
Proof.
  unfold pg_okb, pg_ok. destruct (pm_info m !! pn) as [i|]; [|done].
  destruct (pm_page m !! _) eqn:Hp; [|done]. intros [Hh Hf]%andb_true_iff.
  exists i. split_and!; [done|done| |].
  - intros Hw. destruct (pi_freepage i), (pi_hwpage i), (pi_clear i); try done; by destruct Hw.
  - intros Hfr. rewrite Hfr in Hf. simpl in Hf. destruct (page_node _ pn) as [n|]; [|done].
    destruct (pm_free m !! n) as [l|] eqn:Hl; [|done]. exists n, l. split_and!; try done.
    apply existsb_exists in Hf as (x&Hx&Heq). apply list_elem_of_In.
    by rewrite (proj1 (Z.eqb_eq _ _) Heq).
Qed.

Lemma list_okb_sound m n l : list_okb m (n, l) = true → list_ok m n l.
Proof.
  unfold list_okb. intros [Hnd%bool_decide_eq_true Hl]%andb_true_iff. split; [done|].
  intros p Hp. apply (forallb_elem _ _ _ Hl) in Hp. simpl in Hp.
  set (pn := (p - PHYSBASE) / PGSIZE) in *. rewrite !andb_true_iff in Hp.
  destruct Hp as [[[[Hpa Hlo] Hhi] Hn] Hi].
  destruct (pm_info m !! pn) as [i|] eqn:Hin; [|done]. exists pn, i.
  unfold opt_is in Hn. destruct (page_node _ pn) as [n'|]; [|done].
  apply Z.eqb_eq in Hn, Hpa. clearbody pn. subst n'. split_and!; try done. split; [done|lia].
Qed.

Lemma alloc_invb_sound m : alloc_invb m = true → alloc_inv m.
Proof.
  unfold alloc_invb. rewrite !andb_true_iff.
  intros [[[[[[[[[[[[H1 H2] H3] H4] H5] H6] H7] H8] H9] H10] H11] H12] H13].
  apply bool_decide_eq_true in H10. split; try done.
  - unfold conf_ok. lia.
  - unfold nodes_ok. split_and!; try lia.
    + apply Forall_forall. intros n Hn%(forallb_elem _ _ _ H6). simpl in Hn. lia.
    + intros pn Hpn. apply (forallb_elem _ _ pn) in H9; [|by apply elem_of_seqZ].
      unfold page_node in H9. case_match; [by eexists|done].
  - intros n Hn. apply (forallb_elem _ _ n) in H11; [|by apply elem_of_seqZ].
    simpl in H11. destruct (pm_free m !! n) as [l|]; [by exists l|done].
  - intros pn Hpn. apply pg_okb_sound, (forallb_elem _ _ pn H12), elem_of_seqZ. lia.
  - intros n l Hl. by apply list_okb_sound, (forallb_elem _ _ (n, l) H13), elem_of_map_to_list.
Qed.

(** ** A small machine: two CPUs, two nodes, six pages *)

Module Machine2.
Definition conf : mconf :=
  MConf 0 [0; 1] [MemNode 0 12288 [true; false]; MemNode 12288 12288 [false; true]] 6
        (KERNBASE + 1048576).
Definition free_info : page_info := pi_set_free true zero_info.
(** Pages 1 and 2 are free on node 0 and page 4 on node 1; 0, 3 and 5 are in use. *)
Definition mem : pmem :=
  PMem conf
    (list_to_map ((0, [page_addr 2; page_addr 1]) :: (1, [page_addr 4]) ::
                  ((λ n, (n, [])) <$> seqZ 2 14)))
    ∅ 0
    (list_to_map [(0, zero_info); (1, free_info); (2, free_info); (3, zero_info);
                  (4, free_info); (5, zero_info)])
    (list_to_map ((λ pn, (page_addr pn, PgJunk)) <$> seqZ 0 6)).

Lemma mem_inv : alloc_inv mem.
Proof. apply alloc_invb_sound. vm_compute. reflexivity. Qed.
End Machine2.

(** ** Properties *)

(** C16: [page_alloc] never panics, hangs or runs out of its search bound, and
    implements allocation from an abstract set of free pages: either the set is
    empty, the error is [-E_NO_MEM] and the set is unchanged, or a page of the set
    is returned and removed, and it comes from the nearest node (in ring order
    from the caller's) that has a free page.  No page's contents change. *)
Theorem page_alloc_refines m pid node :
  alloc_inv m → home_node (pm_conf m) pid = Some node →
  wp (page_alloc pid) m (λ res m',
    alloc_inv m' ∧ pm_page m' = pm_page m ∧
    ((res.1 = 0 ∧ page_free_p m res.2 ∧ page_used m' res.2 ∧
      (∀ q, page_free_p m' q ↔ page_free_p m q ∧ q ≠ res.2) ∧
      ∃ pn n, res.2 = page_addr pn ∧ page_node (pm_conf m) pn = Some n ∧ nearest m node n) ∨
     (res.1 = - E_NO_MEM ∧ (∀ q, ¬ page_free_p m q) ∧ (∀ q, page_free_p m' q ↔ page_free_p m q)))).
Proof.
  intros Hinv Hh. eapply wp_mono; [by apply page_alloc_spec|].
  intros [r p] m' [Hinv' [(->&Hrel&Hn)|(->&->&Hno)]]; simpl.
  - destruct (alloc_rel_status _ _ _ Hrel) as (Hf&Hu&Hk&Hst).
    split; [done|]. split; [by destruct Hrel as (?&?&?&?&?&?&?&?&?)|]. left. split_and!; try done.
    intros q. rewrite Hst. split; [|tauto]. intros Hq. split; [by left|]. intros ->.
    destruct Hq as (pn&i&Hat&Hi&Hfi), Hu as (pn'&i'&Hat'&Hi'&Hfi'&_).
    rewrite (page_at_inj _ _ _ _ Hat Hat') in Hi. congruence.
  - split; [done|]. split; [done|]. by right.
Qed.

Lemma page_alloc_refines_witness :
  page_alloc 1 Machine2.mem =
    Ret (0, page_addr 4)
        (alloc_post Machine2.mem 4 1 [] Machine2.free_info) ∧
  alloc_inv (alloc_post Machine2.mem 4 1 [] Machine2.free_info).
Proof.
  assert (H : wp (page_alloc 1) Machine2.mem (λ _ m', alloc_inv m')).
  { eapply wp_mono; [apply (page_alloc_refines Machine2.mem 1 1 Machine2.mem_inv); reflexivity|].
    intros res m' Hm. exact (proj1 Hm). }
  assert (E : page_alloc 1 Machine2.mem =
              Ret (0, page_addr 4) (alloc_post Machine2.mem 4 1 [] Machine2.free_info))
    by (vm_compute; reflexivity).
  split; [exact E|]. unfold wp in H. rewrite E in H. exact H.
Defined.

(** C17: [page_free] of a page in use returns, adds exactly that page to the free
    set, and destroys no contents but the page's own. *)
Theorem page_free_refines m p :
  alloc_inv m → page_used m p →
  wp (page_free p) m (λ _ m',
    alloc_inv m' ∧ pm_page m' = <[p := PgJunk]> (pm_page m) ∧
    (∀ q, page_free_p m' q ↔ page_free_p m q ∨ q = p) ∧
    (∀ q, q ≠ p → page_used m q → page_used m' q)).
Proof.
  intros Hinv Hu. eapply wp_mono; [by apply page_free_spec|].
  intros _ m' [Hinv' Hrel]. destruct (free_rel_status _ _ _ Hrel) as (_&_&?&?).
  split_and!; try done. by destruct Hrel as (?&?&?&?&?&?&?&?&?).
Qed.

Lemma page_free_refines_witness :
  wp (page_free (page_addr 3)) Machine2.mem (λ _ m', alloc_inv m' ∧ page_free_p m' (page_addr 3)).
Proof.
  eapply wp_mono.
  { apply (page_free_refines Machine2.mem (page_addr 3) Machine2.mem_inv).
    exists 3, zero_info. split; [split; [reflexivity|simpl; lia]|]. vm_compute. tauto. }
  intros _ m' (Hinv&_&Hf&_). split; [exact Hinv|]. apply Hf. right. reflexivity.
Defined.

(** freeing a page that is already free always panics: no double free goes
    unnoticed. *)
Theorem page_free_double m p :
  alloc_inv m → page_free_p m p → page_free p m = Crash Panic.
Proof.
  intros Hinv (pn&i&Hat&Hi&Hf). pose proof (ai_conf _ Hinv) as Hc.
  destruct (ai_pages _ Hinv pn) as (i'&Hi'&_&Hw&Hl); [apply Hat|]. simplify_eq.
  destruct (Hl Hf) as (n&l&Hn&_). assert (Hr := page_node_range _ _ _ (ai_nodes _ Hinv) Hn).
  assert (H1 : page_to_pageinfo p m = Ret pn m).
  { destruct (proj1 (wp_run _ _ (λ a s, a = pn ∧ s = m)) (page_to_pageinfo_page _ _ _ _ Hc Hat (conj eq_refl eq_refl)))
      as (?&?&?&->&->). done. }
  assert (H2 : kva2pa p m = Ret (PGSIZE * pn) m).
  { destruct (proj1 (wp_run _ _ (λ a s, a = PGSIZE * pn ∧ s = m)) (kva2pa_page _ _ _ _ Hc Hat (conj eq_refl eq_refl)))
      as (?&?&?&->&->). done. }
  unfold page_free, get_info, deref, arch_node_by_addr, gets, mbind, m_bind. rewrite H1, Hi.
  destruct (pi_hwpage i); [by rewrite Hw in Hf by (by left)|]. rewrite H2.
  change (node_scan _ _ _) with (page_node (pm_conf m) pn). rewrite Hn. unfold mret, m_ret.
  rewrite (proj2 (Z.leb_le 0 n)) by lia. rewrite (page_at_aligned _ _ _ Hc Hat). simpl. by rewrite Hf.
Qed.

Lemma page_free_double_witness :
  page_free_p Machine2.mem (page_addr 2) ∧ page_free (page_addr 2) Machine2.mem = Crash Panic.
Proof.
  assert (H : page_free_p Machine2.mem (page_addr 2)).
  { exists 2, Machine2.free_info. split; [split; [reflexivity|simpl; lia]|]. vm_compute. tauto. }
  split; [exact H|]. exact (page_free_double Machine2.mem (page_addr 2) Machine2.mem_inv H).
Defined.

(** *** Histories of allocations and frees

    The kernel's use of the allocator, in any order: [own] is the set of pages
    that were allocated and not freed since.  A step is a call that returned. *)
Inductive alloc_step : pmem * gset Z → pmem * gset Z → Prop :=
| step_alloc m own pid p m' :
    is_Some (home_node (pm_conf m) pid) →
    page_alloc pid m = Ret (0, p) m' → alloc_step (m, own) (m', {[p]} ∪ own)
| step_no_mem m own pid r p m' :
    is_Some (home_node (pm_conf m) pid) →
    page_alloc pid m = Ret (r, p) m' → r ≠ 0 → alloc_step (m, own) (m', own)
| step_free m own p m' :
    p ∈ own → page_free p m = Ret tt m' → alloc_step (m, own) (m', own ∖ {[p]}).

(** Pages owned are in use, and owned plus free is what was free at the start. *)
Definition owned_inv (m0 : pmem) (st : pmem * gset Z) : Prop :=
  alloc_inv st.1 ∧ pm_conf st.1 = pm_conf m0 ∧
  (∀ p, p ∈ st.2 → page_used st.1 p) ∧
  (∀ p, page_free_p m0 p ↔ page_free_p st.1 p ∨ p ∈ st.2).

Lemma page_used_not_free m p : page_used m p → page_free_p m p → False.
Proof.
  intros (pn&i&Hat&Hi&Hf&_) (pn'&i'&Hat'&Hi'&Hf').
  rewrite (page_at_inj _ _ _ _ Hat Hat') in Hi. congruence.
Qed.

Lemma owned_inv_alloc m0 m own pid p m' :
  owned_inv m0 (m, own) → is_Some (home_node (pm_conf m) pid) →
  page_alloc pid m = Ret (0, p) m' → (p ∉ own) ∧ owned_inv m0 (m', {[p]} ∪ own).
Proof.
  intros (Hinv&Hc&Hown&Hall) [node Hh] Hrun. simpl in *.
  assert (H := page_alloc_spec _ _ _ Hinv Hh). unfold wp in H. rewrite Hrun in H.
  destruct H as [Hinv' [(_&Hrel&_)|(?&_)]]; [|done].
  destruct (alloc_rel_status _ _ _ Hrel) as (Hf&Hu&Hk&Hst).
  assert (p ∉ own) by (intros Hp; by eapply page_used_not_free; [apply Hown|]).
  split; [done|]. split_and!; simpl; [done| | |].
  - destruct Hrel as (?&?&?&?&?&?&?&?&->). done.
  - intros q [->%elem_of_singleton|Hq]%elem_of_union; [done|].
    apply Hk; [by intros ->|by apply Hown].
  - intros q. rewrite Hall, Hst, elem_of_union, elem_of_singleton. tauto.
Qed.

Lemma owned_inv_free m0 m own p m' :
  owned_inv m0 (m, own) → p ∈ own → page_free p m = Ret tt m' → owned_inv m0 (m', own ∖ {[p]}).
Proof.
  intros (Hinv&Hc&Hown&Hall) Hp Hrun. simpl in *.
  assert (H := page_free_spec _ _ Hinv (Hown _ Hp)). unfold wp in H. rewrite Hrun in H.
  destruct H as [Hinv' Hrel]. destruct (free_rel_status _ _ _ Hrel) as (Hf&Hu&Hk&Hst).
  split_and!; simpl; [done| | |].
  - destruct Hrel as (?&?&?&?&?&?&?&?&->). done.
  - intros q [Hq Hne]%elem_of_difference. rewrite elem_of_singleton in Hne. auto.
  - intros q. rewrite Hall, Hst, elem_of_difference, elem_of_singleton.
    destruct (decide (q = p)) as [->|]; tauto.
Qed.

Lemma owned_inv_step m0 st st' : owned_inv m0 st → alloc_step st st' → owned_inv m0 st'.
Proof.
  intros HI Hs. destruct Hs as [m own pid p m' Hh Hr|m own pid r p m' [node Hh] Hr Hne|m own p m' Hp Hr].
  - by eapply owned_inv_alloc.
  - destruct HI as (Hinv&Hc&Hown&Hall). simpl in *.
    assert (H := page_alloc_spec _ _ _ Hinv Hh). unfold wp in H. rewrite Hr in H.
    destruct H as [Hinv' [(?&_)|(_&->&_)]]; [done|]. by split_and!.
  - by eapply owned_inv_free.
Qed.

(** C2: after any history of allocations and frees, no page is handed out while
    somebody owns it, an owned page can always be freed, allocation always
    returns, and no page is lost: the pages that were free at the start are
    exactly those that are owned or free now. *)
Theorem alloc_history_safe m0 m own :
  alloc_inv m0 → rtc alloc_step (m0, ∅) (m, own) →
  alloc_inv m ∧
  (∀ pid, is_Some (home_node (pm_conf m) pid) →
     wp (page_alloc pid) m (λ res _, res.1 = 0 → (res.2 ∉ own) ∧ page_free_p m0 res.2)) ∧
  (∀ p, p ∈ own → wp (page_free p) m (λ _ m', page_free_p m' p)) ∧
  (∀ p, page_free_p m0 p ↔ page_free_p m p ∨ p ∈ own).
Proof.
  intros Hinv0 Hsteps.
  assert (HI : owned_inv m0 (m, own)).
  { eapply rtc_invariant; [apply owned_inv_step| |exact Hsteps].
    split_and!; [done|done| |]; simpl; [by intros p ?%not_elem_of_empty|].
    intros p. rewrite elem_of_empty. tauto. }
  pose proof HI as (Hinv&Hc&Hown&Hall). simpl in *. split_and!; [done| | |done].
  - intros pid Hh. pose proof Hh as [node Hnode].
    destruct (proj1 (wp_run _ _ _) (page_alloc_spec _ _ _ Hinv Hnode)) as ([r p]&m'&Hrun&_&Hpost).
    apply wp_run. exists (r, p), m'. split; [done|]. simpl. intros ->.
    destruct (owned_inv_alloc _ _ _ _ _ _ HI Hh Hrun) as [Hp (_&_&_&Hall')]. split; [done|].
    apply Hall'. right. simpl. apply elem_of_union_l, elem_of_singleton_2. done.
  - intros p Hp. eapply wp_mono; [by apply page_free_spec; [|apply Hown]|].
    intros _ m' [_ Hrel]. exact (proj1 (free_rel_status _ _ _ Hrel)).
Qed.

Lemma alloc_history_safe_witness :
  ∃ m, rtc alloc_step (Machine2.mem, ∅) (m, {[page_addr 1; page_addr 2]}) ∧
       wp (page_alloc 0) m (λ res _, res.1 = 0 → res.2 ∉ ({[page_addr 1; page_addr 2]} : gset Z)).
Proof.
  set (m1 := alloc_post Machine2.mem 2 0 [page_addr 1] Machine2.free_info).
  set (m2 := alloc_post m1 1 0 [] Machine2.free_info).
  assert (Hs : rtc alloc_step (Machine2.mem, ∅) (m2, {[page_addr 1; page_addr 2]})).
  { eapply rtc_l; [eapply (step_alloc _ _ 0 (page_addr 2) m1)|].
    - exists 0. reflexivity.
    - vm_compute. reflexivity.
    - replace ({[page_addr 1; page_addr 2]} : gset Z) with ({[page_addr 1]} ∪ ({[page_addr 2]} ∪ ∅) : gset Z)
        by (vm_compute; reflexivity).
      eapply rtc_once, (step_alloc _ _ 0 (page_addr 1) m2).
      + exists 0. reflexivity.
      + vm_compute. reflexivity. }
  exists m2. split; [exact Hs|].
  destruct (alloc_history_safe _ _ _ Machine2.mem_inv Hs) as (_&Ha&_).
  eapply wp_mono; [apply (Ha 0); exists 0; reflexivity|].
  intros res m' Hr Hz. exact (proj1 (Hr Hz)).
Defined.

(** memory is recycled locally and last in first out: a page freed and then
    allocated for a CPU of the page's own node is the page returned, and the free
    lists are as before the free. *)
Theorem page_free_alloc_lifo m p pn node pid :
  alloc_inv m → page_used m p → page_at m pn p → page_node (pm_conf m) pn = Some node →
  home_node (pm_conf m) pid = Some node →
  wp (page_free p;; page_alloc pid) m (λ res m', res = (0, p) ∧ pm_free m' = pm_free m).
Proof.
  intros Hinv Hu Hat Hn Hh. wp_pure. apply page_free_wp; [done..|].
  intros pn' i n l Hat' -> Hi Hf Hw Hn' Hl.
  rewrite (page_at_inj _ _ _ _ Hat Hat') in *. simplify_eq.
  assert (Hinv' : alloc_inv (free_post m pn' node l i)) by (by eapply free_post_inv).
  assert (Hr := home_node_range _ _ _ (ai_nodes _ Hinv) Hh).
  assert (Hl' : pm_free (free_post m pn' node l i) !! node = Some (page_addr pn' :: l)) by apply lookup_insert_eq.
  eapply (page_alloc_wp _ _ node); [exact Hinv'|exact Hh| |].
  - intros He. specialize (He 0). rewrite Z.add_0_r, Z.mod_small in He by exact Hr.
    rewrite Hl' in He. simpl in He. discriminate He. lia.
  - intros j q l' i' Hj He. simpl. intros Hq _ _ _ _.
    assert (j = 0) as ->.
    { destruct (decide (j = 0)) as [|Hj0]; [done|]. specialize (He 0).
      rewrite Z.add_0_r, Z.mod_small in He by exact Hr.
      rewrite Hl' in He. discriminate He. lia. }
    rewrite Z.add_0_r, Z.mod_small in * by exact Hr. rewrite lookup_insert_eq in Hq.
    injection Hq as Hq <-. split; [by rewrite Hq|]. rewrite insert_insert_eq. by apply insert_id.
Qed.

Lemma page_free_alloc_lifo_witness :
  wp (page_free (page_addr 5);; page_alloc 1) Machine2.mem
     (λ res m', res = (0, page_addr 5) ∧ pm_free m' = pm_free Machine2.mem).
Proof.
  apply (page_free_alloc_lifo Machine2.mem (page_addr 5) 5 1 1 Machine2.mem_inv).
  - exists 5, zero_info. split; [split; [reflexivity|simpl; lia]|]. vm_compute. tauto.
  - split; [reflexivity|simpl; lia].
  - reflexivity.
  - reflexivity.
Defined.
