(* ===== verification/Boot.v ===== *)
(** * Boot: from the memory map to the page allocator

    kern/arch/amd64/page.c and kern/arch/amd64/numa.c, run by [init_bsp] of
    kern/arch/amd64/init.c: the memory map of the BIOS, the early allocator
    [boot_alloc], the nodes, the array [page_infos] and the first [page_free] of
    every usable page.

    The code starts from zeroed globals and ends in the allocator's invariant
    [alloc_inv], which the theorems on the allocator and its clients assume.  What
    comes from outside the code is an argument: the linker's symbols [end],
    [sreplicate] and [ereplicate], the number of CPUs that mp_init found and the
    registers of the clock chip. *)
From S2P Require Import Prelude Machine Hashtable Ktypes Kmem PageAlloc.

(** ** The code *)

Definition E820_RAM : Z := 1.
Definition E820MAX : Z := 128.
Record e820entry := E820 { e_addr : Z; e_size : Z; e_type : Z }.
Definition APBOOTSTRAP : Z := 0x7000.
Definition NVRAM_BASELO : Z := 0xe + 7.
Definition NVRAM_EXTLO : Z := 0xe + 9.

(** The globals of page.c beside those the memory model has ([global_npages] is
    [mc_npages], [page_infos] is [pm_info]); [b_infos] is the address [page_infos]
    is placed at. *)
Record boot := Boot {
  boot_freemem : Z;
  boot_endmem : Z;
  membytes : Z;
  largest_ram_start : Z;
  e820_map : list e820entry;
  b_infos : Z;
  b_pm : pmem;
}.
Definition npages (b : boot) : Z := mc_npages (pm_conf (b_pm b)).

Definition set_freemem (z : Z) (b : boot) : boot :=
  Boot z (boot_endmem b) (membytes b) (largest_ram_start b) (e820_map b) (b_infos b) (b_pm b).
Definition set_range (f e : Z) (b : boot) : boot :=
  Boot f e (membytes b) (largest_ram_start b) (e820_map b) (b_infos b) (b_pm b).
Definition set_membytes (z : Z) (b : boot) : boot :=
  Boot (boot_freemem b) (boot_endmem b) z (largest_ram_start b) (e820_map b) (b_infos b) (b_pm b).
Definition set_largest (z : Z) (b : boot) : boot :=
  Boot (boot_freemem b) (boot_endmem b) (membytes b) z (e820_map b) (b_infos b) (b_pm b).
Definition set_map (l : list e820entry) (b : boot) : boot :=
  Boot (boot_freemem b) (boot_endmem b) (membytes b) (largest_ram_start b) l (b_infos b) (b_pm b).
Definition set_infos (p : Z) (b : boot) : boot :=
  Boot (boot_freemem b) (boot_endmem b) (membytes b) (largest_ram_start b) (e820_map b) p (b_pm b).
Definition set_pm (m : pmem) (b : boot) : boot :=
  Boot (boot_freemem b) (boot_endmem b) (membytes b) (largest_ram_start b) (e820_map b) (b_infos b) m.
Definition on_pm {A} : M pmem A → M boot A := zoom b_pm set_pm.

Definition set_conf (f : mconf → mconf) (m : pmem) : pmem :=
  PMem (f (pm_conf m)) (pm_free m) (pm_lock m) (pm_failures m) (pm_info m) (pm_page m).
Definition set_npages (n : Z) (c : mconf) : mconf :=
  MConf (mc_cpu c) (mc_nodeid c) (mc_memnode c) n (mc_end c).
Definition set_nodes (ids : list Z) (l : list memory_node) (c : mconf) : mconf :=
  MConf (mc_cpu c) ids l (mc_npages c) (mc_end c).
Definition set_all_info (l : gmap Z page_info) (m : pmem) : pmem :=
  PMem (pm_conf m) (pm_free m) (pm_lock m) (pm_failures m) l (pm_page m).

Section boot.
(** [(uintptr_t)end], [(uintptr_t)sreplicate], [(uintptr_t)ereplicate]; [ncpu];
    [mc146818_read]. *)
Context (end_ sreplicate ereplicate ncpu : Z) (mc146818_read : Z → Z).

Definition nvram_read (r : Z) : Z :=
  s32 (Z.lor (mc146818_read r) (u32 (Z.shiftl (mc146818_read (r + 1)) 8))).

(** [s] and [e] of the two loops over the map. *)
Definition e_start (d : e820entry) : Z := ROUNDUP (e_addr d) PGSIZE.
Definition e_stop (d : e820entry) : Z := ROUNDDOWN (u64 (e_addr d + e_size d)) PGSIZE.

Fixpoint detect_loop (desc : list e820entry) (largest_ram_size : Z) : M boot unit :=
  match desc with
  | [] => mret tt
  | d :: desc' =>
      if negb (e_type d =? E820_RAM) then detect_loop desc' largest_ram_size else
      modify (λ b, set_membytes (u64 (membytes b + e_size d)) b);;
      let s := e_start d in
      let e := e_stop d in
      when ((s <? RELOC end_) && (RELOC end_ <? e))
        (modify (set_range (u64 (RELOC end_ + PHYSBASE)) (u64 (e + PHYSBASE))));;
      np ← gets npages;
      when (e / PGSIZE >? np) (on_pm (modify (set_conf (set_npages (e / PGSIZE)))));;
      if largest_ram_size <? e_size d
      then modify (set_largest (e_addr d));; detect_loop desc' (e_size d)
      else detect_loop desc' largest_ram_size
  end.
Definition e820_detect_memory (desc : list e820entry) : M boot unit :=
  modify (set_membytes 0);; detect_loop desc 0.

Definition boot_alloc (n align : Z) : M boot Z :=
  let n := u32 n in
  modify (λ b, set_freemem (ROUNDUP (boot_freemem b) align) b);;
  f ← gets boot_freemem; e ← gets boot_endmem;
  if (u64 (f + n) <? f) || (u64 (f + n) >? e) then panic
  else modify (set_freemem (u64 (f + n)));; mret f.

Definition rep_size : Z := u64 (ROUNDUP ereplicate PGSIZE - ROUNDDOWN sreplicate PGSIZE).
(** One round of the loop over the nodes. *)
Definition in_replica (ppn : Z) (mn : memory_node) : bool :=
  if rep_size >? mn_length mn then false
  else (mn_baseaddr mn / PGSIZE <=? ppn) && (ppn <? u64 (mn_baseaddr mn + rep_size) / PGSIZE).
Definition page_inuse (b : boot) (ppn : Z) : bool :=
  if ppn =? 0 then true
  else if ppn =? APBOOTSTRAP / PGSIZE then true
  else if (IOPHYSMEM / PGSIZE <=? ppn) && (ppn <? EXTPHYSMEM / PGSIZE) then true
  else if (EXTPHYSMEM / PGSIZE <=? ppn) && (ppn <? u64 (boot_freemem b - PHYSBASE) / PGSIZE) then true
  else existsb (in_replica ppn) (mc_memnode (pm_conf (b_pm b))).

Definition free_unused (j : Z) : M boot unit :=
  b ← get;
  when (negb (page_inuse b j)) (on_pm (page_free (pa2kva (u64 (Z.shiftl j PGSHIFT))))).
Fixpoint e820_page_init (desc : list e820entry) : M boot unit :=
  match desc with
  | [] => mret tt
  | d :: desc' =>
      (if negb (e_type d =? E820_RAM) then mret tt else
       let startpg := e_start d / PGSIZE in
       let endpg := e_stop d / PGSIZE in
       for_each (Z.to_nat (endpg - startpg)) startpg free_unused);;
      e820_page_init desc'
  end.

(** [map] with its length [n]; the copy goes to an array of [E820MAX] entries. *)
Definition mem_init (lower_kb upper_kb : Z) (map : list e820entry) : M boot unit :=
  match map with
  | [] =>
      let lower_kb := if lower_kb =? 0 then u64 (nvram_read NVRAM_BASELO) else lower_kb in
      let upper_kb := if upper_kb =? 0 then u64 (nvram_read NVRAM_EXTLO) else upper_kb in
      let low := ROUNDDOWN (u64 (lower_kb * 1024)) PGSIZE in
      c_assert (low <=? IOPHYSMEM);;
      modify (set_map [E820 0 low E820_RAM; E820 EXTPHYSMEM (ROUNDDOWN (u64 (upper_kb * 1024)) PGSIZE) E820_RAM])
  | _ => if Z.of_nat (length map) >? E820MAX then undef else modify (set_map map)
  end;;
  l ← gets e820_map;
  e820_detect_memory l.

(** *** numa_init, with [fake_nodes] = 1 as the file has it: one node per CPU. *)
Definition one_cpu (i : Z) : list bool := (λ j, j =? i) <$> seqZ 0 JOS_NCPU.
Fixpoint fake_loop (k : nat) (i baseaddr size : Z) : list memory_node :=
  match k with
  | O => []
  | S k' => MemNode baseaddr size (one_cpu i) :: fake_loop k' (i + 1) (u64 (baseaddr + size)) size
  end.
Definition fake_memnode (np largest : Z) : list memory_node :=
  let total := u64 (np * 4096) in
  let size := total / ncpu in
  let '(len0, size, baseaddr) :=
    if (1 <? ncpu) && (size <? largest)
    then (largest, u64 (total - largest) / (ncpu - 1), largest)
    else (size, size, size) in
  MemNode 0 len0 (one_cpu 0) :: fake_loop (Z.to_nat (ncpu - 1)) 1 baseaddr size.
(** [for (j = 0; j < ncpu; j++) if (memnode[i].cpu[j].p) cpus[j].nodeid = i;] *)
Definition assign_node (i : Z) (mn : memory_node) (ids : list Z) : list Z :=
  imap (λ j id, if (Z.of_nat j <? ncpu) && default false (mn_cpu mn !! j) then i else id) ids.
Fixpoint assign_nodes (i : Z) (l : list memory_node) (ids : list Z) : list Z :=
  match l with [] => ids | mn :: l' => assign_nodes (i + 1) l' (assign_node i mn ids) end.
Definition numa_init : M boot unit :=
  if (ncpu <=? 0) || (ncpu >? JOS_NNODE) then undef else
  b ← get;
  let l := fake_memnode (npages b) (largest_ram_start b) in
  on_pm (modify (set_conf (λ c, set_nodes (assign_nodes 0 l (mc_nodeid c)) l c))).

(** [sizeof( *page_infos)]: the struct is padded to a cache line. *)
Definition sizeof_page_info : Z := 64.
Definition zero_infos (n : Z) : gmap Z page_info := list_to_map ((λ pn, (pn, zero_info)) <$> seqZ 0 n).

Definition page_init : M boot unit :=
  on_pm page_alloc_init;;
  boot_alloc 0 PGSIZE;;
  np ← gets npages;
  let sz := u64 (np * sizeof_page_info) in
  p ← boot_alloc sz PGSIZE;
  modify (set_infos p);;
  on_pm (modify (set_all_info (zero_infos np)));;
  boot_alloc 0 PGSIZE;;
  l ← gets e820_map;
  e820_page_init l;;
  for_each (Z.to_nat ((BIOSPHYSMEM - IOPHYSMEM) / PGSIZE)) 0 (λ k,
    on_pm (page_register_hw (pa2kva (IOPHYSMEM + k * PGSIZE)))).

(** The part of [init_bsp] that concerns memory, and the end of [bootothers]. *)
Definition init_memory (lower_kb upper_kb : Z) (map : list e820entry) : M boot unit :=
  mem_init lower_kb upper_kb map;;
  numa_init;;
  page_init.
Definition bootothers_done : M boot unit := on_pm (page_free (pa2kva APBOOTSTRAP)).
End boot.
