(* ===== verification/BootThms.v ===== *)
(** * Boot establishes the allocator's invariant

    Every step of Boot.v, and the theorem that the machine comes up with a sound
    page allocator whose free pages are exactly the usable ones: RAM of the memory
    map that is not the kernel's image, its page table of metadata, the I/O hole,
    the bootstrap page or a replica of the kernel's text. *)
From S2P Require Import Prelude Machine Hashtable Ktypes Kmem PageAlloc Boot.

(** ** The memory map *)

Definition is_ram (d : e820entry) : bool := e_type d =? E820_RAM.
(** The pages that lie completely inside an entry. *)
Definition entry_pages (d : e820entry) : list Z :=
  if is_ram d then seqZ (e_start d / PGSIZE) (e_stop d / PGSIZE - e_start d / PGSIZE) else [].
Definition ram_pages (map : list e820entry) : list Z := map ≫= entry_pages.
Fixpoint map_npages (map : list e820entry) : Z :=
  match map with
  | [] => 0
  | d :: map' => if is_ram d then Z.max (e_stop d / PGSIZE) (map_npages map') else map_npages map'
  end.
Definition entry_ok (d : e820entry) : Prop :=
  0 ≤ e_addr d ∧ 0 ≤ e_size d ∧ e_addr d + e_size d < 2 ^ 46.

Lemma pgsize : PGSIZE = 4096.
Proof. done. Qed.
Lemma e_start_page d : entry_ok d → e_start d = 4096 * ((e_addr d + 4095) / 4096).
Proof.
  intros (?&?&?). unfold e_start. rewrite pgsize.
  destruct (ROUNDUP_exact (e_addr d) 4096) as [-> _]; [unfold in_u64; lia|lia|lia|]. do 2 f_equal. lia.
Qed.
Lemma e_stop_page d : entry_ok d → e_stop d = 4096 * ((e_addr d + e_size d) / 4096).
Proof.
  intros (?&?&?). unfold e_stop. rewrite pgsize, u64_small by (unfold in_u64; lia).
  rewrite ROUNDDOWN_small by (unfold in_u64; lia). dlia.
Qed.
Lemma map_npages_ge map d : d ∈ map → is_ram d = true → e_stop d / PGSIZE ≤ map_npages map.
Proof.
  induction map as [|d' map IH]; [by intros ?%elem_of_nil|]. intros [<-|Hin]%elem_of_cons Hr; cbn [map_npages].
  - rewrite Hr. lia.
  - specialize (IH Hin Hr). destruct (is_ram d'); lia.
Qed.
Lemma map_npages_nonneg map : 0 ≤ map_npages map.
Proof. induction map as [|d map IH]; cbn [map_npages]; [lia|]. destruct (is_ram d); lia. Qed.
Lemma map_npages_lt map : Forall entry_ok map → map_npages map < 2 ^ 34.
Proof.
  induction 1 as [|d map Hd Hmap IH]; cbn [map_npages]; [lia|]. destruct (is_ram d); [|done].
  apply Z.max_lub_lt; [|done]. rewrite e_stop_page by done. destruct Hd as (?&?&?). rewrite pgsize. dlia.
Qed.
Lemma ram_page_lt map pn :
  Forall entry_ok map → pn ∈ ram_pages map → 0 ≤ pn < map_npages map.
Proof.
  intros Hok (d & Hpn & Hd)%list_elem_of_bind. rewrite Forall_forall in Hok. specialize (Hok d Hd).
  unfold entry_pages in Hpn. destruct (is_ram d) eqn:Hr; [|by apply elem_of_nil in Hpn].
  apply elem_of_seqZ in Hpn. assert (Hge := map_npages_ge map d Hd Hr).
  assert (0 ≤ e_start d / PGSIZE); [|lia]. rewrite e_start_page by done. destruct Hok as (?&?&?). rewrite pgsize. dlia.
Qed.

(** The next page boundary. *)
Definition page_up (x : Z) : Z := 4096 * ((x + 4095) / 4096).
Lemma page_up_mult x : page_up x = 4096 * (page_up x / 4096).
Proof. unfold page_up. rewrite (Z.mul_comm 4096 ((x + 4095) / 4096)), Z.div_mul by lia. lia. Qed.
Lemma page_up_bound x : x ≤ page_up x < x + 4096.
Proof. unfold page_up. dlia. Qed.

Section boot.
Context (end_ sreplicate ereplicate ncpu : Z).

(** *** e820_detect_memory *)

(** The entry [boot_alloc] takes its memory from. *)
Definition holds_end (d : e820entry) : bool :=
  is_ram d && (e_start d <? RELOC end_) && (RELOC end_ <? e_stop d).

(** What the loop over [desc] makes of a state. *)
Record detected (desc : list e820entry) (big : Z) (b b' : boot) : Prop := Detected {
  det_pm : b_pm b' = set_conf (set_npages (Z.max (npages b) (map_npages desc))) (b_pm b);
  det_map : e820_map b' = e820_map b;
  det_range :
    (∃ d, d ∈ desc ∧ holds_end d = true ∧ boot_freemem b' = u64 (RELOC end_ + PHYSBASE) ∧
          boot_endmem b' = u64 (e_stop d + PHYSBASE)) ∨
    ((∀ d, d ∈ desc → holds_end d = false) ∧ boot_freemem b' = boot_freemem b ∧ boot_endmem b' = boot_endmem b);
  det_largest :
    (∃ d, d ∈ desc ∧ is_ram d = true ∧ largest_ram_start b' = e_addr d ∧ big < e_size d ∧
          ∀ d', d' ∈ desc → is_ram d' = true → e_size d' ≤ e_size d) ∨
    ((∀ d, d ∈ desc → is_ram d = true → e_size d ≤ big) ∧ largest_ram_start b' = largest_ram_start b);
}.

Lemma detected_skip d desc big b b' :
  is_ram d = false → detected desc big b b' → detected (d :: desc) big b b'.
Proof.
  intros Hr [Hpm Hmap Hrange Hlarge]. split; cbn [map_npages].
  - by rewrite Hr.
  - done.
  - destruct Hrange as [(d' & Hd' & ?) | [Hno ?]]; [left; exists d'; by rewrite elem_of_cons; split; [right|]|right].
    split; [|done]. intros d' [->|Hd']%elem_of_cons; [unfold holds_end; by rewrite Hr|by apply Hno].
  - destruct Hlarge as [(d' & Hd' & ? & ? & ? & Hmax) | [Hno ?]].
    + left. exists d'. rewrite elem_of_cons. split_and!; [by right|done|done|done|].
      intros d'' [->|?]%elem_of_cons Hr'; [congruence|by apply Hmax].
    + right. split; [|done]. intros d' [->|?]%elem_of_cons Hr'; [congruence|by apply Hno].
Qed.

(** The state after the entry [d] itself. *)
Definition with_ram (d : e820entry) (big : Z) (b : boot) : boot :=
  let b := set_membytes (u64 (membytes b + e_size d)) b in
  let b := if holds_end d then set_range (u64 (RELOC end_ + PHYSBASE)) (u64 (e_stop d + PHYSBASE)) b else b in
  let b := set_pm (set_conf (set_npages (Z.max (npages b) (e_stop d / PGSIZE))) (b_pm b)) b in
  if big <? e_size d then set_largest (e_addr d) b else b.

Lemma detected_ram d desc big b b' :
  is_ram d = true → detected desc (Z.max big (e_size d)) (with_ram d big b) b' → detected (d :: desc) big b b'.
Proof.
  intros Hr [Hpm Hmap Hrange Hlarge]. unfold with_ram, npages in *. split; cbn [map_npages].
  - rewrite Hr, Hpm. unfold set_conf, set_npages. destruct (holds_end d), (big <? e_size d); cbn; by rewrite Z.max_assoc.
  - rewrite Hmap. by destruct (holds_end d), (big <? e_size d).
  - destruct Hrange as [(d' & Hd' & ?) | [Hno [Hf He]]]; [left; exists d'; rewrite elem_of_cons; split; [by right|done]|].
    destruct (holds_end d) eqn:Hh.
    + left. exists d. rewrite elem_of_cons. split; [by left|]. by destruct (big <? e_size d).
    + right. split; [intros d' [->|?]%elem_of_cons; [done|by apply Hno]|]. by destruct (big <? e_size d).
  - destruct Hlarge as [(d' & Hd' & Hr' & ? & ? & Hmax) | [Hno Hl]].
    + left. exists d'. rewrite elem_of_cons. split_and!; [by right|done|done|lia|].
      intros d'' [->|?]%elem_of_cons Hr''; [lia|by apply Hmax].
    + destruct (Z.ltb_spec big (e_size d)).
      * left. exists d. rewrite elem_of_cons. split_and!; [by left|done|done|done|].
        intros d'' [->|?]%elem_of_cons Hr''; [done|]. specialize (Hno d'' ltac:(done) Hr''). lia.
      * right. rewrite Hl. split; [|by destruct (holds_end d)]. intros d'' [->|?]%elem_of_cons Hr''; [lia|].
        specialize (Hno d'' ltac:(done) Hr''). lia.
Qed.

Lemma detected_nil big b : 0 ≤ npages b → detected [] big b b.
Proof.
  intros Hn. split; cbn [map_npages]; [|done| |].
  - rewrite Z.max_l by done. unfold npages. by destruct b as [??????[[]]].
  - right. split; [|done]. by intros d ?%elem_of_nil.
  - right. split; [|done]. by intros d ?%elem_of_nil.
Qed.
Lemma detect_loop_wp desc big b (Q : unit → boot → Prop) :
  0 ≤ npages b → (∀ b', detected desc big b b' → Q tt b') → wp (detect_loop end_ desc big) b Q.
Proof.
  revert big b Q. induction desc as [|d desc IH]; intros big b Q Hn HQ; cbn [detect_loop].
  { by apply wp_ret, HQ, detected_nil. }
  fold (is_ram d). destruct (is_ram d) eqn:Hr; cbn [negb].
  2:{ apply IH; [done|]. intros b' Hb'. by apply HQ, detected_skip. }
  assert (Hnext : wp (if big <? e_size d then modify (set_largest (e_addr d));; detect_loop end_ desc (e_size d)
                      else detect_loop end_ desc big)
    (let b := set_membytes (u64 (membytes b + e_size d)) b in
     let b := if holds_end d then set_range (u64 (RELOC end_ + PHYSBASE)) (u64 (e_stop d + PHYSBASE)) b else b in
     set_pm (set_conf (set_npages (Z.max (npages b) (e_stop d / PGSIZE))) (b_pm b)) b) Q).
  { assert (Hnext : ∀ b', detected desc (Z.max big (e_size d)) (with_ram d big b) b' → Q tt b').
    { intros b' Hb'. by apply HQ, detected_ram. }
    assert (Hn' : 0 ≤ npages (with_ram d big b)).
    { unfold with_ram, npages in *. destruct (holds_end d), (big <? e_size d); cbn; lia. }
    unfold with_ram in Hnext, Hn'. destruct (Z.ltb_spec big (e_size d)).
    - wp_pure. apply IH; [done|]. by rewrite Z.max_r in Hnext by lia.
    - apply IH; [done|]. by rewrite Z.max_l in Hnext by lia. }
  revert Hnext. unfold holds_end. rewrite Hr. cbn [andb]. clear HQ IH.
  destruct b as [????? ? [[] ?????]]. unfold npages in *. cbn in Hn. wp_pure. cbn -[e_stop PGSIZE u64 Z.max].
  destruct ((e_start d <? RELOC end_) && (RELOC end_ <? e_stop d)); cbn -[e_stop PGSIZE u64 Z.max detect_loop wp];
    intros Hnext; wp_pure; unfold npages; cbn -[e_stop PGSIZE u64 Z.max detect_loop wp].
  all: rewrite Z.gtb_ltb; case Z.ltb_spec; intros; [rewrite Z.max_r in Hnext by lia|rewrite Z.max_l in Hnext by lia].
  all: unfold on_pm; cbn [when]; first [apply wp_zoom; wp_pure; exact Hnext | wp_pure; exact Hnext].
Qed.

(** *** boot_alloc *)

Lemma boot_alloc_wp n x b (Q : Z → boot → Prop) :
  boot_freemem b = PHYSBASE + x → 0 ≤ x < 2 ^ 46 → 0 ≤ n < 2 ^ 32 →
  PHYSBASE + page_up x + n ≤ boot_endmem b →
  Q (PHYSBASE + page_up x) (set_freemem (PHYSBASE + page_up x + n) b) → wp (boot_alloc n PGSIZE) b Q.
Proof.
  intros Hf Hx Hn He HQ. unfold boot_alloc. rewrite (u32_small n) by done. wp_pure. cbn [boot_freemem boot_endmem set_freemem].
  assert (Hup : ROUNDUP (boot_freemem b) PGSIZE = PHYSBASE + page_up x).
  { rewrite Hf, pgsize. destruct (ROUNDUP_exact (PHYSBASE + x) 4096) as [-> _]; unfold in_u64, PHYSBASE, page_up in *; [lia..|dlia]. }
  rewrite Hup. assert (0 ≤ page_up x < 2 ^ 46 + 4096) by (unfold page_up; dlia).
  rewrite u64_small by (unfold in_u64, PHYSBASE in *; lia).
  destruct (Z.ltb_spec (PHYSBASE + page_up x + n) (PHYSBASE + page_up x)); [lia|].
  rewrite Z.gtb_ltb. destruct (Z.ltb_spec (boot_endmem b) (PHYSBASE + page_up x + n)); [lia|]. cbn [orb]. wp_pure. exact HQ.
Qed.

(** *** numa_init *)

Lemma fake_loop_cover k i base size idx p :
  0 ≤ base → 0 ≤ size → base + Z.of_nat k * size < 2 ^ 64 → base ≤ p < base + Z.of_nat k * size →
  is_Some (node_scan (fake_loop k i base size) idx p).
Proof.
  revert i base idx. induction k as [|k IH]; intros i base idx Hb Hs Hlt Hp; [lia|]. cbn [fake_loop node_scan mn_baseaddr mn_length].
  rewrite Nat2Z.inj_succ, Z.mul_succ_l in *. rewrite u64_small by (unfold in_u64; nia).
  destruct (Z.leb_spec base p); [|lia]. destruct (Z.ltb_spec p (base + size)); cbn [andb]; [by eexists|].
  apply IH; [lia|lia|lia|lia].
Qed.
Lemma fake_loop_length k i base size : length (fake_loop k i base size) = k.
Proof. revert i base. induction k as [|k IH]; intros i base; cbn [fake_loop length]; [done|]. by rewrite IH. Qed.
Lemma fake_memnode_length np largest : 0 < ncpu → Z.of_nat (length (fake_memnode ncpu np largest)) = ncpu.
Proof.
  intros Hc. unfold fake_memnode. cbv zeta. destruct ((1 <? ncpu) && _); cbn [length]; rewrite fake_loop_length; lia.
Qed.
Lemma fake_memnode_cover np largest pn :
  0 < ncpu ≤ JOS_NNODE → np < 2 ^ 34 → 0 ≤ largest < 4096 * np → 0 ≤ pn < np →
  is_Some (node_scan (fake_memnode ncpu np largest) 0 (PGSIZE * pn)).
Proof.
  intros Hc Hnp Hl Hpn. unfold JOS_NNODE, JOS_NCPU in Hc. unfold fake_memnode. rewrite pgsize, (u64_small (np * 4096)) by (unfold in_u64; lia).
  assert (Hq : np * 4096 / ncpu * ncpu ≤ np * 4096 < np * 4096 / ncpu * ncpu + ncpu).
  { pose proof (Z.mul_div_le (np * 4096) ncpu). pose proof (Z.mul_succ_div_gt (np * 4096) ncpu). lia. }
  set (size := np * 4096 / ncpu) in *. clearbody size.
  assert (Hrest : ∀ len size', 0 ≤ len → 0 ≤ size' → len + (ncpu - 1) * size' < 2 ^ 64 → np * 4096 - 4096 < len + (ncpu - 1) * size' →
    is_Some (node_scan (MemNode 0 len (one_cpu 0) :: fake_loop (Z.to_nat (ncpu - 1)) 1 len size') 0 (4096 * pn))).
  { intros len size' Hlen Hsz Hlt Hcov. cbn [node_scan mn_baseaddr mn_length]. rewrite u64_small by (unfold in_u64; nia).
    destruct (Z.leb_spec 0 (4096 * pn)); [|lia]. destruct (Z.ltb_spec (4096 * pn) (0 + len)); cbn [andb]; [by eexists|].
    apply fake_loop_cover; rewrite ?Z2Nat.id by lia; lia. }
  assert (Hall : size + (ncpu - 1) * size = size * ncpu) by ring. assert (0 ≤ size) by nia.
  cbv zeta. destruct ((1 <? ncpu) && (size <? largest)) eqn:Hb; [|apply Hrest; lia].
  apply andb_true_iff in Hb as [H1%Z.ltb_lt _]. rewrite (u64_small (np * 4096 - largest)) by (unfold in_u64; lia).
  pose proof (Z.mul_div_le (np * 4096 - largest) (ncpu - 1)). pose proof (Z.mul_succ_div_gt (np * 4096 - largest) (ncpu - 1)).
  pose proof (Z.div_pos (np * 4096 - largest) (ncpu - 1)). apply Hrest; lia.
Qed.
Lemma assign_nodes_length i l ids : length (assign_nodes ncpu i l ids) = length ids.
Proof. revert i ids. induction l as [|mn l IH]; intros i ids; cbn [assign_nodes]; [done|]. unfold assign_node. by rewrite IH, length_imap. Qed.
Lemma assign_nodes_range i l ids n :
  0 ≤ i → i + Z.of_nat (length l) ≤ n → Forall (λ x, 0 ≤ x < n) ids → Forall (λ x, 0 ≤ x < n) (assign_nodes ncpu i l ids).
Proof.
  revert i ids. induction l as [|mn l IH]; intros i ids Hi Hn Hids; cbn [assign_nodes length] in *; [done|].
  apply IH; [lia|lia|]. apply Forall_lookup_2. intros j x Hx. unfold assign_node in Hx. rewrite list_lookup_imap in Hx.
  destruct (ids !! j) as [id|] eqn:Hid; [|done]. injection Hx as <-. case_match; [lia|]. exact (Forall_lookup_1 _ _ _ _ Hids Hid).
Qed.

(** *** The allocator at the start *)

Lemma page_alloc_init_wp m (Q : unit → pmem → Prop) :
  pm_free m = ∅ → pm_lock m = ∅ →
  (∀ l, (∀ n, 0 ≤ n < JOS_NNODE → l !! n = Some []) → (∀ n x, l !! n = Some x → x = []) →
     Q tt (PMem (pm_conf m) l ∅ (pm_failures m) (pm_info m) (pm_page m))) →
  wp page_alloc_init m Q.
Proof.
  intros Hf Hl HQ. unfold page_alloc_init.
  apply (wp_for_each (λ i m', ∃ l, m' = PMem (pm_conf m) l ∅ (pm_failures m) (pm_info m) (pm_page m) ∧
    (∀ n, 0 ≤ n < i → l !! n = Some []) ∧ (∀ n x, l !! n = Some x → x = []))).
  - exists ∅. split_and!; [destruct m; cbn in *; by subst|lia|by intros n x ?%lookup_empty_Some].
  - intros i m' Hi (l & -> & Hlow & Hnil). wp_pure. apply wp_list_unlock. exists (<[i := []]> l). cbn. split_and!.
    + unfold set_locks, set_free. cbn. f_equal. set_solver.
    + intros n Hn. destruct (decide (n = i)) as [->|]; [by rewrite lookup_insert_eq|].
      rewrite lookup_insert_ne by done. apply Hlow. lia.
    + intros n x [[_ <-]|[_ Hx]]%lookup_insert_Some; [done|by eapply Hnil].
  - intros m' (l & -> & Hlow & Hnil). apply HQ; [|done]. intros n Hn. apply Hlow. unfold JOS_NNODE, JOS_NCPU in *. lia.
Qed.

Lemma zero_infos_lookup n pn : 0 ≤ pn < n → zero_infos n !! pn = Some zero_info.
Proof.
  intros Hpn. apply elem_of_list_to_map_1.
  - rewrite <- list_fmap_compose. cbn. rewrite list_fmap_id. apply NoDup_seqZ.
  - apply list_elem_of_fmap. exists pn. split; [done|]. apply elem_of_seqZ. lia.
Qed.

(** The allocator before any page is freed. *)
Lemma alloc_inv_start m :
  conf_ok (pm_conf m) → nodes_ok (pm_conf m) → pm_lock m = ∅ →
  (∀ n, 0 ≤ n < JOS_NNODE → pm_free m !! n = Some []) → (∀ n x, pm_free m !! n = Some x → x = []) →
  (∀ pn, 0 ≤ pn < mc_npages (pm_conf m) → pm_info m !! pn = Some zero_info) →
  (∀ pn, 0 ≤ pn < mc_npages (pm_conf m) → is_Some (pm_page m !! page_addr pn)) → alloc_inv m.
Proof.
  intros Hc Hn Hl Hf Hnil Hi Hp. split; [done|done|done| | |].
  - intros n Hr. rewrite Hf by done. by eexists.
  - intros pn Hpn. exists zero_info. split_and!; [by apply Hi|by apply Hp|done|done].
  - intros n l ->%Hnil. split; [by constructor|]. by intros p ?%elem_of_nil.
Qed.

(** *** e820_page_init *)

Definition inuse (b : boot) (pn : Z) : bool := page_inuse sreplicate ereplicate b pn.

(** Of the pages in [done], those not in use are free; nothing else has changed. *)
Record freeing (b0 : boot) (done : list Z) (b : boot) : Prop := Freeing {
  fz_rest : b = set_pm (b_pm b) b0;
  fz_inv : alloc_inv (b_pm b);
  fz_conf : pm_conf (b_pm b) = pm_conf (b_pm b0);
  fz_info : ∀ pn, 0 ≤ pn < npages b0 →
    pm_info (b_pm b) !! pn = Some (pi_set_free (bool_decide (pn ∈ done) && negb (inuse b0 pn)) zero_info);
}.

Lemma pa2kva_page pn : 0 ≤ pn < 2 ^ 34 → pa2kva (u64 (Z.shiftl pn PGSHIFT)) = page_addr pn.
Proof.
  intros Hpn. unfold pa2kva, page_addr, PGSHIFT. rewrite Z.shiftl_mul_pow2, pgsize by lia.
  rewrite (u64_small (pn * _)) by (unfold in_u64; lia). rewrite u64_small by (unfold in_u64, PHYSBASE; lia). lia.
Qed.
Lemma inuse_same b0 done b pn : freeing b0 done b → inuse b pn = inuse b0 pn.
Proof.
  intros [Hr _ Hc _]. unfold inuse, page_inuse. rewrite Hc. by rewrite Hr.
Qed.
Lemma free_unused_wp b0 done j b :
  freeing b0 done b → j ∉ done → 0 ≤ j < npages b0 →
  wp (free_unused sreplicate ereplicate j) b (λ _, freeing b0 (done ++ [j])).
Proof.
  intros Hb Hj Hr. pose proof Hb as [Hrest Hinv Hconf Hinfo]. unfold free_unused. wp_pure. fold (inuse b j). rewrite (inuse_same _ _ _ _ Hb).
  assert (Hother : ∀ pn, pn ≠ j → bool_decide (pn ∈ done ++ [j]) = bool_decide (pn ∈ done)).
  { intros pn Hne. apply bool_decide_ext. rewrite elem_of_app, list_elem_of_singleton. tauto. }
  destruct (inuse b0 j) eqn:Hu; cbn [negb]; wp_pure.
  - split; [done|done|done|]. intros pn Hpn. rewrite Hinfo by done. destruct (decide (pn = j)) as [->|Hne]; [by rewrite Hu, !andb_false_r|].
    by rewrite Hother.
  - apply wp_zoom. destruct (ai_conf _ Hinv) as [Hnp _]. unfold npages in Hr. rewrite <- Hconf in Hr.
    rewrite pa2kva_page by lia.
    eapply wp_mono; [apply page_free_spec; [done|]|].
    + exists j, (pi_set_free false zero_info). split_and!; [by apply page_at_addr| |done|done].
      rewrite Hinfo by (unfold npages; by rewrite <- Hconf). by rewrite (bool_decide_eq_false_2 _ Hj).
    + intros _ m' [Hinv' (pn & i & Hat & Hi & _ & _ & Hinfo' & _ & Hconf')]. apply page_at_inj with (pn' := j) in Hat as ->; [|by apply page_at_addr].
      rewrite Hinfo, (bool_decide_eq_false_2 _ Hj) in Hi by (unfold npages; by rewrite <- Hconf). injection Hi as <-.
      split; cbn [b_pm set_pm]; [by rewrite Hrest|done|by rewrite Hconf'|].
      intros pn Hpn. rewrite Hinfo'. destruct (decide (pn = j)) as [->|Hne].
      * rewrite lookup_insert_eq, Hu, bool_decide_eq_true_2; [done|]. apply elem_of_app. right. by apply list_elem_of_singleton.
      * rewrite lookup_insert_ne by done. rewrite Hother by done. by apply Hinfo.
Qed.
Lemma free_range_wp b0 done n lo b (Q : unit → boot → Prop) :
  freeing b0 done b → NoDup (done ++ seqZ lo (Z.of_nat n)) → 0 ≤ lo → lo + Z.of_nat n ≤ npages b0 ∨ n = O →
  (∀ b', freeing b0 (done ++ seqZ lo (Z.of_nat n)) b' → Q tt b') →
  wp (for_each n lo (free_unused sreplicate ereplicate)) b Q.
Proof.
  revert done lo b. induction n as [|n IH]; intros done lo b Hb Hnd Hlo Hhi HQ; cbn [for_each].
  - apply wp_ret, HQ. by rewrite app_nil_r.
  - rewrite seqZ_cons in Hnd, HQ by lia. replace (Z.pred (Z.of_nat (S n))) with (Z.of_nat n) in * by lia.
    replace (Z.succ lo) with (lo + 1) in * by lia. rewrite cons_middle, app_assoc in Hnd, HQ.
    apply wp_bind. eapply wp_mono.
    + apply free_unused_wp with (done := done); [done| |lia]. apply NoDup_app in Hnd as [Hnd _].
      apply NoDup_app in Hnd as [_ [Hd _]]. intros Hin. apply (Hd _ Hin), list_elem_of_singleton. done.
    + intros [] b' Hb'. apply IH with (done := done ++ [lo]); [done|done|lia|lia|done].
Qed.
Lemma e820_page_init_wp b0 desc done b (Q : unit → boot → Prop) :
  freeing b0 done b → Forall entry_ok desc → NoDup (done ++ ram_pages desc) → map_npages desc ≤ npages b0 →
  (∀ b', freeing b0 (done ++ ram_pages desc) b' → Q tt b') →
  wp (e820_page_init sreplicate ereplicate desc) b Q.
Proof.
  revert done b. induction desc as [|d desc IH]; intros done b Hb Hok Hnd Hnp HQ; cbn [e820_page_init].
  { apply wp_ret, HQ. by rewrite app_nil_r. }
  apply Forall_cons in Hok as [Hd Hok]. unfold ram_pages in Hnd, HQ. rewrite bind_cons, app_assoc in Hnd, HQ. fold (ram_pages desc) in Hnd, HQ.
  apply wp_bind. fold (is_ram d). cbn [map_npages] in Hnp. unfold entry_pages in Hnd, HQ. destruct (is_ram d) eqn:Hr; cbn [negb].
  - set (n := e_stop d / PGSIZE - e_start d / PGSIZE) in *. assert (0 ≤ e_start d / PGSIZE).
    { rewrite e_start_page by done. destruct Hd as (?&?&?). rewrite pgsize. dlia. }
    assert (Hseq : seqZ (e_start d / PGSIZE) (Z.of_nat (Z.to_nat n)) = seqZ (e_start d / PGSIZE) n).
    { destruct (Z.le_gt_cases 0 n); [by rewrite Z2Nat.id|]. rewrite !seqZ_nil by lia. done. }
    apply free_range_wp with (b0 := b0) (done := done); rewrite ?Hseq; [done| |done| |].
    + by apply NoDup_app in Hnd as [? _].
    + destruct (Z.le_gt_cases 0 n); [left; lia|right; lia].
    + intros b' Hb'. eapply IH; [exact Hb'|done|done|lia|done].
  - apply wp_ret. rewrite app_nil_r in Hnd, HQ. apply IH with done; [done..|lia|done].
Qed.

(** *** The pages for hardware *)

Definition hw_page (k pn : Z) : bool := (IOPHYSMEM / PGSIZE <=? pn) && (pn <? IOPHYSMEM / PGSIZE + k).
(** The state with [k] hardware pages registered, which are all in use. *)
Record registered (b0 : boot) (done : list Z) (k : Z) (b : boot) : Prop := Registered {
  rg_rest : b = set_pm (b_pm b) b0;
  rg_inv : alloc_inv (b_pm b);
  rg_conf : pm_conf (b_pm b) = pm_conf (b_pm b0);
  rg_info : ∀ pn, 0 ≤ pn < npages b0 →
    pm_info (b_pm b) !! pn =
      Some (pi_set_hwpage (hw_page k pn) (pi_set_free (bool_decide (pn ∈ done) && negb (inuse b0 pn)) zero_info));
}.
Lemma hole_inuse b pn : IOPHYSMEM / PGSIZE ≤ pn < EXTPHYSMEM / PGSIZE → inuse b pn = true.
Proof.
  intros Hpn. unfold inuse, page_inuse. destruct (pn =? 0); [done|]. destruct (pn =? _); [done|].
  destruct (Z.leb_spec (IOPHYSMEM / PGSIZE) pn); [|lia]. by destruct (Z.ltb_spec pn (EXTPHYSMEM / PGSIZE)); [|lia].
Qed.
Lemma register_wp b0 done k b :
  registered b0 done k b → 0 ≤ k < 80 → EXTPHYSMEM / PGSIZE ≤ npages b0 →
  wp (on_pm (page_register_hw (pa2kva (IOPHYSMEM + k * PGSIZE)))) b (λ _, registered b0 done (k + 1)).
Proof.
  intros [Hrest Hinv Hconf Hinfo] Hk Hnp. change (EXTPHYSMEM / PGSIZE) with 256 in Hnp. set (pn := 160 + k).
  assert (Haddr : pa2kva (IOPHYSMEM + k * PGSIZE) = page_addr pn).
  { unfold pa2kva, page_addr, pn. rewrite pgsize. unfold IOPHYSMEM. rewrite u64_small by (unfold in_u64, PHYSBASE; lia). lia. }
  assert (Hu : inuse b0 pn = true) by (apply hole_inuse; change (IOPHYSMEM / PGSIZE) with 160; change (EXTPHYSMEM / PGSIZE) with 256; lia).
  assert (Hi : pm_info (b_pm b) !! pn = Some zero_info).
  { rewrite Hinfo by (unfold pn; lia). rewrite Hu, andb_false_r. unfold hw_page. change (IOPHYSMEM / PGSIZE) with 160.
    destruct (Z.ltb_spec pn (160 + k)); [unfold pn in *; lia|]. by rewrite andb_false_r. }
  unfold on_pm, page_register_hw. rewrite Haddr. apply wp_zoom, wp_bind.
  eapply page_to_pageinfo_page; [apply Hinv|apply page_at_addr|].
  { rewrite Hconf. unfold npages in Hnp. unfold pn. lia. }
  apply wp_bind. eapply wp_get_info; [exact Hi|]. wp_pure. apply wp_assert; [done|]. wp_pure. apply wp_assert; [done|]. wp_pure.
  eapply wp_upd_info; [exact Hi|]. split; cbn [b_pm set_pm]; [by rewrite Hrest| |done|].
  - by apply alloc_inv_info with zero_info; [..|right].
  - intros pn' Hpn'. cbn [pm_info set_info]. unfold hw_page. change (IOPHYSMEM / PGSIZE) with 160. destruct (decide (pn' = pn)) as [->|Hne].
    + rewrite lookup_insert_eq, Hu, andb_false_r. unfold pn. destruct (Z.leb_spec 160 (160 + k)); [|lia].
      by destruct (Z.ltb_spec (160 + k) (160 + (k + 1))); [|lia].
    + rewrite lookup_insert_ne by done. rewrite Hinfo by done. do 2 f_equal. unfold hw_page. change (IOPHYSMEM / PGSIZE) with 160.
      f_equal. unfold pn in Hne. destruct (Z.ltb_spec pn' (160 + k)), (Z.ltb_spec pn' (160 + (k + 1))); lia.
Qed.
Lemma freeing_registered b0 done b : freeing b0 done b → registered b0 done 0 b.
Proof.
  intros [Hrest Hinv Hconf Hinfo]. split; [done..|]. intros pn Hpn. rewrite Hinfo by done. unfold hw_page.
  destruct (Z.leb_spec (IOPHYSMEM / PGSIZE) pn); cbn [andb]; [|done]. by destruct (Z.ltb_spec pn (IOPHYSMEM / PGSIZE + 0)); [lia|].
Qed.

(** ** The whole of it *)

(** The machine as the boot loader and the linker describe it: the RAM entries of
    the map are below 2^46 and share no page, the kernel lies above 1 MB in one of
    them, with room behind it for the metadata of all pages, whose size fits the
    32-bit argument of [boot_alloc]. *)
Record machine_ok (map : list e820entry) : Prop := MachineOk {
  mk_cpus : 0 < ncpu ≤ JOS_NCPU;
  mk_len : 0 < Z.of_nat (length map) ≤ E820MAX;
  mk_entries : Forall entry_ok map;
  mk_disjoint : NoDup (ram_pages map);
  mk_end : EXTPHYSMEM ≤ RELOC end_ < 2 ^ 46;
  mk_image : end_ < 2 ^ 64;
  mk_kernel : ∃ d, d ∈ map ∧ holds_end d = true;
  mk_room : ∀ d, d ∈ map → holds_end d = true → page_up (RELOC end_) + 64 * map_npages map ≤ e_stop d;
  mk_small : 64 * map_npages map < 2 ^ 32;
}.
(** Zeroed globals; the direct map reaches every page. *)
Record boot_start (map : list e820entry) (b : boot) : Prop := BootStart {
  st_cpu : 0 ≤ mc_cpu (pm_conf (b_pm b)) < JOS_NCPU;
  st_conf : pm_conf (b_pm b) = MConf (mc_cpu (pm_conf (b_pm b))) (replicate (Z.to_nat JOS_NCPU) 0) [] 0 end_;
  st_free : pm_free (b_pm b) = ∅;
  st_lock : pm_lock (b_pm b) = ∅;
  st_page : ∀ pn, 0 ≤ pn < map_npages map → is_Some (pm_page (b_pm b) !! page_addr pn);
}.

(** Where [page_infos] is placed and the first byte not handed out by [boot_alloc]. *)
Definition infos_at : Z := page_up (RELOC end_).
Definition boot_top (map : list e820entry) : Z := page_up (infos_at + 64 * map_npages map).

(** What boot leaves. *)
Record booted (map : list e820entry) (b : boot) : Prop := Booted {
  bt_inv : alloc_inv (b_pm b);
  bt_npages : npages b = map_npages map;
  bt_infos : b_infos b = PHYSBASE + infos_at;
  bt_top : boot_freemem b = PHYSBASE + boot_top map;
  bt_nodes : nmemnode (pm_conf (b_pm b)) = ncpu;
  bt_info : ∀ pn, 0 ≤ pn < map_npages map →
    pm_info (b_pm b) !! pn =
      Some (pi_set_hwpage (hw_page 80 pn) (pi_set_free (bool_decide (pn ∈ ram_pages map) && negb (inuse b pn)) zero_info));
}.

Section map.
Context (map : list e820entry) (Hok : machine_ok map).
#[local] Abbreviation np := (map_npages map).

Lemma kernel_entry d :
  d ∈ map → holds_end d = true → entry_ok d ∧ is_ram d = true ∧ 4096 ≤ e_size d ∧ RELOC end_ < e_stop d ∧ e_stop d = 4096 * (e_stop d / 4096).
Proof.
  intros Hd Hh. assert (He : entry_ok d) by exact (proj1 (Forall_forall _ _) (mk_entries _ Hok) d Hd).
  unfold holds_end in Hh. apply andb_true_iff in Hh as [[Hr H1%Z.ltb_lt]%andb_true_iff H2%Z.ltb_lt].
  rewrite e_start_page in H1 by done. rewrite e_stop_page in * by done. destruct He as (?&?&?). split_and!; [by split_and!|done|dlia|dlia|dlia].
Qed.
Lemma npages_range : 256 < np < 2 ^ 26.
Proof.
  destruct (mk_kernel _ Hok) as (d & Hd & Hh). destruct (kernel_entry d Hd Hh) as (_ & Hr & _ & Hlt & Heq).
  pose proof (map_npages_ge map d Hd Hr). pose proof (mk_end _ Hok). pose proof (mk_small _ Hok). rewrite pgsize in *.
  unfold EXTPHYSMEM in *. lia.
Qed.
Lemma largest_range b b' :
  detected map 0 b b' → 0 ≤ largest_ram_start b' < 4096 * np.
Proof.
  intros [_ _ _ Hl]. destruct (mk_kernel _ Hok) as (d & Hd & Hh). destruct (kernel_entry d Hd Hh) as (_ & Hr & Hsz & _).
  destruct Hl as [(d' & Hd' & Hr' & -> & _ & Hmax)|[Hno _]]; [|specialize (Hno d Hd Hr); lia].
  specialize (Hmax d Hd Hr). pose proof (map_npages_ge map d' Hd' Hr').
  assert (He : entry_ok d') by exact (proj1 (Forall_forall _ _) (mk_entries _ Hok) d' Hd').
  rewrite e_stop_page, pgsize in * by done. destruct He as (?&?&?). dlia.
Qed.

Lemma mem_init_wp mc146818_read lo hi b (Q : unit → boot → Prop) :
  npages b = 0 → (∀ b', detected map 0 (set_membytes 0 (set_map map b)) b' → Q tt b') →
  wp (mem_init end_ mc146818_read lo hi map) b Q.
Proof.
  intros Hn HQ. pose proof (mk_len _ Hok) as Hl. unfold mem_init. destruct map as [|d map'] eqn:Hm; [simpl in Hl; lia|].
  rewrite Z.gtb_ltb. destruct (Z.ltb_spec E820MAX (Z.of_nat (length (d :: map')))); [lia|]. wp_pure.
  unfold e820_detect_memory. cbn [e820_map set_map]. wp_pure. apply detect_loop_wp; [|done].
  change (npages _) with (npages b). lia.
Qed.

Lemma numa_nodes b :
  0 ≤ mc_cpu (pm_conf (b_pm b)) < JOS_NCPU → mc_nodeid (pm_conf (b_pm b)) = replicate (Z.to_nat JOS_NCPU) 0 →
  npages b = np → 0 ≤ largest_ram_start b < 4096 * np →
  let l := fake_memnode ncpu (npages b) (largest_ram_start b) in
  nodes_ok (set_nodes (assign_nodes ncpu 0 l (mc_nodeid (pm_conf (b_pm b)))) l (pm_conf (b_pm b))).
Proof.
  intros Hcpu Hids Hn Hl l. pose proof (mk_cpus _ Hok) as Hc. pose proof npages_range as Hr.
  assert (Hlen : Z.of_nat (length l) = ncpu) by (apply fake_memnode_length; lia).
  unfold nodes_ok, nmemnode. cbn. rewrite Hlen, Hids. split_and!.
  - lia.
  - unfold JOS_NNODE. lia.
  - apply assign_nodes_range; [lia|lia|]. apply Forall_replicate. lia.
  - lia.
  - rewrite assign_nodes_length, length_replicate. unfold JOS_NCPU in *. lia.
  - intros pn Hpn. destruct (fake_memnode_cover (npages b) (largest_ram_start b) pn) as [n ?]; [unfold JOS_NNODE; lia|lia|lia|done|by exists n].
Qed.
Lemma numa_init_wp b (Q : unit → boot → Prop) :
  (let l := fake_memnode ncpu (npages b) (largest_ram_start b) in
   Q tt (set_pm (set_conf (set_nodes (assign_nodes ncpu 0 l (mc_nodeid (pm_conf (b_pm b)))) l) (b_pm b)) b)) →
  wp (numa_init ncpu) b Q.
Proof.
  intros HQ. pose proof (mk_cpus _ Hok) as Hc. unfold numa_init, JOS_NNODE. rewrite Z.gtb_ltb.
  destruct (Z.leb_spec ncpu 0); [lia|]. destruct (Z.ltb_spec JOS_NCPU ncpu); [lia|]. cbn [orb]. wp_pure.
  apply wp_zoom. by wp_pure.
Qed.

(** What [page_init] starts from. *)
Record page_init_pre (b : boot) : Prop := PageInitPre {
  pp_free : boot_freemem b = PHYSBASE + RELOC end_;
  pp_end : ∃ d, d ∈ map ∧ holds_end d = true ∧ boot_endmem b = PHYSBASE + e_stop d;
  pp_map : e820_map b = map;
  pp_npages : npages b = np;
  pp_conf : conf_ok (pm_conf (b_pm b));
  pp_nodes : nodes_ok (pm_conf (b_pm b));
  pp_cpus : nmemnode (pm_conf (b_pm b)) = ncpu;
  pp_lists : pm_free (b_pm b) = ∅;
  pp_lock : pm_lock (b_pm b) = ∅;
  pp_page : ∀ pn, 0 ≤ pn < np → is_Some (pm_page (b_pm b) !! page_addr pn);
}.
Lemma page_init_wp b :
  page_init_pre b → wp (page_init sreplicate ereplicate) b (λ _, booted map).
Proof.
  intros [Hf (d & Hd & Hh & He) Hmap Hnp Hconf Hnodes Hcpus Hlists Hlock Hpage].
  pose proof npages_range as Hr. pose proof (mk_end _ Hok) as Hend. unfold EXTPHYSMEM in Hend.
  pose proof (mk_room _ Hok d Hd Hh) as Hroom.
  destruct (kernel_entry d Hd Hh) as ((? & ? & ?) & _ & _ & _ & Hstop).
  assert (Hst : e_stop d < 2 ^ 46) by (rewrite e_stop_page by done; dlia).
  assert (Htop : boot_top map ≤ e_stop d) by (unfold boot_top, infos_at, page_up in *; dlia).
  fold infos_at in Hroom. assert (Hup : page_up infos_at = infos_at) by (unfold infos_at, page_up; dlia).
  assert (Hia : RELOC end_ ≤ infos_at ≤ boot_top map) by (unfold boot_top, infos_at, page_up; dlia).
  unfold page_init. apply wp_bind, wp_zoom, page_alloc_init_wp; [done|done|]. intros l Hl Hnil.
  apply wp_bind. eapply boot_alloc_wp with (x := RELOC end_); [exact Hf|lia|lia|cbn; rewrite He; fold infos_at; lia|]. fold infos_at.
  apply wp_bind, wp_gets. replace (npages _) with np by done. cbv zeta. unfold sizeof_page_info.
  rewrite (u64_small (np * 64)) by (unfold in_u64; lia).
  apply wp_bind. eapply boot_alloc_wp with (x := infos_at); [cbn; lia|lia|lia|cbn; rewrite He, Hup; lia|]. rewrite Hup.
  wp_pure. apply wp_zoom. wp_pure.
  eapply boot_alloc_wp with (x := infos_at + 64 * np); [cbn; lia|lia|lia|cbn; rewrite He; unfold boot_top in Htop; lia|]. fold (boot_top map).
  wp_pure. set (b1 := set_freemem _ _). replace (e820_map b1) with map by done.
  apply e820_page_init_wp with (b0 := b1) (done := []); [|apply Hok|apply Hok|by change (npages b1) with (npages b); rewrite Hnp|].
  { split; [done| |done|].
    - apply alloc_inv_start; try done; intros pn Hpn; change (mc_npages _) with (npages b) in Hpn; rewrite Hnp in Hpn;
        [by apply zero_infos_lookup|by apply Hpage].
    - intros pn Hpn. change (npages b1) with (npages b) in Hpn. rewrite Hnp in Hpn. cbn. by rewrite zero_infos_lookup. }
  intros b2 Hb2%freeing_registered. cbn [app] in Hb2.
  apply (wp_for_each (registered b1 (ram_pages map))); [done| |].
  { intros k b3 Hk Hb3. apply register_wp; [done|exact Hk|]. change (npages b1) with (npages b). rewrite Hnp. change (EXTPHYSMEM / PGSIZE) with 256. lia. }
  intros b3 [Hrest Hinv Hc Hinfo]. change (npages b1) with (npages b) in Hinfo. rewrite Hnp in Hinfo. split.
  - done.
  - unfold npages. by rewrite Hc.
  - by rewrite Hrest.
  - rewrite Hrest. cbn. lia.
  - by rewrite Hc.
  - intros pn Hpn. rewrite Hinfo by done. do 4 f_equal. unfold inuse, page_inuse. rewrite Hc. by rewrite Hrest.
Qed.

Lemma init_memory_wp mc146818_read lo hi b :
  boot_start map b → wp (init_memory end_ sreplicate ereplicate ncpu mc146818_read lo hi map) b (λ _, booted map).
Proof.
  intros [Hcpu Hconf Hfree Hlock Hpage]. unfold init_memory. apply wp_bind, mem_init_wp; [unfold npages; by rewrite Hconf|].
  intros b1 Hb1. pose proof (largest_range _ _ Hb1) as Hlarge. pose proof npages_range as Hr. pose proof (mk_end _ Hok) as Hend. unfold EXTPHYSMEM in Hend.
  destruct Hb1 as [Hpm Hmap Hrange _]. cbn in Hpm, Hmap.
  assert (Hn1 : npages b1 = np) by (unfold npages; rewrite Hpm; cbn; unfold npages; cbn; rewrite Hconf; cbn; lia).
  assert (Hcpu1 : mc_cpu (pm_conf (b_pm b1)) = mc_cpu (pm_conf (b_pm b))) by by rewrite Hpm.
  assert (Hids : mc_nodeid (pm_conf (b_pm b1)) = replicate (Z.to_nat JOS_NCPU) 0) by (rewrite Hpm; cbn; by rewrite Hconf).
  apply wp_bind, numa_init_wp. cbv zeta. pose proof (numa_nodes b1) as Hnodes. cbv zeta in Hnodes. rewrite Hcpu1 in Hnodes.
  specialize (Hnodes Hcpu Hids Hn1 Hlarge). eapply page_init_wp. split; cbn [b_pm set_pm pm_conf set_conf boot_freemem boot_endmem e820_map].
  - destruct Hrange as [(d & Hd & Hh & -> & _)|[Hno _]].
    + rewrite u64_small by (unfold in_u64, PHYSBASE; lia). lia.
    + destruct (mk_kernel _ Hok) as (d & Hd & Hh). specialize (Hno d Hd). congruence.
  - destruct Hrange as [(d & Hd & Hh & _ & ->)|[Hno _]].
    + exists d. split_and!; [done|done|]. destruct (kernel_entry d Hd Hh) as (He & _). rewrite e_stop_page by done. destruct He as (?&?&?).
      rewrite u64_small by (unfold in_u64, PHYSBASE; dlia). lia.
    + destruct (mk_kernel _ Hok) as (d & Hd & Hh). specialize (Hno d Hd). congruence.
  - done.
  - done.
  - unfold conf_ok. cbn. fold (npages b1). split; [lia|]. rewrite Hpm. cbn. rewrite Hconf. cbn. apply Hok.
  - exact Hnodes.
  - unfold nmemnode. cbn. apply fake_memnode_length, Hok.
  - by rewrite Hpm.
  - by rewrite Hpm.
  - intros pn Hpn. rewrite Hpm. by apply Hpage.
Qed.

(** The free pages of the booted machine. *)
Lemma booted_free b pn :
  booted map b → page_free_p (b_pm b) (page_addr pn) ↔ pn ∈ ram_pages map ∧ inuse b pn = false.
Proof.
  intros Hb. split.
  - intros (pn' & i & Hat & Hi & Hf). pose proof Hat as [Heq%page_addr_inj Hr]. subst pn'.
    fold (npages b) in Hr. rewrite (bt_npages _ _ Hb) in Hr. rewrite (bt_info _ _ Hb) in Hi by done. injection Hi as <-. cbn in Hf.
    apply andb_true_iff in Hf as [H1%bool_decide_eq_true_1 H2%negb_true_iff]. done.
  - intros [Hin Hu]. pose proof (ram_page_lt map pn (mk_entries _ Hok) Hin) as Hr. eexists pn, _. split_and!.
    + apply page_at_addr. fold (npages b). by rewrite (bt_npages _ _ Hb).
    + by apply (bt_info _ _ Hb).
    + cbn. by rewrite bool_decide_eq_true_2, Hu.
Qed.
Lemma booted_reserved b pn :
  booted map b → inuse b pn = false →
  pn ≠ 0 ∧ pn ≠ APBOOTSTRAP / PGSIZE ∧ (PGSIZE * pn < IOPHYSMEM ∨ boot_top map ≤ PGSIZE * pn).
Proof.
  intros Hb Hu. unfold inuse, page_inuse in Hu. rewrite (bt_top _ _ Hb) in Hu. pose proof npages_range. pose proof (mk_end _ Hok) as Hend.
  unfold EXTPHYSMEM in Hend.
  destruct (Z.eqb_spec pn 0); [done|]. destruct (Z.eqb_spec pn (APBOOTSTRAP / PGSIZE)); [done|]. split_and!; [done|done|].
  assert (Htop : boot_top map = 4096 * (boot_top map / 4096)) by apply page_up_mult.
  assert (Hrange : 0 ≤ boot_top map < 2 ^ 64).
  { unfold boot_top, infos_at. pose proof (page_up_bound (RELOC end_)). pose proof (page_up_bound (page_up (RELOC end_) + 64 * np)). lia. }
  rewrite pgsize in *. unfold IOPHYSMEM, EXTPHYSMEM in *.
  replace (PHYSBASE + boot_top map - PHYSBASE) with (boot_top map) in Hu by lia. rewrite (u64_small (boot_top map)) in Hu by done.
  change (0xA0000 / 4096) with 160 in Hu. change (0x100000 / 4096) with 256 in Hu.
  destruct (Z.leb_spec 160 pn), (Z.ltb_spec pn 256), (Z.leb_spec 256 pn), (Z.ltb_spec pn (boot_top map / 4096)); cbn in Hu; try done; lia.
Qed.
End map.
End boot.

(** ** Properties *)

(** C6: Boot (page.c, numa.c, as [init_bsp] of init.c runs them) brings up a sound page
    allocator: on a machine whose memory map and kernel image are as [machine_ok]
    says, it runs to its end from zeroed globals and establishes [alloc_inv]; the
    free pages are exactly the RAM pages of the map that are not in use, and none of
    them is page 0, the bootstrap page of the other CPUs, or lies between the I/O hole
    and the end of the array [page_infos] behind the kernel. *)
Theorem init_memory_correct end_ sreplicate ereplicate ncpu nvram map lo hi b :
  machine_ok end_ ncpu map → boot_start end_ map b →
  ∃ b', init_memory end_ sreplicate ereplicate ncpu nvram lo hi map b = Ret tt b' ∧
    alloc_inv (b_pm b') ∧ npages b' = map_npages map ∧ nmemnode (pm_conf (b_pm b')) = ncpu ∧
    (∀ pn, page_free_p (b_pm b') (page_addr pn) ↔ pn ∈ ram_pages map ∧ page_inuse sreplicate ereplicate b' pn = false) ∧
    (∀ pn, page_free_p (b_pm b') (page_addr pn) → pn ≠ 0 ∧ pn ≠ APBOOTSTRAP / PGSIZE ∧
       (PGSIZE * pn < IOPHYSMEM ∨ b_infos b' + sizeof_page_info * npages b' ≤ page_addr pn)).
Proof.
  intros Hok Hst. pose proof (init_memory_wp end_ sreplicate ereplicate ncpu map Hok nvram lo hi b Hst) as Hwp.
  apply wp_run in Hwp as ([] & b' & Hrun & Hb). exists b'.
  assert (Hfree := λ pn, booted_free _ _ _ _ _ Hok b' pn Hb).
  split_and!; [done|apply Hb|apply Hb|apply Hb|exact Hfree|].
  intros pn [_ Hu]%Hfree. destruct (booted_reserved _ _ _ _ _ Hok b' pn Hb Hu) as (H0 & H7 & Hpos). split_and!; [done|done|].
  destruct Hpos as [?|Hpos]; [by left|right]. rewrite (bt_infos _ _ _ _ _ _ Hb), (bt_npages _ _ _ _ _ _ Hb). unfold page_addr, sizeof_page_info.
  unfold boot_top in Hpos. pose proof (page_up_bound (infos_at end_ + 64 * map_npages map)). lia.
Qed.

(** *** A machine with 3 MB and two CPUs *)
Module Small.
Definition map : list e820entry := [E820 0 0xA0000 E820_RAM; E820 0xF0000 0x10000 2; E820 0x100000 0x200000 E820_RAM].
Definition end_ : Z := KERNBASE + 0x150000.
Definition start : boot :=
  Boot 0 0 0 0 [] 0 (PMem (MConf 0 (replicate 16 0) [] 0 end_) ∅ ∅ 0 ∅
    (list_to_map ((λ pn, (page_addr pn, PgJunk)) <$> seqZ 0 768))).
Lemma map_ok : machine_ok end_ 2 map.
Proof.
  assert (Hn : map_npages map = 768) by by vm_compute. split.
  - done.
  - done.
  - by repeat constructor.
  - apply (bool_decide_unpack _). by vm_compute.
  - done.
  - done.
  - exists (E820 0x100000 0x200000 E820_RAM). split; [|by vm_compute]. by do 2 right; left.
  - rewrite Hn. intros d Hd. repeat (apply elem_of_cons in Hd as [->|Hd]; [by vm_compute|]). by apply elem_of_nil in Hd.
  - by rewrite Hn.
Qed.
Lemma start_ok : boot_start end_ map start.
Proof.
  assert (Hn : map_npages map = 768) by by vm_compute. split; [done|done|done|done|].
  rewrite Hn. intros pn Hpn. exists PgJunk. apply elem_of_list_to_map_1.
  - rewrite <- list_fmap_compose. apply NoDup_fmap_2; [|apply NoDup_seqZ]. intros x y. apply page_addr_inj.
  - apply list_elem_of_fmap. exists pn. split; [done|]. apply elem_of_seqZ. lia.
Qed.
End Small.
Lemma init_memory_correct_witness :
  ∃ b', init_memory Small.end_ 0 0 2 (λ _, 0) 640 0 Small.map Small.start = Ret tt b' ∧
    alloc_inv (b_pm b') ∧ npages b' = map_npages Small.map ∧ nmemnode (pm_conf (b_pm b')) = 2 ∧
    (∀ pn, page_free_p (b_pm b') (page_addr pn) ↔ pn ∈ ram_pages Small.map ∧ page_inuse 0 0 b' pn = false) ∧
    (∀ pn, page_free_p (b_pm b') (page_addr pn) → pn ≠ 0 ∧ pn ≠ APBOOTSTRAP / PGSIZE ∧
       (PGSIZE * pn < IOPHYSMEM ∨ b_infos b' + sizeof_page_info * npages b' ≤ page_addr pn)).
Proof. apply (init_memory_correct Small.end_ 0 0 2 (λ _, 0) Small.map 640 0); [apply Small.map_ok|apply Small.start_ok]. Defined.

(** [boot_alloc] takes its size as 32 bits: from 2^26 pages (256 GB) on, the array
    [page_infos] gets less than its size and the memory behind it stays available,
    to be freed page by page and handed out while the array is in use. *)
Theorem page_infos_truncated x np b :
  2 ^ 26 ≤ np < 2 ^ 34 → 0 ≤ x < 2 ^ 46 → boot_freemem b = PHYSBASE + x → PHYSBASE + 2 ^ 46 + 2 ^ 33 ≤ boot_endmem b →
  ∃ p b', boot_alloc (u64 (np * sizeof_page_info)) PGSIZE b = Ret p b' ∧ boot_freemem b' < p + 2 ^ 32 ≤ p + np * sizeof_page_info.
Proof.
  intros Hnp Hx Hf He. pose proof (page_up_bound x). pose proof (u32_range (u64 (np * sizeof_page_info))) as Hr. unfold in_u32 in Hr.
  assert (Hwp : wp (boot_alloc (u32 (u64 (np * sizeof_page_info))) PGSIZE) b
    (λ p b', boot_freemem b' < p + 2 ^ 32 ≤ p + np * sizeof_page_info)).
  { eapply boot_alloc_wp; [exact Hf|lia|lia|lia|]. cbn [boot_freemem set_freemem]. unfold sizeof_page_info in *. lia. }
  assert (Heq : boot_alloc (u32 (u64 (np * sizeof_page_info))) PGSIZE b = boot_alloc (u64 (np * sizeof_page_info)) PGSIZE b).
  { unfold boot_alloc. by rewrite (u32_small (u32 _)) by done. }
  rewrite <- Heq. apply wp_run in Hwp as (p & b' & Hrun & Hp). by exists p, b'.
Qed.
Lemma page_infos_truncated_witness :
  ∃ p b', boot_alloc (u64 (2 ^ 26 * sizeof_page_info)) PGSIZE
      (Boot (PHYSBASE + 0x150000) (PHYSBASE + 2 ^ 46 + 2 ^ 33) 0 0 [] 0 (b_pm Small.start)) = Ret p b' ∧
    boot_freemem b' < p + 2 ^ 32 ≤ p + 2 ^ 26 * sizeof_page_info.
Proof. apply (page_infos_truncated 0x150000); cbn; lia. Defined.

(** With a number of CPUs that does not divide the number of pages, the nodes
    [numa_init] (numa.c) makes are not page-aligned: [page_inuse] then reserves
    pages that start below the replica of the kernel's text at the base of the
    node, and frees the page its last bytes are on. *)
Theorem fake_nodes_unaligned :
  ∃ mn, fake_memnode 3 1024 0 !! 1%nat = Some mn ∧ PGOFF (mn_baseaddr mn) ≠ 0 ∧
    ∃ ppn, in_replica 0xffffffff80100000 0xffffffff80180000 ppn mn = false ∧
      PGSIZE * ppn < mn_baseaddr mn + 0x80000 ∧ mn_baseaddr mn < PGSIZE * ppn.
Proof. eexists. split; [by vm_compute|]. split; [by vm_compute|]. exists 469. by vm_compute. Qed.
