(* ===== verification/Pagetree.v ===== *)
(** * Page trees (kern/kern/pagetree.c)

    A page tree is the kernel's growable array of pages: three entries inside
    [struct pagetree] and four trees of pages of depth one to four below it.  The
    pages the entries name are reference counted in [page_infos] and can be
    shared between trees copy-on-write.

    The struct is a value that operations take and return; the interior nodes are
    pages of the memory.  The pointers the code takes into a tree are positions:
    [indp] for a [struct pagetree_indirect **] and [entp] for a
    [struct pagetree_entry *]. *)
From S2P Require Import Prelude Machine Hashtable Ktypes Kmem PageAlloc.

(** ** Data (kern/kern/pagetree.h) *)

(** An entry takes 24 bytes and a pointer 8. *)
Definition PAGETREE_ENTRIES_PER_PAGE : Z := PGSIZE / 24.
Definition PAGETREE_INDIRECT_PER_PAGE : Z := PGSIZE / 8.
Definition PAGETREE_DIRECT_ENTRIES : Z := 3.
Definition PAGETREE_INDIRECT_ENTRIES : Z := 4.

Definition set_direct (i : Z) (e : pagetree_entry) (pt : pagetree) : pagetree :=
  Pagetree (<[Z.to_nat i := e]> (pt_direct pt)) (pt_indir pt) (pt_pid pt) (pt_demand pt).
Definition set_indir (i v : Z) (pt : pagetree) : pagetree :=
  Pagetree (pt_direct pt) (<[Z.to_nat i := v]> (pt_indir pt)) (pt_pid pt) (pt_demand pt).
Definition set_demand (b : bool) (pt : pagetree) : pagetree :=
  Pagetree (pt_direct pt) (pt_indir pt) (pt_pid pt) b.

(** Where a [struct pagetree_indirect *] is stored: [pt->pt_indir[i]] or
    [page->pi_indir[s]]. *)
Inductive indp := Root (i : Z) | Slot (page s : Z).
(** Where an entry is: [pt->pt_direct[i]] or [page->pi_entry[s]]. *)
Inductive entp := Direct (i : Z) | InPage (page s : Z).

Definition set_ent_page (p : Z) (e : pagetree_entry) := PtEnt p (pe_mode e) (pe_lock e).
Definition set_ent_mode (mode : Z) (e : pagetree_entry) := PtEnt (pe_page e) mode (pe_lock e).
Definition set_ent_lock (b : bool) (e : pagetree_entry) := PtEnt (pe_page e) (pe_mode e) b.

(** ** Memory accesses *)

(** The array elements of an interior page, if it is one of the right kind. *)
Definition page_ptrs (m : pmem) (pg : Z) : option (gmap Z Z) := pm_page m !! pg ≫= as_ptrs.
Definition page_ents (m : pmem) (pg : Z) : option (gmap Z pagetree_entry) := pm_page m !! pg ≫= as_ents.

Definition in_range (s n : Z) : bool := (0 <=? s) && (s <? n).

Definition read_ptr (pg s : Z) : M pmem Z :=
  if in_range s PAGETREE_INDIRECT_PER_PAGE
  then a ← deref (λ m, page_ptrs m pg); mret (default 0 (a !! s)) else undef.
Definition write_ptr (pg s v : Z) : M pmem unit :=
  if in_range s PAGETREE_INDIRECT_PER_PAGE
  then a ← deref (λ m, page_ptrs m pg); modify (set_page pg (PgPtrs (<[s := v]> a))) else undef.
Definition read_pent (pg s : Z) : M pmem pagetree_entry :=
  if in_range s PAGETREE_ENTRIES_PER_PAGE
  then a ← deref (λ m, page_ents m pg); mret (default null_ent (a !! s)) else undef.
Definition write_pent (pg s : Z) (e : pagetree_entry) : M pmem unit :=
  if in_range s PAGETREE_ENTRIES_PER_PAGE
  then a ← deref (λ m, page_ents m pg); modify (set_page pg (PgEnts (<[s := e]> a))) else undef.

Definition read_indir (pt : pagetree) (ip : indp) : M pmem Z :=
  match ip with
  | Root i => deref (λ _, pt_indir pt !! Z.to_nat i)
  | Slot pg s => read_ptr pg s
  end.
Definition write_indir (pt : pagetree) (ip : indp) (v : Z) : M pmem pagetree :=
  match ip with
  | Root i => mret (set_indir i v pt)
  | Slot pg s => write_ptr pg s v;; mret pt
  end.
Definition read_ent (pt : pagetree) (pe : entp) : M pmem pagetree_entry :=
  match pe with
  | Direct i => deref (λ _, pt_direct pt !! Z.to_nat i)
  | InPage pg s => read_pent pg s
  end.
Definition write_ent (pt : pagetree) (pe : entp) (e : pagetree_entry) : M pmem pagetree :=
  match pe with
  | Direct i => mret (set_direct i e pt)
  | InPage pg s => write_pent pg s e;; mret pt
  end.

(** ** Reference counts *)

Definition pagetree_decref (p : Z) : M pmem unit :=
  pi ← page_to_pageinfo p;
  i ← get_info pi;
  let '(r, z) := jos_atomic_dec_and_test (pi_ref i) in
  put_info pi (pi_set_ref r i);;
  if z then c_assert (pi_hw_ref i =? 0);; page_free p else mret tt.

Definition pagetree_incref (p : Z) : M pmem unit :=
  pi ← page_to_pageinfo p;
  upd_info pi (λ i, pi_set_ref (jos_atomic_inc (pi_ref i)) i).

Definition pagetree_incref_hw (p : Z) : M pmem unit :=
  pi ← page_to_pageinfo p;
  i ← get_info pi;
  (if pi_ref i =? 0 then panic else mret tt);;
  (if pi_ref i <? pi_hw_ref i then panic else mret tt);;
  upd_info pi (λ i, pi_set_ref (jos_atomic_inc (pi_ref i)) i);;
  upd_info pi (λ i, pi_set_hw_ref (jos_atomic_inc (pi_hw_ref i)) i).

Definition pagetree_decref_hw (p : Z) : M pmem unit :=
  pi ← page_to_pageinfo p;
  i ← get_info pi;
  (if pi_hw_ref i =? 0 then panic else mret tt);;
  (if pi_ref i <? pi_hw_ref i then panic else mret tt);;
  upd_info pi (λ i, pi_set_hw_ref (jos_atomic_dec (pi_hw_ref i)) i);;
  pagetree_decref p.

(** ** Entries *)

Definition pagetree_copy_page (pt : pagetree) (pe : entp) (pid : Z) : M pmem (Z * pagetree) :=
  '(r, pp) ← page_alloc pid;
  if r <? 0 then mret (r, pt) else
  e ← read_ent pt pe;
  copy_page pp (pe_page e);;
  pi ← page_to_pageinfo pp;
  upd_info pi (pi_set_clear true);;
  pagetree_incref pp;;
  pagetree_decref (pe_page e);;
  pt ← (e ← read_ent pt pe; write_ent pt pe (set_ent_mode page_excl e));
  pt ← (e ← read_ent pt pe; write_ent pt pe (set_ent_page pp e));
  mret (0, pt).

(** [n_pages_per_i] after the loop of [level - 1] multiplications. *)
Fixpoint n_pages_per_i (n : nat) : Z :=
  match n with
  | O => PAGETREE_ENTRIES_PER_PAGE
  | S n' => u64 (n_pages_per_i n' * PAGETREE_INDIRECT_PER_PAGE)
  end.

(** The first part of [pagetree_get_entp_indirect]: the node at [*indir] is
    allocated if there is none.  The compare-and-exchange re-reads the pointer. *)
Definition get_indirect_node (pt : pagetree) (indir : indp) (pid : Z) : M pmem (Z * pagetree) :=
  v ← read_indir pt indir;
  if v =? 0 then
    '(r, va) ← page_alloc pid;
    if r <? 0 then mret (r, pt) else
    page_zero va;;
    old ← read_indir pt indir;
    if old =? 0 then pt ← write_indir pt indir va; mret (0, pt)
    else page_free va;; mret (0, pt)
  else mret (0, pt).

(** The result is the error code, the struct, and the position stored in [*outp]. *)
Fixpoint pagetree_get_entp_indirect (level : nat) (pt : pagetree) (indir : indp) (npage pid : Z) :
    M pmem (Z * pagetree * option entp) :=
  '(r, pt) ← get_indirect_node pt indir pid;
  if r <? 0 then mret (r, pt, None) else
  v ← read_indir pt indir;
  match level with
  | O =>
      c_assert (npage <? PAGETREE_ENTRIES_PER_PAGE);;
      mret (0, pt, Some (InPage v npage))
  | S level' =>
      let n := n_pages_per_i level' in
      let next_slot := u32 (npage / n) in
      let next_page := u32 (npage mod n) in
      pagetree_get_entp_indirect level' pt (Slot v next_slot) next_page pid
  end.

(** The loop over [pt_indir]: [k] levels are left from level [i] on. *)
Fixpoint get_entp_loop (k : nat) (i : nat) (pt : pagetree) (npage num_indirect_pages : Z) :
    M pmem (Z * pagetree * option entp) :=
  match k with
  | O => mret (- E_NO_SPACE, pt, None)
  | S k' =>
      if npage <? num_indirect_pages
      then pagetree_get_entp_indirect i pt (Root (Z.of_nat i)) npage (pt_pid pt)
      else get_entp_loop k' (S i) pt (npage - num_indirect_pages)
             (u64 (num_indirect_pages * PAGETREE_INDIRECT_PER_PAGE))
  end.

Definition pagetree_get_entp (pt : pagetree) (npage : Z) : M pmem (Z * pagetree * option entp) :=
  if npage <? PAGETREE_DIRECT_ENTRIES then mret (0, pt, Some (Direct npage))
  else get_entp_loop (Z.to_nat PAGETREE_INDIRECT_ENTRIES) 0 pt
         (npage - PAGETREE_DIRECT_ENTRIES) PAGETREE_ENTRIES_PER_PAGE.

(** ** Getting and putting pages *)

(** [spin_lock(&pe->lock)] and [spin_unlock]. *)
Definition ent_lock (pt : pagetree) (pe : entp) : M pmem pagetree :=
  e ← read_ent pt pe;
  if pe_lock e then crash Hang else write_ent pt pe (set_ent_lock true e).
Definition ent_unlock (pt : pagetree) (pe : entp) : M pmem pagetree :=
  e ← read_ent pt pe; write_ent pt pe (set_ent_lock false e).

(** The demand-allocation part of [pagetree_get_page]. *)
Definition get_page_demand (pt : pagetree) (pe : entp) : M pmem pagetree :=
  e ← read_ent pt pe;
  if (pe_page e =? 0) && pt_demand pt then
    pt ← ent_lock pt pe;
    e ← read_ent pt pe;
    pt ← (if pe_page e =? 0 then
        '(r, p) ← page_alloc (pt_pid pt);
        c_assert (r =? 0);;
        pagetree_incref p;;
        pt ← (e ← read_ent pt pe; write_ent pt pe (set_ent_page p e));
        e ← read_ent pt pe; write_ent pt pe (set_ent_mode page_excl e)
      else mret pt);
    ent_unlock pt pe
  else mret pt.

(** The copy-on-read and copy-on-write part of [pagetree_get_page]. *)
Definition get_page_cow (pt : pagetree) (pe : entp) (mode : Z) : M pmem (Z * pagetree) :=
  e ← read_ent pt pe;
  if pe_mode e =? page_shared_cor then
    c_assert (negb (mode =? page_excl));;
    pagetree_copy_page pt pe (pt_pid pt)
  else if pe_mode e =? page_shared_cow then
    c_assert (negb (mode =? page_excl));;
    if mode =? page_shared_cow then pagetree_copy_page pt pe (pt_pid pt) else mret (0, pt)
  else mret (0, pt).

(** The result is the error code, [*pagep] and the struct. *)
Definition pagetree_get_page (pt : pagetree) (npage mode : Z) : M pmem (Z * Z * pagetree) :=
  '(r, pt, o) ← pagetree_get_entp pt npage;
  if r <? 0 then mret (r, 0, pt) else
  match o with
  | None => panic
  | Some pe =>
      '(r, pt) ← get_page_cow pt pe mode;
      if r <? 0 then mret (r, 0, pt) else
      pt ← get_page_demand pt pe;
      e ← read_ent pt pe;
      mret (0, pe_page e, pt)
  end.

(** [pagetree_put_page] once the entry is found. *)
Definition put_entry (pt : pagetree) (pe : entp) (page : Z) : M pmem pagetree :=
  e ← read_ent pt pe;
  when (negb (pe_page e =? 0)) (pagetree_decref (pe_page e));;
  when (negb (page =? 0)) (pagetree_incref page);;
  pt ← (e ← read_ent pt pe; write_ent pt pe (set_ent_page page e));
  e ← read_ent pt pe; write_ent pt pe (set_ent_mode page_excl e).

Definition pagetree_put_page (pt : pagetree) (npage page : Z) : M pmem (Z * pagetree) :=
  '(r, pt, o) ← pagetree_get_entp pt npage;
  if r <? 0 then mret (r, pt) else
  match o with
  | None => panic
  | Some pe => pt ← put_entry pt pe page; mret (0, pt)
  end.

(** ** Copying and freeing *)

(** [pagetree_copy_ent] on entries of two trees; returns both. *)
Definition pagetree_copy_ent (ptsrc : pagetree) (pesrc : entp) (ptdst : pagetree) (pedst : entp)
    (mode pid : Z) : M pmem (Z * pagetree * pagetree) :=
  es ← read_ent ptsrc pesrc;
  c_assert (negb (pe_page es =? 0));;
  '(r, ptsrc, ptdst) ←
    (if mode =? page_excl then
       '(r, p) ← page_alloc pid;
       if r <? 0 then mret (r, ptsrc, ptdst) else
       ptdst ← (ed ← read_ent ptdst pedst; write_ent ptdst pedst (set_ent_page p ed));
       pagetree_incref p;;
       copy_page p (pe_page es);;
       mret (0, ptsrc, ptdst)
     else
       ptdst ← (ed ← read_ent ptdst pedst; write_ent ptdst pedst (set_ent_page (pe_page es) ed));
       pagetree_incref (pe_page es);;
       ptsrc ← (es ← read_ent ptsrc pesrc; write_ent ptsrc pesrc (set_ent_mode page_shared_cow es));
       mret (0, ptsrc, ptdst));
  if r <? 0 then mret (r, ptsrc, ptdst) else
  ptdst ← (ed ← read_ent ptdst pedst; write_ent ptdst pedst (set_ent_mode mode ed));
  mret (0, ptsrc, ptdst).

(** The entries of a source page at index [i] and on, [k] of them. *)
Fixpoint copy_ents_loop (k : nat) (i : Z) (ptsrc : pagetree) (srcindir : Z) (ptdst : pagetree)
    (dstindir : Z) (mode pid : Z) : M pmem Z :=
  match k with
  | O => mret 0
  | S k' =>
      e ← read_pent srcindir i;
      r ← (if negb (pe_page e =? 0) then
             '(r, _, _) ← pagetree_copy_ent ptsrc (InPage srcindir i) ptdst (InPage dstindir i) mode pid;
             mret r
           else mret 0);
      if r <? 0 then mret r else copy_ents_loop k' (i + 1) ptsrc srcindir ptdst dstindir mode pid
  end.

Fixpoint pagetree_copy_indirect (level : nat) (ptsrc : pagetree) (srcindir : Z) (ptdst : pagetree)
    (dstindir : indp) (mode pid : Z) : M pmem (Z * pagetree) :=
  if srcindir =? 0 then mret (0, ptdst) else
  d ← read_indir ptdst dstindir;
  c_assert (d =? 0);;
  '(r, va) ← page_alloc pid;
  if r <? 0 then mret (r, ptdst) else
  ptdst ← write_indir ptdst dstindir va;
  page_zero va;;
  match level with
  | O =>
      r ← copy_ents_loop (Z.to_nat PAGETREE_ENTRIES_PER_PAGE) 0 ptsrc srcindir ptdst va mode pid;
      mret (r, ptdst)
  | S level' =>
      o ← for_loop (Z.to_nat PAGETREE_INDIRECT_PER_PAGE) 0 (λ i,
            s ← read_ptr srcindir i;
            '(r, _) ← pagetree_copy_indirect level' ptsrc s ptdst (Slot va i) mode pid;
            mret (if r <? 0 then Some r else None));
      mret (default 0 o, ptdst)
  end.

Fixpoint pagetree_free_indirect (level : nat) (indir : Z) : M pmem unit :=
  if indir =? 0 then mret tt else
  match level with
  | O => for_each (Z.to_nat PAGETREE_ENTRIES_PER_PAGE) 0 (λ i,
           e ← read_pent indir i;
           when (negb (pe_page e =? 0)) (pagetree_decref (pe_page e)))
  | S level' => for_each (Z.to_nat PAGETREE_INDIRECT_PER_PAGE) 0 (λ i,
           p ← read_ptr indir i; pagetree_free_indirect level' p)
  end;;
  page_free indir.

Fixpoint free_direct_loop (k : nat) (i : Z) (pt : pagetree) : M pmem pagetree :=
  match k with
  | O => mret pt
  | S k' =>
      e ← read_ent pt (Direct i);
      when (negb (pe_page e =? 0)) (pagetree_decref (pe_page e));;
      pt ← write_ent pt (Direct i) (set_ent_page 0 e);
      free_direct_loop k' (i + 1) pt
  end.
Fixpoint free_indir_loop (k i : nat) (pt : pagetree) : M pmem pagetree :=
  match k with
  | O => mret pt
  | S k' =>
      v ← read_indir pt (Root (Z.of_nat i));
      pagetree_free_indirect i v;;
      pt ← write_indir pt (Root (Z.of_nat i)) 0;
      free_indir_loop k' (S i) pt
  end.
Definition pagetree_free (pt : pagetree) : M pmem pagetree :=
  pt ← free_direct_loop (Z.to_nat PAGETREE_DIRECT_ENTRIES) 0 pt;
  free_indir_loop (Z.to_nat PAGETREE_INDIRECT_ENTRIES) 0 pt.

Fixpoint copy_direct_loop (k : nat) (i : Z) (ptsrc ptdst : pagetree) (mode : Z) :
    M pmem (Z * pagetree * pagetree) :=
  match k with
  | O => mret (0, ptsrc, ptdst)
  | S k' =>
      e ← read_ent ptsrc (Direct i);
      if negb (pe_page e =? 0) then
        '(r, ptsrc, ptdst) ← pagetree_copy_ent ptsrc (Direct i) ptdst (Direct i) mode (pt_pid ptdst);
        if r <? 0 then ptdst ← pagetree_free ptdst; mret (r, ptsrc, ptdst)
        else copy_direct_loop k' (i + 1) ptsrc ptdst mode
      else copy_direct_loop k' (i + 1) ptsrc ptdst mode
  end.
Fixpoint copy_indir_loop (k i : nat) (ptsrc ptdst : pagetree) (mode : Z) : M pmem (Z * pagetree) :=
  match k with
  | O => mret (0, ptdst)
  | S k' =>
      s ← read_indir ptsrc (Root (Z.of_nat i));
      '(r, ptdst) ← pagetree_copy_indirect i ptsrc s ptdst (Root (Z.of_nat i)) mode (pt_pid ptdst);
      if r <? 0 then ptdst ← pagetree_free ptdst; mret (r, ptdst)
      else copy_indir_loop k' (S i) ptsrc ptdst mode
  end.
(** The two structs are distinct objects; both are returned. *)
Definition pagetree_copy (ptsrc ptdst : pagetree) (mode : Z) : M pmem (Z * pagetree * pagetree) :=
  ptdst ← pagetree_free ptdst;
  let ptdst := set_demand (pt_demand ptsrc) ptdst in
  '(r, ptsrc, ptdst) ← copy_direct_loop (Z.to_nat PAGETREE_DIRECT_ENTRIES) 0 ptsrc ptdst mode;
  if r <? 0 then mret (r, ptsrc, ptdst) else
  '(r, ptdst) ← copy_indir_loop (Z.to_nat PAGETREE_INDIRECT_ENTRIES) 0 ptsrc ptdst mode;
  mret (r, ptsrc, ptdst).

Definition pagetree_init (on_demand : bool) (pid : Z) : pagetree :=
  Pagetree (replicate (Z.to_nat PAGETREE_DIRECT_ENTRIES) null_ent)
           (replicate (Z.to_nat PAGETREE_INDIRECT_ENTRIES) 0) pid on_demand.
