(* ===== verification/Supply.v ===== *)
(** * What code does not change, and how much memory it takes

    [Keeps P c]: whenever [c] returns, the states before and after are related by the
    preorder [P].  [Takes k c]: whenever [c] returns, at most [k] pages that were free
    are no longer free.  Both classes follow the structure of the code, so that facts
    that hold of every primitive hold of whole components without looking at what they
    compute.

    [few_free k m] says that at most [k] pages are free in [m].  It is how the theorems
    about code that panics without memory name the shortage: if that code can take at
    most [k] pages before it asks for the page it does not get, it started with at most
    [k] free pages. *)
From S2P Require Import Prelude Machine Hashtable Ktypes Kmem PageAlloc Pagetree.

Class Keeps {S A} (P : relation S) (c : M S A) : Prop := keeps : ∀ s a s', c s = Ret a s' → P s s'.

Section rules.
Context {S : Type} (P : relation S) `{!PreOrder P}.

Lemma keeps_ret {A} (a : A) : Keeps P (mret a : M S A).
Proof. intros s b s' [= _ <-]. done. Qed.
Lemma keeps_bind {A B} (c : M S A) (k : A → M S B) : Keeps P c → (∀ a, Keeps P (k a)) → Keeps P (c ≫= k).
Proof.
  intros Hc Hk s b s'. unfold mbind, m_bind. destruct (c s) as [a s1|] eqn:E; [|done]. intros Hb.
  etrans; [by eapply Hc|by eapply Hk].
Qed.
Lemma keeps_gets {A} (f : S → A) : Keeps P (gets f).
Proof. intros s b s' [= _ <-]. done. Qed.
Lemma keeps_deref {A} (f : S → option A) : Keeps P (deref f).
Proof. intros s b s'. unfold deref. destruct (f s); [|done]. by intros [= _ <-]. Qed.
Lemma keeps_crash {A} (f : fault) : Keeps P (crash f : M S A).
Proof. by intros s b s'. Qed.
Lemma keeps_modify (f : S → S) : (∀ s, P s (f s)) → Keeps P (modify f).
Proof. intros Hf s b s' [= _ <-]. apply Hf. Qed.
Lemma keeps_for_each n i (body : Z → M S unit) : (∀ i, Keeps P (body i)) → Keeps P (for_each n i body).
Proof. intros Hb. revert i. induction n as [|n IH]; intros i; [apply keeps_ret|]. apply keeps_bind; [apply Hb|intros; apply IH]. Qed.
Lemma keeps_for_loop {R} n i (body : Z → M S (option R)) : (∀ i, Keeps P (body i)) → Keeps P (for_loop n i body).
Proof.
  intros Hb. revert i. induction n as [|n IH]; intros i; [apply keeps_ret|]. apply keeps_bind; [apply Hb|].
  intros [r|]; [apply keeps_ret|apply IH].
Qed.
(** A fact about every outcome of a run. *)
Lemma keeps_wp {A} (c : M S A) s (Q : A → S → Prop) : Keeps P c → wp c s Q → wp c s (λ a s', Q a s' ∧ P s s').
Proof. intros Hk. unfold wp. destruct (c s) as [a s'|] eqn:E; [|done]. intros HQ. split; [done|by eapply Hk]. Qed.
Lemma keeps_wpx {A} (c : M S A) s (Q : A → S → Prop) X : Keeps P c → wpx c s Q X → wpx c s (λ a s', Q a s' ∧ P s s') X.
Proof. intros Hk. unfold wpx. destruct (c s) as [a s'|] eqn:E; [|done]. intros HQ. split; [done|by eapply Hk]. Qed.
End rules.

(** Follows the code; primitives are left. *)
Ltac keeps1 :=
  lazymatch goal with
  | |- Keeps _ (mbind _ _) => apply (keeps_bind _); [|intros ?]
  | |- Keeps _ (mret _) => apply (keeps_ret _)
  | |- Keeps _ (gets _) => apply (keeps_gets _)
  | |- Keeps _ (deref _) => apply (keeps_deref _)
  | |- Keeps _ (crash _) => apply (keeps_crash _)
  | |- Keeps _ panic => apply (keeps_crash _)
  | |- Keeps _ undef => apply (keeps_crash _)
  | |- Keeps _ (c_assert ?b) => unfold c_assert
  | |- Keeps _ (when ?b _) => unfold when
  | |- Keeps _ (for_each _ _ _) => apply (keeps_for_each _); intros ?
  | |- Keeps _ (for_loop _ _ _) => apply (keeps_for_loop _); intros ?
  | |- Keeps _ (if ?b then _ else _) => destruct b
  | |- Keeps _ (let '(_, _) := ?x in _) => destruct x
  | |- Keeps _ (match ?x with _ => _ end) => destruct x
  end.
Ltac keeps := repeat first [done | typeclasses eauto | keeps1].

(** ** Taking pages *)

(** From [m] to [m'] at most [k] free pages were taken. *)
Definition takes (k : nat) (m m' : pmem) : Prop :=
  pm_conf m' = pm_conf m ∧
  ∃ l : list Z, (length l ≤ k)%nat ∧ ∀ q, page_free_p m q → page_free_p m' q ∨ q ∈ l.
(** At most [k] pages are free. *)
Definition few_free (k : nat) (m : pmem) : Prop :=
  ∃ l : list Z, (length l ≤ k)%nat ∧ ∀ q, page_free_p m q → q ∈ l.

Lemma takes_trans j k m1 m2 m3 : takes j m1 m2 → takes k m2 m3 → takes (j + k) m1 m3.
Proof.
  intros (C1 & l1 & L1 & H1) (C2 & l2 & L2 & H2). split; [congruence|]. exists (l1 ++ l2). rewrite length_app. split; [lia|].
  intros q Hq. rewrite elem_of_app. destruct (H1 q Hq) as [Hq'|]; [|tauto]. destruct (H2 q Hq'); tauto.
Qed.
Lemma takes_le j k m m' : takes j m m' → (j ≤ k)%nat → takes k m m'.
Proof. intros (C & l & L & H) Hle. split; [done|]. exists l. split; [lia|done]. Qed.
#[export] Instance takes0_preorder : PreOrder (takes 0).
Proof.
  split; [|intros m1 m2 m3; apply takes_trans]. intros m. split; [done|]. exists []. split; [done|]. by left.
Qed.
Lemma few_free_none m : (∀ q, ¬ page_free_p m q) → few_free 0 m.
Proof. intros Hn. exists []. split; [done|]. intros q Hq. by destruct (Hn q). Qed.
Lemma few_free_le j k m : few_free j m → (j ≤ k)%nat → few_free k m.
Proof. intros (l & L & H) Hle. exists l. split; [lia|done]. Qed.
Lemma takes_few j k m m' : takes j m m' → few_free k m' → few_free (j + k) m.
Proof.
  intros (_ & l1 & L1 & H1) (l2 & L2 & H2). exists (l1 ++ l2). rewrite length_app. split; [lia|].
  intros q Hq. rewrite elem_of_app. destruct (H1 q Hq) as [Hq'|]; [right; by apply H2|by left].
Qed.
(** More than [k] different free pages are more than a few. *)
Lemma not_few_free k m (l : list Z) : NoDup l → (k < length l)%nat → (∀ q, q ∈ l → page_free_p m q) → ¬ few_free k m.
Proof.
  intros Hnd Hl Hf (l' & L & H). assert (Hs : l ⊆+ l') by (apply NoDup_submseteq; [done|]; intros q Hq; by apply H, Hf).
  apply submseteq_length in Hs. lia.
Qed.

Class Takes {A} (k : nat) (c : M pmem A) : Prop := takes_run : ∀ m a m', c m = Ret a m' → takes k m m'.
Lemma takes_of_keeps {A} (c : M pmem A) : Keeps (takes 0) c → Takes 0 c.
Proof. done. Qed.
Lemma takes_weaken {A} j k (c : M pmem A) : Takes j c → (j ≤ k)%nat → Takes k c.
Proof. intros Hc Hle m a m' Hr. by eapply takes_le; [by eapply Hc|]. Qed.
Lemma takes_bind {A B} j k (c : M pmem A) (f : A → M pmem B) : Takes j c → (∀ a, Takes k (f a)) → Takes (j + k) (c ≫= f).
Proof.
  intros Hc Hf m b m'. unfold mbind, m_bind. destruct (c m) as [a m1|] eqn:E; [|done]. intros Hb.
  eapply takes_trans; [by eapply Hc|by eapply Hf].
Qed.
Lemma takes_bind_l {A B} k (c : M pmem A) (f : A → M pmem B) : Takes k c → (∀ a, Keeps (takes 0) (f a)) → Takes k (c ≫= f).
Proof. intros Hc Hf. replace k with (k + 0)%nat by lia. by apply takes_bind. Qed.
Lemma takes_bind_r {A B} k (c : M pmem A) (f : A → M pmem B) : Keeps (takes 0) c → (∀ a, Takes k (f a)) → Takes k (c ≫= f).
Proof. intros Hc Hf. by apply (takes_bind 0 k). Qed.
Lemma takes_keeps {A} k (c : M pmem A) : Keeps (takes 0) c → Takes k c.
Proof. intros Hc. eapply takes_weaken; [by apply takes_of_keeps|lia]. Qed.
(** What a run takes may be assumed of its outcome. *)
Lemma takes_wp {A} k (c : M pmem A) m (Q : A → pmem → Prop) : Takes k c → wp c m (λ a m', takes k m m' → Q a m') → wp c m Q.
Proof. intros Hc. unfold wp. destruct (c m) as [a m'|] eqn:E; [|done]. intros HQ. apply HQ. by eapply Hc. Qed.

(** A step that changes no page information takes nothing. *)
Lemma takes_same m m' : pm_conf m' = pm_conf m → pm_info m' = pm_info m → takes 0 m m'.
Proof.
  intros Hc Hi. split; [done|]. exists []. split; [done|]. intros q (pn & i & [-> Hpn] & Hin & Hf). left. exists pn, i.
  split; [split; [done|by rewrite Hc]|]. by rewrite Hi.
Qed.

(** ** The primitives *)

Lemma takes_info m pn i i' : pm_info m !! pn = Some i → (pi_freepage i = true → pi_freepage i' = true) → takes 0 m (set_info pn i' m).
Proof.
  intros Hi Hf. split; [done|]. exists []. split; [done|]. intros q (pn' & j & Hat & Hj & Hfj). left. exists pn'.
  destruct (decide (pn = pn')) as [->|Hne].
  - exists i'. cbn. rewrite lookup_insert_eq. split_and!; [done|done|]. apply Hf. congruence.
  - exists j. cbn. by rewrite lookup_insert_ne.
Qed.
Lemma takes_info_one m pn i' : takes 1 m (set_info pn i' m).
Proof.
  split; [done|]. exists [PHYSBASE + PGSIZE * pn]. split; [done|]. intros q (pn' & j & Hat & Hj & Hfj).
  destruct (decide (pn = pn')) as [->|Hne]; [right; destruct Hat as [-> _]; by left|left].
  exists pn', j. cbn. by rewrite lookup_insert_ne.
Qed.
Lemma ts_upd_info pn f : (∀ i, pi_freepage i = true → pi_freepage (f i) = true) → Keeps (takes 0) (upd_info pn f).
Proof.
  intros Hf m a m'. unfold upd_info, get_info, put_info, mbind, m_bind, deref, modify.
  destruct (pm_info m !! pn) as [i|] eqn:Hi; [|done]. intros [= _ <-]. eapply takes_info; [exact Hi|apply Hf].
Qed.
#[export] Instance ts_upd_free pn : Keeps (takes 0) (upd_info pn (pi_set_free true)). Proof. by apply ts_upd_info. Qed.
#[export] Instance ts_upd_ref pn f : Keeps (takes 0) (upd_info pn (λ i, pi_set_ref (f (pi_ref i)) i)). Proof. by apply ts_upd_info. Qed.
#[export] Instance ts_upd_clear pn b : Keeps (takes 0) (upd_info pn (pi_set_clear b)). Proof. by apply ts_upd_info. Qed.
#[export] Instance ts_set_page p c : Keeps (takes 0) (modify (set_page p c)). Proof. apply keeps_modify. intros m. split; [done|]. exists []. split; [done|]. by left. Qed.
#[export] Instance ts_set_locks l : Keeps (takes 0) (modify (set_locks l)). Proof. apply keeps_modify. intros m. split; [done|]. exists []. split; [done|]. by left. Qed.
#[export] Instance ts_set_free n l : Keeps (takes 0) (modify (set_free n l)). Proof. apply keeps_modify. intros m. split; [done|]. exists []. split; [done|]. by left. Qed.
#[export] Instance ts_set_failures f : Keeps (takes 0) (modify (set_failures f)). Proof. apply keeps_modify. intros m. split; [done|]. exists []. split; [done|]. by left. Qed.
#[export] Instance ts_kva2pa p : Keeps (takes 0) (kva2pa p). Proof. unfold kva2pa. keeps. Qed.
#[export] Instance ts_pa2ppn p : Keeps (takes 0) (pa2ppn p). Proof. unfold pa2ppn. keeps. Qed.
#[export] Instance ts_pageinfo p : Keeps (takes 0) (page_to_pageinfo p). Proof. unfold page_to_pageinfo. keeps. Qed.
#[export] Instance ts_get_info p : Keeps (takes 0) (get_info p). Proof. unfold get_info. keeps. Qed.
#[export] Instance ts_read_page p : Keeps (takes 0) (read_page p). Proof. unfold read_page. keeps. Qed.
#[export] Instance ts_write_page p c : Keeps (takes 0) (write_page p c). Proof. unfold write_page. keeps. Qed.
#[export] Instance ts_page_zero p : Keeps (takes 0) (page_zero p). Proof. unfold page_zero. keeps. Qed.
#[export] Instance ts_copy_page p q : Keeps (takes 0) (copy_page p q). Proof. unfold copy_page. keeps. Qed.
#[export] Instance ts_node_by_addr p : Keeps (takes 0) (arch_node_by_addr p). Proof. unfold arch_node_by_addr. keeps. Qed.
#[export] Instance ts_node_by_cpu p : Keeps (takes 0) (arch_node_by_cpu p). Proof. unfold arch_node_by_cpu. keeps. Qed.
#[export] Instance ts_arch_cpu : Keeps (takes 0) arch_cpu. Proof. unfold arch_cpu. keeps. Qed.
#[export] Instance ts_list_lock n : Keeps (takes 0) (list_lock n). Proof. unfold list_lock. keeps. Qed.
#[export] Instance ts_list_unlock n : Keeps (takes 0) (list_unlock n). Proof. unfold list_unlock. keeps. Qed.
#[export] Instance ts_free_list n : Keeps (takes 0) (free_list n). Proof. unfold free_list. keeps. Qed.
#[export] Instance ts_tailq_first n : Keeps (takes 0) (tailq_first n). Proof. unfold tailq_first. keeps. Qed.
#[export] Instance ts_tailq_insert n p : Keeps (takes 0) (tailq_insert_head n p). Proof. unfold tailq_insert_head. keeps. Qed.
#[export] Instance ts_tailq_remove n : Keeps (takes 0) (tailq_remove_first n). Proof. unfold tailq_remove_first. keeps. Qed.
#[export] Instance ts_alloc_search k n node : Keeps (takes 0) (alloc_search k n node).
Proof. revert n. induction k as [|k IH]; intros n; cbn [alloc_search]; keeps. Qed.
#[export] Instance ts_page_free p : Keeps (takes 0) (page_free p). Proof. unfold page_free. keeps. Qed.
#[export] Instance ts_page_alloc pid : Takes 1 (page_alloc pid).
Proof.
  unfold page_alloc. apply takes_bind_r; [keeps|]. intros node. apply takes_bind_r; [keeps|]. intros _. apply takes_bind_r; [keeps|]. intros _.
  apply takes_bind_r; [keeps|]. intros pl. apply takes_bind_r; [keeps|]. intros [[n p]|]; [|apply takes_keeps; keeps].
  apply takes_bind_r; [keeps|]. intros _. apply takes_bind_r; [keeps|]. intros _. apply takes_bind_r; [keeps|]. intros pi.
  apply takes_bind_r; [keeps|]. intros i. apply takes_bind_r; [keeps|]. intros _. apply takes_bind_l; [|intros; keeps].
  intros m a m'. unfold upd_info, get_info, put_info, mbind, m_bind, deref, modify.
  destruct (pm_info m !! pi) as [j|]; [|done]. intros [= _ <-]. apply takes_info_one.
Qed.

(** ** Page trees *)

#[export] Instance ts_read_ptr p s : Keeps (takes 0) (read_ptr p s). Proof. unfold read_ptr. keeps. Qed.
#[export] Instance ts_write_ptr p s v : Keeps (takes 0) (write_ptr p s v). Proof. unfold write_ptr. keeps. Qed.
#[export] Instance ts_read_pent p s : Keeps (takes 0) (read_pent p s). Proof. unfold read_pent. keeps. Qed.
#[export] Instance ts_write_pent p s v : Keeps (takes 0) (write_pent p s v). Proof. unfold write_pent. keeps. Qed.
#[export] Instance ts_read_indir pt ip : Keeps (takes 0) (read_indir pt ip). Proof. unfold read_indir. keeps. Qed.
#[export] Instance ts_write_indir pt ip v : Keeps (takes 0) (write_indir pt ip v). Proof. unfold write_indir. keeps. Qed.
#[export] Instance ts_read_ent pt pe : Keeps (takes 0) (read_ent pt pe). Proof. unfold read_ent. keeps. Qed.
#[export] Instance ts_write_ent pt pe e : Keeps (takes 0) (write_ent pt pe e). Proof. unfold write_ent. keeps. Qed.
#[export] Instance ts_incref p : Keeps (takes 0) (pagetree_incref p). Proof. unfold pagetree_incref. keeps. Qed.
#[export] Instance ts_decref p : Keeps (takes 0) (pagetree_decref p).
Proof.
  unfold pagetree_decref. keeps1; [keeps|]. intros m b m'. unfold mbind at 1, m_bind at 1, get_info, deref.
  destruct (pm_info m !! a) as [i|] eqn:Hi; [|done].
  destruct (jos_atomic_dec_and_test (pi_ref i)) as [r z]. unfold mbind at 1, m_bind at 1, put_info, modify. intros Hr.
  etrans; [by apply (takes_info m a i (pi_set_ref r i))|].
  revert Hr. generalize (set_info a (pi_set_ref r i) m). intros m1 Hr.
  assert (K : Keeps (takes 0) (if z then c_assert (pi_hw_ref i =? 0);; page_free p else mret tt)) by keeps. by eapply K.
Qed.
#[export] Instance ts_indirect_node pt ip pid : Takes 1 (get_indirect_node pt ip pid).
Proof.
  unfold get_indirect_node. apply takes_bind_r; [keeps|]. intros v. destruct (v =? 0); [|apply takes_keeps; keeps].
  apply takes_bind_l; [typeclasses eauto|]. intros [r va]. keeps.
Qed.
(** A node for every level down to the entry. *)
#[export] Instance ts_entp_indirect l pt ip n pid : Takes (S l) (pagetree_get_entp_indirect l pt ip n pid).
Proof.
  revert pt ip n. induction l as [|l IH]; intros pt ip n; cbn [pagetree_get_entp_indirect].
  - apply takes_bind_l; [typeclasses eauto|]. intros [r pt']. keeps.
  - apply (takes_bind 1 (S l)); [typeclasses eauto|]. intros [r pt']. destruct (r <? 0); [apply takes_keeps; keeps|].
    apply takes_bind_r; [keeps|]. intros v. apply IH.
Qed.
Lemma ts_entp_loop k i pt n q : Takes (k + i) (get_entp_loop k i pt n q).
Proof.
  revert i n q. induction k as [|k IH]; intros i n q; cbn [get_entp_loop]; [apply takes_keeps; keeps|].
  destruct (n <? q); [eapply takes_weaken; [typeclasses eauto|lia]|]. replace (S k + i)%nat with (k + S i)%nat by lia. apply IH.
Qed.
(** The nodes on the way to an entry. *)
Definition MAX_NODES : nat := 4.
#[export] Instance ts_get_entp pt n : Takes MAX_NODES (pagetree_get_entp pt n).
Proof.
  unfold pagetree_get_entp. destruct (n <? PAGETREE_DIRECT_ENTRIES); [apply takes_keeps; keeps|].
  eapply takes_weaken; [apply ts_entp_loop|done].
Qed.
#[export] Instance ts_put_entry pt pe p : Keeps (takes 0) (Pagetree.put_entry pt pe p). Proof. unfold Pagetree.put_entry. keeps. Qed.
#[export] Instance ts_put_page pt n p : Takes MAX_NODES (pagetree_put_page pt n p).
Proof. unfold pagetree_put_page. apply takes_bind_l; [typeclasses eauto|]. intros [[r pt'] o]. keeps. Qed.
(** What giving a tree one more page can take: the page and the nodes on the way to it. *)
Definition PAGE_COST : nat := 1 + MAX_NODES.
