(* ===== verification/PageRefs.v ===== *)
(** * Ownership of pages by page trees

    [refs_inv m N R] accounts for every page the page trees of the system hold in
    memory [m]: [N] lists the interior nodes of all trees and [R] the pages their
    entries refer to, once per reference.  Nodes are owned outright; a page's
    [pi_ref] is the number of its references in [R] plus its [pi_hw_ref].

    The lemmas are the rules by which tree operations acquire and release pages:
    allocating gives a node, counting a reference turns a node into a
    referenced page, dropping the last reference gives the page back.  They are
    stated for arbitrary lists, so a tree that is not touched is part of the lists
    and keeps its pages and their contents. *)
From S2P Require Import Prelude Machine Hashtable Ktypes Kmem PageAlloc Pagetree.

Definition page_live (m : pmem) (p : Z) : Prop :=
  ∃ pn i, page_at m pn p ∧ pm_info m !! pn = Some i ∧ pi_freepage i = false.

(** How many times the trees refer to [p]. *)
Definition cnt (R : list Z) (p : Z) : Z := Z.of_nat (count_occ Z.eq_dec R p).

(** A [page_info] whose counters agree with [c] references from trees. *)
Definition ref_ok (i : page_info) (c : Z) : Prop :=
  pi_ref i = c + pi_hw_ref i ∧ 0 ≤ pi_hw_ref i ∧ pi_ref i < 2 ^ 32 ∧
  (pi_freepage i = true → pi_ref i = 0).

Record refs_inv (m : pmem) (N R : list Z) : Prop := RefsInv {
  ri_alloc : alloc_inv m;
  ri_nodup : NoDup N;
  ri_node : ∀ p, p ∈ N → page_used m p ∧ p ∉ R;
  ri_node_ref : ∀ p pn i, p ∈ N → page_at m pn p → pm_info m !! pn = Some i → pi_ref i = 0;
  ri_live : ∀ p, p ∈ R → page_live m p;
  ri_ref : ∀ pn i, 0 ≤ pn < mc_npages (pm_conf m) → pm_info m !! pn = Some i →
           ref_ok i (cnt R (page_addr pn));
}.

(** Whether the page [p] is marked as cleared. *)
Definition clear_bit (m : pmem) (p : Z) : bool :=
  match pm_info m !! ((p - PHYSBASE) / PGSIZE) with Some i => pi_clear i | None => false end.

(** ** Counting *)

Lemma cnt_cons R p q : cnt (p :: R) q = cnt R q + (if decide (q = p) then 1 else 0).
Proof.
  unfold cnt. simpl. destruct (Z.eq_dec p q) as [->|Hne].
  - rewrite decide_True by done. lia.
  - rewrite decide_False by congruence. lia.
Qed.
Lemma cnt_pos R p : p ∈ R ↔ 0 < cnt R p.
Proof.
  unfold cnt. rewrite list_elem_of_In, (count_occ_In Z.eq_dec). lia.
Qed.
Lemma cnt_zero R p : p ∉ R ↔ cnt R p = 0.
Proof. rewrite cnt_pos. unfold cnt. lia. Qed.
Lemma cnt_perm R R' p : R ≡ₚ R' → cnt R p = cnt R' p.
Proof. intros HR. unfold cnt. f_equal. by apply (Permutation_count_occ Z.eq_dec). Qed.
Lemma cnt_app R R' p : cnt (R ++ R') p = cnt R p + cnt R' p.
Proof. unfold cnt. rewrite count_occ_app. lia. Qed.

#[export] Instance refs_inv_proper m :
  Proper (Permutation ==> Permutation ==> iff) (refs_inv m).
Proof.
  assert (H : ∀ N N' R R', N ≡ₚ N' → R ≡ₚ R' → refs_inv m N R → refs_inv m N' R').
  { intros N N' R R' HN HR []. split; try done.
    - by rewrite <- HN.
    - intros p Hp. rewrite <- HR. apply ri_node0. by rewrite HN.
    - intros p pn i Hp. apply ri_node_ref0. by rewrite HN.
    - intros p Hp. apply ri_live0. by rewrite HR.
    - intros pn i Hpn Hi. rewrite <- (cnt_perm R R') by done. by apply ri_ref0. }
  intros N N' HN R R' HR. split; apply H; done.
Qed.

(** ** Facts about owned pages *)

Lemma page_used_live m p : page_used m p → page_live m p.
Proof. intros (pn&i&?&?&?&_). by exists pn, i. Qed.

Lemma page_live_addr m p : page_live m p → ∃ pn i, p = page_addr pn ∧ page_at m pn (page_addr pn) ∧
  pm_info m !! pn = Some i ∧ pi_freepage i = false.
Proof. intros (pn&i&Hat&Hi&Hf). exists pn, i. destruct Hat as [-> Hat]. by split_and!. Qed.

Lemma page_live_nonzero m p : page_live m p → p ≠ 0.
Proof. intros (pn&i&Hat&_). apply page_at_nonzero in Hat. lia. Qed.

Lemma page_live_contents m p : alloc_inv m → page_live m p → is_Some (pm_page m !! p).
Proof.
  intros Hinv (pn&i&[-> Hr]&_). destruct (ai_pages _ Hinv pn Hr) as (_&_&Hp&_). exact Hp.
Qed.

Lemma page_live_not_free m p : page_live m p → ¬ page_free_p m p.
Proof.
  intros (pn&i&Hat&Hi&Hf) (pn'&i'&Hat'&Hi'&Hf').
  rewrite (page_at_inj _ _ _ _ Hat Hat') in Hi. congruence.
Qed.

Lemma refs_node_live m N R p : refs_inv m N R → p ∈ N → page_live m p.
Proof. intros Hi Hp. by apply page_used_live, (ri_node _ _ _ Hi). Qed.

Lemma refs_node_contents m N R p : refs_inv m N R → p ∈ N → is_Some (pm_page m !! p).
Proof. intros Hi Hp. eapply page_live_contents; [apply Hi|by eapply refs_node_live]. Qed.

Lemma refs_ref_contents m N R p : refs_inv m N R → p ∈ R → is_Some (pm_page m !! p).
Proof. intros Hi Hp. eapply page_live_contents; [apply Hi|by apply (ri_live _ _ _ Hi)]. Qed.

Lemma refs_disjoint m N R p : refs_inv m N R → p ∈ N → p ∈ R → False.
Proof. intros Hi Hp. by apply (ri_node _ _ _ Hi) in Hp as [_ ?]. Qed.

Lemma refs_nodup_l m N N' R : refs_inv m (N ++ N') R → NoDup N ∧ ∀ p, p ∈ N → p ∉ N'.
Proof. intros Hi. destruct (proj1 (NoDup_app _ _) (ri_nodup _ _ _ Hi)) as (?&?&_). done. Qed.

(** A node that is given up stays a live page that no tree holds. *)
Lemma refs_drop m N R p :
  refs_inv m (p :: N) R →
  refs_inv m N R ∧ page_live m p ∧ (p ∉ N) ∧ (p ∉ R) ∧
  ∀ pn i, page_at m pn p → pm_info m !! pn = Some i → pi_ref i = 0.
Proof.
  intros Hi. pose proof Hi as [Ha Hnd Hn Hnr Hl Hr]. apply NoDup_cons in Hnd as [Hp Hnd].
  split_and!; try done.
  - split; try done.
    + intros q Hq. apply Hn. by right.
    + intros q pn i Hq. apply Hnr. by right.
  - by eapply refs_node_live; [|left].
  - by apply Hn; left.
  - intros pn i. apply Hnr. by left.
Qed.

(** ** Changing page contents and page_infos *)

Lemma alloc_inv_set_page m p c : alloc_inv m → is_Some (pm_page m !! p) → alloc_inv (set_page p c m).
Proof.
  intros [Hc Hn Hu Hh Hp Hl] Hs. split; try done.
  intros pn Hpn. destruct (Hp pn Hpn) as (i&Hi&Hpg&H1&H2). exists i. split_and!; try done. simpl.
  destruct (decide (p = page_addr pn)) as [->|]; [by rewrite lookup_insert_eq|by rewrite lookup_insert_ne].
Qed.

Lemma refs_set_page m N R p c :
  refs_inv m N R → is_Some (pm_page m !! p) → refs_inv (set_page p c m) N R.
Proof. intros [Ha Hnd Hn Hnr Hl Hr] Hp. split; try done. by apply alloc_inv_set_page. Qed.

Lemma alloc_inv_set_info m pn i i' :
  alloc_inv m → pm_info m !! pn = Some i → pi_freepage i' = pi_freepage i → pi_hwpage i' = pi_hwpage i →
  pi_clear i' = pi_clear i ∨ pi_freepage i = false → alloc_inv (set_info pn i' m).
Proof.
  intros Ha Hi Hf Hw Hcl. apply alloc_inv_info with i; [done|done|done|]. rewrite Hw, Hf. destruct Hcl as [->|Hcl]; [by left|by right].
Qed.

(** The status of pages after an update of one [page_info] that keeps the flags. *)
Lemma info_status m pn i i' p :
  pm_info m !! pn = Some i → pi_freepage i' = pi_freepage i → pi_hwpage i' = pi_hwpage i →
  (page_live (set_info pn i' m) p ↔ page_live m p) ∧ (page_used (set_info pn i' m) p ↔ page_used m p).
Proof.
  intros Hi Hf Hw. split; split.
  - intros (pn'&i1&Hat&Hi1&Hf1). simpl in Hi1. destruct (decide (pn = pn')) as [->|].
    + rewrite lookup_insert_eq in Hi1. exists pn', i. split_and!; try done. congruence.
    + rewrite lookup_insert_ne in Hi1 by done. by exists pn', i1.
  - intros (pn'&i1&Hat&Hi1&Hf1). destruct (decide (pn = pn')) as [->|].
    + exists pn', i'. simpl. rewrite lookup_insert_eq. split_and!; try done. congruence.
    + exists pn', i1. simpl. by rewrite lookup_insert_ne.
  - intros (pn'&i1&Hat&Hi1&Hf1&Hw1). simpl in Hi1. destruct (decide (pn = pn')) as [->|].
    + rewrite lookup_insert_eq in Hi1. exists pn', i. split_and!; try done; congruence.
    + rewrite lookup_insert_ne in Hi1 by done. by exists pn', i1.
  - intros (pn'&i1&Hat&Hi1&Hf1&Hw1). destruct (decide (pn = pn')) as [->|].
    + exists pn', i'. simpl. rewrite lookup_insert_eq. split_and!; try done; congruence.
    + exists pn', i1. simpl. by rewrite lookup_insert_ne.
Qed.

(** The general rule: one page's counters change together with the references. *)
Lemma refs_set_info m N R R' pn i i' :
  refs_inv m N R → page_at m pn (page_addr pn) → pm_info m !! pn = Some i →
  pi_freepage i' = pi_freepage i → pi_hwpage i' = pi_hwpage i → pi_clear i' = pi_clear i ∨ pi_freepage i = false →
  ref_ok i' (cnt R' (page_addr pn)) →
  (∀ q, q ≠ page_addr pn → cnt R' q = cnt R q) →
  (page_addr pn ∈ R' → pi_freepage i = false) →
  (page_addr pn ∈ N → (page_addr pn ∉ R') ∧ pi_ref i' = 0) →
  refs_inv (set_info pn i' m) N R'.
Proof.
  intros [Ha Hnd Hn Hnr Hl Hr] Hat Hi Hf Hw Hcl Hok Hoth Hlive Hnode. split.
  - by eapply alloc_inv_set_info.
  - done.
  - intros p Hp. destruct (Hn p Hp) as [Hus HR]. rewrite (proj2 (info_status _ _ _ _ _ Hi Hf Hw)).
    split; [done|]. destruct (decide (p = page_addr pn)) as [->|Hne]; [by apply Hnode|].
    apply cnt_zero. rewrite Hoth by done. by apply cnt_zero.
  - intros p pn' i1 Hp Hat' Hi1. simpl in Hi1. destruct (decide (pn = pn')) as [->|].
    + rewrite lookup_insert_eq in Hi1. destruct Hat' as [-> _]. simplify_eq. by apply Hnode.
    + rewrite lookup_insert_ne in Hi1 by done. by eapply Hnr.
  - intros p Hp. rewrite (proj1 (info_status _ _ _ _ _ Hi Hf Hw)).
    destruct (decide (p = page_addr pn)) as [->|Hne].
    + exists pn, i. split_and!; try done. by apply Hlive.
    + apply Hl, cnt_pos. rewrite <- Hoth by done. by apply cnt_pos.
  - intros pn' i1 Hpn' Hi1. simpl in Hi1. destruct (decide (pn = pn')) as [->|].
    + rewrite lookup_insert_eq in Hi1. by simplify_eq.
    + rewrite lookup_insert_ne in Hi1 by done. rewrite Hoth; [by apply Hr|].
      by intros ?%page_addr_inj.
Qed.

(** ** The mark of cleared pages *)

Lemma page_number pn : (page_addr pn - PHYSBASE) / PGSIZE = pn.
Proof. unfold page_addr. replace (PHYSBASE + PGSIZE * pn - PHYSBASE) with (pn * PGSIZE) by lia. by apply Z.div_mul. Qed.
Lemma clear_bit_at m pn i : pm_info m !! pn = Some i → clear_bit m (page_addr pn) = pi_clear i.
Proof. unfold clear_bit. rewrite page_number. by intros ->. Qed.
Lemma clear_bit_info m m' pn i i' q :
  pm_info m !! pn = Some i → pm_info m' = <[pn := i']> (pm_info m) → pi_clear i' = pi_clear i ∨ (q - PHYSBASE) / PGSIZE ≠ pn →
  clear_bit m' q = clear_bit m q.
Proof.
  intros Hi Hi' Hor. unfold clear_bit. rewrite Hi'. destruct (decide (pn = (q - PHYSBASE) / PGSIZE)) as [->|].
  - rewrite lookup_insert_eq, Hi. by destruct Hor.
  - by rewrite lookup_insert_ne.
Qed.
Lemma clear_free m p : alloc_inv m → page_free_p m p → clear_bit m p = false.
Proof.
  intros Ha (pn & i & [-> Hpn] & Hi & Hf). destruct (ai_pages _ Ha pn Hpn) as (i' & Hi' & _ & Hc & _). simplify_eq.
  fold (page_addr pn). rewrite (clear_bit_at m pn i Hi). destruct (pi_clear i); [|done]. by rewrite Hc in Hf by (by right).
Qed.

(** ** Released pages

    A page no tree holds any more is free, unless hardware still uses it. *)
Definition released (m : pmem) (p : Z) : Prop :=
  ∃ pn i, page_at m pn p ∧ pm_info m !! pn = Some i ∧
          (pi_freepage i = true ∨ pi_hwpage i = true ∨ 0 < pi_hw_ref i).

Lemma page_free_released m p : page_free_p m p → released m p.
Proof. intros (pn&i&?&?&?). exists pn, i. tauto. Qed.

(** Pages that are released or free stay so. *)
Definition releases (m m' : pmem) : Prop :=
  (∀ q, released m q → released m' q) ∧ (∀ q, page_free_p m q → page_free_p m' q).

#[export] Instance releases_preorder : PreOrder releases.
Proof.
  split; [by intros m|]. intros m1 m2 m3 [H1 H2] [H3 H4]. split; auto.
Qed.

(** Changing one [page_info] keeps pages released if it keeps its own page so. *)
Lemma releases_upd m m' pn i' :
  pm_conf m' = pm_conf m → pm_info m' = <[pn := i']> (pm_info m) →
  (∀ i, pm_info m !! pn = Some i →
        (pi_freepage i = true ∨ pi_hwpage i = true ∨ 0 < pi_hw_ref i →
         pi_freepage i' = true ∨ pi_hwpage i' = true ∨ 0 < pi_hw_ref i') ∧
        (pi_freepage i = true → pi_freepage i' = true)) →
  releases m m'.
Proof.
  intros Hc Hi Hk. split; intros q (pn'&i&Hat&Hin&Hr); (destruct (decide (pn = pn')) as [->|Hne];
    [exists pn', i'; rewrite page_at_conf, Hi, lookup_insert_eq by done; split_and!; try done; by apply (Hk i)
    |exists pn', i; by rewrite page_at_conf, Hi, lookup_insert_ne by done]).
Qed.

(** ** The rules *)

(** Allocation: the new page is a node. *)
Lemma refs_alloc m N R pid node (Q : Z * Z → pmem → Prop) :
  refs_inv m N R → home_node (pm_conf m) pid = Some node →
  (∀ f p, refs_inv (set_failures f m) N R → (∀ q, ¬ page_free_p m q) →
     Q (- E_NO_MEM, p) (set_failures f m)) →
  (∀ p m', refs_inv m' (p :: N) R → pm_page m' = pm_page m → pm_conf m' = pm_conf m →
     page_free_p m p → (∀ q, page_free_p m' q → page_free_p m q) → (∀ q, clear_bit m' q = clear_bit m q) → Q (0, p) m') →
  wp (page_alloc pid) m Q.
Proof.
  intros Hi Hh HN HS. pose proof Hi as [Ha Hnd Hn Hnr Hl Hr].
  eapply wp_mono; [by apply page_alloc_spec|].
  intros [r p] m' [Ha' [(->&Hrel&_)|(->&->&Hno)]].
  - destruct (alloc_rel_status _ _ _ Hrel) as (Hf&Hu&Hk&Hst).
    assert (HpN : p ∉ N) by (intros Hp; eapply page_live_not_free; [by eapply refs_node_live|done]).
    assert (HpR : p ∉ R) by (intros Hp; eapply page_live_not_free; [by apply Hl|done]).
    destruct Hrel as (pn&i&Hat&Hin&Hfi&Hwi&Hinfo&Hpg&Hc).
    apply HS; try done; [|intros q Hq; apply Hst; by left|intros q; eapply clear_bit_info; [exact Hin|exact Hinfo|by left]]. split.
    + done.
    + by apply NoDup_cons.
    + intros q [->|Hq]%elem_of_cons; [done|]. split; [|by apply Hn].
      apply Hk; [by intros ->|by apply Hn].
    + intros q pn' i' Hq Hat' Hi'. rewrite page_at_conf in Hat' by done. rewrite Hinfo in Hi'.
      destruct (decide (pn = pn')) as [->|].
      * rewrite lookup_insert_eq in Hi'. simplify_eq. by apply (Hr pn' i); [apply Hat|..].
      * rewrite lookup_insert_ne in Hi' by done. apply elem_of_cons in Hq as [->|Hq]; [|by eapply Hnr].
        by rewrite (page_at_inj _ _ _ _ Hat Hat') in *.
    + intros q Hq. destruct (Hl q Hq) as (pn'&i'&Hat'&Hi'&Hf'). exists pn', i'.
      rewrite page_at_conf by done. rewrite Hinfo, lookup_insert_ne; [done|].
      intros ->. destruct Hat, Hat'. congruence.
    + intros pn' i' Hpn' Hi'. rewrite Hc in Hpn'. rewrite Hinfo in Hi'.
      destruct (decide (pn = pn')) as [->|].
      * rewrite lookup_insert_eq in Hi'. injection Hi' as <-.
        destruct (Hr pn' i Hpn' Hin) as (?&?&?&_). by split_and!.
      * rewrite lookup_insert_ne in Hi' by done. by apply Hr.
  - apply HN; [|done]. by split.
Qed.

(** The marks of all pages but [p] are kept, and that of [p] if it is in [R]. *)
Definition keep_clear (p : Z) (R : list Z) (m m' : pmem) : Prop :=
  ∀ pn, page_addr pn ≠ p ∨ page_addr pn ∈ R → clear_bit m' (page_addr pn) = clear_bit m (page_addr pn).
Lemma keep_clear_live p R m m' q : keep_clear p R m m' → page_live m q → q ≠ p ∨ q ∈ R → clear_bit m' q = clear_bit m q.
Proof. intros Hk Hl Hq. destruct (page_live_addr _ _ Hl) as (pn&_&->&_). by apply Hk. Qed.
(** Giving a page back to the allocator. *)
Lemma refs_page_free m N R p (Q : unit → pmem → Prop) :
  refs_inv m N R → page_used m p → (p ∉ N) → (p ∉ R) →
  (∀ pn i, page_at m pn p → pm_info m !! pn = Some i → pi_ref i = 0) →
  (∀ m', refs_inv m' N R → pm_conf m' = pm_conf m →
     (∀ q, q ≠ p → pm_page m' !! q = pm_page m !! q) → page_free_p m' p →
     releases m m' → keep_clear p R m m' → Q tt m') →
  wp (page_free p) m Q.
Proof.
  intros Hi Hu HpN HpR H0 HQ. pose proof Hi as [Ha Hnd Hn Hnr Hl Hr].
  eapply wp_mono; [by apply page_free_spec|]. intros [] m' [Ha' Hrel].
  destruct (free_rel_status _ _ _ Hrel) as (Hf&_&Hk&_).
  destruct Hrel as (pn&i&Hat&Hin&Hfi&Hwi&Hinfo&Hpg&Hc). specialize (H0 _ _ Hat Hin).
  assert (Hne : ∀ q pn', q ≠ p → page_at m pn' q → pm_info m' !! pn' = pm_info m !! pn').
  { intros q pn' Hq Hat'. rewrite Hinfo, lookup_insert_ne; [done|]. intros ->.
    destruct Hat, Hat'. congruence. }
  assert (Hclr : keep_clear p R m m').
  { intros pn' Hp. eapply clear_bit_info; [exact Hin|exact Hinfo|right]. rewrite page_number. intros ->.
    assert (Hpp : page_addr pn = p) by (symmetry; apply Hat). rewrite Hpp in Hp. by destruct Hp. }
  apply HQ; try done.
  2:{ intros q Hq. by rewrite Hpg, lookup_insert_ne. }
  2:{ eapply releases_upd; [done|exact Hinfo|]. intros i0 _. split; [by left|done]. }
  split; try done.
  - intros q Hq. split; [|by apply Hn]. apply Hk; [by intros ->|by apply Hn].
  - intros q pn' i' Hq Hat' Hi'. rewrite page_at_conf in Hat' by done.
    rewrite (Hne q) in Hi' by (done || by intros ->). by eapply Hnr.
  - intros q Hq. destruct (Hl q Hq) as (pn'&i'&Hat'&Hi'&Hf'). exists pn', i'.
    rewrite page_at_conf by done. rewrite (Hne q); [done|by intros ->|done].
  - intros pn' i' Hpn' Hi'. rewrite Hc in Hpn'. rewrite Hinfo in Hi'.
    destruct (decide (pn = pn')) as [->|].
    + rewrite lookup_insert_eq in Hi'. injection Hi' as <-. specialize (Hr _ _ Hpn' Hin).
      destruct Hr as (?&?&?&?). unfold ref_ok in *. simpl. by split_and!.
    + rewrite lookup_insert_ne in Hi' by done. by apply Hr.
Qed.

(** A node is freed. *)
Lemma refs_free_node m N R p (Q : unit → pmem → Prop) :
  refs_inv m (p :: N) R →
  (∀ m', refs_inv m' N R → pm_conf m' = pm_conf m →
     (∀ q, q ≠ p → pm_page m' !! q = pm_page m !! q) → page_free_p m' p →
     releases m m' → keep_clear p R m m' → Q tt m') →
  wp (page_free p) m Q.
Proof.
  intros Hi HQ. assert (Hu : page_used m p) by (apply (ri_node _ _ _ Hi); by left).
  destruct (refs_drop _ _ _ _ Hi) as (Hi'&_&HpN&HpR&H0). by eapply refs_page_free.
Qed.

(** A reference is counted. *)
Lemma refs_incref m N R p (Q : unit → pmem → Prop) :
  refs_inv m N R → page_live m p → (p ∉ N) →
  (∀ pn i, page_at m pn p → pm_info m !! pn = Some i → pi_ref i + 1 < 2 ^ 32) →
  (∀ m', refs_inv m' N (p :: R) → pm_conf m' = pm_conf m → pm_page m' = pm_page m →
     (∀ q, clear_bit m' q = clear_bit m q) → Q tt m') →
  wp (pagetree_incref p) m Q.
Proof.
  intros Hi Hlive HpN Hroom HQ. destruct (page_live_addr _ _ Hlive) as (pn&i&->&Hat&Hin&Hf).
  pose proof (ri_alloc _ _ _ Hi) as Ha. specialize (Hroom _ _ Hat Hin).
  destruct (ri_ref _ _ _ Hi pn i) as (Hr1&Hr2&Hr3&Hr4); [apply Hat|done|].
  unfold pagetree_incref. wp_pure. eapply page_to_pageinfo_page; [apply Ha|exact Hat|].
  eapply wp_upd_info; [exact Hin|]. apply HQ; try done; [|intros q; eapply clear_bit_info; [exact Hin|done|by left]].
  assert (0 ≤ cnt R (page_addr pn)) by (unfold cnt; lia).
  assert (Hinc : jos_atomic_inc (pi_ref i) = pi_ref i + 1) by (apply u32_small; unfold in_u32; lia).
  eapply refs_set_info; try done; simpl; [by left|..].
  - unfold ref_ok. simpl. rewrite Hinc, cnt_cons, decide_True by done.
    split_and!; [lia|lia|lia|congruence].
  - intros q Hq. rewrite cnt_cons, decide_False by done. lia.
Qed.

(** A new page becomes a referenced one. *)
Lemma refs_incref_new m N R p (Q : unit → pmem → Prop) :
  refs_inv m (p :: N) R →
  (∀ m', refs_inv m' N (p :: R) → pm_conf m' = pm_conf m → pm_page m' = pm_page m →
     (∀ q, clear_bit m' q = clear_bit m q) → Q tt m') →
  wp (pagetree_incref p) m Q.
Proof.
  intros Hi HQ. destruct (refs_drop _ _ _ _ Hi) as (Hi'&Hl&HpN&HpR&H0).
  eapply refs_incref; try done. intros pn i Hat Hin. rewrite (H0 _ _ Hat Hin). lia.
Qed.

(** A page no tree refers to, [hw] pages included, is given back. *)
Lemma refs_page_free_live m N R p (Q : unit → pmem → Prop) :
  refs_inv m N R → page_live m p → (p ∉ N) → (p ∉ R) →
  (∀ pn i, page_at m pn p → pm_info m !! pn = Some i → pi_ref i = 0) →
  (∀ m', refs_inv m' N R → pm_conf m' = pm_conf m →
     (∀ q, q ≠ p → pm_page m' !! q = pm_page m !! q) → released m' p →
     releases m m' → keep_clear p R m m' → Q tt m') →
  wp (page_free p) m Q.
Proof.
  intros Hi Hlive HpN HpR H0 HQ. pose proof Hlive as (pn&i&Hat&Hin&Hf).
  destruct (pi_hwpage i) eqn:Hw.
  - unfold page_free. wp_pure. eapply page_to_pageinfo_page; [apply Hi|exact Hat|]. wp_pure.
    eapply wp_get_info; [exact Hin|]. rewrite Hw. wp_pure. apply HQ; try done. exists pn, i. tauto.
  - eapply refs_page_free; try done; [by exists pn, i|]. intros m' Hm' Hc Hpg Hfr Hrel Hclr.
    apply HQ; try done. by apply page_free_released.
Qed.

(** A reference is dropped, and with the last one the page. *)
Lemma refs_decref m N R p (Q : unit → pmem → Prop) :
  refs_inv m N (p :: R) →
  (∀ m', refs_inv m' N R → pm_conf m' = pm_conf m →
     (∀ q, q ≠ p ∨ q ∈ R → pm_page m' !! q = pm_page m !! q) →
     p ∈ R ∨ released m' p → releases m m' → keep_clear p R m m' → Q tt m') →
  wp (pagetree_decref p) m Q.
Proof.
  intros Hi HQ. assert (Hlive : page_live m p) by (apply (ri_live _ _ _ Hi); by left).
  assert (HpN : p ∉ N) by (intros ?; eapply refs_disjoint; [done..|by left]).
  destruct (page_live_addr _ _ Hlive) as (pn&i&->&Hat&Hin&Hf).
  pose proof (ri_alloc _ _ _ Hi) as Ha.
  destruct (ri_ref _ _ _ Hi pn i) as (Hr1&Hr2&Hr3&Hr4); [apply Hat|done|].
  rewrite cnt_cons, decide_True in Hr1 by done.
  assert (0 ≤ cnt R (page_addr pn)) by (unfold cnt; lia).
  assert (Hdec : u32 (pi_ref i - 1) = pi_ref i - 1) by (apply u32_small; unfold in_u32; lia).
  unfold pagetree_decref. wp_pure. eapply page_to_pageinfo_page; [apply Ha|exact Hat|].
  wp_pure. eapply wp_get_info; [exact Hin|]. unfold jos_atomic_dec_and_test. rewrite Hdec.
  unfold put_info. wp_pure. set (m1 := set_info pn _ m).
  assert (Hi1 : refs_inv m1 N R).
  { eapply refs_set_info; try done; simpl; [by left|..].
    - unfold ref_ok. simpl. split_and!; [lia|lia|lia|congruence].
    - intros q Hq. rewrite cnt_cons, decide_False by done. lia. }
  assert (Hclr1 : ∀ q, clear_bit m1 q = clear_bit m q) by (intros q; eapply clear_bit_info; [exact Hin|done|by left]).
  assert (Hrel1 : releases m m1).
  { eapply releases_upd; [done..|]. intros i0 Hi0. by simplify_eq. }
  destruct (Z.eqb_spec (pi_ref i - 1) 0) as [Hz|Hz].
  2:{ wp_pure. apply HQ; try done; [|by intros pn' _]. rewrite cnt_pos.
      destruct (Z.lt_ge_cases 0 (pi_hw_ref i)); [right|left; lia].
      exists pn, (pi_set_ref (pi_ref i - 1) i). unfold m1. simpl. rewrite lookup_insert_eq. simpl. tauto. }
  wp_pure. apply wp_assert; [lia|]. wp_pure.
  assert (HpR : page_addr pn ∉ R) by (apply cnt_zero; lia).
  eapply refs_page_free_live; [exact Hi1| |done|done| |].
  - apply (info_status _ _ i); done.
  - intros pn' i' Hat' Hi'. rewrite <- (page_at_inj _ _ _ _ Hat Hat') in Hi'. simpl in Hi'.
    rewrite lookup_insert_eq in Hi'. injection Hi' as <-. simpl. lia.
  - intros m' Hm' Hc Hpg Hrp Hrel Hclr. apply HQ; try done; [|by right|by etrans|intros pn' Hp; by rewrite Hclr, Hclr1].
    intros q Hq. apply Hpg. destruct Hq; [done|congruence].
Qed.

(** Changing flags that do not concern ownership. *)
Lemma refs_set_flags m N R pn i i' :
  refs_inv m N R → page_at m pn (page_addr pn) → pm_info m !! pn = Some i →
  pi_ref i' = pi_ref i → pi_hw_ref i' = pi_hw_ref i → pi_freepage i' = pi_freepage i → pi_hwpage i' = pi_hwpage i →
  pi_clear i' = pi_clear i ∨ pi_freepage i = false → refs_inv (set_info pn i' m) N R.
Proof.
  intros Hi Hat Hin Hr Hh Hf Hw Hcl. assert (Hok := ri_ref _ _ _ Hi pn i (proj2 Hat) Hin).
  eapply refs_set_info; try done.
  - unfold ref_ok in *. by rewrite Hr, Hh, Hf.
  - intros Hp. destruct (ri_live _ _ _ Hi _ Hp) as (pn'&j&Hat'&Hi'&Hf').
    rewrite <- (page_at_inj _ _ _ _ Hat Hat') in Hi'. congruence.
  - intros Hp. split; [by apply (ri_node _ _ _ Hi)|]. rewrite Hr. exact (ri_node_ref _ _ _ Hi _ _ _ Hp Hat Hin).
Qed.
(** Marking a page cleared or not. *)
Lemma refs_set_clear m N R pn i b :
  refs_inv m N R → page_at m pn (page_addr pn) → pm_info m !! pn = Some i → pi_freepage i = false →
  refs_inv (set_info pn (pi_set_clear b i) m) N R.
Proof. intros Hi Hat Hin Hf. eapply refs_set_flags; try done. by right. Qed.

(** A machine on which no page is referenced yet. *)
Lemma refs_inv_start m N :
  alloc_inv m → NoDup N → (∀ p, p ∈ N → page_used m p) →
  (∀ pn i, pm_info m !! pn = Some i → pi_ref i = 0 ∧ pi_hw_ref i = 0) → refs_inv m N [].
Proof.
  intros Ha Hnd HN H0. split; try done.
  - intros p Hp. split; [by apply HN|apply not_elem_of_nil].
  - intros p pn i _ _ Hi. by apply (H0 pn).
  - intros p Hp. by apply not_elem_of_nil in Hp.
  - intros pn i _ Hi. destruct (H0 pn i Hi) as [H1 H2]. unfold ref_ok. rewrite H1, H2. done.
Qed.

(** The same as a test, for concrete machines. *)
Definition page_usedb (m : pmem) (p : Z) : bool :=
  let pn := (p - PHYSBASE) / PGSIZE in
  (p =? page_addr pn) && (0 <=? pn) && (pn <? mc_npages (pm_conf m)) &&
  match pm_info m !! pn with Some i => negb (pi_freepage i) && negb (pi_hwpage i) | None => false end.
Definition startb (m : pmem) (N : list Z) : bool :=
  alloc_invb m && bool_decide (NoDup N) && forallb (page_usedb m) N &&
  forallb (λ ki, (pi_ref ki.2 =? 0) && (pi_hw_ref ki.2 =? 0)) (map_to_list (pm_info m)).
Lemma startb_sound m N : startb m N = true → refs_inv m N [].
Proof.
  unfold startb. rewrite !andb_true_iff. intros [[[Ha Hnd] Hu] Hi]. apply bool_decide_eq_true in Hnd.
  apply refs_inv_start; [by apply alloc_invb_sound|done| |].
  - intros p Hp. apply (forallb_elem _ _ _ Hu) in Hp. unfold page_usedb in Hp. rewrite !andb_true_iff in Hp.
    destruct Hp as [[[Hp%Z.eqb_eq H0%Z.leb_le] H1%Z.ltb_lt] Hinf]. set (pn := (p - PHYSBASE) / PGSIZE) in *.
    destruct (pm_info m !! pn) as [i|] eqn:Hpn; [|done]. apply andb_true_iff in Hinf as [Hf%negb_true_iff Hw%negb_true_iff].
    exists pn, i. split; [by split|]. by split_and!.
  - intros pn i Hpn. apply elem_of_map_to_list, (forallb_elem _ _ _ Hi), andb_true_iff in Hpn. cbn in Hpn. lia.
Qed.
