(* ===== verification/PagetreeSpec.v ===== *)
(** * Page trees: abstraction and correctness

    A subtree of level [l] with root [ind] is a partial array of [cap l] entries.
    [nodes], [refs] and [walk] read off its interior pages, the references its
    entries hold and the array itself; [tree_ok] is its well-formedness.  The
    theorems at the end are about whole trees, with [refs_inv] accounting for the
    pages of every other tree in the system. *)
From S2P Require Import Prelude Machine Hashtable Ktypes Kmem PageAlloc Pagetree PageRefs.

(** ** The shape of a subtree *)

(** The number of entries of a subtree of level [l]. *)
Fixpoint cap (l : nat) : Z :=
  match l with O => PAGETREE_ENTRIES_PER_PAGE | S l' => cap l' * PAGETREE_INDIRECT_PER_PAGE end.

(** Array elements of a node; a node of the other kind has none. *)
Definition node_ptr (m : pmem) (pg s : Z) : Z :=
  match page_ptrs m pg with Some a => default 0 (a !! s) | None => 0 end.
Definition node_ent (m : pmem) (pg s : Z) : pagetree_entry :=
  match page_ents m pg with Some a => default null_ent (a !! s) | None => null_ent end.

Definition slots : list Z := seqZ 0 PAGETREE_INDIRECT_PER_PAGE.
Definition indices : list Z := seqZ 0 PAGETREE_ENTRIES_PER_PAGE.

(** The reference an entry holds. *)
Definition ent_ref (e : pagetree_entry) : list Z := if pe_page e =? 0 then [] else [pe_page e].

Fixpoint nodes (m : pmem) (l : nat) (ind : Z) : list Z :=
  if ind =? 0 then [] else
  ind :: match l with
         | O => []
         | S l' => slots ≫= λ s, nodes m l' (node_ptr m ind s)
         end.

Fixpoint refs (m : pmem) (l : nat) (ind : Z) : list Z :=
  if ind =? 0 then [] else
  match l with
  | O => indices ≫= λ s, ent_ref (node_ent m ind s)
  | S l' => slots ≫= λ s, refs m l' (node_ptr m ind s)
  end.

(** The page and index that hold entry [n], if all nodes on the way exist. *)
Fixpoint locate (m : pmem) (l : nat) (ind n : Z) : option (Z * Z) :=
  if ind =? 0 then None else
  match l with
  | O => Some (ind, n)
  | S l' => locate m l' (node_ptr m ind (n / cap l')) (n mod cap l')
  end.

(** Entry [n] of the array: null where nodes are missing. *)
Definition walk (m : pmem) (l : nat) (ind n : Z) : pagetree_entry :=
  match locate m l ind n with Some (pg, s) => node_ent m pg s | None => null_ent end.

(** Every node is of the kind its level needs. *)
Fixpoint tree_ok (m : pmem) (l : nat) (ind : Z) : Prop :=
  ind = 0 ∨
  match l with
  | O => is_Some (page_ents m ind)
  | S l' => is_Some (page_ptrs m ind) ∧ ∀ s, s ∈ slots → tree_ok m l' (node_ptr m ind s)
  end.

(** ** Arithmetic *)

Lemma entries_per_page : PAGETREE_ENTRIES_PER_PAGE = 170.
Proof. reflexivity. Qed.
Lemma indirect_per_page : PAGETREE_INDIRECT_PER_PAGE = 512.
Proof. reflexivity. Qed.

Lemma cap_pos l : 0 < cap l.
Proof. induction l as [|l IH]; simpl; rewrite ?indirect_per_page, ?entries_per_page; lia. Qed.

Lemma cap_values l : (l ≤ 3)%nat → cap l ≤ 170 * 512 ^ 3.
Proof. intros Hl. do 4 (destruct l as [|l]; [by vm_compute|]). lia. Qed.

Lemma n_pages_per_i_cap l : (l ≤ 3)%nat → n_pages_per_i l = cap l.
Proof. intros Hl. do 4 (destruct l as [|l]; [reflexivity|]). lia. Qed.

Lemma elem_of_slots s : s ∈ slots ↔ 0 ≤ s < PAGETREE_INDIRECT_PER_PAGE.
Proof. apply elem_of_seqZ. Qed.
Lemma elem_of_indices s : s ∈ indices ↔ 0 ≤ s < PAGETREE_ENTRIES_PER_PAGE.
Proof. apply elem_of_seqZ. Qed.
Lemma slots_in_range s : s ∈ slots → in_range s PAGETREE_INDIRECT_PER_PAGE = true.
Proof. rewrite elem_of_slots. unfold in_range. lia. Qed.
Lemma indices_in_range s : s ∈ indices → in_range s PAGETREE_ENTRIES_PER_PAGE = true.
Proof. rewrite elem_of_indices. unfold in_range. lia. Qed.

(** Splitting an index into slot and rest. *)
Lemma slot_of l n : 0 ≤ n < cap (S l) → n / cap l ∈ slots ∧ 0 ≤ n mod cap l < cap l.
Proof.
  simpl. intros Hn. pose proof (cap_pos l). rewrite elem_of_slots. split.
  - split; [apply Z.div_pos; lia|apply Z.div_lt_upper_bound; lia].
  - apply Z.mod_pos_bound. lia.
Qed.

Lemma slot_u32 l n : (S l ≤ 3)%nat → 0 ≤ n < cap (S l) →
  u32 (n / cap l) = n / cap l ∧ u32 (n mod cap l) = n mod cap l.
Proof.
  intros Hl Hn. destruct (slot_of l n Hn) as [Hs Hr]. rewrite elem_of_slots, indirect_per_page in Hs.
  assert (cap l ≤ 170 * 512 ^ 2) by (do 3 (destruct l as [|l]; [by vm_compute|]); lia).
  split; apply u32_small; unfold in_u32; lia.
Qed.

(** ** Splitting a list of children *)

(** Proves a permutation by an equality. *)
Ltac perm_eq :=
  lazymatch goal with
  | |- ?a ≡ₚ ?b => let H := fresh in enough (H : a = b) by (rewrite H; reflexivity)
  end.

Lemma bind_ext_elem {A B} (f g : A → list B) l : (∀ x, x ∈ l → f x = g x) → l ≫= f = l ≫= g.
Proof.
  induction l as [|x l IH]; intros H; [done|]. csimpl. rewrite (H x) by by left. f_equal.
  apply IH. intros y Hy. apply H. by right.
Qed.

Lemma seqZ_split s n : 0 ≤ s < n → seqZ 0 n = seqZ 0 s ++ s :: seqZ (s + 1) (n - s - 1).
Proof.
  intros. replace n with (s + (n - s)) at 1 by lia. rewrite (seqZ_app 0 s) by lia. f_equal.
  rewrite Z.add_0_l, seqZ_cons by lia. f_equal.
Qed.

(** The indices other than [s]. *)
Definition others (s n : Z) : list Z := seqZ 0 s ++ seqZ (s + 1) (n - s - 1).

Lemma elem_of_others s n x : 0 ≤ s < n → x ∈ others s n ↔ x ≠ s ∧ 0 ≤ x < n.
Proof. intros. unfold others. rewrite elem_of_app, !elem_of_seqZ. lia. Qed.

Lemma bind_split {B} s n (f : Z → list B) :
  0 ≤ s < n → (seqZ 0 n ≫= f) ≡ₚ f s ++ (others s n ≫= f).
Proof.
  intros Hs. rewrite (seqZ_split s n) by done. unfold others. rewrite !bind_app. csimpl.
  rewrite !(assoc_L app). apply Permutation_app; [|done]. by rewrite Permutation_app_comm.
Qed.

Lemma slots_bind {B} s (f : Z → list B) :
  s ∈ slots → (slots ≫= f) ≡ₚ f s ++ (others s PAGETREE_INDIRECT_PER_PAGE ≫= f).
Proof. rewrite elem_of_slots. apply bind_split. Qed.
Lemma indices_bind {B} s (f : Z → list B) :
  s ∈ indices → (indices ≫= f) ≡ₚ f s ++ (others s PAGETREE_ENTRIES_PER_PAGE ≫= f).
Proof. rewrite elem_of_indices. apply bind_split. Qed.

(** The nodes and references of all children but [s]. *)
Definition nodes_but (m : pmem) (l : nat) (ind s : Z) : list Z :=
  others s PAGETREE_INDIRECT_PER_PAGE ≫= λ s', nodes m l (node_ptr m ind s').
Definition refs_but (m : pmem) (l : nat) (ind s : Z) : list Z :=
  others s PAGETREE_INDIRECT_PER_PAGE ≫= λ s', refs m l (node_ptr m ind s').

(** Unfolding one level. *)
Lemma nodes_S m l ind : ind ≠ 0 → nodes m (S l) ind = ind :: (slots ≫= λ s, nodes m l (node_ptr m ind s)).
Proof. intros Hi. cbn [nodes]. by rewrite (proj2 (Z.eqb_neq _ _)). Qed.
Lemma nodes_O m ind : ind ≠ 0 → nodes m 0 ind = [ind].
Proof. intros Hi. cbn [nodes]. by rewrite (proj2 (Z.eqb_neq _ _)). Qed.
Lemma nodes_null m l : nodes m l 0 = [].
Proof. by destruct l. Qed.
Lemma refs_S m l ind : ind ≠ 0 → refs m (S l) ind = slots ≫= λ s, refs m l (node_ptr m ind s).
Proof. intros Hi. cbn [refs]. by rewrite (proj2 (Z.eqb_neq _ _)). Qed.
Lemma refs_O m ind : ind ≠ 0 → refs m 0 ind = indices ≫= λ s, ent_ref (node_ent m ind s).
Proof. intros Hi. cbn [refs]. by rewrite (proj2 (Z.eqb_neq _ _)). Qed.
Lemma refs_null m l : refs m l 0 = [].
Proof. by destruct l. Qed.
Lemma locate_S m l ind n :
  ind ≠ 0 → locate m (S l) ind n = locate m l (node_ptr m ind (n / cap l)) (n mod cap l).
Proof. intros Hi. cbn [locate]. by rewrite (proj2 (Z.eqb_neq _ _)). Qed.
Lemma locate_O m ind n : ind ≠ 0 → locate m 0 ind n = Some (ind, n).
Proof. intros Hi. cbn [locate]. by rewrite (proj2 (Z.eqb_neq _ _)). Qed.
Lemma locate_null m l n : locate m l 0 n = None.
Proof. by destruct l. Qed.
Lemma walk_S m l ind n :
  ind ≠ 0 → walk m (S l) ind n = walk m l (node_ptr m ind (n / cap l)) (n mod cap l).
Proof. intros Hi. unfold walk. by rewrite locate_S. Qed.
Lemma walk_null m l n : walk m l 0 n = null_ent.
Proof. unfold walk. by rewrite locate_null. Qed.
Lemma tree_ok_S m l ind : ind ≠ 0 →
  tree_ok m (S l) ind ↔ is_Some (page_ptrs m ind) ∧ ∀ s, s ∈ slots → tree_ok m l (node_ptr m ind s).
Proof. intros Hi. cbn [tree_ok]. tauto. Qed.
Lemma tree_ok_O m ind : ind ≠ 0 →
  tree_ok m 0 ind ↔ is_Some (page_ents m ind).
Proof. intros Hi. cbn [tree_ok]. tauto. Qed.
Lemma tree_ok_null m l : tree_ok m l 0.
Proof. destruct l; by left. Qed.

#[global] Opaque slots indices.
#[global] Arguments nodes : simpl never.
#[global] Arguments refs : simpl never.
#[global] Arguments locate : simpl never.
#[global] Arguments tree_ok : simpl never.

Lemma nodes_split m l ind s :
  ind ≠ 0 → s ∈ slots → nodes m (S l) ind ≡ₚ nodes m l (node_ptr m ind s) ++ ind :: nodes_but m l ind s.
Proof.
  intros Hi Hs. rewrite nodes_S by done. rewrite <- Permutation_middle.
  apply perm_skip. exact (slots_bind s (λ s', nodes m l (node_ptr m ind s')) Hs).
Qed.

Lemma refs_split m l ind s :
  ind ≠ 0 → s ∈ slots → refs m (S l) ind ≡ₚ refs m l (node_ptr m ind s) ++ refs_but m l ind s.
Proof.
  intros Hi Hs. rewrite refs_S by done.
  exact (slots_bind s (λ s', refs m l (node_ptr m ind s')) Hs).
Qed.

(** ** Frame: a subtree depends on its own nodes only *)

Lemma page_arrays_ext m m' pg :
  pm_page m' !! pg = pm_page m !! pg →
  page_ptrs m' pg = page_ptrs m pg ∧ page_ents m' pg = page_ents m pg.
Proof. unfold page_ptrs, page_ents. by intros ->. Qed.

Lemma node_ptr_ext m m' pg s : pm_page m' !! pg = pm_page m !! pg → node_ptr m' pg s = node_ptr m pg s.
Proof. intros H. unfold node_ptr. by rewrite (proj1 (page_arrays_ext _ _ _ H)). Qed.
Lemma node_ent_ext m m' pg s : pm_page m' !! pg = pm_page m !! pg → node_ent m' pg s = node_ent m pg s.
Proof. intros H. unfold node_ent. by rewrite (proj2 (page_arrays_ext _ _ _ H)). Qed.

(** [m'] has the pages [P] of [m]. *)
Definition same_pages (P : list Z) (m m' : pmem) : Prop :=
  ∀ p, p ∈ P → pm_page m' !! p = pm_page m !! p.

Lemma same_pages_child m m' l ind s :
  ind ≠ 0 → s ∈ slots → same_pages (nodes m (S l) ind) m m' →
  same_pages (nodes m l (node_ptr m ind s)) m m'.
Proof.
  intros Hi Hs Hp p Hin. apply Hp. rewrite (nodes_split _ _ _ s), elem_of_app by done. by left.
Qed.
Lemma same_pages_root m m' l ind :
  ind ≠ 0 → same_pages (nodes m l ind) m m' → pm_page m' !! ind = pm_page m !! ind.
Proof.
  intros Hi Hp. apply Hp. destruct l; [rewrite nodes_O by done|rewrite nodes_S by done]; by left.
Qed.

Lemma tree_ext m m' l ind :
  same_pages (nodes m l ind) m m' →
  nodes m' l ind = nodes m l ind ∧ refs m' l ind = refs m l ind ∧
  (tree_ok m l ind → tree_ok m' l ind).
Proof.
  revert ind. induction l as [|l IH]; intros ind Hp; destruct (decide (ind = 0)) as [->|Hi];
    rewrite ?nodes_null, ?refs_null; try (split_and!; [done..|intros; apply tree_ok_null]);
    assert (Hr := same_pages_root _ _ _ _ Hi Hp).
  - rewrite !nodes_O, !refs_O, !tree_ok_O by done. split_and!; [done| |].
    + apply bind_ext_elem. intros s _. by rewrite (node_ent_ext m m').
    + by rewrite (proj2 (page_arrays_ext _ _ _ Hr)).
  - assert (Hc : ∀ s, s ∈ slots → same_pages (nodes m l (node_ptr m ind s)) m m')
      by (intros s Hs; by eapply same_pages_child).
    rewrite !nodes_S, !refs_S, !tree_ok_S by done. split_and!.
    + f_equal. apply bind_ext_elem. intros s Hs. rewrite (node_ptr_ext m m') by done. by apply IH, Hc.
    + apply bind_ext_elem. intros s Hs. rewrite (node_ptr_ext m m') by done. by apply IH, Hc.
    + rewrite (proj1 (page_arrays_ext _ _ _ Hr)). intros [? Ht]. split; [done|].
      intros s Hs. rewrite (node_ptr_ext m m') by done. by apply IH; [apply Hc|apply Ht].
Qed.

Lemma walk_ext m m' l ind n :
  same_pages (nodes m l ind) m m' → 0 ≤ n < cap l →
  locate m' l ind n = locate m l ind n ∧ walk m' l ind n = walk m l ind n.
Proof.
  revert ind n. induction l as [|l IH]; intros ind n Hp Hn; destruct (decide (ind = 0)) as [->|Hi];
    rewrite ?locate_null, ?walk_null; try done; assert (Hr := same_pages_root _ _ _ _ Hi Hp).
  - unfold walk. rewrite !locate_O by done. split; [done|]. by apply node_ent_ext.
  - destruct (slot_of _ _ Hn) as [Hs Hm]. rewrite !locate_S, !walk_S by done.
    rewrite (node_ptr_ext m m') by done. apply IH; [|done]. by eapply same_pages_child.
Qed.

(** ** Positions *)

Lemma locate_node m l ind n pg s :
  0 ≤ n < cap l → locate m l ind n = Some (pg, s) → pg ∈ nodes m l ind ∧ s ∈ indices.
Proof.
  revert ind n. induction l as [|l IH]; intros ind n Hn; destruct (decide (ind = 0)) as [->|Hi];
    rewrite ?locate_null; try done.
  - rewrite locate_O by done. intros [= <- <-]. rewrite nodes_O, elem_of_indices by done.
    split; [by left|done].
  - rewrite locate_S by done. destruct (slot_of _ _ Hn) as [Hs Hm]. intros Hloc.
    apply IH in Hloc as [Hpg ?]; [|done]. split; [|done].
    rewrite (nodes_split _ _ _ (n / cap l)), elem_of_app by done. by left.
Qed.

Lemma locate_leaf m l ind n pg s :
  0 ≤ n < cap l → tree_ok m l ind → locate m l ind n = Some (pg, s) →
  is_Some (page_ents m pg).
Proof.
  revert ind n. induction l as [|l IH]; intros ind n Hn Ht; destruct (decide (ind = 0)) as [->|Hi];
    rewrite ?locate_null; try done.
  - rewrite locate_O by done. intros [= <- <-]. by rewrite tree_ok_O in Ht.
  - rewrite locate_S by done. destruct (slot_of _ _ Hn) as [Hs Hm]. rewrite tree_ok_S in Ht by done.
    apply IH; [done|]. by apply Ht.
Qed.

(** Distinct slots of a node have disjoint subtrees. *)
Lemma child_in_but m l ind s s' p :
  s' ∈ slots → s ∈ slots → s' ≠ s → p ∈ nodes m l (node_ptr m ind s') → p ∈ nodes_but m l ind s.
Proof.
  rewrite !elem_of_slots. intros Hs' Hs Hne Hp. unfold nodes_but. apply list_elem_of_bind.
  exists s'. split; [done|]. by apply elem_of_others.
Qed.

Lemma locate_inj m l ind n n' x :
  NoDup (nodes m l ind) → 0 ≤ n < cap l → 0 ≤ n' < cap l →
  locate m l ind n = Some x → locate m l ind n' = Some x → n = n'.
Proof.
  revert ind n n'. induction l as [|l IH]; intros ind n n' Hnd Hn Hn';
    destruct (decide (ind = 0)) as [->|Hi]; rewrite ?locate_null; try done.
  - rewrite !locate_O by done. congruence.
  - rewrite !locate_S by done. destruct (slot_of _ _ Hn) as [Hs Hm], (slot_of _ _ Hn') as [Hs' Hm'].
    intros H1 H2. destruct x as [pg s].
    rewrite (nodes_split _ _ _ (n / cap l)) in Hnd by done. apply NoDup_app in Hnd as (Hnd&Hdis&_).
    destruct (decide (n' / cap l = n / cap l)) as [Heq|Hne].
    + rewrite Heq in H2. assert (Hmm := IH _ _ _ Hnd Hm Hm' H1 H2).
      pose proof (cap_pos l). rewrite (Z.div_mod n (cap l)), (Z.div_mod n' (cap l)) by lia. congruence.
    + apply locate_node in H1 as [H1 _]; [|done]. apply locate_node in H2 as [H2 _]; [|done].
      exfalso. apply (Hdis _ H1). right. by eapply child_in_but.
Qed.

(** ** Writing an entry *)

Definition put_ent (pg s : Z) (e : pagetree_entry) (m : pmem) : pmem :=
  match page_ents m pg with Some a => set_page pg (PgEnts (<[s := e]> a)) m | None => m end.

Lemma put_ent_page m pg s e q : q ≠ pg → pm_page (put_ent pg s e m) !! q = pm_page m !! q.
Proof. intros Hq. unfold put_ent. case_match; [|done]. simpl. by rewrite lookup_insert_ne. Qed.

Lemma put_ent_ptr m pg s e q s' : node_ptr (put_ent pg s e m) q s' = node_ptr m q s'.
Proof.
  destruct (decide (q = pg)) as [->|Hq]; [|by apply node_ptr_ext, put_ent_page].
  unfold put_ent, node_ptr, page_ptrs, page_ents. destruct (pm_page m !! pg) as [c|] eqn:Hc; simpl;
    [|by rewrite Hc]. destruct c; simpl; rewrite ?lookup_insert_eq; simpl; rewrite ?Hc; done.
Qed.

Lemma put_ent_ents m pg s e :
  is_Some (page_ents m pg) → ∃ a, page_ents m pg = Some a ∧ page_ents (put_ent pg s e m) pg = Some (<[s := e]> a).
Proof.
  intros [a Ha]. exists a. split; [done|]. unfold put_ent. rewrite Ha.
  unfold page_ents. simpl. by rewrite lookup_insert_eq.
Qed.

Lemma put_ent_ent m pg s e q s' :
  is_Some (page_ents m pg) →
  node_ent (put_ent pg s e m) q s' = if decide (q = pg ∧ s' = s) then e else node_ent m q s'.
Proof.
  intros Hp. destruct (decide (q = pg)) as [->|Hq].
  - destruct (put_ent_ents m pg s e Hp) as (a&Ha&Ha'). unfold node_ent. rewrite Ha, Ha'.
    destruct (decide (s' = s)) as [->|].
    + by rewrite lookup_insert_eq, decide_True.
    + by rewrite lookup_insert_ne, decide_False by (done || by intros [_ ?]).
  - rewrite decide_False by tauto. by apply node_ent_ext, put_ent_page.
Qed.

Lemma put_ent_locate m pg s e l ind n : locate (put_ent pg s e m) l ind n = locate m l ind n.
Proof.
  revert ind n. induction l as [|l IH]; intros ind n; destruct (decide (ind = 0)) as [->|Hi];
    rewrite ?locate_null; try done.
  rewrite !locate_S by done. by rewrite put_ent_ptr, IH.
Qed.
Lemma put_ent_nodes m pg s e l ind : nodes (put_ent pg s e m) l ind = nodes m l ind.
Proof.
  revert ind. induction l as [|l IH]; intros ind; destruct (decide (ind = 0)) as [->|Hi];
    rewrite ?nodes_null; try done.
  rewrite !nodes_S by done. f_equal. apply bind_ext_elem. intros s' _. by rewrite put_ent_ptr, IH.
Qed.

Lemma put_ent_walk m l ind n pg s e n' :
  NoDup (nodes m l ind) → tree_ok m l ind → 0 ≤ n < cap l → 0 ≤ n' < cap l →
  locate m l ind n = Some (pg, s) →
  walk (put_ent pg s e m) l ind n' = if decide (n' = n) then e else walk m l ind n'.
Proof.
  intros Hnd Ht Hn Hn' Hloc. unfold walk. rewrite put_ent_locate.
  pose proof (locate_leaf _ _ _ _ _ _ Hn Ht Hloc) as Hents.
  destruct (decide (n' = n)) as [->|Hne].
  - by rewrite Hloc, put_ent_ent, decide_True.
  - destruct (locate m l ind n') as [[pg' s']|] eqn:Hloc'; [|done].
    rewrite put_ent_ent by done. rewrite decide_False; [done|]. intros [-> ->].
    by apply Hne, (locate_inj m l ind n' n (pg, s)).
Qed.

Lemma put_ent_ok m l ind n pg s e :
  NoDup (nodes m l ind) → tree_ok m l ind → 0 ≤ n < cap l →
  locate m l ind n = Some (pg, s) → tree_ok (put_ent pg s e m) l ind.
Proof.
  revert ind n. induction l as [|l IH]; intros ind n Hnd Ht Hn Hloc;
    destruct (decide (ind = 0)) as [->|Hi]; try apply tree_ok_null.
  - rewrite locate_O in Hloc by done. injection Hloc as -> ->. rewrite !tree_ok_O in * by done.
    destruct (put_ent_ents m pg s e Ht) as (a&_&Ha'). by eexists.
  - rewrite locate_S in Hloc by done. rewrite !tree_ok_S in * by done. destruct Ht as [Hp Ht].
    destruct (slot_of _ _ Hn) as [Hs Hm].
    assert (Hin : pg ∈ nodes m l (node_ptr m ind (n / cap l))) by (by eapply locate_node).
    rewrite (nodes_split _ _ _ (n / cap l)) in Hnd by done. apply NoDup_app in Hnd as (Hnd&Hdis&_).
    assert (Hne : pg ≠ ind) by (intros ->; apply (Hdis _ Hin); by left).
    split; [by rewrite (proj1 (page_arrays_ext m _ ind (put_ent_page _ _ _ _ _ (not_eq_sym Hne))))|].
    intros s' Hs'. rewrite put_ent_ptr. destruct (decide (s' = n / cap l)) as [->|Hsne].
    + eapply IH; try done. by apply Ht.
    + apply (tree_ext m); [|by apply Ht]. intros q Hq. apply put_ent_page. intros ->.
      apply (Hdis _ Hin). right. by eapply child_in_but.
Qed.

Lemma put_ent_refs m l ind n pg s e :
  NoDup (nodes m l ind) → tree_ok m l ind → 0 ≤ n < cap l →
  locate m l ind n = Some (pg, s) →
  ∃ rest, refs m l ind ≡ₚ ent_ref (walk m l ind n) ++ rest ∧
          refs (put_ent pg s e m) l ind ≡ₚ ent_ref e ++ rest.
Proof.
  revert ind n. induction l as [|l IH]; intros ind n Hnd Ht Hn Hloc;
    destruct (decide (ind = 0)) as [->|Hi]; rewrite ?locate_null in Hloc; try done.
  - unfold walk. rewrite Hloc. rewrite locate_O in Hloc by done. injection Hloc as -> ->.
    rewrite tree_ok_O in Ht by done.
    assert (Hs : s ∈ indices) by (by apply elem_of_indices). rewrite !refs_O by done.
    exists (others s PAGETREE_ENTRIES_PER_PAGE ≫= λ s', ent_ref (node_ent m pg s')).
    split; [by rewrite (indices_bind s)|]. rewrite (indices_bind s) by done.
    rewrite put_ent_ent, decide_True by done. f_equiv. perm_eq. apply bind_ext_elem.
    intros s' Hs'. rewrite elem_of_indices in Hs. apply elem_of_others in Hs' as [? _]; [|done].
    by rewrite put_ent_ent, decide_False by tauto.
  - rewrite locate_S in Hloc by done. rewrite walk_S by done. destruct (slot_of _ _ Hn) as [Hs Hm].
    rewrite tree_ok_S in Ht by done. destruct Ht as [Hp Ht].
    assert (Hin : pg ∈ nodes m l (node_ptr m ind (n / cap l))) by (by eapply locate_node).
    rewrite (nodes_split _ _ _ (n / cap l)) in Hnd by done. apply NoDup_app in Hnd as (Hnd&Hdis&_).
    destruct (IH _ _ Hnd (Ht _ Hs) Hm Hloc) as (rest&Hr1&Hr2).
    exists (rest ++ refs_but m l ind (n / cap l)).
    rewrite !(refs_split _ _ _ (n / cap l)) by done. rewrite put_ent_ptr, !(assoc_L app).
    split; [by rewrite Hr1|]. rewrite Hr2. f_equiv. perm_eq. apply bind_ext_elem.
    intros s' Hs'. rewrite put_ent_ptr. apply tree_ext. intros q Hq. apply put_ent_page. intros ->.
    rewrite elem_of_slots in Hs. apply elem_of_others in Hs' as [Hne ?]; [|done].
    apply (Hdis _ Hin). right. eapply child_in_but; try done; by apply elem_of_slots.
Qed.

(** ** Pointers to nodes *)

Definition put_ptr (pg s v : Z) (m : pmem) : pmem :=
  match page_ptrs m pg with Some a => set_page pg (PgPtrs (<[s := v]> a)) m | None => m end.

Lemma put_ptr_page m pg s v q : q ≠ pg → pm_page (put_ptr pg s v m) !! q = pm_page m !! q.
Proof. intros Hq. unfold put_ptr. case_match; [|done]. simpl. by rewrite lookup_insert_ne. Qed.

Lemma put_ptr_ptr m pg s v s' :
  is_Some (page_ptrs m pg) →
  is_Some (page_ptrs (put_ptr pg s v m) pg) ∧
  node_ptr (put_ptr pg s v m) pg s' = if decide (s' = s) then v else node_ptr m pg s'.
Proof.
  intros [a Ha].
  assert (Ha' : page_ptrs (put_ptr pg s v m) pg = Some (<[s := v]> a)).
  { unfold put_ptr. rewrite Ha. unfold page_ptrs. simpl. by rewrite lookup_insert_eq. }
  split; [by eexists|]. unfold node_ptr. rewrite Ha, Ha'.
  destruct (decide (s' = s)) as [->|]; [by rewrite lookup_insert_eq|by rewrite lookup_insert_ne].
Qed.

Lemma wp_read_ptr m pg s Q :
  s ∈ slots → is_Some (page_ptrs m pg) → Q (node_ptr m pg s) m → wp (read_ptr pg s) m Q.
Proof.
  intros Hs [a Ha] HQ. unfold read_ptr. rewrite slots_in_range by done. wp_pure.
  eapply wp_deref; [exact Ha|]. wp_pure. unfold node_ptr in HQ. by rewrite Ha in HQ.
Qed.
Lemma wp_write_ptr m pg s v Q :
  s ∈ slots → is_Some (page_ptrs m pg) → Q tt (put_ptr pg s v m) → wp (write_ptr pg s v) m Q.
Proof.
  intros Hs [a Ha] HQ. unfold write_ptr. rewrite slots_in_range by done. wp_pure.
  eapply wp_deref; [exact Ha|]. wp_pure. unfold put_ptr in HQ. by rewrite Ha in HQ.
Qed.
Lemma wp_read_pent m pg s Q :
  s ∈ indices → is_Some (page_ents m pg) → Q (node_ent m pg s) m → wp (read_pent pg s) m Q.
Proof.
  intros Hs [a Ha] HQ. unfold read_pent. rewrite indices_in_range by done. wp_pure.
  eapply wp_deref; [exact Ha|]. wp_pure. unfold node_ent in HQ. by rewrite Ha in HQ.
Qed.
Lemma wp_write_pent m pg s e Q :
  s ∈ indices → is_Some (page_ents m pg) → Q tt (put_ent pg s e m) → wp (write_pent pg s e) m Q.
Proof.
  intros Hs [a Ha] HQ. unfold write_pent. rewrite indices_in_range by done. wp_pure.
  eapply wp_deref; [exact Ha|]. wp_pure. unfold put_ent in HQ. by rewrite Ha in HQ.
Qed.

(** Position [ip] holds [ind]. *)
Definition slot_at (m : pmem) (pt : pagetree) (ip : indp) (ind : Z) : Prop :=
  match ip with
  | Root i => 0 ≤ i ∧ pt_indir pt !! Z.to_nat i = Some ind
  | Slot pg s => s ∈ slots ∧ is_Some (page_ptrs m pg) ∧ node_ptr m pg s = ind
  end.
(** Position [ip] was set to [v] and its neighbours kept. *)
Definition slot_upd (m : pmem) (pt : pagetree) (ip : indp) (v : Z) (m' : pmem) (pt' : pagetree) : Prop :=
  match ip with
  | Root i => pt' = set_indir i v pt
  | Slot pg s => pt' = pt ∧ is_Some (page_ptrs m' pg) ∧
      ∀ s', s' ∈ slots → node_ptr m' pg s' = if decide (s' = s) then v else node_ptr m pg s'
  end.
Definition ip_pages (ip : indp) : list Z := match ip with Root _ => [] | Slot pg _ => [pg] end.

Lemma wp_read_indir m pt ip ind Q : slot_at m pt ip ind → Q ind m → wp (read_indir pt ip) m Q.
Proof.
  destruct ip as [i|pg s]; simpl.
  - intros [_ Hi] HQ. by eapply wp_deref.
  - intros (Hs&Hp&<-) HQ. by apply wp_read_ptr.
Qed.

Lemma slot_at_ext m m' pt ip ind :
  same_pages (ip_pages ip) m m' → slot_at m pt ip ind → slot_at m' pt ip ind.
Proof.
  destruct ip as [i|pg s]; simpl; [done|]. intros Hp (Hs&Hps&<-).
  assert (Hpg : pm_page m' !! pg = pm_page m !! pg) by (apply Hp; by left).
  rewrite (proj1 (page_arrays_ext _ _ _ Hpg)). split_and!; try done. by apply node_ptr_ext.
Qed.

Lemma set_indir_id pt i v : pt_indir pt !! Z.to_nat i = Some v → set_indir i v pt = pt.
Proof. intros H. destruct pt. unfold set_indir. simpl in *. by rewrite list_insert_id. Qed.

Lemma slot_upd_refl m m' pt ip ind :
  same_pages (ip_pages ip) m m' → slot_at m pt ip ind → slot_upd m pt ip ind m' pt.
Proof.
  destruct ip as [i|pg s]; simpl; [intros _ [_ H]; by rewrite set_indir_id|]. intros Hp (Hs&Hps&Hn).
  assert (Hpg : pm_page m' !! pg = pm_page m !! pg) by (apply Hp; by left).
  rewrite (proj1 (page_arrays_ext _ _ _ Hpg)). split_and!; try done.
  intros s' Hs'. rewrite (node_ptr_ext m m') by done. case_decide; congruence.
Qed.

Lemma slot_upd_at m pt ip v m' pt' ind :
  slot_at m pt ip ind → slot_upd m pt ip v m' pt' → slot_at m' pt' ip v.
Proof.
  destruct ip as [i|pg s]; simpl.
  - intros [Hi Hl] ->. split; [done|]. simpl. apply list_lookup_insert_eq. by eapply lookup_lt_Some.
  - intros (Hs&_) (->&Hp&Hu). split_and!; try done. rewrite Hu by done. by rewrite decide_True.
Qed.

Lemma wp_write_indir m pt ip ind v (Q : pagetree → pmem → Prop) :
  slot_at m pt ip ind →
  (∀ m' pt', slot_upd m pt ip v m' pt' → pm_conf m' = pm_conf m → pm_info m' = pm_info m →
     (∀ p, p ∉ ip_pages ip → pm_page m' !! p = pm_page m !! p) →
     (∀ N R, ip_pages ip ⊆ N → refs_inv m N R → refs_inv m' N R) → Q pt' m') →
  wp (write_indir pt ip v) m Q.
Proof.
  destruct ip as [i|pg s]; simpl.
  - intros _ HQ. wp_pure. by apply HQ.
  - intros (Hs&Hp&<-) HQ. wp_pure. apply wp_write_ptr; [done..|]. wp_pure. apply HQ.
    + split; [done|]. split; [by apply (put_ptr_ptr m pg s v 0)|].
      intros s' _. by apply (put_ptr_ptr m pg s v s').
    + unfold put_ptr. by case_match.
    + unfold put_ptr. by case_match.
    + intros p Hpne. apply put_ptr_page. intros ->. apply Hpne. by left.
    + intros N R HN Hi. unfold put_ptr. case_match; [|done]. apply refs_set_page; [done|].
      eapply refs_node_contents; [done|]. apply HN. by left.
Qed.
