(* ===== verification/PagetreeOps.v ===== *)
(** * Page trees: the operations

    The operations of kern/kern/pagetree.c proved against the array view of
    [PagetreeSpec] and the ownership rules of [PageRefs]. *)
From S2P Require Import Prelude Machine Hashtable Ktypes Kmem PageAlloc Pagetree Supply PageRefs PagetreeSpec.

(** ** Finding an entry *)

(** The subtree at [ip] was [ind] in [m] and is [ind'] in [m']: the same array,
    possibly with more nodes.  [N] and [R] are the other pages of the system. *)
Record grown (m : pmem) (pt : pagetree) (ip : indp) (l : nat) (ind : Z) (N R : list Z)
    (m' : pmem) (pt' : pagetree) (ind' : Z) : Prop := Grown {
  gr_inv : refs_inv m' (nodes m' l ind' ++ N) R;
  gr_ok : tree_ok m' l ind';
  gr_slot : slot_upd m pt ip ind' m' pt';
  gr_walk : ∀ n, 0 ≤ n < cap l → walk m' l ind' n = walk m l ind n;
  gr_refs : refs m' l ind' ≡ₚ refs m l ind;
  gr_frame : ∀ p, p ∉ ip_pages ip → p ∉ nodes m' l ind' → pm_page m' !! p = pm_page m !! p;
  gr_mono : nodes m l ind ⊆ nodes m' l ind';
  gr_conf : pm_conf m' = pm_conf m;
  gr_free : ∀ p, page_free_p m' p → page_free_p m p;
  gr_clear : ∀ p, clear_bit m' p = clear_bit m p;
}.

Lemma same_pages_all P m m' : pm_page m' = pm_page m → same_pages P m m'.
Proof. intros H p _. by rewrite H. Qed.

(** Changes outside the page contents leave a subtree as it is. *)
Lemma grown_same m pt ip l ind N R m' :
  refs_inv m' (nodes m l ind ++ N) R → slot_at m pt ip ind → tree_ok m l ind →
  pm_page m' = pm_page m → pm_conf m' = pm_conf m → (∀ p, page_free_p m' p → page_free_p m p) →
  (∀ p, clear_bit m' p = clear_bit m p) → grown m pt ip l ind N R m' pt ind.
Proof.
  intros Hi Hs Ht Hp Hc Hfr Hcl. pose proof (same_pages_all (nodes m l ind) m m' Hp) as Hsp.
  destruct (tree_ext _ _ _ _ Hsp) as (Hn&Hr&Hok). split; try done.
  - by rewrite Hn.
  - by apply Hok.
  - apply slot_upd_refl; [by apply same_pages_all|done].
  - intros n Hn'. by apply walk_ext.
  - by rewrite Hr.
  - intros p _ _. by rewrite Hp.
  - by rewrite Hn.
Qed.

(** A zeroed page is an empty subtree of every level. *)
Lemma zero_node m l va :
  va ≠ 0 → pm_page m !! va = Some PgZero →
  nodes m l va = [va] ∧ refs m l va = [] ∧ tree_ok m l va ∧ ∀ n, walk m l va n = null_ent.
Proof.
  intros Hva Hp.
  assert (Hptr : ∀ s, node_ptr m va s = 0) by (intros s; unfold node_ptr, page_ptrs; by rewrite Hp).
  assert (Hent : ∀ s, node_ent m va s = null_ent) by (intros s; unfold node_ent, page_ents; by rewrite Hp).
  assert (Hb : ∀ (f : Z → list Z) (xs : list Z), (∀ x, f x = []) → xs ≫= f = []).
  { intros f xs Hf. induction xs as [|x xs IH]; [done|]. csimpl. by rewrite Hf, IH. }
  destruct l as [|l].
  - rewrite nodes_O, refs_O, tree_ok_O by done. split_and!; [done| | |].
    + apply Hb. intros s. by rewrite Hent.
    + unfold page_ents. rewrite Hp. by eexists.
    + intros n. unfold walk. by rewrite locate_O.
  - rewrite nodes_S, refs_S, tree_ok_S by done. split_and!.
    + f_equal. apply Hb. intros s. by rewrite Hptr, nodes_null.
    + apply Hb. intros s. by rewrite Hptr, refs_null.
    + unfold page_ptrs. rewrite Hp. by eexists.
    + intros s _. rewrite Hptr. apply tree_ok_null.
    + intros n. rewrite walk_S by done. by rewrite Hptr, walk_null.
Qed.

Lemma get_indirect_node_wp m pt ip l ind N R pid node (Q : Z * pagetree → pmem → Prop) :
  refs_inv m (nodes m l ind ++ N) R → slot_at m pt ip ind → ip_pages ip ⊆ N → tree_ok m l ind →
  home_node (pm_conf m) pid = Some node →
  (∀ m', ind = 0 → (∀ q, ¬ page_free_p m' q) → grown m pt ip l ind N R m' pt ind → Q (- E_NO_MEM, pt) m') →
  (∀ m' pt' ind', ind' ≠ 0 → (ind ≠ 0 → m' = m ∧ pt' = pt ∧ ind' = ind) →
     grown m pt ip l ind N R m' pt' ind' → Q (0, pt') m') →
  wp (get_indirect_node pt ip pid) m Q.
Proof.
  intros Hi Hs HN Ht Hh Hfail Hok. unfold get_indirect_node. wp_pure.
  eapply wp_read_indir; [exact Hs|]. destruct (Z.eqb_spec ind 0) as [->|Hne].
  2:{ wp_pure. eapply Hok; [done|done|]. by apply grown_same. }
  rewrite nodes_null in Hi. simpl in Hi. wp_pure. eapply refs_alloc; [exact Hi|exact Hh| |].
  - intros f p Hi' Hno. wp_pure. apply Hfail; [done|exact Hno|]. apply grown_same; try done. by rewrite nodes_null.
  - intros va m1 Hi1 Hpg Hc Hfree Hfr1 Hcl1. wp_pure.
    assert (Hva : va ≠ 0) by (eapply page_live_nonzero, refs_node_live; [exact Hi1|by left]).
    destruct (refs_drop _ _ _ _ Hi1) as (_&_&HvaN&_).
    apply wp_write_page; [eapply refs_node_contents; [exact Hi1|by left]|]. wp_pure.
    set (m2 := set_page va PgZero m1).
    assert (Hp2 : ∀ p, p ≠ va → pm_page m2 !! p = pm_page m !! p)
      by (intros p Hp; simpl; by rewrite lookup_insert_ne, Hpg).
    assert (Hs2 : slot_at m2 pt ip 0).
    { eapply slot_at_ext; [|exact Hs]. intros p Hp. apply Hp2. intros ->. by apply HvaN, HN. }
    assert (Hi2 : refs_inv m2 (va :: N) R).
    { apply refs_set_page; [done|]. eapply refs_node_contents; [exact Hi1|by left]. }
    eapply wp_read_indir; [exact Hs2|]. rewrite Z.eqb_refl. wp_pure.
    eapply wp_write_indir; [exact Hs2|]. intros m3 pt' Hup Hc3 Hinfo3 Hfr3 Hri3. wp_pure.
    assert (HvaIp : va ∉ ip_pages ip) by (intros H; by apply HvaN, HN).
    destruct (zero_node m3 l va) as (Hn3&Hr3&Ht3&Hw3); [done|rewrite Hfr3 by done; simpl; by rewrite lookup_insert_eq|].
    eapply Hok; [exact Hva|done|]. split; try done.
    + rewrite Hn3. apply Hri3; [|done]. intros p Hp. right. by apply HN.
    + destruct ip as [i|pg s]; [done|]. destruct Hup as (->&?&Hup). split_and!; try done.
      intros s' Hs'. rewrite Hup by done. case_decide; [done|]. apply node_ptr_ext, Hp2.
      intros ->. apply HvaIp. by left.
    + intros n Hn. by rewrite Hw3, walk_null.
    + by rewrite Hr3, refs_null.
    + intros p Hp Hpn. rewrite Hn3 in Hpn. rewrite Hfr3 by done. apply Hp2. intros ->. apply Hpn. by left.
    + rewrite nodes_null. apply list_subseteq_nil.
    + rewrite Hc3. exact Hc.
    + intros p Hp. apply Hfr1. unfold page_free_p, page_at in *. by rewrite Hc3, Hinfo3 in Hp.
    + intros p. rewrite <- Hcl1. unfold clear_bit. by rewrite Hinfo3.
Qed.

(** The children of [ind1] other than [s] do not change while [s] grows. *)
Lemma but_ext m1 m2 l ind1 s c' :
  s ∈ slots →
  (∀ s', s' ∈ slots → node_ptr m2 ind1 s' = if decide (s' = s) then c' else node_ptr m1 ind1 s') →
  same_pages (nodes_but m1 l ind1 s) m1 m2 →
  nodes_but m2 l ind1 s = nodes_but m1 l ind1 s ∧ refs_but m2 l ind1 s = refs_but m1 l ind1 s ∧
  (∀ s', s' ∈ slots → s' ≠ s → same_pages (nodes m1 l (node_ptr m1 ind1 s')) m1 m2).
Proof.
  intros Hs Hptr Hsame. rewrite elem_of_slots in Hs.
  assert (Hch : ∀ s', s' ∈ slots → s' ≠ s → same_pages (nodes m1 l (node_ptr m1 ind1 s')) m1 m2).
  { intros s' Hs' Hne p Hp. apply Hsame. eapply child_in_but; try done. by apply elem_of_slots. }
  split_and!; [| |done]; apply bind_ext_elem; intros s' [Hne Hs']%elem_of_others; try done;
    rewrite <- elem_of_slots in Hs'; rewrite Hptr, decide_False by done; by apply tree_ext, Hch.
Qed.

Lemma grown_child m pt ip l ind N R m1 pt1 ind1 s m2 pt2 c' :
  ind1 ≠ 0 → s ∈ slots → ip_pages ip ⊆ N →
  grown m pt ip (S l) ind N R m1 pt1 ind1 →
  grown m1 pt1 (Slot ind1 s) l (node_ptr m1 ind1 s) (ind1 :: nodes_but m1 l ind1 s ++ N) R m2 pt2 c' →
  grown m pt ip (S l) ind N R m2 pt2 ind1.
Proof.
  intros Hne Hs HipN G1 G2. destruct (gr_slot _ _ _ _ _ _ _ _ _ _ G2) as (->&Hptrs&Hptr).
  pose proof (gr_inv _ _ _ _ _ _ _ _ _ _ G2) as Hi2.
  pose proof (ri_nodup _ _ _ Hi2) as Hnd. apply NoDup_app in Hnd as (_&Hdis&Hnd).
  apply NoDup_cons in Hnd as [Hind1 _].
  assert (Hsame : same_pages (nodes_but m1 l ind1 s ++ N) m1 m2).
  { intros p Hp. apply (gr_frame _ _ _ _ _ _ _ _ _ _ G2).
    - intros ->%list_elem_of_singleton. done.
    - intros Hin. apply (Hdis _ Hin). by right. }
  destruct (but_ext m1 m2 l ind1 s c' Hs Hptr) as (Hbn&Hbr&Hch).
  { intros p Hp. apply Hsame, elem_of_app. by left. }
  assert (Hc : node_ptr m2 ind1 s = c') by (rewrite Hptr by done; by rewrite decide_True).
  assert (Hperm : nodes m2 (S l) ind1 ≡ₚ nodes m2 l c' ++ ind1 :: nodes_but m1 l ind1 s)
    by (rewrite (nodes_split _ _ _ s) by done; by rewrite Hc, Hbn).
  pose proof (gr_ok _ _ _ _ _ _ _ _ _ _ G1) as Hok1. rewrite tree_ok_S in Hok1 by done.
  assert (Hmono : nodes m1 (S l) ind1 ⊆ nodes m2 (S l) ind1).
  { intros p. rewrite Hperm, (nodes_split _ _ _ s), !elem_of_app by done.
    intros [Hp|Hp]; [left|by right]. by apply (gr_mono _ _ _ _ _ _ _ _ _ _ G2). }
  split.
  - rewrite Hperm, <- (assoc_L app). exact Hi2.
  - rewrite tree_ok_S by done. split; [done|]. intros s' Hs'. rewrite Hptr by done. case_decide as Hd.
    + apply (gr_ok _ _ _ _ _ _ _ _ _ _ G2).
    + apply (tree_ext m1); [by apply Hch|by apply Hok1].
  - pose proof (gr_slot _ _ _ _ _ _ _ _ _ _ G1) as Hs1. destruct ip as [i|pg s0]; [done|].
    destruct Hs1 as (->&Hp1&Hu1). simpl.
    assert (Hpg : pm_page m2 !! pg = pm_page m1 !! pg).
    { apply Hsame, elem_of_app. right. apply HipN. by left. }
    rewrite (proj1 (page_arrays_ext _ _ _ Hpg)). split_and!; try done.
    intros s' Hs'. rewrite (node_ptr_ext m1 m2) by done. by apply Hu1.
  - intros n Hn. rewrite <- (gr_walk _ _ _ _ _ _ _ _ _ _ G1) by done.
    destruct (slot_of _ _ Hn) as [Hsn Hm]. rewrite !walk_S by done. rewrite Hptr by done.
    case_decide as Hd; [rewrite Hd; by apply (gr_walk _ _ _ _ _ _ _ _ _ _ G2)|].
    apply walk_ext; [by apply Hch|done].
  - rewrite <- (gr_refs _ _ _ _ _ _ _ _ _ _ G1). rewrite !(refs_split _ _ _ s) by done.
    by rewrite Hc, Hbr, (gr_refs _ _ _ _ _ _ _ _ _ _ G2).
  - intros p Hp Hpn. rewrite (gr_frame _ _ _ _ _ _ _ _ _ _ G2).
    + apply (gr_frame _ _ _ _ _ _ _ _ _ _ G1); [done|]. intros Hin. by apply Hpn, Hmono.
    + intros ->%list_elem_of_singleton. apply Hpn. rewrite Hperm, elem_of_app. right. by left.
    + intros Hin. apply Hpn. rewrite Hperm, elem_of_app. by left.
  - etrans; [apply (gr_mono _ _ _ _ _ _ _ _ _ _ G1)|done].
  - by rewrite (gr_conf _ _ _ _ _ _ _ _ _ _ G2), (gr_conf _ _ _ _ _ _ _ _ _ _ G1).
  - intros p Hp. by apply (gr_free _ _ _ _ _ _ _ _ _ _ G1), (gr_free _ _ _ _ _ _ _ _ _ _ G2).
  - intros p. by rewrite (gr_clear _ _ _ _ _ _ _ _ _ _ G2), (gr_clear _ _ _ _ _ _ _ _ _ _ G1).
Qed.

Lemma get_entp_indirect_wp l m pt ip n ind N R pid node (Q : Z * pagetree * option entp → pmem → Prop) :
  (l ≤ 3)%nat → refs_inv m (nodes m l ind ++ N) R → slot_at m pt ip ind → ip_pages ip ⊆ N →
  tree_ok m l ind → 0 ≤ n < cap l → home_node (pm_conf m) pid = Some node →
  (∀ m' pt' ind', locate m l ind n = None → (∀ q, ¬ page_free_p m' q) → grown m pt ip l ind N R m' pt' ind' →
     Q (- E_NO_MEM, pt', None) m') →
  (∀ m' pt' ind' pg s, grown m pt ip l ind N R m' pt' ind' → locate m' l ind' n = Some (pg, s) →
     (locate m l ind n ≠ None → m' = m ∧ pt' = pt) →
     Q (0, pt', Some (InPage pg s)) m') →
  wp (pagetree_get_entp_indirect l pt ip n pid) m Q.
Proof.
  revert m pt ip n ind N Q. induction l as [|l IH];
    intros m pt ip n ind N Q Hl Hi Hs HN Ht Hn Hh Hfail Hok; simpl; wp_pure;
    eapply get_indirect_node_wp; try done; (* the node itself *)
    try (intros m' -> Hno G; wp_pure; eapply Hfail; [apply locate_null|done|done]);
    intros m1 pt1 ind1 Hne Hold G1; wp_pure;
    (eapply wp_read_indir; [eapply slot_upd_at; [exact Hs|apply G1]|]).
  - apply wp_bind, wp_assert; [simpl in Hn; lia|]. wp_pure.
    eapply Hok; [exact G1|by rewrite locate_O|]. intros Hl0. destruct (decide (ind = 0)) as [->|Hi0];
      [by rewrite locate_null in Hl0|]. by destruct (Hold Hi0) as (->&->&_).
  - destruct (slot_of _ _ Hn) as [Hsl Hm]. rewrite n_pages_per_i_cap by lia.
    destruct (slot_u32 l n Hl Hn) as [-> ->].
    pose proof (gr_ok _ _ _ _ _ _ _ _ _ _ G1) as Hok1. rewrite tree_ok_S in Hok1 by done.
    eapply (IH m1 pt1 (Slot ind1 (n / cap l)) _ (node_ptr m1 ind1 (n / cap l))
              (ind1 :: nodes_but m1 l ind1 (n / cap l) ++ N)); try done.
    + lia.
    + assert (Hi1 := gr_inv _ _ _ _ _ _ _ _ _ _ G1).
      rewrite (nodes_split _ _ _ (n / cap l)), <- (assoc_L app) in Hi1 by done. exact Hi1.
    + split_and!; try done. by apply Hok1.
    + intros p ->%list_elem_of_singleton. by left.
    + by apply Hok1.
    + by rewrite (gr_conf _ _ _ _ _ _ _ _ _ _ G1).
    + intros m2 pt2 c' Hn1 Hno G2. eapply Hfail; [|done|by eapply grown_child].
      destruct (decide (ind = 0)) as [->|Hi0]; [apply locate_null|].
      destruct (Hold Hi0) as (->&->&->). by rewrite locate_S.
    + intros m2 pt2 c' pg s G2 Hloc Hold2. eapply Hok; [by eapply grown_child| |].
      * rewrite locate_S by done.
        destruct (gr_slot _ _ _ _ _ _ _ _ _ _ G2) as (_&_&Hptr). by rewrite Hptr, decide_True.
      * intros Hl0. destruct (decide (ind = 0)) as [->|Hi0]; [by rewrite locate_null in Hl0|].
        destruct (Hold Hi0) as (->&->&->). apply Hold2. by rewrite locate_S in Hl0.
Qed.
