(* ===== verification/PagetreeWhole.v ===== *)
(** * Page trees: the whole tree

    A page tree is the three direct entries followed by the subtrees of levels 0
    to 3: the array [pt_entry].  [pt_inv] is the invariant of a tree in a system
    whose other trees own the nodes [N] and hold the references [R]. *)
From S2P Require Import Prelude Machine Hashtable Ktypes Kmem PageAlloc Pagetree Supply PageRefs PagetreeSpec PagetreeOps.

(** ** The array of a tree *)

Definition levels : list nat := [0; 1; 2; 3]%nat.
Definition indir (pt : pagetree) (i : nat) : Z := default 0 (pt_indir pt !! i).

Definition pt_nodes (m : pmem) (pt : pagetree) : list Z := levels ≫= λ i, nodes m i (indir pt i).
Definition pt_refs (m : pmem) (pt : pagetree) : list Z :=
  (pt_direct pt ≫= ent_ref) ++ (levels ≫= λ i, refs m i (indir pt i)).

(** The level that holds index [n] (past the direct entries) and the index in it. *)
Fixpoint find_level (k i : nat) (n : Z) : option (nat * Z) :=
  match k with
  | O => None
  | S k' => if n <? cap i then Some (i, n) else find_level k' (S i) (n - cap i)
  end.
Definition level_of (n : Z) : option (nat * Z) := find_level 4 0 (n - PAGETREE_DIRECT_ENTRIES).

(** The number of entries a tree can hold. *)
Definition pt_max : Z := PAGETREE_DIRECT_ENTRIES + cap 0 + cap 1 + cap 2 + cap 3.

Definition pt_entry (m : pmem) (pt : pagetree) (n : Z) : pagetree_entry :=
  if n <? PAGETREE_DIRECT_ENTRIES then default null_ent (pt_direct pt !! Z.to_nat n)
  else match level_of n with
       | Some (i, r) => walk m i (indir pt i) r
       | None => null_ent
       end.

(** Where entry [n] is stored. *)
Definition pos_at (m : pmem) (pt : pagetree) (n : Z) (pe : entp) : Prop :=
  if n <? PAGETREE_DIRECT_ENTRIES then pe = Direct n
  else ∃ i r pg s, level_of n = Some (i, r) ∧ locate m i (indir pt i) r = Some (pg, s) ∧ pe = InPage pg s.

(** An entry is not locked, and an entry without a page is not marked shared. *)
Definition ent_ok (e : pagetree_entry) : Prop :=
  pe_lock e = false ∧ (pe_page e = 0 → pe_mode e ≠ page_shared_cow ∧ pe_mode e ≠ page_shared_cor).

Record pt_ok (m : pmem) (pt : pagetree) : Prop := PtOk {
  po_direct : length (pt_direct pt) = 3%nat;
  po_indir : length (pt_indir pt) = 4%nat;
  po_trees : ∀ i, i ∈ levels → tree_ok m i (indir pt i);
}.

Record pt_inv (m : pmem) (pt : pagetree) (N R : list Z) : Prop := PtInv {
  pv_refs : refs_inv m (pt_nodes m pt ++ N) (pt_refs m pt ++ R);
  pv_ok : pt_ok m pt;
  pv_ents : ∀ n, 0 ≤ n → ent_ok (pt_entry m pt n);
}.

(** ** Levels *)

Lemma cap0 : cap 0 = 170. Proof. reflexivity. Qed.
Lemma cap1 : cap 1 = 170 * 512. Proof. reflexivity. Qed.
Lemma cap2 : cap 2 = 170 * 512 * 512. Proof. reflexivity. Qed.
Lemma cap3 : cap 3 = 170 * 512 * 512 * 512. Proof. reflexivity. Qed.
Lemma pt_max_val : pt_max = 3 + 170 + 170 * 512 + 170 * 512 * 512 + 170 * 512 * 512 * 512.
Proof. reflexivity. Qed.

Lemma find_level_spec k i n j r :
  0 ≤ n → find_level k i n = Some (j, r) → (i ≤ j < i + k)%nat ∧ 0 ≤ r < cap j.
Proof.
  revert i n. induction k as [|k IH]; intros i n Hn; simpl; [done|].
  destruct (Z.ltb_spec n (cap i)).
  - intros [= <- <-]. lia.
  - intros Hf. apply IH in Hf; lia.
Qed.
Lemma elem_of_levels i : i ∈ levels ↔ (i ≤ 3)%nat.
Proof. unfold levels. rewrite !elem_of_cons, elem_of_nil. lia. Qed.
Lemma level_of_spec n i r :
  PAGETREE_DIRECT_ENTRIES ≤ n → level_of n = Some (i, r) → i ∈ levels ∧ (i ≤ 3)%nat ∧ 0 ≤ r < cap i.
Proof.
  intros Hn Hl. apply find_level_spec in Hl as [Hi Hr]; [|lia]. 
  rewrite elem_of_levels. split_and!; lia.
Qed.

Lemma find_level_inj k i n n' x :
  0 ≤ n → 0 ≤ n' → find_level k i n = Some x → find_level k i n' = Some x → n = n'.
Proof.
  revert i n n'. induction k as [|k IH]; intros i n n' Hn Hn'; simpl; [done|].
  assert (Hlow : ∀ n, 0 ≤ n → find_level k (S i) n = Some x → (x.1 ≥ S i)%nat).
  { intros n0 Hn0 Hf. destruct x as [j r]. apply find_level_spec in Hf; simpl; lia. }
  destruct (Z.ltb_spec n (cap i)), (Z.ltb_spec n' (cap i)).
  - congruence.
  - intros [= <-] Hf. apply Hlow in Hf; simpl in Hf; lia.
  - intros Hf [= <-]. apply Hlow in Hf; simpl in Hf; lia.
  - intros H1 H2. assert (n - cap i = n' - cap i); [|lia]. eapply IH; [lia|lia|exact H1|exact H2].
Qed.

Lemma level_of_none n : PAGETREE_DIRECT_ENTRIES ≤ n → level_of n = None ↔ pt_max ≤ n.
Proof.
  intros Hn. unfold level_of, pt_max. unfold PAGETREE_DIRECT_ENTRIES in *. cbn [find_level].
  rewrite cap0, cap1, cap2, cap3.
  repeat match goal with |- context [?a <? ?b] => destruct (Z.ltb_spec a b) end; split; intros; try done; lia.
Qed.

(** ** Splitting off one level *)

Definition other_levels (i : nat) : list nat := filter (λ j, j ≠ i) levels.
Definition pt_nodes_but (m : pmem) (pt : pagetree) (i : nat) : list Z :=
  other_levels i ≫= λ j, nodes m j (indir pt j).
Definition pt_refs_but (m : pmem) (pt : pagetree) (i : nat) : list Z :=
  other_levels i ≫= λ j, refs m j (indir pt j).

Lemma levels_bind {B} i (f : nat → list B) :
  i ∈ levels → (levels ≫= f) ≡ₚ f i ++ (other_levels i ≫= f).
Proof.
  intros Hi. unfold levels in Hi.
  repeat (apply elem_of_cons in Hi as [->|Hi]; [|]); [..|by apply elem_of_nil in Hi];
    unfold levels, other_levels; csimpl; rewrite ?app_nil_r.
  - done.
  - rewrite Permutation_app_swap_app. done.
  - rewrite !(assoc_L app). f_equiv. by rewrite Permutation_app_comm, (assoc_L app).
  - rewrite !(assoc_L app). by rewrite Permutation_app_comm, !(assoc_L app).
Qed.

Lemma pt_nodes_split m pt i :
  i ∈ levels → pt_nodes m pt ≡ₚ nodes m i (indir pt i) ++ pt_nodes_but m pt i.
Proof. intros Hi. exact (levels_bind i (λ j, nodes m j (indir pt j)) Hi). Qed.
Lemma pt_refs_split m pt i :
  i ∈ levels → pt_refs m pt ≡ₚ refs m i (indir pt i) ++ (pt_direct pt ≫= ent_ref) ++ pt_refs_but m pt i.
Proof.
  intros Hi. unfold pt_refs. rewrite (levels_bind i (λ j, refs m j (indir pt j)) Hi).
  by rewrite Permutation_app_swap_app.
Qed.
Lemma elem_of_other_levels i j : j ∈ other_levels i ↔ j ∈ levels ∧ j ≠ i.
Proof. unfold other_levels. rewrite list_elem_of_filter. tauto. Qed.

Lemma indir_set pt i j v :
  length (pt_indir pt) = 4%nat → i ∈ levels →
  indir (set_indir (Z.of_nat i) v pt) j = if decide (j = i) then v else indir pt j.
Proof.
  intros Hl Hi. unfold indir, set_indir. simpl. rewrite Nat2Z.id.
  apply elem_of_levels in Hi.
  destruct (decide (j = i)) as [->|].
  - by rewrite list_lookup_insert_eq by lia.
  - by rewrite list_lookup_insert_ne.
Qed.

(** ** A tree depends on its struct and its nodes only *)

Lemma pt_ext m m' pt :
  same_pages (pt_nodes m pt) m m' →
  pt_nodes m' pt = pt_nodes m pt ∧ pt_refs m' pt = pt_refs m pt ∧ (pt_ok m pt → pt_ok m' pt) ∧
  (∀ n, 0 ≤ n → pt_entry m' pt n = pt_entry m pt n).
Proof.
  intros Hp.
  assert (Hl : ∀ i, i ∈ levels → same_pages (nodes m i (indir pt i)) m m').
  { intros i Hi p Hin. apply Hp. rewrite (pt_nodes_split _ _ i), elem_of_app by done. by left. }
  split_and!.
  - apply bind_ext_elem. intros i Hi. by apply tree_ext, Hl.
  - unfold pt_refs. f_equal. apply bind_ext_elem. intros i Hi. by apply tree_ext, Hl.
  - intros [Hd Hi Ht]. split; try done. intros i Hin. apply (tree_ext m); [by apply Hl|by apply Ht].
  - intros n Hn. unfold pt_entry. destruct (Z.ltb_spec n PAGETREE_DIRECT_ENTRIES); [done|].
    destruct (level_of n) as [[i r]|] eqn:Hlv; [|done]. apply level_of_spec in Hlv as (Hi&_&Hr); [|done].
    by apply walk_ext; [apply Hl|].
Qed.

(** ** Finding an entry *)

(** The same array, possibly with more nodes. *)
Record pt_grown (m : pmem) (pt : pagetree) (N R : list Z) (m' : pmem) (pt' : pagetree) : Prop := PtGrown {
  pg_inv : pt_inv m' pt' N R;
  pg_entry : ∀ n, 0 ≤ n → pt_entry m' pt' n = pt_entry m pt n;
  pg_refs : pt_refs m' pt' ≡ₚ pt_refs m pt;
  pg_direct : pt_direct pt' = pt_direct pt;
  pg_pid : pt_pid pt' = pt_pid pt;
  pg_demand : pt_demand pt' = pt_demand pt;
  pg_frame : ∀ p, p ∉ pt_nodes m' pt' → pm_page m' !! p = pm_page m !! p;
  pg_mono : pt_nodes m pt ⊆ pt_nodes m' pt';
  pg_conf : pm_conf m' = pm_conf m;
  pg_free : ∀ p, page_free_p m' p → page_free_p m p;
  pg_clear : ∀ p, clear_bit m' p = clear_bit m p;
}.

Lemma pt_grown_refl m pt N R : pt_inv m pt N R → pt_grown m pt N R m pt.
Proof. intros Hi. by split. Qed.

(** A subtree that grew, seen from the whole tree. *)
Lemma grown_pt m pt i N R m' pt' ind' :
  i ∈ levels → pt_inv m pt N R →
  grown m pt (Root (Z.of_nat i)) i (indir pt i) (pt_nodes_but m pt i ++ N) (pt_refs m pt ++ R) m' pt' ind' →
  pt_grown m pt N R m' pt' ∧ indir pt' i = ind'.
Proof.
  intros Hi [Hinv [Hd Hil Ht] Hents] [Hi' Hok Hs Hw Hr Hf Hmono Hc Hfree Hclr]. simpl in Hs. subst pt'.
  assert (Hind := indir_set pt i). set (pt' := set_indir (Z.of_nat i) ind' pt) in *.
  assert (Hsame : same_pages (pt_nodes_but m pt i ++ N) m m').
  { intros p Hp. apply Hf; [apply not_elem_of_nil|]. intros Hin.
    pose proof (ri_nodup _ _ _ Hi') as Hnd. apply NoDup_app in Hnd as (_&Hdis&_). by apply (Hdis p). }
  assert (Hch : ∀ j, j ∈ levels → j ≠ i → same_pages (nodes m j (indir pt j)) m m').
  { intros j Hj Hne p Hp. apply Hsame, elem_of_app. left. apply list_elem_of_bind.
    exists j. split; [done|]. by apply elem_of_other_levels. }
  assert (Hbn : pt_nodes_but m' pt' i = pt_nodes_but m pt i).
  { apply bind_ext_elem. intros j [Hj Hne]%elem_of_other_levels.
    unfold pt'. rewrite Hind, decide_False by done. by apply tree_ext, Hch. }
  assert (Hbr : pt_refs_but m' pt' i = pt_refs_but m pt i).
  { apply bind_ext_elem. intros j [Hj Hne]%elem_of_other_levels.
    unfold pt'. rewrite Hind, decide_False by done. by apply tree_ext, Hch. }
  assert (Hii : indir pt' i = ind') by (unfold pt'; by rewrite Hind, decide_True).
  assert (Hpn : pt_nodes m' pt' ≡ₚ nodes m' i ind' ++ pt_nodes_but m pt i)
    by (rewrite (pt_nodes_split _ _ i) by done; by rewrite Hii, Hbn).
  assert (Hpr : pt_refs m' pt' ≡ₚ pt_refs m pt)
    by (rewrite !(pt_refs_split _ _ i) by done; by rewrite Hii, Hbr, Hr).
  assert (Hent : ∀ n, 0 ≤ n → pt_entry m' pt' n = pt_entry m pt n).
  { intros n Hn. unfold pt_entry. destruct (Z.ltb_spec n PAGETREE_DIRECT_ENTRIES); [done|].
    destruct (level_of n) as [[j r]|] eqn:Hlv; [|done]. apply level_of_spec in Hlv as (Hj&_&Hrr); [|done].
    unfold pt'. rewrite Hind by done. case_decide as Hji; [subst j; by apply Hw|].
    apply walk_ext; [by apply Hch|done]. }
  split; [|done]. split; try done.
  - split.
    + rewrite Hpn, Hpr, <- (assoc_L app). exact Hi'.
    + split; try done; [simpl; by rewrite length_insert|]. intros j Hj. unfold pt'. rewrite Hind by done.
      case_decide as Hji; [by subst j|]. apply (tree_ext m); [by apply Hch|by apply Ht].
    + intros n Hn. rewrite Hent by done. by apply Hents.
  - intros p Hp. apply Hf; [apply not_elem_of_nil|]. intros Hin. apply Hp.
    rewrite Hpn, elem_of_app. by left.
  - intros p. rewrite Hpn, (pt_nodes_split _ _ i), !elem_of_app by done.
    intros [Hp|Hp]; [left; by apply Hmono|by right].
Qed.

Lemma get_entp_loop_find k i pt npage num :
  (i + k = 4)%nat → (k ≠ 0%nat → num = cap i) → 0 ≤ npage →
  get_entp_loop k i pt npage num =
    match find_level k i npage with
    | Some (j, r) => pagetree_get_entp_indirect j pt (Root (Z.of_nat j)) r (pt_pid pt)
    | None => mret (- E_NO_SPACE, pt, None)
    end.
Proof.
  revert i npage num. induction k as [|k IH]; intros i npage num Hik Hnum Hn; [done|].
  cbn [get_entp_loop find_level]. rewrite Hnum by done.
  destruct (Z.ltb_spec npage (cap i)); [done|]. apply IH; [lia| |lia].
  intros Hk. assert (Hc : cap (S i) = cap i * PAGETREE_INDIRECT_PER_PAGE) by done.
  rewrite <- Hc. assert (cap (S i) ≤ 170 * 512 ^ 3) by (apply cap_values; lia).
  pose proof (cap_pos (S i)). apply u64_small. unfold in_u64. lia.
Qed.

Lemma pagetree_get_entp_wp m pt n N R node (Q : Z * pagetree * option entp → pmem → Prop) :
  pt_inv m pt N R → 0 ≤ n → home_node (pm_conf m) (pt_pid pt) = Some node →
  (pt_max ≤ n → Q (- E_NO_SPACE, pt, None) m) →
  (∀ m' pt', n < pt_max → (∀ pe, ¬ pos_at m pt n pe) → few_free MAX_NODES m → pt_grown m pt N R m' pt' →
     Q (- E_NO_MEM, pt', None) m') →
  (∀ m' pt' pe, n < pt_max → takes MAX_NODES m m' → pt_grown m pt N R m' pt' → pos_at m' pt' n pe →
     (∀ pe0, pos_at m pt n pe0 → m' = m ∧ pt' = pt) → Q (0, pt', Some pe) m') →
  wp (pagetree_get_entp pt n) m Q.
Proof.
  intros Hi Hn Hh Hsp Hfail Hok. unfold pagetree_get_entp.
  destruct (Z.ltb_spec n PAGETREE_DIRECT_ENTRIES) as [Hlt|Hge].
  { wp_pure. apply Hok; [rewrite pt_max_val; unfold PAGETREE_DIRECT_ENTRIES in Hlt; lia|by eapply takes_le; [|apply le_0_n]|by apply pt_grown_refl| |done].
    unfold pos_at. by rewrite (proj2 (Z.ltb_lt _ _)). }
  rewrite get_entp_loop_find by (done || lia).
  change (find_level _ 0 _) with (level_of n).
  destruct (level_of n) as [[i r]|] eqn:Hlv.
  2:{ wp_pure. by apply Hsp, level_of_none. }
  assert (Hmax : n < pt_max).
  { destruct (Z.lt_ge_cases n pt_max) as [|Hmx]; [done|]. apply level_of_none in Hmx; [|done]. congruence. }
  destruct (level_of_spec _ _ _ Hge Hlv) as (Hlev&Hi3&Hr). pose proof Hi as [Hinv Hpok Hents].
  apply (takes_wp (S i)); [typeclasses eauto|].
  eapply (get_entp_indirect_wp i m pt _ _ (indir pt i) (pt_nodes_but m pt i ++ N) (pt_refs m pt ++ R)); try done.
  - rewrite (pt_nodes_split _ _ i), <- (assoc_L app) in Hinv by done. exact Hinv.
  - split; [lia|]. rewrite Nat2Z.id. unfold indir.
    destruct (pt_indir pt !! i) eqn:He; [done|]. apply lookup_ge_None in He.
    rewrite (po_indir _ _ Hpok) in He. lia.
  - simpl. apply list_subseteq_nil.
  - by apply (po_trees _ _ Hpok).
  - intros m' pt' ind' Hno Hnf G Htk. apply Hfail; [done| | |by eapply grown_pt].
    2:{ eapply few_free_le; [by eapply takes_few, few_free_none|unfold MAX_NODES; lia]. }
    intros pe. unfold pos_at. rewrite (proj2 (Z.ltb_ge _ _)) by done.
    intros (i'&r'&pg&s&?&?&_). by simplify_eq.
  - intros m' pt' ind' pg s G Hloc Hold Htk. destruct (grown_pt _ _ _ _ _ _ _ _ Hlev Hi G) as [G' Hind'].
    apply Hok; [done|eapply takes_le; [exact Htk|unfold MAX_NODES; lia]|done| |]; unfold pos_at; rewrite (proj2 (Z.ltb_ge _ _)) by done.
    + exists i, r, pg, s. by rewrite Hind'.
    + intros pe0 (i'&r'&pg'&s'&?&?&_). simplify_eq. apply Hold. congruence.
Qed.

(** ** Reading and writing the entry at a position *)

Definition pos_pages (pe : entp) : list Z := match pe with Direct _ => [] | InPage pg _ => [pg] end.
Definition pos_ok (m : pmem) (pt : pagetree) (pe : entp) : Prop :=
  match pe with
  | Direct i => 0 ≤ i < 3 ∧ length (pt_direct pt) = 3%nat
  | InPage pg s => s ∈ indices ∧ is_Some (page_ents m pg)
  end.
Definition ent_at (m : pmem) (pt : pagetree) (pe : entp) : pagetree_entry :=
  match pe with
  | Direct i => default null_ent (pt_direct pt !! Z.to_nat i)
  | InPage pg s => node_ent m pg s
  end.
Definition upd_pt (pe : entp) (e : pagetree_entry) (pt : pagetree) : pagetree :=
  match pe with Direct i => set_direct i e pt | InPage _ _ => pt end.
Definition upd_mem (pe : entp) (e : pagetree_entry) (m : pmem) : pmem :=
  match pe with Direct _ => m | InPage pg s => put_ent pg s e m end.

Lemma wp_read_ent m pt pe Q : pos_ok m pt pe → Q (ent_at m pt pe) m → wp (read_ent pt pe) m Q.
Proof.
  destruct pe as [i|pg s]; simpl.
  - intros [Hi Hl] HQ. destruct (lookup_lt_is_Some_2 (pt_direct pt) (Z.to_nat i)) as [e He]; [lia|].
    eapply wp_deref; [exact He|]. by rewrite He in HQ.
  - intros [Hs Hp] HQ. by apply wp_read_pent.
Qed.
Lemma wp_write_ent m pt pe e Q :
  pos_ok m pt pe → Q (upd_pt pe e pt) (upd_mem pe e m) → wp (write_ent pt pe e) m Q.
Proof.
  destruct pe as [i|pg s]; simpl; [done|]. intros [Hs Hp] HQ. wp_pure.
  apply wp_write_pent; [done..|]. by wp_pure.
Qed.

Lemma upd_pos m pt pe e :
  pos_ok m pt pe →
  pos_ok (upd_mem pe e m) (upd_pt pe e pt) pe ∧ ent_at (upd_mem pe e m) (upd_pt pe e pt) pe = e.
Proof.
  destruct pe as [i|pg s]; simpl.
  - intros [Hi Hl]. rewrite length_insert, list_lookup_insert_eq by lia. done.
  - intros [Hs Hp]. destruct (put_ent_ents m pg s e Hp) as (a&_&Ha).
    split; [split; [done|by eexists]|]. by rewrite put_ent_ent, decide_True.
Qed.
Lemma upd_twice m pt pe e e' :
  pos_ok m pt pe →
  upd_pt pe e' (upd_pt pe e pt) = upd_pt pe e' pt ∧ upd_mem pe e' (upd_mem pe e m) = upd_mem pe e' m.
Proof.
  destruct pe as [i|pg s]; simpl.
  - intros _. split; [|done]. unfold set_direct. simpl. by rewrite list_insert_insert_eq.
  - intros [_ Hp]. split; [done|]. destruct (put_ent_ents m pg s e Hp) as (a&Ha&Ha').
    unfold put_ent at 1 3. rewrite Ha, Ha'. unfold put_ent. rewrite Ha. unfold set_page. simpl.
    by rewrite !insert_insert_eq.
Qed.
Lemma upd_mem_page pe e m q : q ∉ pos_pages pe → pm_page (upd_mem pe e m) !! q = pm_page m !! q.
Proof.
  destruct pe as [i|pg s]; simpl; [done|]. intros Hq. apply put_ent_page. intros ->. apply Hq. by left.
Qed.
Lemma upd_mem_conf pe e m : pm_conf (upd_mem pe e m) = pm_conf m.
Proof. destruct pe as [i|pg s]; simpl; [done|]. unfold put_ent. by case_match. Qed.
Lemma upd_mem_clear pe e m q : clear_bit (upd_mem pe e m) q = clear_bit m q.
Proof. destruct pe as [i|pg s]; simpl; [done|]. unfold put_ent. by case_match. Qed.
Lemma upd_mem_refs pe e m N R : pos_pages pe ⊆ N → refs_inv m N R → refs_inv (upd_mem pe e m) N R.
Proof.
  destruct pe as [i|pg s]; simpl; [done|]. intros HN Hi. unfold put_ent. case_match; [|done].
  apply refs_set_page; [done|]. eapply refs_node_contents; [done|]. apply HN. by left.
Qed.
Lemma upd_mem_status pe e m p :
  (page_live (upd_mem pe e m) p ↔ page_live m p) ∧ (page_free_p (upd_mem pe e m) p ↔ page_free_p m p).
Proof. destruct pe as [i|pg s]; simpl; [done|]. unfold put_ent. by case_match. Qed.

(** Writing an entry does not move it. *)
Lemma pos_at_upd m pt n pe pe' e :
  pos_at m pt n pe → pos_at (upd_mem pe' e m) (upd_pt pe' e pt) n pe.
Proof.
  unfold pos_at. case_match; [done|]. intros (i&r&pg&s&Hl&Hloc&->). exists i, r, pg, s.
  split_and!; try done. destruct pe' as [i'|pg' s']; [done|]. simpl. by rewrite put_ent_locate.
Qed.

Lemma pos_at_ext m m' pt n pe :
  same_pages (pt_nodes m pt) m m' → 0 ≤ n → pos_at m pt n pe → pos_at m' pt n pe.
Proof.
  intros Hs Hn. unfold pos_at. destruct (Z.ltb_spec n PAGETREE_DIRECT_ENTRIES) as [|Hge]; [done|].
  intros (i&r&pg&s&Hl&Hloc&->). exists i, r, pg, s.
  destruct (level_of_spec _ _ _ Hge Hl) as (Hi&_&Hr). split_and!; try done. rewrite <- Hloc.
  apply walk_ext; [|done]. intros q Hq. apply Hs. rewrite (pt_nodes_split _ _ i), elem_of_app by done. by left.
Qed.

(** An entry with a page has a position. *)
Lemma pos_of_page m pt n : pe_page (pt_entry m pt n) ≠ 0 → ∃ pe, pos_at m pt n pe.
Proof.
  unfold pt_entry, pos_at. destruct (n <? PAGETREE_DIRECT_ENTRIES); [by eexists|].
  destruct (level_of n) as [[i r]|]; [|done]. unfold walk.
  destruct (locate m i (indir pt i) r) as [[pg s]|] eqn:Hl; [|done].
  intros _. by exists (InPage pg s), i, r, pg, s.
Qed.

(** What the position of entry [n] gives. *)
Lemma pos_at_spec m pt n pe :
  pt_ok m pt → 0 ≤ n → pos_at m pt n pe →
  pos_ok m pt pe ∧ ent_at m pt pe = pt_entry m pt n ∧ pos_pages pe ⊆ pt_nodes m pt.
Proof.
  intros [Hd Hil Ht] Hn. unfold pos_at, pt_entry.
  destruct (Z.ltb_spec n PAGETREE_DIRECT_ENTRIES) as [Hlt|Hge].
  - intros ->. unfold PAGETREE_DIRECT_ENTRIES in Hlt. simpl. split_and!; [lia|lia|lia|done|apply list_subseteq_nil].
  - intros (i&r&pg&s&Hlv&Hloc&->). rewrite Hlv. destruct (level_of_spec _ _ _ Hge Hlv) as (Hi&_&Hr).
    destruct (locate_node _ _ _ _ _ _ Hr Hloc) as [Hpg Hs].
    pose proof (locate_leaf _ _ _ _ _ _ Hr (Ht _ Hi) Hloc) as Hp. unfold walk. rewrite Hloc.
    split_and!; try done. intros q ->%list_elem_of_singleton.
    rewrite (pt_nodes_split _ _ i), elem_of_app by done. by left.
Qed.

Lemma set_direct_refs i e e0 l :
  l !! i = Some e0 →
  ∃ rest, (l ≫= ent_ref) ≡ₚ ent_ref e0 ++ rest ∧ (<[i := e]> l ≫= ent_ref) ≡ₚ ent_ref e ++ rest.
Proof.
  intros Hi. exists ((take i l ≫= ent_ref) ++ (drop (S i) l ≫= ent_ref)).
  assert (Hlt : (i < length l)%nat) by (by eapply lookup_lt_Some).
  split.
  - rewrite <- (take_drop_middle l i e0) at 1 by done. rewrite bind_app. csimpl.
    by rewrite Permutation_app_swap_app.
  - rewrite insert_take_drop by done. rewrite bind_app. csimpl. by rewrite Permutation_app_swap_app.
Qed.

(** Writing entry [n] changes entry [n] of the array and nothing else. *)
Record pt_updated (m : pmem) (pt : pagetree) (n : Z) (e : pagetree_entry) (m' : pmem) (pt' : pagetree) : Prop :=
  PtUpdated {
  pu_ok : pt_ok m' pt';
  pu_nodes : pt_nodes m' pt' = pt_nodes m pt;
  pu_entry : ∀ n', 0 ≤ n' → pt_entry m' pt' n' = if decide (n' = n) then e else pt_entry m pt n';
  pu_refs : ∃ rest, pt_refs m pt ≡ₚ ent_ref (pt_entry m pt n) ++ rest ∧
                    pt_refs m' pt' ≡ₚ ent_ref e ++ rest;
}.

Lemma upd_direct m pt n e :
  pt_ok m pt → 0 ≤ n < PAGETREE_DIRECT_ENTRIES → pt_updated m pt n e m (set_direct n e pt).
Proof.
  intros [Hd Hil Ht] Hn. unfold PAGETREE_DIRECT_ENTRIES in Hn.
  destruct (lookup_lt_is_Some_2 (pt_direct pt) (Z.to_nat n)) as [e0 He0]; [lia|]. split; try done.
  - split; try done; simpl. by rewrite length_insert.
  - intros n' Hn'. unfold pt_entry. unfold PAGETREE_DIRECT_ENTRIES. simpl.
    destruct (decide (n' = n)) as [->|Hne].
    + rewrite (proj2 (Z.ltb_lt _ _)), list_lookup_insert_eq by lia. done.
    + destruct (Z.ltb_spec n' 3); [|done]. by rewrite list_lookup_insert_ne by lia.
  - unfold pt_entry at 1. unfold PAGETREE_DIRECT_ENTRIES. rewrite (proj2 (Z.ltb_lt _ _)), He0 by lia.
    destruct (set_direct_refs _ e _ _ He0) as (rest&H1&H2).
    exists (rest ++ (levels ≫= λ i, refs m i (indir pt i))). unfold pt_refs. simpl.
    rewrite H1, H2, !(assoc_L app). done.
Qed.

Lemma upd_inpage m pt n i r pg s e :
  pt_ok m pt → NoDup (pt_nodes m pt) → PAGETREE_DIRECT_ENTRIES ≤ n → level_of n = Some (i, r) →
  locate m i (indir pt i) r = Some (pg, s) → pt_updated m pt n e (put_ent pg s e m) pt.
Proof.
  intros Hok Hnd Hn Hlv Hloc. pose proof Hok as [Hd Hil Ht].
  destruct (level_of_spec _ _ _ Hn Hlv) as (Hi&_&Hr).
  destruct (locate_node _ _ _ _ _ _ Hr Hloc) as [Hpg Hs].
  rewrite (pt_nodes_split _ _ i) in Hnd by done. apply NoDup_app in Hnd as (Hndi&Hdis&_).
  assert (Hoth : ∀ j, j ∈ levels → j ≠ i → same_pages (nodes m j (indir pt j)) m (put_ent pg s e m)).
  { intros j Hj Hne p Hp. apply put_ent_page. intros ->. apply (Hdis _ Hpg), list_elem_of_bind.
    exists j. split; [done|]. by apply elem_of_other_levels. }
  assert (Hnp : (n <? PAGETREE_DIRECT_ENTRIES) = false) by (by apply Z.ltb_ge).
  split.
  - split; try done. intros j Hj. destruct (decide (j = i)) as [->|Hne].
    + eapply put_ent_ok; try done. by apply Ht.
    + apply (tree_ext m); [by apply Hoth|by apply Ht].
  - apply bind_ext_elem. intros j Hj. apply put_ent_nodes.
  - intros n' Hn'. unfold pt_entry. destruct (Z.ltb_spec n' PAGETREE_DIRECT_ENTRIES).
    { rewrite decide_False; [done|]. intros ->. lia. }
    destruct (level_of n') as [[j r']|] eqn:Hlv'.
    2:{ rewrite decide_False; [done|]. intros ->. congruence. }
    destruct (level_of_spec _ _ _ H Hlv') as (Hj&_&Hr'). destruct (decide (j = i)) as [->|Hne].
    + rewrite (put_ent_walk _ _ _ r) by (done || by apply Ht).
      destruct (decide (r' = r)) as [->|Hrne]; [|rewrite decide_False; [done|]; intros ->; congruence].
      rewrite decide_True; [done|]. unfold level_of in *.
      assert (n' - PAGETREE_DIRECT_ENTRIES = n - PAGETREE_DIRECT_ENTRIES)
        by (eapply find_level_inj; [lia|lia|done..]). lia.
    + rewrite decide_False by (intros ->; congruence). by apply walk_ext; [apply Hoth|].
  - destruct (put_ent_refs m i (indir pt i) r pg s e) as (rest&H1&H2); try done; [by apply Ht|].
    exists (rest ++ (pt_direct pt ≫= ent_ref) ++ pt_refs_but m pt i).
    rewrite !(pt_refs_split _ _ i) by done. unfold pt_entry. rewrite Hnp, Hlv.
    rewrite H1, H2, !(assoc_L app). split; [done|]. f_equiv. perm_eq. apply bind_ext_elem.
    intros j [Hj Hne]%elem_of_other_levels. by apply tree_ext, Hoth.
Qed.

Lemma pt_update m pt n pe e m' :
  pt_ok m pt → NoDup (pt_nodes m pt) → 0 ≤ n → pos_at m pt n pe →
  same_pages (pt_nodes m pt) (upd_mem pe e m) m' →
  pt_updated m pt n e m' (upd_pt pe e pt).
Proof.
  intros Hok Hnd Hn Hpos Hsame.
  assert (Hu : pt_updated m pt n e (upd_mem pe e m) (upd_pt pe e pt)).
  { unfold pos_at in Hpos. destruct (Z.ltb_spec n PAGETREE_DIRECT_ENTRIES).
    - subst pe. by apply upd_direct.
    - destruct Hpos as (i&r&pg&s&?&?&->). by eapply upd_inpage. }
  destruct Hu as [Ho Hno He (rest&Hr1&Hr2)]. rewrite <- Hno in Hsame.
  destruct (pt_ext _ _ _ Hsame) as (Hn2&Hr3&Ho2&He2). split.
  - by apply Ho2.
  - by rewrite Hn2.
  - intros n' Hn'. rewrite He2 by done. by apply He.
  - exists rest. by rewrite Hr3.
Qed.
