(* ===== verification/PagetreeThms.v ===== *)
(** * Page trees: theorems

    Getting, putting, copying and freeing pages, each as an operation on the
    array [pt_entry], for a tree in a system of trees: every theorem says that the
    nodes [N] and references [R] of the other trees are still accounted for and
    that the contents of their pages did not change. *)
From S2P Require Import Prelude Machine Hashtable Ktypes Kmem PageAlloc Pagetree Supply PageRefs PagetreeSpec PagetreeOps PagetreeWhole.

(** A tree whose nodes did not change. *)
Lemma pt_inv_ext m m' pt N N' R R' :
  pt_inv m pt N R → same_pages (pt_nodes m pt) m m' →
  refs_inv m' (pt_nodes m pt ++ N') (pt_refs m pt ++ R') → pt_inv m' pt N' R'.
Proof.
  intros [_ Hok Hents] Hs Hi. destruct (pt_ext _ _ _ Hs) as (Hn&Hr&Ho&He).
  split; [by rewrite Hn, Hr|by apply Ho|]. intros n Hn0. rewrite He by done. by apply Hents.
Qed.

(** ** Committing a changed entry

    An operation on one entry takes the reference the entry held out of the
    tree's references, changes page counts, and finally writes the entry. *)

(** The references of the tree other than the one of entry [n]. *)
Lemma entry_refs m pt n pe :
  pt_ok m pt → NoDup (pt_nodes m pt) → 0 ≤ n → pos_at m pt n pe →
  ∃ rest, pt_refs m pt ≡ₚ ent_ref (pt_entry m pt n) ++ rest.
Proof.
  intros Hok Hnd Hn Hpos.
  destruct (pu_refs _ _ _ _ _ _ (pt_update m pt n pe null_ent _ Hok Hnd Hn Hpos (λ p _, eq_refl)))
    as (rest&Hr&_). by exists rest.
Qed.

(** A position in an unchanged tree. *)
Lemma pos_same m m2 pt pe :
  pos_pages pe ⊆ pt_nodes m pt → same_pages (pt_nodes m pt) m m2 → pos_ok m pt pe →
  pos_ok m2 pt pe ∧ ent_at m2 pt pe = ent_at m pt pe ∧
  ∀ e, same_pages (pt_nodes m pt) (upd_mem pe e m) (upd_mem pe e m2).
Proof.
  intros Hpp Hsame Hpok. destruct pe as [i|pg s]; [done|]. simpl in *.
  assert (Hpg : pm_page m2 !! pg = pm_page m !! pg) by (apply Hsame, Hpp; by left).
  destruct (page_arrays_ext _ _ _ Hpg) as [_ Hents]. rewrite Hents. split; [done|]. split.
  - by apply node_ent_ext.
  - intros e p Hp. unfold put_ent. rewrite Hents. case_match; [|by apply Hsame]. simpl.
    destruct (decide (p = pg)) as [->|].
    + by rewrite !lookup_insert_eq.
    + rewrite !lookup_insert_ne by done. by apply Hsame.
Qed.

Lemma commit m pt n pe e rest N R m2 :
  pt_ok m pt → NoDup (pt_nodes m pt) → 0 ≤ n → pos_at m pt n pe → ent_ok e →
  (∀ n', 0 ≤ n' → n' ≠ n → ent_ok (pt_entry m pt n')) →
  pt_refs m pt ≡ₚ ent_ref (pt_entry m pt n) ++ rest →
  same_pages (pt_nodes m pt) m m2 →
  refs_inv m2 (pt_nodes m pt ++ N) (ent_ref e ++ rest ++ R) →
  let m3 := upd_mem pe e m2 in let pt3 := upd_pt pe e pt in
  pt_inv m3 pt3 N R ∧
  (∀ n', 0 ≤ n' → pt_entry m3 pt3 n' = if decide (n' = n) then e else pt_entry m pt n') ∧
  pt_refs m3 pt3 ≡ₚ ent_ref e ++ rest ∧
  (∀ q, q ∈ N ∨ q ∈ R ∨ q ∈ pt_refs m3 pt3 → pm_page m3 !! q = pm_page m2 !! q).
Proof.
  intros Hok Hnd Hn Hpos Heok Hents Hr Hsame Hi2 m3 pt3.
  destruct (pos_at_spec _ _ _ _ Hok Hn Hpos) as (Hpok&_&Hpp).
  destruct (pos_same _ _ _ _ Hpp Hsame Hpok) as (_&_&Hm3).
  destruct (pt_update m pt n pe e m3 Hok Hnd Hn Hpos (Hm3 e)) as [Hok' Hn' He' (rest'&Hr1&Hr2)].
  fold pt3 in Hok', Hn', He', Hr2.
  assert (Hrest : rest ≡ₚ rest') by (eapply Permutation_app_inv_l; etrans; [symmetry; exact Hr|exact Hr1]).
  rewrite <- Hrest in Hr2.
  assert (Hi3 : refs_inv m3 (pt_nodes m pt ++ N) (ent_ref e ++ rest ++ R)).
  { apply upd_mem_refs; [|done]. intros q Hq. apply elem_of_app. left. by apply Hpp. }
  split_and!; try done.
  - split; [|done|].
    + rewrite Hn', Hr2, <- (assoc_L app). exact Hi3.
    + intros n' Hn0. rewrite He' by done. case_decide; [done|by apply Hents].
  - intros q Hq. apply upd_mem_page. intros Hqp%Hpp.
    destruct Hq as [Hq|Hq]; [by apply (proj2 (refs_nodup_l _ _ _ _ Hi3) q)|].
    eapply (refs_disjoint _ _ _ q Hi3); [apply elem_of_app; by left|].
    rewrite Hr2, !elem_of_app in Hq. rewrite !elem_of_app. tauto.
Qed.

(** ** Putting a page *)

(** The contents of every page the system still refers to are those of [m]. *)
Definition contents_kept (N R : list Z) (m : pmem) (m' : pmem) (pt' : pagetree) : Prop :=
  ∀ q, q ∈ N ∨ q ∈ R ∨ q ∈ pt_refs m' pt' → pm_page m' !! q = pm_page m !! q.
(** So are the marks of cleared pages. *)
Definition marks_kept (N R : list Z) (m : pmem) (m' : pmem) (pt' : pagetree) : Prop :=
  ∀ q, q ∈ N ∨ q ∈ R ∨ q ∈ pt_refs m' pt' → clear_bit m' q = clear_bit m q.

(** Dropping what entry holds, if anything. *)
Lemma drop_ent_wp m N R e (Q : unit → pmem → Prop) :
  refs_inv m N (ent_ref e ++ R) →
  (∀ m', refs_inv m' N R → pm_conf m' = pm_conf m →
     (∀ q, q ∈ N ∨ q ∈ R → pm_page m' !! q = pm_page m !! q) →
     (∀ q, q ∈ ent_ref e → q ∈ R ∨ released m' q) → releases m m' →
     (∀ q, q ∈ N ∨ q ∈ R → clear_bit m' q = clear_bit m q) → Q tt m') →
  wp (when (negb (pe_page e =? 0)) (pagetree_decref (pe_page e))) m Q.
Proof.
  unfold ent_ref. destruct (Z.eqb_spec (pe_page e) 0) as [_|Hne]; simpl; intros Hi HQ.
  - wp_pure. apply HQ; try done. by intros q ?%not_elem_of_nil.
  - eapply refs_decref; [exact Hi|]. intros m' Hi' Hc Hpg Hrel Hmono Hclr. apply HQ; try done.
    + intros q [Hq|Hq]; apply Hpg; [|by right]. left. intros ->.
      eapply refs_disjoint; [exact Hi|exact Hq|by left].
    + by intros q ->%list_elem_of_singleton.
    + intros q Hq. assert (Hlv : page_live m q).
      { destruct Hq as [Hq|Hq]; [by eapply refs_node_live|]. eapply ri_live; [exact Hi|]. by right. }
      eapply keep_clear_live; [exact Hclr|done|]. destruct Hq as [Hq|Hq]; [left|by right]. intros ->.
      eapply refs_disjoint; [exact Hi|exact Hq|by left].
Qed.

(** The page a caller hands over: none, or a page it owns. *)
Definition handed (page : Z) : list Z := if page =? 0 then [] else [page].

Lemma take_page_wp m N R page (Q : unit → pmem → Prop) :
  refs_inv m (handed page ++ N) R →
  (∀ m', refs_inv m' N (handed page ++ R) → pm_conf m' = pm_conf m → pm_page m' = pm_page m →
     (∀ q, clear_bit m' q = clear_bit m q) → Q tt m') →
  wp (when (negb (page =? 0)) (pagetree_incref page)) m Q.
Proof.
  unfold handed. destruct (page =? 0); simpl; intros Hi HQ.
  - wp_pure. by apply HQ.
  - by eapply refs_incref_new.
Qed.

(** The result of a successful [pagetree_put_page]. *)
Definition put_post (m : pmem) (pt : pagetree) (n page : Z) (N R : list Z) (m' : pmem) (pt' : pagetree) : Prop :=
  pt_inv m' pt' N R ∧
  (∀ n', 0 ≤ n' → n' ≠ n → pt_entry m' pt' n' = pt_entry m pt n') ∧
  pe_page (pt_entry m' pt' n) = page ∧ pe_mode (pt_entry m' pt' n) = page_excl ∧
  (∀ q, q ∈ pt_refs m' pt' → q ∈ handed page ++ pt_refs m pt) ∧
  contents_kept N R m m' pt' ∧ marks_kept N R m m' pt'.

(** What no operation changes. *)
Definition same_conf (m : pmem) (pt : pagetree) (m' : pmem) (pt' : pagetree) : Prop :=
  pm_conf m' = pm_conf m ∧ pt_pid pt' = pt_pid pt ∧ pt_demand pt' = pt_demand pt.

Lemma upd_same_conf m pt m2 pe e :
  pm_conf m2 = pm_conf m → same_conf m pt (upd_mem pe e m2) (upd_pt pe e pt).
Proof. intros Hc. unfold same_conf. rewrite upd_mem_conf. by destruct pe. Qed.

Lemma pt_grown_conf m pt N R m' pt' : pt_grown m pt N R m' pt' → same_conf m pt m' pt'.
Proof. by intros []. Qed.
Lemma same_conf_trans m pt m1 pt1 m2 pt2 :
  same_conf m pt m1 pt1 → same_conf m1 pt1 m2 pt2 → same_conf m pt m2 pt2.
Proof. intros (?&?&?) (?&?&?). split_and!; congruence. Qed.

Lemma put_entry_wp m pt n page pe N R (Q : pagetree → pmem → Prop) :
  pt_inv m pt (handed page ++ N) R → 0 ≤ n → pos_at m pt n pe →
  (∀ m' pt', put_post m pt n page N R m' pt' → same_conf m pt m' pt' → Q pt' m') →
  wp (put_entry pt pe page) m Q.
Proof.
  intros [Hinv Hok Hents] Hn Hpos HQ.
  destruct (pos_at_spec _ _ _ _ Hok Hn Hpos) as (Hpok&Hent&Hpp). destruct (Hents n Hn) as [Hlk _].
  destruct (refs_nodup_l _ _ _ _ Hinv) as [Hnd _].
  destruct (entry_refs _ _ _ _ Hok Hnd Hn Hpos) as (rest&Hr). rewrite Hr, <- (assoc_L app) in Hinv.
  unfold put_entry. wp_pure. apply wp_read_ent; [done|]. rewrite Hent. wp_pure.
  eapply drop_ent_wp; [exact Hinv|]. intros m1 Hi1 Hc1 Hp1 _ _ Hb1.
  wp_pure. eapply (take_page_wp _ (pt_nodes m pt ++ N)).
  { rewrite Permutation_app_swap_app. exact Hi1. }
  intros m2 Hi2 Hc2 Hp2 Hb2. wp_pure.
  assert (Hsame : same_pages (pt_nodes m pt) m m2).
  { intros p Hp. rewrite Hp2. apply Hp1. left. apply elem_of_app. by left. }
  destruct (pos_same _ _ _ _ Hpp Hsame Hpok) as (Hpok2&Hent2&_).
  apply wp_read_ent; [done|]. rewrite Hent2, Hent. apply wp_write_ent; [done|]. wp_pure.
  destruct (upd_pos m2 pt pe (set_ent_page page (pt_entry m pt n)) Hpok2) as [Hpok3 Hent3].
  apply wp_read_ent; [done|]. rewrite Hent3. apply wp_write_ent; [done|]. wp_pure.
  set (e' := set_ent_mode page_excl _).
  destruct (upd_twice m2 pt pe (set_ent_page page (pt_entry m pt n)) e' Hpok2) as [-> ->].
  destruct (commit m pt n pe e' rest N R m2) as (Hinv'&He'&Hr'&Hpg'); try done; [intros; by apply Hents|].
  apply HQ; [|apply upd_same_conf; by rewrite Hc2]. split_and!; [done| | | | | |].
  - intros n' Hn0 Hne. rewrite He' by done. by rewrite decide_False.
  - rewrite He' by done. by rewrite decide_True.
  - rewrite He' by done. by rewrite decide_True.
  - intros q. rewrite Hr', Hr, !elem_of_app. change (ent_ref e') with (handed page). tauto.
  - intros q Hq. rewrite Hpg', Hp2 by done. apply Hp1.
    rewrite Hr' in Hq. change (ent_ref e') with (handed page) in Hq. rewrite !elem_of_app in *. tauto.
  - intros q Hq. rewrite upd_mem_clear, Hb2 by done. apply Hb1.
    rewrite Hr' in Hq. change (ent_ref e') with (handed page) in Hq. rewrite !elem_of_app in *. tauto.
Qed.

(** Pages that are not nodes of the tree are not touched while it grows. *)
Lemma pt_grown_contents m pt N R m' pt' q :
  pt_grown m pt N R m' pt' → q ∈ N ∨ q ∈ pt_refs m' pt' ++ R → pm_page m' !! q = pm_page m !! q.
Proof.
  intros G Hq. apply (pg_frame _ _ _ _ _ _ G). intros Hin.
  pose proof (pv_refs _ _ _ _ (pg_inv _ _ _ _ _ _ G)) as Hi. destruct Hq as [Hq|Hq].
  - by apply (proj2 (refs_nodup_l _ _ _ _ Hi) q).
  - eapply refs_disjoint; [exact Hi| |exact Hq]. apply elem_of_app. by left.
Qed.

Lemma pagetree_put_page_wp m pt n page N R node (Q : Z * pagetree → pmem → Prop) :
  pt_inv m pt (handed page ++ N) R → 0 ≤ n → home_node (pm_conf m) (pt_pid pt) = Some node →
  (pt_max ≤ n → Q (- E_NO_SPACE, pt) m) →
  (∀ m' pt', n < pt_max → (∀ pe, ¬ pos_at m pt n pe) → few_free MAX_NODES m → pt_grown m pt (handed page ++ N) R m' pt' →
     Q (- E_NO_MEM, pt') m') →
  (∀ m' pt', n < pt_max → put_post m pt n page N R m' pt' → same_conf m pt m' pt' → Q (0, pt') m') →
  wp (pagetree_put_page pt n page) m Q.
Proof.
  intros Hi Hn Hh Hsp Hfail Hok. unfold pagetree_put_page. wp_pure.
  eapply pagetree_get_entp_wp; [exact Hi|done|exact Hh|exact Hsp|exact Hfail|].
  intros m1 pt1 pe Hm _ G Hpos _. wp_pure.
  eapply put_entry_wp; [apply G|done|exact Hpos|]. intros m2 pt2 (Hi2&He2&Hp2&Hmd2&Hr2&Hk2&Hb2) Hc2.
  pose proof (pg_refs _ _ _ _ _ _ G) as Hrf. wp_pure.
  apply Hok; [done| |eapply same_conf_trans; [by eapply pt_grown_conf|done]].
  split_and!; try done.
  - intros n' Hn' Hne. rewrite He2 by done. by apply G.
  - intros q Hq. rewrite <- Hrf. by apply Hr2.
  - intros q Hq. rewrite Hk2 by done. eapply pt_grown_contents; [exact G|].
    rewrite !elem_of_app. destruct Hq as [Hq|[Hq|Hq]]; [tauto..|]. apply Hr2, elem_of_app in Hq. tauto.
  - intros q Hq. rewrite Hb2 by done. apply G.
Qed.

(** ** Copying a shared page *)

(** The result of replacing the page of entry [n] by a new page [p] whose
    contents are [c] and which is marked as cleared if [b]. *)
Definition fresh_post (m : pmem) (pt : pagetree) (n p : Z) (c : option page) (b : bool) (N R : list Z)
    (m' : pmem) (pt' : pagetree) : Prop :=
  pt_inv m' pt' N R ∧
  (∀ n', 0 ≤ n' → n' ≠ n → pt_entry m' pt' n' = pt_entry m pt n') ∧
  pt_entry m' pt' n = PtEnt p page_excl false ∧
  p ≠ 0 ∧ page_free_p m p ∧ (pm_page m' !! p = c ∧ clear_bit m' p = b) ∧
  (∀ q, q ≠ p → q ∈ N ∨ q ∈ R ∨ q ∈ pt_refs m' pt' →
     (q ∈ N ∨ q ∈ pt_refs m pt ++ R) ∧ pm_page m' !! q = pm_page m !! q ∧ clear_bit m' q = clear_bit m q).

(** The new page [p] is counted and the old reference gone: writing the entry
    gives the post-condition. *)
Lemma fresh_commit m pt n pe p rest b N R m4 :
  pt_ok m pt → NoDup (pt_nodes m pt) → (∀ n', 0 ≤ n' → n' ≠ n → ent_ok (pt_entry m pt n')) →
  0 ≤ n → pos_at m pt n pe → page_free_p m p → p ≠ 0 →
  pt_refs m pt ≡ₚ ent_ref (pt_entry m pt n) ++ rest →
  same_pages (pt_nodes m pt) m m4 →
  refs_inv m4 (pt_nodes m pt ++ N) (p :: rest ++ R) →
  (∀ q, q ≠ p → q ∈ N ∨ q ∈ rest ++ R → pm_page m4 !! q = pm_page m !! q ∧ clear_bit m4 q = clear_bit m q) →
  clear_bit m4 p = b →
  let e := PtEnt p page_excl false in
  fresh_post m pt n p (pm_page m4 !! p) b N R (upd_mem pe e m4) (upd_pt pe e pt).
Proof.
  intros Hok Hnd Hents Hn Hpos Hfree Hp0 Hr Hsame Hi4 Hkeep Hb e.
  assert (He : ent_ref e = [p]) by (unfold ent_ref; simpl; by rewrite (proj2 (Z.eqb_neq _ _))).
  destruct (commit m pt n pe e rest N R m4) as (Hinv5&He5&Hr5&Hpg5); try done; [by rewrite He|].
  rewrite He in Hr5. simpl in Hr5. split_and!; try done.
  - intros n' Hn' Hne'. rewrite He5 by done. by rewrite decide_False.
  - rewrite He5 by done. by rewrite decide_True.
  - apply Hpg5. right. right. rewrite Hr5. by left.
  - by rewrite upd_mem_clear.
  - intros q Hq Hin. rewrite Hpg5, upd_mem_clear by done. rewrite Hr5, elem_of_cons in Hin.
    rewrite Hr, !elem_of_app. split; [tauto|]. apply Hkeep; [done|]. rewrite elem_of_app. tauto.
Qed.

Lemma copy_page_wp m pt n pe N R node (Q : Z * pagetree → pmem → Prop) :
  pt_inv m pt N R → 0 ≤ n → pos_at m pt n pe → pe_page (pt_entry m pt n) ≠ 0 →
  home_node (pm_conf m) (pt_pid pt) = Some node →
  (∀ f, pt_inv (set_failures f m) pt N R → (∀ q, ¬ page_free_p m q) → Q (- E_NO_MEM, pt) (set_failures f m)) →
  (∀ p m' pt', fresh_post m pt n p (pm_page m !! pe_page (pt_entry m pt n)) true N R m' pt' →
     same_conf m pt m' pt' → pos_at m' pt' n pe → Q (0, pt') m') →
  wp (pagetree_copy_page pt pe (pt_pid pt)) m Q.
Proof.
  intros Hpti Hn Hpos Hne Hh Hfail HQ. pose proof Hpti as [Hinv Hok Hents].
  destruct (pos_at_spec _ _ _ _ Hok Hn Hpos) as (Hpok&Hent&Hpp). destruct (Hents n Hn) as [Hlk _].
  destruct (refs_nodup_l _ _ _ _ Hinv) as [Hnd _].
  destruct (entry_refs _ _ _ _ Hok Hnd Hn Hpos) as (rest&Hr).
  set (e := pt_entry m pt n) in *. set (old := pe_page e) in *.
  assert (Hold : ent_ref e = [old]) by (unfold ent_ref; by rewrite (proj2 (Z.eqb_neq _ _))).
  assert (Hinv' : refs_inv m (pt_nodes m pt ++ N) (old :: rest ++ R))
    by (rewrite Hr, Hold in Hinv; exact Hinv).
  unfold pagetree_copy_page. wp_pure. eapply refs_alloc; [exact Hinv'|exact Hh| |].
  { intros f p Hi Hno. wp_pure. apply Hfail; [|done].
    eapply pt_inv_ext; [exact Hpti|done|]. rewrite Hr, Hold. exact Hi. }
  intros pp m1 Hi1 Hp1 Hc1 Hfree _ Hb1. wp_pure.
  destruct (refs_drop _ _ _ _ Hi1) as (_&Hlive&HppN&_).
  destruct (pos_same m m1 pt pe Hpp (same_pages_all _ _ _ Hp1) Hpok) as (Hpok1&Hent1&_).
  apply wp_read_ent; [done|]. rewrite Hent1, Hent. wp_pure. fold old.
  destruct (refs_ref_contents _ _ _ old Hi1) as [c Hc]; [by left|].
  unfold copy_page. wp_pure. eapply wp_deref; [exact Hc|].
  apply wp_write_page; [eapply refs_node_contents; [exact Hi1|by left]|]. wp_pure.
  assert (Hi2 : refs_inv (set_page pp c m1) (pp :: pt_nodes m pt ++ N) (old :: rest ++ R)).
  { apply refs_set_page; [done|]. eapply refs_node_contents; [exact Hi1|by left]. }
  destruct (page_live_addr _ _ (refs_node_live _ _ _ pp Hi2 (list_elem_of_here _ _))) as (pn&i&Epp&Hat&Hin&Hfi).
  rewrite Epp at 1. eapply page_to_pageinfo_page; [apply Hi2|exact Hat|]. wp_pure.
  eapply wp_upd_info; [exact Hin|]. wp_pure.
  eapply refs_incref_new; [exact (refs_set_clear _ _ _ _ _ true Hi2 Hat Hin Hfi)|].
  intros m3 Hi3 Hc3 Hp3 Hb3. wp_pure.
  rewrite perm_swap in Hi3. eapply refs_decref; [exact Hi3|]. intros m4 Hi4 Hc4 Hp4 _ _ Hb4. wp_pure.
  assert (Hkeep : ∀ q, q ≠ pp → q ∈ pt_nodes m pt ++ N ∨ q ∈ rest ++ R → pm_page m4 !! q = pm_page m !! q).
  { intros q Hq Hor. rewrite Hp4, Hp3. { simpl. by rewrite lookup_insert_ne, Hp1. }
    destruct Hor as [Hor|]; [left|right; by right]. intros ->.
    eapply refs_disjoint; [exact Hinv'|exact Hor|by left]. }
  assert (Hsame : same_pages (pt_nodes m pt) m m4).
  { intros q Hq. apply Hkeep; [intros ->; apply HppN|left]; apply elem_of_app; by left. }
  destruct (pos_same m m4 pt pe Hpp Hsame Hpok) as (Hpok4&Hent4&_).
  apply wp_read_ent; [done|]. rewrite Hent4, Hent. fold e. apply wp_write_ent; [done|]. wp_pure.
  destruct (upd_pos m4 pt pe (set_ent_mode page_excl e) Hpok4) as [Hpok5 Hent5].
  apply wp_read_ent; [done|]. rewrite Hent5. apply wp_write_ent; [done|]. wp_pure.
  rewrite (proj1 (upd_twice m4 pt pe _ _ Hpok4)), (proj2 (upd_twice m4 pt pe _ _ Hpok4)).
  replace (set_ent_page pp _) with (PtEnt pp page_excl false) by (unfold set_ent_page; f_equal; symmetry; exact Hlk).
  apply (HQ pp); [|apply upd_same_conf; by rewrite Hc4, Hc3|by eapply pos_at_upd, pos_at_ext].
  assert (Hclr : clear_bit m4 pp = true).
  { rewrite Epp, Hb4, Hb3 by (left; rewrite <- Epp; intros ->; eapply (refs_disjoint _ _ _ old Hi1); by left).
    rewrite (clear_bit_at _ pn (pi_set_clear true i)); [done|apply lookup_insert_eq]. }
  replace (pm_page m !! old) with (pm_page m4 !! pp).
  - eapply fresh_commit; try done; [intros; by apply Hents|by eapply page_live_nonzero|].
    intros q Hq HN. split; [apply Hkeep; [done|]; rewrite elem_of_app; tauto|].
    assert (Hor : q ∈ pt_nodes m pt ++ N ∨ q ∈ old :: rest ++ R) by (rewrite elem_of_app, elem_of_cons; tauto).
    destruct (page_live_addr m q) as (pq&_&->&_); [by destruct Hor; [eapply refs_node_live|eapply ri_live]|].
    rewrite Hb4 by (destruct HN; [left; intros <-; eapply (refs_disjoint _ _ _ _ Hinv'); [apply elem_of_app; by right|by left]|right; by right]).
    rewrite Hb3, (clear_bit_info m1 _ pn i (pi_set_clear true i)); [apply Hb1|done|done|right; rewrite page_number; congruence].
  - rewrite Hp4 by (right; by left). rewrite Hp3. simpl. by rewrite lookup_insert_eq, <- Hp1.
Qed.

(** ** Demand allocation *)

(** The same result seen from before the entry was locked. *)
Lemma fresh_post_unlocked m pt n pe e1 p N R m' pt' :
  pt_inv m pt N R → 0 ≤ n → pos_at m pt n pe → ent_ref e1 = ent_ref (pt_entry m pt n) →
  fresh_post (upd_mem pe e1 m) (upd_pt pe e1 pt) n p (pm_page (upd_mem pe e1 m) !! p) false N R m' pt' →
  fresh_post m pt n p (pm_page m !! p) false N R m' pt'.
Proof.
  intros [Hinv Hok Hents] Hn Hpos Href (Hi&He&Hen&Hp0&Hfree&[Hc Hb]&Hk).
  destruct (refs_nodup_l _ _ _ _ Hinv) as [Hnd HndN].
  destruct (pos_at_spec _ _ _ _ Hok Hn Hpos) as (Hpok&_&Hpp).
  destruct (pt_update m pt n pe e1 _ Hok Hnd Hn Hpos (λ q _, eq_refl)) as [_ _ He1 (rest&Hr1&Hr2)].
  rewrite Href, <- Hr1 in Hr2. apply upd_mem_status in Hfree.
  split_and!; try done.
  - intros n' Hn' Hne. rewrite He by done. rewrite He1 by done. by rewrite decide_False.
  - rewrite Hc. apply upd_mem_page. intros Hq%Hpp. eapply page_live_not_free; [|exact Hfree].
    eapply refs_node_live; [exact Hinv|]. apply elem_of_app. by left.
  - intros q Hq Hin. destruct (Hk q Hq Hin) as (Hold&->&->). rewrite upd_mem_clear. rewrite Hr2 in Hold. split; [done|]. split; [|done].
    apply upd_mem_page. intros Hqp%Hpp. destruct Hold as [HqN|HqR]; [by apply (HndN q)|].
    eapply refs_disjoint; [exact Hinv| |exact HqR]. apply elem_of_app. by left.
Qed.

Lemma get_page_demand_wp m pt n pe N R node (Q : pagetree → pmem → Prop) :
  pt_inv m pt N R → 0 ≤ n → pos_at m pt n pe → home_node (pm_conf m) (pt_pid pt) = Some node →
  (pe_page (pt_entry m pt n) ≠ 0 ∨ pt_demand pt = false → Q pt m) →
  (∀ p m' pt', pe_page (pt_entry m pt n) = 0 → pt_demand pt = true →
     fresh_post m pt n p (pm_page m !! p) false N R m' pt' → same_conf m pt m' pt' →
     pos_at m' pt' n pe → Q pt' m') →
  wpx (get_page_demand pt pe) m Q
    (pe_page (pt_entry m pt n) = 0 ∧ pt_demand pt = true ∧ ∀ q, ¬ page_free_p m q).
Proof.
  intros Hpti Hn Hpos Hh Hsame HQ. pose proof Hpti as [Hinv Hok Hents].
  destruct (pos_at_spec _ _ _ _ Hok Hn Hpos) as (Hpok&Hent&Hpp). destruct (Hents n Hn) as [Hlk _].
  destruct (refs_nodup_l _ _ _ _ Hinv) as [Hnd _]. set (e := pt_entry m pt n) in *.
  unfold get_page_demand. apply wpx_bind_wp, wp_read_ent; [done|]. rewrite Hent. fold e.
  destruct (Z.eqb_spec (pe_page e) 0) as [Hp0|Hp0]; [|apply wp_wpx; simpl; wp_pure; by apply Hsame; left].
  destruct (pt_demand pt) eqn:Hdem; [|apply wp_wpx; simpl; wp_pure; by apply Hsame; right]. simpl.
  set (e1 := set_ent_lock true e). set (m1 := upd_mem pe e1 m). set (pt1 := upd_pt pe e1 pt).
  assert (Hpid : pt_pid pt1 = pt_pid pt) by (unfold pt1; by destruct pe).
  destruct (upd_pos m pt pe e1 Hpok) as [Hpok1 Hent1]. fold m1 pt1 in Hpok1, Hent1.
  destruct (pt_update m pt n pe e1 m1 Hok Hnd Hn Hpos (λ q _, eq_refl)) as [Hok1 Hn1 He1 (rest&Hr&Hr1)].
  fold pt1 in Hok1, Hn1, He1, Hr1.
  assert (Href : ent_ref e = []) by (unfold ent_ref; by rewrite Hp0).
  assert (Hi1 : refs_inv m1 (pt_nodes m pt ++ N) (rest ++ R)).
  { apply upd_mem_refs; [intros q Hq; apply elem_of_app; left; by apply Hpp|].
    fold e in Hr. rewrite Hr, Href in Hinv. exact Hinv. }
  apply wpx_bind_wp. unfold ent_lock. wp_pure. apply wp_read_ent; [done|]. rewrite Hent. fold e. rewrite Hlk.
  apply wp_write_ent; [done|]. fold e1 m1 pt1. apply wpx_bind_wp, wp_read_ent; [done|]. rewrite Hent1.
  rewrite (proj2 (Z.eqb_eq (pe_page e1) 0)) by done. apply wpx_bind, wpx_bind_wp. rewrite Hpid.
  eapply refs_alloc; [exact Hi1|unfold m1; by rewrite upd_mem_conf|intros f p _ Hno; simpl; split_and!; try done|].
  { intros q Hq. apply (Hno q), upd_mem_status, Hq. }
  intros p m2 Hi2 Hp2 Hc2 Hfree _ Hb2. apply wp_wpx. wp_pure. apply wp_assert; [done|]. wp_pure.
  eapply refs_incref_new; [exact Hi2|]. intros m3 Hi3 Hc3 Hp3 Hb3. wp_pure.
  assert (Hm3 : pm_page m3 = pm_page m1) by congruence.
  rewrite <- Hn1 in Hi3. assert (Hpp1 : pos_pages pe ⊆ pt_nodes m1 pt1) by (rewrite Hn1; exact Hpp).
  destruct (pos_same m1 m3 pt1 pe Hpp1 (same_pages_all _ _ _ Hm3) Hpok1) as (Hpok3&Hent3&_).
  apply wp_read_ent; [done|]. rewrite Hent3, Hent1. apply wp_write_ent; [done|]. wp_pure.
  destruct (upd_pos m3 pt1 pe (set_ent_page p e1) Hpok3) as [Hpok4 Hent4].
  apply wp_read_ent; [done|]. rewrite Hent4. apply wp_write_ent; [done|].
  rewrite (proj1 (upd_twice m3 pt1 pe _ _ Hpok3)), (proj2 (upd_twice m3 pt1 pe _ _ Hpok3)).
  apply wp_wpx. unfold ent_unlock. wp_pure.
  destruct (upd_pos m3 pt1 pe (set_ent_mode page_excl (set_ent_page p e1)) Hpok3) as [Hpok5 Hent5].
  apply wp_read_ent; [done|]. rewrite Hent5. apply wp_write_ent; [done|].
  rewrite (proj1 (upd_twice m3 pt1 pe _ _ Hpok3)), (proj2 (upd_twice m3 pt1 pe _ _ Hpok3)).
  apply (HQ p); try done.
  - eapply (fresh_post_unlocked m pt n pe e1); [done..|]. fold m1 pt1. rewrite <- Hm3.
    apply (fresh_commit m1 pt1 n pe p rest false N R m3); try done.
    + rewrite Hn1. done.
    + intros n' Hn' Hne. rewrite He1 by done. rewrite decide_False by done. by apply Hents.
    + by apply pos_at_upd.
    + eapply page_live_nonzero, refs_node_live; [exact Hi2|by left].
    + rewrite He1 by done. rewrite decide_True by done. exact Hr1.
    + by apply same_pages_all.
    + intros q _ _. by rewrite Hm3, Hb3, Hb2.
    + rewrite Hb3, Hb2. by apply clear_free; [apply Hi1|].
  - unfold pt1. rewrite (proj1 (upd_twice m pt pe _ _ Hpok)). apply upd_same_conf.
    rewrite Hc3, Hc2. unfold m1. apply upd_mem_conf.
  - apply pos_at_upd. eapply (pos_at_ext m1); [by apply same_pages_all|done|by apply pos_at_upd].
Qed.

(** ** Getting a page *)

(** Whether access with [mode] to entry [e] makes a private copy. *)
Definition needs_copy (e : pagetree_entry) (mode : Z) : bool :=
  (pe_mode e =? page_shared_cor) || ((pe_mode e =? page_shared_cow) && (mode =? page_shared_cow)).
Definition is_shared (e : pagetree_entry) : bool :=
  (pe_mode e =? page_shared_cor) || (pe_mode e =? page_shared_cow).

Lemma get_page_cow_wp m pt n pe mode N R node (Q : Z * pagetree → pmem → Prop) :
  pt_inv m pt N R → 0 ≤ n → pos_at m pt n pe → home_node (pm_conf m) (pt_pid pt) = Some node →
  (is_shared (pt_entry m pt n) = true → mode ≠ page_excl) →
  (needs_copy (pt_entry m pt n) mode = false → Q (0, pt) m) →
  (∀ f, pt_inv (set_failures f m) pt N R → needs_copy (pt_entry m pt n) mode = true →
     (∀ q, ¬ page_free_p m q) → Q (- E_NO_MEM, pt) (set_failures f m)) →
  (∀ p m' pt', needs_copy (pt_entry m pt n) mode = true →
     fresh_post m pt n p (pm_page m !! pe_page (pt_entry m pt n)) true N R m' pt' →
     same_conf m pt m' pt' → pos_at m' pt' n pe → Q (0, pt') m') →
  wp (get_page_cow pt pe mode) m Q.
Proof.
  intros Hi Hn Hpos Hh Hmode Hno Hfail Hcopy. pose proof Hi as [_ Hok Hents].
  destruct (pos_at_spec _ _ _ _ Hok Hn Hpos) as (Hpok&Hent&_). destruct (Hents n Hn) as [_ Hsh].
  unfold get_page_cow. wp_pure. apply wp_read_ent; [done|]. rewrite Hent.
  unfold needs_copy, is_shared in *. set (e := pt_entry m pt n) in *.
  assert (Hp : (pe_mode e =? page_shared_cor) || (pe_mode e =? page_shared_cow) = true → pe_page e ≠ 0).
  { intros [Hm%Z.eqb_eq|Hm%Z.eqb_eq]%orb_true_iff Hz; by destruct (Hsh Hz). }
  destruct (pe_mode e =? page_shared_cor); simpl in *.
  - wp_pure. apply wp_assert; [by apply negb_true_iff, Z.eqb_neq, Hmode|]. 
    eapply copy_page_wp; [done|done|done|by apply Hp|done|intros f Hf; by apply Hfail|].
    intros p m' pt'. by apply Hcopy.
  - destruct (pe_mode e =? page_shared_cow); simpl in *; [|wp_pure; by apply Hno].
    wp_pure. apply wp_assert; [by apply negb_true_iff, Z.eqb_neq, Hmode|].
    destruct (mode =? page_shared_cow); [|wp_pure; by apply Hno]. 
    eapply copy_page_wp; [done|done|done|by apply Hp|done|intros f Hf; by apply Hfail|].
    intros p m' pt'. by apply Hcopy.
Qed.

(** A result in a tree that grew is a result in the tree before. *)
Lemma fresh_post_grown m pt N R m1 pt1 n p c b m' pt' :
  pt_grown m pt N R m1 pt1 → 0 ≤ n →
  fresh_post m1 pt1 n p c b N R m' pt' → fresh_post m pt n p c b N R m' pt'.
Proof.
  intros G Hn (Hi&He&Hen&Hp0&Hfree&[Hc Hb]&Hk). split_and!; try done.
  - intros n' Hn' Hne. rewrite He by done. by apply G.
  - by apply G.
  - intros q Hq Hin. destruct (Hk q Hq Hin) as (Hold&->&->). rewrite (pg_clear _ _ _ _ _ _ G).
    pose proof (pt_grown_contents _ _ _ _ _ _ q G Hold) as Hc'.
    rewrite (pg_refs _ _ _ _ _ _ G) in Hold. done.
Qed.

(** The outcomes of [pagetree_get_page] on entry [n] of a tree that has one. *)
Inductive get_page_post (m : pmem) (pt : pagetree) (n mode : Z) (N R : list Z) :
    Z * Z * pagetree → pmem → Prop :=
| get_no_mem m' pt' :
    needs_copy (pt_entry m pt n) mode = true ∨ (∀ pe, ¬ pos_at m pt n pe) → few_free MAX_NODES m →
    pt_grown m pt N R m' pt' → get_page_post m pt n mode N R (- E_NO_MEM, 0, pt') m'
| get_present m' pt' :
    needs_copy (pt_entry m pt n) mode = false →
    pe_page (pt_entry m pt n) ≠ 0 ∨ pt_demand pt = false → pt_grown m pt N R m' pt' →
    (∀ pe, pos_at m pt n pe → m' = m ∧ pt' = pt) →
    get_page_post m pt n mode N R (0, pe_page (pt_entry m pt n), pt') m'
| get_copied p m' pt' :
    needs_copy (pt_entry m pt n) mode = true →
    fresh_post m pt n p (pm_page m !! pe_page (pt_entry m pt n)) true N R m' pt' → same_conf m pt m' pt' →
    get_page_post m pt n mode N R (0, p, pt') m'
| get_demanded p m' pt' :
    needs_copy (pt_entry m pt n) mode = false →
    pe_page (pt_entry m pt n) = 0 → pt_demand pt = true →
    fresh_post m pt n p (pm_page m !! p) false N R m' pt' → same_conf m pt m' pt' →
    get_page_post m pt n mode N R (0, p, pt') m'.

(** Reading the page of entry [n] at the end. *)
Lemma read_page_wp m pt n pe (Q : Z * Z * pagetree → pmem → Prop) :
  pt_ok m pt → 0 ≤ n → pos_at m pt n pe → Q (0, pe_page (pt_entry m pt n), pt) m →
  wp (e ← read_ent pt pe; mret (0, pe_page e, pt)) m Q.
Proof.
  intros Hok Hn Hpos HQ. destruct (pos_at_spec _ _ _ _ Hok Hn Hpos) as (Hpok&Hent&_).
  wp_pure. apply wp_read_ent; [done|]. rewrite Hent. by wp_pure.
Qed.

(** A free page is not a node, so growing did not touch it. *)
Lemma grown_free_contents m pt N R m1 pt1 p :
  pt_grown m pt N R m1 pt1 → page_free_p m1 p → pm_page m1 !! p = pm_page m !! p.
Proof.
  intros G Hf. apply G. intros Hin. eapply page_live_not_free; [|exact Hf].
  eapply refs_node_live; [apply G|]. apply elem_of_app. by left.
Qed.

Lemma pt_grown_failures m pt N R m1 pt1 f :
  pt_grown m pt N R m1 pt1 → pt_inv (set_failures f m1) pt1 N R →
  pt_grown m pt N R (set_failures f m1) pt1.
Proof.
  intros G Hi. destruct (pt_ext m1 (set_failures f m1) pt1 (λ q _, eq_refl)) as (_&_&_&He).
  split; try apply G; [done|]. intros n Hn0. rewrite He by done. by apply G.
Qed.

Lemma entry_in_refs m pt n pe N R :
  pt_inv m pt N R → 0 ≤ n → pos_at m pt n pe → pe_page (pt_entry m pt n) ≠ 0 →
  pe_page (pt_entry m pt n) ∈ pt_refs m pt.
Proof.
  intros [Hinv Hok _] Hn Hpos Hp0. destruct (refs_nodup_l _ _ _ _ Hinv) as [Hnd _].
  destruct (entry_refs _ _ _ _ Hok Hnd Hn Hpos) as (rest&Hr). rewrite Hr. unfold ent_ref.
  rewrite (proj2 (Z.eqb_neq _ _)) by done. by left.
Qed.

Lemma needs_copy_page e mode : ent_ok e → needs_copy e mode = true → pe_page e ≠ 0.
Proof.
  intros [_ Hsh] [Hm%Z.eqb_eq|[Hm%Z.eqb_eq _]%andb_true_iff]%orb_true_iff Hz; by destruct (Hsh Hz).
Qed.

(** Demand allocation and the final read. *)
Lemma get_page_tail m pt n pe N R node mode m1 pt1 (Q : Z * Z * pagetree → pmem → Prop) :
  takes MAX_NODES m m1 → pt_grown m pt N R m1 pt1 → 0 ≤ n → pos_at m1 pt1 n pe →
  home_node (pm_conf m1) (pt_pid pt1) = Some node → needs_copy (pt_entry m pt n) mode = false →
  (∀ pe, pos_at m pt n pe → m1 = m ∧ pt1 = pt) →
  (∀ res m', get_page_post m pt n mode N R res m' → Q res m') →
  wpx (pt ← get_page_demand pt1 pe; e ← read_ent pt pe; mret (0, pe_page e, pt)) m1 Q
    (pe_page (pt_entry m pt n) = 0 ∧ pt_demand pt = true ∧ few_free MAX_NODES m).
Proof.
  intros Htk G Hn Hpos Hh Hnc Hold HQ. apply wpx_bind.
  assert (He : pt_entry m1 pt1 n = pt_entry m pt n) by (by apply G).
  eapply wpx_mono; [eapply (get_page_demand_wp m1 pt1 n pe N R node (λ pt' m',
      wpx (e ← read_ent pt' pe; mret (0, pe_page e, pt')) m' Q _)); [apply G|done|done|done| |]| |].
  - rewrite He, (pg_demand _ _ _ _ _ _ G). intros Hor. apply wp_wpx.
    eapply read_page_wp; [apply G|done|done|]. rewrite He. apply HQ. by apply get_present.
  - rewrite He, (pg_demand _ _ _ _ _ _ G). intros p m' pt' Hp0 Hd HF Hsc Hpos'. apply wp_wpx.
    eapply read_page_wp; [apply HF|done|done|]. pose proof HF as (_&_&Hen&_&Hfree&_). rewrite Hen. simpl.
    apply HQ. eapply get_demanded; try done.
    + rewrite <- (grown_free_contents _ _ _ _ _ _ _ G Hfree). by eapply fresh_post_grown.
    + eapply same_conf_trans; [by eapply pt_grown_conf|done].
  - intros pt' m' Hw. exact Hw.
  - rewrite He, (pg_demand _ _ _ _ _ _ G). intros (?&?&Hno). split_and!; try done.
    eapply (takes_few MAX_NODES 0); [exact Htk|by apply few_free_none].
Qed.

Lemma pagetree_get_page_wpx m pt n mode N R node (Q : Z * Z * pagetree → pmem → Prop) :
  pt_inv m pt N R → 0 ≤ n → home_node (pm_conf m) (pt_pid pt) = Some node →
  (is_shared (pt_entry m pt n) = true → mode ≠ page_excl) →
  (pt_max ≤ n → Q (- E_NO_SPACE, 0, pt) m) →
  (∀ res m', n < pt_max → get_page_post m pt n mode N R res m' → Q res m') →
  wpx (pagetree_get_page pt n mode) m Q
    (pe_page (pt_entry m pt n) = 0 ∧ pt_demand pt = true ∧ few_free MAX_NODES m).
Proof.
  intros Hi Hn Hh Hmode Hsp HQ. unfold pagetree_get_page. apply wpx_bind_wp.
  eapply pagetree_get_entp_wp; [exact Hi|done|exact Hh|exact Hsp| |].
  { intros m1 pt1 Hm Hno Hff G. apply HQ; [done|]. apply get_no_mem; [by right|done|done]. }
  intros m1 pt1 pe Hm Htk G Hpos Hold. pose proof (pg_inv _ _ _ _ _ _ G) as Hi1.
  assert (Hh1 : home_node (pm_conf m1) (pt_pid pt1) = Some node)
    by (by rewrite (pg_conf _ _ _ _ _ _ G), (pg_pid _ _ _ _ _ _ G)).
  assert (He : pt_entry m1 pt1 n = pt_entry m pt n) by (by apply G).
  apply wpx_bind_wp.
  eapply get_page_cow_wp; [exact Hi1|done|exact Hpos|exact Hh1|by rewrite He| | |]; rewrite ?He.
  - intros Hnc. eapply get_page_tail; try done. intros res m'. by apply HQ.
  - intros f Hif Hnc Hno. apply HQ; [done|]. apply get_no_mem; [by left| |by apply pt_grown_failures].
    eapply (takes_few MAX_NODES 0); [exact Htk|by apply few_free_none].
  - intros p m2 pt2 Hnc HF Hsc Hpos2. apply wp_wpx, wp_bind.
    assert (Hpg : pe_page (pt_entry m pt n) ≠ 0) by (eapply needs_copy_page; [by apply Hi|done]).
    assert (HF' : fresh_post m pt n p (pm_page m !! pe_page (pt_entry m pt n)) true N R m2 pt2).
    { eapply fresh_post_grown; [exact G|done|]. erewrite <- pt_grown_contents; [exact HF|exact G|].
      right. apply elem_of_app. left. rewrite <- He in *. by eapply entry_in_refs. }
    pose proof HF' as (Hi2&_&Hen&Hp0&_). pose proof Hsc as (Hc2&Hpid2&_).
    eapply wpx_wp; [eapply (get_page_demand_wp m2 pt2 n pe N R node);
      [done..|by rewrite Hc2, Hpid2| |]|]; rewrite ?Hen; simpl; [|done|by intros []].
    intros _. eapply read_page_wp; [apply Hi2|done|done|]. rewrite Hen. apply HQ; [done|].
    eapply get_copied; try done. eapply same_conf_trans; [by eapply pt_grown_conf|done].
Qed.
