(* ===== verification/PagetreeFree.v ===== *)
(** * Page trees: freeing

    [pagetree_free] gives back every node and drops every reference a tree
    holds; pages other trees refer to keep their contents. *)
From S2P Require Import Prelude Machine Hashtable Ktypes Kmem PageAlloc Pagetree PageRefs PagetreeSpec PagetreeOps PagetreeWhole PagetreeThms.

(** The nodes [Nd] and references [Rd] were given up, [N] and [R] remain. *)
Record dropped (m : pmem) (Nd Rd N R : list Z) (m' : pmem) : Prop := Dropped {
  dr_inv : refs_inv m' N R;
  dr_conf : pm_conf m' = pm_conf m;
  dr_keep : ∀ q, q ∈ N ∨ q ∈ R → pm_page m' !! q = pm_page m !! q;
  dr_nodes : ∀ q, q ∈ Nd → page_free_p m' q;
  dr_refs : ∀ q, q ∈ Rd → q ∈ R ∨ released m' q;
  dr_rel : releases m m';
}.

Lemma dropped_nil m N R : refs_inv m N R → dropped m [] [] N R m.
Proof. intros Hi. split; try done; by intros q ?%not_elem_of_nil. Qed.

Lemma dropped_trans m N1 R1 N2 R2 N R m1 m2 :
  dropped m N1 R1 (N2 ++ N) (R2 ++ R) m1 → dropped m1 N2 R2 N R m2 →
  dropped m (N1 ++ N2) (R1 ++ R2) N R m2.
Proof.
  intros [Hi1 Hc1 Hk1 Hn1 Hr1 Hl1] [Hi2 Hc2 Hk2 Hn2 Hr2 Hl2]. split.
  - done.
  - congruence.
  - intros q Hq. rewrite Hk2 by done. apply Hk1. rewrite !elem_of_app. tauto.
  - intros q [Hq|Hq]%elem_of_app; [|by apply Hn2]. by apply Hl2, Hn1.
  - intros q [Hq|Hq]%elem_of_app; [|by apply Hr2].
    destruct (Hr1 q Hq) as [[Hq2|Hq2]%elem_of_app|Hq2]; [by apply Hr2|by left|right; by apply Hl2].
  - by etrans.
Qed.

(** Freeing one node. *)
Lemma free_node_dropped m N R p (Q : unit → pmem → Prop) :
  refs_inv m (p :: N) R → (∀ m', dropped m [p] [] N R m' → Q tt m') → wp (page_free p) m Q.
Proof.
  intros Hi HQ. eapply refs_free_node; [exact Hi|]. intros m' Hi' Hc Hk Hf Hrel _. apply HQ. split; try done.
  - intros q Hq. apply Hk. intros ->. destruct (refs_drop _ _ _ _ Hi) as (_&_&?&?&_). tauto.
  - by intros q ->%list_elem_of_singleton.
  - by intros q ?%not_elem_of_nil.
Qed.

Lemma drop_ent_dropped m N R e (Q : unit → pmem → Prop) :
  refs_inv m N (ent_ref e ++ R) → (∀ m', dropped m [] (ent_ref e) N R m' → Q tt m') →
  wp (when (negb (pe_page e =? 0)) (pagetree_decref (pe_page e))) m Q.
Proof.
  intros Hi HQ. eapply drop_ent_wp; [exact Hi|]. intros m' Hi' Hc Hk Hr Hrel _. apply HQ.
  split; try done. by intros q ?%not_elem_of_nil.
Qed.

Lemma seqZ_uncons i n : 0 ≤ i < n → seqZ i (n - i) = i :: seqZ (i + 1) (n - (i + 1)).
Proof. intros. rewrite seqZ_cons by lia. f_equal. f_equal; lia. Qed.
Lemma seqZ_empty n : seqZ n (n - n) = [].
Proof. apply length_zero_iff_nil. rewrite length_seqZ. lia. Qed.

(** ** Subtrees *)

(** The loop over the entries of a leaf. *)
Lemma free_leaf_wp m ind N R (Q : unit → pmem → Prop) :
  ind ≠ 0 → refs_inv m (ind :: N) (refs m 0 ind ++ R) → tree_ok m 0 ind →
  (∀ m', dropped m [] (refs m 0 ind) (ind :: N) R m' → Q tt m') →
  wp (for_each (Z.to_nat PAGETREE_ENTRIES_PER_PAGE) 0 (λ i,
        e ← read_pent ind i; when (negb (pe_page e =? 0)) (pagetree_decref (pe_page e)))) m Q.
Proof.
  intros Hne Hi Ht HQ. rewrite tree_ok_O in Ht by done.
  set (f := λ s, ent_ref (node_ent m ind s)).
  set (rest := λ i, seqZ i (PAGETREE_ENTRIES_PER_PAGE - i) ≫= f).
  apply (wp_for_each (λ i m', ∃ done, refs m 0 ind = done ++ rest i ∧
                                  dropped m [] done (ind :: N) (rest i ++ R) m')).
  - exists []. split; [by rewrite refs_O|]. apply dropped_nil. by rewrite refs_O in Hi.
  - intros i m1 Hrange (dn&Hdn&Hd). rewrite Z2Nat.id in Hrange by done.
    assert (Hsame : pm_page m1 !! ind = pm_page m !! ind) by (apply (dr_keep _ _ _ _ _ _ Hd); left; by left).
    wp_pure. apply wp_read_pent; [by apply elem_of_indices| |].
    { by rewrite (proj2 (page_arrays_ext _ _ _ Hsame)). }
    rewrite (node_ent_ext m m1) by done.
    assert (Hrest : rest i = f i ++ rest (i + 1)) by (unfold rest; by rewrite seqZ_uncons).
    pose proof (dr_inv _ _ _ _ _ _ Hd) as Hi1. rewrite Hrest, <- (assoc_L app) in Hi1.
    eapply drop_ent_dropped; [exact Hi1|]. intros m2 Hd2. exists (dn ++ f i). split.
    + by rewrite Hdn, Hrest, (assoc_L app).
    + apply (dropped_trans m [] dn [] (f i) (ind :: N) (rest (i + 1) ++ R) m1 m2); [|done].
      rewrite Hrest, <- (assoc_L app) in Hd. exact Hd.
  - intros m' (dn&Hdn&Hd). rewrite Z2Nat.id, Z.add_0_l in * by done. apply HQ.
    assert (Hrest : rest PAGETREE_ENTRIES_PER_PAGE = []) by (unfold rest; by rewrite seqZ_empty).
    rewrite Hrest in *. rewrite app_nil_r in Hdn. by rewrite Hdn.
Qed.

(** The loop over the children of a node. *)
Lemma free_children_wp m l ind N R (Q : unit → pmem → Prop) :
  (∀ m ind N R (Q : unit → pmem → Prop),
     refs_inv m (nodes m l ind ++ N) (refs m l ind ++ R) → tree_ok m l ind →
     (∀ m', dropped m (nodes m l ind) (refs m l ind) N R m' → Q tt m') →
     wp (pagetree_free_indirect l ind) m Q) →
  ind ≠ 0 → refs_inv m (nodes m (S l) ind ++ N) (refs m (S l) ind ++ R) → tree_ok m (S l) ind →
  (∀ m', dropped m (slots ≫= λ s, nodes m l (node_ptr m ind s)) (refs m (S l) ind) (ind :: N) R m' → Q tt m') →
  wp (for_each (Z.to_nat PAGETREE_INDIRECT_PER_PAGE) 0 (λ i,
        p ← read_ptr ind i; pagetree_free_indirect l p)) m Q.
Proof.
  intros IH Hne Hi Ht HQ. rewrite tree_ok_S in Ht by done. destruct Ht as [Hp Ht].
  set (fn := λ s, nodes m l (node_ptr m ind s)). set (fr := λ s, refs m l (node_ptr m ind s)).
  set (rn := λ i, seqZ i (PAGETREE_INDIRECT_PER_PAGE - i) ≫= fn).
  set (rr := λ i, seqZ i (PAGETREE_INDIRECT_PER_PAGE - i) ≫= fr).
  apply (wp_for_each (λ i m', ∃ dn dr, (slots ≫= fn) = dn ++ rn i ∧ refs m (S l) ind = dr ++ rr i ∧
                                  dropped m dn dr (rn i ++ ind :: N) (rr i ++ R) m')).
  - exists [], []. split; [done|]. split; [by rewrite refs_S|]. apply dropped_nil.
    rewrite nodes_S, refs_S in Hi by done. by rewrite <- Permutation_middle.
  - intros i m1 Hrange (dn&dr&Hdn&Hdr&Hd). rewrite Z2Nat.id in Hrange by done.
    assert (Hs : i ∈ slots) by (by apply elem_of_slots).
    assert (Hsame : pm_page m1 !! ind = pm_page m !! ind).
    { apply (dr_keep _ _ _ _ _ _ Hd). left. apply elem_of_app. right. by left. }
    assert (Hrn : rn i = fn i ++ rn (i + 1)) by (unfold rn; by rewrite seqZ_uncons).
    assert (Hrr : rr i = fr i ++ rr (i + 1)) by (unfold rr; by rewrite seqZ_uncons).
    rewrite Hrn, Hrr, <- !(assoc_L app) in Hd.
    assert (Hch : same_pages (fn i) m m1).
    { intros q Hq. apply (dr_keep _ _ _ _ _ _ Hd). left. apply elem_of_app. by left. }
    destruct (tree_ext _ _ _ _ Hch) as (En&Er&Eok).
    wp_pure. apply wp_read_ptr; [done|by rewrite (proj1 (page_arrays_ext _ _ _ Hsame))|].
    rewrite (node_ptr_ext m m1) by done.
    eapply (IH m1 _ (rn (i + 1) ++ ind :: N) (rr (i + 1) ++ R)).
    + rewrite En, Er. apply Hd.
    + by apply Eok, Ht.
    + rewrite En, Er. intros m2 Hd2. exists (dn ++ fn i), (dr ++ fr i).
      split; [by rewrite Hdn, Hrn, (assoc_L app)|]. split; [by rewrite Hdr, Hrr, (assoc_L app)|].
      by eapply dropped_trans.
  - intros m' (dn&dr&Hdn&Hdr&Hd). rewrite Z2Nat.id, Z.add_0_l in * by done. apply HQ.
    assert (Hrn : rn PAGETREE_INDIRECT_PER_PAGE = []) by (unfold rn; by rewrite seqZ_empty).
    assert (Hrr : rr PAGETREE_INDIRECT_PER_PAGE = []) by (unfold rr; by rewrite seqZ_empty).
    rewrite Hrn, Hrr in *. rewrite app_nil_r in Hdn, Hdr. fold fn. rewrite Hdn, Hdr. exact Hd.
Qed.

Lemma dropped_perm m Nd Nd' Rd N R m' : Nd ≡ₚ Nd' → dropped m Nd Rd N R m' → dropped m Nd' Rd N R m'.
Proof. intros HN []. split; try done. intros q. rewrite <- HN. auto. Qed.

Lemma free_indirect_wp l m ind N R (Q : unit → pmem → Prop) :
  refs_inv m (nodes m l ind ++ N) (refs m l ind ++ R) → tree_ok m l ind →
  (∀ m', dropped m (nodes m l ind) (refs m l ind) N R m' → Q tt m') →
  wp (pagetree_free_indirect l ind) m Q.
Proof.
  revert m ind N R Q. induction l as [|l IH]; intros m ind N R Q Hi Ht HQ; cbn [pagetree_free_indirect];
    (destruct (Z.eqb_spec ind 0) as [->|Hne];
      [wp_pure; apply HQ; rewrite nodes_null, refs_null in *; by apply dropped_nil|]); wp_pure.
  - rewrite nodes_O in * by done. eapply free_leaf_wp; [done|exact Hi|done|]. intros m1 Hd1. wp_pure.
    eapply free_node_dropped; [apply Hd1|]. intros m2 Hd2. apply HQ.
    rewrite <- (app_nil_r (refs m 0 ind)). by eapply (dropped_trans m [] _ [ind] []).
  - eapply free_children_wp; [exact IH|done|exact Hi|done|]. intros m1 Hd1. wp_pure.
    eapply free_node_dropped; [apply Hd1|]. intros m2 Hd2. apply HQ.
    rewrite nodes_S by done. rewrite <- (app_nil_r (refs m (S l) ind)).
    eapply dropped_perm; [|eapply (dropped_trans m _ _ [ind] []); [exact Hd1|exact Hd2]].
    symmetry. apply Permutation_cons_append.
Qed.

(** ** Whole trees *)

(** What [pagetree_free] leaves of the struct: no page and no node, but the
    sharing mode of each direct entry as it was. *)
Definition cleared (pt : pagetree) : pagetree :=
  Pagetree (set_ent_page 0 <$> pt_direct pt) (replicate 4 0) (pt_pid pt) (pt_demand pt).

Lemma free_direct_wp m pt N R (Q : pagetree → pmem → Prop) :
  length (pt_direct pt) = 3%nat → refs_inv m N ((pt_direct pt ≫= ent_ref) ++ R) →
  (∀ m', dropped m [] (pt_direct pt ≫= ent_ref) N R m' →
     Q (Pagetree (set_ent_page 0 <$> pt_direct pt) (pt_indir pt) (pt_pid pt) (pt_demand pt)) m') →
  wp (free_direct_loop (Z.to_nat PAGETREE_DIRECT_ENTRIES) 0 pt) m Q.
Proof.
  destruct pt as [[|e0 [|e1 [|e2 [|]]]] ind pid dem]; try done. intros _ Hi HQ. csimpl in *.
  rewrite app_nil_r, <- !(assoc_L app) in *.
  change (Z.to_nat PAGETREE_DIRECT_ENTRIES) with 3%nat. cbn [free_direct_loop].
  unfold read_ent, write_ent, set_direct. wp_pure. eapply wp_deref; [done|]. wp_pure.
  eapply drop_ent_dropped; [exact Hi|]. intros m1 Hd1. wp_pure. eapply wp_deref; [done|]. wp_pure.
  eapply drop_ent_dropped; [apply Hd1|]. intros m2 Hd2. wp_pure. eapply wp_deref; [done|]. wp_pure.
  eapply drop_ent_dropped; [apply Hd2|]. intros m3 Hd3. wp_pure. apply HQ.
  eapply (dropped_trans m [] _ [] (ent_ref e1 ++ ent_ref e2)); [by rewrite <- (assoc_L app)|].
  by eapply (dropped_trans m1 [] _ [] _).
Qed.

Lemma indir_set_ne pt i j v : j ≠ i → indir (set_indir (Z.of_nat i) v pt) j = indir pt j.
Proof. intros Hne. unfold indir, set_indir. simpl. by rewrite Nat2Z.id, list_lookup_insert_ne. Qed.

Definition clear_from (pt : pagetree) (js : list nat) : pagetree :=
  foldl (λ pt j, set_indir (Z.of_nat j) 0 pt) pt js.

Lemma free_indir_loop_wp k i m pt N R (Q : pagetree → pmem → Prop) :
  (i + k = 4)%nat → length (pt_indir pt) = 4%nat →
  refs_inv m ((seq i k ≫= λ j, nodes m j (indir pt j)) ++ N) ((seq i k ≫= λ j, refs m j (indir pt j)) ++ R) →
  (∀ j, j ∈ seq i k → tree_ok m j (indir pt j)) →
  (∀ m', dropped m (seq i k ≫= λ j, nodes m j (indir pt j)) (seq i k ≫= λ j, refs m j (indir pt j)) N R m' →
     Q (clear_from pt (seq i k)) m') →
  wp (free_indir_loop k i pt) m Q.
Proof.
  revert i m pt N R Q. induction k as [|k IH]; intros i m pt N R Q Hik Hl Hi Ht HQ.
  { cbn [free_indir_loop]. wp_pure. apply HQ. by apply dropped_nil. }
  cbn [free_indir_loop seq] in *. csimpl in Hi. csimpl in HQ. rewrite <- !(assoc_L app) in Hi.
  wp_pure. eapply (wp_read_indir _ _ _ (indir pt i)).
  { split; [lia|]. rewrite Nat2Z.id. unfold indir.
    destruct (lookup_lt_is_Some_2 (pt_indir pt) i) as [v Hv]; [lia|]. by rewrite Hv. }
  wp_pure. eapply free_indirect_wp; [exact Hi|apply Ht; by left|]. intros m1 Hd1. wp_pure.
  set (pt1 := set_indir (Z.of_nat i) 0 pt).
  assert (Hj : ∀ j, j ∈ seq (S i) k → indir pt1 j = indir pt j ∧ same_pages (nodes m j (indir pt j)) m m1).
  { intros j Hj. split; [apply indir_set_ne; apply elem_of_seq in Hj; lia|].
    intros q Hq. apply (dr_keep _ _ _ _ _ _ Hd1). left. apply elem_of_app. left.
    apply list_elem_of_bind. by exists j. }
  assert (En : (seq (S i) k ≫= λ j, nodes m1 j (indir pt1 j)) = seq (S i) k ≫= λ j, nodes m j (indir pt j)).
  { apply bind_ext_elem. intros j Hjs. destruct (Hj j Hjs) as [-> Hsp]. by apply tree_ext. }
  assert (Er : (seq (S i) k ≫= λ j, refs m1 j (indir pt1 j)) = seq (S i) k ≫= λ j, refs m j (indir pt j)).
  { apply bind_ext_elem. intros j Hjs. destruct (Hj j Hjs) as [-> Hsp]. by apply tree_ext. }
  eapply (IH (S i) m1 pt1 N R); [lia|unfold pt1; simpl; by rewrite length_insert|rewrite En, Er; apply Hd1| |].
  - intros j Hjs. destruct (Hj j Hjs) as [-> Hsp]. apply (tree_ext m); [done|]. apply Ht. by right.
  - rewrite En, Er. intros m2 Hd2. apply HQ. by eapply dropped_trans.
Qed.

Lemma pagetree_free_wp m pt N R (Q : pagetree → pmem → Prop) :
  refs_inv m (pt_nodes m pt ++ N) (pt_refs m pt ++ R) → pt_ok m pt →
  (∀ m', dropped m (pt_nodes m pt) (pt_refs m pt) N R m' → Q (cleared pt) m') →
  wp (pagetree_free pt) m Q.
Proof.
  intros Hi Hok HQ. pose proof Hok as [Hd Hil Ht]. unfold pagetree_free. wp_pure.
  unfold pt_refs in Hi. rewrite <- (assoc_L app) in Hi.
  eapply free_direct_wp; [done|exact Hi|]. intros m1 Hd1.
  set (pt1 := Pagetree _ (pt_indir pt) _ _).
  assert (Hsame : same_pages (pt_nodes m pt) m m1).
  { intros q Hq. apply (dr_keep _ _ _ _ _ _ Hd1). left. apply elem_of_app. by left. }
  assert (Hlv : ∀ j, j ∈ levels → same_pages (nodes m j (indir pt j)) m m1).
  { intros j Hj q Hq. apply Hsame. rewrite (pt_nodes_split _ _ j), elem_of_app by done. by left. }
  assert (En : (levels ≫= λ j, nodes m1 j (indir pt1 j)) = pt_nodes m pt).
  { apply bind_ext_elem. intros j Hj. by apply tree_ext, Hlv. }
  assert (Er : (levels ≫= λ j, refs m1 j (indir pt1 j)) = levels ≫= λ j, refs m j (indir pt j)).
  { apply bind_ext_elem. intros j Hj. by apply tree_ext, Hlv. }
  eapply (free_indir_loop_wp 4 0 m1 pt1 N R); [done|done| | |].
  - change (seq 0 4) with levels. rewrite En, Er. apply Hd1.
  - intros j Hj. apply (tree_ext m); [by apply Hlv|by apply Ht].
  - change (seq 0 4) with levels. rewrite En, Er. intros m2 Hd2.
    replace (clear_from pt1 levels) with (cleared pt).
    + apply HQ. unfold pt_refs. by eapply (dropped_trans m [] _ (pt_nodes m pt)).
    + unfold cleared, pt1. destruct pt as [d [|i0 [|i1 [|i2 [|i3 [|]]]]] pid dem]; done.
Qed.
