(* ===== verification/PagetreeProps.v ===== *)
(** * Page trees: properties

    The properties of kern/kern/pagetree.c, and the two ways in which it can go
    wrong: a page put where it already is, and a tree that is used again after
    [pagetree_free]. *)
From S2P Require Import Prelude Machine Hashtable Ktypes Kmem PageAlloc Pagetree Supply PageRefs PagetreeSpec PagetreeOps PagetreeWhole PagetreeThms PagetreeFree.

(** ** The empty tree *)

Lemma init_indir dem pid i : indir (pagetree_init dem pid) i = 0.
Proof. by do 4 (destruct i as [|i]; [done|]). Qed.

Lemma pagetree_init_shape m dem pid :
  pt_nodes m (pagetree_init dem pid) = [] ∧ pt_refs m (pagetree_init dem pid) = [] ∧
  pt_ok m (pagetree_init dem pid) ∧ ∀ n, 0 ≤ n → pt_entry m (pagetree_init dem pid) n = null_ent.
Proof.
  split; [done|]. split; [done|]. split.
  - split; try done. intros i Hi. rewrite init_indir. apply tree_ok_null.
  - intros n Hn. unfold pt_entry. destruct (Z.ltb_spec n PAGETREE_DIRECT_ENTRIES).
    + by destruct (Z.to_nat n) as [|[|[|k]]].
    + destruct (level_of n) as [[i r]|]; [|done]. rewrite init_indir. apply walk_null.
Qed.

Lemma pagetree_init_inv m dem pid N R : refs_inv m N R → pt_inv m (pagetree_init dem pid) N R.
Proof.
  intros Hi. destruct (pagetree_init_shape m dem pid) as (Hn&Hr&Hok&He).
  split; [by rewrite Hn, Hr|done|]. intros n Hn0. by rewrite He.
Qed.

Module TreeExample.
(** The machine of [Machine2] with pages 3 and 5 in somebody's hands. *)
Lemma start : refs_inv Machine2.mem [page_addr 3; page_addr 5] [].
Proof.
  apply refs_inv_start; [apply Machine2.mem_inv|apply (bool_decide_unpack _); by vm_compute| |].
  - intros p Hp. apply elem_of_cons in Hp as [->|Hp]; [|apply list_elem_of_singleton in Hp as ->].
    + exists 3, zero_info. split; [split; [reflexivity|simpl; lia]|]. vm_compute. tauto.
    + exists 5, zero_info. split; [split; [reflexivity|simpl; lia]|]. vm_compute. tauto.
  - intros pn i Hi. apply elem_of_list_to_map_2 in Hi.
    repeat (apply elem_of_cons in Hi as [[= -> ->]|Hi]; [vm_compute; tauto|]).
    by apply not_elem_of_nil in Hi.
Qed.

(** An empty tree of CPU 0. *)
Definition tree : pagetree := pagetree_init true 0.
Lemma tree_inv N R : refs_inv Machine2.mem N R → pt_inv Machine2.mem tree N R.
Proof. apply pagetree_init_inv. Qed.

(** The tree and the memory after page 3 was put at index 100. *)
Definition tree1 : pagetree :=
  match pagetree_put_page tree 100 (page_addr 3) Machine2.mem with Ret (_, pt) _ => pt | Crash _ => tree end.
Definition mem1 : pmem :=
  match pagetree_put_page tree 100 (page_addr 3) Machine2.mem with Ret _ m => m | Crash _ => Machine2.mem end.
Lemma tree1_inv : pt_inv mem1 tree1 [page_addr 5] [].
Proof.
  assert (H : wp (pagetree_put_page tree 100 (page_addr 3)) Machine2.mem
                (λ res m', res.1 = 0 → pt_inv m' res.2 [page_addr 5] [])).
  { eapply (pagetree_put_page_wp Machine2.mem tree 100 (page_addr 3) [page_addr 5] [] 0);
      [exact (tree_inv _ _ start)|lia|reflexivity|done|done|]. intros m' pt' _ Hp _ _. apply Hp. }
  unfold tree1, mem1, wp in *.
  assert (E : match pagetree_put_page tree 100 (page_addr 3) Machine2.mem with
              | Ret x _ => x.1 = 0 | Crash _ => False end) by (vm_compute; reflexivity).
  destruct (pagetree_put_page tree 100 (page_addr 3) Machine2.mem) as [[r pt] m|f]; [|done]. by apply H.
Qed.
End TreeExample.

(** ** Properties *)

(** C4: [pagetree_put_page] writes one entry of the array.  On success entry
    [npage] holds the page, exclusively, every other entry is as before, the
    reference counts of all trees still agree with the references they hold, and
    no page that is still referenced changed its contents.  It fails with
    [-E_NO_SPACE] exactly past the capacity of the tree, and with [-E_NO_MEM],
    possible only when the entry did not exist yet and at most as many pages are free
    as there can be nodes on the way to it, it leaves the array as it was. *)
Theorem pagetree_put_page_correct m pt n page N R node :
  pt_inv m pt (handed page ++ N) R → 0 ≤ n → home_node (pm_conf m) (pt_pid pt) = Some node →
  wp (pagetree_put_page pt n page) m (λ res m',
    (res.1 = 0 ∧ n < pt_max ∧ put_post m pt n page N R m' res.2) ∨
    (res.1 = - E_NO_MEM ∧ n < pt_max ∧ (∀ pe, ¬ pos_at m pt n pe) ∧ few_free MAX_NODES m ∧
     pt_inv m' res.2 (handed page ++ N) R ∧ ∀ n', 0 ≤ n' → pt_entry m' res.2 n' = pt_entry m pt n') ∨
    (res.1 = - E_NO_SPACE ∧ pt_max ≤ n ∧ m' = m ∧ res.2 = pt)).
Proof.
  intros Hi Hn Hh. eapply pagetree_put_page_wp; [exact Hi|done|exact Hh|..]; simpl.
  - intros Hm. right. right. done.
  - intros m' pt' Hm Hno Hff G. right. left. split_and!; try done; apply G.
  - intros m' pt' Hm Hp _. left. done.
Qed.

Lemma pagetree_put_page_correct_witness :
  wp (pagetree_put_page TreeExample.tree 100 (page_addr 3)) Machine2.mem (λ res m',
    res.1 = 0 ∧ pe_page (pt_entry m' res.2 100) = page_addr 3 ∧ pt_nodes m' res.2 = [page_addr 2]).
Proof.
  assert (H : wp (pagetree_put_page TreeExample.tree 100 (page_addr 3)) Machine2.mem (λ res m',
     (res.1 = 0 ∧ 100 < pt_max ∧
      put_post Machine2.mem TreeExample.tree 100 (page_addr 3) [page_addr 5] [] m' res.2) ∨
     (res.1 = - E_NO_MEM ∧ 100 < pt_max ∧ (∀ pe, ¬ pos_at Machine2.mem TreeExample.tree 100 pe) ∧ few_free MAX_NODES Machine2.mem ∧
      pt_inv m' res.2 (handed (page_addr 3) ++ [page_addr 5]) [] ∧
      ∀ n', 0 ≤ n' → pt_entry m' res.2 n' = pt_entry Machine2.mem TreeExample.tree n') ∨
     (res.1 = - E_NO_SPACE ∧ pt_max ≤ 100 ∧ m' = Machine2.mem ∧ res.2 = TreeExample.tree))).
  { apply (pagetree_put_page_correct Machine2.mem TreeExample.tree 100 (page_addr 3) [page_addr 5] [] 0);
      [exact (TreeExample.tree_inv _ _ TreeExample.start)|lia|reflexivity]. }
  destruct (proj1 (wp_run _ _ _) H) as (res&m'&Hrun&_).
  unfold wp. vm_compute. repeat split; reflexivity.
Defined.

(** C3: [pagetree_get_page] returns the page of entry [npage].  A shared page
    that is to be written (or, for copy-on-read, read) is first replaced by a
    private page with the same contents; an empty entry of a demand-allocated tree
    gets a new page; any other entry is returned as it is, and if it exists the
    call does not fail and changes nothing.  In every case the other entries, the
    other trees and the contents of all other referenced pages are unchanged.
    [-E_NO_MEM] is returned, and the call panics, only when at most [MAX_NODES] pages
    are free, as many as the nodes on the way to an entry can take; it panics only for
    an empty entry of a demand-allocated tree. *)
Theorem pagetree_get_page_correct m pt n mode N R node :
  pt_inv m pt N R → 0 ≤ n < pt_max → home_node (pm_conf m) (pt_pid pt) = Some node →
  (is_shared (pt_entry m pt n) = true → mode ≠ page_excl) →
  wpx (pagetree_get_page pt n mode) m (get_page_post m pt n mode N R)
    (pe_page (pt_entry m pt n) = 0 ∧ pt_demand pt = true ∧ few_free MAX_NODES m).
Proof.
  intros Hi Hn Hh Hmode. eapply pagetree_get_page_wpx; [exact Hi|lia|exact Hh|done|lia|done].
Qed.

Lemma pagetree_get_page_correct_witness :
  ∃ m' pt', pagetree_get_page TreeExample.tree 1 page_shared_cow Machine2.mem = Ret (0, page_addr 2, pt') m' ∧
    get_page_post Machine2.mem TreeExample.tree 1 page_shared_cow [page_addr 3; page_addr 5] []
      (0, page_addr 2, pt') m'.
Proof.
  assert (H := pagetree_get_page_correct Machine2.mem TreeExample.tree 1 page_shared_cow
                 [page_addr 3; page_addr 5] [] 0
                 (TreeExample.tree_inv _ _ TreeExample.start)
                 (conj (Z.lt_le_incl 0 1 eq_refl) (eq_refl : 1 < pt_max)) eq_refl (λ E, ltac:(discriminate E))).
  unfold wpx in H.
  destruct (pagetree_get_page TreeExample.tree 1 page_shared_cow Machine2.mem) as [[[r p] pt'] m'|f] eqn:E.
  - exists m', pt'. assert (Er : r = 0 ∧ p = page_addr 2).
    { assert (E2 : match pagetree_get_page TreeExample.tree 1 page_shared_cow Machine2.mem with
                   | Ret x _ => x.1 = (0, page_addr 2) | Crash _ => False end) by (vm_compute; reflexivity).
      rewrite E in E2. simpl in E2. split; congruence. }
    destruct Er as [-> ->]. split; [reflexivity|exact H].
  - exfalso. assert (E2 : match pagetree_get_page TreeExample.tree 1 page_shared_cow Machine2.mem with
                   | Ret _ _ => True | Crash _ => False end) by (vm_compute; exact I).
    rewrite E in E2. exact E2.
Defined.

(** A page that is there and not shared is returned as it is. *)
Lemma get_page_existing m pt n N R node mode :
  pt_inv m pt N R → 0 ≤ n → home_node (pm_conf m) (pt_pid pt) = Some node →
  pe_page (pt_entry m pt n) ≠ 0 → is_shared (pt_entry m pt n) = false →
  pagetree_get_page pt n mode m = Ret (0, pe_page (pt_entry m pt n), pt) m.
Proof.
  intros Hi Hn Hh Hp Hsh. set (page := pe_page (pt_entry m pt n)) in *.
  assert (Hnc : needs_copy (pt_entry m pt n) mode = false).
  { unfold needs_copy. unfold is_shared in Hsh. apply orb_false_iff in Hsh as [-> ->]. done. }
  destruct (pos_of_page m pt n Hp) as [pe Hpe].
  assert (Hw : wpx (pagetree_get_page pt n mode) m (λ res m2, res = (0, page, pt) ∧ m2 = m) False).
  { eapply wpx_mono; [eapply (pagetree_get_page_wpx m pt n mode N R node (λ res m2, res = (0, page, pt) ∧ m2 = m));
      [done|done|done|by rewrite Hsh| |]|done|intros (H0&_); by destruct Hp].
    - intros Hmax. destruct Hp. unfold page, pt_entry. pose proof pt_max_val. unfold PAGETREE_DIRECT_ENTRIES.
      rewrite (proj2 (Z.ltb_ge _ _)) by lia.
      by rewrite (proj2 (level_of_none n ltac:(unfold PAGETREE_DIRECT_ENTRIES; lia))).
    - intros res m2 _ [m3 pt3 [Hor|Hor] _|m3 pt3 _ _ _ Hold|p m3 pt3 Hnc' _ _|p m3 pt3 _ H0 _ _ _].
      + congruence.
      + by destruct (Hor pe).
      + by destruct (Hold pe Hpe) as [-> ->].
      + congruence.
      + by destruct Hp. }
  unfold wpx in Hw. destruct (pagetree_get_page pt n mode m) as [res m2|f]; [|by destruct Hw].
  by destruct Hw as [-> ->].
Qed.

(** what was put is what is got: after a successful [pagetree_put_page] of a
    page, [pagetree_get_page] of the same index returns that page, in every mode,
    and changes nothing. *)
Theorem pagetree_put_get m pt n page N R node mode :
  pt_inv m pt (handed page ++ N) R → 0 ≤ n → page ≠ 0 →
  home_node (pm_conf m) (pt_pid pt) = Some node →
  wp (pagetree_put_page pt n page) m (λ res m',
    res.1 = 0 → pagetree_get_page res.2 n mode m' = Ret (0, page, res.2) m').
Proof.
  intros Hi Hn Hp Hh. eapply pagetree_put_page_wp; [exact Hi|done|exact Hh|..]; simpl; try done.
  intros m' pt' Hm (Hi'&_&Hpg&Hmd&_) (Hc&Hpid&_) _.
  rewrite <- Hpg. eapply get_page_existing; [exact Hi'|lia|by rewrite Hc, Hpid|by rewrite Hpg|].
  unfold is_shared. by rewrite Hmd.
Qed.

Lemma pagetree_put_get_witness :
  wp (pagetree_put_page TreeExample.tree 100 (page_addr 3)) Machine2.mem (λ res m',
    res.1 = 0 → pagetree_get_page res.2 100 page_excl m' = Ret (0, page_addr 3, res.2) m').
Proof.
  apply (pagetree_put_get Machine2.mem TreeExample.tree 100 (page_addr 3) [page_addr 5] [] 0 page_excl).
  - exact (TreeExample.tree_inv _ _ TreeExample.start).
  - lia.
  - vm_compute. discriminate.
  - reflexivity.
Defined.

(** What a freed tree leaves. *)
Lemma freed_all m pt N R m' :
  dropped m (pt_nodes m pt) (pt_refs m pt) N R m' →
  refs_inv m' N R ∧ pt_nodes m' (cleared pt) = [] ∧ pt_refs m' (cleared pt) = [] ∧
  (∀ q, q ∈ pt_nodes m pt → page_free_p m' q) ∧
  (∀ q, q ∈ pt_refs m pt → q ∈ R ∨ released m' q) ∧
  (∀ q, q ∈ N ∨ q ∈ R → pm_page m' !! q = pm_page m !! q).
Proof.
  intros [Hi' _ Hk Hn Hr _]. split_and!; try done.
  unfold pt_refs, cleared. simpl. rewrite app_nil_r.
  induction (pt_direct pt) as [|e l IH]; [done|]. csimpl. by rewrite IH.
Qed.

(** C18: [pagetree_free] gives everything back: every node of the tree is on a
    free list again, every page it referred to is free unless another tree or the
    hardware still uses it, and the pages of other trees keep their contents. *)
Theorem pagetree_free_complete m pt N R :
  pt_inv m pt N R →
  wp (pagetree_free pt) m (λ pt' m',
    refs_inv m' N R ∧ pt_nodes m' pt' = [] ∧ pt_refs m' pt' = [] ∧
    (∀ q, q ∈ pt_nodes m pt → page_free_p m' q) ∧
    (∀ q, q ∈ pt_refs m pt → q ∈ R ∨ released m' q) ∧
    (∀ q, q ∈ N ∨ q ∈ R → pm_page m' !! q = pm_page m !! q)).
Proof.
  intros [Hinv Hok _]. eapply pagetree_free_wp; [exact Hinv|done|]. intros m'. apply freed_all.
Qed.

Lemma pagetree_free_complete_witness :
  pt_nodes TreeExample.mem1 TreeExample.tree1 = [page_addr 2] ∧
  wp (pagetree_free TreeExample.tree1) TreeExample.mem1 (λ _ m', page_free_p m' (page_addr 2)).
Proof.
  assert (E : pt_nodes TreeExample.mem1 TreeExample.tree1 = [page_addr 2]) by (vm_compute; reflexivity).
  split; [exact E|].
  eapply wp_mono; [exact (pagetree_free_complete _ _ _ _ TreeExample.tree1_inv)|].
  intros pt' m' (_&_&_&Hn&_). apply Hn. rewrite E. left.
Defined.

(** ** Where the code goes wrong *)

(** [pagetree_copy] into a tree that was used before.  It calls
    [pagetree_free] on the destination first, which forgets the pages of the direct
    entries but keeps their sharing mode; an entry the source does not have is then
    a copy-on-write entry without a page.  The next access copies from the null
    page.  The run: put a page, copy the tree, copy an empty tree over the copy, get
    the page. *)
Theorem pagetree_copy_stale_mode :
  ('(_, t) ← pagetree_put_page TreeExample.tree 0 (page_addr 3);
   '(r1, _, d) ← pagetree_copy t TreeExample.tree page_shared_cow;
   '(r2, _, d) ← pagetree_copy TreeExample.tree d page_shared_cow;
   c_assert ((r1 =? 0) && (r2 =? 0));;
   pagetree_get_page d 0 page_shared_cow) Machine2.mem = Crash Undef.
Proof. vm_compute. reflexivity. Qed.

(** [pagetree_get_page] on an empty entry of a demand-allocated tree panics
    whenever no page is free, although it returns error codes for every other
    shortage of memory. *)
Theorem pagetree_demand_panics m pid n node N R :
  refs_inv m N R → 0 ≤ n < PAGETREE_DIRECT_ENTRIES → home_node (pm_conf m) pid = Some node →
  (∀ q, ¬ page_free_p m q) →
  pagetree_get_page (pagetree_init true pid) n page_shared_cow m = Crash Panic.
Proof.
  intros Hi Hn Hh Hno. set (pt := pagetree_init true pid).
  assert (Hpt : pt_inv m pt N R) by (by apply pagetree_init_inv).
  assert (He : pt_entry m pt n = null_ent) by (apply pagetree_init_shape; lia).
  assert (Hpos : pos_at m pt n (Direct n)) by (unfold pos_at; by rewrite (proj2 (Z.ltb_lt _ _)) by lia).
  assert (Hmax : n < pt_max) by (rewrite pt_max_val; unfold PAGETREE_DIRECT_ENTRIES in Hn; lia).
  assert (Hw : wpx (pagetree_get_page pt n page_shared_cow) m (λ _ _, False) True).
  { eapply wpx_mono; [eapply (pagetree_get_page_wpx m pt n page_shared_cow N R node (λ _ _, False) Hpt)|done|done];
      [lia|exact Hh|by rewrite He|lia|].
    intros res' m2 _ [? ? [Hc|Hc]|? ? _ [Hc|Hc]|? ? ? Hc|p m3 pt3 _ _ _ HF _]; try (rewrite ?He in Hc; done).
    - by apply (Hc (Direct n)).
    - destruct HF as (_&_&_&_&Hf&_). by apply (Hno p). }
  unfold wpx in Hw. destruct (pagetree_get_page pt n page_shared_cow m) as [res m'|f]; [done|].
  by destruct Hw as [-> _].
Qed.

Module Exhausted.
(** The machine of [Machine2] without a free page. *)
Definition mem : pmem :=
  PMem Machine2.conf (list_to_map ((λ n, (n, [])) <$> seqZ 0 16)) ∅ 0
    (list_to_map ((λ pn, (pn, zero_info)) <$> seqZ 0 6))
    (list_to_map ((λ pn, (page_addr pn, PgJunk)) <$> seqZ 0 6)).
Lemma mem_refs : refs_inv mem [] [].
Proof.
  apply refs_inv_start; [apply alloc_invb_sound; vm_compute; reflexivity|apply NoDup_nil_2| |].
  - by intros p ?%not_elem_of_nil.
  - intros pn i Hi. apply elem_of_list_to_map_2, list_elem_of_fmap in Hi as (x&[= -> ->]&_). done.
Qed.
Lemma none_free q : ¬ page_free_p mem q.
Proof.
  intros (pn&i&_&Hi&Hf). apply elem_of_list_to_map_2, list_elem_of_fmap in Hi as (x&[= -> ->]&_). done.
Qed.
End Exhausted.

Lemma pagetree_demand_panics_witness :
  pagetree_get_page (pagetree_init true 1) 2 page_shared_cow Exhausted.mem = Crash Panic.
Proof.
  apply (pagetree_demand_panics Exhausted.mem 1 2 1 [] [] Exhausted.mem_refs).
  - unfold PAGETREE_DIRECT_ENTRIES. lia.
  - reflexivity.
  - exact Exhausted.none_free.
Defined.
