(* ===== verification/Mcs.v ===== *)
(** * Queue locks (kern/arch/amd64/mcs.h)

    The MCS lock: a CPU that wants the lock appends its own node to a queue with one
    atomic exchange and then spins on that node; the holder passes the lock on by
    clearing the flag in the node of its successor.  On top of it the reader-writer
    lock that guards shares, in which only writers queue.

    A step is one access to shared memory by one CPU, in any interleaving, with
    sequentially consistent memory.  The queue is nowhere in memory as such: between
    the exchange and the store that links it to its predecessor a CPU is in the queue
    and not reachable.  The invariant is the existence of that queue. *)
From S2P Require Import Prelude Machine.

Module Mcs.
Record qnode := Qnode { next : option nat; locked : bool }.

(** The places of a CPU in [mcs_lock] and [mcs_unlock]:
    [MNext] before [mynode->next = 0], [MXchg] before [fetch_and_store], [MSet] before
    [mynode->locked = 1], [MLink] before [predecessor->next = mynode], [MSpin] in the
    loop on [mynode->locked]; [MTest] before the test of [mynode->next], [MCas] before
    [cmp_and_swap], [MWait] in the loop on [mynode->next], [MGrant] before
    the load of [mynode->next], [MStore] before the store [mynode->next->locked = 0]. *)
Inductive pc := MIdle | MNext | MXchg | MSet (p : nat) | MLink (p : nat) | MSpin | MHeld
              | MTest | MCas | MWait | MGrant | MStore (j : nat).

(** [struct mcslock]: [v] points to the last node of the queue; node and place of each
    CPU. *)
Record state := State { v : option nat; nodes : list qnode; cpus : list pc }.

Definition set_next (n : option nat) (q : qnode) : qnode := Qnode n (locked q).
Definition set_locked (b : bool) (q : qnode) : qnode := Qnode (next q) b.
(** CPU [i] goes to [p]. *)
Definition go (i : nat) (p : pc) (s : state) : state := State (v s) (nodes s) (<[i := p]> (cpus s)).
Definition set_v (x : option nat) (s : state) : state := State x (nodes s) (cpus s).
Definition upd_node (i : nat) (f : qnode → qnode) (s : state) : state := State (v s) (alter f i (nodes s)) (cpus s).

Definition mcs_init (n : nat) : state := State None (replicate n (Qnode None false)) (replicate n MIdle).

(** One step of CPU [i]. *)
Inductive mcs_step (i : nat) : state → state → Prop :=
| lock s : cpus s !! i = Some MIdle → mcs_step i s (go i MNext s)
| clear s : cpus s !! i = Some MNext → mcs_step i s (go i MXchg (upd_node i (set_next None) s))
| xchg_free s : cpus s !! i = Some MXchg → v s = None → mcs_step i s (go i MHeld (set_v (Some i) s))
| xchg_busy s p : cpus s !! i = Some MXchg → v s = Some p → mcs_step i s (go i (MSet p) (set_v (Some i) s))
| set_flag s p : cpus s !! i = Some (MSet p) → mcs_step i s (go i (MLink p) (upd_node i (set_locked true) s))
| link s p : cpus s !! i = Some (MLink p) → mcs_step i s (go i MSpin (upd_node p (set_next (Some i)) s))
| spin s n : cpus s !! i = Some MSpin → nodes s !! i = Some n → locked n = true → mcs_step i s s
| got s n : cpus s !! i = Some MSpin → nodes s !! i = Some n → locked n = false → mcs_step i s (go i MHeld s)
| unlock s : cpus s !! i = Some MHeld → mcs_step i s (go i MTest s)
| test_none s n : cpus s !! i = Some MTest → nodes s !! i = Some n → next n = None → mcs_step i s (go i MCas s)
| test_some s n j : cpus s !! i = Some MTest → nodes s !! i = Some n → next n = Some j → mcs_step i s (go i MGrant s)
| cas_ok s : cpus s !! i = Some MCas → v s = Some i → mcs_step i s (go i MIdle (set_v None s))
| cas_fail s : cpus s !! i = Some MCas → v s ≠ Some i → mcs_step i s (go i MWait s)
| wait s n : cpus s !! i = Some MWait → nodes s !! i = Some n → next n = None → mcs_step i s s
| waited s n j : cpus s !! i = Some MWait → nodes s !! i = Some n → next n = Some j → mcs_step i s (go i MGrant s)
| load s n j : cpus s !! i = Some MGrant → nodes s !! i = Some n → next n = Some j → mcs_step i s (go i (MStore j) s)
| grant s j : cpus s !! i = Some (MStore j) → mcs_step i s (go i MIdle (upd_node j (set_locked false) s)).

(** A step of any CPU. *)
Definition step (s s' : state) : Prop := ∃ i, mcs_step i s s'.

(** The next step of CPU [i], computed. *)
Definition exec (i : nat) (s : state) : option state :=
  match cpus s !! i, nodes s !! i with
  | Some p, Some n =>
      match p with
      | MIdle => Some (go i MNext s)
      | MNext => Some (go i MXchg (upd_node i (set_next None) s))
      | MXchg => Some (go i (match v s with None => MHeld | Some p => MSet p end) (set_v (Some i) s))
      | MSet p => Some (go i (MLink p) (upd_node i (set_locked true) s))
      | MLink p => Some (go i MSpin (upd_node p (set_next (Some i)) s))
      | MSpin => Some (if locked n then s else go i MHeld s)
      | MHeld => Some (go i MTest s)
      | MTest => Some (go i (match next n with None => MCas | Some _ => MGrant end) s)
      | MCas => Some (if decide (v s = Some i) then go i MIdle (set_v None s) else go i MWait s)
      | MWait => Some (match next n with None => s | Some _ => go i MGrant s end)
      | MGrant => match next n with None => None | Some j => Some (go i (MStore j) s) end
      | MStore j => Some (go i MIdle (upd_node j (set_locked false) s))
      end
  | _, _ => None
  end.

Lemma exec_step i s s' : exec i s = Some s' → mcs_step i s s'.
Proof.
  unfold exec. destruct (cpus s !! i) as [p|] eqn:Hp; [|done]. destruct (nodes s !! i) as [n|] eqn:Hn; [|done].
  destruct p; repeat case_match; intros; simplify_eq; by econstructor.
Qed.

(** ** The invariant *)

(** In the queue, and owning the lock (up to the last write of [mcs_unlock]). *)
Definition queued (p : pc) : bool := match p with MIdle | MNext | MXchg => false | _ => true end.
Definition owns (p : pc) : bool := match p with MHeld | MTest | MCas | MWait | MGrant | MStore _ => true | _ => false end.

(** What a CPU sees: its place, the link of a node, the flag of a node. *)
Definition at_ (s : state) (i : nat) : option pc := cpus s !! i.
Definition nx (s : state) (a : nat) : option nat := nodes s !! a ≫= next.
Definition lk (s : state) (a : nat) : option bool := locked <$> nodes s !! a.

(** [b] is behind [a] in the queue. *)
Definition behind (s : state) (a b : nat) : Prop :=
  (at_ s b = Some (MSet a) ∧ nx s a = None) ∨
  (at_ s b = Some (MLink a) ∧ nx s a = None ∧ lk s b = Some true) ∨
  (at_ s b = Some MSpin ∧ nx s a = Some b ∧ lk s b = Some true).
Definition chain (s : state) (q : list nat) : Prop :=
  (∀ k a b, q !! k = Some a → q !! S k = Some b → behind s a b) ∧ (∀ c, last q = Some c → nx s c = None).
(** Past the test of [mynode->next] the link is set, and the node it points to is the
    one released. *)
Definition ready (p : pc) (x : option nat) : Prop := match p with MGrant => x ≠ None | MStore j => x = Some j | _ => True end.
(** The first of the queue owns the lock or has been granted it. *)
Definition head_ok (s : state) (q : list nat) : Prop :=
  match q with
  | [] => True
  | h :: _ => ∃ p, at_ s h = Some p ∧ (owns p = true ∨ p = MSpin ∧ lk s h = Some false) ∧ ready p (nx s h)
  end.

Record inv (s : state) (q : list nat) : Prop := Inv {
  i_len : length (nodes s) = length (cpus s);
  i_nodup : NoDup q;
  i_last : last q = v s;
  i_queued : ∀ i p, at_ s i = Some p → i ∈ q ↔ queued p = true;
  i_range : ∀ i, i ∈ q → is_Some (at_ s i);
  i_head : head_ok s q;
  i_chain : chain s q;
  i_clear : ∀ i, at_ s i = Some MXchg → nx s i = None;
}.

(** ** Updates *)
Lemma at_go s i p j : is_Some (at_ s i) → at_ (go i p s) j = if decide (j = i) then Some p else at_ s j.
Proof.
  intros Hi%lookup_lt_is_Some. unfold at_, go. cbn. case_decide as Hd; [subst; by apply list_lookup_insert_eq|].
  by apply list_lookup_insert_ne.
Qed.
Lemma nx_go s i p j : nx (go i p s) j = nx s j.
Proof. done. Qed.
Lemma lk_go s i p j : lk (go i p s) j = lk s j.
Proof. done. Qed.
Lemma nx_next s i x j : is_Some (nodes s !! i) → nx (upd_node i (set_next x) s) j = if decide (j = i) then x else nx s j.
Proof.
  intros [n Hn]. unfold nx, upd_node. cbn. case_decide as Hd; [subst; rewrite list_lookup_alter_eq, Hn; done|].
  by rewrite list_lookup_alter_ne.
Qed.
Lemma lk_next s i x j : lk (upd_node i (set_next x) s) j = lk s j.
Proof.
  unfold lk, upd_node. cbn. destruct (decide (j = i)) as [->|]; [rewrite list_lookup_alter_eq|by rewrite list_lookup_alter_ne].
  by destruct (nodes s !! i).
Qed.
Lemma nx_locked s i b j : nx (upd_node i (set_locked b) s) j = nx s j.
Proof.
  unfold nx, upd_node. cbn. destruct (decide (j = i)) as [->|]; [rewrite list_lookup_alter_eq|by rewrite list_lookup_alter_ne].
  by destruct (nodes s !! i).
Qed.
Lemma lk_locked s i b j : is_Some (nodes s !! i) → lk (upd_node i (set_locked b) s) j = if decide (j = i) then Some b else lk s j.
Proof.
  intros [n Hn]. unfold lk, upd_node. cbn. case_decide as Hd; [subst; rewrite list_lookup_alter_eq, Hn; done|].
  by rewrite list_lookup_alter_ne.
Qed.
Lemma at_upd s i f j : at_ (upd_node i f s) j = at_ s j.
Proof. done. Qed.
Lemma has_node s i : length (nodes s) = length (cpus s) → is_Some (at_ s i) → is_Some (nodes s !! i).
Proof. intros Hl Hi%lookup_lt_is_Some. apply lookup_lt_is_Some. by rewrite Hl. Qed.

(** ** The queue *)
Lemma behind_ext s s' a b : at_ s' b = at_ s b → lk s' b = lk s b → nx s' a = nx s a → behind s a b → behind s' a b.
Proof. unfold behind. by intros -> -> ->. Qed.
Lemma behind_waits s a b : behind s a b → ∃ p, at_ s b = Some p ∧ owns p = false ∧ (p = MSpin → lk s b = Some true).
Proof. intros [[-> _]|[(-> & _ & _)|(-> & _ & ?)]]; eexists; by split_and!. Qed.

Lemma has_pred (q : list nat) b k : q !! S k = Some b → ∃ a, q !! k = Some a.
Proof. intros Hb. apply lookup_lt_is_Some. apply lookup_lt_Some in Hb. lia. Qed.
(** A CPU of the queue is its first or waits. *)
Lemma head_or_waits s q i p :
  inv s q → at_ s i = Some p → queued p = true →
  (∃ r, q = i :: r) ∨ (owns p = false ∧ (p = MSpin → lk s i = Some true) ∧ ∃ k a, q !! k = Some a ∧ q !! S k = Some i ∧ behind s a i).
Proof.
  intros Hi Hp Hq. apply (i_queued _ _ Hi _ _ Hp) in Hq. apply list_elem_of_lookup in Hq as [[|k] Hk].
  - left. destruct q as [|x r]; [done|]. injection Hk as ->. by exists r.
  - right. destruct (has_pred _ _ _ Hk) as [a Ha]. pose proof (proj1 (i_chain _ _ Hi) _ _ _ Ha Hk) as Hb.
    destruct (behind_waits _ _ _ Hb) as (p' & Hp' & Ho & Hs). rewrite Hp in Hp'. injection Hp' as <-. eauto 10.
Qed.
Lemma owner_first s q i p :
  inv s q → at_ s i = Some p → owns p = true ∨ p = MSpin ∧ lk s i = Some false → ∃ r, q = i :: r.
Proof.
  intros Hi Hp Ho. assert (Hq : queued p = true) by (destruct Ho as [Ho|[-> _]]; [by destruct p|done]).
  destruct (head_or_waits _ _ _ _ Hi Hp Hq) as [?|(Ho' & Hs & _)]; [done|]. exfalso.
  destruct Ho as [Ho|[-> Hlk]]; [congruence|]. rewrite Hs in Hlk; done.
Qed.

(** A change that concerns one CPU outside the queue. *)
Lemma inv_outside s s' q i p' :
  inv s q → i ∉ q → length (nodes s') = length (cpus s') → v s' = v s →
  at_ s' i = Some p' → queued p' = false → (p' = MXchg → nx s' i = None) →
  (∀ j, j ≠ i → at_ s' j = at_ s j ∧ nx s' j = nx s j ∧ lk s' j = lk s j) → inv s' q.
Proof.
  intros [Hl Hnd Hv Hq Hr Hh [Hc Hla] Hx] Hni Hlen Hv' Hp' Hqp Hcl Ho.
  assert (Hin : ∀ j, j ∈ q → j ≠ i) by (by intros j Hj ->). split; [done|done|by rewrite Hv'| | | | |].
  - intros j p Hp. destruct (decide (j = i)) as [->|Hne].
    + rewrite Hp' in Hp. injection Hp as <-. rewrite Hqp. done.
    + destruct (Ho j Hne) as (E & _). rewrite E in Hp. by apply Hq.
  - intros j Hj. destruct (Ho j (Hin j Hj)) as (-> & _). by apply Hr.
  - destruct q as [|h r]; [done|]. destruct (Ho h) as (E1 & E2 & E3); [apply Hin; by left|]. unfold head_ok. by rewrite E1, E2, E3.
  - split.
    + intros k a b Ha Hb. destruct (Ho a) as (_ & E1 & _); [eapply Hin, list_elem_of_lookup_2, Ha|].
      destruct (Ho b) as (E2 & _ & E3); [eapply Hin, list_elem_of_lookup_2, Hb|]. by apply (behind_ext s); [..|eapply Hc].
    + intros c Hc'. destruct (Ho c) as (_ & -> & _); [|by apply Hla]. eapply Hin. by apply last_Some_elem_of.
  - intros j Hj. destruct (decide (j = i)) as [->|Hne]; [rewrite Hp' in Hj; injection Hj as ->; by apply Hcl|].
    destruct (Ho j Hne) as (E1 & E2 & _). rewrite E1 in Hj. rewrite E2. by apply Hx.
Qed.

(** The owner goes on. *)
Lemma inv_owner s q i p p' :
  inv s q → at_ s i = Some p → owns p = true ∨ p = MSpin ∧ lk s i = Some false →
  owns p' = true → ready p' (nx s i) → inv (go i p' s) q.
Proof.
  intros Hi Hp Ho Ho' Hg. destruct (owner_first _ _ _ _ Hi Hp Ho) as [r ->]. pose proof Hi as [Hl Hnd Hv Hq Hr Hh [Hc Hla] Hx].
  assert (Hat : ∀ j, at_ (go i p' s) j = if decide (j = i) then Some p' else at_ s j) by (intros j; by apply at_go; eexists).
  split; [cbn; by rewrite length_insert|done|done| | | | |].
  - intros j p0. rewrite Hat. case_decide as Hd; [subst; intros [= <-]|by apply Hq].
    split; [by destruct p'|]. intros _. by left.
  - intros j Hj. rewrite Hat. case_decide; [by eexists|by apply Hr].
  - exists p'. rewrite Hat, decide_True by done. split; [done|]. split; [by left|]. by rewrite nx_go.
  - split; [|done]. intros k a b Ha Hb. apply (behind_ext s); [|done|done|by eapply Hc]. rewrite Hat, decide_False; [done|].
    intros ->. cbn in Hb. apply NoDup_cons in Hnd as [Hnd _]. by apply Hnd, list_elem_of_lookup_2 with k.
  - intros j. rewrite Hat. case_decide as Hd; [intros [= ->]; done|by apply Hx].
Qed.

(** A CPU behind [a] advances. *)
Lemma inv_waiter s s' q i a k :
  inv s q → q !! k = Some a → q !! S k = Some i → length (nodes s') = length (cpus s') → v s' = v s →
  (∃ p', at_ s' i = Some p' ∧ queued p' = true) → behind s' a i →
  (∀ j, j ≠ i → at_ s' j = at_ s j ∧ lk s' j = lk s j) → (∀ j, j ≠ a → nx s' j = nx s j) →
  (∀ p, at_ s a = Some p → ready p (nx s a) → ready p (nx s' a)) → inv s' q.
Proof.
  intros Hi Ha Hb Hlen Hv' (p' & Hp' & Hqp) Hbeh Ho Hnx Hg. pose proof Hi as [Hl Hnd Hv Hq Hr Hh [Hc Hla] Hx].
  assert (Hai : a ≠ i).
  { intros ->. assert (k = S k) by (eapply NoDup_lookup; [exact Hnd|done|done]). lia. }
  split; [done|done|by rewrite Hv'| | | | |].
  - intros j p Hp. destruct (decide (j = i)) as [->|Hne].
    + rewrite Hp' in Hp. injection Hp as <-. rewrite Hqp. split; [done|]. intros _. by eapply list_elem_of_lookup_2.
    + destruct (Ho j Hne) as [E _]. rewrite E in Hp. by apply Hq.
  - intros j Hj. destruct (decide (j = i)) as [->|Hne]; [by eexists|]. destruct (Ho j Hne) as [-> _]. by apply Hr.
  - destruct q as [|h r]; [done|]. destruct Hh as (p & Hp & Hpo & Hpg).
    assert (Hhi : h ≠ i).
    { intros ->. assert (0%nat = S k) by (eapply NoDup_lookup; [exact Hnd|done|done]). lia. }
    destruct (Ho h Hhi) as [E1 E2]. exists p. rewrite E1, E2. split; [done|]. split; [done|].
    destruct (decide (h = a)) as [->|Hne]; [by apply Hg|]. by rewrite Hnx.
  - split.
    + intros k' x y Hx' Hy. destruct (decide (y = i)) as [->|Hne].
      * assert (S k' = S k) as [= ->] by (eapply NoDup_lookup; [exact Hnd|done|done]). by rewrite Ha in Hx'; injection Hx' as <-.
      * destruct (Ho y Hne) as [E1 E2]. apply (behind_ext s); [done|done| |by eapply Hc].
        apply Hnx. intros ->. assert (k' = k) as -> by (eapply NoDup_lookup; [exact Hnd|done|done]). congruence.
    + intros c Hlc. destruct (decide (c = a)) as [->|Hne]; [|rewrite Hnx by done; by apply Hla]. exfalso.
      rewrite last_lookup in Hlc. assert (pred (length q) = k) by (eapply NoDup_lookup; [exact Hnd|done|done]).
      apply lookup_lt_Some in Hb. lia.
  - intros j Hj. destruct (decide (j = i)) as [->|Hne]; [rewrite Hp' in Hj; injection Hj as ->; done|].
    destruct (Ho j Hne) as [E1 _]. rewrite E1 in Hj. rewrite Hnx; [by apply Hx|]. intros ->.
    pose proof (i_queued _ _ Hi _ _ Hj) as Hja. apply list_elem_of_lookup_2 in Ha. apply Hja in Ha. done.
Qed.

(** The exchange puts a CPU at the end of the queue. *)
Lemma inv_enter s q i p' :
  inv s q → at_ s i = Some MXchg →
  match v s with None => p' = MHeld | Some p => p' = MSet p end → inv (go i p' (set_v (Some i) s)) (q ++ [i]).
Proof.
  intros Hi Hp Hv'. pose proof Hi as [Hl Hnd Hv Hq Hr Hh [Hc Hla] Hx].
  assert (Hni : i ∉ q) by (intros Hin; by apply (Hq _ _ Hp) in Hin). set (s' := go i p' (set_v (Some i) s)).
  assert (Hat : ∀ j, at_ s' j = if decide (j = i) then Some p' else at_ s j).
  { intros j. apply (at_go (set_v (Some i) s)). by eexists. }
  assert (Hqp : queued p' = true) by (by destruct (v s); subst p').
  assert (Hold : ∀ j, j ∈ q → at_ s' j = at_ s j) by (intros j Hj; rewrite Hat, decide_False; [done|by intros ->]).
  split; [cbn; by rewrite length_insert| |by rewrite last_snoc| | | | |].
  - apply NoDup_app. split_and!; [done| |apply NoDup_singleton]. intros x Hxq ->%list_elem_of_singleton. done.
  - intros j p0. rewrite Hat, elem_of_app, list_elem_of_singleton. case_decide as Hd; [subst j; intros [= <-]; by rewrite Hqp; split; [|right]|].
    intros Hj. rewrite (Hq _ _ Hj). tauto.
  - intros j. rewrite elem_of_app, list_elem_of_singleton, Hat. intros [Hj| ->]; [case_decide; [by eexists|by apply Hr]|by rewrite decide_True].
  - destruct q as [|h r]; cbn.
    + exists p'. rewrite Hat, decide_True by done. rewrite <- Hv in Hv'. cbn in Hv'. subst p'. split; [done|]. by split; [left|].
    + destruct Hh as (p & Hph & Hpo & Hpg). exists p. rewrite Hold by by left. by split_and!.
  - split.
    + intros k a b Ha Hb. apply lookup_app_Some in Hb as [Hb|[Hlb Hb]].
      * assert (Ha' : q !! k = Some a).
        { rewrite lookup_app_l in Ha; [done|]. apply lookup_lt_Some in Hb. lia. }
        apply (behind_ext s); [|done|done|by eapply Hc]. apply Hold. by eapply list_elem_of_lookup_2.
      * assert (Hk : S k = length q) by (destruct (S k - length q)%nat eqn:E; [lia|done]).
        assert (Hla' : last q = Some a).
        { rewrite last_lookup. rewrite lookup_app_l in Ha by lia. by replace (pred (length q)) with k by lia. }
        rewrite Hk, Nat.sub_diag in Hb. injection Hb as <-. rewrite Hv in Hla'. rewrite Hla' in Hv'. subst p'. left.
        rewrite Hat, decide_True by done. split; [done|]. apply (Hla a). by rewrite Hv.
    + intros c. rewrite last_snoc. intros [= <-]. by apply Hx.
  - intros j. rewrite Hat. case_decide as Hd; [intros [= ->]; by destruct (v s)|]. apply Hx.
Qed.

(** The owner leaves; the next CPU, if any, has been granted the lock. *)
Lemma inv_leave s s' r i :
  inv s (i :: r) → length (nodes s') = length (cpus s') → v s' = last r →
  at_ s' i = Some MIdle → (∀ j, j ≠ i → at_ s' j = at_ s j) → (∀ j, nx s' j = nx s j) →
  (∀ j, j ∉ take 1 r → lk s' j = lk s j) → head_ok s' r → inv s' r.
Proof.
  intros [Hl Hnd Hv Hq Hr Hh [Hc Hla] Hx] Hlen Hv' Hp' Hat Hnx Hlk Hh'. apply NoDup_cons in Hnd as [Hni Hnd].
  split; [done|done|done| | |done| |].
  - intros j p Hp. destruct (decide (j = i)) as [->|Hne]; [rewrite Hp' in Hp; by injection Hp as <-|].
    rewrite Hat in Hp by done. rewrite <- (Hq _ _ Hp), elem_of_cons. tauto.
  - intros j Hj. rewrite Hat by (by intros ->). apply Hr. by right.
  - split.
    + intros k a b Ha Hb. apply (behind_ext s); [apply Hat| |apply Hnx|by apply (Hc (S k))].
      * intros ->. by apply Hni, list_elem_of_lookup_2 with (S k).
      * apply Hlk. intros Hbr. destruct r as [|x r']; [done|]. change (take 1 (x :: r')) with [x] in Hbr. apply list_elem_of_singleton in Hbr as ->.
        assert (0%nat = S k) by (eapply NoDup_lookup; [exact Hnd|done|done]). lia.
    + intros c Hlc. rewrite Hnx. apply Hla. destruct r; [done|]. by rewrite last_cons_cons.
  - intros j Hj. destruct (decide (j = i)) as [->|Hne]; [congruence|]. rewrite Hat in Hj by done. rewrite Hnx. by apply Hx.
Qed.

Lemma at_go_same s i p : is_Some (at_ s i) → at_ (go i p s) i = Some p.
Proof. intros Hi. by rewrite at_go, decide_True. Qed.
Lemma at_go_other s i p j : is_Some (at_ s i) → j ≠ i → at_ (go i p s) j = at_ s j.
Proof. intros Hi Hj. by rewrite at_go, decide_False. Qed.

(** The remaining steps, one by one. *)
Lemma inv_clear s q i : inv s q → at_ s i = Some MNext → inv (go i MXchg (upd_node i (set_next None) s)) q.
Proof.
  intros Hi Hp. assert (His : is_Some (at_ s i)) by (by eexists). assert (Hn := has_node s i (i_len _ _ Hi) His).
  eapply (inv_outside s _ q i MXchg); [done| |cbn; rewrite length_insert, length_alter; apply Hi|done|by apply at_go_same|done| |].
  - intros Hin. by apply (i_queued _ _ Hi _ _ Hp) in Hin.
  - intros _. rewrite nx_go, nx_next by done. by rewrite decide_True.
  - intros j Hj. rewrite at_go_other by done. split; [done|]. rewrite nx_go, lk_go, nx_next, lk_next, decide_False by done. done.
Qed.
Lemma inv_set_flag s q i p : inv s q → at_ s i = Some (MSet p) → inv (go i (MLink p) (upd_node i (set_locked true) s)) q.
Proof.
  intros Hi Hp. assert (His : is_Some (at_ s i)) by (by eexists). assert (Hn := has_node s i (i_len _ _ Hi) His).
  destruct (head_or_waits s q i (MSet p) Hi Hp eq_refl) as [[r ->]|(_ & _ & k & a & Ha & Hk & Hb)].
  { destruct (i_head _ _ Hi) as (p' & Hp' & [Ho|[-> _]] & _); rewrite Hp in Hp'; simplify_eq; done. }
  assert (a = p ∧ nx s a = None) as [-> Hnx].
  { destruct Hb as [[E ?]|[(E & _)|(E & _)]]; rewrite Hp in E; by simplify_eq. }
  eapply (inv_waiter s _ q i p k); [done|done|done|cbn; rewrite length_insert, length_alter; apply Hi|done| | | | |].
  - exists (MLink p). by rewrite at_go_same.
  - right; left. rewrite at_go_same, nx_go, lk_go, nx_locked, lk_locked, decide_True by done. done.
  - intros j Hj. rewrite at_go_other, lk_go, lk_locked, decide_False by done. done.
  - intros j _. by rewrite nx_go, nx_locked.
  - intros p' _. by rewrite nx_go, nx_locked.
Qed.
Lemma inv_link s q i p : inv s q → at_ s i = Some (MLink p) → inv (go i MSpin (upd_node p (set_next (Some i)) s)) q.
Proof.
  intros Hi Hp. assert (His : is_Some (at_ s i)) by (by eexists).
  destruct (head_or_waits s q i (MLink p) Hi Hp eq_refl) as [[r ->]|(_ & _ & k & a & Ha & Hk & Hb)].
  { destruct (i_head _ _ Hi) as (p' & Hp' & [Ho|[-> _]] & _); rewrite Hp in Hp'; simplify_eq; done. }
  assert (a = p ∧ nx s a = None ∧ lk s i = Some true) as (-> & Hnx & Hlk).
  { destruct Hb as [[E ?]|[(E & ? & ?)|(E & _)]]; rewrite Hp in E; by simplify_eq. }
  assert (Hn : is_Some (nodes s !! p)).
  { apply has_node; [apply Hi|]. apply (i_range _ _ Hi). by eapply list_elem_of_lookup_2. }
  eapply (inv_waiter s _ q i p k); [done|done|done|cbn; rewrite length_insert, length_alter; apply Hi|done| | | | |].
  - exists MSpin. by rewrite at_go_same.
  - right; right. rewrite at_go_same, nx_go, lk_go, nx_next, lk_next, decide_True by done. done.
  - intros j Hj. rewrite at_go_other, lk_go, lk_next by done. done.
  - intros j Hj. rewrite nx_go, nx_next, decide_False by done. done.
  - intros p' _. rewrite Hnx. by destruct p'.
Qed.
Lemma inv_cas s q i : inv s q → at_ s i = Some MCas → v s = Some i → q = [i] ∧ inv (go i MIdle (set_v None s)) [].
Proof.
  intros Hi Hp Hv. assert (His : is_Some (at_ s i)) by (by eexists).
  destruct (owner_first s q i MCas Hi Hp) as [r ->]; [by left|]. assert (r = []) as ->.
  { destruct r as [|x r]; [done|]. pose proof (i_last _ _ Hi) as Hla. rewrite Hv in Hla. pose proof (i_nodup _ _ Hi) as Hnd.
    apply NoDup_cons in Hnd as [Hni _]. destruct Hni. rewrite last_cons_cons in Hla. by apply last_Some_elem_of. }
  split; [done|]. eapply (inv_leave s _ [] i); [done|cbn; rewrite length_insert; apply Hi|done|by apply (at_go_same (set_v None s))| |done|done|done].
  intros j Hj. by apply (at_go_other (set_v None s)).
Qed.
Lemma inv_grant s q i j : inv s q → at_ s i = Some (MStore j) →
  ∃ r, q = i :: j :: r ∧ inv (go i MIdle (upd_node j (set_locked false) s)) (j :: r).
Proof.
  intros Hi Hp. assert (His : is_Some (at_ s i)) by (by eexists).
  destruct (owner_first s q i (MStore j) Hi Hp) as [r ->]; [by left|].
  assert (Hnx : nx s i = Some j) by (destruct (i_head _ _ Hi) as (p & Hp' & _ & Hr); rewrite Hp in Hp'; by simplify_eq).
  destruct r as [|x r].
  { rewrite (proj2 (i_chain _ _ Hi) i eq_refl) in Hnx. done. }
  pose proof (i_nodup _ _ Hi) as Hnd. apply NoDup_cons in Hnd as [Hni _].
  destruct (proj1 (i_chain _ _ Hi) 0%nat i x eq_refl eq_refl) as [[_ E]|[(_ & E & _)|(Hsp & E & _)]]; [congruence|congruence|].
  assert (x = j) as -> by congruence. assert (Hji : j ≠ i) by (intros ->; apply Hni; by left). exists r. split; [done|].
  assert (Hnj : is_Some (nodes s !! j)) by (apply has_node; [apply Hi|by eexists]).
  eapply (inv_leave s _ (j :: r) i); [done|cbn; rewrite length_insert, length_alter; apply Hi| |by apply at_go_same| | | |].
  - cbn. rewrite <- (i_last _ _ Hi). by rewrite last_cons_cons.
  - intros x Hxi. by rewrite at_go_other.
  - intros x. by rewrite nx_go, nx_locked.
  - intros x Hxr. rewrite lk_go, lk_locked, decide_False; [done| |done]. intros ->. apply Hxr. by left.
  - exists MSpin. rewrite at_go_other by done. split; [done|]. split; [|done]. right. split; [done|].
    rewrite lk_go, lk_locked, decide_True by done. done.
Qed.

(** How a step changes the queue. *)
Definition queue_step (i : nat) (q q' : list nat) : Prop := q' = q ∨ q' = q ++ [i] ∨ q = i :: q'.

Lemma inv_step s s' q i : inv s q → mcs_step i s s' → ∃ q', inv s' q' ∧ queue_step i q q'.
Proof.
  intros Hi Hs. pose proof (i_len _ _ Hi) as Hlen.
  assert (Hnode : ∀ j, is_Some (at_ s j) → is_Some (nodes s !! j)) by (intros j; by apply has_node).
  destruct Hs as [s Hp|s Hp|s Hp Hv|s p Hp Hv|s p Hp|s p Hp|s n Hp Hn Hl|s n Hp Hn Hl|s Hp|s n Hp Hn Hx|s n j Hp Hn Hx
    |s Hp Hv|s Hp Hv|s n Hp Hn Hx|s n j Hp Hn Hx|s n j Hp Hn Hx|s j Hp]; fold (at_ s i) in Hp.
  - exists q. split; [|by left]. eapply (inv_outside s _ q i MNext); try done.
    + intros Hin. by apply (i_queued _ _ Hi _ _ Hp) in Hin.
    + cbn. by rewrite length_insert.
    + rewrite at_go, decide_True by (done || by eexists). done.
    + intros j Hj. rewrite at_go, decide_False by (done || by eexists). done.
  - exists q. split; [by apply inv_clear|by left].
  - exists (q ++ [i]). split; [|by right; left]. apply inv_enter; [done|done|]. by rewrite Hv.
  - exists (q ++ [i]). split; [|by right; left]. apply inv_enter; [done|done|]. by rewrite Hv.
  - exists q. split; [by apply inv_set_flag|by left].
  - exists q. split; [by apply inv_link|by left].
  - exists q. split; [done|by left].
  - exists q. split; [|by left]. eapply inv_owner; [done|done|right|done|done]. split; [done|]. unfold lk. by rewrite Hn, <- Hl.
  - exists q. split; [|by left]. eapply inv_owner; [done|done|by left|done|done].
  - exists q. split; [|by left]. eapply inv_owner; [done|done|by left|done|done].
  - exists q. split; [|by left]. eapply inv_owner; [done|done|by left|done|]. cbn. unfold nx. by rewrite Hn; cbn; rewrite Hx.
  - destruct (inv_cas s q i Hi Hp Hv) as [-> ?]. exists []. split; [done|]. by right; right.
  - exists q. split; [|by left]. eapply inv_owner; [done|done|by left|done|done].
  - exists q. split; [done|by left].
  - exists q. split; [|by left]. eapply inv_owner; [done|done|by left|done|]. cbn. unfold nx. by rewrite Hn; cbn; rewrite Hx.
  - exists q. split; [|by left]. eapply inv_owner; [done|done|by left|done|]. cbn. unfold nx. by rewrite Hn; cbn; rewrite Hx.
  - destruct (inv_grant s q i j Hi Hp) as (r & -> & ?). exists (j :: r). split; [done|]. by right; right.
Qed.

(** No CPU ever gets stuck: the load of [mynode->next] at the end of [mcs_unlock] does
    not find null. *)
Lemma exec_total s q i : inv s q → (i < length (cpus s))%nat → is_Some (exec i s).
Proof.
  intros Hi Hlt. unfold exec. destruct (lookup_lt_is_Some_2 _ _ Hlt) as [p Hp]. rewrite Hp.
  destruct (has_node s i (i_len _ _ Hi)) as [n Hn]; [by eexists|]. rewrite Hn.
  destruct p; try (by eexists). destruct (owner_first s q i MGrant Hi Hp) as [r ->]; [by left|].
  destruct (i_head _ _ Hi) as (p' & Hp' & _ & Hr). unfold at_ in Hp'. rewrite Hp in Hp'. injection Hp' as <-.
  cbn in Hr. unfold nx in Hr. rewrite Hn in Hr. cbn in Hr. by destruct (next n).
Qed.
End Mcs.
