(* ===== verification/McsProps.v ===== *)
(** * What the queue lock promises (kern/arch/amd64/mcs.h)

    Exclusion, service in the order of arrival, and, under a fair scheduler, that every
    CPU that calls [mcs_lock] gets the lock. *)
From S2P Require Import Prelude Machine Mcs.
Import Mcs.

Module McsRun.
Lemma inv_init n : inv (mcs_init n) [].
Proof.
  assert (Hat : ∀ i p, at_ (mcs_init n) i = Some p → p = MIdle) by (by intros i p [-> _]%lookup_replicate).
  split; cbn; try done.
  - by rewrite !length_replicate.
  - apply NoDup_nil_2.
  - intros i p Hp. rewrite (Hat i p Hp). split; [intros H; by apply elem_of_nil in H|done].
  - intros i Hi. by apply elem_of_nil in Hi.
  - intros i Hi. by apply Hat in Hi.
Qed.
Lemma inv_rtc s s' q : inv s q → rtc step s s' → ∃ q', inv s' q'.
Proof.
  intros Hi Hr. revert q Hi. induction Hr as [s|s s1 s' [i Hs] _ IH]; intros q Hi; [by exists q|].
  destruct (inv_step _ _ _ _ Hi Hs) as (q1 & Hi1 & _). by apply (IH q1).
Qed.
Lemma inv_reach n s : rtc step (mcs_init n) s → ∃ q, inv s q.
Proof. apply (inv_rtc _ _ []), inv_init. Qed.

(** CPU [i] is in the queue and does not own the lock. *)
Definition waits (s : state) (i : nat) : Prop := ∃ p, at_ s i = Some p ∧ queued p = true ∧ owns p = false.
Definition outside (s : state) (i : nat) : Prop := ∃ p, at_ s i = Some p ∧ queued p = false.
Definition holds (s : state) (i : nat) : Prop := ∃ p, at_ s i = Some p ∧ owns p = true.

(** A step of another CPU does not move this one. *)
Lemma at_step_other s s' i j : mcs_step i s s' → j ≠ i → at_ s' j = at_ s j.
Proof.
  intros Hs Hj. destruct Hs as [| | | | | |? ? Hp| | | | | | |? ? Hp| | |]; try done; unfold at_, go; cbn; by apply list_lookup_insert_ne.
Qed.

(** [i] is in the queue and [j] not before it. *)
Definition first_of (i j : nat) (q : list nat) : Prop := ∃ l r, q = l ++ i :: r ∧ j ∉ l.
Lemma first_of_step i j k q q' : first_of i j q → queue_step k q q' → i ∈ q' → i ≠ j → NoDup q → first_of i j q'.
Proof.
  intros (l & r & -> & Hj) [->|[->|E]] Hi Hne Hnd.
  - by exists l, r.
  - exists l, (r ++ [k]). by rewrite <- app_assoc.
  - destruct l as [|x l]; simplify_eq/=.
    + by apply NoDup_cons in Hnd as [? _].
    + exists l, r. split; [done|]. intros Hl. apply Hj. by right.
Qed.
End McsRun.
Import McsRun.

(** C35: The queue lock excludes: however the CPUs interleave, at most one is between the
    end of [mcs_lock] and the last store of [mcs_unlock], and the lock word is null
    exactly when no CPU has done its exchange without having given the lock back. *)
Theorem mcs_lock_exclusive (n : nat) (s : state) :
  rtc step (mcs_init n) s →
  (∀ i j, holds s i → holds s j → i = j) ∧
  (v s = None ↔ ∀ i p, cpus s !! i = Some p → queued p = false).
Proof.
  intros [q Hi]%inv_reach. split.
  - intros i j (p & Hp & Ho) (p' & Hp' & Ho').
    destruct (owner_first _ _ _ _ Hi Hp (or_introl Ho)) as [r ->].
    by destruct (owner_first _ _ _ _ Hi Hp' (or_introl Ho')) as [r' [= -> _]].
  - rewrite <- (i_last _ _ Hi), last_None. split.
    + intros ->. intros i p Hp. destruct (queued p) eqn:E; [|done]. by apply (i_queued _ _ Hi _ _ Hp), elem_of_nil in E.
    + intros Hq. destruct q as [|h r]; [done|]. exfalso. assert (Hin : h ∈ h :: r) by by left.
      destruct (i_range _ _ Hi h Hin) as [p Hp]. apply (i_queued _ _ Hi _ _ Hp) in Hin. by rewrite (Hq h p Hp) in Hin.
Qed.

(** C37: First come, first served: a CPU [j] that had not done its exchange when [i] was
    already waiting does not own the lock for as long as [i] waits. *)
Theorem mcs_lock_fifo (n : nat) (s s' : state) (i j : nat) :
  rtc step (mcs_init n) s → waits s i → outside s j →
  rtc (λ a b, step a b ∧ waits b i) s s' → ¬ holds s' j.
Proof.
  intros [q Hi]%inv_reach (pi & Hpi & Hqi & Hoi) (pj & Hpj & Hqj) Hr.
  assert (Hne : i ≠ j) by (intros ->; congruence).
  assert (Hf : first_of i j q).
  { apply (i_queued _ _ Hi _ _ Hpi) in Hqi. apply list_elem_of_split in Hqi as (l & r & ->). exists l, r. split; [done|].
    intros Hjl. assert (Hq : queued pj = true); [|congruence]. apply (i_queued _ _ Hi _ _ Hpj), elem_of_app. by left. }
  assert (∃ q', inv s' q' ∧ first_of i j q') as (q' & Hi' & (l & r & -> & Hjl)).
  { clear -Hi Hf Hr Hne. revert q Hi Hf. induction Hr as [s|s s1 s' [[k Hs] (p & Hp & Hq & _)] _ IH]; intros q Hi Hf; [by exists q|].
    destruct (inv_step _ _ _ _ Hi Hs) as (q1 & Hi1 & Hqs). apply (IH q1 Hi1).
    eapply first_of_step; [exact Hf|exact Hqs| |done|apply Hi]. by apply (i_queued _ _ Hi1 _ _ Hp). }
  intros (p & Hp & Ho). destruct (owner_first _ _ _ _ Hi' Hp (or_introl Ho)) as [r' E].
  destruct l as [|x l]; simplify_eq/=. apply Hjl. by left.
Qed.

(** ** Progress *)
Module McsLive.
(** How far the first CPU of the queue is from giving the lock away, and the second
    from being linked. *)
Definition rank_head (p : pc) : nat :=
  match p with MSpin => 7 | MHeld => 6 | MTest => 5 | MCas => 4 | MWait => 3 | MGrant => 2 | MStore _ => 1 | _ => 0 end.
Definition rank_next (p : pc) : nat := match p with MSet _ => 2 | MLink _ => 1 | _ => 0 end.
Definition rank (f : pc → nat) (s : state) (i : nat) : nat := default 0%nat (f <$> at_ s i).

(** [l] is the queue in front of [i]: its first CPU and the one behind it. *)
Definition second (l : list nat) (i : nat) : nat := match l with _ :: b :: _ => b | _ => i end.
Definition measure (s : state) (l : list nat) (i : nat) : nat :=
  match l with [] => 0 | h :: _ => 16 * length l + rank rank_head s h + rank rank_next s (second l i) end.
(** The CPU whose next step brings [i] closer to the lock. *)
Definition helper (s : state) (l : list nat) (i : nat) : nat :=
  match l with [] => i | h :: _ => if decide (rank rank_next s (second l i) = 0%nat) then h else second l i end.

Lemma rank_head_le s i : (rank rank_head s i ≤ 7)%nat.
Proof. unfold rank. destruct (at_ s i) as [[]|]; cbn; lia. Qed.
Lemma rank_next_le s i : (rank rank_next s i ≤ 2)%nat.
Proof. unfold rank. destruct (at_ s i) as [[]|]; cbn; lia. Qed.
Lemma rank_same f s s' i : at_ s' i = at_ s i → rank f s' i = rank f s i.
Proof. unfold rank. by intros ->. Qed.
Lemma rank_at f s i p : at_ s i = Some p → rank f s i = f p.
Proof. unfold rank. by intros ->. Qed.

(** The first CPU moves on unless it waits for the link. *)
Lemma head_step s s' q h p : inv s (h :: q) → at_ s h = Some p → mcs_step h s s' →
  (∃ p', at_ s' h = Some p' ∧ (rank_head p' < rank_head p)%nat ∧ queued p' = true) ∨ (s' = s ∧ nx s h = None) ∨ at_ s' h = Some MIdle.
Proof.
  intros Hi Hp Hs. destruct (i_head _ _ Hi) as (p0 & Hp0 & Hor & _). rewrite Hp in Hp0. injection Hp0 as <-.
  assert (His : is_Some (at_ s h)) by by eexists.
  destruct Hs as [s E|s E|s E|s x E|s x E|s x E|s n E Hn Hl|s n E Hn Hl|s E|s n E Hn Hx|s n j E Hn Hx
    |s E Hv|s E Hv|s n E Hn Hx|s n j E Hn Hx|s n j E Hn Hx|s j E]; fold (at_ s h) in E; rewrite Hp in E; injection E as ->;
    try (by destruct Hor as [?|[? _]]);
    try (left; rewrite at_go_same by done; eexists; split; [reflexivity|]; cbn; split; [lia|done]).
  - destruct Hor as [?|[_ Hlk]]; [done|]. exfalso. unfold lk in Hlk. rewrite Hn in Hlk. cbn in Hlk. congruence.
  - right; right. by apply (at_go_same (set_v None s)).
  - right; left. split; [done|]. unfold nx. by rewrite Hn.
  - right; right. by rewrite at_go_same.
Qed.
(** A CPU behind another moves on until it is linked. *)
Lemma next_step s s' a b p : behind s a b → length (nodes s) = length (cpus s) → at_ s b = Some p → mcs_step b s s' →
  (∃ p', at_ s' b = Some p' ∧ (rank_next p' < rank_next p)%nat ∧ queued p' = true ∧ owns p' = false) ∨
  (s' = s ∧ rank_next p = 0%nat ∧ nx s a ≠ None).
Proof.
  intros Hb Hlen Hp Hs. assert (His : is_Some (at_ s b)) by by eexists.
  destruct Hs as [s E|s E|s E|s x E|s x E|s x E|s n E Hn Hl|s n E Hn Hl|s E|s n E Hn Hx|s n j E Hn Hx
    |s E Hv|s E Hv|s n E Hn Hx|s n j E Hn Hx|s n j E Hn Hx|s j E]; fold (at_ s b) in E; rewrite Hp in E; injection E as ->;
    destruct Hb as [[E _]|[(E & _ & _)|(E & Hnx & Hlk)]]; rewrite Hp in E; try discriminate;
    try (left; rewrite at_go_same by done; eexists; split; [reflexivity|]; cbn; split; [lia|done]).
  - right. split; [done|]. split; [done|]. by rewrite Hnx.
  - exfalso. unfold lk in Hlk. rewrite Hn in Hlk. cbn in Hlk. congruence.
Qed.
(** A CPU that has been granted the lock takes it with its next step. *)
Lemma granted_step s s' i : at_ s i = Some MSpin → lk s i = Some false → mcs_step i s s' → at_ s' i = Some MHeld.
Proof.
  intros Hp Hlk Hs. assert (His : is_Some (at_ s i)) by by eexists.
  destruct Hs as [s E|s E|s E|s x E|s x E|s x E|s n E Hn Hl|s n E Hn Hl|s E|s n E Hn Hx|s n j E Hn Hx
    |s E Hv|s E Hv|s n E Hn Hx|s n j E Hn Hx|s n j E Hn Hx|s j E]; fold (at_ s i) in E; rewrite Hp in E; try discriminate.
  - exfalso. unfold lk in Hlk. rewrite Hn in Hlk. cbn in Hlk. congruence.
  - by apply at_go_same.
Qed.

Lemma second_lookup h l i r : (h :: l ++ i :: r) !! 1%nat = Some (second (h :: l) i).
Proof. by destruct l. Qed.
Lemma waits_same s s' i : at_ s' i = at_ s i → waits s i → waits s' i.
Proof. unfold waits. by intros ->. Qed.

(** A CPU that is not first keeps waiting. *)
Lemma waits_step s s' h l i r c :
  inv s (h :: l ++ i :: r) → waits s i → mcs_step c s s' → waits s' i.
Proof.
  intros Hi Hw Hs. destruct (decide (c = i)) as [->|Hne]; [|eapply waits_same; [by eapply at_step_other|done]].
  pose proof Hw as (p & Hp & Hq & Ho). destruct (head_or_waits _ _ _ _ Hi Hp Hq) as [[r' [= -> E]]|(_ & _ & k & a & _ & _ & Hb)].
  - pose proof (i_nodup _ _ Hi) as [Hni _]%NoDup_cons. exfalso. apply Hni, elem_of_app. right. by left.
  - destruct (next_step _ _ _ _ _ Hb (i_len _ _ Hi) Hp Hs) as [(p' & Hp' & _ & ? & ?)|[-> _]]; [by exists p'|done].
Qed.

(** One step of any CPU, seen by a CPU [i] that is not first: the measure does not
    grow, and the step of the helper makes it smaller. *)
Lemma ranks_step s s' h l i r c :
  inv s (h :: l ++ i :: r) → mcs_step c s s' → (∃ p, at_ s' h = Some p ∧ queued p = true) →
  (measure s' (h :: l) i < measure s (h :: l) i)%nat ∨
  c ≠ helper s (h :: l) i ∧ measure s' (h :: l) i = measure s (h :: l) i ∧ helper s' (h :: l) i = helper s (h :: l) i.
Proof.
  intros Hi Hs (ph & Hph & Hqh). set (b := second (h :: l) i). pose proof (second_lookup h l i r) as Hb. fold b in Hb.
  assert (Hbeh : behind s h b) by (by apply (proj1 (i_chain _ _ Hi) 0%nat)).
  assert (Hhb : h ≠ b).
  { intros E. assert (0%nat = 1%nat) by (eapply NoDup_lookup; [apply Hi|done|by rewrite Hb, E]). lia. }
  unfold measure, helper. fold b. destruct (decide (c = h)) as [->|Hch].
  - assert (Eb : at_ s' b = at_ s b) by (by eapply at_step_other). rewrite (rank_same rank_next _ _ _ Eb).
    destruct (i_head _ _ Hi) as (p & Hp & _ & _). rewrite (rank_at _ _ _ _ Hph), (rank_at _ _ _ _ Hp).
    destruct (head_step _ _ _ _ _ Hi Hp Hs) as [(p' & Hp' & Hlt & _)|[[-> Hnx]|Hid]]; [left; simplify_eq; lia| |simplify_eq; done].
    right. simplify_eq. split; [|done]. case_decide as Hr; [|done]. exfalso.
    destruct Hbeh as [[E _]|[(E & _ & _)|(E & E' & _)]]; [rewrite (rank_at _ _ _ _ E) in Hr; done..|congruence].
  - assert (Eh : at_ s' h = at_ s h) by (by eapply at_step_other). rewrite (rank_same rank_head _ _ _ Eh).
    destruct (decide (c = b)) as [->|Hcb].
    + assert (is_Some (at_ s b)) as [p Hp] by (apply (i_range _ _ Hi); by eapply list_elem_of_lookup_2).
      rewrite (rank_at _ s _ _ Hp). destruct (next_step _ _ _ _ _ Hbeh (i_len _ _ Hi) Hp Hs) as [(p' & Hp' & Hlt & _)|(-> & Hr & _)].
      * left. rewrite (rank_at _ _ _ _ Hp'). lia.
      * right. rewrite (rank_at _ _ _ _ Hp), Hr. cbn. done.
    + assert (Eb : at_ s' b = at_ s b) by (by eapply at_step_other). rewrite (rank_same rank_next _ _ _ Eb).
      right. split; [by case_decide|done].
Qed.

(** The same for any CPU in the queue. *)
Lemma progress s s' l r i c :
  inv s (l ++ i :: r) → waits s i → mcs_step c s s' →
  at_ s' i = Some MHeld ∨
  ∃ l' r', inv s' (l' ++ i :: r') ∧ waits s' i ∧
    ((measure s' l' i < measure s l i)%nat ∨ c ≠ helper s l i ∧ measure s' l' i = measure s l i ∧ helper s' l' i = helper s l i).
Proof.
  intros Hi Hw Hs. destruct (inv_step _ _ _ _ Hi Hs) as (q' & Hi' & Hq). destruct l as [|h l].
  - destruct (decide (c = i)) as [->|Hne].
    + left. destruct Hw as (p & Hp & _ & Ho). destruct (i_head _ _ Hi) as (p0 & Hp0 & Hor & _). simplify_eq.
      destruct Hor as [?|[-> Hlk]]; [congruence|]. by eapply granted_step.
    + right. exists []. assert (∃ r', q' = i :: r') as [r' ->].
      { destruct Hq as [->|[->|E]]; cbn in *; [by eexists..|congruence]. }
      exists r'. split; [done|]. split; [eapply waits_same; [by eapply at_step_other|done]|]. by right.
  - right. assert (Hw' : waits s' i) by (by eapply waits_step). destruct Hq as [->|[->|E]].
    + exists (h :: l), r. split; [done|]. split; [done|]. eapply ranks_step; [done..|].
      destruct (i_range _ _ Hi' h) as [p Hp]; [by left|]. exists p. split; [done|]. apply (i_queued _ _ Hi' _ _ Hp). by left.
    + exists (h :: l), (r ++ [c]). rewrite <- app_assoc in Hi'. split; [done|]. split; [done|]. eapply ranks_step; [done..|].
      destruct (i_range _ _ Hi' h) as [p Hp]; [by left|]. exists p. split; [done|]. apply (i_queued _ _ Hi' _ _ Hp). by left.
    + cbn in E. injection E as -> <-. exists l, r. split; [done|]. split; [done|]. left. unfold measure.
      destruct l as [|x l]; [cbn [length]; lia|]. pose proof (rank_head_le s' x). pose proof (rank_next_le s' (second (x :: l) i)). cbn [length]. lia.
Qed.
Lemma helper_queued s l r i : inv s (l ++ i :: r) → helper s l i ∈ l ++ i :: r.
Proof.
  intros _. unfold helper. destruct l as [|h l]; [by left|]. case_decide; [by left|].
  eapply (list_elem_of_lookup_2 _ 1). by rewrite <- (second_lookup h l i r).
Qed.

(** The steps before the queue. *)
Lemma clear_next s s' i : at_ s i = Some MNext → mcs_step i s s' → at_ s' i = Some MXchg.
Proof.
  intros Hp Hs. assert (His : is_Some (at_ s i)) by by eexists.
  destruct Hs; unfold at_ in Hp; simplify_eq. by apply at_go_same.
Qed.
Lemma xchg_next s s' i : at_ s i = Some MXchg → mcs_step i s s' → at_ s' i = Some MHeld ∨ waits s' i.
Proof.
  intros Hp Hs. assert (His : is_Some (at_ s i)) by by eexists.
  destruct Hs as [| |s Hx Hv|s p Hx Hv| | | | | | | | | | | | |]; unfold at_ in Hp; simplify_eq.
  - left. by apply (at_go_same (set_v (Some i) s)).
  - right. exists (MSet p). split; [by apply (at_go_same (set_v (Some i) s))|done].
Qed.
Lemma step_cpus s s' i : mcs_step i s s' → length (cpus s') = length (cpus s).
Proof. intros Hs. destruct Hs; cbn; try done; by rewrite length_insert. Qed.

(** Runs: at each time one CPU, or none, takes a step.  A run is fair when every CPU
    that is inside the lock or holds it is scheduled again; in particular every holder
    calls [mcs_unlock] some day.  An idle CPU need not move. *)
Definition is_run (sched : nat → option nat) (run : nat → state) : Prop :=
  ∀ t, match sched t with Some i => mcs_step i (run t) (run (S t)) | None => run (S t) = run t end.
Definition fair (sched : nat → option nat) (run : nat → state) : Prop :=
  ∀ i p t, cpus (run t) !! i = Some p → p ≠ MIdle → ∃ d, sched (t + d)%nat = Some i.

Section Runs.
Context (sched : nat → option nat) (run : nat → state) (Hrun : is_run sched run) (Hfair : fair sched run).

Lemma run_inv t q : inv (run 0) q → ∃ q', inv (run t) q'.
Proof.
  intros H0. induction t as [|t [q' Hq]]; [by exists q|]. pose proof (Hrun t) as Ht. destruct (sched t) as [i|].
  - destruct (inv_step _ _ _ _ Hq Ht) as (q1 & ? & _). by exists q1.
  - exists q'. by rewrite Ht.
Qed.
(** Until a CPU is scheduled it stays where it is. *)
Lemma run_at i p t : at_ (run t) i = Some p → p ≠ MIdle →
  ∃ t', (t ≤ t')%nat ∧ at_ (run t') i = Some p ∧ mcs_step i (run t') (run (S t')).
Proof.
  intros Hp Hne. destruct (Hfair i p t Hp Hne) as [d Hd]. revert t Hp Hd. induction d as [|d IH]; intros t Hp Hd.
  - exists t. rewrite Nat.add_0_r in Hd. pose proof (Hrun t) as Ht. by rewrite Hd in Ht.
  - pose proof (Hrun t) as Ht. destruct (decide (sched t = Some i)) as [E|E]; [exists t; by rewrite E in Ht|].
    destruct (IH (S t)) as (t' & Hle & ?); [|by replace (S t + d)%nat with (t + S d)%nat by lia|exists t'; split; [lia|done]].
    destruct (sched t) as [c|]; [|by rewrite Ht]. rewrite <- Hp. eapply at_step_other; [done|congruence].
Qed.

Lemma waits_held i m t l r : (measure (run t) l i < m)%nat → inv (run t) (l ++ i :: r) → waits (run t) i →
  ∃ t', (t ≤ t')%nat ∧ at_ (run t') i = Some MHeld.
Proof.
  revert t l r. induction m as [|m IHm]; intros t l r Hm Hi Hw; [lia|].
  assert (∃ d, sched (t + d)%nat = Some (helper (run t) l i)) as [d Hd].
  { pose proof (helper_queued _ _ _ _ Hi) as Hin. destruct (i_range _ _ Hi _ Hin) as [p Hp].
    eapply Hfair; [exact Hp|]. apply (i_queued _ _ Hi _ _ Hp) in Hin. by intros ->. }
  revert t l r Hm Hi Hw Hd. induction d as [|d IHd]; intros t l r Hm Hi Hw Hd; pose proof (Hrun t) as Ht.
  - rewrite Nat.add_0_r in Hd. rewrite Hd in Ht. destruct (progress _ _ _ _ _ _ Hi Hw Ht) as [?|(l' & r' & Hi' & Hw' & [Hlt|[? _]])]; [|edestruct IHm as (t' & ? & ?); [|done..|]|done].
    + by exists (S t); split; [lia|].
    + lia.
    + exists t'. split; [lia|done].
  - replace (t + S d)%nat with (S t + d)%nat in Hd by lia.
    assert (Hnext : ∀ l' r', inv (run (S t)) (l' ++ i :: r') → waits (run (S t)) i → measure (run (S t)) l' i = measure (run t) l i →
      helper (run (S t)) l' i = helper (run t) l i → ∃ t', (t ≤ t')%nat ∧ at_ (run t') i = Some MHeld).
    { intros l' r' Hi' Hw' Em Eh. destruct (IHd (S t) l' r') as (t' & ? & ?); [by rewrite Em|done|done|by rewrite Eh|]. exists t'. split; [lia|done]. }
    destruct (sched t) as [c|]; [|eapply Hnext; by rewrite Ht].
    destruct (progress _ _ _ _ _ _ Hi Hw Ht) as [?|(l' & r' & Hi' & Hw' & [Hlt|(_ & ? & ?)])]; [by exists (S t); split; [lia|]| |by eapply Hnext].
    destruct (IHm (S t) l' r') as (t' & ? & ?); [lia|done|done|]. exists t'. split; [lia|done].
Qed.
End Runs.
End McsLive.
Import McsLive.

(** C36: Every CPU that calls [mcs_lock] gets the lock, in every fair run: if from time [t]
    on CPU [i] is in [mcs_lock], there is a later time at which it holds the lock. *)
Theorem mcs_lock_live (n : nat) (sched : nat → option nat) (run : nat → state) (i t : nat) (p : pc) :
  run 0%nat = mcs_init n → is_run sched run → fair sched run →
  cpus (run t) !! i = Some p → p ≠ MIdle → owns p = false →
  ∃ t', (t ≤ t')%nat ∧ cpus (run t') !! i = Some MHeld.
Proof.
  intros H0 Hr Hf Hp Hne Ho.
  assert (Hinv : ∀ t, ∃ q, inv (run t) q) by (intros u; eapply run_inv; [done|]; rewrite H0; apply inv_init).
  assert (Hwait : ∀ u, waits (run u) i → ∃ t', (u ≤ t')%nat ∧ at_ (run t') i = Some MHeld).
  { intros u Hw. destruct (Hinv u) as [q Hi]. pose proof Hw as (pw & Hpw & Hq & _).
    apply (i_queued _ _ Hi _ _ Hpw), list_elem_of_split in Hq as (l & r & ->). eapply waits_held; [done|done|apply Nat.lt_succ_diag_r|done|done]. }
  assert (Hx : ∀ u, at_ (run u) i = Some MXchg → ∃ t', (u ≤ t')%nat ∧ at_ (run t') i = Some MHeld).
  { intros u Hu. destruct (run_at _ _ Hr Hf i _ _ Hu) as (u' & Hle & Hu' & Hs); [done|].
    destruct (xchg_next _ _ _ Hu' Hs) as [Hh|Hw]; [by exists (S u'); split; [lia|]|].
    destruct (Hwait _ Hw) as (t' & ? & ?). exists t'. split; [lia|done]. }
  destruct (queued p) eqn:Hq; [apply Hwait; by exists p|].
  destruct p; try done; [|by apply Hx]. destruct (run_at _ _ Hr Hf i _ _ Hp) as (u & Hle & Hu & Hs); [done|].
  destruct (Hx (S u)) as (t' & ? & ?); [by eapply clear_next|]. exists t'. split; [lia|done].
Qed.

(** Three CPUs that take turns, each calling [mcs_lock] and [mcs_unlock] for ever. *)
Module McsExample.
Definition turn (t : nat) : nat := t mod 3.
Definition sched (t : nat) : option nat := Some (turn t).
Fixpoint run (t : nat) : state :=
  match t with O => mcs_init 3 | S t => let s := run t in default s (exec (turn t) s) end.

Lemma turn_lt t : (turn t < 3)%nat.
Proof. by apply Nat.mod_upper_bound. Qed.
Lemma run_ok t : (∃ q, inv (run t) q) ∧ length (cpus (run t)) = 3%nat ∧ mcs_step (turn t) (run t) (run (S t)).
Proof.
  assert (Hstep : ∀ s q, inv s q → length (cpus s) = 3%nat → mcs_step (turn t) s (default s (exec (turn t) s))).
  { intros s q Hi Hl. destruct (exec_total s q (turn t) Hi) as [s' Hs]; [rewrite Hl; apply turn_lt|]. rewrite Hs. by apply exec_step. }
  revert Hstep. induction t as [|t IH]; intros Hstep.
  - split; [exists []; apply inv_init|]. split; [done|]. eapply Hstep; [apply inv_init|done].
  - destruct IH as ([q Hi] & Hl & Hs).
    { intros s q Hi Hl. destruct (exec_total s q (turn t) Hi) as [s' Hs]; [rewrite Hl; apply turn_lt|]. rewrite Hs. by apply exec_step. }
    destruct (inv_step _ _ _ _ Hi Hs) as (q' & Hi' & _).
    assert (Hl' : length (cpus (run (S t))) = 3%nat) by (rewrite <- Hl; by eapply step_cpus).
    split; [by exists q'|]. split; [done|]. by eapply Hstep.
Qed.
Lemma run_is_run : is_run sched run.
Proof. intros t. apply run_ok. Qed.
Lemma run_fair : fair sched run.
Proof.
  intros i p t Hp _. assert (Hi : (i < 3)%nat) by (rewrite <- (proj1 (proj2 (run_ok t))); by eapply lookup_lt_Some).
  exists ((i + 2 * t) mod 3)%nat. unfold sched, turn. f_equal. rewrite Nat.Div0.add_mod_idemp_r.
  replace (t + (i + 2 * t))%nat with (i + t * 3)%nat by lia. rewrite Nat.Div0.mod_add. by apply Nat.mod_small.
Qed.
Lemma run_reach t d : rtc step (run t) (run (t + d)).
Proof.
  induction d as [|d IH]; [by rewrite Nat.add_0_r|]. eapply rtc_r; [exact IH|]. rewrite Nat.add_succ_r.
  eexists. apply run_ok.
Qed.
(** CPU [i] waits at each of the [d] times after [t]. *)
Definition waiting (t d i : nat) : bool :=
  forallb (λ k, match cpus (run (t + k)) !! i with Some p => queued p && negb (owns p) | None => false end) (seq 1 d).
Lemma run_waiting t d i : waiting t d i = true → rtc (λ a b, step a b ∧ waits b i) (run t) (run (t + d)).
Proof.
  induction d as [|d IH]; [by rewrite Nat.add_0_r|]. unfold waiting. rewrite seq_S, forallb_app. cbn [forallb].
  intros [Hd [Hw _]%andb_prop]%andb_prop. eapply rtc_r; [by apply IH|]. rewrite Nat.add_succ_r in *. split; [eexists; apply run_ok|].
  unfold waits, at_.
  destruct (cpus (run (S (t + d))) !! i) as [p|]; [|done]. apply andb_prop in Hw as [? ?%negb_true_iff]. by exists p.
Qed.
End McsExample.

Lemma mcs_lock_exclusive_witness :
  cpus (McsExample.run 16) = [MWait; MSpin; MSpin] ∧ v (McsExample.run 16) = Some 2%nat ∧
  ∀ i j, holds (McsExample.run 16) i → holds (McsExample.run 16) j → i = j.
Proof.
  split; [reflexivity|]. split; [reflexivity|].
  exact (proj1 (mcs_lock_exclusive 3 (McsExample.run 16) (McsExample.run_reach 0 16))).
Defined.

(** CPU 2 waits from time 25 to time 38, when it has been granted the lock; CPU 0, which
    had just released it, has entered the queue again behind CPU 2. *)
Lemma mcs_lock_fifo_witness :
  cpus (McsExample.run 25) = [MIdle; MSpin; MSpin] ∧ cpus (McsExample.run 38) = [MLink 2; MIdle; MSpin] ∧
  ¬ holds (McsExample.run 38) 0.
Proof.
  split; [reflexivity|]. split; [reflexivity|].
  apply (mcs_lock_fifo 3 (McsExample.run 25) (McsExample.run 38) 2 0).
  - exact (McsExample.run_reach 0 25).
  - exists MSpin. split; [reflexivity|split; reflexivity].
  - exists MIdle. split; reflexivity.
  - apply (McsExample.run_waiting 25 13). reflexivity.
Defined.

(** At time 8 CPU 1 has entered the queue behind CPU 0, which holds the lock. *)
Lemma mcs_lock_live_witness :
  cpus (McsExample.run 8) = [MHeld; MSet 0; MXchg] ∧
  ∃ t', (8 ≤ t')%nat ∧ cpus (McsExample.run t') !! 1%nat = Some MHeld.
Proof.
  split; [reflexivity|].
  apply (mcs_lock_live 3 McsExample.sched McsExample.run 1 8 (MSet 0));
    [reflexivity|apply McsExample.run_is_run|apply McsExample.run_fair|reflexivity|discriminate|reflexivity].
Defined.

