(* ===== verification/Mcsrw.v ===== *)
(** * Queued reader-writer locks (the second half of kern/arch/amd64/mcs.h)

    A writer first takes the queue lock of [Mcs] and then subtracts [MCSRW_BIAS] from a
    counter, from which readers subtract 1.  The model runs the steps of the queue lock
    inside those of the reader-writer lock, in any interleaving. *)
From S2P Require Import Prelude Machine Mcs McsProps.
Import McsRun.

Module Mcsrw.
Definition MCSRW_BIAS : Z := 0x01000000.

(** The places of a CPU, named by the instruction about to be executed.  [WLock] and
    [WUnlock] are inside [mcs_lock] and [mcs_unlock], at the place the queue lock has
    for the CPU. *)
Inductive pc :=
| Idle
| RSub      (* 3: lock; subl $1 *)
| RInc      (* lock; incl *)
| RSpin     (* 2: cmpl $1 *)
| RHeld     (* 1: *)
| WLock     (* mcs_lock, then lock; subl *)
| WSpin     (* while (rwl->x.counter != 0) *)
| WHeld
| WUnlock.  (* mcs_unlock *)

(** [struct mcsrwlock] and the places of the CPUs. *)
Record state := State { ml : Mcs.state; x : Z; cpus : list pc }.

Definition mcsrw_init (n : nat) : state := State (Mcs.mcs_init n) MCSRW_BIAS (replicate n Idle).

(** CPU [i] goes to [p] and the counter becomes [w]. *)
Definition goto (i : nat) (p : pc) (w : Z) (s : state) : state := State (ml s) w (<[i := p]> (cpus s)).
Definition in_mcs (i : nat) (p : Mcs.pc) (s : state) : Prop := Mcs.cpus (ml s) !! i = Some p.

Inductive mcsrw_step : state → state → Prop :=
| read_call s i : cpus s !! i = Some Idle → mcsrw_step s (goto i RSub (x s) s)
(** [subl] sets the sign flag from the result; so does [cmpl]. *)
| read_got s i : cpus s !! i = Some RSub → 0 ≤ s32 (u32 (x s - 1)) → mcsrw_step s (goto i RHeld (u32 (x s - 1)) s)
| read_busy s i : cpus s !! i = Some RSub → s32 (u32 (x s - 1)) < 0 → mcsrw_step s (goto i RInc (u32 (x s - 1)) s)
| read_undo s i : cpus s !! i = Some RInc → mcsrw_step s (goto i RSpin (u32 (x s + 1)) s)
| read_spin s i : cpus s !! i = Some RSpin → s32 (u32 (x s - 1)) < 0 → mcsrw_step s s
| read_retry s i : cpus s !! i = Some RSpin → 0 ≤ s32 (u32 (x s - 1)) → mcsrw_step s (goto i RSub (x s) s)
| read_unlock s i : cpus s !! i = Some RHeld → mcsrw_step s (goto i Idle (u32 (x s + 1)) s)
| write_call s i : cpus s !! i = Some Idle → mcsrw_step s (goto i WLock (x s) s)
| write_mcs s i m : cpus s !! i = Some WLock → ¬ in_mcs i Mcs.MHeld s → Mcs.mcs_step i (ml s) m →
    mcsrw_step s (State m (x s) (cpus s))
| write_zero s i : cpus s !! i = Some WLock → in_mcs i Mcs.MHeld s → u32 (x s - MCSRW_BIAS) = 0 →
    mcsrw_step s (goto i WHeld (u32 (x s - MCSRW_BIAS)) s)
| write_sub s i : cpus s !! i = Some WLock → in_mcs i Mcs.MHeld s → u32 (x s - MCSRW_BIAS) ≠ 0 →
    mcsrw_step s (goto i WSpin (u32 (x s - MCSRW_BIAS)) s)
| write_spin s i : cpus s !! i = Some WSpin → x s ≠ 0 → mcsrw_step s s
| write_got s i : cpus s !! i = Some WSpin → x s = 0 → mcsrw_step s (goto i WHeld (x s) s)
| write_add s i : cpus s !! i = Some WHeld → mcsrw_step s (goto i WUnlock (u32 (x s + MCSRW_BIAS)) s)
| write_unmcs s i m : cpus s !! i = Some WUnlock → ¬ in_mcs i Mcs.MIdle s → Mcs.mcs_step i (ml s) m →
    mcsrw_step s (State m (x s) (cpus s))
| write_done s i : cpus s !! i = Some WUnlock → in_mcs i Mcs.MIdle s → mcsrw_step s (goto i Idle (x s) s).

(** CPUs whose subtraction is in the counter. *)
Definition rd (p : pc) : bool := match p with RInc | RHeld => true | _ => false end.
Definition wr (p : pc) : bool := match p with WSpin | WHeld => true | _ => false end.
Definition rheld (p : pc) : bool := match p with RHeld => true | _ => false end.
Definition wheld (p : pc) : bool := match p with WHeld => true | _ => false end.
(** Where the queue lock has a CPU that is at [p]. *)
Definition agrees (p : pc) (m : Mcs.pc) : bool :=
  match p with
  | WLock => negb (Mcs.owns m) || match m with Mcs.MHeld => true | _ => false end
  | WSpin | WHeld => match m with Mcs.MHeld => true | _ => false end
  | WUnlock => Mcs.owns m || match m with Mcs.MIdle => true | _ => false end
  | _ => match m with Mcs.MIdle => true | _ => false end
  end.

Definition value (s : state) : Z := MCSRW_BIAS - countb rd (cpus s) - MCSRW_BIAS * countb wr (cpus s).

Record inv (s : state) : Prop := Inv {
  i_cpus : Z.of_nat (length (cpus s)) ≤ JOS_NCPU;
  i_len : length (Mcs.cpus (ml s)) = length (cpus s);
  i_word : x s = u32 (value s);
  i_ml : ∃ q, Mcs.inv (ml s) q;
  i_at : ∀ i p m, cpus s !! i = Some p → Mcs.cpus (ml s) !! i = Some m → agrees p m = true;
  i_excl : 0 < countb wheld (cpus s) → countb rheld (cpus s) = 0;
}.

Lemma mcsrw_inv_init n : Z.of_nat n ≤ JOS_NCPU → inv (mcsrw_init n).
Proof.
  intros Hn. split; cbn.
  - by rewrite length_replicate.
  - by rewrite !length_replicate.
  - unfold value; cbn. rewrite !countb_replicate by done. reflexivity.
  - exists []. apply inv_init.
  - intros i p m [-> _]%lookup_replicate [-> _]%lookup_replicate. done.
  - by rewrite countb_replicate.
Qed.

(** At most one CPU is counted as a writer: they all own the queue lock. *)
Lemma one_writer s : inv s → countb wr (cpus s) ≤ 1.
Proof.
  intros Hi. destruct (i_ml _ Hi) as [q Hq]. apply countb_le_1. intros i j p p' Hp Hp' Hw Hw'.
  destruct (lookup_lt_is_Some_2 (Mcs.cpus (ml s)) i) as [m Hm]; [rewrite (i_len _ Hi); by eapply lookup_lt_Some|].
  destruct (lookup_lt_is_Some_2 (Mcs.cpus (ml s)) j) as [m' Hm']; [rewrite (i_len _ Hi); by eapply lookup_lt_Some|].
  pose proof (i_at _ Hi _ _ _ Hp Hm) as E. pose proof (i_at _ Hi _ _ _ Hp' Hm') as E'.
  assert (m = Mcs.MHeld) as -> by (by destruct p, m). assert (m' = Mcs.MHeld) as -> by (by destruct p', m').
  destruct (Mcs.owner_first _ _ _ _ Hq Hm (or_introl eq_refl)) as [r ->].
  by destruct (Mcs.owner_first _ _ _ _ Hq Hm' (or_introl eq_refl)) as [r' [= -> _]].
Qed.

Lemma counter_range s : inv s → - 2 ^ 26 < value s ≤ MCSRW_BIAS.
Proof.
  intros Hi. pose proof (one_writer s Hi). pose proof (i_cpus s Hi). pose proof (countb_range rd (cpus s)).
  pose proof (countb_range wr (cpus s)). unfold value, MCSRW_BIAS, JOS_NCPU in *. lia.
Qed.

Definition weight (p : pc) : Z := Z.b2z (rd p) + MCSRW_BIAS * Z.b2z (wr p).

(** A CPU moving from [p] to [q] outside the queue lock. *)
Lemma goto_inv s i p q w :
  inv s → cpus s !! i = Some p → w = u32 (value s + (weight p - weight q)) →
  (∀ m, Mcs.cpus (ml s) !! i = Some m → agrees p m = true → agrees q m = true) →
  (rheld q = true → countb wr (cpus s) = 0) → (wheld q = true → countb rd (cpus s) = 0) → inv (goto i q w s).
Proof.
  intros [Hn Hl Hw Hm Ha He] Hi -> Hag Hrq Hwq.
  assert (Hrh : countb rheld (cpus s) ≤ countb rd (cpus s)) by (apply countb_mono; by intros []).
  assert (Hwh : countb wheld (cpus s) ≤ countb wr (cpus s)) by (apply countb_mono; by intros []).
  pose proof (countb_range rheld (cpus s)). pose proof (countb_range wheld (cpus s)).
  split; cbn; [by rewrite length_insert|by rewrite length_insert| |done| |].
  - f_equal. unfold value, goto, weight; cbn. rewrite !(countb_insert _ _ _ _ _ Hi). lia.
  - intros j p' m Hj Hjm. destruct (decide (j = i)) as [->|Hne].
    + rewrite list_lookup_insert_eq in Hj by (by eapply lookup_lt_Some). injection Hj as <-. apply Hag; [done|]. by eapply Ha.
    + rewrite list_lookup_insert_ne in Hj by done. by eapply Ha.
  - rewrite !(countb_insert _ _ _ _ _ Hi). pose proof (countb_pos wheld _ _ _ Hi). pose proof (countb_pos rheld _ _ _ Hi).
    assert (Hq : rheld q && wheld q = false) by by destruct q. assert (Hp : rheld p && wheld p = false) by by destruct p.
    destruct (rheld q), (wheld q), (rheld p), (wheld p); try done; cbn [Z.b2z]; intuition lia.
Qed.

(** A step of the queue lock inside [mcs_lock] or [mcs_unlock]. *)
Lemma mcs_inv s i p m :
  inv s → cpus s !! i = Some p → Mcs.mcs_step i (ml s) m →
  (∀ a b, Mcs.cpus (ml s) !! i = Some a → Mcs.cpus m !! i = Some b → agrees p a = true → agrees p b = true) →
  inv (State m (x s) (cpus s)).
Proof.
  intros [Hn Hl Hw [q Hq] Ha He] Hi Hs Hag. split; cbn; [done| |done| | |done].
  - by rewrite (McsLive.step_cpus _ _ _ Hs).
  - destruct (Mcs.inv_step _ _ _ _ Hq Hs) as (q' & ? & _). by exists q'.
  - intros j p' b Hj Hb. destruct (decide (j = i)) as [->|Hne].
    + rewrite Hi in Hj. injection Hj as <-. destruct (lookup_lt_is_Some_2 (Mcs.cpus (ml s)) i) as [a Hma].
      { rewrite Hl. by eapply lookup_lt_Some. }
      by eapply Hag; [done|done|eapply Ha].
    + eapply Ha; [done|]. rewrite <- Hb. symmetry. by apply (at_step_other _ _ _ _ Hs).
Qed.
(** [mcs_lock] ends when it has got the lock and [mcs_unlock] when the CPU is idle again. *)
Lemma mcs_steps i s m a b : Mcs.mcs_step i s m → Mcs.cpus s !! i = Some a → Mcs.cpus m !! i = Some b →
  (a ≠ Mcs.MHeld → agrees WLock a = true → agrees WLock b = true) ∧
  (a ≠ Mcs.MIdle → agrees WUnlock a = true → agrees WUnlock b = true).
Proof.
  intros Hs Ha Hb. assert (Hlt := lookup_lt_Some _ _ _ Ha).
  destruct Hs; unfold Mcs.go in Hb; cbn in Hb; rewrite ?list_lookup_insert_eq in Hb by done; by simplify_eq.
Qed.

(** The counts in a state whose counter allows an acquisition. *)
Lemma counter_read_room s : inv s → 0 ≤ s32 (u32 (x s - 1)) → countb wr (cpus s) = 0.
Proof.
  intros Hi. pose proof (counter_range s Hi) as Hv. rewrite (i_word s Hi).
  rewrite <- Z.add_opp_r, u32_idemp_add, s32_u32 by (unfold MCSRW_BIAS in *; lia).
  pose proof (countb_range rd (cpus s)). pose proof (countb_range wr (cpus s)). unfold value, MCSRW_BIAS in *. lia.
Qed.
Lemma counter_write_room s d : inv s → d = 0 ∨ d = MCSRW_BIAS → u32 (x s - d) = 0 → value s = d.
Proof.
  intros Hi Hd. pose proof (counter_range s Hi) as Hv. rewrite (i_word s Hi), <- Z.add_opp_r, u32_idemp_add. intros H0.
  assert (Hz : s32 (u32 (value s + - d)) = 0) by by rewrite H0.
  rewrite s32_u32 in Hz by (unfold MCSRW_BIAS in *; lia). lia.
Qed.

Lemma mcsrw_inv_step s s' : inv s → mcsrw_step s s' → inv s'.
Proof.
  intros Hi Hs. pose proof (i_word s Hi) as Hw.
  pose proof (countb_range rd (cpus s)) as Hrd. pose proof (countb_range wr (cpus s)) as Hwr.
  destruct Hs as [s i Hp|s i Hp Hc|s i Hp Hc|s i Hp|s i Hp Hc|s i Hp Hc|s i Hp|s i Hp|s i m Hp Hm Hs|s i Hp Hm Hc|s i Hp Hm Hc
    |s i Hp Hc|s i Hp Hc|s i Hp|s i m Hp Hm Hs|s i Hp Hm]; try exact Hi.
  all: try (eapply goto_inv; [exact Hi|exact Hp| | | |]; try discriminate; [
    rewrite Hw, <- ?Z.add_opp_r, ?u32_idemp_add; f_equal; unfold weight; cbn; lia|
    intros m Hm'; try (rewrite Hm in Hm'; injection Hm' as <-); try done; by destruct m|..]).
  - intros _. by apply counter_read_room.
  - eapply mcs_inv; [done..|]. intros a b Ha Hb. eapply mcs_steps; [done..|]. intros ->. by apply Hm.
  - intros _. pose proof (counter_write_room s MCSRW_BIAS Hi (or_intror eq_refl) Hc) as Hv. unfold value, MCSRW_BIAS in *. lia.
  - intros _. pose proof (counter_write_room s 0 Hi (or_introl eq_refl)) as Hv. rewrite Z.sub_0_r, Hc in Hv. specialize (Hv eq_refl).
    pose proof (one_writer s Hi). pose proof (countb_pos wr _ _ _ Hp eq_refl). unfold value, MCSRW_BIAS in *. lia.
  - eapply mcs_inv; [done..|]. intros a b Ha Hb. eapply mcs_steps; [done..|]. intros ->. by apply Hm.
Qed.
End Mcsrw.

(** C38: The queued reader-writer lock excludes: in every interleaving of its instructions
    and those of the queue lock inside it, on any number of CPUs the machine can have,
    no two writers hold it and no writer and reader do; and once every CPU is out of the
    lock, the counter is back at [MCSRW_BIAS] and the queue is empty. *)
Theorem mcsrw_lock_exclusive (n : nat) (s : Mcsrw.state) :
  Z.of_nat n ≤ JOS_NCPU → rtc Mcsrw.mcsrw_step (Mcsrw.mcsrw_init n) s →
  (∀ i j, Mcsrw.cpus s !! i = Some Mcsrw.WHeld → Mcsrw.cpus s !! j = Some Mcsrw.WHeld → i = j) ∧
  (∀ i j, Mcsrw.cpus s !! i = Some Mcsrw.WHeld → Mcsrw.cpus s !! j ≠ Some Mcsrw.RHeld) ∧
  ((∀ i p, Mcsrw.cpus s !! i = Some p → p = Mcsrw.Idle) → Mcsrw.x s = Mcsrw.MCSRW_BIAS ∧ Mcs.v (Mcsrw.ml s) = None).
Proof.
  intros Hn Hr. assert (Hi : Mcsrw.inv s).
  { eapply rtc_invariant; [apply Mcsrw.mcsrw_inv_step|by apply Mcsrw.mcsrw_inv_init|exact Hr]. }
  split; [|split].
  - intros i j Hp Hp'. eapply (countb_unique Mcsrw.wr); [by apply Mcsrw.one_writer|exact Hp|done|exact Hp'|done].
  - intros i j Hp Hp'. pose proof (countb_pos Mcsrw.wheld _ _ _ Hp eq_refl) as Hc.
    pose proof (countb_pos Mcsrw.rheld _ _ _ Hp' eq_refl). pose proof (Mcsrw.i_excl _ Hi Hc). lia.
  - intros Hid. split.
    + rewrite (Mcsrw.i_word _ Hi). unfold Mcsrw.value.
      rewrite !(proj2 (countb_none _ _)) by (intros i p Hp; by rewrite (Hid i p Hp)). reflexivity.
    + destruct (Mcsrw.i_ml _ Hi) as [q Hq]. rewrite <- (Mcs.i_last _ _ Hq). destruct q as [|h q]; [done|].
      assert (Hin : h ∈ h :: q) by by left. destruct (Mcs.i_range _ _ Hq h Hin) as [m Hm].
      apply (Mcs.i_queued _ _ Hq _ _ Hm) in Hin. exfalso.
      destruct (lookup_lt_is_Some_2 (Mcsrw.cpus s) h) as [p Hp]; [rewrite <- (Mcsrw.i_len _ Hi); by eapply lookup_lt_Some|].
      pose proof (Mcsrw.i_at _ Hi _ _ _ Hp Hm) as Ha. rewrite (Hid h p Hp) in Ha. by destruct m.
Qed.

(** A writer waits for a reader that holds the lock while a second reader retreats. *)
Lemma mcsrw_lock_exclusive_witness :
  ∃ s, rtc Mcsrw.mcsrw_step (Mcsrw.mcsrw_init 3) s ∧ Mcsrw.cpus s = [Mcsrw.WHeld; Mcsrw.Idle; Mcsrw.RInc] ∧
       ∀ i j, Mcsrw.cpus s !! i = Some Mcsrw.WHeld → Mcsrw.cpus s !! j ≠ Some Mcsrw.RHeld.
Proof.
  eexists. match goal with |- rtc _ _ ?s ∧ _ => assert (Hr : rtc Mcsrw.mcsrw_step (Mcsrw.mcsrw_init 3) s) end.
  - eapply rtc_l; [apply (Mcsrw.read_call _ 1); reflexivity|].
    eapply rtc_l; [apply (Mcsrw.read_got _ 1); [reflexivity|by vm_compute]|].
    eapply rtc_l; [apply (Mcsrw.write_call _ 0); reflexivity|].
    eapply rtc_l; [apply (Mcsrw.write_mcs _ 0); [reflexivity|by vm_compute|apply Mcs.exec_step; reflexivity]|].
    eapply rtc_l; [apply (Mcsrw.write_mcs _ 0); [reflexivity|by vm_compute|apply Mcs.exec_step; reflexivity]|].
    eapply rtc_l; [apply (Mcsrw.write_mcs _ 0); [reflexivity|by vm_compute|apply Mcs.exec_step; reflexivity]|].
    eapply rtc_l; [apply (Mcsrw.write_sub _ 0); [reflexivity|reflexivity|by vm_compute]|].
    eapply rtc_l; [apply (Mcsrw.read_call _ 2); reflexivity|].
    eapply rtc_l; [apply (Mcsrw.read_unlock _ 1); reflexivity|].
    eapply rtc_l; [apply (Mcsrw.write_got _ 0); reflexivity|].
    apply rtc_once. apply (Mcsrw.read_busy _ 2); [reflexivity|by vm_compute].
  - split; [exact Hr|]. split; [reflexivity|].
    exact (proj1 (proj2 (mcsrw_lock_exclusive 3 _ ltac:(vm_compute; discriminate) Hr))).
Defined.
