(* ===== verification/Darray.v ===== *)
(** * Dynamic arrays (kern/kern/darray.c)

    An array of equally sized entries packed into the pages of a page tree, behind
    a reader-writer lock.  The model has the struct as a record and the pages in
    [pmem].  The array's contents are described by the page tree's array view:
    entry [i] is at byte [(i mod da_pp) * da_esz] of page [i / da_pp]. *)
From S2P Require Import Prelude Machine Hashtable Ktypes Kmem PageAlloc Pagetree PageRefs PagetreeSpec PagetreeOps PagetreeWhole PagetreeThms PagetreeFree PagetreeProps Locks.

Definition set_ptl (w : Rw.rwlock) (a : darray) : darray :=
  Darray (da_pt a) w (da_pid a) (da_pp a) (da_esz a) (da_nent a) (da_demand a).
Definition set_pt (pt : pagetree) (a : darray) : darray :=
  Darray pt (da_ptl a) (da_pid a) (da_pp a) (da_esz a) (da_nent a) (da_demand a).
Definition set_nent (n : Z) (a : darray) : darray :=
  Darray (da_pt a) (da_ptl a) (da_pid a) (da_pp a) (da_esz a) n (da_demand a).

(** [PGSIZE / ent_size] traps for an entry size of 0. *)
Definition darray_init (ent_size : Z) (on_demand : bool) (pid : Z) : M pmem darray :=
  c_assert (PGSIZE >=? ent_size);;
  if ent_size =? 0 then undef else
  mret (Darray (pagetree_init on_demand pid) Rw.rw_init pid (PGSIZE / ent_size) ent_size 0 on_demand).

Definition darray_free (a : darray) : M pmem darray :=
  pt ← pagetree_free (da_pt a); mret (set_pt pt a).

(** Returns the error code and, when it is 0, the entry's address. *)
Definition darray_get (a : darray) (i mode : Z) : M pmem (Z * Z * darray) :=
  w ← Rw.rw_read_lock (da_ptl a);
  let a := set_ptl w a in
  if i >=? da_nent a then mret (- E_INVAL, 0, set_ptl (Rw.rw_read_unlock w) a) else
  let npage := i / da_pp a in
  let pagei := u64 ((i mod da_pp a) * da_esz a) in
  '(r, b, pt) ← pagetree_get_page (da_pt a) npage mode;
  let a := set_ptl (Rw.rw_read_unlock w) (set_pt pt a) in
  if r <? 0 then mret (r, 0, a) else mret (0, u64 (b + pagei), a).

(** [for (i = npg; i < curnpg; i++)]: drop the pages past the new end. *)
Fixpoint drop_pages (k : nat) (i : Z) (pt : pagetree) : M pmem pagetree :=
  match k with
  | O => mret pt
  | S k' =>
      '(r, pt) ← pagetree_put_page pt i 0;
      if r <? 0 then panic else drop_pages k' (i + 1) pt
  end.

(** [for (j = curnpg; j < maxalloc; j++) assert(0 == pagetree_put_page(&a->da_pt, j, 0))] *)
Fixpoint undo_pages (k : nat) (j : Z) (pt : pagetree) : M pmem pagetree :=
  match k with
  | O => mret pt
  | S k' =>
      '(r, pt) ← pagetree_put_page pt j 0;
      c_assert (r =? 0);;
      undo_pages k' (j + 1) pt
  end.

(** One page for index [i]: the error code, the page, the new tree and [maxalloc]. *)
Definition alloc_one (pid i maxalloc : Z) (pt : pagetree) : M pmem (Z * Z * pagetree * Z) :=
  '(r, p) ← page_alloc pid;
  if r =? 0 then
    '(r, pt) ← pagetree_put_page pt i p;
    if r <? 0 then page_free p;; mret (r, p, pt, maxalloc) else mret (r, p, pt, u64 (maxalloc + 1))
  else mret (r, p, pt, maxalloc).

Definition clear_page (p : Z) : M pmem unit :=
  page_zero p;; pi ← page_to_pageinfo p; upd_info pi (pi_set_clear true).

(** [for (i = curnpg; !a->da_demand && i < npg; i++)], with [maxalloc]. *)
Fixpoint alloc_pages (k : nat) (i curnpg maxalloc pid : Z) (clear : bool) (pt : pagetree) : M pmem (Z * pagetree) :=
  match k with
  | O => mret (0, pt)
  | S k' =>
      '(r, p, pt, maxalloc) ← alloc_one pid i maxalloc pt;
      if r <? 0 then
        pt ← undo_pages (Z.to_nat (maxalloc - curnpg)) curnpg pt; mret (r, pt)
      else
        when clear (clear_page p);;
        alloc_pages k' (i + 1) curnpg maxalloc pid clear pt
  end.

Definition da_npages (a : darray) (n : Z) : Z := ROUNDUP n (da_pp a) / da_pp a.

Definition darray_set_nent_internal (a : darray) (n : Z) (clear : bool) : M pmem (Z * darray) :=
  let curnpg := da_npages a (da_nent a) in
  let npg := da_npages a n in
  pt ← drop_pages (Z.to_nat (curnpg - npg)) npg (da_pt a);
  '(r, pt) ← (if da_demand a then mret (0, pt)
              else alloc_pages (Z.to_nat (npg - curnpg)) curnpg curnpg curnpg (da_pid a) clear pt);
  if r <? 0 then mret (r, set_pt pt a) else mret (0, set_nent n (set_pt pt a)).

Definition darray_set_nent (a : darray) (n : Z) (clear : bool) : M pmem (Z * darray) :=
  w ← Rw.rw_write_lock (da_ptl a);
  '(r, a) ← darray_set_nent_internal (set_ptl w a) n clear;
  mret (r, set_ptl (Rw.rw_write_unlock (da_ptl a)) a).

Definition darray_grow_nent (a : darray) (n : Z) : M pmem (Z * darray) :=
  w ← Rw.rw_write_lock (da_ptl a);
  let a := set_ptl w a in
  if n <=? da_nent a then mret (0, set_ptl (Rw.rw_write_unlock w) a) else
  '(r, a) ← darray_set_nent_internal a n true;
  mret (r, set_ptl (Rw.rw_write_unlock (da_ptl a)) a).

Definition darray_get_nent (a : darray) : Z := da_nent a.

(** [src] and [dst] are distinct objects; both are returned. *)
Definition darray_copy (src dst : darray) (mode : Z) : M pmem (Z * darray * darray) :=
  if negb (da_nent dst =? 0) || (da_nent src =? 0) then mret (- E_INVAL, src, dst) else
  wd ← Rw.rw_write_lock (da_ptl dst);
  ws ← Rw.rw_write_lock (da_ptl src);
  '(r, ps, pd) ← pagetree_copy (da_pt src) (da_pt dst) mode;
  let dst := if r <? 0 then set_pt pd dst else set_nent (da_nent src) (set_pt pd dst) in
  mret (if r <? 0 then r else 0, set_ptl (Rw.rw_write_unlock ws) (set_pt ps src),
        set_ptl (Rw.rw_write_unlock wd) dst).
