(* ===== verification/DarrayThms.v ===== *)
(** * Dynamic arrays: theorems

    The invariant of [struct darray] and what its operations do to the array:
    growing and shrinking keep the entries that stay, an error leaves the array as
    it was, and every entry address handed out lies in a page of the array. *)
From S2P Require Import Prelude Machine Hashtable Ktypes Kmem PageAlloc Pagetree Supply PageRefs PagetreeSpec PagetreeOps PagetreeWhole PagetreeThms PagetreeFree PagetreeProps Locks Darray.

(** ** What stays

    The entries below [lo], the contents of their pages and everything that
    belongs to others are as before. *)
Record kept (lo : Z) (m : pmem) (pt : pagetree) (N R : list Z) (m' : pmem) (pt' : pagetree) : Prop := Kept {
  kp_inv : pt_inv m' pt' N R;
  kp_low : ∀ n, 0 ≤ n < lo → pt_entry m' pt' n = pt_entry m pt n;
  kp_pages : ∀ n, 0 ≤ n < lo → pe_page (pt_entry m pt n) ≠ 0 →
     pm_page m' !! pe_page (pt_entry m pt n) = pm_page m !! pe_page (pt_entry m pt n);
  kp_other : ∀ q, q ∈ N ∨ q ∈ R → pm_page m' !! q = pm_page m !! q;
  kp_conf : same_conf m pt m' pt';
  kp_clear : ∀ q, q ∈ N ∨ q ∈ R ∨ (∃ n, 0 ≤ n < lo ∧ q = pe_page (pt_entry m pt n) ∧ q ≠ 0) → clear_bit m' q = clear_bit m q;
}.

Lemma kept_refl lo m pt N R : pt_inv m pt N R → kept lo m pt N R m pt.
Proof. intros Hi. by split. Qed.
Lemma kept_trans lo m pt N R m1 pt1 m2 pt2 :
  kept lo m pt N R m1 pt1 → kept lo m1 pt1 N R m2 pt2 → kept lo m pt N R m2 pt2.
Proof.
  intros [_ Hl1 Hp1 Ho1 Hc1 Hb1] [Hi2 Hl2 Hp2 Ho2 Hc2 Hb2]. split; [done| | | |by eapply same_conf_trans|].
  - intros n Hn. by rewrite Hl2, Hl1.
  - intros n Hn H0. rewrite <- (Hl1 n Hn) in H0 |- *. rewrite Hp2 by done. rewrite (Hl1 n Hn) in H0 |- *. by apply Hp1.
  - intros q Hq. by rewrite Ho2, Ho1.
  - intros q Hq. rewrite Hb2; [by apply Hb1|]. destruct Hq as [Hq|[Hq|(n & Hn & -> & H0)]]; [tauto|tauto|]. right. right.
    exists n. by rewrite Hl1.
Qed.
Lemma kept_mono lo lo' m pt N R m' pt' : lo' ≤ lo → kept lo m pt N R m' pt' → kept lo' m pt N R m' pt'.
Proof.
  intros Hlo [Hi Hl Hp Ho Hc Hb]. split; try done; [intros n Hn; apply Hl; lia|intros n Hn; apply Hp; lia|].
  intros q Hq. apply Hb. destruct Hq as [?|[?|(n & Hn & Hq)]]; [tauto|tauto|]. right. right. exists n. split; [lia|done].
Qed.

(** A page of the array is one of its references. *)
Lemma page_in_refs m pt n N R :
  pt_inv m pt N R → 0 ≤ n → pe_page (pt_entry m pt n) ≠ 0 → pe_page (pt_entry m pt n) ∈ pt_refs m pt.
Proof.
  intros Hi Hn H0. destruct (pos_of_page _ _ _ H0) as [pe Hpos]. by eapply entry_in_refs.
Qed.

Lemma put_kept lo m pt i page N R m' pt' :
  put_post m pt i page N R m' pt' → same_conf m pt m' pt' → lo ≤ i → kept lo m pt N R m' pt'.
Proof.
  intros (Hi&He&_&_&_&Hk&Hb) Hc Hlo. split; try done.
  - intros n Hn. apply He; lia.
  - intros n Hn H0. apply Hk. right. right. rewrite <- (He n) in H0 |- * by lia.
    eapply page_in_refs; [done|lia|done].
  - intros q Hq. apply Hk. tauto.
  - intros q Hq. apply Hb. destruct Hq as [?|[?|(n & Hn & -> & H0)]]; [tauto|tauto|]. right. right. rewrite <- (He n) in H0 |- * by lia.
    eapply page_in_refs; [done|lia|done].
Qed.

Lemma grown_kept lo m pt N R m' pt' : pt_grown m pt N R m' pt' → kept lo m pt N R m' pt'.
Proof.
  intros G. pose proof (pg_inv _ _ _ _ _ _ G) as Hi. split; [done| | | |by eapply pt_grown_conf|intros q _; apply G].
  - intros n Hn. apply G. lia.
  - intros n Hn H0. eapply pt_grown_contents; [done|]. right. apply elem_of_app. left.
    rewrite <- (pg_entry _ _ _ _ _ _ G n) in H0 |- * by lia. eapply page_in_refs; [done|lia|done].
  - intros q Hq. eapply pt_grown_contents; [done|]. rewrite elem_of_app. tauto.
Qed.

Lemma entry_past_max m pt n : pt_max ≤ n → pt_entry m pt n = null_ent.
Proof.
  intros Hn. pose proof pt_max_val. unfold pt_entry, PAGETREE_DIRECT_ENTRIES in *.
  rewrite (proj2 (Z.ltb_ge _ _)) by lia. rewrite (proj2 (level_of_none n ltac:(unfold PAGETREE_DIRECT_ENTRIES; lia))); done.
Qed.

(** Dropping a page that is there cannot fail. *)
Lemma put_zero_wp m pt i N R node (Q : Z * pagetree → pmem → Prop) :
  pt_inv m pt N R → 0 ≤ i → home_node (pm_conf m) (pt_pid pt) = Some node →
  pe_page (pt_entry m pt i) ≠ 0 →
  (∀ m' pt', put_post m pt i 0 N R m' pt' → same_conf m pt m' pt' → Q (0, pt') m') →
  wp (pagetree_put_page pt i 0) m Q.
Proof.
  intros Hi Hn Hh H0 HQ. eapply (pagetree_put_page_wp m pt i 0 N R); [exact Hi|done|exact Hh| | |].
  - intros Hmax. by rewrite entry_past_max in H0.
  - intros m' pt' _ Hno _ _. destruct (pos_of_page _ _ _ H0) as [pe Hpos]. by destruct (Hno pe).
  - intros m' pt' _. apply HQ.
Qed.

(** The pages [i .. i + k) are gone, those above are as before. *)
Record emptied (i k : Z) (m : pmem) (pt : pagetree) (N R : list Z) (m' : pmem) (pt' : pagetree) : Prop := Emptied {
  em_kept : kept i m pt N R m' pt';
  em_gone : ∀ n, i ≤ n < i + k → pe_page (pt_entry m' pt' n) = 0;
  em_above : ∀ n, 0 ≤ n → i + k ≤ n → pt_entry m' pt' n = pt_entry m pt n;
}.

Lemma emptied_nil i m pt N R : pt_inv m pt N R → emptied i 0 m pt N R m pt.
Proof. intros Hi. split; [by apply kept_refl|lia|done]. Qed.
Lemma emptied_cons i k m pt N R m1 pt1 m2 pt2 :
  0 ≤ i → 0 ≤ k → put_post m pt i 0 N R m1 pt1 → same_conf m pt m1 pt1 →
  emptied (i + 1) k m1 pt1 N R m2 pt2 → emptied i (k + 1) m pt N R m2 pt2.
Proof.
  intros Hi Hk Hp Hc [Hkp Hg Ha]. pose proof Hp as (_&He&Hz&_). split.
  - eapply kept_trans; [by eapply put_kept|]. eapply kept_mono; [|exact Hkp]. lia.
  - intros n Hn. destruct (decide (n = i)) as [->|]; [|apply Hg; lia].
    rewrite (kp_low _ _ _ _ _ _ _ Hkp) by lia. done.
  - intros n Hn0 Hn. rewrite Ha by lia. apply He; lia.
Qed.

Lemma home_node_same m pt m' pt' node :
  same_conf m pt m' pt' → home_node (pm_conf m) (pt_pid pt) = Some node →
  home_node (pm_conf m') (pt_pid pt') = Some node.
Proof. intros (->&->&_). done. Qed.

(** Shrinking panics only on a page that is not there. *)
Lemma drop_pages_wpx k i m pt N R node (Q : pagetree → pmem → Prop) :
  pt_inv m pt N R → 0 ≤ i → home_node (pm_conf m) (pt_pid pt) = Some node →
  (∀ m' pt', emptied i (Z.of_nat k) m pt N R m' pt' → Q pt' m') →
  wpx (drop_pages k i pt) m Q (∃ n, i ≤ n < i + Z.of_nat k ∧ pe_page (pt_entry m pt n) = 0).
Proof.
  revert i m pt Q. induction k as [|k IH]; intros i m pt Q Hi Hn Hh HQ.
  { apply wp_wpx. simpl. wp_pure. by apply HQ, emptied_nil. }
  simpl. apply wpx_bind_wp. set (X := ∃ n, _ ∧ _).
  assert (Hpanic : ∀ m', pe_page (pt_entry m pt i) = 0 → wpx (panic : M pmem pagetree) m' Q X).
  { intros m' H0. split; [done|]. exists i. split; [lia|done]. }
  eapply (pagetree_put_page_wp m pt i 0 N R); [exact Hi|done|exact Hh| | |].
  - intros Hmax. apply Hpanic. by rewrite entry_past_max.
  - intros m' pt' _ Hno _ _. apply Hpanic. destruct (decide (pe_page (pt_entry m pt i) = 0)) as [|Hp]; [done|].
    destruct (pos_of_page _ _ _ Hp) as [pe Hpos]. by destruct (Hno pe).
  - intros m1 pt1 _ Hp Hc. pose proof Hp as (Hi1&He&_).
    eapply wpx_mono; [eapply (IH (i + 1) m1 pt1 Q); [done|lia|by eapply home_node_same|]|done|].
    + intros m2 pt2 He2. apply HQ. replace (Z.of_nat (S k)) with (Z.of_nat k + 1) by lia.
      eapply emptied_cons; [done|lia|done|done|done].
    + intros (n&Hr&H0). exists n. split; [lia|]. rewrite <- (He n) by lia. done.
Qed.

Lemma undo_pages_wp k i m pt N R node (Q : pagetree → pmem → Prop) :
  pt_inv m pt N R → 0 ≤ i → home_node (pm_conf m) (pt_pid pt) = Some node →
  (∀ n, i ≤ n < i + Z.of_nat k → pe_page (pt_entry m pt n) ≠ 0) →
  (∀ m' pt', emptied i (Z.of_nat k) m pt N R m' pt' → Q pt' m') →
  wp (undo_pages k i pt) m Q.
Proof.
  revert i m pt. induction k as [|k IH]; intros i m pt Hi Hn Hh Hp HQ; simpl; wp_pure.
  { by apply HQ, emptied_nil. }
  eapply put_zero_wp; [exact Hi|done|exact Hh|apply Hp; lia|]. intros m1 pt1 Hpp Hc. wp_pure.
  pose proof Hpp as (Hi1&He&_). eapply (IH (i + 1) m1 pt1); [done|lia|by eapply home_node_same| |].
  - intros n Hr. rewrite He by lia. apply Hp. lia.
  - intros m2 pt2 He2. apply HQ. replace (Z.of_nat (S k)) with (Z.of_nat k + 1) by lia.
    eapply emptied_cons; [done|lia|done|done|done].
Qed.

(** ** Adding pages *)

(** Clearing a page of the array. *)
Lemma clear_page_wp m pt p N R (Q : unit → pmem → Prop) :
  pt_inv m pt N R → p ∈ pt_refs m pt →
  (∀ m', pt_inv m' pt N R → (∀ n, 0 ≤ n → pt_entry m' pt n = pt_entry m pt n) →
     pm_page m' !! p = Some PgZero → (∀ q, q ≠ p → pm_page m' !! q = pm_page m !! q) →
     pm_conf m' = pm_conf m → keep_clear p [] m m' → Q tt m') →
  wp (clear_page p) m Q.
Proof.
  intros Hi Hp HQ. pose proof Hi as [Hinv Hok Hents].
  assert (HpR : p ∈ pt_refs m pt ++ R) by (apply elem_of_app; by left).
  destruct (page_live_addr _ _ (ri_live _ _ _ Hinv _ HpR)) as (pn&i&->&Hat&Hin&Hf).
  assert (Hinv1 : refs_inv (set_page (page_addr pn) PgZero m) (pt_nodes m pt ++ N) (pt_refs m pt ++ R)).
  { apply refs_set_page; [done|]. by eapply refs_ref_contents. }
  unfold clear_page, page_zero. wp_pure. apply wp_write_page; [by eapply refs_ref_contents|].
  set (m1 := set_page _ _ m) in *.
  assert (Hat1 : page_at m1 pn (page_addr pn)) by (by apply page_at_conf with m).
  wp_pure. eapply page_to_pageinfo_page; [apply Hinv1|exact Hat1|]. wp_pure.
  eapply wp_upd_info; [exact Hin|]. set (m2 := set_info _ _ m1).
  assert (Hs : same_pages (pt_nodes m pt) m m2).
  { intros q Hq. unfold m2, m1. simpl. apply lookup_insert_ne. intros <-.
    eapply (refs_disjoint _ _ _ _ Hinv); [|exact HpR]. apply elem_of_app. by left. }
  apply HQ.
  - eapply pt_inv_ext; [exact Hi|done|]. by apply refs_set_clear.
  - by apply pt_ext.
  - apply lookup_insert_eq.
  - intros q Hq. by apply lookup_insert_ne.
  - done.
  - intros pq [Hq|?%not_elem_of_nil]; [|done]. eapply (clear_bit_info m); [exact Hin|done|right]. rewrite page_number. congruence.
Qed.

(** [p] belongs to nobody. *)
Definition apart (p : Z) (m : pmem) (pt : pagetree) (N R : list Z) : Prop :=
  ∀ q, q ∈ pt_refs m pt ∨ q ∈ N ∨ q ∈ R → q ≠ p.

(** A page allocated on behalf of a tree, not yet in it. *)
Lemma alloc_for_tree m m1 pt p N R :
  pt_inv m pt N R → refs_inv m1 (p :: pt_nodes m pt ++ N) (pt_refs m pt ++ R) → pm_page m1 = pm_page m →
  p ≠ 0 ∧ pt_inv m1 pt (handed p ++ N) R ∧ apart p m pt N R.
Proof.
  intros Hi Hi1 Hpg. assert (Hp0 : p ≠ 0) by (eapply page_live_nonzero, refs_node_live; [exact Hi1|by left]).
  split; [done|]. split.
  - unfold handed. rewrite (proj2 (Z.eqb_neq _ _)) by done. eapply pt_inv_ext; [done| |].
    + intros q _. by rewrite Hpg.
    + rewrite Permutation_app_swap_app. exact Hi1.
  - intros q Hq ->. destruct (refs_nodup_l _ [p] _ _ Hi1) as [_ Hno].
    assert (Hn : p ∉ pt_nodes m pt ++ N) by (apply Hno; by left).
    assert (Hr : p ∉ pt_refs m pt ++ R) by (intros Hp; by eapply (refs_disjoint _ _ _ p Hi1); [left|]).
    rewrite elem_of_app in Hn, Hr. tauto.
Qed.

(** The page is handed back because the tree has no room for it. *)
Lemma give_back_wp m1 pt p N R (Q : unit → pmem → Prop) :
  p ≠ 0 → pt_inv m1 pt (handed p ++ N) R →
  (∀ m', pt_inv m' pt N R → (∀ n, 0 ≤ n → pt_entry m' pt n = pt_entry m1 pt n) →
     (∀ q, q ≠ p → pm_page m' !! q = pm_page m1 !! q) → pm_conf m' = pm_conf m1 → keep_clear p R m1 m' → Q tt m') →
  wp (page_free p) m1 Q.
Proof.
  intros Hp0 Hi1 HQ. pose proof Hi1 as [Hinv _ _].
  unfold handed in *. rewrite (proj2 (Z.eqb_neq _ _)) in Hinv by done.
  rewrite Permutation_app_swap_app in Hinv.
  eapply refs_free_node; [exact Hinv|]. intros m2 Hi2 Hc Hpg _ _ Hb.
  assert (Hs : same_pages (pt_nodes m1 pt) m1 m2).
  { intros q Hq. apply Hpg. intros ->. apply (refs_nodup_l m1 [p] _ _) in Hinv as [_ Hno].
    apply (Hno p); [by left|]. apply elem_of_app. by left. }
  apply HQ; [|by apply pt_ext|done|done|intros pn [?|?]; apply Hb; [by left|right; apply elem_of_app; by right]]. by eapply pt_inv_ext.
Qed.

(** The tree is the same array, and nothing referenced changed. *)
Definition unchanged (m : pmem) (pt : pagetree) (N R : list Z) (m' : pmem) (pt' : pagetree) : Prop :=
  ∀ lo, kept lo m pt N R m' pt'.


Lemma give_back_unchanged m m1 pt p N R m2 pt2 (Q : unit → pmem → Prop) :
  pt_inv m pt N R → pm_page m1 = pm_page m → pm_conf m1 = pm_conf m → (∀ q, clear_bit m1 q = clear_bit m q) → p ≠ 0 → apart p m pt N R →
  pt_grown m1 pt (handed p ++ N) R m2 pt2 →
  (∀ m3, unchanged m pt N R m3 pt2 → Q tt m3) → wp (page_free p) m2 Q.
Proof.
  intros Hi Hpg Hc Hb Hp0 HpR G HQ. pose proof (pg_inv _ _ _ _ _ _ G) as Hi2.
  destruct (pt_ext m m1 pt) as (_&_&_&He1); [intros q _; by rewrite Hpg|].
  eapply give_back_wp; [done|exact Hi2|]. intros m3 Hi3 He3 Hpg3 Hc3 Hb3. apply HQ. intros lo.
  destruct (grown_kept lo _ _ _ _ _ _ G) as [_ Hl Hp Ho (Ha&Hb'&Hd) _]. split; [done| | | | |].
  - intros n Hn. rewrite He3, Hl, He1 by lia. done.
  - intros n Hn H0. rewrite Hpg3.
    + rewrite <- Hpg. rewrite <- (He1 n) in H0 |- * by lia. by apply Hp.
    + apply HpR. left. eapply page_in_refs; [done|lia|done].
  - intros q Hq. rewrite Hpg3 by (apply HpR; by right). rewrite <- Hpg. apply Ho.
    rewrite elem_of_app. tauto.
  - split_and!; congruence.
  - intros q Hq. assert (Hq' : q ∈ pt_refs m pt ∨ q ∈ N ∨ q ∈ R).
    { destruct Hq as [?|[?|(n & Hn & -> & H0)]]; [tauto|tauto|left; eapply page_in_refs; [done|lia|done]]. }
    rewrite <- Hb, <- (pg_clear _ _ _ _ _ _ G). eapply keep_clear_live; [exact Hb3| |left; by apply HpR].
    pose proof Hi2 as [Hinv2 _ _]. rewrite <- (proj1 (proj2 (pt_ext m m1 pt (λ q _, f_equal (.!! q) Hpg)))) in Hq'.
    destruct Hq' as [Hr|[Hr|Hr]]; [eapply ri_live|eapply refs_node_live|eapply ri_live]; try exact Hinv2; rewrite ?(pg_refs _ _ _ _ _ _ G), !elem_of_app; tauto.
Qed.

(** Putting a page that was just allocated, seen from before the allocation. *)
Lemma put_post_pages m m1 pt i va N R m2 pt2 :
  pm_page m1 = pm_page m → pm_conf m1 = pm_conf m → (∀ q, clear_bit m1 q = clear_bit m q) →
  put_post m1 pt i va N R m2 pt2 → same_conf m1 pt m2 pt2 →
  put_post m pt i va N R m2 pt2 ∧ same_conf m pt m2 pt2.
Proof.
  intros Hpg Hc Hclr (Hi2&He2&Hp2&Hmd&Hr2&Hk2&Hb2) (Ha&Hb&Hd).
  destruct (pt_ext m m1 pt) as (_&Hr1&_&He1); [intros q _; by rewrite Hpg|].
  split; [|split_and!; congruence]. split_and!; try done.
  - intros n Hn0 Hne. rewrite He2 by done. by apply He1.
  - intros q Hq. rewrite <- Hr1. by apply Hr2.
  - intros q Hq. rewrite Hk2 by done. by rewrite Hpg.
  - intros q Hq. by rewrite Hb2.
Qed.

Lemma alloc_one_wp m pt i mx pid N R node (Q : Z * Z * pagetree * Z → pmem → Prop) :
  pt_inv m pt N R → 0 ≤ i → pt_pid pt = pid → home_node (pm_conf m) pid = Some node →
  (∀ r p m' pt', r = - E_NO_MEM ∨ r = - E_NO_SPACE → unchanged m pt N R m' pt' → Q (r, p, pt', mx) m') →
  (∀ p m' pt', p ≠ 0 → apart p m pt N R → put_post m pt i p N R m' pt' → same_conf m pt m' pt' →
     Q (0, p, pt', u64 (mx + 1)) m') →
  wp (alloc_one pid i mx pt) m Q.
Proof.
  intros Hi Hn <- Hh Hfail Hok. unfold alloc_one. wp_pure. pose proof Hi as [Hinv _ _].
  eapply refs_alloc; [exact Hinv|exact Hh| |].
  { intros f p Hif _. wp_pure. change (- E_NO_MEM =? 0) with false. wp_pure. apply Hfail; [by left|].
    intros lo. apply grown_kept, pt_grown_failures; [by apply pt_grown_refl|]. by eapply pt_inv_ext. }
  intros p m1 Hi1 Hpg Hc _ _ Hb. wp_pure.
  destruct (alloc_for_tree _ _ _ _ _ _ Hi Hi1 Hpg) as (Hp0&Hpt1&HpR).
  assert (Hback : ∀ r m2 pt2, r = - E_NO_MEM ∨ r = - E_NO_SPACE → pt_grown m1 pt (handed p ++ N) R m2 pt2 →
    wp (if r <? 0 then page_free p;; mret (r, p, pt2, mx) else mret (r, p, pt2, u64 (mx + 1))) m2 Q).
  { intros r m2 pt2 Hr G. rewrite (proj2 (Z.ltb_lt r 0)) by (destruct Hr as [-> | ->]; done). wp_pure.
    eapply give_back_unchanged; [exact Hi|exact Hpg|exact Hc|exact Hb|done|done|exact G|]. intros m3 Hu. wp_pure. by apply Hfail. }
  eapply pagetree_put_page_wp; [exact Hpt1|done|by rewrite Hc| | |].
  - intros _. apply Hback; [by right|]. by apply pt_grown_refl.
  - intros m2 pt2 _ _ _ G. apply Hback; [by left|done].
  - intros m2 pt2 _ Hpp Hc2. destruct (put_post_pages m m1 pt i p N R m2 pt2) as [Hpp' Hc']; [done..|].
    wp_pure. by apply Hok.
Qed.

(** Page [n] of the array is there, cleared if it should be, and nobody else's. *)
Definition filled (clear : bool) (R : list Z) (m : pmem) (pt : pagetree) (n : Z) : Prop :=
  pe_page (pt_entry m pt n) ≠ 0 ∧ (clear = true → pm_page m !! pe_page (pt_entry m pt n) = Some PgZero) ∧
  (pe_page (pt_entry m pt n) ∉ R) ∧ pe_mode (pt_entry m pt n) = page_excl.

(** Growing from [cur] pages has reached page [i]. *)
Record growing (clear : bool) (cur i : Z) (m : pmem) (pt : pagetree) (N R : list Z) (m' : pmem) (pt' : pagetree)
    : Prop := Growing {
  gw_kept : kept cur m pt N R m' pt';
  gw_new : ∀ n, cur ≤ n < i → filled clear R m' pt' n;
  gw_above : ∀ n, i ≤ n → pe_page (pt_entry m' pt' n) = 0;
}.

Lemma growing_step clear cur i m0 pt0 N R m pt p m1 pt1 m2 :
  growing clear cur i m0 pt0 N R m pt → 0 ≤ cur ≤ i → p ≠ 0 → apart p m pt N R →
  put_post m pt i p N R m1 pt1 → same_conf m pt m1 pt1 →
  pt_inv m2 pt1 N R → (∀ n, 0 ≤ n → pt_entry m2 pt1 n = pt_entry m1 pt1 n) →
  (clear = true → pm_page m2 !! p = Some PgZero) → (∀ q, q ≠ p → pm_page m2 !! q = pm_page m1 !! q) →
  pm_conf m2 = pm_conf m1 → keep_clear p [] m1 m2 → growing clear cur (i + 1) m0 pt0 N R m2 pt1.
Proof.
  intros [Hk Hnew Hab] Hcur Hp0 HpR Hpp Hc1 Hi2 He2 Hz Hpg Hcf Hclr.
  pose proof (put_kept i _ _ _ _ _ _ _ _ Hpp Hc1 ltac:(lia)) as Hk1.
  pose proof Hpp as (Hi1&He1&Hp1&Hmd&Hr1&_). pose proof (kp_inv _ _ _ _ _ _ _ Hk) as Hi.
  assert (Hold : ∀ n, 0 ≤ n < i → pe_page (pt_entry m pt n) ≠ 0 →
    pm_page m2 !! pe_page (pt_entry m pt n) = pm_page m !! pe_page (pt_entry m pt n)).
  { intros n Hn H0. rewrite Hpg by (apply HpR; left; eapply page_in_refs; [done|lia|done]).
    by apply (kp_pages _ _ _ _ _ _ _ Hk1). }
  assert (Hlow : ∀ n, 0 ≤ n → n ≠ i → pt_entry m2 pt1 n = pt_entry m pt n).
  { intros n Hn Hne. rewrite He2 by done. by apply He1. }
  split.
  - eapply kept_trans; [exact Hk|]. split; [done| | | | |].
    + intros n Hn. apply Hlow; lia.
    + intros n Hn. apply Hold. lia.
    + intros q Hq. rewrite Hpg by (apply HpR; by right). by apply (kp_other _ _ _ _ _ _ _ Hk1).
    + destruct Hc1 as (Ha&Hb&Hd). split_and!; congruence.
    + intros q Hq. assert (Hq' : q ∈ pt_refs m pt ∨ q ∈ N ∨ q ∈ R).
      { destruct Hq as [?|[?|(n & Hn & -> & H0)]]; [tauto|tauto|left; eapply page_in_refs; [done|lia|done]]. }
      rewrite <- (kp_clear _ _ _ _ _ _ _ Hk1) by (destruct Hq as [?|[?|(n & Hn & ?)]]; [tauto|tauto|right; right; exists n; split; [lia|done]]).
      eapply keep_clear_live; [exact Hclr| |left; by apply HpR]. pose proof Hi1 as [Hinv1 _ _].
      destruct Hq as [Hr|[Hr|(n & Hn & -> & H0)]]; [eapply refs_node_live|eapply ri_live|eapply ri_live]; try exact Hinv1; rewrite elem_of_app; [tauto|tauto|].
      left. rewrite <- (He1 n) in H0 |- * by lia. eapply page_in_refs; [done|lia|done].
  - intros n Hn. destruct (decide (n = i)) as [->|Hne].
    + unfold filled. rewrite He2, Hp1 by lia. split_and!; [done|done| |done]. intros HR. by apply (HpR p); [right; right|].
    + unfold filled. rewrite Hlow by lia. destruct (Hnew n) as (H0&Hc&Hx); [lia|]. split_and!; [done| |apply Hx..].
      intros Hcl. rewrite Hold by (done || lia). by apply Hc.
  - intros n Hn. rewrite Hlow by lia. apply Hab. lia.
Qed.

Lemma growing_unchanged clear cur i m0 pt0 N R m pt m' pt' :
  growing clear cur i m0 pt0 N R m pt → 0 ≤ cur ≤ i → unchanged m pt N R m' pt' →
  kept cur m0 pt0 N R m' pt' ∧ (∀ n, 0 ≤ n → pt_entry m' pt' n = pt_entry m pt n).
Proof.
  intros [Hk Hnew Hab] Hcur Hu. split; [by eapply kept_trans|].
  intros n Hn. apply (kp_low _ _ _ _ _ _ _ (Hu (n + 1))). lia.
Qed.

Lemma alloc_pages_wp clear k i cur pid m0 pt0 N R m pt node (Q : Z * pagetree → pmem → Prop) :
  growing clear cur i m0 pt0 N R m pt → 0 ≤ cur ≤ i → i + Z.of_nat k < 2 ^ 64 →
  pt_pid pt = pid → home_node (pm_conf m) pid = Some node →
  (∀ r m' pt', r = - E_NO_MEM ∨ r = - E_NO_SPACE → kept cur m0 pt0 N R m' pt' →
     (∀ n, cur ≤ n → pe_page (pt_entry m' pt' n) = 0) → Q (r, pt') m') →
  (∀ m' pt', growing clear cur (i + Z.of_nat k) m0 pt0 N R m' pt' → Q (0, pt') m') →
  wp (alloc_pages k i cur i pid clear pt) m Q.
Proof.
  revert i m pt. induction k as [|k IH]; intros i m pt Hg Hcur Hk Hpid Hh Hfail Hok; simpl; wp_pure.
  { apply Hok. by rewrite Z.add_0_r. }
  pose proof (kp_inv _ _ _ _ _ _ _ (gw_kept _ _ _ _ _ _ _ _ _ Hg)) as Hi.
  eapply alloc_one_wp; [exact Hi|lia|done|exact Hh| |].
  - intros r p m1 pt1 Hr Hu. cbv beta iota. rewrite (proj2 (Z.ltb_lt r 0)) by (destruct Hr as [-> | ->]; done).
    destruct (growing_unchanged _ _ _ _ _ _ _ _ _ _ _ Hg Hcur Hu) as [Hk1 He1].
    pose proof (Hu 0) as Hu0. wp_pure.
    eapply undo_pages_wp; [apply Hu0|lia|eapply home_node_same; [apply Hu0|by rewrite Hpid]| |].
    + intros n Hn. rewrite He1 by lia. apply (gw_new _ _ _ _ _ _ _ _ _ Hg). lia.
    + intros m2 pt2 [Hk2 Hgone Habove]. wp_pure. apply Hfail; [done|by eapply kept_trans|].
      intros n Hn. destruct (decide (n < i)) as [Hlt|Hge]; [apply Hgone; lia|].
      rewrite Habove, He1 by lia. apply (gw_above _ _ _ _ _ _ _ _ _ Hg). lia.
  - intros p m1 pt1 Hp0 Hap Hpp Hc1. wp_pure.
    assert (Hnext : ∀ m2, pt_inv m2 pt1 N R → (∀ n, 0 ≤ n → pt_entry m2 pt1 n = pt_entry m1 pt1 n) →
      (clear = true → pm_page m2 !! p = Some PgZero) → (∀ q, q ≠ p → pm_page m2 !! q = pm_page m1 !! q) →
      pm_conf m2 = pm_conf m1 → keep_clear p [] m1 m2 → wp (alloc_pages k (i + 1) cur (u64 (i + 1)) pid clear pt1) m2 Q).
    { intros m2 H1 H2 H3 H4 H5 H6. rewrite u64_small by (unfold in_u64; lia). destruct Hc1 as (Ha&Hb&Hd).
      apply IH; [|lia|lia|congruence|congruence|done|].
      - by eapply (growing_step clear cur i m0 pt0 N R m pt p m1 pt1).
      - replace (i + 1 + Z.of_nat k) with (i + Z.of_nat (S k)) by lia. done. }
    pose proof Hpp as (Hi1&_&Hp1&_). destruct clear; simpl; wp_pure.
    + eapply clear_page_wp; [exact Hi1| |].
      * rewrite <- Hp1. eapply page_in_refs; [done|lia|by rewrite Hp1].
      * intros m2 H1 H2 H3 H4 H5 H6. wp_pure. by apply Hnext.
    + by apply Hnext.
Qed.

(** ** The invariant of an array *)

Record da_ok (m : pmem) (a : darray) (N R : list Z) : Prop := DaOk {
  do_pt : pt_inv m (da_pt a) N R;
  do_esz : 0 < da_esz a ≤ PGSIZE;
  do_pp : da_pp a = PGSIZE / da_esz a;
  do_pid : pt_pid (da_pt a) = da_pid a;
  do_demand : pt_demand (da_pt a) = da_demand a;
  do_nent : 0 ≤ da_nent a ∧ da_nent a + da_pp a - 1 < 2 ^ 64;
  do_out : ∀ n, da_npages a (da_nent a) ≤ n → pe_page (pt_entry m (da_pt a) n) = 0;
  do_in : da_demand a = false → ∀ n, 0 ≤ n < da_npages a (da_nent a) → pe_page (pt_entry m (da_pt a) n) ≠ 0;
}.
Definition da_inv (m : pmem) (a : darray) (N R : list Z) : Prop :=
  da_ok m a N R ∧ da_ptl a = Rw.RW_LOCK_BIAS.

(** Everything but the tree, the lock and the length. *)
Definition same_shape (a a' : darray) : Prop :=
  da_pid a' = da_pid a ∧ da_pp a' = da_pp a ∧ da_esz a' = da_esz a ∧ da_demand a' = da_demand a.

Lemma da_pp_pos m a N R : da_ok m a N R → 0 < da_pp a ≤ PGSIZE.
Proof.
  intros [_ He -> _ _ _ _ _]. split.
  - apply Z.div_str_pos. lia.
  - apply Z.div_le_upper_bound; nia.
Qed.

(** In range, [da_npages] is the number of pages that hold [n] entries. *)
Lemma da_npages_val m a N R n :
  da_ok m a N R → 0 ≤ n → n + da_pp a - 1 < 2 ^ 64 → da_npages a n = (n + da_pp a - 1) / da_pp a.
Proof.
  intros Ha Hn Hov. pose proof (da_pp_pos _ _ _ _ Ha). unfold da_npages.
  apply ROUNDUP_div; unfold in_u64; lia.
Qed.
Lemma da_npages_range m a N R n :
  da_ok m a N R → 0 ≤ n → n + da_pp a - 1 < 2 ^ 64 → 0 ≤ da_npages a n < 2 ^ 64.
Proof.
  intros Ha Hn Hov. pose proof (da_pp_pos _ _ _ _ Ha). rewrite (da_npages_val _ _ _ _ _ Ha) by done.
  split; [apply Z.div_pos; lia|]. apply Z.div_lt_upper_bound; nia.
Qed.
(** Entry [i] of [n] is on one of the pages. *)
Lemma da_page_of m a N R n i :
  da_ok m a N R → 0 ≤ i < n → n + da_pp a - 1 < 2 ^ 64 → 0 ≤ i / da_pp a < da_npages a n.
Proof.
  intros Ha Hi Hov. pose proof (da_pp_pos _ _ _ _ Ha). rewrite (da_npages_val _ _ _ _ _ Ha) by lia.
  split; [apply Z.div_pos; lia|].
  assert (i / da_pp a + 1 = (i + 1 * da_pp a) / da_pp a) by (rewrite Z.div_add; lia).
  assert ((i + 1 * da_pp a) / da_pp a ≤ (n + da_pp a - 1) / da_pp a) by (apply Z.div_le_mono; lia). lia.
Qed.

(** A new tree and length for the array. *)
Lemma da_ok_update m a N R lo m' pt' n :
  da_ok m a N R → kept lo m (da_pt a) N R m' pt' → 0 ≤ n → n + da_pp a - 1 < 2 ^ 64 →
  (∀ k, da_npages a n ≤ k → pe_page (pt_entry m' pt' k) = 0) →
  (da_demand a = false → ∀ k, 0 ≤ k < da_npages a n → pe_page (pt_entry m' pt' k) ≠ 0) →
  da_ok m' (set_nent n (set_pt pt' a)) N R.
Proof.
  intros [Hpt He Hp Hpid Hd _ _ _] [Hi _ _ _ (_&Hpid'&Hd')] Hn Hov Hout Hin. split; simpl; try done; congruence.
Qed.

(** The outcome of changing the length to [n]. *)
Definition set_nent_post (m : pmem) (a : darray) (n : Z) (clear : bool) (N R : list Z)
    (res : Z * darray) (m' : pmem) : Prop :=
  let '(r, a') := res in
  let cur := da_npages a (da_nent a) in let npg := da_npages a n in
  da_ok m' a' N R ∧ same_shape a a' ∧ da_ptl a' = da_ptl a ∧
  ((r = 0 ∧ da_nent a' = n ∧ kept (Z.min cur npg) m (da_pt a) N R m' (da_pt a') ∧
    (da_demand a = false → ∀ k, cur ≤ k < npg → filled clear R m' (da_pt a') k)) ∨
   ((r = - E_NO_MEM ∨ r = - E_NO_SPACE) ∧ da_demand a = false ∧ cur < npg ∧
    da_nent a' = da_nent a ∧ kept cur m (da_pt a) N R m' (da_pt a'))).

(** A shrink meets a page that a demand-allocated array never touched. *)
Definition shrinks_hole (m : pmem) (a : darray) (n : Z) : Prop :=
  da_demand a = true ∧
  ∃ k, da_npages a n ≤ k < da_npages a (da_nent a) ∧ pe_page (pt_entry m (da_pt a) k) = 0.

(** After the pages past the new end are dropped. *)
Lemma dropped_tail m a n N R m1 pt1 :
  da_ok m a N R → 0 ≤ n → n + da_pp a - 1 < 2 ^ 64 →
  let cur := da_npages a (da_nent a) in let npg := da_npages a n in
  emptied npg (Z.of_nat (Z.to_nat (cur - npg))) m (da_pt a) N R m1 pt1 →
  kept (Z.min cur npg) m (da_pt a) N R m1 pt1 ∧
  ∀ k, Z.min cur npg ≤ k → pe_page (pt_entry m1 pt1 k) = 0.
Proof.
  intros Ha Hn Hov cur npg [Hk Hg Hab].
  destruct (da_npages_range _ _ _ _ n Ha Hn Hov) as [Hn0 _]. fold npg in Hn0.
  destruct (do_nent _ _ _ _ Ha) as [Hc Hco]. destruct (da_npages_range _ _ _ _ _ Ha Hc Hco) as [Hc0 _]. fold cur in Hc0.
  pose proof (do_out _ _ _ _ Ha) as Hout. fold cur in Hout. split; [eapply kept_mono; [|exact Hk]; lia|].
  intros k Hkk. destruct (decide (k < npg)).
  - rewrite (kp_low _ _ _ _ _ _ _ Hk) by lia. apply Hout. lia.
  - destruct (decide (k < cur)); [apply Hg; lia|]. rewrite Hab by lia. apply Hout. lia.
Qed.

Lemma set_nent_internal_wpx m a n clear N R node :
  da_ok m a N R → 0 ≤ n → n + da_pp a - 1 < 2 ^ 64 → home_node (pm_conf m) (da_pid a) = Some node →
  wpx (darray_set_nent_internal a n clear) m (set_nent_post m a n clear N R) (shrinks_hole m a n).
Proof.
  intros Ha Hn Hov Hh. pose proof Ha as [Hpt _ _ Hpid _ [Hc Hco] Hout Hin].
  pose proof (da_npages_range _ _ _ _ n Ha Hn Hov) as Hn0.
  pose proof (da_npages_range _ _ _ _ _ Ha Hc Hco) as Hc0.
  unfold darray_set_nent_internal. set (cur := da_npages a (da_nent a)) in *. set (npg := da_npages a n) in *.
  apply wpx_bind. eapply wpx_mono;
    [eapply (drop_pages_wpx _ npg m (da_pt a) N R node
       (λ pt1 m1, kept (Z.min cur npg) m (da_pt a) N R m1 pt1 ∧
                  ∀ k, Z.min cur npg ≤ k → pe_page (pt_entry m1 pt1 k) = 0))| |].
  - done.
  - lia.
  - by rewrite Hpid.
  - intros m1 pt1 He. by apply (dropped_tail m a n N R m1 pt1).
  - intros pt1 m1 [Hk1 Hz1]. apply wp_wpx, wp_bind. pose proof (kp_conf _ _ _ _ _ _ _ Hk1) as (Hcf&Hpid1&_).
    assert (Hdone : (da_demand a = false → npg ≤ cur) → wp (mret (0, set_nent n (set_pt pt1 a))) m1
        (set_nent_post m a n clear N R)).
    { intros Hcase. wp_pure. split_and!; [|done|done|left].
      - eapply da_ok_update; [done|exact Hk1|done|done| |].
        + intros k Hkk. apply Hz1. fold npg in Hkk. lia.
        + intros Hd k Hkk. fold npg in Hkk. specialize (Hcase Hd).
          rewrite (kp_low _ _ _ _ _ _ _ Hk1) by lia. apply Hin; [done|lia].
      - split_and!; [done|done|done|]. intros Hd k Hkk. specialize (Hcase Hd). fold cur npg in Hkk. lia. }
    destruct (da_demand a) eqn:Hd; [wp_pure; by apply Hdone|].
    destruct (decide (npg ≤ cur)) as [Hle|Hgt].
    { replace (Z.to_nat (npg - cur)) with 0%nat by lia. simpl. wp_pure. by apply Hdone. }
    replace (Z.min cur npg) with cur in Hk1, Hz1 by lia.
    eapply (alloc_pages_wp clear _ cur cur (da_pid a) m (da_pt a) N R); [split; [exact Hk1|lia|exact Hz1]|lia|lia
      |congruence|by rewrite Hcf| |].
    + intros r m2 pt2 Hr Hk2 Hz2. rewrite (proj2 (Z.ltb_lt r 0)) by (destruct Hr as [-> | ->]; done). wp_pure.
      split_and!; [|done|done|right; fold cur npg; split_and!; try done; lia].
      eapply (da_ok_update m a N R cur m2 pt2 (da_nent a)); [done|done|done|done|done|].
      intros _ k Hkk. rewrite (kp_low _ _ _ _ _ _ _ Hk2) by done. by apply Hin.
    + replace (cur + Z.of_nat (Z.to_nat (npg - cur))) with npg by lia. intros m2 pt2 [Hk2 Hnew Hab]. wp_pure.
      split_and!; [|done|done|left; fold cur npg; split_and!; try done].
      * eapply (da_ok_update m a N R cur m2 pt2 n); [done..|].
        intros _ k Hkk. fold npg in Hkk. destruct (decide (k < cur)); [|apply Hnew; lia].
        rewrite (kp_low _ _ _ _ _ _ _ Hk2) by lia. apply Hin; [done|lia].
      * replace (Z.min cur npg) with cur by lia. done.
  - intros (k&Hk&H0). fold npg in Hk. assert (Hkr : npg ≤ k < cur) by lia. split.
    + destruct (da_demand a) eqn:Hd; [done|]. exfalso. apply (Hin eq_refl k); [lia|done].
    + by exists k.
Qed.
