(* ===== verification/DarrayProps.v ===== *)
(** * Dynamic arrays: properties

    Getting an entry, changing the length, and the two ways in which changing the
    length goes wrong. *)
From S2P Require Import Prelude Machine Hashtable Ktypes Kmem PageAlloc Pagetree Supply PageRefs PagetreeSpec PagetreeOps PagetreeWhole PagetreeThms PagetreeFree PagetreeProps Locks Darray DarrayThms.

(** What a reader of page [n] sees, if there is a page. *)
Definition seen (m : pmem) (pt : pagetree) (n : Z) : option page :=
  if pe_page (pt_entry m pt n) =? 0 then None else pm_page m !! pe_page (pt_entry m pt n).

Lemma seen_page m pt n : pe_page (pt_entry m pt n) ≠ 0 → seen m pt n = pm_page m !! pe_page (pt_entry m pt n).
Proof. intros H0. unfold seen. by rewrite (proj2 (Z.eqb_neq _ _)). Qed.
Lemma seen_none m pt n : pe_page (pt_entry m pt n) = 0 → seen m pt n = None.
Proof. intros H0. unfold seen. by rewrite H0. Qed.
Lemma seen_same m pt m' pt' n :
  pt_entry m' pt' n = pt_entry m pt n →
  (pe_page (pt_entry m pt n) ≠ 0 → pm_page m' !! pe_page (pt_entry m pt n) = pm_page m !! pe_page (pt_entry m pt n)) →
  seen m' pt' n = seen m pt n.
Proof. intros He Hp. unfold seen. rewrite He. case_match eqn:E; [done|]. apply Hp. by apply Z.eqb_neq. Qed.
Lemma kept_seen lo m pt N R m' pt' n :
  kept lo m pt N R m' pt' → 0 ≤ n < lo → seen m' pt' n = seen m pt n.
Proof. intros [_ Hl Hp _ _] Hn. apply seen_same; [by apply Hl|by apply Hp]. Qed.

Lemma page_live_bound m p : alloc_inv m → page_live m p → 0 < p ∧ p + PGSIZE < 2 ^ 64.
Proof.
  intros [[Hc _]] (pn&i&[-> Hpn]&_). unfold PHYSBASE. change PGSIZE with 4096. lia.
Qed.

(** A tree one of whose pages was replaced or added is otherwise the same. *)
Lemma fresh_seen m pt n p c b N R m' pt' :
  pt_inv m pt N R → 0 ≤ n → fresh_post m pt n p c b N R m' pt' →
  pe_page (pt_entry m' pt' n) = p ∧ seen m' pt' n = c ∧
  (∀ k, 0 ≤ k → k ≠ n → seen m' pt' k = seen m pt k) ∧
  (∀ q, q ∈ N ∨ q ∈ R → pm_page m' !! q = pm_page m !! q).
Proof.
  intros Hi Hn (Hi'&He&Hen&Hp0&Hfree&[Hc _]&Hk). pose proof Hi as [Hinv _ _].
  assert (Hnot : ∀ q, page_live m q → q ≠ p) by (intros q Hq ->; by eapply page_live_not_free).
  split_and!.
  - by rewrite Hen.
  - rewrite seen_page; rewrite Hen; done.
  - intros k Hk0 Hne. apply seen_same; [by apply He|]. intros H0.
    assert (Hin : pe_page (pt_entry m pt k) ∈ pt_refs m pt) by (by eapply page_in_refs).
    apply Hk.
    + apply Hnot. apply (ri_live _ _ _ Hinv). apply elem_of_app. by left.
    + right. right. rewrite <- (He k) in H0 |- * by done. by eapply page_in_refs.
  - intros q Hq. apply Hk; [|tauto]. apply Hnot.
    destruct Hq as [Hq|Hq]; [eapply refs_node_live|eapply ri_live]; [exact Hinv| |exact Hinv|]; apply elem_of_app; by right.
Qed.

(** ** Getting an entry *)

(** The address of entry [i]: inside its page, at its offset. *)
Definition ent_addr (m : pmem) (a : darray) (i : Z) : Z :=
  pe_page (pt_entry m (da_pt a) (i / da_pp a)) + (i mod da_pp a) * da_esz a.

(** Which pages are marked as cleared, from one state to the next: a new page at entry [n]
    is not; a page that is cleared stays so, also when it is copied; nothing changes for
    other entries. *)
Definition cleared_after (m : pmem) (pt : pagetree) (m' : pmem) (pt' : pagetree) (n : Z) : Prop :=
  let old := pe_page (pt_entry m pt n) in
  let new := pe_page (pt_entry m' pt' n) in
  (old = 0 → clear_bit m' new = false) ∧ (old ≠ 0 → clear_bit m old = true → clear_bit m' new = true) ∧
  (∀ k, 0 ≤ k → k ≠ n → pe_page (pt_entry m pt k) ≠ 0 →
     clear_bit m' (pe_page (pt_entry m pt k)) = clear_bit m (pe_page (pt_entry m pt k))).

Definition get_post (m : pmem) (a : darray) (i : Z) (N R : list Z) (res : Z * Z * darray) (m' : pmem) : Prop :=
  let '(r, p, a') := res in
  let n := i / da_pp a in
  da_inv m' a' N R ∧ same_shape a a' ∧ da_nent a' = da_nent a ∧
  ((da_nent a ≤ i ∧ r = - E_INVAL ∧ m' = m ∧ a' = a) ∨
   (i < da_nent a ∧ (r = - E_NO_MEM ∨ (r = - E_NO_SPACE ∧ da_demand a = true)) ∧
      unchanged m (da_pt a) N R m' (da_pt a')) ∨
   (i < da_nent a ∧ r = 0 ∧ pe_page (pt_entry m' (da_pt a') n) ≠ 0 ∧ p = ent_addr m' a' i ∧
      (∀ k, 0 ≤ k → k ≠ n → pt_entry m' (da_pt a') k = pt_entry m (da_pt a) k) ∧
      (∀ k, 0 ≤ k → k ≠ n ∨ pe_page (pt_entry m (da_pt a) n) ≠ 0 → seen m' (da_pt a') k = seen m (da_pt a) k) ∧
      (∀ q, q ∈ N ∨ q ∈ R → pm_page m' !! q = pm_page m !! q) ∧
      cleared_after m (da_pt a) m' (da_pt a') n ∧
      (pe_page (pt_entry m' (da_pt a') n) = pe_page (pt_entry m (da_pt a) n) ∨ pe_page (pt_entry m' (da_pt a') n) ∉ N ++ R))).

(** The array after [pagetree_get_page] changed page [n] of its tree. *)
Lemma da_ok_get m a N R n m' pt' :
  da_ok m a N R → pt_inv m' pt' N R → same_conf m (da_pt a) m' pt' → n < da_npages a (da_nent a) →
  (∀ k, 0 ≤ k → k ≠ n → pt_entry m' pt' k = pt_entry m (da_pt a) k) →
  (pe_page (pt_entry m (da_pt a) n) ≠ 0 → pe_page (pt_entry m' pt' n) ≠ 0) →
  da_ok m' (set_pt pt' a) N R.
Proof.
  intros Ha Hi (_&Hpid&Hd) Hlt He Hn. pose proof Ha as [_ He1 Hp Hpid0 Hd0 Hnent Hout Hin].
  destruct (da_npages_range _ _ _ _ _ Ha (proj1 Hnent) (proj2 Hnent)) as [Hc0 _].
  split; simpl; try done; try congruence.
  - intros k Hk. change (da_npages (set_pt pt' a) (da_nent a)) with (da_npages a (da_nent a)) in Hk.
    rewrite He by lia. by apply Hout.
  - intros Hdm k Hk. change (da_npages (set_pt pt' a) (da_nent a)) with (da_npages a (da_nent a)) in Hk.
    destruct (decide (k = n)) as [->|]; [by apply Hn, Hin|]. rewrite He by lia. by apply Hin.
Qed.

Lemma unlock_read w : w = Rw.RW_LOCK_BIAS → Rw.rw_read_unlock (u32 (w - 1)) = Rw.RW_LOCK_BIAS.
Proof. by intros ->. Qed.

(** An entry does not cross the end of its page. *)
Lemma ent_off_range m a N R i :
  da_ok m a N R → 0 ≤ i → 0 ≤ (i mod da_pp a) * da_esz a ∧ (i mod da_pp a) * da_esz a + da_esz a ≤ PGSIZE.
Proof.
  intros Ha Hi0. pose proof (da_pp_pos _ _ _ _ Ha) as Hpp. pose proof Ha as [_ He Hp _ _ _ _ _].
  pose proof (Z.mod_pos_bound i (da_pp a) ltac:(lia)) as Hm.
  assert (Hmul : da_esz a * da_pp a ≤ PGSIZE) by (rewrite Hp; apply Z.mul_div_le; lia). nia.
Qed.

(** The two additions that make the address do not wrap. *)
Lemma ent_addr_exact m a N R i m' pt' :
  da_ok m a N R → 0 ≤ i → pt_inv m' pt' N R → pe_page (pt_entry m' pt' (i / da_pp a)) ≠ 0 →
  u64 (pe_page (pt_entry m' pt' (i / da_pp a)) + u64 ((i mod da_pp a) * da_esz a)) =
  pe_page (pt_entry m' pt' (i / da_pp a)) + (i mod da_pp a) * da_esz a.
Proof.
  intros Ha Hi0 Hpt H0. pose proof (da_pp_pos _ _ _ _ Ha) as Hpp. pose proof (do_esz _ _ _ _ Ha).
  destruct (ent_off_range _ _ _ _ i Ha Hi0) as [Hlo Hhi]. pose proof Hpt as [Hinv _ _].
  destruct (page_live_bound m' (pe_page (pt_entry m' pt' (i / da_pp a)))) as [Hb1 Hb2].
  - apply Hinv.
  - apply (ri_live _ _ _ Hinv), elem_of_app. left. eapply page_in_refs; [done|apply Z.div_pos; lia|done].
  - change PGSIZE with 4096 in *. rewrite (u64_small (_ * _)) by (unfold in_u64; lia).
    rewrite u64_small by (unfold in_u64; lia). done.
Qed.

(** The array with the read lock released again. *)
Lemma relocked a pt : da_ptl a = Rw.RW_LOCK_BIAS →
  set_ptl (Rw.rw_read_unlock (u32 (Rw.RW_LOCK_BIAS - 1))) (set_pt pt (set_ptl (u32 (Rw.RW_LOCK_BIAS - 1)) a)) = set_pt pt a.
Proof. destruct a; simpl. by intros ->. Qed.

(** The page was replaced or added. *)
Lemma get_fresh m a i N R p c b m' pt' :
  da_inv m a N R → 0 ≤ i < da_nent a →
  let n := i / da_pp a in
  fresh_post m (da_pt a) n p c b N R m' pt' → same_conf m (da_pt a) m' pt' →
  (pe_page (pt_entry m (da_pt a) n) ≠ 0 → c = pm_page m !! pe_page (pt_entry m (da_pt a) n)) →
  b = negb (pe_page (pt_entry m (da_pt a) n) =? 0) →
  get_post m a i N R (0, u64 (p + u64 ((i mod da_pp a) * da_esz a)), set_pt pt' a) m'.
Proof.
  intros [Ha Hl] Hi n HF Hc Hsee Hb. pose proof Ha as [Hpt _ _ _ _ [_ Hov] _ _].
  destruct (da_page_of _ _ _ _ _ _ Ha Hi Hov) as [Hn0 Hn]. fold n in Hn0, Hn.
  destruct (fresh_seen _ _ _ _ _ _ _ _ _ _ Hpt Hn0 HF) as (Hp2&Hs&Hso&Hk).
  pose proof HF as (Hi2&He2&_&Hp0&_&[_ Hclr]&_). rewrite <- Hp2 in Hp0, Hclr |- *. unfold n at 1.
  rewrite (ent_addr_exact m a N R i m' pt' Ha ltac:(lia) Hi2 Hp0).
  split_and!; try done; [|right; right; split_and!; try done; [lia| | |]].
  - split; [|done]. by eapply da_ok_get.
  - intros k Hk0 Hor. destruct (decide (k = n)) as [->|]; [|by apply Hso].
    destruct Hor as [Hne|H0]; [done|]. simpl. rewrite Hs, seen_page by done. by apply Hsee.
  - unfold cleared_after. cbn [da_pt set_pt]. fold n. rewrite Hclr, Hb. split_and!; [by intros ->|by intros ->%Z.eqb_neq|].
    intros k Hk0 Hne H0. pose proof HF as (_&_&_&_&Hfree&_&Hkp). apply Hkp.
    + intros E. eapply page_live_not_free; [|exact Hfree]. rewrite <- E. pose proof Hpt as [Hinv _ _]. eapply ri_live; [exact Hinv|].
      apply elem_of_app. left. by eapply page_in_refs.
    + right. right. rewrite <- (He2 k) in H0 |- * by done. by eapply page_in_refs.
  - right. cbn [da_pt set_pt]. fold n. pose proof HF as (_&_&_&_&Hfree&_). rewrite <- Hp2 in Hfree.
    intros Hin%elem_of_app. eapply page_live_not_free; [|exact Hfree]. pose proof Hpt as [Hinv _ _].
    destruct Hin as [Hin|Hin]; [eapply refs_node_live|eapply ri_live]; [exact Hinv| |exact Hinv|]; apply elem_of_app; by right.
Qed.

(** The page was there. *)
Lemma get_same m a i N R m' pt' :
  da_inv m a N R → 0 ≤ i < da_nent a →
  let n := i / da_pp a in
  pe_page (pt_entry m (da_pt a) n) ≠ 0 → pt_grown m (da_pt a) N R m' pt' → m' = m ∧ pt' = da_pt a →
  get_post m a i N R
    (0, u64 (pe_page (pt_entry m (da_pt a) n) + u64 ((i mod da_pp a) * da_esz a)), set_pt pt' a) m'.
Proof.
  intros [Ha Hl] Hi n Hp0 G Hold. pose proof Ha as [Hpt _ _ _ _ [_ Hov] _ _].
  destruct (da_page_of _ _ _ _ _ _ Ha Hi Hov) as [Hn0 Hn]. fold n in Hn0, Hn.
  assert (Hclr : cleared_after m (da_pt a) m' pt' n) by (destruct Hold as [-> ->]; by split).
  rewrite <- (pg_entry _ _ _ _ _ _ G n Hn0) in Hp0 |- *. unfold n at 1.
  rewrite (ent_addr_exact m a N R i m' pt' Ha ltac:(lia) (pg_inv _ _ _ _ _ _ G) Hp0).
  pose proof (λ k, grown_kept (k + 1) _ _ _ _ _ _ G) as Hk.
  split_and!; try done; [|right; right; split_and!; try done; [lia| | | |]].
  - split; [|done]. eapply da_ok_get; [done|apply G|by eapply pt_grown_conf|exact Hn| |done].
    intros k Hk0 _. by apply G.
  - intros k Hk0 _. by apply G.
  - intros k Hk0 _. eapply kept_seen; [exact (Hk k)|lia].
  - apply (Hk 0).
  - left. simpl. fold n. by rewrite (pg_entry _ _ _ _ _ _ G n Hn0).
Qed.

(** [darray_get] once the lock is held and the index is in range. *)
Lemma get_post_tree m a i mode N R r b pt' m' :
  da_inv m a N R → 0 ≤ i < da_nent a → i / da_pp a < pt_max →
  get_page_post m (da_pt a) (i / da_pp a) mode N R (r, b, pt') m' →
  get_post m a i N R
    (if r <? 0 then (r, 0, set_pt pt' a) else (0, u64 (b + u64 ((i mod da_pp a) * da_esz a)), set_pt pt' a)) m'.
Proof.
  intros Hinv Hi Hmax Hp. pose proof Hinv as [Ha Hl]. pose proof Ha as [_ _ _ _ Hdm [_ Hov] _ Hin].
  destruct (da_page_of _ _ _ _ _ _ Ha Hi Hov) as [Hn0 Hn].
  remember (r, b, pt') as res eqn:Er.
  destruct Hp as [m2 pt2 Hor _ G|m2 pt2 Hnc Hpr G Hold|p m2 pt2 Hnc HF Hc|p m2 pt2 Hnc H0 Hd HF Hc];
    injection Er as <- <- <-; simpl.
  - split_and!; try done.
    + split; [|done]. eapply da_ok_get; [done|apply G|by eapply pt_grown_conf|exact Hn| |].
      * intros k Hk _. by apply G.
      * by rewrite (pg_entry _ _ _ _ _ _ G).
    + right. left. split_and!; [lia|by left|]. intros lo. by apply grown_kept.
  - assert (Hp0 : pe_page (pt_entry m (da_pt a) (i / da_pp a)) ≠ 0).
    { destruct Hpr as [Hpr|Hpr]; [done|]. apply Hin; [by rewrite <- Hdm|lia]. }
    destruct (pos_of_page m (da_pt a) _ Hp0) as [pe Hpe]. apply get_same; try done. by apply (Hold pe).
  - apply (get_fresh m a i N R _ _ _ _ _ Hinv Hi HF Hc); [done|].
    symmetry. apply negb_true_iff, Z.eqb_neq. eapply needs_copy_page; [|exact Hnc]. by apply Hinv.
  - apply (get_fresh m a i N R _ _ _ _ _ Hinv Hi HF Hc); by rewrite H0.
Qed.

Lemma init_inv m N R esz dem pid :
  refs_inv m N R → 0 < esz ≤ PGSIZE →
  da_inv m (Darray (pagetree_init dem pid) Rw.rw_init pid (PGSIZE / esz) esz 0 dem) N R.
Proof.
  intros Hi He. assert (Hpp : 0 < PGSIZE / esz ≤ PGSIZE).
  { split; [apply Z.div_str_pos; lia|apply Z.div_le_upper_bound; nia]. }
  assert (Hz : ∀ a, da_pp a = PGSIZE / esz → da_npages a 0 = 0).
  { intros a Ha. unfold da_npages. rewrite Ha, ROUNDUP_div by (unfold in_u64; change PGSIZE with 4096 in *; lia).
    apply Z.div_small. lia. }
  assert (Hin := pagetree_init_inv m dem pid N R Hi). split; [|done]. split; simpl; try done.
  - change PGSIZE with 4096 in *. lia.
  - intros n. rewrite Hz by done. intros Hn. by rewrite (proj2 (proj2 (proj2 (pagetree_init_shape m dem pid)))).
  - intros _ n. rewrite Hz by done. lia.
Qed.

(** The lemma other components use. *)
Lemma darray_get_wpx m a i mode N R node :
  da_inv m a N R → 0 ≤ i → home_node (pm_conf m) (da_pid a) = Some node →
  (is_shared (pt_entry m (da_pt a) (i / da_pp a)) = true → mode ≠ page_excl) →
  wpx (darray_get a i mode) m (get_post m a i N R)
    (i < da_nent a ∧ da_demand a = true ∧ pe_page (pt_entry m (da_pt a) (i / da_pp a)) = 0 ∧
     few_free MAX_NODES m).
Proof.
  intros Hinv Hi Hh Hmode. pose proof Hinv as [Ha Hl]. unfold darray_get. rewrite Hl.
  apply wpx_bind_wp. apply wp_ret. rewrite Z.geb_leb. simpl.
  destruct (Z.leb_spec (da_nent a) i) as [Hge|Hlt].
  { apply wp_wpx. wp_pure. replace (set_ptl _ _) with a by (destruct a; simpl in *; by rewrite Hl).
    split_and!; try done. by left. }
  apply wpx_bind. pose proof Ha as [Hpt _ _ Hpid Hd [_ Hov] _ Hin].
  destruct (da_page_of _ _ _ _ _ _ Ha (conj Hi Hlt) Hov) as [Hn0 Hn].
  eapply wpx_mono; [eapply (pagetree_get_page_wpx m (da_pt a) (i / da_pp a) mode N R node (λ res m',
      (pt_max ≤ i / da_pp a ∧ res = (- E_NO_SPACE, 0, da_pt a) ∧ m' = m) ∨
      (i / da_pp a < pt_max ∧ get_page_post m (da_pt a) (i / da_pp a) mode N R res m')));
      [done|done|by rewrite Hpid|done|by left|by right]| |].
  - intros [[r b] pt'] m' Hres. apply wp_wpx. rewrite (relocked a pt') by done.
    destruct Hres as [(Hmax&[= -> -> ->]&->)|[Hmax Hp]].
    + wp_pure. assert (Hdm : da_demand a = true).
      { destruct (da_demand a) eqn:Hdm; [done|]. destruct (Hin eq_refl (i / da_pp a)); [done|by rewrite entry_past_max]. }
      replace (set_pt (da_pt a) a) with a by by destruct a. split_and!; try done. right. left.
      split_and!; [lia|by right|]. intros lo. by apply kept_refl.
    + pose proof (get_post_tree m a i mode N R r b pt' m' Hinv (conj Hi Hlt) Hmax Hp) as Hg.
      by destruct (r <? 0); wp_pure.
  - intros (H0&Hdm&Hex). split_and!; try done. by rewrite <- Hd.
Qed.
(** C12: [darray_get] finds entries.  An index past the end gives [-E_INVAL] and
    changes nothing.  Otherwise, on success, the address is that of entry [i]
    inside page [i / da_pp] of the array, that page shows the bytes it showed
    before if it existed, and all other pages are as before; an error leaves the
    array as it was.  The lock is released on every path, and the call panics
    only for a missing page of a demand-allocated array when at most [MAX_NODES] pages
    are free. *)
Theorem darray_get_correct m a i mode N R node :
  da_inv m a N R → 0 ≤ i → home_node (pm_conf m) (da_pid a) = Some node →
  (is_shared (pt_entry m (da_pt a) (i / da_pp a)) = true → mode ≠ page_excl) →
  wpx (darray_get a i mode) m (get_post m a i N R)
    (i < da_nent a ∧ da_demand a = true ∧ pe_page (pt_entry m (da_pt a) (i / da_pp a)) = 0 ∧
     few_free MAX_NODES m).
Proof. intros. by eapply darray_get_wpx. Qed.

(** ** Changing the length *)

(** The internal function between the locks. *)
Lemma locked_set_nent m a n clear N R node :
  da_inv m a N R → 0 ≤ n → n + da_pp a - 1 < 2 ^ 64 → home_node (pm_conf m) (da_pid a) = Some node →
  wpx ('(r, a) ← darray_set_nent_internal (set_ptl 0 a) n clear;
       mret (r, set_ptl (Rw.rw_write_unlock (da_ptl a)) a)) m
    (λ res m', set_nent_post m a n clear N R res m' ∧ da_inv m' res.2 N R) (shrinks_hole m a n).
Proof.
  intros [Ha Hl] Hn Hov Hh. apply wpx_bind.
  assert (Ha0 : da_ok m (set_ptl 0 a) N R) by (by destruct Ha; split).
  eapply wpx_mono; [exact (set_nent_internal_wpx m (set_ptl 0 a) n clear N R node Ha0 Hn Hov Hh)| |done].
  intros [r a'] m' (Hok&Hsh&Hlk&Hpost). apply wp_wpx. wp_pure. simpl in Hlk. rewrite Hlk.
  assert (Hok' : da_ok m' (set_ptl Rw.RW_LOCK_BIAS a') N R) by (by destruct Hok; split).
  split; [|done]. by split_and!.
Qed.

(** C11: [darray_set_nent] changes the length to [n], for every [n] whose
    rounding up does not wrap.  On success the pages that both lengths share are
    unchanged with their contents, pages beyond the new end are gone, and in an
    array that is not demand-allocated every new page is there, zeroed if asked.
    When memory or the tree's capacity runs out on the way, the pages added so
    far are taken back and the array is as before.  The lock is released on every path.
    The only panic is a shrink across a page that was never allocated. *)
Theorem darray_set_nent_correct m a n clear N R node :
  da_inv m a N R → 0 ≤ n → n + da_pp a - 1 < 2 ^ 64 → home_node (pm_conf m) (da_pid a) = Some node →
  wpx (darray_set_nent a n clear) m
    (λ res m', set_nent_post m a n clear N R res m' ∧ da_inv m' res.2 N R) (shrinks_hole m a n).
Proof.
  intros Hinv Hn Hov Hh. unfold darray_set_nent. pose proof Hinv as [_ ->].
  apply wpx_bind_wp, wp_ret. by eapply locked_set_nent.
Qed.

(** [darray_grow_nent] never shrinks: a length that is already there is
    accepted without any change, and otherwise the array grows to [n] entries whose
    new pages are zeroed, or fails and stays as it was.  It cannot panic. *)
Theorem darray_grow_nent_correct m a n N R node :
  da_inv m a N R → 0 ≤ n → n + da_pp a - 1 < 2 ^ 64 → home_node (pm_conf m) (da_pid a) = Some node →
  wp (darray_grow_nent a n) m (λ res m',
    (n ≤ da_nent a ∧ res = (0, a) ∧ m' = m) ∨
    (da_nent a < n ∧ set_nent_post m a n true N R res m' ∧ da_inv m' res.2 N R)).
Proof.
  intros Hinv Hn Hov Hh. unfold darray_grow_nent. pose proof Hinv as [Ha Hl]. rewrite Hl.
  apply wp_bind, wp_ret. simpl. destruct (Z.leb_spec n (da_nent a)) as [Hle|Hgt].
  { wp_pure. left. split_and!; [done| |done]. f_equal. destruct a; simpl in *. by rewrite Hl. }
  eapply wpx_wp; [eapply wpx_mono; [exact (locked_set_nent m a n true N R node Hinv Hn Hov Hh)| |exact id]|].
  - intros res m' Hp. by right.
  - intros (_&k&Hk&_). pose proof Ha as [_ _ _ _ _ [Hc Hco] _ _]. pose proof (da_pp_pos _ _ _ _ Ha).
    rewrite !(da_npages_val m a N R) in Hk by done.
    assert ((da_nent a + da_pp a - 1) / da_pp a ≤ (n + da_pp a - 1) / da_pp a) by (apply Z.div_le_mono; lia). lia.
Qed.

(** [darray_free] returns all memory of an array: its nodes are free, its
    pages are free unless something else still refers to them, and nothing of the
    other trees changes. *)
Theorem darray_free_complete m a N R :
  da_inv m a N R →
  wp (darray_free a) m (λ a' m',
    refs_inv m' N R ∧ pt_nodes m' (da_pt a') = [] ∧ pt_refs m' (da_pt a') = [] ∧
    (∀ q, q ∈ pt_nodes m (da_pt a) → page_free_p m' q) ∧
    (∀ q, q ∈ pt_refs m (da_pt a) → q ∈ R ∨ released m' q) ∧
    (∀ q, q ∈ N ∨ q ∈ R → pm_page m' !! q = pm_page m !! q)).
Proof.
  intros [[[Hi Hok _] _ _ _ _ _ _ _] _]. unfold darray_free. wp_pure.
  eapply pagetree_free_wp; [exact Hi|exact Hok|]. intros m' Hd. wp_pure. by apply freed_all.
Qed.

(** ** Lengths that wrap

    [ROUNDUP(n, da_pp)] wraps to 0 for the last [da_pp - 1] values of a 64-bit
    length. *)
Lemma npages_wraps a n : 0 < da_pp a ≤ PGSIZE → in_u64 n → 2 ^ 64 ≤ n + da_pp a - 1 → da_npages a n = 0.
Proof.
  intros Hpp Hn Hw. unfold da_npages, ROUNDUP, in_u64 in *. change PGSIZE with 4096 in *.
  assert (u64 (n + da_pp a - 1) = n + da_pp a - 1 - 2 ^ 64) as ->.
  { unfold u64. symmetry. apply Z.mod_unique with 1; lia. }
  rewrite ROUNDDOWN_small by (unfold in_u64; lia). rewrite Z.mod_small by lia.
  rewrite Z.sub_diag. by apply Z.div_0_l; lia.
Qed.

(** An entry of a page that is not there is read through a null pointer. *)
Lemma get_null m pt n N R node mode :
  pt_inv m pt N R → 0 ≤ n < PAGETREE_DIRECT_ENTRIES → home_node (pm_conf m) (pt_pid pt) = Some node →
  pe_page (pt_entry m pt n) = 0 → pt_demand pt = false → pagetree_get_page pt n mode m = Ret (0, 0, pt) m.
Proof.
  intros Hi Hn Hh H0 Hd. destruct (pv_ents _ _ _ _ Hi n ltac:(lia)) as [_ Hsh]. specialize (Hsh H0) as [Hcow Hcor].
  assert (Hmax : n < pt_max) by (rewrite pt_max_val; unfold PAGETREE_DIRECT_ENTRIES in Hn; lia).
  assert (Hpos : pos_at m pt n (Direct n)) by (unfold pos_at; by rewrite (proj2 (Z.ltb_lt _ _)) by lia).
  assert (Hnc : needs_copy (pt_entry m pt n) mode = false).
  { unfold needs_copy. rewrite (proj2 (Z.eqb_neq _ _) Hcow), (proj2 (Z.eqb_neq _ _) Hcor). done. }
  assert (Hw : wpx (pagetree_get_page pt n mode) m (λ res m', res = (0, 0, pt) ∧ m' = m) False).
  { eapply wpx_mono; [eapply (pagetree_get_page_wpx m pt n mode N R node (λ res m', res = (0, 0, pt) ∧ m' = m));
      [done|lia|done| |lia|]|done|].
    - unfold is_shared. rewrite (proj2 (Z.eqb_neq _ _) Hcow), (proj2 (Z.eqb_neq _ _) Hcor). done.
    - intros res m2 _ [? ? [Hc|Hc]|? ? _ _ _ Hold|? ? ? Hc|? ? ? _ _ Hc]; try congruence.
      + by destruct (Hc (Direct n)).
      + destruct (Hold _ Hpos) as [-> ->]. by rewrite H0.
    - intros (_&Hc&_). congruence. }
  unfold wpx in Hw. destruct (pagetree_get_page pt n mode m) as [res m2|f]; [|by destruct Hw].
  by destruct Hw as [-> ->].
Qed.

(** [darray_set_nent] accepts a length so close to [2^64] that rounding it
    up wraps: it drops every page of the array, reports success and sets the
    length, after which [darray_get] succeeds on entries without a page and hands
    out addresses in the first page of the address space. *)
Theorem darray_set_nent_wraps m a n clear N R node :
  da_inv m a N R → da_demand a = false → in_u64 n → 2 ^ 64 ≤ n + da_pp a - 1 →
  home_node (pm_conf m) (da_pid a) = Some node →
  wp (darray_set_nent a n clear) m (λ res m',
    res.1 = 0 ∧ da_nent res.2 = n ∧
    (∀ k, 0 ≤ k → pe_page (pt_entry m' (da_pt res.2) k) = 0) ∧
    (∀ i mode, 0 ≤ i < n → i / da_pp a < PAGETREE_DIRECT_ENTRIES →
       darray_get res.2 i mode m' = Ret (0, (i mod da_pp a) * da_esz a, res.2) m')).
Proof.
  intros [Ha Hl] Hd Hn Hw Hh. pose proof (da_pp_pos _ _ _ _ Ha) as Hpp.
  pose proof Ha as [Hpt He Hp Hpid Hdm [Hc Hco] Hout Hin].
  destruct (da_npages_range _ _ _ _ _ Ha Hc Hco) as [Hc0 _].
  unfold darray_set_nent. rewrite Hl. apply wp_bind, wp_ret, wp_bind. unfold darray_set_nent_internal.
  change (da_npages (set_ptl 0 a)) with (da_npages a). rewrite (npages_wraps a n Hpp Hn Hw). simpl. rewrite Hd.
  replace (Z.to_nat (0 - da_npages a (da_nent a))) with 0%nat by lia. wp_pure.
  eapply wpx_wp; [eapply (drop_pages_wpx _ 0 m (da_pt a) N R node); [done|done|by rewrite Hpid|]|].
  - intros m1 pt1 [Hk Hg Hab]. simpl. wp_pure. destruct (kp_conf _ _ _ _ _ _ _ Hk) as (Hcf&Hpid1&Hd1).
    assert (Hz : ∀ k, 0 ≤ k → pe_page (pt_entry m1 pt1 k) = 0).
    { intros k Hk0. destruct (decide (k < da_npages a (da_nent a))); [apply Hg; lia|].
      rewrite Hab by lia. apply Hout. lia. }
    split_and!; try done. intros i mode Hi Hdir. simpl. unfold darray_get. simpl.
    unfold mbind, m_bind, mret, m_ret. simpl.
    rewrite Z.geb_leb, (proj2 (Z.leb_gt n i)) by lia.
    rewrite (get_null m1 pt1 (i / da_pp a) N R node mode); simpl.
    + destruct (ent_off_range _ _ _ _ i Ha ltac:(lia)). change PGSIZE with 4096 in *.
      rewrite !u64_small by (unfold in_u64; rewrite ?u64_small by (unfold in_u64; lia); lia). done.
    + apply Hk.
    + split; [apply Z.div_pos; lia|done].
    + rewrite Hcf, Hpid1, Hpid. done.
    + apply Hz, Z.div_pos; lia.
    + congruence.
  - intros (k&Hk&H0). apply (Hin Hd k); [lia|done].
Qed.

(** shrinking a demand-allocated array can bring the kernel down: dropping a
    page that was never touched first allocates the page-tree nodes for it, and
    without memory the error of [pagetree_put_page] is a panic.  Here the pages
    100 to 199 of a 200-page segment are dropped. *)
Theorem darray_shrink_panics :
  (∀ q, ¬ page_free_p Exhausted.mem q) ∧
  (a ← darray_init PGSIZE true 1;
   '(r, a) ← darray_set_nent a 200 false;
   c_assert (r =? 0);;
   darray_set_nent a 100 false) Exhausted.mem = Crash Panic ∧
  (a ← darray_init PGSIZE true 1;
   '(r, a) ← darray_set_nent a 200 false;
   c_assert (r =? 0)) Exhausted.mem = Ret tt Exhausted.mem.
Proof. split; [exact Exhausted.none_free|]. split; vm_compute; reflexivity. Qed.

(** ** Examples *)

Module ArrayExample.
(** 64-byte entries, 64 to a page, in the three free pages of [Machine2]. *)
Definition arr0 : darray := Darray (pagetree_init false 0) Rw.rw_init 0 64 64 0 false.
Lemma arr0_inv : da_inv Machine2.mem arr0 [page_addr 3; page_addr 5] [].
Proof. apply (init_inv Machine2.mem _ _ 64 false 0 TreeExample.start). change PGSIZE with 4096. lia. Qed.

Definition grown : outcome pmem (Z * darray) := darray_set_nent arr0 65 true Machine2.mem.
Definition arr1 : darray := match grown with Ret (_, a) _ => a | Crash _ => arr0 end.
Definition mem1 : pmem := match grown with Ret _ m => m | Crash _ => Machine2.mem end.
Lemma arr1_inv : da_inv mem1 arr1 [page_addr 3; page_addr 5] [].
Proof.
  assert (H : wpx (darray_set_nent arr0 65 true) Machine2.mem
     (λ res m', da_inv m' res.2 [page_addr 3; page_addr 5] []) (shrinks_hole Machine2.mem arr0 65)).
  { unfold darray_set_nent. apply wpx_bind_wp, wp_ret.
    eapply wpx_mono; [exact (locked_set_nent Machine2.mem arr0 65 true _ _ 0 arr0_inv ltac:(lia) ltac:(reflexivity) eq_refl)| |exact id].
    by intros res m' [_ Hi]. }
  unfold wpx in H. unfold mem1, arr1, grown. destruct (darray_set_nent arr0 65 true Machine2.mem) as [[r a] m|f] eqn:E; [exact H|].
  exfalso. assert (E2 : match darray_set_nent arr0 65 true Machine2.mem with Ret _ _ => True | Crash _ => False end)
    by (vm_compute; exact I). by rewrite E in E2.
Qed.
End ArrayExample.

Lemma darray_set_nent_correct_witness :
  ∃ a' m', darray_set_nent ArrayExample.arr0 65 true Machine2.mem = Ret (0, a') m' ∧ da_nent a' = 65 ∧
    set_nent_post Machine2.mem ArrayExample.arr0 65 true [page_addr 3; page_addr 5] [] (0, a') m'.
Proof.
  assert (H := darray_set_nent_correct Machine2.mem ArrayExample.arr0 65 true _ _ 0 ArrayExample.arr0_inv
                 ltac:(lia) ltac:(reflexivity) eq_refl).
  assert (E2 : match darray_set_nent ArrayExample.arr0 65 true Machine2.mem with
               | Ret (r, a) _ => r = 0 ∧ da_nent a = 65 | Crash _ => False end) by (vm_compute; split; reflexivity).
  unfold wpx in H. destruct (darray_set_nent ArrayExample.arr0 65 true Machine2.mem) as [[r a'] m'|f]; [|destruct E2].
  destruct E2 as [-> E2]. exists a', m'. split; [reflexivity|]. split; [exact E2|exact (proj1 H)].
Defined.

Lemma darray_get_correct_witness :
  ∃ m', darray_get ArrayExample.arr1 64 page_excl ArrayExample.mem1 = Ret (0, page_addr 1, ArrayExample.arr1) m' ∧
    get_post ArrayExample.mem1 ArrayExample.arr1 64 [page_addr 3; page_addr 5] []
      (0, page_addr 1, ArrayExample.arr1) m'.
Proof.
  assert (H := darray_get_correct ArrayExample.mem1 ArrayExample.arr1 64 page_excl _ _ 0 ArrayExample.arr1_inv
                 ltac:(lia) ltac:(vm_compute; reflexivity) ltac:(vm_compute; discriminate)).
  assert (E2 : match darray_get ArrayExample.arr1 64 page_excl ArrayExample.mem1 with
               | Ret x _ => x = (0, page_addr 1, ArrayExample.arr1) | Crash _ => False end) by (vm_compute; reflexivity).
  unfold wpx in H. destruct (darray_get ArrayExample.arr1 64 page_excl ArrayExample.mem1) as [x m'|f]; [|destruct E2].
  rewrite E2 in H |- *. exists m'. split; [reflexivity|exact H].
Defined.

Lemma darray_grow_nent_correct_witness :
  wp (darray_grow_nent ArrayExample.arr1 10) ArrayExample.mem1 (λ res m', res = (0, ArrayExample.arr1) ∧ m' = ArrayExample.mem1).
Proof.
  eapply wp_mono; [apply (darray_grow_nent_correct ArrayExample.mem1 ArrayExample.arr1 10 _ _ 0 ArrayExample.arr1_inv)|].
  - lia.
  - vm_compute. reflexivity.
  - vm_compute. reflexivity.
  - intros res m' [(_&->&->)|(Hlt&_)]; [done|]. exfalso. vm_compute in Hlt. discriminate.
Defined.

Lemma darray_free_complete_witness :
  wp (darray_free ArrayExample.arr1) ArrayExample.mem1 (λ a' m',
    refs_inv m' [page_addr 3; page_addr 5] [] ∧ pt_refs m' (da_pt a') = []).
Proof.
  eapply wp_mono; [apply (darray_free_complete ArrayExample.mem1 ArrayExample.arr1 _ _ ArrayExample.arr1_inv)|].
  intros a' m' (H1&_&H2&_). by split.
Defined.

Lemma darray_set_nent_wraps_witness :
  wp (darray_set_nent ArrayExample.arr1 (2 ^ 64 - 1) true) ArrayExample.mem1 (λ res m',
    res.1 = 0 ∧ darray_get res.2 65 page_excl m' = Ret (0, 64, res.2) m').
Proof.
  eapply wp_mono; [apply (darray_set_nent_wraps ArrayExample.mem1 ArrayExample.arr1 (2 ^ 64 - 1) true _ _ 0 ArrayExample.arr1_inv)|].
  - vm_compute. reflexivity.
  - unfold in_u64. lia.
  - vm_compute. discriminate.
  - vm_compute. reflexivity.
  - intros res m' (H0&_&_&Hg). split; [exact H0|].
    exact (Hg 65 page_excl ltac:(lia) ltac:(vm_compute; reflexivity)).
Defined.
