(* ===== verification/KMap.v ===== *)
(** * The kernel's maps (kern/kern/map.c)

    A hash table whose entries live in the pages of a page tree, reached through
    the callback [get_hash_ent]; [map_put] moves everything to a table of twice the
    size when the current one is 70% full.  The state is the memory together with
    the [struct Map]; the callback argument [&map->map[k].back] is the index [k],
    and a pointer to an entry is a page and an index into it. *)
From S2P Require Import Prelude Machine Hashtable Ktypes Kmem PageAlloc Pagetree.

Definition rehash_thresh : Z := 70.
(** [PGSIZE / sizeof(struct hashentry)] *)
Definition N_HASHENTRY_PER_PAGE : Z := PGSIZE / 16.

Record kst := Kst { ks_mem : pmem; ks_map : Map }.

Definition back (k : bool) (mp : Map) : pagetree := if k then mp_back1 mp else mp_back0 mp.
Definition table (k : bool) (mp : Map) : hashtable bool := if k then mp_table1 mp else mp_table0 mp.
Definition set_back (k : bool) (pt : pagetree) (mp : Map) : Map :=
  if k then MkMap (mp_back0 mp) (mp_table0 mp) pt (mp_table1 mp) (mp_npages mp) (mp_cur mp) (mp_pid mp)
  else MkMap pt (mp_table0 mp) (mp_back1 mp) (mp_table1 mp) (mp_npages mp) (mp_cur mp) (mp_pid mp).
Definition set_table (k : bool) (t : hashtable bool) (mp : Map) : Map :=
  if k then MkMap (mp_back0 mp) (mp_table0 mp) (mp_back1 mp) t (mp_npages mp) (mp_cur mp) (mp_pid mp)
  else MkMap (mp_back0 mp) t (mp_back1 mp) (mp_table1 mp) (mp_npages mp) (mp_cur mp) (mp_pid mp).
Definition set_side (np : Z) (k : bool) (mp : Map) : Map :=
  MkMap (mp_back0 mp) (mp_table0 mp) (mp_back1 mp) (mp_table1 mp) np k (mp_pid mp).

(** Running memory code, and page-tree code on one of the two trees. *)
Definition on_mem {A} (c : M pmem A) : M kst A := zoom ks_mem (λ m s, Kst m (ks_map s)) c.
Definition upd_map (f : Map → Map) : M kst unit := modify (λ s, Kst (ks_mem s) (f (ks_map s))).
Definition get_map : M kst Map := gets ks_map.

(** [get_hash_ent] *)
Definition get_hash_ent (arg : bool) (idx : Z) : M kst (Z * Z) :=
  let npage := idx / N_HASHENTRY_PER_PAGE in
  let pagei := idx mod N_HASHENTRY_PER_PAGE in
  mp ← get_map;
  '(r, entries, pt) ← on_mem (pagetree_get_page (back arg mp) npage page_excl);
  upd_map (set_back arg pt);;
  if r <? 0 then panic else mret (entries, pagei).

(** Entries are read and written in pages of entries.  A table of a Map never
    has [pgents] set, and without the callback its entry array is null. *)
#[export] Instance map_back : HashBack kst bool (Z * Z) := {
  hb_call := get_hash_ent;
  hb_entry2 _ _ _ := undef;
  hb_entry _ i := (0, i);
  hb_read '(p, i) := on_mem (h ← deref (λ m, pm_page m !! p ≫= as_hash);
                             mret (default (HashEntry 0 0) (h !! i)));
  hb_write '(p, i) e := on_mem (h ← deref (λ m, pm_page m !! p ≫= as_hash);
                                modify (set_page p (PgHash (<[i := e]> h))));
}.

Definition zero_tree : pagetree := pagetree_init false 0.
Definition zero_table : hashtable bool := HashTable false false 0 0 0.
Definition map_init (pid : Z) : Map := MkMap zero_tree zero_table zero_tree zero_table 0 false pid.

(** The loop of [rehash] that gives the next tree its pages.  [stk] is the address
    of the local variable [va], which the out-of-memory path frees. *)
Fixpoint rehash_pages (k : nat) (i stk : Z) (next : bool) : M kst Z :=
  match k with
  | O => mret 0
  | S k' =>
      mp ← get_map;
      '(r, va) ← on_mem (page_alloc (mp_pid mp));
      if r <? 0 then on_mem (page_free stk);; mret r else
      '(r, pt) ← on_mem (pagetree_put_page (back next mp) i va);
      upd_map (set_back next pt);;
      if r <? 0 then mret r else
      on_mem (page_zero va);;
      rehash_pages k' (i + 1) stk next
  end.

(** [hash_put] on a table of the map, and what it does to the struct. *)
Definition put_in (k : bool) (key val : Z) : M kst Z :=
  mp ← get_map;
  '(r, t) ← hash_put (table k mp) key val;
  upd_map (set_table k t);;
  mret r.

(** [while (hashiter_next(&iter)) assert(hash_put(next, iter.hi_key, iter.hi_val) == 0)]:
    at most one iteration for each slot of the current table, and one to end. *)
Fixpoint rehash_copy (fuel : nat) (cur next : bool) (it : hashiter) : M kst unit :=
  match fuel with
  | O => crash NoFuel
  | S fuel' =>
      mp ← get_map;
      '(more, it) ← hashiter_next (table cur mp) it;
      if more =? 0 then mret tt else
      r ← put_in next (hi_key it) (hi_val it);
      c_assert (r =? 0);;
      rehash_copy fuel' cur next it
  end.

Definition free_tree (k : bool) : M kst unit :=
  mp ← get_map;
  pt ← on_mem (pagetree_free (back k mp));
  upd_map (set_back k pt).

(** [rehash] once the next tree has its pages. *)
Definition rehash_move (npages : Z) : M kst Z :=
  mp ← get_map;
  let cur := mp_cur mp in
  let next := negb cur in
  let n := s32 (npages * N_HASHENTRY_PER_PAGE) in
  t ← hash_init3 next n;
  upd_map (set_table next t);;
  rehash_copy (S (Z.to_nat (ht_capacity (table cur mp)))) cur next hashiter_init;;
  free_tree cur;;
  upd_map (set_side npages next);;
  mret 0.

Definition rehash (stk : Z) : M kst Z :=
  mp ← get_map;
  let npages := if negb (mp_npages mp =? 0) then u64 (mp_npages mp * 2) else 1 in
  let next := negb (mp_cur mp) in
  upd_map (set_back next (pagetree_init false (mp_pid mp)));;
  r ← rehash_pages (Z.to_nat npages) 0 stk next;
  if r <? 0 then free_tree next;; mret r else rehash_move npages.

(** [percent]: [100 * size] is an [int] product. *)
Definition load_percent {A} (t : hashtable A) : M kst Z :=
  if ht_capacity t =? 0 then mret 100 else
  if bool_decide (100 * ht_size t < - 2 ^ 31 ∨ 2 ^ 31 ≤ 100 * ht_size t) then undef
  else mret (u64 (Z.quot (100 * ht_size t) (ht_capacity t))).

(** The result of [rehash] is ignored. *)
Definition map_put (stk key value : Z) : M kst Z :=
  c_assert (negb (key =? 0));;
  mp ← get_map;
  percent ← load_percent (table (mp_cur mp) mp);
  (if percent >=? rehash_thresh then rehash stk;; mret tt else mret tt);;
  mp ← get_map;
  put_in (mp_cur mp) key value.

Definition map_get (key value : Z) : M kst (Z * Z) :=
  mp ← get_map; hash_get (table (mp_cur mp) mp) key value.

Definition map_erase (key : Z) : M kst Z :=
  mp ← get_map;
  '(r, t) ← hash_del (table (mp_cur mp) mp) key;
  upd_map (set_table (mp_cur mp) t);;
  mret r.

Definition map_free : M kst unit := mp ← get_map; free_tree (mp_cur mp).

(** [struct Map_iter]: the table the iterator points to, and the iterator. *)
Definition Map_iter : Type := bool * hashiter.
Definition map_iter_init : M kst Map_iter := mp ← get_map; mret (mp_cur mp, hashiter_init).
(** Returns whether there is a next pair, the pair and the iterator; the caller's
    [*key] and [*value] are untouched when there is none. *)
Definition map_iter_next (it : Map_iter) : M kst (Z * option (Z * Z) * Map_iter) :=
  mp ← get_map;
  '(more, h) ← hashiter_next (table it.1 mp) it.2;
  if more =? 0 then mret (0, None, (it.1, h)) else mret (1, Some (hi_key h, hi_val h), (it.1, h)).
