(* ===== verification/KMapThms.v ===== *)
(** * Kernel maps: the table's store

    The page tree behind a map satisfies the interface that the hash table relies
    on ([HashStore]), so the hash table's theorems hold for maps; writing to one
    side of a map does not disturb the other.  On this rests the correctness of
    [rehash]: after it the map represents the same finite map. *)
From S2P Require Import Prelude Machine Hashtable Ktypes Kmem PageAlloc Pagetree PageRefs PagetreeSpec PagetreeOps PagetreeWhole PagetreeThms PagetreeFree PagetreeProps DarrayThms KMap.

Lemma set_back_id k mp : set_back k (back k mp) mp = mp.
Proof. by destruct k, mp. Qed.
Lemma back_set_back k j pt mp : back j (set_back k pt mp) = if decide (j = k) then pt else back j mp.
Proof. by destruct k, j. Qed.
Lemma back_set_table k j t mp : back j (set_table k t mp) = back j mp.
Proof. by destruct k, j. Qed.
Lemma table_set_table k j t mp : table j (set_table k t mp) = if decide (j = k) then t else table j mp.
Proof. by destruct k, j. Qed.
Lemma table_set_back k j pt mp : table j (set_back k pt mp) = table j mp.
Proof. by destruct k, j. Qed.

Lemma ents_per_page : N_HASHENTRY_PER_PAGE = 256.
Proof. reflexivity. Qed.

Lemma wp_on_mem {A} (c : M pmem A) s (Q : A → kst → Prop) :
  wp c (ks_mem s) (λ a m', Q a (Kst m' (ks_map s))) → wp (on_mem c) s Q.
Proof. intros H. by apply wp_zoom. Qed.
Lemma wp_get_map s (Q : Map → kst → Prop) : Q (ks_map s) s → wp get_map s Q.
Proof. done. Qed.
Lemma wp_upd_map f s (Q : unit → kst → Prop) : Q tt (Kst (ks_mem s) (f (ks_map s))) → wp (upd_map f) s Q.
Proof. done. Qed.

(** Everything of the memory but the contents of pages. *)
Definition same_meta (m m' : pmem) : Prop :=
  pm_conf m' = pm_conf m ∧ pm_free m' = pm_free m ∧ pm_lock m' = pm_lock m ∧
  pm_failures m' = pm_failures m ∧ pm_info m' = pm_info m.
#[export] Instance same_meta_preorder : PreOrder same_meta.
Proof.
  split; [by intros m|]. intros m1 m2 m3 (?&?&?&?&?) (?&?&?&?&?). split_and!; congruence.
Qed.

(** ** One side of a map as a store of entries *)

Section store.
Context (k : bool) (np : Z) (pgs : Z → Z) (nds rfs N R : list Z) (node : Z).

(** The tree of side [k], with nodes [nds] and references [rfs], holds the pages
    [pgs 0 .. pgs (np - 1)] of entries, each used here only. *)
Record side_ok (s : kst) : Prop := SideOk {
  sd_pt : pt_inv (ks_mem s) (back k (ks_map s)) N R;
  sd_nodes : pt_nodes (ks_mem s) (back k (ks_map s)) = nds;
  sd_refs : pt_refs (ks_mem s) (back k (ks_map s)) = rfs;
  sd_home : home_node (pm_conf (ks_mem s)) (pt_pid (back k (ks_map s))) = Some node;
  sd_page : ∀ i, 0 ≤ i < np →
    pe_page (pt_entry (ks_mem s) (back k (ks_map s)) i) = pgs i ∧
    is_shared (pt_entry (ks_mem s) (back k (ks_map s)) i) = false;
  sd_nonzero : ∀ i, 0 ≤ i < np → pgs i ≠ 0;
  sd_own : ∀ q, q ∈ rfs → q ∉ R;
  sd_hash : ∀ i, 0 ≤ i < np → is_Some (pm_page (ks_mem s) !! pgs i ≫= as_hash);
  sd_inj : ∀ i j, 0 ≤ i < np → 0 ≤ j < np → pgs i = pgs j → i = j;
}.

Definition slot_of (s : kst) (i : Z) : hashentry :=
  match pm_page (ks_mem s) !! pgs (i / N_HASHENTRY_PER_PAGE) ≫= as_hash with
  | Some h => default (HashEntry 0 0) (h !! (i mod N_HASHENTRY_PER_PAGE))
  | None => HashEntry 0 0
  end.
Definition side_frame (s s' : kst) : Prop :=
  ks_map s' = ks_map s ∧ same_meta (ks_mem s) (ks_mem s') ∧
  ∀ q, (∀ i, 0 ≤ i < np → q ≠ pgs i) → pm_page (ks_mem s') !! q = pm_page (ks_mem s) !! q.

Lemma slot_page i : 0 ≤ i < np * N_HASHENTRY_PER_PAGE → 0 ≤ i / N_HASHENTRY_PER_PAGE < np.
Proof. rewrite ents_per_page. intros Hi. split; [apply Z.div_pos; lia|apply Z.div_lt_upper_bound; lia]. Qed.

(** The pages are references of the tree, hence no nodes. *)
Lemma side_page_ref s i : side_ok s → 0 ≤ i < np → pgs i ∈ rfs.
Proof.
  intros [Hpt _ <- _ Hp Hz _ _ _] Hi. destruct (Hp i Hi) as [<- _].
  eapply page_in_refs; [done|lia|]. rewrite (proj1 (Hp i Hi)). by apply Hz.
Qed.
Lemma side_page_not_node s i p : side_ok s → 0 ≤ i < np → p ∈ nds ++ N → p ≠ pgs i.
Proof.
  intros Hs Hi Hp ->. eapply (refs_disjoint _ _ _ _ (pv_refs _ _ _ _ (sd_pt _ Hs))).
  - rewrite (sd_nodes _ Hs). exact Hp.
  - apply elem_of_app. left. rewrite (sd_refs _ Hs). by eapply side_page_ref.
Qed.

Lemma side_frame_po : PreOrder side_frame.
Proof.
  split; [by intros s|]. intros s1 s2 s3 (Hm1&Hc1&Hp1) (Hm2&Hc2&Hp2). split_and!; [congruence|by etrans|].
  intros q Hq. by rewrite Hp2, Hp1.
Qed.

Lemma side_ent sz s i :
  side_ok s → 0 ≤ i < np * N_HASHENTRY_PER_PAGE →
  wp (hash_ent (HashTable k true (np * N_HASHENTRY_PER_PAGE) sz 0) i) s
    (λ l s', l = (pgs (i / N_HASHENTRY_PER_PAGE), i mod N_HASHENTRY_PER_PAGE) ∧ s' = s).
Proof.
  intros Hs Hi. pose proof (slot_page i Hi) as Hp. destruct (sd_page s Hs _ Hp) as [Hpg Hsh].
  unfold hash_ent. simpl. unfold get_hash_ent. wp_pure. apply wp_get_map. wp_pure. apply wp_on_mem.
  eapply wp_eq; [apply (get_page_existing _ _ _ N R node); [apply Hs|lia|apply Hs| |done]|].
  - rewrite Hpg. by apply (sd_nonzero s Hs).
  - wp_pure. apply wp_upd_map. wp_pure. rewrite Hpg. split; [done|]. simpl. rewrite set_back_id. by destruct s.
Qed.

Lemma side_read s i :
  side_ok s → 0 ≤ i < np * N_HASHENTRY_PER_PAGE →
  wp (hb_read (pgs (i / N_HASHENTRY_PER_PAGE), i mod N_HASHENTRY_PER_PAGE)) s (λ e s', s' = s ∧ e = slot_of s i).
Proof.
  intros Hs Hi. destruct (sd_hash s Hs _ (slot_page i Hi)) as [h Hh]. simpl. apply wp_on_mem. wp_pure.
  eapply wp_deref; [exact Hh|]. wp_pure. unfold slot_of. rewrite Hh. by destruct s.
Qed.

(** The memory with entry [e] written to slot [i]. *)
Lemma side_write s i e :
  side_ok s → 0 ≤ i < np * N_HASHENTRY_PER_PAGE →
  wp (hb_write (pgs (i / N_HASHENTRY_PER_PAGE), i mod N_HASHENTRY_PER_PAGE) e) s (λ _ s',
    side_ok s' ∧ side_frame s s' ∧ slot_of s' i = e ∧
    ∀ j, 0 ≤ j < np * N_HASHENTRY_PER_PAGE → j ≠ i → slot_of s' j = slot_of s j).
Proof.
  intros Hs Hi. pose proof (slot_page i Hi) as Hp. destruct (sd_hash s Hs _ Hp) as [h Hh].
  simpl. apply wp_on_mem. wp_pure. eapply wp_deref; [exact Hh|]. wp_pure.
  set (p := pgs (i / N_HASHENTRY_PER_PAGE)) in *. set (m := ks_mem s) in *.
  set (m' := set_page p (PgHash (<[i mod N_HASHENTRY_PER_PAGE := e]> h)) m).
  set (pt := back k (ks_map s)). pose proof (sd_pt s Hs) as Hpt. fold m pt in Hpt.
  assert (Hsome : is_Some (pm_page m !! p)) by (destruct (pm_page m !! p); [done|discriminate]).
  assert (Hsame : same_pages (pt_nodes m pt) m m').
  { intros q Hq. apply lookup_insert_ne. apply not_eq_sym. eapply side_page_not_node; [done|done|].
    rewrite <- (sd_nodes _ Hs). apply elem_of_app. by left. }
  destruct (pt_ext _ _ _ Hsame) as (Hns&Hrs&_&He).
  assert (Hat : ∀ j, 0 ≤ j < np → pm_page m' !! pgs j ≫= as_hash =
     if decide (j = i / N_HASHENTRY_PER_PAGE) then Some (<[i mod N_HASHENTRY_PER_PAGE := e]> h)
     else pm_page m !! pgs j ≫= as_hash).
  { intros j Hj. unfold m'. simpl. case_decide as Hji; [subst j; by rewrite lookup_insert_eq|].
    rewrite lookup_insert_ne; [done|]. intros Heq. apply Hji. symmetry. by apply (sd_inj s Hs). }
  split_and!.
  - split; simpl; fold m pt.
    + eapply pt_inv_ext; [exact Hpt|exact Hsame|]. apply refs_set_page; [apply Hpt|done].
    + rewrite Hns. apply Hs.
    + rewrite Hrs. apply Hs.
    + apply Hs.
    + intros j Hj. rewrite He by lia. by apply (sd_page s Hs).
    + apply Hs.
    + apply Hs.
    + intros j Hj. rewrite Hat by done. case_decide; [done|]. by apply (sd_hash s Hs).
    + apply Hs.
  - split_and!; [done|done|]. intros q Hq. simpl. apply lookup_insert_ne. apply not_eq_sym. by apply Hq.
  - unfold slot_of. simpl. fold m'. rewrite Hat, decide_True, lookup_insert_eq by done. done.
  - intros j Hj Hne. unfold slot_of. simpl. fold m'. rewrite Hat by (by apply slot_page).
    case_decide as Hji; [|done]. fold m p in Hh |- *. rewrite Hji. fold p. rewrite Hh. rewrite lookup_insert_ne; [done|].
    intros Hmod. apply Hne. rewrite ents_per_page in *. 
    rewrite (Z.div_mod j 256), (Z.div_mod i 256), Hji, Hmod by lia. done.
Qed.

Program Definition side_store : HashStore (S := kst) k true 0 (np * N_HASHENTRY_PER_PAGE) := {|
  hs_inv := side_ok;
  hs_view := slot_of;
  hs_at _ l i := l = (pgs (i / N_HASHENTRY_PER_PAGE), i mod N_HASHENTRY_PER_PAGE);
  hs_frame := side_frame;
  hs_frame_po := side_frame_po;
|}.
Next Obligation.
  intros sz s i Hs Hi. eapply wp_mono; [by apply side_ent|]. intros l s' [-> ->].
  by split_and!.
Qed.
Next Obligation. intros s l i Hs Hi ->. by apply side_read. Qed.
Next Obligation. intros s l i e Hs Hi ->. by apply side_write. Qed.
End store.

(** ** The other side *)

Lemma alloc_inv_meta m m' :
  alloc_inv m → same_meta m m' → (∀ p, is_Some (pm_page m !! p) → is_Some (pm_page m' !! p)) → alloc_inv m'.
Proof.
  intros [Hc Hn Hu Hh Hp Hl] (Ec&Ef&El&_&Ei) Hsome. split; rewrite ?Ec, ?Ef, ?El; try done.
  - intros pn Hpn. destruct (Hp pn Hpn) as (i&Hi&Hpg&H1&H2). exists i. rewrite Ei, Ec, Ef. by split_and!; auto.
  - intros n l Hnl. destruct (Hl n l Hnl) as [Hnd Hall]. split; [done|]. intros p Hin.
    destruct (Hall p Hin) as (pn&i&?). exists pn, i. unfold page_at in *. by rewrite Ec, Ei.
Qed.
Lemma refs_inv_meta m m' N R :
  refs_inv m N R → same_meta m m' → (∀ p, is_Some (pm_page m !! p) → is_Some (pm_page m' !! p)) → refs_inv m' N R.
Proof.
  intros [Ha Hnd Hn Hnr Hl Hr] Hm Hsome. pose proof (alloc_inv_meta _ _ Ha Hm Hsome).
  destruct Hm as (Ec&_&_&_&Ei). split; try done; unfold page_used, page_live, page_at in *; rewrite ?Ec, ?Ei; try done.
Qed.

(** What one side does leaves the other side alone. *)
Lemma side_other k np pgs nds rfs N R node k' np' pgs' nds' rfs' N' R' node' s s' :
  side_frame np pgs s s' → side_ok k np pgs nds rfs N R node s' →
  side_ok k' np' pgs' nds' rfs' N' R' node' s → nds' ⊆ N → rfs' ⊆ R →
  side_ok k' np' pgs' nds' rfs' N' R' node' s' ∧
  ∀ j, 0 ≤ j < np' * N_HASHENTRY_PER_PAGE → slot_of pgs' s' j = slot_of pgs' s j.
Proof.
  intros (Em&Hmeta&Hpg) Hs' Hs2 HN HR. pose proof Hs2 as [Hpt Hn Hr Hh Hp Hz Hown Hhash Hinj].
  assert (Hsame : same_pages nds' (ks_mem s) (ks_mem s')).
  { intros q Hq. apply Hpg. intros i Hi. eapply side_page_not_node; [exact Hs'|done|].
    apply elem_of_app. right. by apply HN. }
  assert (Hat : ∀ j, 0 ≤ j < np' → pm_page (ks_mem s') !! pgs' j = pm_page (ks_mem s) !! pgs' j).
  { intros j Hj. apply Hpg. intros i Hi Heq. apply (sd_own _ _ _ _ _ _ _ _ _ Hs' (pgs i)); [by eapply side_page_ref|].
    rewrite <- Heq. apply HR. by eapply side_page_ref. }
  rewrite <- Hn in Hsame. destruct (pt_ext _ _ _ Hsame) as (En&Er&_&He). split.
  - split; rewrite ?Em; try done.
    + eapply pt_inv_ext; [exact Hpt|exact Hsame|]. eapply refs_inv_meta; [apply Hpt|exact Hmeta|].
      intros p Hsome. destruct (decide (p ∈ (pgs <$> seqZ 0 np))) as [(i&->&Hi%elem_of_seqZ)%list_elem_of_fmap|Hno].
      * destruct (sd_hash _ _ _ _ _ _ _ _ _ Hs' i ltac:(lia)) as [h Hh']. destruct (pm_page (ks_mem s') !! pgs i); done.
      * rewrite Hpg; [done|]. intros i Hi ->. apply Hno, list_elem_of_fmap. exists i. split; [done|].
        apply elem_of_seqZ. lia.
    + by rewrite En.
    + by rewrite Er.
    + by rewrite (proj1 Hmeta).
    + intros i Hi. rewrite He by lia. by apply Hp.
    + intros i Hi. rewrite Hat by done. by apply Hhash.
  - intros j Hj. unfold slot_of. by rewrite Hat by (by apply slot_page).
Qed.

(** The tables are no part of a side. *)
Lemma side_set_table k np pgs nds rfs N R node j t s :
  side_ok k np pgs nds rfs N R node s →
  side_ok k np pgs nds rfs N R node (Kst (ks_mem s) (set_table j t (ks_map s))).
Proof. intros [? ? ? ? ? ? ? ? ?]. by split; simpl; rewrite ?back_set_table. Qed.

(** ** Hash operations on a side *)

Section side.
Context (k : bool) (np : Z) (pgs : Z → Z) (nds rfs N R : list Z) (node : Z).
Abbreviation cap := (np * N_HASHENTRY_PER_PAGE).
Abbreviation St := (side_store k np pgs nds rfs N R node).

(** In state [s] the table [t] of side [k] represents [m]. *)
Definition side_rep (s : kst) (t : hashtable bool) (m : gmap Z Z) : Prop := hash_rep (HS := St) k true 0 cap s t m.

Lemma side_rep_ok s t m : side_rep s t m → side_ok k np pgs nds rfs N R node s.
Proof. by intros (_&Hi&_). Qed.
Lemma side_rep_table s t m : side_rep s t m → t = HashTable k true cap (Z.of_nat (size m)) 0.
Proof. by intros (->&_). Qed.

Lemma side_rep_set_table s t m j t' :
  side_rep s t m → side_rep (Kst (ks_mem s) (set_table j t' (ks_map s))) t m.
Proof.
  intros (->&Hi&Hwf&Hm). split_and!; [done|by apply side_set_table|exact Hwf|exact Hm].
Qed.

(** The slots of an unchanged side. *)
Lemma side_rep_ext s s' t m :
  0 < cap < 2 ^ 31 → side_rep s t m → side_ok k np pgs nds rfs N R node s' →
  (∀ j, 0 ≤ j < cap → slot_of pgs s' j = slot_of pgs s j) → side_rep s' t m.
Proof.
  intros Hn (->&Hi&Hwf&Hm) Hi' Hv. split_and!; [done|exact Hi'| |].
  - eapply slots_wf_ext; [|lia|exact Hwf]. intros j Hj. symmetry. by apply Hv.
  - rewrite <- Hm. apply amap_ext. intros j Hj. by apply Hv.
Qed.

Lemma put_in_wp s m key v (Q : Z → kst → Prop) :
  0 < cap < 2 ^ 31 → (cap | 2 ^ 64) → side_rep s (table k (ks_map s)) m →
  bad_key key = false → m !! key = None →
  (Z.of_nat (size m) < cap → ∀ s1 t, side_frame np pgs s s1 → side_rep s1 t (<[key := v]> m) →
     Q 0 (Kst (ks_mem s1) (set_table k t (ks_map s1)))) →
  (Z.of_nat (size m) = cap → ∀ s1, side_frame np pgs s s1 → side_rep s1 (table k (ks_map s)) m →
     Q (- E_NO_SPACE) (Kst (ks_mem s1) (set_table k (table k (ks_map s)) (ks_map s1)))) →
  wp (put_in k key v) s Q.
Proof.
  intros Hn Hdiv Hrep Hk Hno Hok Hfull. unfold put_in. wp_pure. apply wp_get_map. wp_pure.
  pose proof (rep_size_le (HS := St) k true 0 cap Hn _ _ _ Hrep) as Hle.
  eapply wp_mono; [exact (hash_put_spec (HS := St) k true 0 cap Hn s _ m key v Hdiv Hrep)|].
  intros [r t] s1 [Hf Hres]. rewrite Hk, Hno in Hres. wp_pure. apply wp_upd_map. wp_pure.
  destruct (Z.eqb_spec (Z.of_nat (size m)) cap) as [He|Hne].
  - destruct Hres as [-> Hr]. pose proof (side_rep_table _ _ _ Hrep) as Ht.
    pose proof (side_rep_table _ _ _ Hr) as Ht'. rewrite Ht', <- Ht in Hr |- *. by apply Hfull.
  - destruct Hres as [-> Hr]. apply Hok; [lia|done|done].
Qed.
End side.

(** ** Moving the entries to the other side *)

Lemma slots_rest_ext n f g i :
  (∀ j, 0 ≤ j < n → f j = g j) → 0 ≤ i →
  omap (slot_kv f) (seqZ i (n - i)) = omap (slot_kv g) (seqZ i (n - i)).
Proof.
  intros Heq Hi. apply list_omap_ext, Forall_Forall2_diag, Forall_forall.
  intros j Hj%elem_of_seqZ. unfold slot_kv. by rewrite Heq by lia.
Qed.

Section copy.
Context (c : bool) (np1 np2 : Z) (pgs1 pgs2 : Z → Z) (nd1 rf1 nd2 rf2 N R : list Z) (node : Z).
Context (Hn1 : 0 < np1 * N_HASHENTRY_PER_PAGE < 2 ^ 31) (Hn2 : 0 < np2 * N_HASHENTRY_PER_PAGE < 2 ^ 31).
Context (Hdiv : (np2 * N_HASHENTRY_PER_PAGE | 2 ^ 64)).
Abbreviation n1 := (np1 * N_HASHENTRY_PER_PAGE).
Abbreviation n2 := (np2 * N_HASHENTRY_PER_PAGE).
Abbreviation ok1 := (side_ok c np1 pgs1 nd1 rf1 (nd2 ++ N) (rf2 ++ R) node).
Abbreviation rep2 := (side_rep (negb c) np2 pgs2 nd2 rf2 (nd1 ++ N) (rf1 ++ R) node).

(** What the loop leaves alone. *)
Record copied (s s' : kst) : Prop := Copied {
  co_back : ∀ j, back j (ks_map s') = back j (ks_map s);
  co_table : table c (ks_map s') = table c (ks_map s);
  co_rest : mp_npages (ks_map s') = mp_npages (ks_map s) ∧ mp_cur (ks_map s') = mp_cur (ks_map s) ∧
            mp_pid (ks_map s') = mp_pid (ks_map s);
  co_meta : same_meta (ks_mem s) (ks_mem s');
  co_pages : ∀ q, (∀ i, 0 ≤ i < np1 → q ≠ pgs1 i) → (∀ i, 0 ≤ i < np2 → q ≠ pgs2 i) →
     pm_page (ks_mem s') !! q = pm_page (ks_mem s) !! q;
}.
Lemma copied_trans s1 s2 s3 : copied s1 s2 → copied s2 s3 → copied s1 s3.
Proof.
  intros [B1 T1 (?&?&?) M1 P1] [B2 T2 (?&?&?) M2 P2]. split; [|congruence|split_and!; congruence|by etrans|].
  - intros j. by rewrite B2.
  - intros q Ha Hb. by rewrite P2, P1.
Qed.
Lemma copied_refl s : copied s s.
Proof. by split. Qed.
Lemma copied_frame1 s s' : side_frame np1 pgs1 s s' → copied s s'.
Proof. intros (Em&Hm&Hp). split; rewrite ?Em; try done. intros q H1 _. by apply Hp. Qed.
Lemma copied_frame2 s s1 t : side_frame np2 pgs2 s s1 →
  copied s (Kst (ks_mem s1) (set_table (negb c) t (ks_map s1))).
Proof.
  intros (Em&Hm&Hp). split; simpl; rewrite ?Em; try done.
  - intros j. apply back_set_table.
  - rewrite table_set_table. by destruct c.
  - by destruct c.
  - intros q _ H2. by apply Hp.
Qed.

Lemma rehash_copy_wp fuel it s done :
  ok1 s → rep2 s (table (negb c) (ks_map s)) done →
  (∃ sz, table c (ks_map s) = HashTable c true n1 sz 0) →
  0 ≤ hi_index it ≤ n1 → (Z.to_nat (n1 - hi_index it) < fuel)%nat →
  let rest := omap (slot_kv (slot_of pgs1 s)) (seqZ (hi_index it) (n1 - hi_index it)) in
  NoDup rest.*1 → (∀ k v, (k, v) ∈ rest → done !! k = None ∧ bad_key k = false) →
  Z.of_nat (size done) + Z.of_nat (length rest) < n2 →
  wp (rehash_copy fuel c (negb c) it) s (λ _ s',
    ok1 s' ∧ copied s s' ∧ rep2 s' (table (negb c) (ks_map s')) (list_to_map rest ∪ done)).
Proof using Hn1 Hn2 Hdiv.
  revert it s done. induction fuel as [|fuel IH]; intros it s m H1 H2 [sz Ht] Hi Hf rest Hnd Hnew Hsz; [lia|].
  simpl. wp_pure. apply wp_get_map. wp_pure. rewrite Ht.
  eapply wp_mono; [exact (hashiter_next_spec (HS := side_store c np1 pgs1 nd1 rf1 (nd2 ++ N) (rf2 ++ R) node)
                            c true 0 n1 Hn1 sz it s H1 Hi)|].
  intros [more it'] s1 ((H1'&Hf1&Hv1)&Hres). simpl in Hres. fold rest in Hres.
  destruct (side_other _ _ _ _ _ _ _ _ (negb c) np2 pgs2 nd2 rf2 (nd1 ++ N) (rf1 ++ R) node s s1
              Hf1 H1' (side_rep_ok _ _ _ _ _ _ _ _ _ _ _ H2)) as [H2o Hv2]; [apply list_subseteq_app_l; done..|].
  assert (H2' : rep2 s1 (table (negb c) (ks_map s1)) m).
  { rewrite (proj1 Hf1). by eapply side_rep_ext. }
  pose proof (copied_frame1 _ _ Hf1) as Hc1.
  destruct (Z.eqb_spec more 0) as [_|_].
  { wp_pure. rewrite Hres. split_and!; [done|done|]. by rewrite list_to_map_nil, (left_id_L ∅ (∪)). }
  destruct Hres as [Hidx Hrest]. set (k := hi_key it') in *. set (v := hi_val it') in *.
  set (rest' := omap _ (seqZ (hi_index it') _)) in Hrest. rewrite Hrest in Hnd, Hnew, Hsz |- *.
  simpl in Hsz. apply NoDup_cons in Hnd as [Hkn Hnd]. destruct (Hnew k v ltac:(by left)) as [Hno Hbad].
  wp_pure. eapply put_in_wp; [done|done|exact H2'|done|done| |lia].
  intros _ s2 t Hf2 H2s. wp_pure.
  destruct (side_other _ _ _ _ _ _ _ _ c np1 pgs1 nd1 rf1 (nd2 ++ N) (rf2 ++ R) node s1 s2
              Hf2 (side_rep_ok _ _ _ _ _ _ _ _ _ _ _ H2s) H1') as [H1s Hv1s]; [apply list_subseteq_app_l; done..|].
  set (s3 := Kst _ _).
  assert (Hc3 : copied s s3) by (eapply copied_trans; [exact Hc1|by apply copied_frame2]).
  assert (Hr3 : omap (slot_kv (slot_of pgs1 s3)) (seqZ (hi_index it') (n1 - hi_index it')) = rest').
  { apply slots_rest_ext; [|lia]. intros j Hj. change (slot_of pgs1 s3 j) with (slot_of pgs1 s2 j).
    rewrite Hv1s by done. by apply Hv1. }
  apply wp_assert; [done|].
  eapply wp_mono; [apply (IH it' s3 (<[k := v]> m)); rewrite ?Hr3; try done|].
  - by apply side_set_table.
  - unfold s3. simpl. rewrite table_set_table, decide_True by done. by apply side_rep_set_table.
  - exists sz. by rewrite (co_table _ _ Hc3).
  - lia.
  - lia.
  - intros k' v' Hin. destruct (Hnew k' v' ltac:(by right)) as [Hno' Hb']. split; [|done].
    rewrite lookup_insert_ne; [done|]. intros <-. apply Hkn, list_elem_of_fmap. by exists (k, v').
  - rewrite map_size_insert_None by done. lia.
  - intros [] s4 (H1f&Hcf&H2f). rewrite Hr3 in H2f. split_and!; [done|by eapply copied_trans|].
    rewrite list_to_map_cons, <- insert_union_l, insert_union_r; [done|].
    by apply not_elem_of_list_to_map_1.
Qed.
End copy.

(** ** Giving the next tree its pages *)

Lemma zero_page_wp m pt p N R (Q : unit → pmem → Prop) :
  pt_inv m pt N R → p ∈ pt_refs m pt →
  (∀ m', pt_inv m' pt N R → pt_nodes m' pt = pt_nodes m pt → pt_refs m' pt = pt_refs m pt →
     (∀ n, 0 ≤ n → pt_entry m' pt n = pt_entry m pt n) →
     pm_page m' !! p = Some PgZero → (∀ q, q ≠ p → pm_page m' !! q = pm_page m !! q) →
     pm_conf m' = pm_conf m → Q tt m') →
  wp (page_zero p) m Q.
Proof.
  intros Hi Hp HQ. pose proof Hi as [Hinv Hok Hents].
  assert (HpR : p ∈ pt_refs m pt ++ R) by (apply elem_of_app; by left).
  unfold page_zero. apply wp_write_page; [by eapply refs_ref_contents|]. set (m1 := set_page p PgZero m).
  assert (Hs : same_pages (pt_nodes m pt) m m1).
  { intros q Hq. apply lookup_insert_ne. intros <-.
    eapply (refs_disjoint _ _ _ _ Hinv); [|exact HpR]. apply elem_of_app. by left. }
  destruct (pt_ext _ _ _ Hs) as (Hn&Hr&_&He).
  apply HQ; try done.
  - eapply pt_inv_ext; [exact Hi|done|]. apply refs_set_page; [done|by eapply refs_ref_contents].
  - apply lookup_insert_eq.
  - intros q Hq. by apply lookup_insert_ne.
Qed.

(** Freeing an address inside a page that is in use always panics. *)
Lemma kva2pa_inside m pn off :
  conf_ok (pm_conf m) → 0 ≤ pn < mc_npages (pm_conf m) → 0 ≤ off < PGSIZE →
  kva2pa (page_addr pn + off) m = Ret (PGSIZE * pn + off) m.
Proof.
  intros [Hc _] Hpn Hoff. unfold kva2pa, page_addr, mbind, m_bind, gets.
  change PGSIZE with 4096 in *. unfold PHYSBASE, KERNBASE, PGSHIFT in *.
  rewrite (Z.shiftl_mul_pow2 _ 12) by lia. rewrite (u64_small (_ * _)) by (unfold in_u64; lia).
  rewrite u64_small by (unfold in_u64; lia).
  rewrite (proj2 (Z.leb_gt _ (_ + _))) by lia. simpl.
  rewrite (proj2 (Z.leb_le _ (_ + _))) by lia. rewrite (proj2 (Z.ltb_lt (_ + _) _)) by lia. simpl.
  unfold mret, m_ret. f_equal. lia.
Qed.
Lemma page_free_inside m N R p off :
  refs_inv m N R → p ∈ N → 0 < off < PGSIZE → page_free (p + off) m = Crash Panic.
Proof.
  intros Hi Hp Hoff. destruct (ri_node _ _ _ Hi p Hp) as [(pn&i&[-> Hpn]&Hin&_&Hhw) _].
  fold (page_addr pn). pose proof (ai_conf _ (ri_alloc _ _ _ Hi)) as Hc.
  assert (Hk := kva2pa_inside m pn off Hc Hpn ltac:(lia)).
  assert (Hpp : pa2ppn (PGSIZE * pn + off) m = Ret pn m).
  { unfold pa2ppn, mbind, m_bind, gets. change PGSIZE with 4096 in *. unfold PGSHIFT.
    rewrite Z.shiftr_div_pow2 by lia. change (2 ^ 12) with 4096.
    rewrite (Z.add_comm _ off), Z.mul_comm, Z.div_add, Z.div_small, Z.add_0_l by lia.
    by rewrite (proj2 (Z.ltb_ge _ _)) by lia. }
  assert (Hof : (PGOFF (page_addr pn + off) =? 0) = false).
  { destruct Hc as [Hc _]. unfold page_addr, PHYSBASE. change PGSIZE with 4096 in *.
    rewrite PGOFF_mod by (unfold in_u64; lia). apply Z.eqb_neq.
    rewrite <- (Z.mod_unique _ 4096 (0xffff800000000 + pn) off) by lia. lia. }
  unfold page_free, page_to_pageinfo, get_info, mbind, m_bind, deref. rewrite Hk, Hpp, Hin, Hhw, Hk.
  unfold arch_node_by_addr, mbind, m_bind, gets.
  destruct (node_scan (mc_memnode (pm_conf m)) 0 (PGSIZE * pn + off)) as [n|]; [|done].
  unfold mret at 1, m_ret at 1, c_assert. destruct (0 <=? n); [|done]. by rewrite Hof.
Qed.
