(* ===== verification/KMapRehash.v ===== *)
(** * Kernel maps: rehashing

    [rehash] builds a tree of twice as many pages, moves the entries and frees the
    old tree; the map it represents stays the same.  When the nodes of the new tree cannot be allocated
    the old table stays in place; when a page cannot be allocated the kernel
    panics, because the error path frees the address of a local variable. *)
From S2P Require Import Prelude Machine Hashtable Ktypes Kmem PageAlloc Pagetree Supply PageRefs PagetreeSpec PagetreeOps PagetreeWhole PagetreeThms PagetreeFree PagetreeProps DarrayThms KMap KMapThms.

Section build.
Context (d : bool) (N R : list Z) (node p0 off : Z) (Hp0 : p0 ∈ N) (Hoff : 0 < off < PGSIZE).

(** What building the tree of side [d] leaves alone. *)
Record keeps (s s' : kst) : Prop := Keeps {
  ke_map : ∃ pt, ks_map s' = set_back d pt (ks_map s);
  ke_conf : pm_conf (ks_mem s') = pm_conf (ks_mem s);
  ke_pages : ∀ q, q ∈ N ∨ q ∈ R → pm_page (ks_mem s') !! q = pm_page (ks_mem s) !! q;
}.
Lemma set_back_twice pt pt' mp : set_back d pt (set_back d pt' mp) = set_back d pt mp.
Proof. by destruct d, mp. Qed.
Lemma keeps_refl s : keeps s s.
Proof. split; [|done|done]. exists (back d (ks_map s)). by rewrite set_back_id. Qed.
Lemma keeps_trans s1 s2 s3 : keeps s1 s2 → keeps s2 s3 → keeps s1 s3.
Proof.
  intros [[pt1 E1] C1 P1] [[pt2 E2] C2 P2]. split; [|congruence|].
  - exists pt2. by rewrite E2, E1, set_back_twice.
  - intros q Hq. by rewrite P2, P1.
Qed.

(** The page [va] was put at index [i] of a tree with [i] pages and cleared. *)
Lemma side_ok_add s i pgs nds rfs va m2 pt2 m3 :
  side_ok d i pgs nds rfs N R node s → 0 ≤ i → va ≠ 0 →
  apart va (ks_mem s) (back d (ks_map s)) N R →
  put_post (ks_mem s) (back d (ks_map s)) i va N R m2 pt2 → same_conf (ks_mem s) (back d (ks_map s)) m2 pt2 →
  pt_inv m3 pt2 N R → pt_refs m3 pt2 = pt_refs m2 pt2 → (∀ n, 0 ≤ n → pt_entry m3 pt2 n = pt_entry m2 pt2 n) →
  pm_page m3 !! va = Some PgZero → (∀ q, q ≠ va → pm_page m3 !! q = pm_page m2 !! q) →
  pm_conf m3 = pm_conf m2 →
  side_ok d (i + 1) (λ j, if decide (j = i) then va else pgs j) (pt_nodes m3 pt2) (pt_refs m3 pt2) N R node
    (Kst m3 (set_back d pt2 (ks_map s))).
Proof.
  intros Hs Hi Hva Hap (Hi2&He2&Hp2&Hmd2&Hr2&Hk2&_) (Hc&Hpid&_) Hi3 Hr3 He3 Hz3 Hpg3 Hc3.
  pose proof Hs as [Hpt Hnd Hrf Hh Hp Hz Hown Hhash Hinj].
  assert (Hnew : ∀ j, 0 ≤ j < i → pgs j ≠ va).
  { intros j Hj. apply Hap. left. rewrite Hrf. by eapply side_page_ref. }
  assert (Hent : ∀ j, 0 ≤ j < i → pt_entry m3 pt2 j = pt_entry (ks_mem s) (back d (ks_map s)) j).
  { intros j Hj. rewrite He3 by lia. apply He2; lia. }
  split; simpl; rewrite ?back_set_back, ?decide_True by done; try done.
  - by rewrite Hc3, Hc, Hpid.
  - intros j Hj. case_decide as Hji; [subst j|rewrite Hent by lia; apply Hp; lia].
    rewrite He3 by lia. split; [done|]. unfold is_shared. by rewrite Hmd2.
  - intros j Hj. case_decide as Hji; [done|apply Hz; lia].
  - intros q Hq HqR. rewrite Hr3 in Hq. apply Hr2, elem_of_app in Hq as [Hq|Hq].
    + unfold handed in Hq. rewrite (proj2 (Z.eqb_neq _ _)) in Hq by done. apply list_elem_of_singleton in Hq as ->.
      by apply (Hap va); [right; right|].
    + rewrite Hrf in Hq. by apply (Hown q).
  - intros j Hj. case_decide as Hji; [by rewrite Hz3|].
    rewrite Hpg3 by (apply Hnew; lia). rewrite Hk2; [apply Hhash; lia|].
    right. right. destruct (Hp j ltac:(lia)) as [Hpj _]. rewrite <- Hpj. rewrite <- (He2 j) by lia.
    eapply page_in_refs; [done|lia|]. rewrite (He2 j) by lia. rewrite Hpj. apply Hz. lia.
  - intros j j' Hj Hj'. repeat case_decide; subst; try done.
    + intros Heq. destruct (Hnew j'); [lia|done].
    + intros Heq. destruct (Hnew j); [lia|done].
    + apply Hinj; lia.
Qed.

Lemma rehash_pages_wpx k i s pgs nds rfs :
  side_ok d i pgs nds rfs N R node s → 0 ≤ i → i + Z.of_nat k ≤ pt_max →
  mp_pid (ks_map s) = pt_pid (back d (ks_map s)) →
  wpx (rehash_pages k i (p0 + off) d) s (λ r s', keeps s s' ∧
    ((r = 0 ∧ ∃ pgs' nds' rfs', side_ok d (i + Z.of_nat k) pgs' nds' rfs' N R node s') ∨
     (r = - E_NO_MEM ∧ few_free (PAGE_COST * k) (ks_mem s) ∧ ∃ va, pt_inv (ks_mem s') (back d (ks_map s')) (va :: N) R)))
    ((0 < k)%nat ∧ few_free (PAGE_COST * (k - 1)) (ks_mem s)).
Proof using Hp0 Hoff.
  revert i s pgs nds rfs. induction k as [|k IH]; intros i s pgs nds rfs Hs Hi Hmax Hpid.
  { apply wp_wpx. simpl. wp_pure. split; [apply keeps_refl|]. left. rewrite Z.add_0_r. eauto. }
  simpl. apply wpx_bind_wp. apply wp_get_map. pose proof Hs as [Hpt Hnd Hrf Hh _ _ _ _ _].
  set (m := ks_mem s) in *. set (pt := back d (ks_map s)) in *.
  apply wpx_bind_wp. apply wp_on_mem. fold m. apply (takes_wp 1); [typeclasses eauto|].
  eapply refs_alloc; [apply Hpt|by rewrite Hpid| |].
  { intros f p Hif Hno _. unfold wpx, mbind, m_bind, on_mem, zoom. simpl.
    rewrite (page_free_inside _ _ _ p0 off Hif); [|apply elem_of_app; by right|done]. split; [done|].
    split; [lia|]. eapply few_free_le; [by apply few_free_none|lia]. }
  intros va m1 Hi1 Hpg Hc _ _ Hclr Htk1. destruct (alloc_for_tree _ _ _ _ _ _ Hpt Hi1 Hpg) as (Hva&Hpt1&Hap).
  change (0 <? 0) with false. apply wpx_bind_wp, wp_on_mem. simpl. apply (takes_wp MAX_NODES); [typeclasses eauto|].
  eapply pagetree_put_page_wp; [exact Hpt1|done|by rewrite Hc| | |].
  { intros Hge. lia. }
  - intros m2 pt2 _ _ Hff G _. apply wp_wpx. wp_pure. apply wp_upd_map. wp_pure. simpl. split.
    + split; [by exists pt2|simpl; rewrite (pg_conf _ _ _ _ _ _ G); exact Hc|].
      intros q Hq. simpl. rewrite (pt_grown_contents _ _ _ _ _ _ q G), Hpg; [done|].
      rewrite !elem_of_app. tauto.
    + right. split; [done|]. split; [eapply few_free_le; [by eapply takes_few|unfold PAGE_COST, MAX_NODES; lia]|].
      exists va. rewrite back_set_back, decide_True by done.
      pose proof (pg_inv _ _ _ _ _ _ G) as Hg. unfold handed in Hg. by rewrite (proj2 (Z.eqb_neq _ _)) in Hg by done.
  - intros m2 pt2 _ Hpp Hsc Htk2. apply wpx_bind_wp, wp_upd_map. simpl. apply wpx_bind_wp, wp_on_mem. simpl.
    destruct (put_post_pages m m1 pt i va N R m2 pt2) as [Hpp' Hsc']; [done..|].
    pose proof Hpp' as (Hi2&_&Hp2&_). apply (takes_wp 0); [apply takes_of_keeps; typeclasses eauto|]. eapply zero_page_wp; [exact Hi2| |].
    { rewrite <- Hp2. eapply page_in_refs; [done|lia|by rewrite Hp2]. }
    intros m3 Hi3 _ Hr3 He3 Hz3 Hpg3 Hc3 Htk3.
    assert (Htk : takes PAGE_COST m m3) by (eapply takes_le; [eapply takes_trans; [exact Htk1|by eapply takes_trans]|unfold PAGE_COST, MAX_NODES; lia]).
    pose proof (side_ok_add s i pgs nds rfs va m2 pt2 m3 Hs Hi Hva Hap Hpp' Hsc' Hi3 Hr3 He3 Hz3 Hpg3 Hc3) as Hs3.
    set (s3 := Kst m3 _) in *.
    assert (Hk3 : keeps s s3).
    { split; [by exists pt2|simpl; rewrite Hc3; apply Hsc'|]. intros q Hq. simpl.
      rewrite Hpg3 by (apply Hap; tauto). apply Hpp'. tauto. }
    eapply wpx_mono; [eapply (IH (i + 1) s3); [exact Hs3|lia|lia|]| |].
    + simpl. rewrite back_set_back, decide_True by done. destruct Hsc' as (_&->&_). rewrite <- Hpid.
      destruct d, (ks_map s); done.
    + intros r s' [Hk Hres]. split; [by eapply keeps_trans|].
      replace (i + Z.of_nat (S k)) with (i + 1 + Z.of_nat k) by lia.
      destruct Hres as [Hres|(->&Hff&Hva')]; [by left|]. right. split_and!; [done| |done].
      eapply few_free_le; [by eapply takes_few|unfold PAGE_COST, MAX_NODES; lia].
    + intros [Hk0 Hff]. split; [lia|]. eapply few_free_le; [by eapply takes_few|unfold PAGE_COST, MAX_NODES; lia].
Qed.
End build.

(** ** Sides in a memory that changed elsewhere *)

Lemma side_transfer k np pgs nds rfs N R node s N' R' s' :
  side_ok k np pgs nds rfs N R node s → back k (ks_map s') = back k (ks_map s) →
  pm_conf (ks_mem s') = pm_conf (ks_mem s) →
  (∀ q, q ∈ nds ∨ q ∈ rfs → pm_page (ks_mem s') !! q = pm_page (ks_mem s) !! q) →
  refs_inv (ks_mem s') (nds ++ N') (rfs ++ R') → (∀ q, q ∈ rfs → q ∉ R') →
  side_ok k np pgs nds rfs N' R' node s' ∧ ∀ j, 0 ≤ j < np * N_HASHENTRY_PER_PAGE → slot_of pgs s' j = slot_of pgs s j.
Proof.
  intros Hs Hb Hc Hpg Hi' Hown'. pose proof Hs as [Hpt Hn Hr Hh Hp Hz Hown Hhash Hinj].
  assert (Hsame : same_pages (pt_nodes (ks_mem s) (back k (ks_map s))) (ks_mem s) (ks_mem s')).
  { intros q Hq. apply Hpg. left. by rewrite <- Hn. }
  destruct (pt_ext _ _ _ Hsame) as (En&Er&_&He).
  assert (Hat : ∀ j, 0 ≤ j < np → pm_page (ks_mem s') !! pgs j = pm_page (ks_mem s) !! pgs j).
  { intros j Hj. apply Hpg. right. by eapply side_page_ref. }
  split.
  - split; rewrite ?Hb, ?En, ?Er; try done.
    + eapply pt_inv_ext; [exact Hpt|exact Hsame|]. by rewrite Hn, Hr.
    + by rewrite Hc.
    + intros i Hi. rewrite He by lia. by apply Hp.
    + intros i Hi. rewrite Hat by done. by apply Hhash.
  - intros j Hj. unfold slot_of. by rewrite Hat by (by apply slot_page).
Qed.

Lemma side_rep_transfer k np pgs nds rfs N R node s N' R' s' t m :
  0 < np * N_HASHENTRY_PER_PAGE < 2 ^ 31 →
  side_rep k np pgs nds rfs N R node s t m → back k (ks_map s') = back k (ks_map s) →
  pm_conf (ks_mem s') = pm_conf (ks_mem s) →
  (∀ q, q ∈ nds ∨ q ∈ rfs → pm_page (ks_mem s') !! q = pm_page (ks_mem s) !! q) →
  refs_inv (ks_mem s') (nds ++ N') (rfs ++ R') → (∀ q, q ∈ rfs → q ∉ R') →
  side_rep k np pgs nds rfs N' R' node s' t m.
Proof.
  intros Hcap (->&Hs&Hwf&Hm) Hb Hc Hpg Hi' Hown'.
  destruct (side_transfer _ _ _ _ _ _ _ _ s N' R' s' Hs Hb Hc Hpg Hi' Hown') as [Hs' Hv].
  split_and!; [done|exact Hs'| |].
  - eapply slots_wf_ext; [|lia|exact Hwf]. intros j Hj. symmetry. by apply Hv.
  - rewrite <- Hm. apply amap_ext. intros j Hj. by apply Hv.
Qed.

(** Freeing one of the trees. *)
Lemma free_tree_wp k s N R (Q : unit → kst → Prop) :
  pt_inv (ks_mem s) (back k (ks_map s)) N R →
  (∀ m' pt', refs_inv m' N R → pm_conf m' = pm_conf (ks_mem s) →
     (∀ q, q ∈ N ∨ q ∈ R → pm_page m' !! q = pm_page (ks_mem s) !! q) →
     Q tt (Kst m' (set_back k pt' (ks_map s)))) →
  wp (free_tree k) s Q.
Proof.
  intros [Hi Hok _] HQ. unfold free_tree. wp_pure. apply wp_get_map. wp_pure. apply wp_on_mem.
  eapply pagetree_free_wp; [exact Hi|exact Hok|]. intros m' [Hi' Hc Hk _ _ _]. wp_pure. apply wp_upd_map.
  by apply HQ.
Qed.

(** ** The current side, which may be empty *)

(** A map without pages, or a table that represents [m]. *)
Inductive cur_rep (c : bool) (nd rf N R : list Z) (node : Z) (s : kst) (m : gmap Z Z) : Z → Prop :=
| cur_none : nd = [] → rf = [] → m = ∅ → table c (ks_map s) = zero_table → back c (ks_map s) = zero_tree →
    refs_inv (ks_mem s) N R → cur_rep c nd rf N R node s m 0
| cur_some np pgs : 0 < np * N_HASHENTRY_PER_PAGE < 2 ^ 31 →
    side_rep c np pgs nd rf N R node s (table c (ks_map s)) m → cur_rep c nd rf N R node s m np.

Lemma cur_inv c nd rf N R node s m np :
  cur_rep c nd rf N R node s m np →
  pt_inv (ks_mem s) (back c (ks_map s)) N R ∧ refs_inv (ks_mem s) (nd ++ N) (rf ++ R) ∧
  (∀ q, q ∈ rf → q ∉ R).
Proof.
  intros [-> -> _ _ Hb Hi|np' pgs _ Hr].
  - split_and!; [rewrite Hb; by apply pagetree_init_inv|done|by intros q ?%not_elem_of_nil].
  - destruct (side_rep_ok _ _ _ _ _ _ _ _ _ _ _ Hr) as [Hpt Hn Hrf _ _ _ Hown _ _].
    split_and!; [done| |done]. rewrite <- Hn, <- Hrf. apply Hpt.
Qed.

Lemma cur_transfer c nd rf N R node s m np N' R' s' :
  cur_rep c nd rf N R node s m np → back c (ks_map s') = back c (ks_map s) →
  table c (ks_map s') = table c (ks_map s) → pm_conf (ks_mem s') = pm_conf (ks_mem s) →
  (∀ q, q ∈ nd ∨ q ∈ rf → pm_page (ks_mem s') !! q = pm_page (ks_mem s) !! q) →
  refs_inv (ks_mem s') (nd ++ N') (rf ++ R') → (∀ q, q ∈ rf → q ∉ R') →
  cur_rep c nd rf N' R' node s' m np.
Proof.
  intros [-> -> -> Ht Hb Hi|np' pgs Hcap Hr] Eb Et Ec Hpg Hi' Hown'.
  - apply cur_none; try done; congruence.
  - eapply cur_some; [done|]. rewrite Et. by eapply side_rep_transfer.
Qed.

(** The parts of the state that moving entries does not touch. *)
Record moved (N R : list Z) (s s' : kst) : Prop := Moved {
  mv_back : ∀ j, back j (ks_map s') = back j (ks_map s);
  mv_rest : mp_npages (ks_map s') = mp_npages (ks_map s) ∧ mp_cur (ks_map s') = mp_cur (ks_map s) ∧
            mp_pid (ks_map s') = mp_pid (ks_map s);
  mv_conf : pm_conf (ks_mem s') = pm_conf (ks_mem s);
  mv_pages : ∀ q, q ∈ N ∨ q ∈ R → pm_page (ks_mem s') !! q = pm_page (ks_mem s) !! q;
}.

(** Pages of others are not pages of a side. *)
Lemma side_foreign k np pgs nds rfs N R node s q i :
  side_ok k np pgs nds rfs N R node s → q ∈ N ∨ q ∈ R → 0 ≤ i < np → q ≠ pgs i.
Proof.
  intros Hs [Hq|Hq] Hi; [eapply side_page_not_node; [done|done|apply elem_of_app; by right]|].
  intros ->. eapply (sd_own _ _ _ _ _ _ _ _ _ Hs); [by eapply side_page_ref|done].
Qed.

Section move.
Context (c : bool) (np2 : Z) (pgs2 : Z → Z) (nd1 rf1 nd2 rf2 N R : list Z) (node : Z).
Context (Hn2 : 0 < np2 * N_HASHENTRY_PER_PAGE < 2 ^ 31) (Hdiv : (np2 * N_HASHENTRY_PER_PAGE | 2 ^ 64)).
Abbreviation d := (negb c).
Abbreviation cur1 := (cur_rep c nd1 rf1 (nd2 ++ N) (rf2 ++ R) node).
Abbreviation rep2 := (side_rep d np2 pgs2 nd2 rf2 (nd1 ++ N) (rf1 ++ R) node).

Lemma rehash_copy_all s m np1 :
  cur1 s m np1 → rep2 s (table d (ks_map s)) ∅ → np1 < np2 →
  wp (rehash_copy (S (Z.to_nat (ht_capacity (table c (ks_map s))))) c d hashiter_init) s (λ _ s',
    pt_inv (ks_mem s') (back c (ks_map s')) (nd2 ++ N) (rf2 ++ R) ∧
    rep2 s' (table d (ks_map s')) m ∧ moved N R s s').
Proof using Hn2 Hdiv.
  intros Hcur H2 Hnp. destruct Hcur as [-> -> -> Ht Hb Hi|np1 pgs1 Hn1 Hr1].
  { rewrite Ht. simpl. wp_pure. apply wp_get_map. rewrite Ht. wp_pure. simpl. wp_pure.
    split_and!; [rewrite Hb; by apply pagetree_init_inv|done|by split]. }
  pose proof Hr1 as (Ht&H1&Hwf&Hm). rewrite Ht. change (ht_capacity (HashTable c true ?n _ 0)) with n.
  set (n1 := np1 * N_HASHENTRY_PER_PAGE) in *.
  assert (Hk : omap (slot_kv (slot_of pgs1 s)) (seqZ (hi_index hashiter_init) (n1 - hi_index hashiter_init)) =
               kvs n1 (slot_of pgs1 s)) by (simpl; by rewrite Z.sub_0_r).
  eapply wp_mono; [eapply (rehash_copy_wp c np1 np2 pgs1 pgs2 nd1 rf1 nd2 rf2 N R node Hn1 Hn2 Hdiv _ hashiter_init s ∅)|];
    fold n1; rewrite ?Hk.
  - done.
  - done.
  - by eexists.
  - simpl. lia.
  - simpl. lia.
  - by apply kvs_NoDup.
  - intros k v (j&Hj&Hl&Hf)%elem_of_kvs. split; [done|]. unfold liveb in Hl. rewrite Hf in Hl. simpl in Hl.
    by apply negb_true_iff in Hl.
  - unfold kvs. pose proof (omap_length_le (slot_kv (slot_of pgs1 s)) (seqZ 0 n1)) as Hlen.
    rewrite length_seqZ in Hlen. rewrite map_size_empty. unfold n1 in *. rewrite ents_per_page in *. lia.
  - intros [] s' (H1'&Hc&H2'). rewrite (right_id_L ∅ (∪)) in H2'. fold (amap n1 (slot_of pgs1 s)) in H2'.
    change (amap n1 (slot_of pgs1 s) = m) in Hm. rewrite Hm in H2'. split_and!; [apply H1'|done|].
    destruct Hc as [Hb _ Hrest Hmeta Hpg]. split; [done|done|apply Hmeta|].
    intros q Hq. apply Hpg; intros i Hi'.
    + eapply side_foreign; [exact H1| |done]. rewrite !elem_of_app. tauto.
    + eapply side_foreign; [exact (side_rep_ok _ _ _ _ _ _ _ _ _ _ _ H2)| |done]. rewrite !elem_of_app. tauto.
Qed.

(** [rehash] from the point where the next tree has its pages. *)
Lemma rehash_move_wp s m np1 :
  cur1 s m np1 → side_ok d np2 pgs2 nd2 rf2 (nd1 ++ N) (rf1 ++ R) node s → np1 < np2 → mp_cur (ks_map s) = c →
  wp (rehash_move np2) s (λ r s',
    r = 0 ∧ side_rep d np2 pgs2 nd2 rf2 N R node s' (table d (ks_map s')) m ∧
    mp_npages (ks_map s') = np2 ∧ mp_cur (ks_map s') = d ∧ mp_pid (ks_map s') = mp_pid (ks_map s) ∧
    pm_conf (ks_mem s') = pm_conf (ks_mem s) ∧
    ∀ q, q ∈ N ∨ q ∈ R → pm_page (ks_mem s') !! q = pm_page (ks_mem s) !! q).
Proof using Hn2 Hdiv.
  intros Hcur Hs2 Hnp Hc. unfold rehash_move. wp_pure. apply wp_get_map. wp_pure. rewrite Hc.
  replace (s32 (np2 * N_HASHENTRY_PER_PAGE)) with (np2 * N_HASHENTRY_PER_PAGE).
  2:{ unfold s32. rewrite Z.mod_small by lia. lia. }
  unfold hash_init3. wp_pure.
  eapply wp_mono; [exact (clear_entries_spec (HS := side_store d np2 pgs2 nd2 rf2 (nd1 ++ N) (rf1 ++ R) node)
                            d true 0 _ Hn2 s 0 Hs2)|].
  intros [] s1 [Hf1 Hr1]. wp_pure. apply wp_upd_map. wp_pure. set (s2 := Kst _ _).
  pose proof Hf1 as (Em1&Hmeta1&Hpg1). pose proof (side_rep_ok _ _ _ _ _ _ _ _ _ _ _ Hr1) as Hs1.
  assert (Hpg2 : ∀ q, q ∈ nd1 ++ N ∨ q ∈ rf1 ++ R → pm_page (ks_mem s2) !! q = pm_page (ks_mem s) !! q).
  { intros q Hq. apply Hpg1. intros i Hi. by eapply side_foreign. }
  assert (Hr2 : rep2 s2 (table d (ks_map s2)) ∅).
  { simpl. rewrite table_set_table, decide_True by done. by apply side_rep_set_table. }
  assert (Ht2 : table c (ks_map s2) = table c (ks_map s)).
  { simpl. rewrite table_set_table, decide_False, Em1 by (by destruct c). done. }
  assert (Hcur2 : cur1 s2 m np1).
  { destruct (cur_inv _ _ _ _ _ _ _ _ _ Hcur) as (_&_&Hown). eapply cur_transfer; [exact Hcur| |done| | | |done].
    - simpl. by rewrite back_set_table, Em1.
    - apply Hmeta1.
    - intros q Hq. apply Hpg2. rewrite !elem_of_app. tauto.
    - pose proof (pv_refs _ _ _ _ (sd_pt _ _ _ _ _ _ _ _ _ Hs1)) as Hi.
      rewrite (sd_nodes _ _ _ _ _ _ _ _ _ Hs1), (sd_refs _ _ _ _ _ _ _ _ _ Hs1) in Hi.
      rewrite (Permutation_app_swap_app nd1), (Permutation_app_swap_app rf1). exact Hi. }
  rewrite <- Ht2. eapply wp_mono; [by eapply rehash_copy_all|]. intros [] s3 (Hpt3&Hr3&Hmv). wp_pure.
  eapply free_tree_wp; [exact Hpt3|]. intros m4 pt4 Hi4 Hc4 Hpg4. wp_pure. apply wp_upd_map. wp_pure.
  destruct Hmv as [Hb3 (Hnp3&Hcur3&Hpid3) Hcf3 Hp3]. split_and!; [done| |done|done| | |].
  - replace (table d (ks_map _)) with (table d (ks_map s3)) by (by destruct c, (ks_map s3)).
    eapply (side_rep_transfer d np2 pgs2 nd2 rf2 (nd1 ++ N) (rf1 ++ R) node s3); [done|done| |done| |exact Hi4|].
    + simpl. by destruct c, (ks_map s3).
    + intros q Hq. apply Hpg4. rewrite !elem_of_app. tauto.
    + intros q Hq HqR. eapply (sd_own _ _ _ _ _ _ _ _ _ Hs1 q Hq). apply elem_of_app. by right.
  - simpl. transitivity (mp_pid (ks_map s3)); [by destruct c, (ks_map s3)|]. rewrite Hpid3. simpl.
    rewrite Em1. by destruct c, (ks_map s).
  - simpl. rewrite Hc4, Hcf3. apply Hmeta1.
  - intros q Hq. simpl. rewrite Hpg4 by (rewrite !elem_of_app; tauto). rewrite Hp3 by done.
    apply Hpg2. rewrite !elem_of_app. tauto.
Qed.
End move.
