(* ===== verification/KMapProps.v ===== *)
(** * Kernel maps: properties

    A [struct Map] implements a finite map from keys to values. *)
From S2P Require Import Prelude Machine Hashtable Ktypes Kmem PageAlloc Pagetree Supply PageRefs PagetreeSpec PagetreeOps PagetreeWhole PagetreeThms PagetreeFree PagetreeProps DarrayThms KMap KMapThms KMapRehash.

(** A map has no page or a power of two, few enough for the [int] capacity. *)
Definition np_ok (np : Z) : Prop := np = 0 ∨ ∃ e, 0 ≤ e ≤ 22 ∧ np = 2 ^ e.

Lemma np_cap e : 0 ≤ e ≤ 22 →
  0 < 2 ^ e * N_HASHENTRY_PER_PAGE < 2 ^ 31 ∧ (2 ^ e * N_HASHENTRY_PER_PAGE | 2 ^ 64) ∧ 1 ≤ 2 ^ e ≤ 2 ^ 22.
Proof.
  intros He. rewrite ents_per_page. change 256 with (2 ^ 8). rewrite <- Z.pow_add_r by lia.
  assert (1 ≤ 2 ^ e ≤ 2 ^ 22).
  { split; [pose proof (Z.pow_pos_nonneg 2 e); lia|apply Z.pow_le_mono_r; lia]. }
  split_and!; try lia.
  - apply Z.pow_lt_mono_r; lia.
  - exists (2 ^ (64 - (e + 8))). rewrite <- Z.pow_add_r by lia. f_equal. lia.
Qed.

(** In state [s] the map represents [m]; [N] and [R] are the nodes and the
    references of everything else. *)
Definition map_rep (s : kst) (m : gmap Z Z) (N R : list Z) (node : Z) : Prop :=
  home_node (pm_conf (ks_mem s)) (mp_pid (ks_map s)) = Some node ∧ np_ok (mp_npages (ks_map s)) ∧
  ∃ nd rf, cur_rep (mp_cur (ks_map s)) nd rf N R node s m (mp_npages (ks_map s)).

(** The number of pages [rehash] asks for. *)
Definition next_npages (np : Z) : Z := if np =? 0 then 1 else 2 * np.

Lemma next_npages_ok np :
  np_ok np → np ≤ 2 ^ 21 → ∃ e, 0 ≤ e ≤ 22 ∧ next_npages np = 2 ^ e ∧ np < next_npages np.
Proof.
  intros [->|(e&He&->)] Hle; [by exists 0|]. pose proof (np_cap e He) as (_&_&Hp). exists (e + 1).
  assert (e < 22). { destruct (decide (e = 22)) as [->|]; [|lia]. change (2 ^ 22) with (2 * 2 ^ 21) in *. lia. }
  unfold next_npages. rewrite (proj2 (Z.eqb_neq _ _)) by lia. rewrite Z.pow_add_r by lia. lia.
Qed.

(** The pages that building a table of [np] pages can take. *)
Definition table_cost (np : Z) : nat := PAGE_COST * Z.to_nat np.

Definition others_kept (N R : list Z) (s s' : kst) : Prop :=
  ∀ q, q ∈ N ∨ q ∈ R → pm_page (ks_mem s') !! q = pm_page (ks_mem s) !! q.

Section rehash.
Context (N R : list Z) (node p0 off : Z) (Hp0 : p0 ∈ N) (Hoff : 0 < off < PGSIZE).

(** The empty tree that [rehash] starts with. *)
Lemma side_ok_start d s :
  refs_inv (ks_mem s) N R → home_node (pm_conf (ks_mem s)) (mp_pid (ks_map s)) = Some node →
  side_ok d 0 (λ _, 0) [] [] N R node (Kst (ks_mem s) (set_back d (pagetree_init false (mp_pid (ks_map s))) (ks_map s))).
Proof.
  intros Hi Hh. destruct (pagetree_init_shape (ks_mem s) false (mp_pid (ks_map s))) as (Hn&Hr&_).
  split; simpl; rewrite ?back_set_back, ?decide_True by done; try done; try lia.
  - by apply pagetree_init_inv.
  - by intros q ?%not_elem_of_nil.
Qed.
End rehash.

(** A state in which only the tree of the other side differs. *)
Record aside (c : bool) (N R : list Z) (s s' : kst) : Prop := Aside {
  as_back : back c (ks_map s') = back c (ks_map s);
  as_table : ∀ j, table j (ks_map s') = table j (ks_map s);
  as_rest : mp_npages (ks_map s') = mp_npages (ks_map s) ∧ mp_cur (ks_map s') = mp_cur (ks_map s) ∧
            mp_pid (ks_map s') = mp_pid (ks_map s);
  as_conf : pm_conf (ks_mem s') = pm_conf (ks_mem s);
  as_pages : others_kept N R s s';
}.
Lemma aside_set_back c N R s m' pt :
  pm_conf m' = pm_conf (ks_mem s) → (∀ q, q ∈ N ∨ q ∈ R → pm_page m' !! q = pm_page (ks_mem s) !! q) →
  aside c N R s (Kst m' (set_back (negb c) pt (ks_map s))).
Proof.
  intros Hc Hp. split; simpl; try done.
  - by destruct c.
  - intros j. apply table_set_back.
  - by destruct c.
Qed.
Lemma aside_trans c N R s1 s2 s3 : aside c N R s1 s2 → aside c N R s2 s3 → aside c N R s1 s3.
Proof.
  intros [B1 T1 (?&?&?) C1 P1] [B2 T2 (?&?&?) C2 P2]. split; [congruence| |split_and!; congruence|congruence|].
  - intros j. by rewrite T2.
  - intros q Hq. by rewrite P2, P1.
Qed.

(** The current side in such a state. *)
Lemma cur_aside c nd rf N R node s m np N' R' s' :
  cur_rep c nd rf N R node s m np → aside c (nd ++ N) (rf ++ R) s s' →
  refs_inv (ks_mem s') (nd ++ N') (rf ++ R') → (∀ q, q ∈ rf → q ∉ R') →
  cur_rep c nd rf N' R' node s' m np.
Proof.
  intros Hcur [Hb Ht _ Hc Hp] Hi Hown. eapply cur_transfer; [exact Hcur|done|by rewrite Ht|done| |done|done].
  intros q Hq. apply Hp. rewrite !elem_of_app. tauto.
Qed.

Lemma aside_kept c N R nd rf s s' : aside c (nd ++ N) (rf ++ R) s s' → others_kept N R s s'.
Proof. intros H q Hq. apply H. rewrite !elem_of_app. tauto. Qed.

(** [rehash] without the memory for the nodes of the new tree. *)
Lemma rehash_failed_wp c nd rf N R node s m s1 va :
  cur_rep c nd rf N R node s m (mp_npages (ks_map s)) → mp_cur (ks_map s) = c →
  home_node (pm_conf (ks_mem s)) (mp_pid (ks_map s)) = Some node → np_ok (mp_npages (ks_map s)) →
  aside c (nd ++ N) (rf ++ R) s s1 →
  pt_inv (ks_mem s1) (back (negb c) (ks_map s1)) (va :: nd ++ N) (rf ++ R) →
  wp (free_tree (negb c);; mret (- E_NO_MEM)) s1 (λ r s', others_kept N R s s' ∧
    r = - E_NO_MEM ∧ (∃ va, map_rep s' m (va :: N) R node) ∧ mp_npages (ks_map s') = mp_npages (ks_map s)).
Proof.
  intros Hcur Hc Hh Hnp Has Hpt. wp_pure. eapply free_tree_wp; [exact Hpt|]. intros m2 pt2 Hi2 Hc2 Hpg2. wp_pure.
  set (s2 := Kst _ _).
  assert (Has2 : aside c (nd ++ N) (rf ++ R) s s2).
  { eapply aside_trans; [exact Has|]. apply aside_set_back; [done|]. intros q Hq. apply Hpg2.
    rewrite elem_of_cons. tauto. }
  destruct (as_rest _ _ _ _ _ Has2) as (En&Ec&Ep). destruct (cur_inv _ _ _ _ _ _ _ _ _ Hcur) as (_&_&Hown).
  split_and!; [by eapply aside_kept|done| |done].
  exists va. unfold map_rep. rewrite En, Ec, Ep, (as_conf _ _ _ _ _ Has2), Hc. split_and!; [done|done|].
  exists nd, rf. eapply cur_aside; [exact Hcur|done| |done]. simpl.
  change (va :: N) with ([va] ++ N). rewrite (Permutation_app_swap_app nd [va]). exact Hi2.
Qed.

(** [rehash] once the new tree has all its pages. *)
Lemma rehash_done_wp c nd rf N R node s m s1 e pgs2 nd2 rf2 :
  cur_rep c nd rf N R node s m (mp_npages (ks_map s)) → mp_cur (ks_map s) = c →
  home_node (pm_conf (ks_mem s)) (mp_pid (ks_map s)) = Some node →
  0 ≤ e ≤ 22 → mp_npages (ks_map s) < 2 ^ e → aside c (nd ++ N) (rf ++ R) s s1 →
  side_ok (negb c) (2 ^ e) pgs2 nd2 rf2 (nd ++ N) (rf ++ R) node s1 →
  wp (rehash_move (2 ^ e)) s1 (λ r s', others_kept N R s s' ∧
    r = 0 ∧ map_rep s' m N R node ∧ mp_npages (ks_map s') = 2 ^ e).
Proof.
  intros Hcur Hc Hh He Hlt Has Hs1. destruct (np_cap e He) as (Hcap&Hdiv&_).
  destruct (as_rest _ _ _ _ _ Has) as (En&Ec&Ep). destruct (cur_inv _ _ _ _ _ _ _ _ _ Hcur) as (_&_&Hown).
  eapply wp_mono; [eapply (rehash_move_wp c (2 ^ e) pgs2 nd rf nd2 rf2 N R node Hcap Hdiv s1 m (mp_npages (ks_map s)));
    [|exact Hs1|done|by rewrite Ec]|].
  - eapply cur_aside; [exact Hcur|exact Has| |].
    + pose proof (pv_refs _ _ _ _ (sd_pt _ _ _ _ _ _ _ _ _ Hs1)) as Hi.
      rewrite (sd_nodes _ _ _ _ _ _ _ _ _ Hs1), (sd_refs _ _ _ _ _ _ _ _ _ Hs1) in Hi.
      rewrite (Permutation_app_swap_app nd), (Permutation_app_swap_app rf). exact Hi.
    + intros q Hq [Hq2|HqR]%elem_of_app; [|by apply (Hown q)].
      apply (sd_own _ _ _ _ _ _ _ _ _ Hs1 q Hq2), elem_of_app. by left.
  - intros r s2 (->&Hr&Hn2&Hc2&Hp2&Hcf2&Hpg2). split_and!; [|done| |done].
    + intros q Hq. rewrite Hpg2 by done. by apply (aside_kept _ _ _ _ _ _ _ Has).
    + unfold map_rep. rewrite Hn2, Hc2, Hp2, Hcf2, Ep, (as_conf _ _ _ _ _ Has). split_and!; [done| |].
      * right. by exists e.
      * exists nd2, rf2. by eapply cur_some.
Qed.

Lemma rehash_wpx s m N R node p0 off :
  map_rep s m N R node → mp_npages (ks_map s) ≤ 2 ^ 21 → p0 ∈ N → 0 < off < PGSIZE →
  wpx (rehash (p0 + off)) s (λ r s', others_kept N R s s' ∧
    ((r = 0 ∧ map_rep s' m N R node ∧ mp_npages (ks_map s') = next_npages (mp_npages (ks_map s))) ∨
     (r = - E_NO_MEM ∧ few_free (table_cost (next_npages (mp_npages (ks_map s)))) (ks_mem s) ∧
      (∃ va, map_rep s' m (va :: N) R node) ∧ mp_npages (ks_map s') = mp_npages (ks_map s))))
    (few_free (table_cost (next_npages (mp_npages (ks_map s)) - 1)) (ks_mem s)).
Proof.
  intros (Hh&Hnp&nd&rf&Hcur) Hle Hp0 Hoff.
  destruct (next_npages_ok _ Hnp Hle) as (e&He&Hnext&Hlt). destruct (np_cap e He) as (Hcap&Hdiv&Hr).
  unfold rehash. apply wpx_bind_wp, wp_get_map.
  replace (if negb (mp_npages (ks_map s) =? 0) then _ else 1) with (next_npages (mp_npages (ks_map s))).
  2:{ unfold next_npages in *. destruct (Z.eqb_spec (mp_npages (ks_map s)) 0); [done|]. simpl.
      rewrite u64_small by (unfold in_u64; lia). lia. }
  rewrite Hnext in *. set (c := mp_cur (ks_map s)) in *. apply wpx_bind_wp, wp_upd_map.
  set (s0 := Kst _ _). destruct (cur_inv _ _ _ _ _ _ _ _ _ Hcur) as (_&Hi&Hown).
  pose proof (side_ok_start (nd ++ N) (rf ++ R) node (negb c) s Hi Hh) as Hs0. fold s0 in Hs0.
  apply wpx_bind. eapply wpx_mono; [apply (rehash_pages_wpx (negb c) (nd ++ N) (rf ++ R) node p0 off
      ltac:(apply elem_of_app; by right) Hoff (Z.to_nat (2 ^ e)) 0 s0 _ _ _ Hs0); [lia| |]| |].
  - rewrite pt_max_val. lia.
  - simpl. rewrite back_set_back, decide_True by done. by destruct c, (ks_map s).
  - intros r s1 [[[pt1 E1] Hc1 Hpg1] Hres]. apply wp_wpx.
    assert (Has : aside c (nd ++ N) (rf ++ R) s s1).
    { destruct s1 as [m1 mp1]. simpl in E1. rewrite set_back_twice in E1. subst mp1. by apply aside_set_back. }
    destruct Hres as [(->&pgs2&nd2&rf2&Hs1)|(->&Hff&va&Hpt1)].
    + rewrite Z2Nat.id, Z.add_0_l in Hs1 by lia. eapply wp_mono; [by eapply rehash_done_wp|].
      intros r s2 (Hk&Hp). split; [done|by left].
    + eapply wp_mono; [by eapply (rehash_failed_wp c)|]. intros r s2 (Hk&Hp1&Hp2). split; [done|right]. split_and!; [done|exact Hff|apply Hp2|apply Hp2].
  - intros [_ Hff]. eapply few_free_le; [exact Hff|]. unfold table_cost, PAGE_COST, MAX_NODES. lia.
Qed.

(** ** The operations on the current table *)

(** Hash operations leave the struct alone; the caller then stores the table. *)
Lemma map_rep_side np pgs nd rf N R node s m s1 t m' :
  let c := mp_cur (ks_map s) in
  home_node (pm_conf (ks_mem s)) (mp_pid (ks_map s)) = Some node → np_ok np → mp_npages (ks_map s) = np →
  0 < np * N_HASHENTRY_PER_PAGE < 2 ^ 31 →
  side_rep c np pgs nd rf N R node s (table c (ks_map s)) m →
  side_frame np pgs s s1 → side_rep c np pgs nd rf N R node s1 t m' →
  let s' := Kst (ks_mem s1) (set_table c t (ks_map s1)) in
  map_rep s' m' N R node ∧ others_kept N R s s' ∧ mp_npages (ks_map s') = np ∧ mp_cur (ks_map s') = c.
Proof.
  intros c Hh Hnp En Hcap Hr (Em&Hmeta&Hpg) Hr1 s'.
  assert (E : mp_npages (ks_map s') = np ∧ mp_cur (ks_map s') = c ∧ mp_pid (ks_map s') = mp_pid (ks_map s)).
  { simpl. rewrite Em. subst c. destruct (ks_map s) as [? ? ? ? ? [|] ?]; done. }
  destruct E as (E1&E2&E3). split_and!; [|intros q Hq|done|done].
  - unfold map_rep. rewrite E1, E2, E3. split_and!; [simpl; by rewrite (proj1 Hmeta)|done|].
    exists nd, rf. eapply cur_some; [done|]. simpl. rewrite table_set_table, decide_True by done.
    by apply side_rep_set_table.
  - apply Hpg. intros i Hi. eapply side_foreign; [exact (side_rep_ok _ _ _ _ _ _ _ _ _ _ _ Hr)|done|done].
Qed.

Lemma set_table_id k mp : set_table k (table k mp) mp = mp.
Proof. by destruct k, mp. Qed.

Lemma put_cur_wp s m N R node key v :
  map_rep s m N R node → bad_key key = false → m !! key = None →
  wp (put_in (mp_cur (ks_map s)) key v) s (λ r s',
    others_kept N R s s' ∧ mp_npages (ks_map s') = mp_npages (ks_map s) ∧
    ((Z.of_nat (size m) < mp_npages (ks_map s) * N_HASHENTRY_PER_PAGE ∧ r = 0 ∧ map_rep s' (<[key := v]> m) N R node) ∨
     (Z.of_nat (size m) = mp_npages (ks_map s) * N_HASHENTRY_PER_PAGE ∧ r = - E_NO_SPACE ∧ map_rep s' m N R node))).
Proof.
  intros Hrep Hk Hno. pose proof Hrep as (Hh&Hnp&nd&rf&Hcur). remember (mp_npages (ks_map s)) as np eqn:En.
  destruct Hcur as [-> -> -> Ht Hb Hi|np pgs Hcap Hr].
  - unfold put_in. wp_pure. apply wp_get_map. wp_pure. rewrite Ht. unfold hash_put, hash_put_fn. rewrite Hk. simpl.
    wp_pure. apply wp_upd_map. wp_pure. rewrite <- Ht, set_table_id.
    replace (Kst (ks_mem s) (ks_map s)) with s by (by destruct s). split_and!; [done|done|]. right. by rewrite map_size_empty.
  - assert (Hdiv : (np * N_HASHENTRY_PER_PAGE | 2 ^ 64)).
    { destruct Hnp as [->|(e&He&->)]; [lia|]. by apply np_cap. }
    eapply put_in_wp; [exact Hcap|exact Hdiv|exact Hr|done|done| |].
    + intros Hlt s1 t Hf Hr1.
      destruct (map_rep_side np pgs nd rf N R node s m s1 t _ Hh Hnp (eq_sym En) Hcap Hr Hf Hr1) as (H1&H2&H3&_).
      split_and!; [done|done|]. by left.
    + intros Heq s1 Hf Hr1.
      destruct (map_rep_side np pgs nd rf N R node s m s1 _ _ Hh Hnp (eq_sym En) Hcap Hr Hf Hr1) as (H1&H2&H3&_).
      split_and!; [done|done|]. by right.
Qed.

Lemma map_size_cap s m N R node :
  map_rep s m N R node → Z.of_nat (size m) ≤ mp_npages (ks_map s) * N_HASHENTRY_PER_PAGE ∧
  ht_capacity (table (mp_cur (ks_map s)) (ks_map s)) = mp_npages (ks_map s) * N_HASHENTRY_PER_PAGE ∧
  ht_size (table (mp_cur (ks_map s)) (ks_map s)) = Z.of_nat (size m).
Proof.
  intros (_&_&nd&rf&Hcur). remember (mp_npages (ks_map s)) as np eqn:En.
  destruct Hcur as [_ _ -> Ht _ _|np pgs Hcap Hr].
  - rewrite Ht, map_size_empty. done.
  - split; [exact (rep_size_le (HS := side_store _ np pgs nd rf N R node) _ true 0 _ Hcap _ _ _ Hr)|].
    by rewrite (side_rep_table _ _ _ _ _ _ _ _ _ _ _ Hr).
Qed.

(** ** Properties *)

(** [map_get] is lookup: it returns the value of a present key,
    [-E_NOT_FOUND] for an absent one and [-E_INVAL] for the two keys the table
    reserves, and the map and everything else in memory stay as they are. *)
Theorem map_get_refines s m N R node key v0 :
  map_rep s m N R node →
  wp (map_get key v0) s (λ '(r, v) s', map_rep s' m N R node ∧ others_kept N R s s' ∧
    (r, v) = if bad_key key then (- E_INVAL, v0)
             else match m !! key with Some v' => (0, v') | None => (- E_NOT_FOUND, v0) end).
Proof.
  intros Hrep. pose proof Hrep as (Hh&Hnp&nd&rf&Hcur). unfold map_get. wp_pure. apply wp_get_map.
  remember (mp_npages (ks_map s)) as np eqn:En. destruct Hcur as [_ _ -> Ht _ _|np pgs Hcap Hr].
  - rewrite Ht. unfold hash_get, hash_get_fn. destruct (bad_key key); simpl; wp_pure; by split_and!.
  - eapply wp_mono; [exact (hash_get_spec (HS := side_store _ np pgs nd rf N R node) _ true 0 _ Hcap s _ m key v0 Hr)|].
    intros [r v] s1 (Hr1&Hf&Hres). split_and!; [| |done].
    + pose proof Hf as (Em&Hmeta&_). unfold map_rep. rewrite Em, <- En, (proj1 Hmeta).
      split_and!; [done|done|]. exists nd, rf. eapply cur_some; [done|]. rewrite Em. exact Hr1.
    + intros q Hq. apply Hf. intros i Hi. eapply side_foreign; [exact (side_rep_ok _ _ _ _ _ _ _ _ _ _ _ Hr)|done|done].
Qed.

(** [map_erase] is deletion, and says whether the key was there. *)
Theorem map_erase_refines s m N R node key :
  map_rep s m N R node →
  wp (map_erase key) s (λ r s', others_kept N R s s' ∧
    if bad_key key then r = - E_INVAL ∧ map_rep s' m N R node
    else map_rep s' (delete key m) N R node ∧ r = if decide (is_Some (m !! key)) then 0 else - E_NOT_FOUND).
Proof.
  intros Hrep. pose proof Hrep as (Hh&Hnp&nd&rf&Hcur). unfold map_erase. wp_pure. apply wp_get_map. wp_pure.
  remember (mp_npages (ks_map s)) as np eqn:En. destruct Hcur as [_ _ -> Ht _ _|np pgs Hcap Hr].
  - rewrite Ht. unfold hash_del. rewrite delete_empty, decide_False by (rewrite lookup_empty; by intros [? ?]).
    assert (Hs : Kst (ks_mem s) (set_table (mp_cur (ks_map s)) zero_table (ks_map s)) = s)
      by (rewrite <- Ht, set_table_id; by destruct s).
    destruct (bad_key key); simpl; wp_pure; apply wp_upd_map; wp_pure; rewrite Hs; by split_and!.
  - eapply wp_mono; [exact (hash_del_spec (HS := side_store _ np pgs nd rf N R node) _ true 0 _ Hcap s _ m key Hr)|].
    intros [r t] s1 [Hf Hres]. wp_pure. apply wp_upd_map. wp_pure.
    pose proof (λ m', map_rep_side np pgs nd rf N R node s m s1 t m' Hh Hnp (eq_sym En) Hcap Hr Hf) as Hside.
    destruct (bad_key key).
    + destruct Hres as [-> Hr1]. by destruct (Hside _ Hr1) as (H1&H2&_).
    + destruct Hres as [Hr1 ->]. by destruct (Hside _ Hr1) as (H1&H2&_).
Qed.

(** C21: [rehash] keeps the map: it ends with the same bindings in a table of
    twice the pages, the first time one page, or, when the nodes of the new tree
    cannot be allocated, in the old table; then one page is lost, allocated and
    referenced by nobody.  It fails only if at most as many pages are free as the new
    table can take ([table_cost]: each of its pages and [MAX_NODES] nodes for each), and it
    panics only if at most as many are free as all pages of it but the last can take; a
    first table of one page panics only when no page is free. *)
Theorem rehash_preserves s m N R node p0 off :
  map_rep s m N R node → mp_npages (ks_map s) ≤ 2 ^ 21 → p0 ∈ N → 0 < off < PGSIZE →
  wpx (rehash (p0 + off)) s (λ r s', others_kept N R s s' ∧
    ((r = 0 ∧ map_rep s' m N R node ∧ mp_npages (ks_map s') = next_npages (mp_npages (ks_map s))) ∨
     (r = - E_NO_MEM ∧ few_free (table_cost (next_npages (mp_npages (ks_map s)))) (ks_mem s) ∧
      (∃ va, map_rep s' m (va :: N) R node) ∧ mp_npages (ks_map s') = mp_npages (ks_map s))))
    (few_free (table_cost (next_npages (mp_npages (ks_map s)) - 1)) (ks_mem s)).
Proof. apply rehash_wpx. Qed.

(** The table is so full that [map_put] grows it. *)
Definition crowded (s : kst) (m : gmap Z Z) : Prop :=
  rehash_thresh * (mp_npages (ks_map s) * N_HASHENTRY_PER_PAGE) ≤ 100 * Z.of_nat (size m).
Lemma load_percent_wp s m N R node (Q : Z → kst → Prop) :
  map_rep s m N R node → mp_npages (ks_map s) ≤ 2 ^ 16 →
  (∀ p, (p < rehash_thresh → Z.of_nat (size m) < mp_npages (ks_map s) * N_HASHENTRY_PER_PAGE) →
        (rehash_thresh ≤ p → crowded s m) → Q p s) →
  wp (load_percent (table (mp_cur (ks_map s)) (ks_map s))) s Q.
Proof.
  intros Hrep Hsm HQ. destruct (map_size_cap _ _ _ _ _ Hrep) as (Hle&Hcap&Hsz).
  unfold load_percent, crowded in *. rewrite Hcap, Hsz. rewrite ents_per_page in *.
  destruct (Z.eqb_spec (mp_npages (ks_map s) * 256) 0) as [H0|Hn0].
  { wp_pure. apply HQ; unfold rehash_thresh; lia. }
  rewrite bool_decide_false by lia. wp_pure. assert (H0 : 0 < mp_npages (ks_map s) * 256) by lia.
  rewrite Z.quot_div_nonneg by lia. rewrite u64_small by (split; [apply Z.div_pos; lia|apply Z.div_lt_upper_bound; nia]).
  apply HQ; intros Hp.
  - destruct (decide (Z.of_nat (size m) = mp_npages (ks_map s) * 256)) as [He|]; [|lia].
    rewrite He, Z.div_mul in Hp by lia. unfold rehash_thresh in Hp. lia.
  - pose proof (Z.mul_div_le (100 * Z.of_nat (size m)) _ H0). unfold rehash_thresh in *. nia.
Qed.

Lemma map_put_wpx s m N R node p0 off key v :
  map_rep s m N R node → mp_npages (ks_map s) ≤ 2 ^ 16 → p0 ∈ N → 0 < off < PGSIZE →
  bad_key key = false → m !! key = None →
  wpx (map_put (p0 + off) key v) s (λ r s', others_kept N R s s' ∧
    ((r = 0 ∧ map_rep s' (<[key := v]> m) N R node) ∨
     (crowded s m ∧ few_free (table_cost (next_npages (mp_npages (ks_map s)))) (ks_mem s) ∧
      ((r = 0 ∧ ∃ va, map_rep s' (<[key := v]> m) (va :: N) R node) ∨
       (r = - E_NO_SPACE ∧ Z.of_nat (size m) = mp_npages (ks_map s) * N_HASHENTRY_PER_PAGE ∧ ∃ va, map_rep s' m (va :: N) R node)))))
    (crowded s m ∧ few_free (table_cost (next_npages (mp_npages (ks_map s)) - 1)) (ks_mem s)).
Proof.
  intros Hrep Hsm Hp0 Hoff Hk Hno. unfold map_put. apply bad_key_false in Hk as Hk'.
  apply wpx_bind_wp, wp_assert; [by rewrite (proj2 (Z.eqb_neq _ _) (proj1 Hk'))|]. apply wpx_bind_wp, wp_get_map.
  apply wpx_bind_wp. eapply load_percent_wp; [exact Hrep|done|]. intros p Hp Hcr.
  rewrite Z.geb_leb. destruct (Z.leb_spec rehash_thresh p) as [Hge|Hlt].
  - apply wpx_bind, wpx_bind. specialize (Hcr Hge).
    eapply wpx_mono; [exact (rehash_wpx s m N R node p0 off Hrep ltac:(lia) Hp0 Hoff)| |done].
    intros r s1 [Hk1 [(->&Hrep1&Hn1)|(->&Hff&(va&Hrep1)&Hn1)]]; apply wp_wpx, wp_ret, wp_wpx; wp_pure; apply wp_get_map.
    + eapply wp_mono; [exact (put_cur_wp s1 m N R node key v Hrep1 Hk Hno)|].
      intros r s2 (Hk2&_&[(_&->&Hr2)|(Hfull&_)]); [|exfalso].
      * split; [intros q Hq; rewrite Hk2 by done; by apply Hk1|]. by left.
      * destruct (map_size_cap _ _ _ _ _ Hrep) as (Hle&_). destruct Hrep as (_&Hnp&_).
        destruct (next_npages_ok _ Hnp ltac:(lia)) as (e&_&_&Hlt). rewrite ents_per_page in *. lia.
    + eapply wp_mono; [exact (put_cur_wp s1 m (va :: N) R node key v Hrep1 Hk Hno)|].
      intros r s2 (Hk2&_&Hres). split.
      { intros q Hq. rewrite Hk2 by (rewrite elem_of_cons; tauto). by apply Hk1. }
      rewrite Hn1 in Hres. destruct Hres as [(_&->&Hr2)|(Hfull&->&Hr2)]; eauto 10.
  - apply wp_wpx. wp_pure. apply wp_get_map.
    eapply wp_mono; [exact (put_cur_wp s m N R node key v Hrep Hk Hno)|].
    intros r s2 (Hk2&_&[(_&->&Hr2)|(Hfull&_)]); [|specialize (Hp Hlt); lia]. split; [done|]. by left.
Qed.


(** ** Iteration, initialisation, freeing *)

(** [while (map_iter_next(&iter, &key, &val)) body]: the pairs the loop sees. *)
Fixpoint map_iter_all (fuel : nat) (it : Map_iter) : M kst (list (Z * Z)) :=
  match fuel with
  | O => crash NoFuel
  | S fuel' =>
      '(_, o, it) ← map_iter_next it;
      match o with
      | None => mret []
      | Some kv => l ← map_iter_all fuel' it; mret (kv :: l)
      end
  end.

Lemma map_iter_all_wp c np pgs nd rf N R node sz fuel it s :
  0 < np * N_HASHENTRY_PER_PAGE < 2 ^ 31 → side_ok c np pgs nd rf N R node s →
  table c (ks_map s) = HashTable c true (np * N_HASHENTRY_PER_PAGE) sz 0 →
  0 ≤ hi_index it ≤ np * N_HASHENTRY_PER_PAGE → (Z.to_nat (np * N_HASHENTRY_PER_PAGE - hi_index it) < fuel)%nat →
  wp (map_iter_all fuel (c, it)) s (λ l s',
    side_ok c np pgs nd rf N R node s' ∧ side_frame np pgs s s' ∧
    (∀ j, 0 ≤ j < np * N_HASHENTRY_PER_PAGE → slot_of pgs s' j = slot_of pgs s j) ∧
    l = omap (slot_kv (slot_of pgs s)) (seqZ (hi_index it) (np * N_HASHENTRY_PER_PAGE - hi_index it))).
Proof.
  intros Hcap. revert it s. induction fuel as [|fuel IH]; intros it s Hs Ht Hi Hf; [lia|].
  simpl. wp_pure. unfold map_iter_next. wp_pure. apply wp_get_map. wp_pure. simpl. rewrite Ht.
  eapply wp_mono; [exact (hashiter_next_spec (HS := side_store c np pgs nd rf N R node) c true 0 _ Hcap sz it s Hs Hi)|].
  intros [more it'] s1 ((Hs1&Hf1&Hv1)&Hres). simpl in Hres.
  change (∀ j, 0 ≤ j < np * N_HASHENTRY_PER_PAGE → slot_of pgs s1 j = slot_of pgs s j) in Hv1.
  destruct (more =? 0).
  { wp_pure. by rewrite Hres. }
  destruct Hres as [Hidx ->]. wp_pure. eapply wp_mono; [apply IH; [done|by rewrite (proj1 Hf1)|lia|lia]|].
  intros l s2 (Hs2&Hf2&Hv2&->). wp_pure. pose proof (side_frame_po np pgs).
  split_and!; [done|by transitivity s1|intros j Hj; by rewrite Hv2, Hv1|]. f_equal. apply slots_rest_ext; [|lia]. done.
Qed.

(** C22: iterating over a map visits every binding exactly once: the loop ends
    after at most one call for each slot and one more, and the pairs it sees are
    the bindings of the map. *)
Theorem map_iter_complete s m N R node :
  map_rep s m N R node →
  wp (it ← map_iter_init;
      map_iter_all (S (Z.to_nat (mp_npages (ks_map s) * N_HASHENTRY_PER_PAGE))) it) s (λ l s',
    map_rep s' m N R node ∧ others_kept N R s s' ∧ NoDup l.*1 ∧ l ≡ₚ map_to_list m).
Proof.
  intros Hrep. pose proof Hrep as (Hh&Hnp&nd&rf&Hcur). unfold map_iter_init. wp_pure. apply wp_get_map. wp_pure.
  remember (mp_npages (ks_map s)) as np eqn:En. destruct Hcur as [_ _ -> Ht _ _|np pgs Hcap Hr].
  - unfold map_iter_all. wp_pure. unfold map_iter_next. wp_pure. apply wp_get_map. simpl. rewrite Ht. simpl. wp_pure.
    rewrite map_to_list_empty. split_and!; [done|done|apply NoDup_nil_2|done].
  - pose proof Hr as (Ht&Hs&Hwf&Hm).
    eapply wp_mono; [eapply map_iter_all_wp; [exact Hcap|exact Hs|exact Ht|simpl; lia|simpl; lia]|].
    intros l s1 (Hs1&Hf&Hv&->). simpl. rewrite Z.sub_0_r. fold (kvs (np * N_HASHENTRY_PER_PAGE) (slot_of pgs s)).
    assert (Hnd : NoDup (kvs (np * N_HASHENTRY_PER_PAGE) (slot_of pgs s)).*1) by (by apply kvs_NoDup).
    pose proof Hf as (Em&Hmeta&Hpg). split_and!; [| |done|].
    + unfold map_rep. rewrite Em, <- En, (proj1 Hmeta). split_and!; [done|done|]. exists nd, rf.
      eapply cur_some; [done|]. rewrite Em. by eapply side_rep_ext.
    + intros q Hq. apply Hpg. intros i Hi. by eapply side_foreign.
    + rewrite <- Hm. symmetry. by apply map_to_list_to_map.
Qed.

(** a map that [map_init] initialised is empty, and [map_free] gives back
    everything a map holds: afterwards only what belongs to others is allocated. *)
Theorem map_init_free s m N R node :
  (∀ mem pid, refs_inv mem N R → home_node (pm_conf mem) pid = Some node → map_rep (Kst mem (map_init pid)) ∅ N R node) ∧
  (map_rep s m N R node →
   wp map_free s (λ _ s', refs_inv (ks_mem s') N R ∧ others_kept N R s s')).
Proof.
  split.
  - intros mem pid Hi Hh. split_and!; [done|by left|]. exists [], []. by apply cur_none.
  - intros (_&_&nd&rf&Hcur). destruct (cur_inv _ _ _ _ _ _ _ _ _ Hcur) as (Hpt&_&_).
    unfold map_free. wp_pure. apply wp_get_map. eapply free_tree_wp; [exact Hpt|]. intros m' pt' Hi' _ Hpg. done.
Qed.

(** growing a map without memory brings the kernel down: the error path of
    [rehash] calls [page_free] on the address of its local variable instead of the
    page, which panics because the address is not page-aligned.  The first
    [map_put] of a map always grows it. *)
Theorem map_put_no_memory_panics s m N R node p0 off key v :
  map_rep s m N R node → mp_npages (ks_map s) = 0 → p0 ∈ N → 0 < off < PGSIZE → key ≠ 0 →
  (∀ q, ¬ page_free_p (ks_mem s) q) → map_put (p0 + off) key v s = Crash Panic.
Proof.
  intros (Hh&_&nd&rf&Hcur) Hnp Hp0 Hoff Hk Hno. rewrite Hnp in Hcur.
  remember 0 as z eqn:Ez in Hcur. destruct Hcur as [_ _ _ Ht Hb Hi|np pgs Hcap _]; [|subst; lia].
  assert (Ha : wp (page_alloc (mp_pid (ks_map s))) (ks_mem s) (λ res m1, (∃ p, res = (- E_NO_MEM, p)) ∧ refs_inv m1 N R)).
  { eapply refs_alloc; [exact Hi|exact Hh| |].
    - intros f p Hif _. split; [by exists p|done].
    - intros p m1 _ _ _ Hf. by destruct (Hno p). }
  apply wp_run in Ha as (res&m1&Ha&[p ->]&Hi1).
  assert (Hpages : ∀ next pt, rehash_pages 1 0 (p0 + off) next (Kst (ks_mem s) (set_back next pt (ks_map s))) = Crash Panic).
  { intros next pt. cbn [rehash_pages]. eapply bind_ret; [done|]. cbv beta. simpl ks_map.
    replace (mp_pid _) with (mp_pid (ks_map s)) by (by destruct next).
    eapply bind_ret; [unfold on_mem, zoom; simpl; rewrite Ha; reflexivity|]. apply bind_crash.
    unfold on_mem, zoom. simpl. by rewrite (page_free_inside m1 N R p0 off). }
  unfold map_put. eapply bind_ret; [by rewrite (proj2 (Z.eqb_neq _ _) Hk)|].
  eapply bind_ret; [done|]. eapply bind_ret; [by rewrite Ht|]. simpl. apply bind_crash, bind_crash.
  unfold rehash. eapply bind_ret; [done|]. rewrite Hnp. simpl. eapply bind_ret; [done|]. apply bind_crash.
  apply Hpages.
Qed.

(** ** Examples *)

Module MapExample.
Definition N : list Z := [page_addr 3; page_addr 5].
(** The address of a local variable on a kernel stack in page 3. *)
Definition stk : Z := page_addr 3 + 8.
Definition s0 : kst := Kst Machine2.mem (map_init 0).
Lemma s0_rep : map_rep s0 ∅ N [] 0.
Proof.
  split_and!; [reflexivity|by left|]. exists [], []. apply cur_none; try done. exact TreeExample.start.
Qed.
Lemma stk_in : page_addr 3 ∈ N.
Proof. by left. Qed.

Definition put : outcome kst Z := map_put stk 42 7 s0.
Definition s1 : kst := match put with Ret _ s => s | Crash _ => s0 end.
Lemma put_ok : match put with Ret r s => r = 0 ∧ mp_npages (ks_map s) = 1 ∧ length (pm_free (ks_mem s) !!! 0) = 1%nat
                            | Crash _ => False end.
Proof. vm_compute. repeat split. Qed.
Definition m1 : gmap Z Z := {[42 := 7]}.
Lemma s1_rep : ∃ N1, map_rep s1 m1 N1 [] 0.
Proof.
  pose proof (map_put_wpx s0 ∅ N [] 0 (page_addr 3) 8 42 7 s0_rep ltac:(vm_compute; discriminate) stk_in
                ltac:(change PGSIZE with 4096; lia) eq_refl eq_refl) as H.
  fold stk in H. unfold s1. pose proof put_ok as Hp. unfold put in *. unfold wpx in H.
  destruct (map_put stk 42 7 s0) as [r s|f]; [|done]. destruct Hp as (->&_).
  destruct H as (_&[(_&Hr)|(_&_&[(_&va&Hr)|(H0&_)])]); [by exists N|by exists (va :: N)|discriminate].
Qed.
End MapExample.


Lemma map_get_refines_witness :
  ∃ N1, wp (map_get 42 0) MapExample.s1 (λ '(r, v) s', map_rep s' MapExample.m1 N1 [] 0 ∧ r = 0 ∧ v = 7).
Proof.
  destruct MapExample.s1_rep as [N1 H1]. exists N1.
  eapply wp_mono; [apply (map_get_refines MapExample.s1 MapExample.m1 N1 [] 0 42 0 H1)|].
  intros [r v] s' (Hr&_&E). split; [exact Hr|]. vm_compute in E. injection E as -> ->. split; reflexivity.
Defined.

Lemma map_erase_refines_witness :
  ∃ N1, wp (map_erase 42) MapExample.s1 (λ r s', map_rep s' (delete 42 MapExample.m1) N1 [] 0 ∧ r = 0).
Proof.
  destruct MapExample.s1_rep as [N1 H1]. exists N1.
  eapply wp_mono; [apply (map_erase_refines MapExample.s1 MapExample.m1 N1 [] 0 42 H1)|].
  intros r s' [_ E]. exact E.
Defined.

Lemma rehash_preserves_witness :
  ∃ s', rehash MapExample.stk MapExample.s0 = Ret 0 s' ∧ map_rep s' ∅ MapExample.N [] 0.
Proof.
  assert (H := rehash_preserves MapExample.s0 ∅ MapExample.N [] 0 (page_addr 3) 8 MapExample.s0_rep
                 ltac:(vm_compute; discriminate) MapExample.stk_in ltac:(change PGSIZE with 4096; lia)).
  assert (Hp : match rehash MapExample.stk MapExample.s0 with Ret r _ => r = 0 | Crash _ => False end)
    by (vm_compute; reflexivity).
  change (page_addr 3 + 8) with MapExample.stk in H. unfold wpx in H.
  destruct (rehash MapExample.stk MapExample.s0) as [r s'|f]; [|destruct Hp]. subst r.
  exists s'. split; [reflexivity|]. destruct H as [_ [(_&Hr&_)|(E&_)]]; [exact Hr|discriminate E].
Defined.

Lemma map_iter_complete_witness :
  wp (it ← map_iter_init;
      map_iter_all (S (Z.to_nat (mp_npages (ks_map MapExample.s1) * N_HASHENTRY_PER_PAGE))) it) MapExample.s1
    (λ l s', l ≡ₚ [(42, 7)]).
Proof.
  destruct MapExample.s1_rep as [N1 H1].
  eapply wp_mono; [apply (map_iter_complete MapExample.s1 MapExample.m1 N1 [] 0 H1)|].
  intros l s' (_&_&_&E). rewrite E. vm_compute. reflexivity.
Defined.

Lemma map_init_free_witness :
  map_rep MapExample.s0 ∅ MapExample.N [] 0 ∧
  ∃ N1, wp map_free MapExample.s1 (λ _ s', refs_inv (ks_mem s') N1 []).
Proof.
  destruct MapExample.s1_rep as [N1 H1].
  split; [exact (proj1 (map_init_free MapExample.s0 ∅ MapExample.N [] 0) Machine2.mem 0 TreeExample.start eq_refl)|].
  exists N1. eapply wp_mono; [apply (proj2 (map_init_free MapExample.s1 MapExample.m1 N1 [] 0) H1)|].
  intros [] s' [Hi _]. exact Hi.
Defined.

Module MapExhausted.
Definition s : kst := Kst Exhausted.mem (map_init 1).
Lemma stack_start : refs_inv Exhausted.mem [page_addr 3] [].
Proof.
  apply refs_inv_start; [apply alloc_invb_sound; vm_compute; reflexivity|apply NoDup_singleton| |].
  - intros p ->%list_elem_of_singleton. exists 3, zero_info. split; [|done]. by vm_compute.
  - intros pn i Hi. apply elem_of_list_to_map_2, list_elem_of_fmap in Hi as (x&[= -> ->]&_). done.
Qed.
End MapExhausted.

Lemma map_put_no_memory_panics_witness :
  map_put (page_addr 3 + 8) 42 7 MapExhausted.s = Crash Panic.
Proof.
  apply (map_put_no_memory_panics MapExhausted.s ∅ [page_addr 3] [] 1 (page_addr 3) 8 42 7).
  - split_and!; [reflexivity|by left|]. exists [], []. apply cur_none; try done. exact MapExhausted.stack_start.
  - reflexivity.
  - by left.
  - change PGSIZE with 4096. lia.
  - discriminate.
  - exact Exhausted.none_free.
Defined.
