(* ===== verification/Pmap.v ===== *)
(** * Hardware page tables (kern/arch/amd64/pmap.c)

    Four levels of tables with 512 entries of 64 bits; an address space is a page
    map of level 3, an interior page map, which several address spaces can link to
    at level 2, one of level 1.  A table is a page of words; the callback of
    [page_map_traverse_internal] threads the variable its argument points to, and a
    [ptent_t *] is a page and an index. *)
From S2P Require Import Prelude Machine Hashtable Ktypes Kmem PageAlloc Pagetree.

Definition PM_TRAV_CREATE : Z := 0x01.
Definition PM_TRAV_LINK : Z := 0x02.
Definition SEGMAP_EXEC : Z := 0x01.
Definition SEGMAP_WRITE : Z := 0x02.

(** [x & bit] as a condition. *)
Definition bit (x b : Z) : bool := negb (Z.land x b =? 0).

(** A level as the macros take it. *)
Abbreviation lv := Z.of_nat.

Definition ptep : Type := Z * Z.
Definition read_pte (e : ptep) : M pmem Z := read_ptr e.1 e.2.
Definition write_pte (e : ptep) (v : Z) : M pmem unit := write_ptr e.1 e.2 v.

Fixpoint page_map_free_level (pmlevel : nat) (pgmap : Z) : M pmem unit :=
  let maxi := if lv pmlevel =? NPTLVLS then NPTENTRIES / 2 else NPTENTRIES in
  for_each (Z.to_nat maxi) 0 (λ i,
    ptent ← read_pte (pgmap, i);
    write_pte (pgmap, i) 0;;
    if negb (bit ptent PTE_P) then mret tt else
    match pmlevel with
    | O => mret tt
    | S l =>
        let pm := pa2kva (PTE_ADDR ptent) in
        pi ← page_to_pageinfo pm;
        info ← get_info pi;
        if pi_pmap info then mret tt else
        page_map_free_level l pm;;
        page_free pm
    end).

Definition page_map_free (pm : Z) : M pmem unit :=
  pi ← page_to_pageinfo pm;
  info ← get_info pi;
  c_assert (pi_pmap info);;
  upd_info pi (pi_set_pmap false);;
  page_map_free_level (Z.to_nat NPTLVLS) pm;;
  page_free pm.

(** [bootpml4] is the static page map of this CPU, [interior] a flag.  The result
    is the error code and what is stored in [*pm_store]. *)
Definition page_map_alloc (bootpml4 : gmap Z Z) (interior : bool) (pid : Z) : M pmem (Z * Z) :=
  '(r, pmap) ← page_alloc pid;
  if r <? 0 then mret (r, 0) else
  pi ← page_to_pageinfo pmap;
  upd_info pi (pi_set_pmap true);;
  upd_info pi (pi_set_pmap_int interior);;
  write_page pmap (PgPtrs bootpml4);;
  mret (0, pmap).

(** A loop over entries that stops at an error. *)
Fixpoint trav_loop {X} (body : Z → X → M pmem (Z * X)) (n : nat) (idx : Z) (x : X) : M pmem (Z * X) :=
  match n with
  | O => mret (0, x)
  | S n' => '(r, x) ← body idx x;
            if r <? 0 then mret (r, x) else trav_loop body n' (idx + 1) x
  end.

Fixpoint page_map_traverse_internal {X} (pmlevel : nat) (pgmap first last flags : Z)
    (cb : X → ptep → Z → M pmem X) (va_base pid : Z) (x : X) : M pmem (Z * X) :=
  let first_idx := PDX (lv pmlevel) first in
  let last_idx := PDX (lv pmlevel) last in
  trav_loop (λ idx x,
    pm_ent ← read_pte (pgmap, idx);
    let ent_va := u64 (va_base + Z.shiftl idx (PDSHIFT (lv pmlevel))) in
    match pmlevel with
    | O =>
        if bit flags PM_TRAV_CREATE || bit pm_ent PTE_P
        then x ← cb x (pgmap, idx) ent_va; mret (0, x) else mret (0, x)
    | S l =>
        if (lv pmlevel =? 1) && bit pm_ent PTE_PS
        then x ← cb x (pgmap, idx) ent_va; mret (0, x)
        else if (lv pmlevel =? 2) && bit flags PM_TRAV_LINK
        then x ← cb x (pgmap, idx) ent_va; mret (0, x)
        else if negb (bit pm_ent PTE_P) && negb (bit flags PM_TRAV_CREATE) then mret (0, x)
        else
          '(r, pm_ent) ←
            (if bit pm_ent PTE_P then mret (0, pm_ent) else
             '(r, p) ← page_alloc pid;
             if r <? 0 then mret (r, 0) else
             page_zero p;;
             pa ← kva2pa p;
             let e := Z.lor (Z.lor (Z.lor pa PTE_P) PTE_U) PTE_W in
             write_pte (pgmap, idx) e;;
             mret (0, e));
          if r <? 0 then mret (r, x) else
          let pm_next := pa2kva (PTE_ADDR pm_ent) in
          let first_next := if idx =? first_idx then first else 0 in
          let last_next := if idx =? last_idx then last else u64 (-1) in
          page_map_traverse_internal l pm_next first_next last_next flags cb ent_va pid x
    end) (Z.to_nat (last_idx - first_idx + 1)) first_idx x.

Fixpoint page_map_invalidate_internal (pmlevel : nat) (pgmap first last : Z) : M pmem unit :=
  let first_idx := PDX (lv pmlevel) first in
  let last_idx := PDX (lv pmlevel) last in
  for_each (Z.to_nat (last_idx - first_idx + 1)) first_idx (λ idx,
    e ← read_pte (pgmap, idx);
    if negb (bit e PTE_P) then mret tt else
    match pmlevel with
    | O => write_pte (pgmap, idx) 0
    | S l =>
        let pm_next := pa2kva (PTE_ADDR e) in
        pi ← page_to_pageinfo pm_next;
        info ← get_info pi;
        if pi_pmap info then write_pte (pgmap, idx) 0 else
        let first_next := if idx =? first_idx then first else 0 in
        let last_next := if idx =? last_idx then last else u64 (-1) in
        page_map_invalidate_internal l pm_next first_next last_next
    end).

(** The level the root of a page map has. *)
Definition root_level (info : page_info) : nat := if pi_pmap_int info then 1%nat else Z.to_nat NPTLVLS.

Definition page_map_invalidate (pgmap first last : Z) : M pmem unit :=
  c_assert (last <? ULIM);;
  pi ← page_to_pageinfo pgmap;
  info ← get_info pi;
  page_map_invalidate_internal (root_level info) pgmap first last.

Definition pgdir_walk_cb (arg : option ptep) (e : ptep) (va : Z) : M pmem (option ptep) := mret (Some e).
Definition pgdir_walk (pgmap : Z) (pmlevel : nat) (va flags pid : Z) : M pmem (Z * option ptep) :=
  if va >=? ULIM then panic else
  '(r, pte_store) ← page_map_traverse_internal pmlevel pgmap va va flags pgdir_walk_cb 0 pid None;
  if r <? 0 then mret (r, pte_store)
  else if bit flags PM_TRAV_CREATE && bool_decide (pte_store = None) then mret (- E_INVAL, pte_store)
  else mret (0, pte_store).

(** Dereferencing the [ptep] of a walk; it is null when the walk found nothing. *)
Definition the_pte (o : option ptep) : M pmem ptep := match o with Some e => mret e | None => undef end.

Definition as_arch_putpage (pgmap va pp flags pid : Z) : M pmem Z :=
  let ptflags := Z.lor (Z.lor PTE_P PTE_U) PTE_NX in
  let ptflags := if bit flags SEGMAP_WRITE then Z.lor ptflags PTE_W else ptflags in
  let ptflags := if bit flags SEGMAP_EXEC then Z.ldiff ptflags PTE_NX else ptflags in
  pi ← page_to_pageinfo pgmap;
  info ← get_info pi;
  '(r, o) ← pgdir_walk pgmap (root_level info) va PM_TRAV_CREATE pid;
  if r <? 0 then mret r else
  e ← the_pte o;
  pa ← kva2pa pp;
  write_pte e (Z.lor pa ptflags);;
  mret 0.

Definition as_arch_putinterior (pgmap va pimap pid : Z) : M pmem Z :=
  '(r, o) ← pgdir_walk pgmap (Z.to_nat NPTLVLS) va (Z.lor PM_TRAV_CREATE PM_TRAV_LINK) pid;
  if r <? 0 then mret r else
  e ← the_pte o;
  v ← read_pte e;
  pa ← kva2pa pimap;
  (if negb (bit v PTE_P)
   then write_pte e (Z.lor pa (Z.lor (Z.lor PTE_P PTE_U) PTE_W))
   else c_assert (PTE_ADDR v =? pa));;
  mret 0.

(** The page and, through [pte_store], the entry. *)
Definition page_lookup (pgmap va : Z) : M pmem (Z * option ptep) :=
  if va >=? ULIM then panic else
  '(r, o) ← pgdir_walk pgmap (Z.to_nat NPTLVLS) va 0 0;
  if r <? 0 then panic else
  match o with
  | None => mret (0, None)
  | Some e => v ← read_pte e;
              if bit v PTE_P then mret (pa2kva (PTE_ADDR v), Some e) else mret (0, Some e)
  end.
