(* ===== verification/PmapSpec.v ===== *)
(** * What a page map means

    The walk the hardware makes ([hw_walk]) and the structure the kernel keeps: the
    tables a page map owns, the interior page maps it links to, and how a write to
    one entry changes the walk. *)
From S2P Require Import Prelude Machine Hashtable Ktypes Kmem PageAlloc Pagetree PageRefs PagetreeSpec Pmap.

(** ** Entries *)

(** The table an entry points to, and the entry for a table. *)
Definition sub (e : Z) : Z := pa2kva (PTE_ADDR e).
Definition table_ent (pn : Z) : Z := Z.lor (PGSIZE * pn) 7.

Lemma page_bits pn k : 0 ≤ pn → 0 ≤ k < 12 → Z.testbit (4096 * pn) k = false.
Proof.
  intros Hpn Hk. replace (4096 * pn) with (Z.shiftl pn 12) by (rewrite Z.shiftl_mul_pow2; lia).
  apply Z.shiftl_spec_low. lia.
Qed.
Lemma bit_pow x k : 0 ≤ k → bit x (2 ^ k) = Z.testbit x k.
Proof.
  intros Hk. unfold bit. destruct (Z.testbit x k) eqn:Hb.
  - apply negb_true_iff, Z.eqb_neq. intros H0. assert (Ht : Z.testbit (Z.land x (2 ^ k)) k = true).
    { by rewrite Z.land_spec, Hb, Z.pow2_bits_true. }
    by rewrite H0, Z.bits_0 in Ht.
  - apply negb_false_iff, Z.eqb_eq, Z.bits_inj. intros i. rewrite Z.land_spec, Z.bits_0, Z.pow2_bits_eqb by lia.
    destruct (Z.eqb_spec k i) as [->|]; [by rewrite Hb|by rewrite andb_false_r].
Qed.
Lemma table_ent_present pn : 0 ≤ pn → bit (table_ent pn) PTE_P = true.
Proof. intros Hpn. rewrite (bit_pow _ 0) by lia. unfold table_ent. rewrite Z.lor_spec. by rewrite orb_true_r. Qed.
Lemma table_ent_small pn : 0 ≤ pn → bit (table_ent pn) PTE_PS = false.
Proof.
  intros Hpn. rewrite (bit_pow _ 7) by lia. unfold table_ent. change PGSIZE with 4096.
  by rewrite Z.lor_spec, page_bits by lia.
Qed.
Lemma lor_low pn f : 0 ≤ pn < 2 ^ 40 → 0 ≤ f < 2 ^ 12 → PTE_ADDR (Z.lor (4096 * pn) f) = 4096 * pn.
Proof.
  intros Hpn Hf. unfold PTE_ADDR. apply Z.bits_inj'. intros k Hk. rewrite Z.land_spec.
  assert (Hm : Z.testbit 0xffffffffff000 k = (12 <=? k) && (k <? 52)).
  { replace 0xffffffffff000 with (Z.shiftl (Z.ones 40) 12) by done. destruct (Z.leb_spec 12 k).
    - rewrite Z.shiftl_spec, Z.testbit_ones by lia. destruct (Z.ltb_spec k 52), (Z.ltb_spec (k - 12) 40), (Z.leb_spec 0 (k - 12)); try lia; done.
    - by rewrite Z.shiftl_spec_low by lia. }
  rewrite Hm. unfold u64. destruct (Z.ltb_spec k 64).
  2:{ destruct (Z.ltb_spec k 52); [lia|]. rewrite !andb_false_r. symmetry. apply Z.bits_above_log2; [lia|].
      destruct (Z.eq_dec pn 0) as [->|]; [simpl; lia|]. apply Z.log2_lt_pow2; [lia|]. apply Z.lt_le_trans with (2 ^ 52); [lia|].
      apply Z.pow_le_mono_r; lia. }
  rewrite Z.mod_pow2_bits_low, Z.lor_spec by lia. destruct (Z.leb_spec 12 k).
  - assert (Hfk : Z.testbit f k = false).
    { destruct (Z.eq_dec f 0) as [->|]; [by rewrite Z.bits_0|]. apply Z.bits_above_log2; [lia|].
      apply Z.lt_le_trans with 12; [apply Z.log2_lt_pow2; lia|lia]. }
    rewrite Hfk, orb_false_r. destruct (Z.ltb_spec k 52); [by rewrite andb_true_r|]. rewrite !andb_false_r. symmetry.
    destruct (Z.eq_dec pn 0) as [->|]; [by rewrite Z.mul_0_r, Z.bits_0|]. apply Z.bits_above_log2; [lia|].
    apply Z.lt_le_trans with 52; [apply Z.log2_lt_pow2; lia|lia].
  - rewrite andb_false_l, andb_false_r. symmetry. apply page_bits; lia.
Qed.
Lemma page_lor pn f : 0 ≤ pn < 2 ^ 34 → 0 ≤ f < 2 ^ 12 → sub (Z.lor (PGSIZE * pn) f) = page_addr pn.
Proof.
  intros Hpn Hf. unfold sub, pa2kva, page_addr. change PGSIZE with 4096. rewrite lor_low by lia.
  rewrite u64_small by (unfold in_u64, PHYSBASE; lia). lia.
Qed.
Lemma sub_table pn : 0 ≤ pn < 2 ^ 34 → sub (table_ent pn) = page_addr pn.
Proof. intros Hpn. by apply page_lor. Qed.

(** ** The walk and the tables *)

(** [pi_pmap] of the page at an address. *)
Definition pmap_bit (m : pmem) (p : Z) : bool :=
  match pm_info m !! ((p - PHYSBASE) / PGSIZE) with Some i => pi_pmap i | None => false end.

(** The number of entries of a table that concern user space. *)
Definition width (lvl : nat) : Z := if lv lvl =? NPTLVLS then NPTENTRIES / 2 else NPTENTRIES.

(** The processor's walk: the last entry, 0 if one on the way is not present. *)
Fixpoint hw_walk (m : pmem) (lvl : nat) (pm va : Z) : Z :=
  let e := node_ptr m pm (PDX (lv lvl) va) in
  match lvl with
  | O => e
  | S l => if bit e PTE_P then if bit e PTE_PS then e else hw_walk m l (sub e) va else 0
  end.

(** The same up to linked page maps: the entry, or the page map linked there. *)
Fixpoint pm_walk (m : pmem) (lvl : nat) (pm va : Z) : Z + Z :=
  let e := node_ptr m pm (PDX (lv lvl) va) in
  match lvl with
  | O => inl e
  | S l => if bit e PTE_P then if pmap_bit m (sub e) then inr (sub e) else pm_walk m l (sub e) va else inl 0
  end.

(** The tables a page map owns, itself left out. *)
Fixpoint tables (m : pmem) (lvl : nat) (pm : Z) : list Z :=
  match lvl with
  | O => []
  | S l => seqZ 0 (width lvl) ≫= λ i,
      let e := node_ptr m pm i in
      if bit e PTE_P then if pmap_bit m (sub e) then [] else sub e :: tables m l (sub e) else []
  end.

(** The page maps it links to. *)
Fixpoint links (m : pmem) (lvl : nat) (pm : Z) : list Z :=
  match lvl with
  | O => []
  | S l => seqZ 0 (width lvl) ≫= λ i,
      let e := node_ptr m pm i in
      if bit e PTE_P then if pmap_bit m (sub e) then [sub e] else links m l (sub e) else []
  end.

(** Every entry above level 0 is empty or points to a table; at level 2 the table
    may be an interior page map, which is not owned. *)
Fixpoint map_ok (m : pmem) (lvl : nat) (pm : Z) : Prop :=
  is_Some (page_ptrs m pm) ∧
  match lvl with
  | O => True
  | S l => ∀ i, 0 ≤ i < width lvl →
      node_ptr m pm i = 0 ∨
      ∃ pn, 0 ≤ pn < mc_npages (pm_conf m) ∧ node_ptr m pm i = table_ent pn ∧
            (if pmap_bit m (page_addr pn) then lvl = 2%nat else map_ok m l (page_addr pn))
  end.

(** The same for what is under one entry. *)
Definition ent_walk (m : pmem) (l : nat) (e va : Z) : Z + Z :=
  if bit e PTE_P then if pmap_bit m (sub e) then inr (sub e) else pm_walk m l (sub e) va else inl 0.
Definition ent_tables (m : pmem) (l : nat) (e : Z) : list Z :=
  if bit e PTE_P then if pmap_bit m (sub e) then [] else sub e :: tables m l (sub e) else [].
Definition ent_links (m : pmem) (l : nat) (e : Z) : list Z :=
  if bit e PTE_P then if pmap_bit m (sub e) then [sub e] else links m l (sub e) else [].
Definition ent_ok (m : pmem) (l : nat) (e : Z) : Prop :=
  e = 0 ∨ ∃ pn, 0 ≤ pn < mc_npages (pm_conf m) ∧ e = table_ent pn ∧
                (if pmap_bit m (page_addr pn) then S l = 2%nat else map_ok m l (page_addr pn)).

Lemma pm_walk_S m l pm va : pm_walk m (S l) pm va = ent_walk m l (node_ptr m pm (PDX (lv (S l)) va)) va.
Proof. done. Qed.
Lemma tables_S m l pm : tables m (S l) pm = seqZ 0 (width (S l)) ≫= λ i, ent_tables m l (node_ptr m pm i).
Proof. done. Qed.
Lemma links_S m l pm : links m (S l) pm = seqZ 0 (width (S l)) ≫= λ i, ent_links m l (node_ptr m pm i).
Proof. done. Qed.
Lemma map_ok_S m l pm :
  map_ok m (S l) pm ↔ is_Some (page_ptrs m pm) ∧ ∀ i, 0 ≤ i < width (S l) → ent_ok m l (node_ptr m pm i).
Proof. done. Qed.
Lemma map_ok_ptrs m lvl pm : map_ok m lvl pm → is_Some (page_ptrs m pm).
Proof. destruct lvl; by intros [? _]. Qed.

Lemma ent_tables_0 m l : ent_tables m l 0 = [].
Proof. done. Qed.

(** What is under an entry that points to a table, to a linked page map, to nothing. *)
Lemma ent_table m l pn : 0 ≤ pn < 2 ^ 34 → pmap_bit m (page_addr pn) = false →
  ent_tables m l (table_ent pn) = page_addr pn :: tables m l (page_addr pn) ∧
  ∀ va, ent_walk m l (table_ent pn) va = pm_walk m l (page_addr pn) va.
Proof. intros Hpn Hb. unfold ent_tables, ent_walk. by rewrite table_ent_present, sub_table, Hb by lia. Qed.
Lemma ent_linked m l pn : 0 ≤ pn < 2 ^ 34 →
  ent_links m l (table_ent pn) = if pmap_bit m (page_addr pn) then [page_addr pn] else links m l (page_addr pn).
Proof. intros Hpn. unfold ent_links. by rewrite table_ent_present, sub_table by lia. Qed.
Lemma ent_link m l pn : 0 ≤ pn < 2 ^ 34 → pmap_bit m (page_addr pn) = true →
  ent_tables m l (table_ent pn) = [] ∧ ∀ va, ent_walk m l (table_ent pn) va = inr (page_addr pn).
Proof. intros Hpn Hb. unfold ent_tables, ent_walk. by rewrite table_ent_present, sub_table, Hb by lia. Qed.

(** ** Indices of user addresses *)
Definition in_width (lvl : nat) (va : Z) : Prop := 0 ≤ PDX (lv lvl) va < width lvl.
Lemma PDX_range k va : 0 ≤ k → 0 ≤ PDX k va < 512.
Proof.
  intros Hk. unfold PDX, PDXMASK, NPTBITS. rewrite (land_mask _ _ 9) by (done || lia). apply Z.mod_pos_bound. lia.
Qed.
Lemma width_le lvl : width lvl ≤ 512.
Proof. unfold width. by destruct (lv lvl =? NPTLVLS). Qed.
Lemma in_width_low lvl va : (lvl < 3)%nat → in_width lvl va.
Proof.
  intros Hl. unfold in_width, width. destruct (Z.eqb_spec (lv lvl) NPTLVLS); [unfold NPTLVLS in *; lia|].
  apply PDX_range. lia.
Qed.
Lemma in_width_user lvl va : (lvl ≤ 3)%nat → 0 ≤ va < ULIM → in_width lvl va.
Proof.
  intros Hl Hva. destruct (decide (lvl = 3%nat)) as [->|]; [|apply in_width_low; lia].
  unfold in_width, ULIM in *. change (PDX (lv 3) va) with (PDX 3 va). rewrite PDX_div by (unfold in_u64; lia).
  change (width 3) with 256. change (2 ^ PDSHIFT 3) with 0x8000000000. dlia.
Qed.

(** ** Dependence on memory *)
Definition agree_on (m m' : pmem) (P B : list Z) : Prop :=
  (∀ q, q ∈ P → pm_page m' !! q = pm_page m !! q) ∧ (∀ q, q ∈ B → pmap_bit m' q = pmap_bit m q) ∧ pm_conf m' = pm_conf m.

Lemma tables_in m l pm i q :
  0 ≤ i < width (S l) → q ∈ ent_tables m l (node_ptr m pm i) → q ∈ tables m (S l) pm.
Proof. intros Hi Hq. rewrite tables_S. apply list_elem_of_bind. exists i. split; [done|]. apply elem_of_seqZ. lia. Qed.
Lemma links_in m l pm i q :
  0 ≤ i < width (S l) → q ∈ ent_links m l (node_ptr m pm i) → q ∈ links m (S l) pm.
Proof. intros Hi Hq. rewrite links_S. apply list_elem_of_bind. exists i. split; [done|]. apply elem_of_seqZ. lia. Qed.

(** [m'] shows the same map as [m]. *)
Definition map_same (lvl : nat) (m m' : pmem) (pm : Z) : Prop :=
  tables m' lvl pm = tables m lvl pm ∧ map_ok m' lvl pm ∧
  ∀ va, in_width lvl va → (lvl ≤ 3)%nat → pm_walk m' lvl pm va = pm_walk m lvl pm va.
Definition ent_same (l : nat) (m m' : pmem) (e : Z) : Prop :=
  ent_tables m' l e = ent_tables m l e ∧ ent_ok m' l e ∧
  ∀ va, (S l ≤ 3)%nat → ent_walk m' l e va = ent_walk m l e va.

Lemma ent_same_of l m m' e :
  conf_ok (pm_conf m) → ent_ok m l e → agree_on m m' (ent_tables m l e) (ent_tables m l e ++ ent_links m l e) →
  (∀ pm, map_ok m l pm → agree_on m m' (pm :: tables m l pm) (tables m l pm ++ links m l pm) → map_same l m m' pm) →
  ent_same l m m' e.
Proof.
  intros Hc Hok (Hpg & Hbit & Hconf) IH. unfold ent_same.
  destruct Hok as [->|(pn & Hpn & -> & Hb)]; [split_and!; [done|by left|done]|].
  assert (Hpn' : 0 ≤ pn < 2 ^ 34) by (destruct Hc; lia). rewrite ent_linked in Hbit by done.
  destruct (pmap_bit m (page_addr pn)) eqn:Hbm.
  - destruct (ent_link m l pn Hpn' Hbm) as [Ht Hw]. rewrite Ht in *.
    assert (Hbit' : pmap_bit m' (page_addr pn) = true) by (rewrite Hbit; [done|by left]).
    destruct (ent_link m' l pn Hpn' Hbit') as [-> Hw'].
    split_and!; [done| |intros va _; by rewrite Hw, Hw']. right. exists pn. rewrite Hconf, Hbit'. by split; [|split].
  - destruct (ent_table m l pn Hpn' Hbm) as [Ht Hw]. rewrite Ht in *.
    assert (Hbit' : pmap_bit m' (page_addr pn) = false) by (rewrite Hbit; [done|by left]).
    destruct (ent_table m' l pn Hpn' Hbit') as [Ht' Hw'].
    destruct (IH _ Hb) as (HT & HO & HW); [split_and!; [done|intros q Hq; apply Hbit; by right|done]|].
    rewrite Ht', HT. split_and!; [done| |].
    + right. exists pn. rewrite Hconf, Hbit'. by split; [|split].
    + intros va Hl. rewrite Hw, Hw'. apply HW; [apply in_width_low|]; lia.
Qed.
Lemma map_ext_on lvl m m' pm :
  conf_ok (pm_conf m) → map_ok m lvl pm → agree_on m m' (pm :: tables m lvl pm) (tables m lvl pm ++ links m lvl pm) →
  map_same lvl m m' pm.
Proof.
  intros Hc. revert pm. induction lvl as [|l IH]; intros pm Hok Hs; pose proof Hs as (Hpg & Hbit & Hconf);
    assert (Hpm : pm_page m' !! pm = pm_page m !! pm) by (apply Hpg; by left).
  { split_and!; [done| |].
    - destruct Hok as [Hok _]. split; [|done]. by rewrite (proj1 (page_arrays_ext _ _ _ Hpm)).
    - intros va _ _. cbn. by rewrite (node_ptr_ext m m'). }
  apply map_ok_S in Hok as [Hpp Hok].
  assert (He : ∀ i, 0 ≤ i < width (S l) → ent_same l m m' (node_ptr m pm i)).
  { intros i Hi. apply ent_same_of; [done|by apply Hok| |by intros; apply IH]. split_and!; [| |done].
    - intros q Hq. apply Hpg. right. by apply (tables_in _ _ _ i).
    - intros q [Hq|Hq]%elem_of_app; apply Hbit, elem_of_app; [left; by apply (tables_in _ _ _ i)|right; by apply (links_in _ _ _ i)]. }
  assert (Hn : ∀ i, node_ptr m' pm i = node_ptr m pm i) by (intros i; by apply node_ptr_ext).
  split_and!.
  - rewrite !tables_S. apply bind_ext_elem. intros i Hi%elem_of_seqZ. rewrite Hn. apply He. lia.
  - apply map_ok_S. split; [by rewrite (proj1 (page_arrays_ext _ _ _ Hpm))|]. intros i Hi. rewrite Hn. by apply He.
  - intros va Hva Hl. rewrite !pm_walk_S, Hn. by apply He.
Qed.

(** The common case: no page is marked or unmarked. *)
Definition same_tables (m m' : pmem) (L : list Z) : Prop :=
  (∀ q, q ∈ L → pm_page m' !! q = pm_page m !! q) ∧ (∀ q, pmap_bit m' q = pmap_bit m q) ∧ pm_conf m' = pm_conf m.
Lemma map_ext lvl m m' pm :
  conf_ok (pm_conf m) → map_ok m lvl pm → same_tables m m' (pm :: tables m lvl pm) → map_same lvl m m' pm.
Proof. intros Hc Hok (H1 & H2 & H3). by apply map_ext_on. Qed.
Lemma ent_ext l m m' e :
  conf_ok (pm_conf m) → ent_ok m l e → same_tables m m' (ent_tables m l e) → ent_same l m m' e.
Proof. intros Hc Hok (H1 & H2 & H3). apply ent_same_of; [done|done|done|]. intros. by apply map_ext_on. Qed.

(** ** Updates of a page map

    [N] and [R] account for the pages of the rest of the system; the page of the
    map itself is in [N], as the property of whoever holds the map. *)

(** Free pages are not marked as page maps. *)
Definition clean (m : pmem) : Prop := ∀ q, page_free_p m q → pmap_bit m q = false.

Record pm_inv (m : pmem) (lvl : nat) (pm : Z) (N R : list Z) : Prop := PmInv {
  pv_refs : refs_inv m (tables m lvl pm ++ N) R;
  pv_pm : pm ∈ N;
  pv_ok : map_ok m lvl pm;
  pv_clean : clean m;
}.

Lemma pv_live m lvl pm N R : pm_inv m lvl pm N R → page_live m pm.
Proof. intros [Hr Hp _ _]. eapply refs_node_live; [done|]. apply elem_of_app. by right. Qed.
Lemma pv_conf m lvl pm N R : pm_inv m lvl pm N R → conf_ok (pm_conf m).
Proof. intros [Hr _ _ _]. apply Hr. Qed.
Lemma pv_not_table m lvl pm N R : pm_inv m lvl pm N R → pm ∉ tables m lvl pm.
Proof. intros [Hr Hp _ _] Ht. by apply (proj2 (refs_nodup_l _ _ _ _ Hr) _ Ht). Qed.
Lemma pv_table_live m lvl pm N R q : pm_inv m lvl pm N R → q ∈ tables m lvl pm → page_live m q.
Proof. intros [Hr _ _ _] Hq. eapply refs_node_live; [done|]. apply elem_of_app. by left. Qed.

(** From [m] to [m'] the walk of each address changes by [F]; nothing but the map
    and pages that were free changes. *)
Record upd (m m' : pmem) (lvl : nat) (pm : Z) (F : Z → Z + Z → Z + Z) : Prop := Upd {
  u_walk : ∀ va, in_width lvl va → pm_walk m' lvl pm va = F va (pm_walk m lvl pm va);
  u_frame : ∀ q, page_live m q → q ≠ pm → q ∉ tables m lvl pm →
            page_live m' q ∧ pm_page m' !! q = pm_page m !! q;
  u_new : ∀ q, q ∈ tables m' lvl pm → q ∈ tables m lvl pm ∨ ¬ page_live m q;
  u_bits : ∀ q, pmap_bit m' q = pmap_bit m q;
  u_conf : pm_conf m' = pm_conf m;
}.

Lemma upd_trans m1 m2 m3 lvl pm N R F G :
  pm_inv m2 lvl pm N R →
  upd m1 m2 lvl pm F → upd m2 m3 lvl pm G → upd m1 m3 lvl pm (λ va w, G va (F va w)).
Proof.
  intros Hi [W1 F1 N1 B1 C1] [W2 F2 N2 B2 C2]. split; [| | |congruence|congruence].
  - intros va Hva. by rewrite W2, W1.
  - intros q Hq Hne Ht. destruct (F1 q Hq Hne Ht) as [Hq' Hp]. destruct (F2 q Hq' Hne) as [? Hp'].
    { intros [?|?]%N1; done. }
    split; [done|congruence].
  - intros q [Hq|Hq]%N2; [by apply N1|]. destruct (decide (q ∈ tables m1 lvl pm)) as [?|Hn]; [by left|right].
    intros Hl. destruct (decide (q = pm)) as [->|Hne]; [|by apply Hq, F1].
    apply Hq. by eapply pv_live.
Qed.

(** A change of the addresses under entry [i] of a table. *)
Definition only (lvl : nat) (i : Z) (F : Z → Z + Z → Z + Z) (va : Z) (w : Z + Z) : Z + Z :=
  if PDX (lv lvl) va =? i then F va w else w.

(** The tables under the entries other than [i]. *)
Definition tables_but (m : pmem) (l : nat) (pm i : Z) : list Z :=
  others i (width (S l)) ≫= λ j, ent_tables m l (node_ptr m pm j).
Lemma tables_split m l pm i : 0 ≤ i < width (S l) →
  tables m (S l) pm ≡ₚ ent_tables m l (node_ptr m pm i) ++ tables_but m l pm i.
Proof. intros Hi. rewrite tables_S. exact (bind_split i _ (λ j, ent_tables m l (node_ptr m pm j)) Hi). Qed.

(** The owner of what is under entry [i] owns the rest of the map, too. *)
Lemma pm_inv_child m l pm N R i pn :
  pm_inv m (S l) pm N R → 0 ≤ i < width (S l) → node_ptr m pm i = table_ent pn →
  0 ≤ pn < mc_npages (pm_conf m) → pmap_bit m (page_addr pn) = false →
  pm_inv m l (page_addr pn) (page_addr pn :: tables_but m l pm i ++ N) R.
Proof.
  intros Hv Hi He Hpn Hb. pose proof (pv_conf _ _ _ _ _ Hv) as [Hc _]. destruct Hv as [Hr Hp Hok Hcl].
  apply map_ok_S in Hok as [_ Hok]. split; [|by left| |done].
  - rewrite (tables_split _ _ _ i) in Hr by done. rewrite He in Hr. rewrite (proj1 (ent_table m l pn ltac:(lia) Hb)) in Hr.
    rewrite <- Permutation_middle. rewrite <- (assoc_L app) in Hr. done.
  - destruct (Hok i Hi) as [H0|(pn' & Hpn' & He' & Hb')].
    + exfalso. assert (Ht := table_ent_present pn ltac:(lia)). rewrite <- He, H0 in Ht. done.
    + assert (pn' = pn) as ->.
      { assert (Hs := sub_table pn ltac:(lia)). rewrite <- He, He', sub_table in Hs by lia. by apply page_addr_inj. }
      by rewrite Hb in Hb'.
Qed.

(** A change to the table under entry [i] leaves the table and the other entries. *)
Lemma child_frame m m' l pm N R i pn F :
  pm_inv m (S l) pm N R → 0 ≤ i < width (S l) → node_ptr m pm i = table_ent pn →
  0 ≤ pn < mc_npages (pm_conf m) → pmap_bit m (page_addr pn) = false → upd m m' l (page_addr pn) F →
  pm_page m' !! pm = pm_page m !! pm ∧ tables_but m' l pm i = tables_but m l pm i ∧
  ∀ j, 0 ≤ j < width (S l) → j ≠ i → ent_same l m m' (node_ptr m pm j).
Proof.
  intros Hv Hi He Hpn Hb Hu. pose proof (pm_inv_child _ _ _ _ _ _ _ Hv Hi He Hpn Hb) as Hvc.
  assert (Hout : ∀ q, q ∈ pm :: tables_but m l pm i → pm_page m' !! q = pm_page m !! q).
  { intros q Hq. assert (HqN : q ∈ tables_but m l pm i ++ N).
    { apply elem_of_app. apply elem_of_cons in Hq as [->|?]; [right; apply Hv|by left]. }
    pose proof (pv_refs _ _ _ _ _ Hvc) as Hr. destruct (proj1 (NoDup_app _ _) (ri_nodup _ _ _ Hr)) as (_ & Hd & Hn).
    apply NoDup_cons in Hn as [Hn _]. apply Hu.
    - eapply refs_node_live; [exact Hr|]. apply elem_of_app. right. by right.
    - by intros ->.
    - intros Ht. apply (Hd _ Ht). by right. }
  assert (Hpm : pm_page m' !! pm = pm_page m !! pm) by (apply Hout; by left).
  assert (Hs : ∀ j, 0 ≤ j < width (S l) → j ≠ i → ent_same l m m' (node_ptr m pm j)).
  { intros j Hj Hji. apply ent_ext; [by eapply pv_conf| |].
    - by apply (proj1 (map_ok_S _ _ _) (pv_ok _ _ _ _ _ Hv)).
    - split_and!; [|apply Hu|apply Hu]. intros q Hq. apply Hout. right. apply list_elem_of_bind. exists j.
      split; [done|]. by apply elem_of_others. }
  split_and!; [done| |done]. apply bind_ext_elem. intros j [Hji Hj]%elem_of_others; [|done].
  rewrite (node_ptr_ext m m') by done. by apply Hs.
Qed.

Lemma upd_child m m' l pm N R i pn F :
  (S l ≤ 3)%nat → pm_inv m (S l) pm N R → 0 ≤ i < width (S l) → node_ptr m pm i = table_ent pn →
  0 ≤ pn < mc_npages (pm_conf m) → pmap_bit m (page_addr pn) = false →
  pm_inv m' l (page_addr pn) (page_addr pn :: tables_but m l pm i ++ N) R → upd m m' l (page_addr pn) F →
  pm_inv m' (S l) pm N R ∧ upd m m' (S l) pm (only (S l) i F).
Proof.
  intros Hl Hv Hi He Hpn Hb Hv' Hu. destruct (child_frame _ _ _ _ _ _ _ _ _ Hv Hi He Hpn Hb Hu) as (Hpm & Hbut & Hsame).
  assert (Hpn' : 0 ≤ pn < 2 ^ 34) by (destruct (pv_conf _ _ _ _ _ Hv); lia).
  destruct (ent_table m l pn Hpn' Hb) as [Ht Hw].
  destruct (ent_table m' l pn Hpn') as [Ht' Hw']; [by rewrite (u_bits _ _ _ _ _ Hu)|].
  assert (Hn : ∀ j, node_ptr m' pm j = node_ptr m pm j) by (intros j; by apply node_ptr_ext).
  assert (HT : tables m (S l) pm ≡ₚ page_addr pn :: tables m l (page_addr pn) ++ tables_but m l pm i).
  { by rewrite (tables_split _ _ _ i), He, Ht by done. }
  assert (HT' : tables m' (S l) pm ≡ₚ page_addr pn :: tables m' l (page_addr pn) ++ tables_but m l pm i).
  { by rewrite (tables_split _ _ _ i), Hn, He, Ht', Hbut by done. }
  split; split.
  - rewrite HT'. cbn. rewrite <- (assoc_L app), Permutation_middle. apply Hv'.
  - apply Hv.
  - pose proof (proj1 (map_ok_S _ _ _) (pv_ok _ _ _ _ _ Hv)) as [Hpp Hok]. apply map_ok_S.
    split; [by rewrite (proj1 (page_arrays_ext _ _ _ Hpm))|]. intros j Hj. rewrite Hn.
    destruct (decide (j = i)) as [->|]; [|by apply Hsame]. right. exists pn. rewrite (u_conf _ _ _ _ _ Hu), (u_bits _ _ _ _ _ Hu), Hb.
    split; [done|]. split; [done|]. apply Hv'.
  - apply Hv'.
  - intros va Hva. rewrite !pm_walk_S, Hn. unfold only. destruct (Z.eqb_spec (PDX (lv (S l)) va) i) as [->|Hne].
    + rewrite He, Hw, Hw'. apply Hu. apply in_width_low. lia.
    + apply Hsame; done.
  - intros q Hq Hne. rewrite HT, elem_of_cons, elem_of_app. intros Ht0. apply Hu; tauto.
  - intros q. rewrite HT, HT', !elem_of_cons, !elem_of_app. intros [->|[Hq|Hq]]; [by left; left| |by left; right; right].
    destruct (u_new _ _ _ _ _ Hu q Hq); tauto.
  - apply Hu.
  - apply Hu.
Qed.

(** *** Writing one entry *)

Lemma put_ptr_bits m pg s v q : pmap_bit (put_ptr pg s v m) q = pmap_bit m q.
Proof. unfold put_ptr. by case_match. Qed.
Lemma put_ptr_conf m pg s v : pm_conf (put_ptr pg s v m) = pm_conf m.
Proof. unfold put_ptr. by case_match. Qed.
Lemma put_ptr_live m pg s v q : page_live (put_ptr pg s v m) q ↔ page_live m q.
Proof. unfold put_ptr. by case_match. Qed.
Lemma put_ptr_free m pg s v q : page_free_p (put_ptr pg s v m) q ↔ page_free_p m q.
Proof. unfold put_ptr. by case_match. Qed.
Lemma put_ptr_refs m pg s v N R : refs_inv m N R → refs_inv (put_ptr pg s v m) N R.
Proof.
  intros Hr. unfold put_ptr. case_match eqn:Ha; [|done]. apply refs_set_page; [done|].
  unfold page_ptrs in Ha. destruct (pm_page m !! pg); [by eexists|done].
Qed.

(** The result of a walk that ends at an entry of level [lvl]. *)
Definition ent_end (m : pmem) (lvl : nat) (v va : Z) : Z + Z :=
  match lvl with O => inl v | S l => ent_walk m l v va end.
Definition ent_end_tables (m : pmem) (lvl : nat) (v : Z) : list Z :=
  match lvl with O => [] | S l => ent_tables m l v end.
Definition ent_end_ok (m : pmem) (lvl : nat) (v : Z) : Prop :=
  match lvl with O => True | S l => ent_ok m l v end.

Lemma put_entry m l pm i v :
  (S l ≤ 3)%nat → conf_ok (pm_conf m) → map_ok m (S l) pm → 0 ≤ i < width (S l) → ent_ok m l v →
  (pm ∉ ent_tables m l v) → (pm ∉ tables_but m l pm i) →
  let m1 := put_ptr pm i v m in
  map_ok m1 (S l) pm ∧ tables m1 (S l) pm ≡ₚ ent_tables m l v ++ tables_but m l pm i ∧
  ∀ va, in_width (S l) va → pm_walk m1 (S l) pm va = only (S l) i (λ va _, ent_walk m l v va) va (pm_walk m (S l) pm va).
Proof.
  intros Hl Hc Hok Hi Hv Hpv Hpb m1. apply map_ok_S in Hok as [Hpp Hok].
  destruct (put_ptr_ptr m pm i v 0 Hpp) as [Hpp' _]. pose proof (λ j, proj2 (put_ptr_ptr m pm i v j Hpp)) as Hn.
  fold m1 in Hpp', Hn.
  assert (Hs : ∀ e, ent_ok m l e → (pm ∉ ent_tables m l e) → ent_same l m m1 e).
  { intros e He Hp. apply ent_ext; [done..|]. split_and!; [|apply put_ptr_bits|apply put_ptr_conf].
    intros q Hq. apply put_ptr_page. by intros ->. }
  assert (Ho : ∀ j, 0 ≤ j < width (S l) → j ≠ i → ent_same l m m1 (node_ptr m pm j)).
  { intros j Hj Hji. apply Hs; [by apply Hok|]. intros Hp. apply Hpb, list_elem_of_bind. exists j.
    split; [done|]. by apply elem_of_others. }
  destruct (Hs v Hv Hpv) as (Hvt & Hvo & Hvw). split_and!.
  - apply map_ok_S. split; [done|]. intros j Hj. rewrite Hn. destruct (decide (j = i)); [done|by apply Ho].
  - rewrite (tables_split _ _ _ i) by done. rewrite Hn, decide_True, Hvt by done. f_equiv. perm_eq.
    apply bind_ext_elem. intros j [Hji Hj]%elem_of_others; [|done]. rewrite Hn, decide_False by done. by apply Ho.
  - intros va Hva. rewrite !pm_walk_S, Hn. unfold only. destruct (Z.eqb_spec (PDX (lv (S l)) va) i) as [->|Hne].
    + rewrite decide_True by done. by apply Hvw.
    + rewrite decide_False by done. by apply Ho.
Qed.

(** An entry with nothing owned under it gets another such value. *)
Lemma upd_entry m lvl pm N R i v :
  (lvl ≤ 3)%nat → pm_inv m lvl pm N R → 0 ≤ i < width lvl → ent_end_ok m lvl v →
  ent_end_tables m lvl v = [] → ent_end_tables m lvl (node_ptr m pm i) = [] →
  pm_inv (put_ptr pm i v m) lvl pm N R ∧
  upd m (put_ptr pm i v m) lvl pm (only lvl i (λ va _, ent_end m lvl v va)).
Proof.
  intros Hl Hv Hi Hok Ht Ho. pose proof (pv_not_table _ _ _ _ _ Hv) as Hnt.
  assert (H : map_ok (put_ptr pm i v m) lvl pm ∧ tables (put_ptr pm i v m) lvl pm ≡ₚ tables m lvl pm ∧
    ∀ va, in_width lvl va → pm_walk (put_ptr pm i v m) lvl pm va = only lvl i (λ va _, ent_end m lvl v va) va (pm_walk m lvl pm va)).
  { destruct lvl as [|l].
    - destruct (put_ptr_ptr m pm i v 0) as [Hpp _]; [eapply map_ok_ptrs, Hv|]. split_and!; [done|done|]. intros va _. cbn.
      rewrite (proj2 (put_ptr_ptr m pm i v _ ltac:(eapply map_ok_ptrs, Hv))). unfold only.
      destruct (Z.eqb_spec (PDX (lv 0) va) i) as [->|]; [by rewrite decide_True|by rewrite decide_False].
    - cbn in Hok, Ht, Ho. pose proof (tables_split m l pm i Hi) as Hsp. rewrite Ho, app_nil_l in Hsp.
      destruct (put_entry m l pm i v) as (H1 & H2 & H3); [done|by eapply pv_conf|apply Hv|done|done|rewrite Ht; apply not_elem_of_nil| |].
      { by rewrite <- Hsp. }
      rewrite Ht in H2. cbn in H2. split_and!; [done|by rewrite H2|done]. }
  destruct H as (H1 & H2 & H3). split; split.
  - rewrite H2. apply put_ptr_refs, Hv.
  - apply Hv.
  - done.
  - intros q Hq. rewrite put_ptr_bits. apply Hv. by eapply put_ptr_free.
  - done.
  - intros q Hq Hne _. split; [by apply put_ptr_live|by apply put_ptr_page].
  - intros q. rewrite H2. by left.
  - intros q. apply put_ptr_bits.
  - apply put_ptr_conf.
Qed.

(** *** Attaching a new table *)
Lemma zero_table m lvl p : page_ptrs m p = Some ∅ → map_ok m lvl p ∧ tables m lvl p = [] ∧ ∀ va, pm_walk m lvl p va = inl 0.
Proof.
  intros Hp. assert (Hn : ∀ i, node_ptr m p i = 0) by (intros i; unfold node_ptr; by rewrite Hp, lookup_empty).
  destruct lvl as [|l].
  - split_and!; [by split; [eexists|]|done|]. intros va. cbn. by rewrite Hn.
  - split_and!.
    + apply map_ok_S. split; [by eexists|]. intros i _. rewrite Hn. by left.
    + rewrite tables_S. induction (seqZ 0 (width (S l))) as [|j js IH]; [done|]. csimpl. by rewrite Hn, IH.
    + intros va. by rewrite pm_walk_S, Hn.
Qed.

Lemma info_bits m m' pn i i' q :
  pm_info m !! pn = Some i → pm_info m' = <[pn := i']> (pm_info m) → pi_pmap i' = pi_pmap i →
  pmap_bit m' q = pmap_bit m q.
Proof.
  intros Hi Hinf Hb. unfold pmap_bit. rewrite Hinf. destruct (decide (pn = (q - PHYSBASE) / PGSIZE)) as [<-|].
  - by rewrite lookup_insert_eq, Hi.
  - by rewrite lookup_insert_ne.
Qed.

(** The page [page_alloc] returns, for a map that has to grow. *)
Lemma table_alloc_wp m lvl pm N R pid node (Q : Z * Z → pmem → Prop) :
  pm_inv m lvl pm N R → home_node (pm_conf m) pid = Some node →
  (∀ f p, Q (- E_NO_MEM, p) (set_failures f m)) →
  (∀ pn m', 0 ≤ pn < mc_npages (pm_conf m) → pmap_bit m (page_addr pn) = false → page_free_p m (page_addr pn) →
     refs_inv m' (page_addr pn :: tables m lvl pm ++ N) R → pm_page m' = pm_page m → pm_conf m' = pm_conf m →
     (∀ q, pmap_bit m' q = pmap_bit m q) → (∀ q, page_live m q → page_live m' q) → clean m' →
     Q (0, page_addr pn) m') →
  wp (page_alloc pid) m Q.
Proof.
  intros Hv Hh HN HS. eapply wp_mono.
  - eapply wp_conj; [|by apply page_alloc_spec; [apply (pv_refs _ _ _ _ _ Hv)|]].
    eapply (refs_alloc _ _ _ _ _ (λ rp m', rp.1 = 0 → refs_inv m' (rp.2 :: tables m lvl pm ++ N) R ∧
      page_free_p m rp.2 ∧ ∀ q, page_free_p m' q → page_free_p m q)); [by apply Hv|done| |by intros; split_and!].
    by intros f p _ _ [=].
  - intros [r p] m' [H1 [_ [(-> & Hrel & _)|(-> & -> & _)]]]; [|apply HN].
    destruct (H1 eq_refl) as (Hr & Hf & Hk). cbn in *. destruct Hrel as (pn & i & [-> Hpn] & Hi & Hfi & _ & Hinf & Hpg & Hc).
    assert (Hb : ∀ q, pmap_bit m' q = pmap_bit m q) by (intros q; by eapply info_bits).
    apply HS; [done|by apply Hv|done|done|done|done|done| |].
    + intros q (pn' & i' & Hat & Hi' & Hf'). exists pn', i'. rewrite page_at_conf, Hinf, lookup_insert_ne by (done || congruence). done.
    + intros q Hq. rewrite Hb. by apply Hv, Hk.
Qed.

Lemma upd_attach m m1 l pm N R i pn :
  (S l ≤ 3)%nat → pm_inv m (S l) pm N R → 0 ≤ i < width (S l) → node_ptr m pm i = 0 →
  0 ≤ pn < mc_npages (pm_conf m) → pmap_bit m (page_addr pn) = false → page_free_p m (page_addr pn) →
  refs_inv m1 (page_addr pn :: tables m (S l) pm ++ N) R → pm_page m1 = pm_page m → pm_conf m1 = pm_conf m →
  (∀ q, pmap_bit m1 q = pmap_bit m q) → (∀ q, page_live m q → page_live m1 q) → clean m1 →
  let m3 := put_ptr pm i (table_ent pn) (set_page (page_addr pn) PgZero m1) in
  pm_inv m3 (S l) pm N R ∧ upd m m3 (S l) pm (λ _ w, w) ∧ node_ptr m3 pm i = table_ent pn.
Proof.
  intros Hl Hv Hi He Hpn Hb Hf Hr Hpg Hcf Hbits Hlive Hcl m3. set (p := page_addr pn) in *.
  pose proof (pv_conf _ _ _ _ _ Hv) as Hc. assert (Hpn' : 0 ≤ pn < 2 ^ 34) by (destruct Hc; lia).
  set (m2 := set_page p PgZero m1) in *. assert (Hp2 : page_ptrs m2 p = Some ∅) by (unfold page_ptrs; cbn; by rewrite lookup_insert_eq).
  destruct (zero_table m2 l p Hp2) as (Z1 & Z2 & Z3).
  pose proof (ri_nodup _ _ _ Hr) as Hnd. apply NoDup_cons in Hnd as [Hpnot Hnd]. rewrite elem_of_app in Hpnot.
  assert (Hs : same_tables m m2 (pm :: tables m (S l) pm)).
  { split_and!; [|done|done]. intros q Hq. cbn. rewrite lookup_insert_ne, Hpg; [done|]. intros <-. apply Hpnot.
    apply elem_of_cons in Hq as [Hq|Hq]; [right|by left]. rewrite Hq. apply Hv. }
  destruct (map_ext _ _ _ _ Hc (pv_ok _ _ _ _ _ Hv) Hs) as (HT & HO & HW).
  assert (Hnp : ∀ j, node_ptr m2 pm j = node_ptr m pm j) by (intros j; apply node_ptr_ext, Hs; by left).
  pose proof (tables_split m2 l pm i Hi) as Hsp. rewrite HT, Hnp, He, ent_tables_0, app_nil_l in Hsp.
  destruct (ent_table m2 l pn Hpn') as [Ht Hw]; [by rewrite <- Hb, <- Hbits|]. fold p in Ht, Hw. rewrite Z2 in Ht.
  destruct (put_entry m2 l pm i (table_ent pn)) as (P1 & P2 & P3); [done|by cbn; rewrite Hcf|done|done| | | |].
  { right. exists pn. cbn. rewrite Hcf. split; [done|]. split; [done|]. 
    fold p. replace (pmap_bit m2 p) with false; [done|]. by rewrite <- Hb, <- Hbits. }
  { rewrite Ht, list_elem_of_singleton. intros Heq. apply Hpnot. right. rewrite <- Heq. apply Hv. }
  { rewrite <- Hsp. by eapply pv_not_table. }
  rewrite Ht, <- Hsp in P2. fold m3 in P1, P2, P3. split_and!; [split|split|].
  - rewrite P2. apply put_ptr_refs, refs_set_page; [done|]. by eapply refs_node_contents; [|left].
  - apply Hv.
  - done.
  - intros q Hq. unfold m3. rewrite put_ptr_bits. apply Hcl. by apply put_ptr_free in Hq.
  - intros va Hva. rewrite P3, HW by done. unfold only. destruct (Z.eqb_spec (PDX (lv (S l)) va) i) as [Heq|]; [|done].
    rewrite Hw, Z3, pm_walk_S, Heq, He. done.
  - intros q Hq Hne Hnt. assert (Hqp : q ≠ p) by (intros ->; by eapply page_live_not_free). split.
    + apply put_ptr_live. by apply Hlive.
    + unfold m3. rewrite put_ptr_page by done. cbn. by rewrite lookup_insert_ne, Hpg.
  - intros q. rewrite P2. cbn. rewrite elem_of_cons. intros [->|?]; [right|by left]. intros ?. by eapply page_live_not_free.
  - intros q. unfold m3. rewrite put_ptr_bits. apply Hbits.
  - unfold m3. by rewrite put_ptr_conf.
  - unfold m3. rewrite (proj2 (put_ptr_ptr m2 pm i (table_ent pn) i (map_ok_ptrs _ _ _ HO))). by rewrite decide_True.
Qed.
