(* ===== verification/PmapThms.v ===== *)
(** * The operations on page maps

    What each function of kern/arch/amd64/pmap.c does to the walk, for a map of any
    level, by induction on the level; the theorems about whole page maps follow. *)
From S2P Require Import Prelude Machine Hashtable Ktypes Kmem PageAlloc Pagetree PageRefs PagetreeSpec Pmap PmapSpec.

(** ** Addresses as the tables see them *)

(** The bits of an address that tables of level [lvl] and below look at, from bit
    [k] on. *)
Definition part (lvl : nat) (k va : Z) : Z := va mod 2 ^ (PDSHIFT (lv lvl) + 9) / 2 ^ k.

Lemma PDSHIFT_S l : PDSHIFT (lv (S l)) = PDSHIFT (lv l) + 9.
Proof. unfold PDSHIFT, NPTBITS. lia. Qed.
Lemma PDSHIFT_ge l : 12 ≤ PDSHIFT (lv l).
Proof. unfold PDSHIFT, NPTBITS. lia. Qed.

Lemma div_mod_part a b c : 0 < b → 0 < c → a mod (b * c) / b = (a / b) mod c.
Proof.
  intros Hb Hc. rewrite Z.rem_mul_r by lia. rewrite (Z.add_comm (a mod b)), (Z.mul_comm b), Z.div_add_l by lia.
  rewrite (Z.div_small (a mod b)) by (apply Z.mod_pos_bound; lia). lia.
Qed.
Lemma part_PDX lvl va : (lvl ≤ 3)%nat → part lvl (PDSHIFT (lv lvl)) va = PDX (lv lvl) va.
Proof.
  intros Hl. pose proof (PDSHIFT_ge lvl). assert (Hu : in_u64 (u64 va)) by (unfold in_u64, u64; apply Z.mod_pos_bound; lia).
  assert (PDX (lv lvl) va = PDX (lv lvl) (u64 va)) as -> by (unfold PDX; by rewrite (u64_small (u64 va))).
  assert (Hd : (2 ^ (PDSHIFT (lv lvl) + 9) | 2 ^ 64)).
  { exists (2 ^ (64 - (PDSHIFT (lv lvl) + 9))). rewrite <- Z.pow_add_r by (unfold PDSHIFT, NPTBITS; lia). f_equal. lia. }
  rewrite PDX_div by (done || lia). change 512 with (2 ^ 9). rewrite <- div_mod_part by lia. unfold part. f_equal.
  rewrite <- Z.pow_add_r by lia. unfold u64. symmetry. by apply Z.mod_mod_divide.
Qed.
(** The part of level [l + 1] is the index there followed by the part of level [l]. *)
Lemma part_S l k va : (S l ≤ 3)%nat → 0 ≤ k ≤ PDSHIFT (lv (S l)) →
  part (S l) k va = PDX (lv (S l)) va * 2 ^ (PDSHIFT (lv (S l)) - k) + part l k va ∧
  0 ≤ part l k va < 2 ^ (PDSHIFT (lv (S l)) - k).
Proof.
  intros Hva Hk. rewrite <- (part_PDX (S l)) by done. unfold part. rewrite PDSHIFT_S in *. set (s := PDSHIFT (lv l) + 9) in *.
  pose proof (PDSHIFT_ge l). assert (Hs : 2 ^ s = 2 ^ k * 2 ^ (s - k)) by (rewrite <- Z.pow_add_r by lia; f_equal; lia).
  set (x := va mod 2 ^ (s + 9)). assert (Hx : va mod 2 ^ s = x mod 2 ^ s).
  { symmetry. apply Z.mod_mod_divide. rewrite Z.pow_add_r by lia. apply Z.divide_factor_l. }
  rewrite Hx, Hs, div_mod_part by lia. rewrite <- Z.div_div by lia. split; [|apply Z.mod_pos_bound; lia].
  rewrite (Z.div_mod (x / 2 ^ k) (2 ^ (s - k))) at 1 by lia. lia.
Qed.
(** The addresses a page map of level [lvl] is for: user space, or one gigabyte for
    an interior page map. *)
Definition in_space (lvl : nat) (va : Z) : Prop :=
  match lvl with 1%nat => 0 ≤ va < 2 ^ 30 | 3%nat => 0 ≤ va < ULIM | _ => False end.
Lemma in_space_user lvl va : in_space lvl va → (lvl ≤ 3)%nat ∧ 0 ≤ va < ULIM ∧ in_width lvl va.
Proof.
  unfold in_space, ULIM. intros H. destruct lvl as [|[|[|[|]]]]; try done; (split; [lia|]; split; [lia|]).
  - apply in_width_low. lia.
  - apply in_width_user; [lia|]. unfold ULIM. lia.
Qed.
(** They are their own part. *)
Lemma part_user lvl k va : in_space lvl va → part lvl k va = va / 2 ^ k.
Proof.
  unfold in_space, part, ULIM. destruct lvl as [|[|[|[|]]]]; try done; intros Hva.
  - change (2 ^ (PDSHIFT (lv 1) + 9)) with (2 ^ 30). by rewrite (Z.mod_small va) by lia.
  - change (2 ^ (PDSHIFT (lv 3) + 9)) with (2 ^ 48). by rewrite (Z.mod_small va) by lia.
Qed.

(** ** Entries and infos *)
Lemma wp_read_pte m pg i Q : 0 ≤ i < 512 → is_Some (page_ptrs m pg) → Q (node_ptr m pg i) m → wp (read_pte (pg, i)) m Q.
Proof. intros Hi. apply wp_read_ptr. by apply elem_of_slots. Qed.
Lemma wp_write_pte m pg i v Q : 0 ≤ i < 512 → is_Some (page_ptrs m pg) → Q tt (put_ptr pg i v m) → wp (write_pte (pg, i) v) m Q.
Proof. intros Hi. apply wp_write_ptr. by apply elem_of_slots. Qed.
Lemma pmap_bit_info m pn i : pm_info m !! pn = Some i → pmap_bit m (page_addr pn) = pi_pmap i.
Proof.
  intros Hi. unfold pmap_bit, page_addr. change PGSIZE with 4096.
  replace (PHYSBASE + 4096 * pn - PHYSBASE) with (pn * 4096) by lia. by rewrite Z.div_mul, Hi.
Qed.
(** Looking at [pi_pmap] of a page. *)
Lemma wp_pmap_info {A} m pn (f : page_info → M pmem A) Q :
  alloc_inv m → 0 ≤ pn < mc_npages (pm_conf m) →
  (∀ i, pm_info m !! pn = Some i → pi_pmap i = pmap_bit m (page_addr pn) → wp (f i) m Q) →
  wp (pi ← page_to_pageinfo (page_addr pn); info ← get_info pi; f info) m Q.
Proof.
  intros Ha Hpn HQ. wp_pure. eapply page_to_pageinfo_page; [apply Ha|by apply page_at_addr|]. wp_pure.
  destruct (ai_pages _ Ha pn Hpn) as (i & Hi & _). eapply wp_get_info; [done|]. apply HQ; [done|]. by rewrite (pmap_bit_info _ _ i).
Qed.

Lemma upd_ext m m' lvl pm F G :
  (∀ va, in_width lvl va → F va (pm_walk m lvl pm va) = G va (pm_walk m lvl pm va)) →
  upd m m' lvl pm F → upd m m' lvl pm G.
Proof. intros Heq [W Fr Nw B C]. split; [|done..]. intros va Hva. by rewrite W, Heq. Qed.
Lemma upd_same m m' lvl pm :
  pm_page m' = pm_page m → pm_info m' = pm_info m → pm_conf m' = pm_conf m →
  (lvl ≤ 3)%nat → conf_ok (pm_conf m) → map_ok m lvl pm →
  upd m m' lvl pm (λ _ w, w) ∧ tables m' lvl pm = tables m lvl pm ∧ map_ok m' lvl pm.
Proof.
  intros Hp Hi Hc Hl Hcf Hok. assert (Hb : ∀ q, pmap_bit m' q = pmap_bit m q) by (intros q; unfold pmap_bit; by rewrite Hi).
  destruct (map_ext lvl m m' pm) as (HT & HO & HW); [done|done|split_and!; [by rewrite Hp|done|done]|].
  split_and!; [|done|done]. split; [by intros va Hva; rewrite HW| |rewrite HT; by left|done|done].
  intros q (pn & i & Hat & Hin & Hf) _ _. split; [|by rewrite Hp]. exists pn, i. rewrite Hi. by rewrite page_at_conf.
Qed.
Lemma pm_inv_failures m lvl pm N R f :
  (lvl ≤ 3)%nat → pm_inv m lvl pm N R →
  pm_inv (set_failures f m) lvl pm N R ∧ upd m (set_failures f m) lvl pm (λ _ w, w).
Proof.
  intros Hl Hv. pose proof Hv as [Hr Hp Hok Hcl].
  destruct (upd_same m (set_failures f m) lvl pm) as (HU & HT & HO); [done|done|done|done|by eapply pv_conf|done|].
  split; [|done]. split; [|done|done|done]. rewrite HT. destruct Hr as [Ha ? ? ? ? ?]. split; try done. by apply set_failures_inv.
Qed.

(** ** Walking to a table, creating what is missing *)

(** The table of level [t] that an address goes through. *)
Fixpoint pm_table (m : pmem) (lvl t : nat) (pm va : Z) : option Z :=
  if decide (lvl = t) then Some pm else
  match lvl with
  | O => None
  | S l => let e := node_ptr m pm (PDX (lv lvl) va) in
           if bit e PTE_P then if pmap_bit m (sub e) then None else pm_table m l t (sub e) va else None
  end.
Lemma pm_table_top m lvl pm va : pm_table m lvl lvl pm va = Some pm.
Proof. destruct lvl; cbn; by rewrite decide_True. Qed.
Lemma pm_table_S m l t pm va pn :
  (t ≤ l)%nat → node_ptr m pm (PDX (lv (S l)) va) = table_ent pn → 0 ≤ pn < 2 ^ 34 → pmap_bit m (page_addr pn) = false →
  pm_table m (S l) t pm va = pm_table m l t (page_addr pn) va.
Proof.
  intros Ht He Hpn Hb. cbn [pm_table]. rewrite decide_False by lia. cbv zeta. rewrite He, table_ent_present, sub_table, Hb by lia. done.
Qed.

(** The entry itself; 0 when the tables on the way are missing. *)
Definition pm_ent (m : pmem) (lvl t : nat) (pm va : Z) : Z :=
  match pm_table m lvl t pm va with Some tb => node_ptr m tb (PDX (lv t) va) | None => 0 end.
Lemma pm_ent_zero m lvl t p va : page_ptrs m p = Some ∅ → pm_ent m lvl t p va = 0.
Proof.
  intros Hp. assert (Hn : ∀ i, node_ptr m p i = 0) by (intros i; unfold node_ptr; by rewrite Hp, lookup_empty).
  unfold pm_ent. destruct lvl as [|l]; cbn [pm_table]; case_decide; try done.
  cbv zeta. by rewrite Hn.
Qed.

(** The flags of a walk that creates tables down to level [t]. *)
Definition create_flags (t : nat) : Z := if decide (t = 2%nat) then Z.lor PM_TRAV_CREATE PM_TRAV_LINK else PM_TRAV_CREATE.

Definition created (m : pmem) (lvl t : nat) (pm va : Z) (N R : list Z) (res : Z * option ptep) (m' : pmem) : Prop :=
  pm_inv m' lvl pm N R ∧ upd m m' lvl pm (λ _ w, w) ∧ pm_ent m' lvl t pm va = pm_ent m lvl t pm va ∧
  ((res.1 = 0 ∧ ∃ tb, pm_table m' lvl t pm va = Some tb ∧ res.2 = Some (tb, PDX (lv t) va)) ∨ res.1 = - E_NO_MEM).

Lemma created_child m m1 m2 l t pm va N R res pn :
  (S l ≤ 3)%nat → (t ≤ l)%nat → in_width (S l) va →
  pm_inv m1 (S l) pm N R → upd m m1 (S l) pm (λ _ w, w) → pm_ent m1 (S l) t pm va = pm_ent m (S l) t pm va →
  node_ptr m1 pm (PDX (lv (S l)) va) = table_ent pn → 0 ≤ pn < mc_npages (pm_conf m1) → pmap_bit m1 (page_addr pn) = false →
  created m1 l t (page_addr pn) va (page_addr pn :: tables_but m1 l pm (PDX (lv (S l)) va) ++ N) R res m2 →
  created m (S l) t pm va N R res m2.
Proof.
  intros Hl Ht Hva Hv Hu Hent He Hpn Hb (Hv2 & Hu2 & Hent2 & Hres).
  destruct (upd_child _ _ _ _ _ _ _ _ _ Hl Hv Hva He Hpn Hb Hv2 Hu2) as [Hv' Hu'].
  destruct (child_frame _ _ _ _ _ _ _ _ _ Hv Hva He Hpn Hb Hu2) as (Hpm & _).
  assert (Hpn' : 0 ≤ pn < 2 ^ 34) by (destruct (pv_conf _ _ _ _ _ Hv); lia).
  assert (Htab : pm_table m2 (S l) t pm va = pm_table m2 l t (page_addr pn) va).
  { apply pm_table_S; [done|by rewrite (node_ptr_ext m1)|done|by rewrite (u_bits _ _ _ _ _ Hu2)]. }
  split_and!; [done| | |].
  - eapply upd_ext; [|exact (upd_trans _ _ _ _ _ _ _ _ _ Hv Hu Hu')]. intros va' _. unfold only. by case_match.
  - rewrite <- Hent. unfold pm_ent in *. rewrite Htab, Hent2. by rewrite (pm_table_S m1 _ _ _ _ pn).
  - destruct Hres as [(H1 & tb & Htb & H2)|H1]; [left|by right]. split; [done|]. exists tb. by rewrite Htab.
Qed.

Lemma create_flags_create t : bit (create_flags t) PM_TRAV_CREATE = true.
Proof. unfold create_flags. by case_decide. Qed.
Lemma create_flags_link t : bit (create_flags t) PM_TRAV_LINK = bool_decide (t = 2%nat).
Proof. unfold create_flags. case_decide; [by rewrite bool_decide_true|by rewrite bool_decide_false]. Qed.

(** A loop over one index. *)
Lemma trav_once {X} (body : Z → X → M pmem (Z * X)) i x m Q :
  wp (body i x) m (λ rx m', (rx.1 < 0 ∨ rx.1 = 0) ∧ Q rx m') → wp (trav_loop body (Z.to_nat (i - i + 1)) i x) m Q.
Proof.
  intros H. replace (Z.to_nat (i - i + 1)) with 1%nat by lia. cbn [trav_loop]. apply wp_bind. eapply wp_mono; [exact H|].
  intros [r y] m' [Hr HQ]. cbn in *. destruct (Z.ltb_spec r 0); [done|]. by destruct Hr as [?| ->]; [lia|].
Qed.

Lemma pm_ent_failures m f lvl t pm va : pm_ent (set_failures f m) lvl t pm va = pm_ent m lvl t pm va.
Proof.
  assert (H : ∀ pm, pm_table (set_failures f m) lvl t pm va = pm_table m lvl t pm va).
  { induction lvl as [|l IH]; intros p; cbn [pm_table]; case_decide; [done|done|done|]. cbv zeta.
    change (node_ptr (set_failures f m)) with (node_ptr m). change (pmap_bit (set_failures f m)) with (pmap_bit m).
    destruct (bit _ _); [|done]. destruct (pmap_bit m _); [done|]. apply IH. }
  unfold pm_ent. by rewrite H.
Qed.
(** A new table has no entries. *)
Lemma new_table_ent m m1 l t pm va pn :
  (t ≤ l)%nat → 0 ≤ pn < 2 ^ 34 → node_ptr m pm (PDX (lv (S l)) va) = 0 → (page_addr pn ≠ pm) →
  (∀ q, pmap_bit m1 q = pmap_bit m q) → pmap_bit m (page_addr pn) = false →
  let m3 := put_ptr pm (PDX (lv (S l)) va) (table_ent pn) (set_page (page_addr pn) PgZero m1) in
  node_ptr m3 pm (PDX (lv (S l)) va) = table_ent pn → pm_ent m3 (S l) t pm va = pm_ent m (S l) t pm va.
Proof.
  intros Ht Hpn H0 Hne Hb Hbf m3 He. transitivity 0.
  - unfold pm_ent. rewrite (pm_table_S m3 l t pm va pn); [|done|done|done|by unfold m3; rewrite put_ptr_bits, <- Hbf, <- Hb].
    apply pm_ent_zero. unfold page_ptrs, m3. rewrite put_ptr_page by done. cbn. by rewrite lookup_insert_eq.
  - unfold pm_ent. cbn [pm_table]. rewrite decide_False by lia. cbv zeta. by rewrite H0.
Qed.

(** The entry of a table on the way is present when the walk goes on. *)
Lemma present_or_alloc m l pm N R i pid node (Q : Z * Z → pmem → Prop) :
  (S l ≤ 3)%nat → pm_inv m (S l) pm N R → 0 ≤ i < width (S l) → home_node (pm_conf m) pid = Some node →
  (∀ m', pm_inv m' (S l) pm N R → upd m m' (S l) pm (λ _ w, w) →
     (∀ t va, (t ≤ l)%nat → PDX (lv (S l)) va = i → pm_ent m' (S l) t pm va = pm_ent m (S l) t pm va) →
     ∀ e, Q (- E_NO_MEM, e) m') →
  (∀ pn m', pm_inv m' (S l) pm N R → upd m m' (S l) pm (λ _ w, w) → node_ptr m' pm i = table_ent pn →
     0 ≤ pn < mc_npages (pm_conf m') →
     (∀ t va, (t ≤ l)%nat → PDX (lv (S l)) va = i → pm_ent m' (S l) t pm va = pm_ent m (S l) t pm va) →
     Q (0, table_ent pn) m') →
  wp (if bit (node_ptr m pm i) PTE_P then mret (0, node_ptr m pm i) else
      '(r, p) ← page_alloc pid;
      if r <? 0 then mret (r, 0) else
      page_zero p;;
      pa ← kva2pa p;
      let e := Z.lor (Z.lor (Z.lor pa PTE_P) PTE_U) PTE_W in
      write_pte (pm, i) e;;
      mret (0, e)) m Q.
Proof.
  intros Hl Hv Hi Hh HN HS. pose proof (pv_conf _ _ _ _ _ Hv) as Hc. pose proof (width_le (S l)).
  destruct (proj2 (proj1 (map_ok_S _ _ _) (pv_ok _ _ _ _ _ Hv)) i Hi) as [He|(pn & Hpn & He & _)].
  2:{ rewrite He, table_ent_present by lia. wp_pure. apply HS; [done| |done|done|done].
      destruct (upd_same m m (S l) pm) as [HU _]; [done..|by apply Hv|done]. }
  rewrite He. change (bit 0 PTE_P) with false. wp_pure.
  eapply table_alloc_wp; [done|done| |]; cbv beta iota.
  { intros f p. wp_pure. destruct (pm_inv_failures _ _ _ _ _ f Hl Hv). apply HN; [done|done|].
    intros t va _ _. apply pm_ent_failures. }
  intros pn m1 Hpn Hb Hf Hr Hpg Hcf Hbits Hlive Hcl. wp_pure.
  destruct (upd_attach m m1 l pm N R i pn) as (Hv3 & Hu3 & He3); [done..|].
  unfold page_zero. eapply wp_write_page; [by eapply refs_node_contents; [|left]|]. wp_pure.
  eapply kva2pa_page; [by cbn; rewrite Hcf|apply page_at_addr; by cbn; rewrite Hcf|]. wp_pure. cbv zeta. wp_pure.
  assert (Hent : Z.lor (Z.lor (Z.lor (PGSIZE * pn) PTE_P) PTE_U) PTE_W = table_ent pn).
  { unfold table_ent. by rewrite <- !Z.lor_assoc. }
  rewrite Hent. apply wp_write_pte; [lia| |]. 2:{ wp_pure. apply HS; [done..| |].
    - by rewrite (u_conf _ _ _ _ _ Hu3).
    - intros t va Ht Hva. subst i. eapply new_table_ent; try done; [destruct Hc; lia|]. intros Heq.
      apply (page_live_not_free m pm (pv_live _ _ _ _ _ Hv)). by rewrite <- Heq. }
  destruct (map_ok_ptrs _ _ _ (pv_ok _ _ _ _ _ Hv)) as [a Ha]. unfold page_ptrs in *. cbn.
  destruct (decide (page_addr pn = pm)) as [->|]; [rewrite lookup_insert_eq; by eexists|].
  rewrite lookup_insert_ne, Hpg by done. by eexists.
Qed.

Lemma created_top m lvl pm va N R :
  (lvl ≤ 3)%nat → pm_inv m lvl pm N R → created m lvl lvl pm va N R (0, Some (pm, PDX (lv lvl) va)) m.
Proof.
  intros Hl Hv. destruct (upd_same m m lvl pm) as [HU _]; [done|done|done|done|by eapply pv_conf|apply Hv|].
  split_and!; [done|done|done|left]. split; [done|]. exists pm. by rewrite pm_table_top.
Qed.

(** What a walk finds on the way is a table of its own. *)
Lemma own_table m l t pm N R va pn :
  (t ≤ l)%nat → (S l ≤ 3)%nat → (t = 2%nat ∨ t = 0%nat ∧ ∃ e, pm_walk m (S l) pm va = inl e) →
  pm_inv m (S l) pm N R → in_width (S l) va → node_ptr m pm (PDX (lv (S l)) va) = table_ent pn →
  0 ≤ pn < mc_npages (pm_conf m) → pmap_bit m (page_addr pn) = false.
Proof.
  intros Htl Hl Ht Hv Hva He Hpn. destruct (pmap_bit m (page_addr pn)) eqn:Hb; [exfalso|done].
  assert (Hpn' : 0 ≤ pn < 2 ^ 34) by (destruct (pv_conf _ _ _ _ _ Hv); lia).
  destruct Ht as [->|(_ & e & Hw)].
  - pose proof (proj2 (proj1 (map_ok_S _ _ _) (pv_ok _ _ _ _ _ Hv)) _ Hva) as [H0|(pn' & Hpn'' & He' & Hk)].
    + assert (Hp := table_ent_present pn ltac:(lia)). by rewrite <- He, H0 in Hp.
    + assert (Hs := sub_table pn Hpn'). rewrite <- He, He', sub_table in Hs by (destruct (pv_conf _ _ _ _ _ Hv); lia).
      rewrite Hs, Hb in Hk. lia.
  - rewrite pm_walk_S, He, (proj2 (ent_link m l pn Hpn' Hb)) in Hw. done.
Qed.
Lemma open_child m l t pm va pn :
  0 ≤ pn < 2 ^ 34 → node_ptr m pm (PDX (lv (S l)) va) = table_ent pn → pmap_bit m (page_addr pn) = false →
  (t = 2%nat ∨ t = 0%nat ∧ ∃ e, pm_walk m (S l) pm va = inl e) →
  (t = 2%nat ∨ t = 0%nat ∧ ∃ e, pm_walk m l (page_addr pn) va = inl e).
Proof. intros Hpn He Hb. by rewrite pm_walk_S, He, (proj2 (ent_table m l pn Hpn Hb)). Qed.

(** The walk with [PM_TRAV_CREATE] returns the entry of level [t] for the address;
    it changes no translation.  [t] is 0, or 2 for a link; above level [t] the address
    must not go through an interior page map. *)
Lemma traverse_create_wp lvl t pm va base pid node x m N R :
  (t ≤ lvl ≤ 3)%nat → (t = 2%nat ∨ t = 0%nat ∧ ∃ e, pm_walk m lvl pm va = inl e) →
  pm_inv m lvl pm N R → in_width lvl va → home_node (pm_conf m) pid = Some node →
  wp (page_map_traverse_internal lvl pm va va (create_flags t) pgdir_walk_cb base pid x) m (created m lvl t pm va N R).
Proof.
  revert pm base x m N R. induction lvl as [|l IH]; intros pm base x m N R Hl Ht Hv Hva Hh;
    cbn [page_map_traverse_internal]; apply trav_once; apply wp_bind;
    (apply wp_read_pte; [apply PDX_range; lia|eapply map_ok_ptrs, Hv|]).
  { assert (t = 0%nat) as -> by lia. rewrite create_flags_create, orb_true_l. unfold pgdir_walk_cb. wp_pure.
    split; [by right|]. apply created_top; [lia|done]. }
  destruct (decide (t = S l)) as [->|Hne].
  { destruct Ht as [Ht|[? _]]; [|done]. injection Ht as ->. change (lv 2 =? 1) with false. change (lv 2 =? 2) with true.
    rewrite create_flags_link, bool_decide_true by done. rewrite andb_false_l, andb_true_l. unfold pgdir_walk_cb. wp_pure.
    split; [by right|]. apply created_top; [lia|done]. }
  assert (Hps : bit (node_ptr m pm (PDX (lv (S l)) va)) PTE_PS = false).
  { pose proof (proj2 (proj1 (map_ok_S _ _ _) (pv_ok _ _ _ _ _ Hv)) _ Hva) as [->|(pn & Hpn & -> & _)]; [done|].
    apply table_ent_small. lia. }
  rewrite Hps, andb_false_r, create_flags_link, create_flags_create. cbn [negb]. rewrite andb_false_r.
  assert ((lv (S l) =? 2) && bool_decide (t = 2%nat) = false) as ->.
  { case_bool_decide; [|by rewrite andb_false_r]. destruct (Z.eqb_spec (lv (S l)) 2); [lia|done]. }
  rewrite !Z.eqb_refl. wp_pure. eapply (present_or_alloc m l pm N R _ pid node); [lia|done|done|done| |].
  { intros m' Hv' Hu' Hent e. wp_pure. split; [by left|]. split_and!; [done|done|apply Hent; [lia|done]|by right]. }
  intros pn m' Hv' Hu' He Hpn Hent. wp_pure. fold (sub (table_ent pn)).
  assert (Ht' : t = 2%nat ∨ t = 0%nat ∧ ∃ e, pm_walk m' (S l) pm va = inl e) by (by rewrite (u_walk _ _ _ _ _ Hu')).
  assert (Hb : pmap_bit m' (page_addr pn) = false) by (eapply (own_table m' l t); try done; lia).
  assert (Hpn' : 0 ≤ pn < 2 ^ 34) by (destruct (pv_conf _ _ _ _ _ Hv'); lia).
  rewrite sub_table by done. eapply wp_mono.
  { eapply (IH (page_addr pn)); [lia|by eapply open_child|by eapply pm_inv_child|apply in_width_low; lia|].
    by rewrite (u_conf _ _ _ _ _ Hu'). }
  intros res m2 Hres. split; [|eapply created_child; try done; try lia; apply Hent; [lia|done]].
  destruct Hres as (_ & _ & _ & [(-> & _)| ->]); [by right|by left].
Qed.

(** ** Writing the entry a walk found *)

(** Two addresses that go through the same entry of level [t]. *)
Definition agree (lvl t : nat) (va va' : Z) : bool := part lvl (PDSHIFT (lv t)) va =? part lvl (PDSHIFT (lv t)) va'.

Lemma agree_top lvl va va' : (lvl ≤ 3)%nat → agree lvl lvl va va' = (PDX (lv lvl) va' =? PDX (lv lvl) va).
Proof. intros Hl. unfold agree. rewrite !part_PDX by done. apply Z.eqb_sym. Qed.
Lemma agree_S l t va va' : (t ≤ l)%nat → (S l ≤ 3)%nat →
  agree (S l) t va va' = (PDX (lv (S l)) va' =? PDX (lv (S l)) va) && agree l t va va'.
Proof.
  intros Ht Hl. assert (Hk : 0 ≤ PDSHIFT (lv t) ≤ PDSHIFT (lv (S l))) by (unfold PDSHIFT, NPTBITS; lia).
  unfold agree. destruct (part_S l _ va Hl Hk) as [-> H1], (part_S l _ va' Hl Hk) as [-> H2].
  set (b := 2 ^ _) in *. destruct (Z.eqb_spec (PDX (lv (S l)) va') (PDX (lv (S l)) va)) as [->|Hne]; cbn.
  - destruct (Z.eqb_spec (part l (PDSHIFT (lv t)) va) (part l (PDSHIFT (lv t)) va')) as [->|]; [apply Z.eqb_refl|apply Z.eqb_neq; lia].
  - apply Z.eqb_neq. nia.
Qed.

Lemma pm_table_inv m l t pm va tb N R :
  (t ≤ l)%nat → pm_inv m (S l) pm N R → in_width (S l) va → pm_table m (S l) t pm va = Some tb →
  ∃ pn, node_ptr m pm (PDX (lv (S l)) va) = table_ent pn ∧ 0 ≤ pn < mc_npages (pm_conf m) ∧
        pmap_bit m (page_addr pn) = false ∧ pm_table m l t (page_addr pn) va = Some tb.
Proof.
  intros Ht Hv Hva Htb. pose proof (proj2 (proj1 (map_ok_S _ _ _) (pv_ok _ _ _ _ _ Hv)) _ Hva) as He.
  cbn [pm_table] in Htb. rewrite decide_False in Htb by lia. cbv zeta in Htb.
  destruct He as [He|(pn & Hpn & He & _)]; rewrite He in Htb; [done|]. exists pn.
  rewrite table_ent_present, sub_table in Htb by (destruct (pv_conf _ _ _ _ _ Hv); lia).
  by destruct (pmap_bit m (page_addr pn)).
Qed.

(** The entry is inside a table, and well formed like all entries of its level. *)
Lemma table_entry m lvl t pm va tb N R :
  (t ≤ lvl ≤ 3)%nat → pm_inv m lvl pm N R → in_width lvl va → pm_table m lvl t pm va = Some tb →
  is_Some (page_ptrs m tb) ∧ ent_end_ok m t (node_ptr m tb (PDX (lv t) va)).
Proof.
  revert pm N R. induction lvl as [|l IH]; intros pm N R Hl Hv Hva Htb.
  { assert (t = 0%nat) as -> by lia. injection Htb as <-. split; [eapply map_ok_ptrs, Hv|done]. }
  destruct (decide (t = S l)) as [->|Hne].
  - rewrite pm_table_top in Htb. injection Htb as <-. split; [eapply map_ok_ptrs, Hv|].
    by apply (proj1 (map_ok_S _ _ _) (pv_ok _ _ _ _ _ Hv)).
  - destruct (pm_table_inv m l t pm va tb N R) as (pn & He & Hpn & Hb & Htb'); [lia|done..|].
    eapply (IH (page_addr pn)); [lia|by eapply pm_inv_child|apply in_width_low; lia|done].
Qed.

Lemma walk_through m lvl t pm va va' tb N R :
  (t ≤ lvl ≤ 3)%nat → pm_inv m lvl pm N R → in_width lvl va →
  pm_table m lvl t pm va = Some tb → agree lvl t va va' = true →
  pm_walk m lvl pm va' = ent_end m t (node_ptr m tb (PDX (lv t) va)) va'.
Proof.
  revert pm N R. induction lvl as [|l IH]; intros pm N R Hl Hv Hva Htb Ha.
  { assert (t = 0%nat) as -> by lia. injection Htb as <-. rewrite agree_top in Ha by lia. apply Z.eqb_eq in Ha. cbn. by rewrite Ha. }
  destruct (decide (t = S l)) as [->|Hne].
  - rewrite pm_table_top in Htb. injection Htb as <-. rewrite agree_top in Ha by lia. apply Z.eqb_eq in Ha. by rewrite pm_walk_S, Ha.
  - destruct (pm_table_inv m l t pm va tb N R) as (pn & He & Hpn & Hb & Htb'); [lia|done..|].
    rewrite agree_S in Ha by lia. apply andb_true_iff in Ha as [Hi%Z.eqb_eq Ha].
    rewrite pm_walk_S, Hi, He, (proj2 (ent_table m l pn ltac:(destruct (pv_conf _ _ _ _ _ Hv); lia) Hb)).
    eapply (IH (page_addr pn)); [lia|by eapply pm_inv_child|apply in_width_low; lia|done..].
Qed.

Lemma put_table m lvl t pm va tb v N R :
  (t ≤ lvl ≤ 3)%nat → pm_inv m lvl pm N R → in_width lvl va → pm_table m lvl t pm va = Some tb →
  ent_end_ok m t v → ent_end_tables m t v = [] → ent_end_tables m t (node_ptr m tb (PDX (lv t) va)) = [] →
  let m' := put_ptr tb (PDX (lv t) va) v m in
  pm_inv m' lvl pm N R ∧
  ∃ F, upd m m' lvl pm F ∧ ∀ va' w, F va' w = if agree lvl t va va' then ent_end m t v va' else w.
Proof.
  revert pm N R. induction lvl as [|l IH]; intros pm N R Hl Hv Hva Htb Hok Hnew Hold m'.
  { assert (t = 0%nat) as -> by lia. injection Htb as <-. destruct (upd_entry m 0 pm N R (PDX (lv 0) va) v) as [H1 H2]; [lia|done..|].
    split; [done|]. eexists. split; [done|]. intros va' w. by rewrite agree_top by lia. }
  destruct (decide (t = S l)) as [->|Hne].
  - rewrite pm_table_top in Htb. injection Htb as <-.
    destruct (upd_entry m (S l) pm N R (PDX (lv (S l)) va) v) as [H1 H2]; [lia|done..|].
    split; [done|]. eexists. split; [done|]. intros va' w. by rewrite agree_top by lia.
  - destruct (pm_table_inv m l t pm va tb N R) as (pn & He & Hpn & Hb & Htb'); [lia|done..|].
    destruct (IH (page_addr pn) (page_addr pn :: tables_but m l pm (PDX (lv (S l)) va) ++ N) R) as (H1 & F & H2 & H3);
      [lia|by eapply pm_inv_child|apply in_width_low; lia|done..|].
    destruct (upd_child m m' l pm N R (PDX (lv (S l)) va) pn F) as [H4 H5]; [lia|done..|].
    split; [done|]. eexists. split; [done|]. intros va' w. rewrite agree_S by lia. unfold only.
    destruct (PDX (lv (S l)) va' =? PDX (lv (S l)) va); cbn; [by apply H3|done].
Qed.

(** ** Entries for user pages *)
Definition user_pte (pn flags : Z) : Z :=
  let f := Z.lor (Z.lor PTE_P PTE_U) PTE_NX in
  let f := if bit flags SEGMAP_WRITE then Z.lor f PTE_W else f in
  Z.lor (PGSIZE * pn) (if bit flags SEGMAP_EXEC then Z.ldiff f PTE_NX else f).

Lemma bit_lor a f b : bit (Z.lor a f) b = bit a b || bit f b.
Proof.
  unfold bit. rewrite Z.land_lor_distr_l.
  destruct (Z.eqb_spec (Z.lor (Z.land a b) (Z.land f b)) 0) as [H0|H0].
  - apply Z.lor_eq_0_iff in H0 as [-> ->]. done.
  - destruct (Z.eqb_spec (Z.land a b) 0) as [Ha|]; [|done]. destruct (Z.eqb_spec (Z.land f b) 0) as [Hf|]; [|done].
    by rewrite Ha, Hf in H0.
Qed.
Lemma PTE_ADDR_lor a f : PTE_ADDR (Z.lor a f) = Z.lor (PTE_ADDR a) (PTE_ADDR f).
Proof.
  unfold PTE_ADDR, u64. rewrite <- !Z.land_ones by lia. by rewrite Z.land_lor_distr_l, Z.land_lor_distr_l.
Qed.

(** The entry maps the page with the rights asked for. *)
Lemma user_pte_spec pn flags : 0 ≤ pn < 2 ^ 34 →
  let e := user_pte pn flags in
  sub e = page_addr pn ∧ bit e PTE_P = true ∧ bit e PTE_U = true ∧
  bit e PTE_W = bit flags SEGMAP_WRITE ∧ bit e PTE_NX = negb (bit flags SEGMAP_EXEC).
Proof.
  intros Hpn e. unfold e, user_pte. cbv zeta. set (f := if bit flags SEGMAP_EXEC then _ else _).
  assert (Hb : ∀ k, 0 ≤ k < 12 ∨ k = 63 → bit (PGSIZE * pn) (2 ^ k) = false).
  { intros k Hk. change PGSIZE with 4096. rewrite bit_pow by lia. destruct Hk as [Hk| ->]; [apply page_bits; lia|].
    destruct (Z.eq_dec pn 0) as [->|]; [done|]. apply Z.bits_above_log2; [lia|].
    apply Z.lt_le_trans with 46; [apply Z.log2_lt_pow2; lia|lia]. }
  assert (Hf : PTE_ADDR f = 0 ∧ bit f PTE_P = true ∧ bit f PTE_U = true ∧
    bit f PTE_W = bit flags SEGMAP_WRITE ∧ bit f PTE_NX = negb (bit flags SEGMAP_EXEC)).
  { unfold f. by destruct (bit flags SEGMAP_WRITE), (bit flags SEGMAP_EXEC); vm_compute. }
  destruct Hf as (Hf & F0 & F2 & F1 & F63). rewrite !bit_lor.
  pose proof (Hb 0 ltac:(lia)) as H0. pose proof (Hb 1 ltac:(lia)) as H1. pose proof (Hb 2 ltac:(lia)) as H2. pose proof (Hb 63 ltac:(lia)) as H63.
  change (2 ^ 0) with PTE_P in H0. change (2 ^ 1) with PTE_W in H1. change (2 ^ 2) with PTE_U in H2. change (2 ^ 63) with PTE_NX in H63.
  rewrite H0, H1, H2, H63, F0, F1, F2, F63. split_and!; [|done..]. unfold sub. rewrite PTE_ADDR_lor, Hf.
  rewrite Z.lor_0_r. pose proof (page_lor pn 0 Hpn ltac:(lia)) as Hs. by rewrite Z.lor_0_r in Hs.
Qed.

(** ** Mapping pages and interior page maps *)
Lemma pgdir_walk_create_wp lvl t pm va pid node m N R :
  (t ≤ lvl)%nat → t = 2%nat ∨ t = 0%nat ∧ (∃ e, pm_walk m lvl pm va = inl e) →
  pm_inv m lvl pm N R → in_space lvl va → home_node (pm_conf m) pid = Some node →
  wp (pgdir_walk pm lvl va (create_flags t) pid) m (created m lvl t pm va N R).
Proof.
  intros Htl Ht Hv Hva Hh. destruct (in_space_user _ _ Hva) as (Hl & Hu & Hw). unfold pgdir_walk.
  rewrite Z.geb_leb, (proj2 (Z.leb_gt _ _)) by lia. apply wp_bind.
  eapply wp_mono; [eapply (traverse_create_wp lvl t); [done|done|done|done|done]|].
  intros [r o] m' (Hv' & Hu' & He & Hr). rewrite create_flags_create.
  destruct Hr as [(Hr & tb & Htb & Ho)|Hr]; cbn in Hr; subst r.
  - cbn in Ho. subst o. rewrite bool_decide_false by done. cbn [andb]. wp_pure. split_and!; [done|done|done|left]. split; [done|]. by exists tb.
  - wp_pure. split_and!; [done|done|done|by right].
Qed.

(** What a page map looks like after one entry of level [t] was set to [v]. *)
Definition entry_set (m : pmem) (lvl t : nat) (pm va v : Z) (N R : list Z) (m' : pmem) : Prop :=
  pm_inv m' lvl pm N R ∧
  (∀ va', in_space lvl va' → pm_walk m' lvl pm va' =
     if va' / 2 ^ PDSHIFT (lv t) =? va / 2 ^ PDSHIFT (lv t) then ent_end m t v va' else pm_walk m lvl pm va') ∧
  (∀ q, page_live m q → q ≠ pm → q ∉ tables m lvl pm → page_live m' q ∧ pm_page m' !! q = pm_page m !! q).

Lemma entry_set_wp lvl t pm va v tb m m1 N R :
  (t ≤ lvl)%nat → pm_inv m1 lvl pm N R → upd m m1 lvl pm (λ _ w, w) → in_space lvl va →
  pm_table m1 lvl t pm va = Some tb →
  ent_end_ok m1 t v → ent_end_tables m1 t v = [] → ent_end_tables m1 t (node_ptr m1 tb (PDX (lv t) va)) = [] →
  (∀ va', ent_end m1 t v va' = ent_end m t v va') →
  wp (write_pte (tb, PDX (lv t) va) v) m1 (λ _ m', entry_set m lvl t pm va v N R m').
Proof.
  intros Ht Hv Hu Hva Htb Hok Hnew Hold Hend. destruct (in_space_user _ _ Hva) as (Hl & _ & Hw).
  apply wp_write_pte; [apply PDX_range; lia|eapply (table_entry m1 lvl t); [lia|done|done|done]|].
  destruct (put_table m1 lvl t pm va tb v N R) as (Hv' & F & HF & HFs); [lia|done..|].
  pose proof (upd_trans _ _ _ _ _ _ _ _ _ Hv Hu HF) as Hu2. split_and!; [done| |apply Hu2].
  intros va' Hva'. rewrite (u_walk _ _ _ _ _ Hu2) by by apply in_space_user. rewrite HFs.
  unfold agree. rewrite !part_user, Z.eqb_sym, Hend by done. done.
Qed.

(** ** Invalidating a range *)

(** [va] is in the range of blocks of [2^k] bytes from [first] to [last]. *)
Definition covered (lvl : nat) (k first last va : Z) : bool :=
  (part lvl k first <=? part lvl k va) && (part lvl k va <=? part lvl k last).

(** What invalidation does to a translation: pages of the range lose theirs, and so
    does the whole gigabyte of a linked page map the range touches. *)
Definition inval (lvl : nat) (first last va : Z) (w : Z + Z) : Z + Z :=
  match w with
  | inl e => if covered lvl 12 first last va && bit e PTE_P then inl 0 else w
  | inr _ => if covered lvl 30 first last va then inl 0 else w
  end.

Lemma part_0 lvl k : part lvl k 0 = 0.
Proof. unfold part. rewrite Zmod_0_l. apply Zdiv_0_l. Qed.
Lemma part_max l k : (l ≤ 3)%nat → 0 ≤ k ≤ PDSHIFT (lv (S l)) → part l k (u64 (-1)) = 2 ^ (PDSHIFT (lv (S l)) - k) - 1.
Proof.
  intros Hl Hk. change (u64 (-1)) with (Z.ones 64). unfold part. rewrite PDSHIFT_S in *. set (s := PDSHIFT (lv l) + 9) in *.
  assert (Hs : s ≤ 64) by (unfold s, PDSHIFT, NPTBITS; lia).
  rewrite Z.ones_mod_pow2 by lia. rewrite Z.ones_div_pow2 by lia. rewrite Z.ones_equiv. lia.
Qed.
Lemma digits_le a a' x x' b : 0 ≤ x < b → 0 ≤ x' < b → a * b + x ≤ a' * b + x' ↔ a < a' ∨ a = a' ∧ x ≤ x'.
Proof. intros. destruct (Z.lt_trichotomy a a') as [?|[->|?]]; [nia|lia|nia]. Qed.
Lemma covered_S l k first last va :
  (S l ≤ 3)%nat → 0 ≤ k ≤ PDSHIFT (lv (S l)) →
  let idx := PDX (lv (S l)) va in
  let fi := PDX (lv (S l)) first in
  let li := PDX (lv (S l)) last in
  covered (S l) k first last va = (fi <=? idx) && (idx <=? li) &&
    covered l k (if idx =? fi then first else 0) (if idx =? li then last else u64 (-1)) va.
Proof.
  intros Hl Hk idx fi li. unfold covered.
  destruct (part_S l k va Hl Hk) as [-> H1], (part_S l k first Hl Hk) as [-> H2], (part_S l k last Hl Hk) as [-> H3].
  fold idx fi li. pose proof (part_0 l k) as H0. pose proof (part_max l k ltac:(lia) Hk) as Hm.
  set (b := 2 ^ _) in *. apply eq_true_iff_eq. rewrite !andb_true_iff, !Z.leb_le, !digits_le by lia.
  destruct (Z.eqb_spec idx fi) as [E1|E1], (Z.eqb_spec idx li) as [E2|E2]; rewrite ?H0, ?Hm; lia.
Qed.
Lemma covered_top lvl first last va : (lvl ≤ 3)%nat →
  covered lvl (PDSHIFT (lv lvl)) first last va =
  (PDX (lv lvl) first <=? PDX (lv lvl) va) && (PDX (lv lvl) va <=? PDX (lv lvl) last).
Proof. intros. unfold covered. by rewrite !part_PDX. Qed.

(** Interior page maps are linked at level 2 only. *)
Lemma no_link_low m lvl pm va N R c : (lvl < 2)%nat → pm_inv m lvl pm N R → pm_walk m lvl pm va ≠ inr c.
Proof.
  revert pm N R. induction lvl as [|l IH]; intros pm N R Hl Hv; [done|]. assert (Hva : in_width (S l) va) by (apply in_width_low; lia).
  rewrite pm_walk_S. pose proof (proj2 (proj1 (map_ok_S _ _ _) (pv_ok _ _ _ _ _ Hv)) _ Hva) as [->|(pn & Hpn & He & Hb)]; [done|].
  destruct (pmap_bit m (page_addr pn)) eqn:Hbit; [lia|].
  rewrite He, (proj2 (ent_table m l pn ltac:(destruct (pv_conf _ _ _ _ _ Hv); lia) Hbit)).
  eapply IH; [lia|by eapply pm_inv_child].
Qed.

(** The range a child is called with is the part of the range under its entry. *)
Lemma inval_child l first last va w :
  (S l ≤ 3)%nat → ((l < 2)%nat → ∀ c, w ≠ inr c) →
  let idx := PDX (lv (S l)) va in
  PDX (lv (S l)) first ≤ idx ≤ PDX (lv (S l)) last →
  inval l (if idx =? PDX (lv (S l)) first then first else 0)
          (if idx =? PDX (lv (S l)) last then last else u64 (-1)) va w = inval (S l) first last va w.
Proof.
  intros Hl Hw idx Hi. unfold inval. destruct w as [e|c].
  - rewrite (covered_S l 12) by (done || unfold PDSHIFT, NPTBITS; lia). cbv zeta. fold idx.
    rewrite (proj2 (Z.leb_le _ idx)), (proj2 (Z.leb_le idx _)) by lia. done.
  - assert (l = 2%nat) as -> by (destruct (decide (l < 2)%nat) as [H|]; [by destruct (Hw H c)|lia]).
    rewrite (covered_S 2 30) by (done || unfold PDSHIFT, NPTBITS; lia). cbv zeta. fold idx.
    rewrite (proj2 (Z.leb_le _ idx)), (proj2 (Z.leb_le idx _)) by lia. done.
Qed.
Lemma inval_link first last va c :
  PDX (lv 2) first ≤ PDX (lv 2) va ≤ PDX (lv 2) last → inval 2 first last va (inr c) = inl 0.
Proof.
  intros Hi. unfold inval. change 30 with (PDSHIFT (lv 2)). rewrite covered_top by lia.
  by rewrite (proj2 (Z.leb_le _ _)), (proj2 (Z.leb_le _ (PDX (lv 2) last))) by lia.
Qed.
Lemma inval_leaf first last va e :
  PDX (lv 0) first ≤ PDX (lv 0) va ≤ PDX (lv 0) last →
  inval 0 first last va (inl e) = if bit e PTE_P then inl 0 else inl e.
Proof.
  intros Hi. unfold inval. change 12 with (PDSHIFT (lv 0)). rewrite covered_top by lia.
  by rewrite (proj2 (Z.leb_le _ _)), (proj2 (Z.leb_le _ (PDX (lv 0) last))) by lia.
Qed.

Lemma inval_none lvl first last va : inval lvl first last va (inl 0) = inl 0.
Proof. unfold inval. change (bit 0 PTE_P) with false. by rewrite andb_false_r. Qed.
Lemma covered_coarse lvl k first last va :
  (lvl ≤ 3)%nat → 0 ≤ k ≤ PDSHIFT (lv lvl) → covered lvl k first last va = true →
  PDX (lv lvl) first ≤ PDX (lv lvl) va ≤ PDX (lv lvl) last.
Proof.
  intros Hl Hk. unfold covered. rewrite andb_true_iff, !Z.leb_le. rewrite <- !part_PDX by done. unfold part.
  assert (Hp : 2 ^ PDSHIFT (lv lvl) = 2 ^ k * 2 ^ (PDSHIFT (lv lvl) - k)) by (rewrite <- Z.pow_add_r by lia; f_equal; lia).
  rewrite Hp, <- !Z.div_div by lia. intros [H1 H2]. split; apply Z.div_le_mono; lia.
Qed.
(** Entries outside the indices of the range are not concerned. *)
Lemma inval_out lvl first last va w :
  (lvl ≤ 3)%nat → ((lvl < 2)%nat → ∀ c, w ≠ inr c) →
  ¬ (PDX (lv lvl) first ≤ PDX (lv lvl) va ≤ PDX (lv lvl) last) → inval lvl first last va w = w.
Proof.
  intros Hl Hw Ho. unfold inval. destruct w as [e|c].
  - destruct (covered lvl 12 first last va) eqn:Hcv; [|done].
    destruct Ho. eapply covered_coarse; [done| |done]. unfold PDSHIFT, NPTBITS. lia.
  - destruct (covered lvl 30 first last va) eqn:Hcv; [|done]. assert (¬ (lvl < 2)%nat) by (intros H; by destruct (Hw H c)).
    destruct Ho. eapply covered_coarse; [done| |done]. unfold PDSHIFT, NPTBITS. lia.
Qed.

Definition inval_body (lvl : nat) (pm first last idx : Z) : M pmem unit :=
  e ← read_pte (pm, idx);
  if negb (bit e PTE_P) then mret tt else
  match lvl with
  | O => write_pte (pm, idx) 0
  | S l =>
      let pm_next := pa2kva (PTE_ADDR e) in
      pi ← page_to_pageinfo pm_next;
      info ← get_info pi;
      if pi_pmap info then write_pte (pm, idx) 0 else
      let first_next := if idx =? PDX (lv lvl) first then first else 0 in
      let last_next := if idx =? PDX (lv lvl) last then last else u64 (-1) in
      page_map_invalidate_internal l pm_next first_next last_next
  end.

(** The change under one entry. *)
Definition invalidated (m : pmem) (lvl : nat) (pm idx first last : Z) (N R : list Z) (m' : pmem) : Prop :=
  pm_inv m' lvl pm N R ∧ upd m m' lvl pm (only lvl idx (inval lvl first last)).

Lemma inval_body_leaf m pm first last idx N R :
  pm_inv m 0 pm N R → 0 ≤ idx < width 0 → PDX (lv 0) first ≤ idx ≤ PDX (lv 0) last →
  wp (inval_body 0 pm first last idx) m (λ _, invalidated m 0 pm idx first last N R).
Proof.
  intros Hv Hi Hr. pose proof (width_le 0). unfold inval_body. apply wp_bind, wp_read_pte; [lia|eapply map_ok_ptrs, Hv|].
  destruct (bit (node_ptr m pm idx) PTE_P) eqn:Hb; cbn [negb].
  - apply wp_write_pte; [lia|eapply map_ok_ptrs, Hv|].
    destruct (upd_entry m 0 pm N R idx 0) as [H1 H2]; [lia|done..|]. split; [done|]. eapply upd_ext; [|exact H2].
    intros va _. unfold only. destruct (Z.eqb_spec (PDX (lv 0) va) idx) as [<-|]; [|done].
    cbn [pm_walk]. cbv zeta. rewrite inval_leaf, Hb by lia. done.
  - apply wp_ret. destruct (upd_same m m 0 pm) as [HU _]; [done|done|done|lia|by eapply pv_conf|apply Hv|].
    split; [done|]. eapply upd_ext; [|exact HU]. intros va _. unfold only.
    destruct (Z.eqb_spec (PDX (lv 0) va) idx) as [<-|]; [|done]. cbn [pm_walk]. cbv zeta. by rewrite inval_leaf, Hb by lia.
Qed.

(** What invalidation of a table of level [l] has been shown to do. *)
Definition inval_spec (l : nat) : Prop :=
  ∀ pm first last m N R, pm_inv m l pm N R → PDX (lv l) last < width l →
  wp (page_map_invalidate_internal l pm first last) m (λ _ m',
    pm_inv m' l pm N R ∧ upd m m' l pm (inval l first last)).

Lemma inval_body_node l m pm first last idx N R :
  (S l ≤ 3)%nat → inval_spec l → pm_inv m (S l) pm N R → 0 ≤ idx < width (S l) →
  PDX (lv (S l)) first ≤ idx ≤ PDX (lv (S l)) last →
  wp (inval_body (S l) pm first last idx) m (λ _, invalidated m (S l) pm idx first last N R).
Proof.
  intros Hl IH Hv Hi Hr. pose proof (width_le (S l)). pose proof (pv_conf _ _ _ _ _ Hv) as Hc.
  unfold inval_body. apply wp_bind, wp_read_pte; [lia|eapply map_ok_ptrs, Hv|].
  destruct (proj2 (proj1 (map_ok_S _ _ _) (pv_ok _ _ _ _ _ Hv)) idx Hi) as [He|(pn & Hpn & He & Hb)]; rewrite He.
  { change (bit 0 PTE_P) with false. cbn [negb]. apply wp_ret.
    destruct (upd_same m m (S l) pm) as [HU _]; [done|done|done|done|done|apply Hv|].
    split; [done|]. eapply upd_ext; [|exact HU]. intros va _. unfold only.
    destruct (Z.eqb_spec (PDX (lv (S l)) va) idx) as [<-|]; [|done]. rewrite pm_walk_S, He. by rewrite inval_none. }
  assert (Hpn' : 0 ≤ pn < 2 ^ 34) by (destruct Hc; lia). rewrite table_ent_present by lia. cbn [negb]. cbv zeta.
  fold (sub (table_ent pn)). rewrite sub_table by done. apply wp_pmap_info; [apply Hv|done|]. intros i _ ->.
  destruct (pmap_bit m (page_addr pn)) eqn:Hbit.
  - injection Hb as ->. apply wp_write_pte; [lia|eapply map_ok_ptrs, Hv|]. destruct (ent_link m 1 pn Hpn' Hbit) as [Ht Hw].
    destruct (upd_entry m 2 pm N R idx 0) as [H1 H2]; [lia|done|done|by left|done|by cbn; rewrite He|].
    split; [done|]. eapply upd_ext; [|exact H2]. intros va _. unfold only.
    destruct (Z.eqb_spec (PDX (lv 2) va) idx) as [<-|]; [|done]. rewrite pm_walk_S, He, Hw, inval_link by done. done.
  - eapply wp_mono; [eapply (IH (page_addr pn)); [by eapply pm_inv_child|]|].
    { destruct (in_width_low l (if idx =? PDX (lv (S l)) last then last else u64 (-1))); [lia|done]. }
    intros [] m' [Hv' Hu']. destruct (upd_child m m' l pm N R idx pn _ Hl Hv Hi He Hpn Hbit Hv' Hu') as [H1 H2].
    split; [done|]. eapply upd_ext; [|exact H2]. intros va Hva. unfold only.
    destruct (Z.eqb_spec (PDX (lv (S l)) va) idx) as [<-|]; [|done]. apply inval_child; [done| |done].
    intros Hl2 c. rewrite pm_walk_S, He, (proj2 (ent_table m l pn Hpn' Hbit)). eapply no_link_low; [done|by eapply pm_inv_child].
Qed.

Lemma inval_loop lvl m pm first last N R :
  (lvl ≤ 3)%nat → pm_inv m lvl pm N R → PDX (lv lvl) last < width lvl →
  (∀ m' idx, pm_inv m' lvl pm N R → 0 ≤ idx < width lvl → PDX (lv lvl) first ≤ idx ≤ PDX (lv lvl) last →
     wp (inval_body lvl pm first last idx) m' (λ _, invalidated m' lvl pm idx first last N R)) →
  wp (for_each (Z.to_nat (PDX (lv lvl) last - PDX (lv lvl) first + 1)) (PDX (lv lvl) first) (inval_body lvl pm first last)) m
     (λ _ m', pm_inv m' lvl pm N R ∧ upd m m' lvl pm (inval lvl first last)).
Proof.
  intros Hl Hv Hw Hbody. set (fi := PDX (lv lvl) first) in *. set (li := PDX (lv lvl) last) in *.
  assert (Hfi : 0 ≤ fi) by (apply PDX_range; lia).
  set (G idx va w := if (fi <=? PDX (lv lvl) va) && (PDX (lv lvl) va <? idx) then inval lvl first last va w else w).
  eapply (wp_for_each (λ idx m', pm_inv m' lvl pm N R ∧ upd m m' lvl pm (G idx))).
  - destruct (upd_same m m lvl pm) as [HU _]; [done|done|done|done|by eapply pv_conf|apply Hv|].
    split; [done|]. eapply upd_ext; [|exact HU]. intros va _. unfold G.
    destruct (Z.leb_spec fi (PDX (lv lvl) va)), (Z.ltb_spec (PDX (lv lvl) va) fi); try done. lia.
  - intros idx m1 Hi [Hv1 Hu1]. eapply wp_mono; [apply (Hbody m1 idx Hv1); lia|].
    intros [] m2 [Hv2 Hu2]. split; [done|]. eapply upd_ext; [|exact (upd_trans _ _ _ _ _ _ _ _ _ Hv1 Hu1 Hu2)].
    intros va _. unfold G, only. destruct (Z.eqb_spec (PDX (lv lvl) va) idx) as [->|].
    + rewrite (proj2 (Z.leb_le fi idx)), (proj2 (Z.ltb_ge idx idx)), (proj2 (Z.ltb_lt idx (idx + 1))) by lia. done.
    + replace (PDX (lv lvl) va <? idx + 1) with (PDX (lv lvl) va <? idx); [done|].
      destruct (Z.ltb_spec (PDX (lv lvl) va) idx), (Z.ltb_spec (PDX (lv lvl) va) (idx + 1)); lia || done.
  - intros m1 [Hv1 Hu1]. split; [done|]. eapply upd_ext; [|exact Hu1]. intros va _. unfold G.
    destruct (Z.leb_spec fi (PDX (lv lvl) va)), (Z.ltb_spec (PDX (lv lvl) va) (fi + lv (Z.to_nat (li - fi + 1)))); cbn [andb]; try done.
    all: symmetry; apply inval_out; [done| |fold fi li; lia]; intros Hl2 c; by eapply no_link_low.
Qed.

Lemma invalidate_wp lvl : (lvl ≤ 3)%nat → inval_spec lvl.
Proof.
  induction lvl as [|l IH]; intros Hl pm first last m N R Hv Hw.
  - apply (inval_loop 0); [done..|]. intros. by apply inval_body_leaf.
  - apply (inval_loop (S l)); [done..|]. intros. apply inval_body_node; [done|apply IH; lia|done..].
Qed.

(** ** Freeing *)

(** The free pages after the tables [T] were given back. *)
Definition frees (m m' : pmem) (T : list Z) : Prop := ∀ q, page_free_p m' q ↔ page_free_p m q ∨ q ∈ T.

(** Freeing a page that the map does not use. *)
Lemma free_table_wp m c N R (Q : unit → pmem → Prop) :
  refs_inv m (c :: N) R →
  (∀ m', refs_inv m' N R → pm_conf m' = pm_conf m → (∀ q, q ≠ c → pm_page m' !! q = pm_page m !! q) →
     (∀ q, q ≠ c → page_live m q → page_live m' q) → (∀ q, pmap_bit m' q = pmap_bit m q) → frees m m' [c] → Q tt m') →
  wp (page_free c) m Q.
Proof.
  intros Hr HQ. pose proof Hr as [Ha _ Hn _ _ _].
  eapply wp_mono; [eapply wp_conj; [eapply (refs_free_node _ _ _ _ (λ _ m', refs_inv m' N R) Hr); by intros|]|].
  { apply page_free_spec; [done|]. apply Hn. by left. }
  intros [] m' [Hr' [_ Hf]]. destruct (free_rel_status _ _ _ Hf) as (_ & _ & _ & Hfree).
  destruct Hf as (pn & i & Hat & Hi & Hfi & _ & Hinf & Hpg & Hcf). apply HQ; [done|done| | | |].
  - intros q Hq. by rewrite Hpg, lookup_insert_ne.
  - intros q Hq (pn' & i' & Hat' & Hi' & Hf'). exists pn', i'. rewrite page_at_conf, Hinf, lookup_insert_ne; try done.
    intros ->. destruct Hat, Hat'. congruence.
  - intros q. by eapply info_bits.
  - intros q. rewrite Hfree. by rewrite list_elem_of_singleton.
Qed.

Definition free_body (lvl : nat) (pm i : Z) : M pmem unit :=
  ptent ← read_pte (pm, i);
  write_pte (pm, i) 0;;
  if negb (bit ptent PTE_P) then mret tt else
  match lvl with
  | O => mret tt
  | S l =>
      let pm := pa2kva (PTE_ADDR ptent) in
      pi ← page_to_pageinfo pm;
      info ← get_info pi;
      if pi_pmap info then mret tt else
      page_map_free_level l pm;;
      page_free pm
  end.

(** One entry is cleared and the tables under it are freed. *)
Definition entry_freed (m : pmem) (lvl : nat) (pm i : Z) (N R : list Z) (m' : pmem) : Prop :=
  pm_inv m' lvl pm N R ∧ upd m m' lvl pm (only lvl i (λ _ _, inl 0)) ∧
  tables m lvl pm ≡ₚ ent_end_tables m lvl (node_ptr m pm i) ++ tables m' lvl pm ∧
  (∀ j, node_ptr m' pm j = if decide (j = i) then 0 else node_ptr m pm j) ∧
  frees m m' (ent_end_tables m lvl (node_ptr m pm i)).

Definition free_spec (l : nat) : Prop :=
  ∀ pm m N R, pm_inv m l pm N R →
  wp (page_map_free_level l pm) m (λ _ m',
    pm_inv m' l pm N R ∧ upd m m' l pm (λ _ _, inl 0) ∧ tables m' l pm = [] ∧ frees m m' (tables m l pm)).

(** An entry with nothing under it. *)
Lemma free_body_plain lvl m pm i N R :
  (lvl ≤ 3)%nat → pm_inv m lvl pm N R → 0 ≤ i < width lvl → ent_end_tables m lvl (node_ptr m pm i) = [] →
  entry_freed m lvl pm i N R (put_ptr pm i 0 m).
Proof.
  intros Hl Hv Hi Ho. assert (Hok : ent_end_ok m lvl 0) by (destruct lvl; [done|by left]).
  assert (Hn : ent_end_tables m lvl 0 = []) by (by destruct lvl).
  destruct (upd_entry m lvl pm N R i 0 Hl Hv Hi Hok Hn Ho) as [H1 H2]. split_and!; [done| | | |].
  - eapply upd_ext; [|exact H2]. intros va _. unfold only. case_match; [|done]. by destruct lvl.
  - rewrite Ho. cbn [app]. destruct lvl as [|l]; [done|]. pose proof (pv_not_table _ _ _ _ _ Hv) as Hnt.
    pose proof (tables_split m l pm i Hi) as Hsp. cbn in Ho. rewrite Ho, app_nil_l in Hsp.
    destruct (put_entry m l pm i 0) as (_ & HT & _); [done|by eapply pv_conf|apply Hv|done|done|apply not_elem_of_nil|by rewrite <- Hsp|].
    rewrite HT, Hsp. done.
  - intros j. apply (proj2 (put_ptr_ptr m pm i 0 j (map_ok_ptrs _ _ _ (pv_ok _ _ _ _ _ Hv)))).
  - intros q. rewrite Ho, put_ptr_free. rewrite elem_of_nil. tauto.
Qed.

(** Detaching the table under an entry: it and its tables become pages of their own. *)
Lemma detach m l pm i N R pn :
  (S l ≤ 3)%nat → pm_inv m (S l) pm N R → 0 ≤ i < width (S l) → node_ptr m pm i = table_ent pn →
  0 ≤ pn < mc_npages (pm_conf m) → pmap_bit m (page_addr pn) = false →
  let m1 := put_ptr pm i 0 m in
  let c := page_addr pn in
  pm_inv m1 l c (c :: tables m1 (S l) pm ++ N) R ∧ tables m1 l c = tables m l c ∧
  map_ok m1 (S l) pm ∧ tables m (S l) pm ≡ₚ (c :: tables m l c) ++ tables m1 (S l) pm ∧
  ∀ va, in_width (S l) va → pm_walk m1 (S l) pm va = only (S l) i (λ _ _, inl 0) va (pm_walk m (S l) pm va).
Proof.
  intros Hl Hv Hi He Hpn Hb m1 c. pose proof (pv_conf _ _ _ _ _ Hv) as Hc.
  destruct (ent_table m l pn ltac:(destruct Hc; lia) Hb) as [Ht _]. fold c in Ht.
  pose proof (tables_split m l pm i Hi) as Hsp. rewrite He, Ht in Hsp. pose proof (pv_not_table _ _ _ _ _ Hv) as Hnt.
  rewrite Hsp, elem_of_app in Hnt.
  destruct (put_entry m l pm i 0) as (P1 & P2 & P3); [done|done|apply Hv|done|by left|apply not_elem_of_nil|tauto|].
  rewrite ent_tables_0, app_nil_l in P2. fold m1 in P1, P2, P3.
  pose proof (pm_inv_child _ _ _ _ _ _ _ Hv Hi He Hpn Hb) as Hvc. fold c in Hvc.
  destruct (map_ext l m m1 c Hc (pv_ok _ _ _ _ _ Hvc)) as (T1 & O1 & _).
  { split_and!; [|apply put_ptr_bits|apply put_ptr_conf]. intros q Hq. apply put_ptr_page. intros ->. tauto. }
  split_and!; [split|done|done| |done].
  - rewrite T1, P2. apply put_ptr_refs, Hvc.
  - by left.
  - done.
  - intros q Hq. unfold m1. rewrite put_ptr_bits. apply Hv. by eapply put_ptr_free.
  - by rewrite P2, Hsp.
Qed.

Lemma free_body_table l m pm i N R pn :
  (S l ≤ 3)%nat → free_spec l → pm_inv m (S l) pm N R → 0 ≤ i < width (S l) → node_ptr m pm i = table_ent pn →
  0 ≤ pn < mc_npages (pm_conf m) → pmap_bit m (page_addr pn) = false →
  wp (page_map_free_level l (page_addr pn);; page_free (page_addr pn)) (put_ptr pm i 0 m) (λ _, entry_freed m (S l) pm i N R).
Proof.
  intros Hl IH Hv Hi He Hpn Hb. pose proof (pv_conf _ _ _ _ _ Hv) as Hc.
  destruct (detach m l pm i N R pn Hl Hv Hi He Hpn Hb) as (Hv1 & T1 & O1 & HT & HW).
  destruct (ent_table m l pn ltac:(destruct Hc; lia) Hb) as [Ht _].
  set (m1 := put_ptr pm i 0 m) in *. set (c := page_addr pn) in *.
  assert (B1 : ∀ q, pmap_bit m1 q = pmap_bit m q) by (intros q; apply put_ptr_bits).
  apply wp_bind. eapply wp_mono; [by eapply IH|]. intros [] m2 (Hv2 & Hu2 & HT2 & Hf2).
  pose proof (pv_refs _ _ _ _ _ Hv2) as Hr2. rewrite HT2, app_nil_l in Hr2.
  eapply free_table_wp; [exact Hr2|]. intros m3 Hr3 C3 P3 L3 B3 F3.
  (* pages apart from the freed table *)
  assert (Hk : ∀ q, page_live m1 q → q ≠ c → q ∉ tables m l c → page_live m3 q ∧ pm_page m3 !! q = pm_page m1 !! q).
  { intros q Hq Hqc Hqt. destruct (u_frame _ _ _ _ _ Hu2 q) as [? <-]; [done|done|by rewrite T1|]. split; [by apply L3|by apply P3]. }
  assert (Hs : same_tables m1 m3 (pm :: tables m1 (S l) pm)).
  { split_and!; [|by intros q; rewrite B3, (u_bits _ _ _ _ _ Hu2)|by rewrite C3, (u_conf _ _ _ _ _ Hu2)].
    pose proof (pv_refs _ _ _ _ _ Hv1) as Hr1. intros q Hq.
    assert (HqN : q ∈ tables m1 (S l) pm ++ N).
    { apply elem_of_app. apply elem_of_cons in Hq as [->|?]; [right; apply Hv|by left]. }
    destruct (proj1 (NoDup_app _ _) (ri_nodup _ _ _ Hr1)) as (_ & Hd & Hnd). apply NoDup_cons in Hnd as [Hnd _].
    apply Hk; [|by intros ->|].
    - eapply refs_node_live; [exact Hr1|]. apply elem_of_app. right. by right.
    - rewrite <- T1. intros Hqt. apply (Hd _ Hqt). by right. }
  destruct (map_ext (S l) m1 m3 pm) as (T3 & O3 & W3); [by unfold m1; rewrite put_ptr_conf|done|done|].
  assert (Hbits : ∀ q, pmap_bit m3 q = pmap_bit m q) by (intros q; by rewrite (proj1 (proj2 Hs)), B1).
  split_and!; [split|split| | |].
  - by rewrite T3.
  - apply Hv.
  - done.
  - intros q [Hq|Hq]%F3; [rewrite B3; by apply Hv2|]. apply list_elem_of_singleton in Hq as ->. by rewrite Hbits.
  - intros va Hva. rewrite W3 by done. by apply HW.
  - intros q Hq Hne. rewrite HT, elem_of_app, elem_of_cons. intros Hqt.
    destruct (Hk q) as [? ->]; [by apply put_ptr_live|tauto|tauto|]. split; [done|by apply put_ptr_page].
  - intros q. rewrite T3, HT, elem_of_app. tauto.
  - done.
  - rewrite (proj2 (proj2 Hs)). apply put_ptr_conf.
  - cbn [ent_end_tables]. by rewrite T3, He, Ht, HT.
  - intros j. rewrite (node_ptr_ext m1 m3) by (apply Hs; by left).
    apply (proj2 (put_ptr_ptr m pm i 0 j (map_ok_ptrs _ _ _ (pv_ok _ _ _ _ _ Hv)))).
  - intros q. unfold frees in F3, Hf2. rewrite F3, Hf2, T1, list_elem_of_singleton. unfold m1. rewrite put_ptr_free.
    cbn [ent_end_tables]. rewrite He, Ht, elem_of_cons. tauto.
Qed.

Lemma free_body_wp lvl m pm i N R :
  (lvl ≤ 3)%nat → (∀ l, lvl = S l → free_spec l) → pm_inv m lvl pm N R → 0 ≤ i < width lvl →
  wp (free_body lvl pm i) m (λ _, entry_freed m lvl pm i N R).
Proof.
  intros Hl IH Hv Hi. pose proof (width_le lvl). pose proof (map_ok_ptrs _ _ _ (pv_ok _ _ _ _ _ Hv)) as Hpp.
  unfold free_body. apply wp_bind, wp_read_pte; [lia|done|]. apply wp_bind, wp_write_pte; [lia|done|].
  destruct lvl as [|l].
  { assert (Hf : entry_freed m 0 pm i N R (put_ptr pm i 0 m)) by (by apply free_body_plain).
    by destruct (negb (bit (node_ptr m pm i) PTE_P)). }
  destruct (proj2 (proj1 (map_ok_S _ _ _) (pv_ok _ _ _ _ _ Hv)) i Hi) as [He|(pn & Hpn & He & _)].
  { assert (Hf : entry_freed m (S l) pm i N R (put_ptr pm i 0 m)) by (apply free_body_plain; [done..|by cbn; rewrite He]).
    by rewrite He. }
  assert (Hpn' : 0 ≤ pn < 2 ^ 34) by (destruct (pv_conf _ _ _ _ _ Hv); lia).
  rewrite He, table_ent_present by lia. cbn [negb]. cbv zeta. fold (sub (table_ent pn)). rewrite sub_table by done.
  apply wp_pmap_info; [|by rewrite put_ptr_conf|].
  { eapply ri_alloc, put_ptr_refs, Hv. }
  intros info _ ->. rewrite put_ptr_bits. destruct (pmap_bit m (page_addr pn)) eqn:Hb.
  - apply wp_ret, free_body_plain; [done..|]. cbn. rewrite He. by apply ent_link.
  - by apply free_body_table; [|apply IH|..].
Qed.

(** A table without entries. *)
Lemma tables_cleared m lvl pm : (∀ j, 0 ≤ j < width lvl → node_ptr m pm j = 0) → tables m lvl pm = [].
Proof.
  intros H0. destruct lvl as [|l]; [done|]. rewrite tables_S.
  rewrite (bind_ext_elem _ (λ _, [])); [by induction (seqZ 0 (width (S l)))|].
  intros j Hj%elem_of_seqZ. by rewrite H0 by lia.
Qed.

Lemma free_loop lvl m pm N R :
  (lvl ≤ 3)%nat → (∀ l, lvl = S l → free_spec l) → pm_inv m lvl pm N R →
  wp (for_each (Z.to_nat (width lvl)) 0 (free_body lvl pm)) m (λ _ m',
    pm_inv m' lvl pm N R ∧ upd m m' lvl pm (λ _ _, inl 0) ∧ tables m' lvl pm = [] ∧ frees m m' (tables m lvl pm)).
Proof.
  intros Hl IH Hv. assert (Hw : 0 ≤ width lvl) by (unfold width; by destruct (lv lvl =? NPTLVLS)).
  eapply (wp_for_each (λ idx m', pm_inv m' lvl pm N R ∧
    upd m m' lvl pm (λ va w, if PDX (lv lvl) va <? idx then inl 0 else w) ∧
    (∀ j, 0 ≤ j < idx → node_ptr m' pm j = 0) ∧
    ∃ T, tables m lvl pm ≡ₚ T ++ tables m' lvl pm ∧ frees m m' T)).
  - destruct (upd_same m m lvl pm) as [HU _]; [done|done|done|done|by eapply pv_conf|apply Hv|].
    split_and!; [done| |intros j; lia|exists []; split; [done|]; intros q; rewrite elem_of_nil; tauto].
    eapply upd_ext; [|exact HU]. intros va _. destruct (Z.ltb_spec (PDX (lv lvl) va) 0); [|done].
    pose proof (PDX_range (lv lvl) va ltac:(lia)). lia.
  - intros idx m1 Hi (Hv1 & Hu1 & H0 & T & HT & HF). eapply wp_mono; [apply free_body_wp; [done|done|exact Hv1|lia]|].
    intros [] m2 (Hv2 & Hu2 & HT2 & Hn2 & HF2). split_and!; [done| | |].
    + eapply upd_ext; [|exact (upd_trans _ _ _ _ _ _ _ _ _ Hv1 Hu1 Hu2)]. intros va _. unfold only.
      destruct (Z.eqb_spec (PDX (lv lvl) va) idx), (Z.ltb_spec (PDX (lv lvl) va) idx), (Z.ltb_spec (PDX (lv lvl) va) (idx + 1)); lia || done.
    + intros j Hj. rewrite Hn2. case_decide; [done|]. apply H0. lia.
    + eexists (T ++ _). split; [by rewrite HT, HT2, (assoc_L app)|]. intros q.
      unfold frees in HF, HF2. rewrite HF2, HF, elem_of_app. tauto.
  - rewrite Z2Nat.id, Z.add_0_l by done. intros m' (Hv' & Hu' & H0 & T & HT & HF). pose proof (tables_cleared _ _ _ H0) as Hnil.
    rewrite Hnil, app_nil_r in HT. split_and!; [done| |done|].
    + eapply upd_ext; [|exact Hu']. intros va [_ Hva]. by rewrite (proj2 (Z.ltb_lt _ _)).
    + intros q. unfold frees in HF. by rewrite HF, HT.
Qed.

Lemma free_level_wp lvl : (lvl ≤ 3)%nat → free_spec lvl.
Proof.
  induction lvl as [|l IH]; intros Hl pm m N R Hv.
  - by apply (free_loop 0).
  - apply (free_loop (S l)); [done| |done]. intros l' [= <-]. apply IH. lia.
Qed.
