(* ===== verification/PmapProps.v ===== *)
(** * Properties of page maps

    The theorems about the whole page map of an address space: mapping a page,
    linking an interior page map, invalidating a range, freeing, looking up.  The
    last section shows what the code does to interior page maps. *)
From S2P Require Import Prelude Machine Hashtable Ktypes Kmem PageAlloc Pagetree PageRefs PagetreeSpec Pmap PmapSpec PmapThms.

(** [pm] is the page of a page map whose root is a table of level [lvl]: 3 for an
    address space, 1 for an interior page map. *)
Definition root_map (m : pmem) (lvl : nat) (pm : Z) : Prop :=
  ∃ pn i, page_at m pn pm ∧ pm_info m !! pn = Some i ∧ pi_pmap i = true ∧ root_level i = lvl.

(** Dispatch on [pi_pmap_int]. *)
Lemma wp_root_level {A} m lvl pm (f : page_info → M pmem A) Q :
  alloc_inv m → root_map m lvl pm → (∀ i, root_level i = lvl → wp (f i) m Q) →
  wp (pi ← page_to_pageinfo pm; info ← get_info pi; f info) m Q.
Proof.
  intros Ha (pn & i & Hat & Hi & _ & Hint) HQ. wp_pure. eapply page_to_pageinfo_page; [apply Ha|done|]. wp_pure.
  eapply wp_get_info; [done|]. by apply HQ.
Qed.

(** Memory outside the map and what was free is as before. *)
Definition map_frame (m m' : pmem) (lvl : nat) (pm : Z) : Prop :=
  ∀ q, page_live m q → q ≠ pm → q ∉ tables m lvl pm → page_live m' q ∧ pm_page m' !! q = pm_page m !! q.

(** Mapping a page, as the lemma other components use. *)
Lemma as_arch_putpage_wp m lvl pm va pn flags pid node N R :
  pm_inv m lvl pm N R → root_map m lvl pm → in_space lvl va → 0 ≤ pn < mc_npages (pm_conf m) →
  (∃ e, pm_walk m lvl pm va = inl e) → home_node (pm_conf m) pid = Some node →
  wp (as_arch_putpage pm va (page_addr pn) flags pid) m (λ r m',
    pm_inv m' lvl pm N R ∧ map_frame m m' lvl pm ∧
    ((r = 0 ∧ ∃ e, sub e = page_addr pn ∧ bit e PTE_P = true ∧ bit e PTE_U = true ∧
        bit e PTE_W = bit flags SEGMAP_WRITE ∧ bit e PTE_NX = negb (bit flags SEGMAP_EXEC) ∧
        ∀ va', in_space lvl va' →
          pm_walk m' lvl pm va' = if va' / PGSIZE =? va / PGSIZE then inl e else pm_walk m lvl pm va') ∨
     (r = - E_NO_MEM ∧ ∀ va', in_space lvl va' → pm_walk m' lvl pm va' = pm_walk m lvl pm va'))).
Proof.
  intros Hv Hroot Hva Hpn Hopen Hh. pose proof (pv_conf _ _ _ _ _ Hv) as Hc.
  unfold as_arch_putpage. cbv zeta. eapply wp_root_level; [apply Hv|done|]. intros i ->. apply wp_bind.
  eapply wp_mono; [by apply (pgdir_walk_create_wp lvl 0 pm va pid node m N R); [lia|right|..]|].
  intros [r o] m1 (Hv1 & Hu1 & _ & Hres).
  destruct Hres as [(Hr & tb & Htb & Ho)|Hr]; cbn in Hr; subst r.
  2:{ wp_pure. split_and!; [done|exact (u_frame _ _ _ _ _ Hu1)|right]. split; [done|]. intros va' Hva'. by apply Hu1, in_space_user. }
  cbn in Ho. subst o. cbn [the_pte]. wp_pure.
  eapply kva2pa_page; [by rewrite (u_conf _ _ _ _ _ Hu1)|apply page_at_addr; by rewrite (u_conf _ _ _ _ _ Hu1)|]. wp_pure.
  eapply wp_mono; [eapply (entry_set_wp lvl 0 pm va (user_pte pn flags) tb m m1 N R); [lia|done..]|].
  intros [] m' (Hv' & Hw & Hfr). wp_pure. split_and!; [done|done|left]. split; [done|].
  destruct (user_pte_spec pn flags) as (H1 & H2 & H3 & H4 & H5); [destruct Hc; lia|].
  exists (user_pte pn flags). by split_and!.
Qed.
(** C5: [as_arch_putpage] maps the page [pp] at [va] in the page map of an address
    space: the walk for the page of [va] then ends at an entry for [pp] that is
    present, user accessible, writable and executable as [flags] asks; the walk of
    every other address is as before, whatever tables had to be allocated;
    memory outside the page map is not written; and when there is no memory for a
    table, the error is [-E_NO_MEM] and no translation has changed. *)
Theorem as_arch_putpage_maps m lvl pm va pn flags pid node N R :
  pm_inv m lvl pm N R → root_map m lvl pm → in_space lvl va → 0 ≤ pn < mc_npages (pm_conf m) →
  (∃ e, pm_walk m lvl pm va = inl e) → home_node (pm_conf m) pid = Some node →
  wp (as_arch_putpage pm va (page_addr pn) flags pid) m (λ r m',
    pm_inv m' lvl pm N R ∧ map_frame m m' lvl pm ∧
    ((r = 0 ∧ ∃ e, sub e = page_addr pn ∧ bit e PTE_P = true ∧ bit e PTE_U = true ∧
        bit e PTE_W = bit flags SEGMAP_WRITE ∧ bit e PTE_NX = negb (bit flags SEGMAP_EXEC) ∧
        ∀ va', in_space lvl va' →
          pm_walk m' lvl pm va' = if va' / PGSIZE =? va / PGSIZE then inl e else pm_walk m lvl pm va') ∨
     (r = - E_NO_MEM ∧ ∀ va', in_space lvl va' → pm_walk m' lvl pm va' = pm_walk m lvl pm va'))).
Proof. intros. by eapply as_arch_putpage_wp. Qed.

(** C23: [as_arch_putinterior] links the interior page map of another address tree at
    [va]: every address of the same gigabyte then continues in that page map, all
    others translate as before, and linking it again is harmless.  It fails only with
    [-E_NO_MEM], and then no translation has changed. *)
Theorem as_arch_putinterior_links m pm va pc pid node N R :
  pm_inv m 3 pm N R → in_space 3 va → 0 ≤ pc < mc_npages (pm_conf m) → pmap_bit m (page_addr pc) = true →
  pm_ent m 3 2 pm va = 0 ∨ pm_ent m 3 2 pm va = table_ent pc → home_node (pm_conf m) pid = Some node →
  wp (as_arch_putinterior pm va (page_addr pc) pid) m (λ r m',
    pm_inv m' 3 pm N R ∧ map_frame m m' 3 pm ∧
    ((r = 0 ∧ ∀ va', in_space 3 va' →
        pm_walk m' 3 pm va' = if va' / 2 ^ 30 =? va / 2 ^ 30 then inr (page_addr pc) else pm_walk m 3 pm va') ∨
     (r = - E_NO_MEM ∧ ∀ va', in_space 3 va' → pm_walk m' 3 pm va' = pm_walk m 3 pm va'))).
Proof.
  intros Hv Hva Hpc Hbit Hent Hh. pose proof (pv_conf _ _ _ _ _ Hv) as Hc. assert (Hpc' : 0 ≤ pc < 2 ^ 34) by (destruct Hc; lia).
  unfold as_arch_putinterior. apply wp_bind. change (Z.to_nat NPTLVLS) with 3%nat. change (Z.lor PM_TRAV_CREATE PM_TRAV_LINK) with (create_flags 2).
  eapply wp_mono; [by apply (pgdir_walk_create_wp 3 2 pm va pid node m N R); [lia|left|..]|].
  intros [r o] m1 (Hv1 & Hu1 & He1 & Hres).
  assert (Hsame : ∀ va', in_space 3 va' → pm_walk m1 3 pm va' = pm_walk m 3 pm va').
  { intros va' Hva'. by apply Hu1, in_space_user. }
  destruct Hres as [(Hr & tb & Htb & Ho)|Hr]; cbn in Hr; subst r.
  2:{ wp_pure. split_and!; [done|exact (u_frame _ _ _ _ _ Hu1)|by right]. }
  cbn in Ho. subst o. cbn [the_pte]. wp_pure. rewrite <- He1 in Hent. unfold pm_ent in Hent. rewrite Htb in Hent.
  destruct (table_entry m1 3 2 pm va tb N R) as [Hpp _]; [lia|done|by apply in_space_user|done|].
  apply wp_read_pte; [apply PDX_range; lia|done|]. wp_pure.
  assert (Hbit1 : pmap_bit m1 (page_addr pc) = true) by (by rewrite (u_bits _ _ _ _ _ Hu1)).
  eapply kva2pa_page; [by rewrite (u_conf _ _ _ _ _ Hu1)|apply page_at_addr; by rewrite (u_conf _ _ _ _ _ Hu1)|]. wp_pure.
  destruct (ent_link m1 1 pc Hpc' Hbit1) as [Ht1 Hw1], (ent_link m 1 pc Hpc' Hbit) as [Ht0 Hw0].
  destruct Hent as [He|He]; rewrite He.
  - eapply wp_mono; [eapply (entry_set_wp 3 2 pm va (table_ent pc) tb m m1 N R)|].
    1-5: done || lia.
    + right. exists pc. rewrite (u_conf _ _ _ _ _ Hu1), Hbit1. by split.
    + done.
    + by rewrite He.
    + intros va'. unfold ent_end. by rewrite Hw1, Hw0.
    + intros [] m' (Hv' & Hw & Hfr). wp_pure. split_and!; [done|done|left]. split; [done|]. intros va' Hva'.
      rewrite Hw by done. unfold ent_end. by rewrite Hw0.
  - rewrite table_ent_present by lia. apply wp_assert; [apply Z.eqb_eq, lor_low; lia|]. wp_pure.
    split_and!; [done|exact (u_frame _ _ _ _ _ Hu1)|left]. split; [done|]. intros va' Hva'.
    destruct (Z.eqb_spec (va' / 2 ^ 30) (va / 2 ^ 30)) as [Heq|]; [|by apply Hsame].
    rewrite (walk_through m1 3 2 pm va va' tb N R), He; [by unfold ent_end; rewrite Hw1|lia|done|by apply in_space_user|done|].
    unfold agree. rewrite !part_user by done. apply Z.eqb_eq. by symmetry.
Qed.

(** C8: [page_map_invalidate] removes exactly the translations of a range: a page
    between the pages of [first] and [last] has none afterwards, a linked page map is
    unlinked when the range touches its gigabyte, and every other address translates
    as before.  No memory outside the page map is written and no table is
    freed. *)
Theorem page_map_invalidate_clears m lvl pm first last N R :
  pm_inv m lvl pm N R → root_map m lvl pm → in_space lvl first → in_space lvl last →
  wp (page_map_invalidate pm first last) m (λ _ m',
    pm_inv m' lvl pm N R ∧ map_frame m m' lvl pm ∧
    ∀ va, in_space lvl va → pm_walk m' lvl pm va =
      match pm_walk m lvl pm va with
      | inl e => if (first / PGSIZE <=? va / PGSIZE) && (va / PGSIZE <=? last / PGSIZE) && bit e PTE_P then inl 0 else inl e
      | inr c => if (first / 2 ^ 30 <=? va / 2 ^ 30) && (va / 2 ^ 30 <=? last / 2 ^ 30) then inl 0 else inr c
      end).
Proof.
  intros Hv Hroot Hf Hl. destruct (in_space_user _ _ Hl) as (Hlv & Hul & [_ Hw]). unfold page_map_invalidate.
  apply wp_bind, wp_assert; [lia|]. eapply wp_root_level; [apply Hv|done|]. intros i ->.
  eapply wp_mono; [by apply (invalidate_wp lvl)|].
  intros [] m' [Hv' Hu]. split_and!; [done|exact (u_frame _ _ _ _ _ Hu)|]. intros va Hva.
  rewrite (u_walk _ _ _ _ _ Hu) by by apply in_space_user. unfold inval, covered. rewrite !part_user by done.
  change PGSIZE with (2 ^ 12). by destruct (pm_walk m lvl pm va).
Qed.

(** The map of an address space is given up: its page is no page map any more. *)
Lemma links_page m lvl pm q : map_ok m lvl pm → conf_ok (pm_conf m) → q ∈ links m lvl pm → ∃ pn, q = page_addr pn.
Proof.
  intros Hok [Hc _]. revert pm Hok. induction lvl as [|l IH]; intros pm Hok; [by intros ?%elem_of_nil|].
  rewrite links_S, list_elem_of_bind. intros (i & Hq & Hi%elem_of_seqZ).
  destruct (proj2 (proj1 (map_ok_S _ _ _) Hok) i ltac:(lia)) as [He|(pn & Hpn & He & Hb)]; rewrite He in Hq.
  { by apply elem_of_nil in Hq. }
  rewrite ent_linked in Hq by lia. destruct (pmap_bit m (page_addr pn)); [|by eapply IH].
  apply list_elem_of_singleton in Hq. by exists pn.
Qed.
Lemma unmark_bits m pn i q :
  pm_info m !! pn = Some i → q ≠ page_addr pn → (∃ pn', q = page_addr pn') →
  pmap_bit (set_info pn (pi_set_pmap false i) m) q = pmap_bit m q.
Proof.
  intros Hi Hq [pn' ->]. unfold pmap_bit, page_addr, set_info. change PGSIZE with 4096. cbn.
  replace (PHYSBASE + 4096 * pn' - PHYSBASE) with (pn' * 4096) by lia. rewrite Z.div_mul by done.
  rewrite lookup_insert_ne; [done|congruence].
Qed.
Lemma info_free m pn i i' q :
  pm_info m !! pn = Some i → pi_freepage i' = pi_freepage i → page_free_p (set_info pn i' m) q ↔ page_free_p m q.
Proof.
  intros Hi Hf. split; intros (pn' & j & Hat & Hj & Hfj); cbn in Hj |- *; destruct (decide (pn = pn')) as [->|].
  - rewrite lookup_insert_eq in Hj. exists pn', i. split_and!; [done|done|congruence].
  - rewrite lookup_insert_ne in Hj by done. by exists pn', j.
  - exists pn', i'. cbn. rewrite lookup_insert_eq. split_and!; [done|done|congruence].
  - exists pn', j. cbn. by rewrite lookup_insert_ne.
Qed.
Lemma unmark_inv m pm pn i N R :
  pm_inv m 3 pm (pm :: N) R → page_at m pn pm → pm_info m !! pn = Some i → (pm ∉ links m 3 pm) →
  let m1 := set_info pn (pi_set_pmap false i) m in
  pm_inv m1 3 pm (pm :: N) R ∧ tables m1 3 pm = tables m 3 pm ∧
  (∀ q, page_live m1 q ↔ page_live m q) ∧ (∀ q, page_free_p m1 q ↔ page_free_p m q).
Proof.
  intros Hv Hat Hi Hlk m1. pose proof (pv_not_table _ _ _ _ _ Hv) as Hnt. pose proof (pv_conf _ _ _ _ _ Hv) as Hc.
  destruct Hat as [-> Hpn]. fold (page_addr pn) in *.
  destruct (map_ext_on 3 m m1 (page_addr pn) Hc (pv_ok _ _ _ _ _ Hv)) as (HT & HO & _).
  { split_and!; [done| |done]. intros q Hq. apply elem_of_app in Hq. apply unmark_bits; [done|by intros ->; destruct Hq|].
    destruct Hq as [Hq|Hq]; [|eapply links_page; [apply Hv|done|exact Hq]].
    destruct (pv_table_live _ _ _ _ _ _ Hv Hq) as (pn' & _ & [-> _] & _). by exists pn'. }
  assert (Hlive : ∀ q, page_live m1 q ↔ page_live m q) by (intros q; by eapply info_status).
  assert (Hfree : ∀ q, page_free_p m1 q ↔ page_free_p m q) by (intros q; by eapply info_free).
  split_and!; [split|done|done|done].
  - rewrite HT. eapply refs_set_flags; [apply Hv|by apply page_at_addr|done|done|done|done|done|by left].
  - by left.
  - done.
  - intros q Hq. destruct (decide (q = page_addr pn)) as [->|Hne].
    + rewrite (pmap_bit_info _ _ (pi_set_pmap false i)); [done|apply lookup_insert_eq].
    + apply Hfree in Hq. unfold m1. rewrite unmark_bits; [by apply Hv|done|done|]. destruct Hq as (pn' & _ & [-> _] & _). by exists pn'.
Qed.

(** C9: [page_map_free] gives back the page map of an address space and all its
    tables, and nothing else: the free pages are those from before and the map's; the
    rest of the system still owns its pages, with their contents, linked interior page
    maps included. *)
Theorem page_map_free_frees m pm N R :
  pm_inv m 3 pm (pm :: N) R → root_map m 3 pm → (pm ∉ links m 3 pm) →
  wp (page_map_free pm) m (λ _ m',
    refs_inv m' N R ∧ frees m m' (pm :: tables m 3 pm) ∧
    ∀ q, page_live m q → q ≠ pm → q ∉ tables m 3 pm → page_live m' q ∧ pm_page m' !! q = pm_page m !! q).
Proof.
  intros Hv (pn & i & Hat & Hi & Hp & _) Hlk. pose proof (pv_conf _ _ _ _ _ Hv) as Hc. unfold page_map_free.
  wp_pure. eapply page_to_pageinfo_page; [done|done|]. wp_pure. eapply wp_get_info; [done|]. wp_pure.
  apply wp_assert; [done|]. wp_pure. eapply wp_upd_info; [done|]. wp_pure.
  destruct (unmark_inv m pm pn i N R Hv Hat Hi Hlk) as (Hv1 & HT & Hl1 & Hf1).
  set (m1 := set_info pn (pi_set_pmap false i) m) in *. change (Z.to_nat NPTLVLS) with 3%nat.
  eapply wp_mono; [by apply (free_level_wp 3); [lia|]|]. intros [] m2 (Hv2 & Hu2 & HT2 & Hf2).
  pose proof (pv_refs _ _ _ _ _ Hv2) as Hr2. rewrite HT2, app_nil_l in Hr2.
  eapply free_table_wp; [exact Hr2|]. intros m3 Hr3 C3 P3 L3 _ F3. split_and!; [done| |].
  - intros q. unfold frees in F3, Hf2. rewrite F3, Hf2, Hf1, HT, !elem_of_cons, elem_of_nil. tauto.
  - intros q Hq Hne Hqt. destruct (u_frame _ _ _ _ _ Hu2 q) as [Hl2 Hp2]; [by apply Hl1|done|by rewrite HT|].
    split; [by apply L3|]. rewrite P3 by done. exact Hp2.
Qed.

(** ** Looking up *)

(** The tables on the way of an address are readable, no large page is mapped, and
    the entry of a page does not point beyond physical memory. *)
Fixpoint path_ok (m : pmem) (lvl : nat) (pm va : Z) : Prop :=
  is_Some (page_ptrs m pm) ∧
  match lvl with
  | O => let e := node_ptr m pm (PDX (lv lvl) va) in bit e PTE_P = true → sub e ≠ 0
  | S l => let e := node_ptr m pm (PDX (lv lvl) va) in
           bit e PTE_PS = false ∧ (bit e PTE_P = true → path_ok m l (sub e) va)
  end.
(** The entry [pgdir_walk] returns, if any. *)
Fixpoint pte_at (m : pmem) (lvl : nat) (pm va : Z) : option ptep :=
  let e := node_ptr m pm (PDX (lv lvl) va) in
  match lvl with
  | O => if bit e PTE_P then Some (pm, PDX (lv lvl) va) else None
  | S l => if bit e PTE_P then pte_at m l (sub e) va else None
  end.

Lemma traverse_read_wp lvl m pm va base x Q :
  path_ok m lvl pm va →
  Q (0, match pte_at m lvl pm va with Some e => Some e | None => x end) m →
  wp (page_map_traverse_internal lvl pm va va 0 pgdir_walk_cb base 0 x) m Q.
Proof.
  revert pm base Q. induction lvl as [|l IH]; intros pm base Q Hok HQ; cbn [page_map_traverse_internal]; apply trav_once; apply wp_bind;
    destruct Hok as [Hpp Hok]; (apply wp_read_pte; [apply PDX_range; lia|done|]).
  - change (bit 0 PM_TRAV_CREATE) with false. rewrite orb_false_l. cbn [pte_at] in HQ. cbv zeta in HQ.
    destruct (bit (node_ptr m pm (PDX (lv 0) va)) PTE_P); unfold pgdir_walk_cb; wp_pure; (split; [by right|done]).
  - destruct Hok as [Hps Hok]. cbn [pte_at] in HQ. cbv zeta in HQ.
    rewrite Hps, andb_false_r. change (bit 0 PM_TRAV_LINK) with false. change (bit 0 PM_TRAV_CREATE) with false.
    rewrite andb_false_r. cbn [negb]. rewrite andb_true_r, !Z.eqb_refl.
    destruct (bit (node_ptr m pm (PDX (lv (S l)) va)) PTE_P) eqn:Hp; cbn [negb].
    + wp_pure. fold (sub (node_ptr m pm (PDX (lv (S l)) va))). apply IH; [by apply Hok|]. split; [by right|done].
    + wp_pure. split; [by right|done].
Qed.

(** The entry found is the one the processor's walk ends at. *)
Lemma pte_at_walk m lvl pm va :
  path_ok m lvl pm va →
  match pte_at m lvl pm va with
  | Some e => is_Some (page_ptrs m e.1) ∧ 0 ≤ e.2 < 512 ∧ node_ptr m e.1 e.2 = hw_walk m lvl pm va ∧
              bit (hw_walk m lvl pm va) PTE_P = true ∧ sub (hw_walk m lvl pm va) ≠ 0
  | None => bit (hw_walk m lvl pm va) PTE_P = false
  end.
Proof.
  revert pm. induction lvl as [|l IH]; intros pm [Hpp Hok]; cbn [pte_at hw_walk]; cbv zeta.
  - destruct (bit (node_ptr m pm (PDX (lv 0) va)) PTE_P) eqn:Hp; [|done]. split_and!; [done|apply PDX_range; lia|apply PDX_range; lia|done|done|by apply Hok].
  - destruct Hok as [Hps Hok]. rewrite Hps. destruct (bit (node_ptr m pm (PDX (lv (S l)) va)) PTE_P); [|done]. by apply IH, Hok.
Qed.

(** What [page_lookup] returns: the page the processor would use, or 0. *)
Lemma page_lookup_wp m pm va (Q : Z * option ptep → pmem → Prop) :
  path_ok m 3 pm va → 0 ≤ va < ULIM →
  (bit (hw_walk m 3 pm va) PTE_P = false → Q (0, None) m) →
  (∀ e, bit (hw_walk m 3 pm va) PTE_P = true → is_Some (page_ptrs m e.1) → 0 ≤ e.2 < 512 →
     node_ptr m e.1 e.2 = hw_walk m 3 pm va → sub (hw_walk m 3 pm va) ≠ 0 → Q (sub (hw_walk m 3 pm va), Some e) m) →
  wp (page_lookup pm va) m Q.
Proof.
  intros Hok Hva HN HS. pose proof (pte_at_walk m 3 pm va Hok) as Hat. unfold page_lookup.
  rewrite Z.geb_leb, (proj2 (Z.leb_gt _ _)) by lia. apply wp_bind. unfold pgdir_walk.
  rewrite Z.geb_leb, (proj2 (Z.leb_gt _ _)) by lia. apply wp_bind. change (Z.to_nat NPTLVLS) with 3%nat.
  apply traverse_read_wp; [done|]. change (bit 0 PM_TRAV_CREATE) with false. rewrite andb_false_l. wp_pure.
  destruct (pte_at m 3 pm va) as [[tb i]|]; [|wp_pure; by apply HN].
  destruct Hat as (Hpp & Hi & He & Hp & Hs). wp_pure. apply wp_read_pte; [done|done|]. cbn [fst snd] in He. rewrite He, Hp. wp_pure.
  by apply (HS (tb, i)).
Qed.

(** ** A machine with one address space

    Page 0 is the page map of an address space, pages 1, 2 and 4 are its tables for
    the first gigabyte, where page 3 is mapped at [0x1000]; the second gigabyte is
    linked to the interior page map in page 5. *)
Module MapExample.
Definition pmap_info (interior : bool) : page_info := pi_set_pmap_int interior (pi_set_pmap true zero_info).
Definition tbl (l : list (Z * Z)) : page := PgPtrs (list_to_map l).
Definition mem : pmem :=
  PMem Machine2.conf (list_to_map ((λ n, (n, [])) <$> seqZ 0 16)) ∅ 0
    (list_to_map [(0, pmap_info false); (1, zero_info); (2, zero_info); (3, zero_info); (4, zero_info); (5, pmap_info true)])
    (list_to_map [(page_addr 0, tbl [(0, table_ent 1)]);
                  (page_addr 1, tbl [(0, table_ent 2); (1, table_ent 5)]);
                  (page_addr 2, tbl [(0, table_ent 4)]);
                  (page_addr 3, PgJunk);
                  (page_addr 4, tbl [(1, user_pte 3 SEGMAP_WRITE)]);
                  (page_addr 5, PgZero)]).
Definition pm : Z := page_addr 0.
Definition others : list Z := [page_addr 3; page_addr 5].

Fixpoint map_okb (m : pmem) (lvl : nat) (pm : Z) : bool :=
  match page_ptrs m pm with
  | None => false
  | Some _ =>
      match lvl with
      | O => true
      | S l => forallb (λ i,
          let e := node_ptr m pm i in
          let pn := e / 4096 in
          (e =? 0) || ((0 <=? pn) && (pn <? mc_npages (pm_conf m)) && (e =? table_ent pn) &&
            if pmap_bit m (page_addr pn) then Nat.eqb lvl 2 else map_okb m l (page_addr pn))) (seqZ 0 (width lvl))
      end
  end.
Lemma map_okb_sound m lvl p : map_okb m lvl p = true → map_ok m lvl p.
Proof.
  revert p. induction lvl as [|l IH]; intros p; cbn [map_okb]; destruct (page_ptrs m p) eqn:Hp; try discriminate 1.
  - intros _. split; [by eexists|exact I].
  - intros Hall. apply map_ok_S. split; [by eexists|]. intros i Hi.
    pose proof (forallb_seqZ _ _ _ i Hall ltac:(lia)) as H. cbv beta zeta in H.
    apply orb_true_iff in H as [H%Z.eqb_eq|H]; [by left|right]. rewrite !andb_true_iff in H.
    destruct H as [[[H1%Z.leb_le H2%Z.ltb_lt] H3%Z.eqb_eq] H4]. exists (node_ptr m p i / 4096). split; [lia|]. split; [done|].
    destruct (pmap_bit m _); [by apply Nat.eqb_eq|by apply IH].
Qed.

Definition cleanb (m : pmem) : bool :=
  forallb (λ ki, negb (pi_freepage ki.2 && pi_pmap ki.2)) (map_to_list (pm_info m)).
Lemma cleanb_sound m : cleanb m = true → clean m.
Proof.
  intros Hc q (pn & i & [-> _] & Hi & Hf). fold (page_addr pn). rewrite (pmap_bit_info _ _ i) by done.
  apply elem_of_map_to_list, (forallb_elem _ _ _ Hc) in Hi. cbn in Hi. rewrite Hf in Hi. by destruct (pi_pmap i).
Qed.

Lemma inv : pm_inv mem 3 pm (pm :: others) [].
Proof.
  assert (HT : tables mem 3 pm = [page_addr 1; page_addr 2; page_addr 4]) by (vm_compute; reflexivity).
  split; [rewrite HT| |apply map_okb_sound; vm_compute; reflexivity|].
  - apply startb_sound. vm_compute. reflexivity.
  - by left.
  - apply cleanb_sound. vm_compute. reflexivity.
Qed.
Lemma root : root_map mem 3 pm.
Proof. exists 0, (pmap_info false). split; [split; [done|cbn; lia]|]. done. Qed.
End MapExample.

Lemma as_arch_putpage_maps_witness :
  pm_walk MapExample.mem 3 MapExample.pm 0x2000 = inl 0 ∧
  wp (as_arch_putpage MapExample.pm 0x2000 (page_addr 3) SEGMAP_EXEC 0) MapExample.mem (λ r m', r = 0 ∨ r = - E_NO_MEM).
Proof.
  split; [vm_compute; reflexivity|].
  eapply wp_mono; [eapply (as_arch_putpage_maps MapExample.mem 3 MapExample.pm 0x2000 3 SEGMAP_EXEC 0 0)|].
  - exact MapExample.inv.
  - exact MapExample.root.
  - unfold in_space, ULIM. lia.
  - cbn. lia.
  - exists 0. vm_compute. reflexivity.
  - vm_compute. reflexivity.
  - intros r m' (_ & _ & [(-> & _)|(-> & _)]); [by left|by right].
Defined.
Lemma as_arch_putinterior_links_witness :
  pm_walk MapExample.mem 3 MapExample.pm 0x80000000 = inl 0 ∧
  wp (as_arch_putinterior MapExample.pm 0x80000000 (page_addr 5) 0) MapExample.mem (λ r m', r = 0 ∨ r = - E_NO_MEM).
Proof.
  split; [vm_compute; reflexivity|].
  eapply wp_mono; [eapply (as_arch_putinterior_links MapExample.mem MapExample.pm 0x80000000 5 0 0)|].
  - exact MapExample.inv.
  - unfold in_space, ULIM. lia.
  - cbn. lia.
  - vm_compute. reflexivity.
  - left. vm_compute. reflexivity.
  - vm_compute. reflexivity.
  - intros r m' (_ & _ & [(-> & _)|(-> & _)]); [by left|by right].
Defined.
Lemma page_map_invalidate_clears_witness :
  pm_walk MapExample.mem 3 MapExample.pm 0x1234 = inl (user_pte 3 SEGMAP_WRITE) ∧
  wp (page_map_invalidate MapExample.pm 0x1000 0x1fff) MapExample.mem (λ _ m', pm_walk m' 3 MapExample.pm 0x1234 = inl 0).
Proof.
  split; [vm_compute; reflexivity|].
  eapply wp_mono; [eapply (page_map_invalidate_clears MapExample.mem 3 MapExample.pm 0x1000 0x1fff)|].
  - exact MapExample.inv.
  - exact MapExample.root.
  - unfold in_space, ULIM. lia.
  - unfold in_space, ULIM. lia.
  - intros [] m' (_ & _ & Hw). rewrite Hw by (unfold in_space, ULIM; lia). vm_compute. reflexivity.
Defined.
Lemma page_map_free_frees_witness :
  wp (page_map_free MapExample.pm) MapExample.mem (λ _ m', page_free_p m' (page_addr 4) ∧ page_live m' (page_addr 5)).
Proof.
  eapply wp_mono; [eapply (page_map_free_frees MapExample.mem MapExample.pm MapExample.others [])|].
  - exact MapExample.inv.
  - exact MapExample.root.
  - apply (bool_decide_unpack _). vm_compute. exact I.
  - intros [] m' (_ & Hf & Hk). split.
    + apply Hf. right. apply (bool_decide_unpack _). vm_compute. exact I.
    + apply Hk; [|discriminate|apply (bool_decide_unpack _); vm_compute; exact I].
      eapply (refs_node_live MapExample.mem _ []); [apply MapExample.inv|]. apply (bool_decide_unpack _). vm_compute. exact I.
Defined.

(** [path_ok] decided. *)
Fixpoint path_okb (m : pmem) (lvl : nat) (pm va : Z) : bool :=
  let e := node_ptr m pm (PDX (lv lvl) va) in
  match page_ptrs m pm with
  | None => false
  | Some _ =>
      match lvl with
      | O => negb (bit e PTE_P && (sub e =? 0))
      | S l => negb (bit e PTE_PS) && (negb (bit e PTE_P) || path_okb m l (sub e) va)
      end
  end.
Lemma path_okb_sound m lvl pm va : path_okb m lvl pm va = true → path_ok m lvl pm va.
Proof.
  revert pm. induction lvl as [|l IH]; intros pm; cbn [path_okb]; cbv zeta; destruct (page_ptrs m pm) eqn:Hp; try discriminate 1.
  - intros Hb. split; [by eexists|]. cbv zeta. intros Hpr. rewrite Hpr in Hb. by apply Z.eqb_neq, negb_true_iff.
  - rewrite andb_true_iff. intros [Hps%negb_true_iff Hb]. split; [by eexists|]. cbv zeta. split; [done|]. intros Hpr.
    rewrite Hpr in Hb. by apply IH.
Qed.

(** ** Freeing interior page maps

    Page 3 is a user page of a segment, with one reference.  The page map of an
    interior address tree is allocated and, as [at_alloc] of kern/kern/at.c does,
    cleared; a fault maps page 3 in it, and the tree is collected ([at_gc_cb]). *)
Module InteriorExample.
Definition mem : pmem := set_info 3 (pi_set_ref 1 zero_info) (set_page (page_addr 3) PgZero Machine2.mem).
Definition run (bootpml4 : gmap Z Z) : M pmem (Z * Z) :=
  '(r, pm) ← page_map_alloc bootpml4 true 0;
  write_page pm PgZero;;
  r' ← as_arch_putpage pm 0x1000 (page_addr 3) SEGMAP_WRITE 0;
  page_map_free pm;;
  mret (r, r').
End InteriorExample.

(** Freeing the page map of an interior address tree frees user pages.
    [page_map_free] always starts at the top level, but an interior page map is a
    table of level 1: its level-0 tables are taken for tables of level 2 and the user
    pages mapped in them for tables of level 1, so they are cleared and freed.  Here
    the page of a segment, with a reference, ends on the free list. *)
Theorem interior_page_map_free_bug bootpml4 :
  wp (InteriorExample.run bootpml4) InteriorExample.mem (λ r m',
    r = (0, 0) ∧ pi_ref <$> pm_info m' !! 3 = Some 1 ∧ pi_freepage <$> pm_info m' !! 3 = Some true).
Proof. vm_compute. done. Qed.
