(* ===== verification/Kobj.v ===== *)
(** * Kernel objects (kern/kern/kobj.c, kern/kern/id.c, inc/queue.h)

    The state of the object layer: memory, in which every object fills a page, and the
    global variables of kobj.c, id.c, share.c and processor.c.  Lists are the intrusive
    ones of inc/queue.h: each element holds the address of the next element and the
    address of the pointer that points to it.

    The code runs on the CPU [mc_cpu] of the memory's configuration. *)
From S2P Require Import Prelude Machine Hashtable Locks Ktypes Kmem PageAlloc Pagetree KMap.

(** What the layer tells other CPUs and the hardware, newest first: an interrupt that
    halts or flushes another CPU, a timer rate, a page map loaded. *)
Inductive event := EHalt (pid : Z) | EFlush (pid : Z) | ETimer (pid hz : Z) | EPmap (pgmap : Z).

(** Arrays with one element for each CPU are maps with default 0. *)
Record kern := Kern {
  kn_mem : pmem;
  kn_gc : gmap Z Z;         (* ko_gc_list[].lh_first *)
  kn_ci : gmap Z Z;         (* sh_ci_list[].lh_first *)
  kn_rm : gmap Z Z;         (* sh_rm_list[].lh_first *)
  kn_id : gmap Z Z;         (* id_counter[] *)
  kn_procs : gmap Z Z;      (* processors[] *)
  kn_pfree : gmap Z Z;      (* processor_free[] *)
  kn_ncpu : Z;
  kn_stk : Z;               (* where the local variables of [rehash] are *)
  kn_events : list event;
}.
Definition set_mem (m : pmem) (s : kern) : kern :=
  Kern m (kn_gc s) (kn_ci s) (kn_rm s) (kn_id s) (kn_procs s) (kn_pfree s) (kn_ncpu s) (kn_stk s) (kn_events s).
Definition set_gc (g : gmap Z Z) (s : kern) : kern :=
  Kern (kn_mem s) g (kn_ci s) (kn_rm s) (kn_id s) (kn_procs s) (kn_pfree s) (kn_ncpu s) (kn_stk s) (kn_events s).
Definition set_ci (g : gmap Z Z) (s : kern) : kern :=
  Kern (kn_mem s) (kn_gc s) g (kn_rm s) (kn_id s) (kn_procs s) (kn_pfree s) (kn_ncpu s) (kn_stk s) (kn_events s).
Definition set_rm (g : gmap Z Z) (s : kern) : kern :=
  Kern (kn_mem s) (kn_gc s) (kn_ci s) g (kn_id s) (kn_procs s) (kn_pfree s) (kn_ncpu s) (kn_stk s) (kn_events s).
Definition set_id (g : gmap Z Z) (s : kern) : kern :=
  Kern (kn_mem s) (kn_gc s) (kn_ci s) (kn_rm s) g (kn_procs s) (kn_pfree s) (kn_ncpu s) (kn_stk s) (kn_events s).
Definition set_procs (g : gmap Z Z) (s : kern) : kern :=
  Kern (kn_mem s) (kn_gc s) (kn_ci s) (kn_rm s) (kn_id s) g (kn_pfree s) (kn_ncpu s) (kn_stk s) (kn_events s).
Definition set_pfree (g : gmap Z Z) (s : kern) : kern :=
  Kern (kn_mem s) (kn_gc s) (kn_ci s) (kn_rm s) (kn_id s) (kn_procs s) g (kn_ncpu s) (kn_stk s) (kn_events s).
Definition log (e : event) : M kern unit := modify (λ s,
  Kern (kn_mem s) (kn_gc s) (kn_ci s) (kn_rm s) (kn_id s) (kn_procs s) (kn_pfree s) (kn_ncpu s) (kn_stk s) (e :: kn_events s)).

Definition per_cpu (g : gmap Z Z) (cpu : Z) : Z := default 0 (g !! cpu).
(** Running code that only touches memory. *)
Definition on_kmem {A} (c : M pmem A) : M kern A := zoom kn_mem set_mem c.
Definition cpu_id : M kern Z := on_kmem arch_cpu.
(** Enough for a loop over a list: a page holds at most 128 elements. *)
Definition list_fuel (s : kern) : nat := S (Z.to_nat (128 * mc_npages (pm_conf (kn_mem s)))).

(** ** Access to objects and to the structs in pages *)

Definition as_kobj (c : page) : option kobject := match c with PgKobj k => Some k | _ => None end.
Definition as_uams (c : page) : option (gmap Z u_address_mapping) :=
  match c with PgUams u => Some u | PgZero => Some ∅ | _ => None end.
Definition as_ams (c : page) : option (gmap Z address_mapping2) :=
  match c with PgAms u => Some u | PgZero => Some ∅ | _ => None end.
Definition as_blobs (c : page) : option (gmap Z share_blob) :=
  match c with PgBlobs u => Some u | PgZero => Some ∅ | _ => None end.

Definition kobj_at (s : kern) (p : Z) : option kobject := pm_page (kn_mem s) !! p ≫= as_kobj.
Definition get_ko (p : Z) : M kern kobject := deref (λ s, kobj_at s p).
Definition put_ko (p : Z) (k : kobject) : M kern unit := modify (λ s, set_mem (set_page p (PgKobj k) (kn_mem s)) s).
Definition upd_ko (p : Z) (f : kobject → kobject) : M kern unit := k ← get_ko p; put_ko p (f k).
Definition set_hdr (h : kobject_hdr) (k : kobject) : kobject := Kobject h (ko_body k) (ko_gc_link k).
Definition set_body (b : kobj_body) (k : kobject) : kobject := Kobject (ko_hdr k) b (ko_gc_link k).
Definition set_gc_link (l : link) (k : kobject) : kobject := Kobject (ko_hdr k) (ko_body k) l.
Definition get_hdr (p : Z) : M kern kobject_hdr := k ← get_ko p; mret (ko_hdr k).
Definition upd_hdr (p : Z) (f : kobject_hdr → kobject_hdr) : M kern unit := upd_ko p (λ k, set_hdr (f (ko_hdr k)) k).

(** The members of the union.  An object of another type is not there. *)
Definition the_sg (k : kobject) : option Segment := match ko_body k with KSg x => Some x | _ => None end.
Definition the_at (k : kobject) : option Address_tree := match ko_body k with KAt x => Some x | _ => None end.
Definition the_ps (k : kobject) : option Processor := match ko_body k with KPs x => Some x | _ => None end.
Definition the_sh (k : kobject) : option Share := match ko_body k with KSh x => Some x | _ => None end.
Definition obj_sg (s : kern) (p : Z) : option Segment := kobj_at s p ≫= the_sg.
Definition obj_at (s : kern) (p : Z) : option Address_tree := kobj_at s p ≫= the_at.
Definition obj_ps (s : kern) (p : Z) : option Processor := kobj_at s p ≫= the_ps.
Definition obj_sh (s : kern) (p : Z) : option Share := kobj_at s p ≫= the_sh.
Definition get_sg (p : Z) : M kern Segment := deref (λ s, obj_sg s p).
Definition get_at (p : Z) : M kern Address_tree := deref (λ s, obj_at s p).
Definition get_ps (p : Z) : M kern Processor := deref (λ s, obj_ps s p).
Definition get_sh (p : Z) : M kern Share := deref (λ s, obj_sh s p).
Definition put_sg (p : Z) (x : Segment) : M kern unit := upd_ko p (set_body (KSg x)).
Definition put_at (p : Z) (x : Address_tree) : M kern unit := upd_ko p (set_body (KAt x)).
Definition put_ps (p : Z) (x : Processor) : M kern unit := upd_ko p (set_body (KPs x)).
Definition put_sh (p : Z) (x : Share) : M kern unit := upd_ko p (set_body (KSh x)).
Definition upd_sg (p : Z) (f : Segment → Segment) : M kern unit := x ← get_sg p; put_sg p (f x).
Definition upd_at (p : Z) (f : Address_tree → Address_tree) : M kern unit := x ← get_at p; put_at p (f x).
Definition upd_ps (p : Z) (f : Processor → Processor) : M kern unit := x ← get_ps p; put_ps p (f x).
Definition upd_sh (p : Z) (f : Share → Share) : M kern unit := x ← get_sh p; put_sh p (f x).

(** Structs in pages: the page of an address and the index of the struct of size [sz]. *)
Definition page_of (a : Z) : Z := ROUNDDOWN a PGSIZE.
Definition elem_slot (sz a : Z) : option Z :=
  if ((a - page_of a) mod sz =? 0) && ((a - page_of a) / sz <? PGSIZE / sz) then Some ((a - page_of a) / sz) else None.
Definition elem_at {A} (sz : Z) (view : page → option (gmap Z A)) (z : A) (m : pmem) (a : Z) : option A :=
  match elem_slot sz a, pm_page m !! page_of a ≫= view with
  | Some i, Some l => Some (default z (l !! i))
  | _, _ => None
  end.
Definition put_elem {A} (sz : Z) (view : page → option (gmap Z A)) (mk : gmap Z A → page) (a : Z) (x : A) : M pmem unit :=
  '(i, l) ← deref (λ m, match elem_slot sz a, pm_page m !! page_of a ≫= view with
                        | Some i, Some l => Some (i, l) | _, _ => None end);
  modify (set_page (page_of a) (mk (<[i := x]> l))).

Definition UAM_SIZE : Z := 56.
Definition AM_SIZE : Z := 80.
Definition BLOB_SIZE : Z := 40.
Definition uam_at (m : pmem) (a : Z) : option u_address_mapping := elem_at UAM_SIZE as_uams zero_uam m a.
Definition am_at (m : pmem) (a : Z) : option address_mapping2 := elem_at AM_SIZE as_ams zero_am m a.
Definition blob_at (m : pmem) (a : Z) : option share_blob := elem_at BLOB_SIZE as_blobs (BLink null_link) m a.
Definition get_uam (a : Z) : M kern u_address_mapping := deref (λ s, uam_at (kn_mem s) a).
Definition put_uam (a : Z) (x : u_address_mapping) : M kern unit := on_kmem (put_elem UAM_SIZE as_uams PgUams a x).
Definition get_am (a : Z) : M kern address_mapping2 := deref (λ s, am_at (kn_mem s) a).
Definition put_am (a : Z) (x : address_mapping2) : M kern unit := on_kmem (put_elem AM_SIZE as_ams PgAms a x).
Definition get_blob (a : Z) : M kern share_blob := deref (λ s, blob_at (kn_mem s) a).
Definition put_blob (a : Z) (x : share_blob) : M kern unit := on_kmem (put_elem BLOB_SIZE as_blobs PgBlobs a x).

(** ** Lists *)

(** The [LIST_ENTRY] an element has in the lists of a head. *)
Definition set_am_link (l : link) (a : address_mapping2) : address_mapping2 :=
  Am (am_lock a) (am_kobj a) (am_parent a) (am_ps a) (am_sh a) (am_va_first a) (am_va_last a) (am_at_slot a) l.
Definition set_ps_at_link (l : link) (p : Processor) : Processor :=
  MkPs (ps_tf p) (ps_fp_enabled p) (ps_pid p) (ps_running p) (ps_halt p) (ps_interval_hz p) (ps_mode p)
       (ps_sharemap p) (ps_monitor_obj p) (ps_at p) (ps_atref p) l.
Definition action_of (b : share_blob) : option share_action := match b with BAction a => Some a | _ => None end.
Definition link_of (b : share_blob) : option link := match b with BLink l => Some l | _ => None end.
Definition link_at (s : kern) (h : lhead) (e : Z) : option link :=
  match h with
  | HGc _ => ko_gc_link <$> kobj_at s e
  | HCi _ | HRm _ => match blob_at (kn_mem s) e with Some b => sa_link <$> action_of b | None => None end
  | HBlob _ _ => match blob_at (kn_mem s) e with Some b => link_of b | None => None end
  | HAml _ => am_link <$> am_at (kn_mem s) e
  | HPs _ => ps_at_link <$> obj_ps s e
  end.
Definition get_link (h : lhead) (e : Z) : M kern link := deref (λ s, link_at s h e).
Definition put_link (h : lhead) (e : Z) (l : link) : M kern unit :=
  match h with
  | HGc _ => upd_ko e (set_gc_link l)
  | HCi _ | HRm _ => b ← get_blob e; match action_of b with
                                     | Some a => put_blob e (BAction (ShAction (sa_sh a) (sa_si a) (sa_dec a) l))
                                     | None => undef end
  | HBlob _ _ => put_blob e (BLink l)
  | HAml _ => a ← get_am e; put_am e (set_am_link l a)
  | HPs _ => upd_ps e (set_ps_at_link l)
  end.

(** The struct that holds a head. *)
Definition set_sg_map_list (l : address_map_list) (x : Segment) : Segment := Seg l (sg_pages x).
Definition set_at_map_list (l : address_map_list) (x : Address_tree) : Address_tree :=
  MkAt (at_ps_list x) (at_ps_list_lock x) (at_pgmap x) (at_pgmap_lock x) (at_utrap_entry x) (at_utrap_stack_base x)
       (at_utrap_stack_top x) (at_interior x) l (at_map_lock x) (at_uaddrmap x) (at_addrmap x) (at_obj x) (at_obj_lock x) (at_range x).
Definition set_at_ps_list (l : Z) (x : Address_tree) : Address_tree :=
  MkAt l (at_ps_list_lock x) (at_pgmap x) (at_pgmap_lock x) (at_utrap_entry x) (at_utrap_stack_base x)
       (at_utrap_stack_top x) (at_interior x) (at_map_list x) (at_map_lock x) (at_uaddrmap x) (at_addrmap x) (at_obj x) (at_obj_lock x) (at_range x).
Definition set_sh_blob (l : list share_store) (x : Share) : Share := MkShare (sh_kobject_map x) l (sh_kobject_lock x) (sh_mask x).
Definition store_at (sh : Share) (cpu : Z) : option share_store := sh_blob sh !! Z.to_nat cpu.
(** [aml_get_list]: segments and address trees have a list of mappings. *)
Definition aml_of (k : kobject) : option address_map_list :=
  match ko_body k with KSg x => Some (sg_map_list x) | KAt x => Some (at_map_list x) | _ => None end.
Definition set_aml (l : address_map_list) (b : kobj_body) : kobj_body :=
  match b with KSg x => KSg (set_sg_map_list l x) | KAt x => KAt (set_at_map_list l x) | _ => b end.

Definition first_at (s : kern) (h : lhead) : option Z :=
  match h with
  | HGc c => Some (per_cpu (kn_gc s) c)
  | HCi c => Some (per_cpu (kn_ci s) c)
  | HRm c => Some (per_cpu (kn_rm s) c)
  | HBlob p c => match obj_sh s p with Some x => ss_free <$> store_at x c | None => None end
  | HAml p => match kobj_at s p with Some k => aml_first <$> aml_of k | None => None end
  | HPs p => at_ps_list <$> obj_at s p
  end.
(** [LIST_FIRST] *)
Definition LIST_FIRST (h : lhead) : M kern Z := deref (λ s, first_at s h).
Definition set_first (h : lhead) (e : Z) : M kern unit :=
  match h with
  | HGc c => modify (λ s, set_gc (<[c := e]> (kn_gc s)) s)
  | HCi c => modify (λ s, set_ci (<[c := e]> (kn_ci s)) s)
  | HRm c => modify (λ s, set_rm (<[c := e]> (kn_rm s)) s)
  | HBlob p c => x ← get_sh p;
                 match store_at x c with
                 | Some b => put_sh p (set_sh_blob (<[Z.to_nat c := ShStore e (ss_npages b) (ss_pt b)]> (sh_blob x)) x)
                 | None => undef end
  | HAml p => k ← get_ko p;
              match aml_of k with
              | Some l => put_ko p (set_body (set_aml (Aml e (aml_lock l)) (ko_body k)) k)
              | None => undef end
  | HPs p => upd_at p (set_at_ps_list e)
  end.
(** The bytes a link is written over: a blob that was in use holds no link yet. *)
Definition raw_link (s : kern) (h : lhead) (e : Z) : option link :=
  match h with
  | HBlob _ _ => match blob_at (kn_mem s) e with Some b => Some (default null_link (link_of b)) | None => None end
  | _ => link_at s h e
  end.
Definition LIST_NEXT (h : lhead) (e : Z) : M kern Z := l ← get_link h e; mret (le_next l).
Definition set_next (h : lhead) (e x : Z) : M kern unit := l ← deref (λ s, raw_link s h e); put_link h e (Link x (le_prev l)).
Definition set_prev (h : lhead) (e : Z) (p : option lptr) : M kern unit := l ← deref (λ s, raw_link s h e); put_link h e (Link (le_next l) p).
(** [*p = x] through a [le_prev]. *)
Definition set_through (h : lhead) (p : option lptr) (x : Z) : M kern unit :=
  match p with Some (PHead h') => set_first h' x | Some (PNext e) => set_next h e x | None => undef end.

Definition LIST_INIT (h : lhead) : M kern unit := set_first h 0.
Definition LIST_INSERT_HEAD (h : lhead) (e : Z) : M kern unit :=
  x ← LIST_FIRST h;
  set_next h e x;;
  when (negb (x =? 0)) (set_prev h x (Some (PNext e)));;
  set_first h e;;
  set_prev h e (Some (PHead h)).
Definition LIST_REMOVE (h : lhead) (e : Z) : M kern unit :=
  l ← get_link h e;
  when (negb (le_next l =? 0)) (set_prev h (le_next l) (le_prev l));;
  set_through h (le_prev l) (le_next l).

(** ** Identifiers (kern/kern/id.c) *)

Definition id_alloc : M kern Z :=
  cpu ← cpu_id;
  s ← get;
  let x := u64 (per_cpu (kn_id s) cpu + 1) in
  modify (λ s, set_id (<[cpu := x]> (kn_id s)) s);;
  if negb (Z.land x 0xFF00000000000000 =? 0) then panic
  else mret (Z.lor x (u64 (Z.shiftl cpu 56))).

(** ** Objects (kern/kern/kobj.c) *)

(** 64-bit counters (kern/arch/amd64/atomic64.h). *)
Definition jos_atomic_inc64 (v : Z) : Z := u64 (v + 1).
Definition jos_atomic_dec64 (v : Z) : Z := u64 (v - 1).

(** What [memset(ko, 0, sizeof(struct kobject))] leaves, seen as an object of each type. *)
Definition zero_darray : darray := Darray zero_tree 0 0 0 0 0 false.
Definition zero_map : Map := map_init 0.
Definition zero_store : share_store := ShStore 0 0 zero_tree.
Definition zero_tf : Trapframe := MkTf 0 0 0 0 0 0 0 0 0 0 0 0 0 0 0 0 0 0 0 0 0 0 0 0.
Definition NDEVICES_PER_MONITOR : Z := 32.
Definition zero_body (type : Z) : kobj_body :=
  if type =? kobj_segment then KSg (Seg (Aml 0 false) zero_darray)
  else if type =? kobj_address_tree then
    KAt (MkAt 0 (Rec.Reclock 0 0) 0 false 0 0 0 false (Aml 0 false) 0 zero_darray zero_darray
              (AtObj (Sobj 0 0) 0 0) false (AtRange 0 0 0))
  else if type =? kobj_processor then
    KPs (MkPs zero_tf false 0 false false 0 0 (MkSharemap false zero_map 0 0)
              (replicate (Z.to_nat NDEVICES_PER_MONITOR) (Sobj 0 0)) 0 (Sobj 0 0) null_link)
  else if type =? kobj_share then
    KSh (MkShare zero_map (replicate (Z.to_nat JOS_NCPU) zero_store) (McsRw false 0) 0)
  else KDv 0.

Definition kobject_gc_collect (ko : Z) : M kern unit := cpu ← cpu_id; LIST_INSERT_HEAD (HGc cpu) ko.

(** Returns the error code and, when it is 0, the object. *)
Definition kobject_alloc (type pid : Z) : M kern (Z * Z) :=
  '(r, p) ← on_kmem (page_alloc pid);
  if r <? 0 then mret (r, 0) else
  on_kmem (write_page p (PgKobj (Kobject (KoHdr 0 0 (replicate (Z.to_nat JOS_KOBJ_NAME_LEN) 0) 0 false 0) (zero_body type) null_link)));;
  upd_hdr p (λ h, KoHdr (ko_id h) type (ko_name h) (ko_ref h) (ko_lock h) (ko_pid h));;
  id ← id_alloc;
  upd_hdr p (λ h, KoHdr id (ko_type h) (ko_name h) (ko_ref h) (ko_lock h) pid);;
  kobject_gc_collect p;;
  mret (0, p).

Definition set_ref (r : Z) (h : kobject_hdr) : kobject_hdr :=
  KoHdr (ko_id h) (ko_type h) (ko_name h) r (ko_lock h) (ko_pid h).
Definition kobject_getref (kp : Z) : M kern Z := h ← get_hdr kp; mret (ko_ref h).
Definition kobject_incref (kp : Z) : M kern unit := upd_hdr kp (λ h, set_ref (jos_atomic_inc64 (ko_ref h)) h).
Definition kobject_decref (kp : Z) : M kern unit :=
  n ← kobject_getref kp;
  c_assert (negb (n =? 0));;
  upd_hdr kp (λ h, set_ref (jos_atomic_dec64 (ko_ref h)) h);;
  n ← kobject_getref kp;
  when (n =? 0) (kobject_gc_collect kp).

(** [strncpy] of at most 31 bytes up to the first 0, filled up with zeros. *)
Fixpoint until_nul (n : nat) (l : list Z) : list Z :=
  match n, l with
  | S n', c :: l' => if c =? 0 then [] else c :: until_nul n' l'
  | _, _ => []
  end.
Definition kobject_set_name (kp : Z) (name : list Z) : M kern unit :=
  let n := until_nul (Z.to_nat (JOS_KOBJ_NAME_LEN - 1)) name in
  upd_hdr kp (λ h, KoHdr (ko_id h) (ko_type h) (n ++ replicate (Z.to_nat JOS_KOBJ_NAME_LEN - length n) 0)
                         (ko_ref h) (ko_lock h) (ko_pid h)).

Definition kobject_free (ko : Z) : M kern unit := on_kmem (page_free ko).

(** [lock_kobj] and [unlock_kobj] (kern/kern/lockmacro.h) *)
Definition set_lock (b : bool) (h : kobject_hdr) : kobject_hdr :=
  KoHdr (ko_id h) (ko_type h) (ko_name h) (ko_ref h) b (ko_pid h).
Definition lock_kobj (ko : Z) : M kern unit :=
  h ← get_hdr ko; if ko_lock h then crash Hang else upd_hdr ko (set_lock true).
Definition unlock_kobj (ko : Z) : M kern unit := upd_hdr ko (set_lock false).
Definition assert_locked (ko : Z) : M kern unit := h ← get_hdr ko; c_assert (ko_lock h).
