(* ===== verification/Share.v ===== *)
(** * Shares (kern/kern/share.c, kern/kern/sharemap.c)

    A share is a table of kernel objects by identifier: a kernel map from identifiers to
    blobs.  A blob holds the object, how many times it was added, and how many system
    calls have it checked out; dropping an object and giving back one that was checked
    out are deferred to lists of actions, for which blobs are used too.  A processor has
    a table of shares, its [Sharemap].

    The code that runs when an object leaves a share (the callbacks [remove_cb] and
    [scope_cb]) is in At.v, and with it [share_gc_cb], [share_scope_change],
    [sharemap_remove] and [sharemap_clear]. *)
From S2P Require Import Prelude Machine Hashtable Locks Ktypes Kmem PageAlloc Pagetree KMap Mcsrw Kobj.

(** ** Locks of shares, taken by one CPU at a time *)
Definition mcsrw_init : mcsrwlock := McsRw false Mcsrw.MCSRW_BIAS.
Definition mcsrw_read_lock (w : mcsrwlock) : M kern mcsrwlock :=
  if 0 <=? s32 (u32 (mw_x w - 1)) then mret (McsRw (mw_ml w) (u32 (mw_x w - 1))) else crash Hang.
Definition mcsrw_read_unlock (w : mcsrwlock) : mcsrwlock := McsRw (mw_ml w) (u32 (mw_x w + 1)).
Definition mcsrw_write_lock (w : mcsrwlock) : M kern mcsrwlock :=
  if mw_ml w then crash Hang
  else if u32 (mw_x w - Mcsrw.MCSRW_BIAS) =? 0 then mret (McsRw true 0) else crash Hang.
Definition mcsrw_write_unlock (w : mcsrwlock) : mcsrwlock := McsRw false (u32 (mw_x w + Mcsrw.MCSRW_BIAS)).

Definition set_sh_lock (w : mcsrwlock) (x : Share) : Share := MkShare (sh_kobject_map x) (sh_blob x) w (sh_mask x).
Definition set_sh_map (mp : Map) (x : Share) : Share := MkShare mp (sh_blob x) (sh_kobject_lock x) (sh_mask x).
Definition sharemu_read_lock (sh : Z) : M kern unit :=
  x ← get_sh sh; w ← mcsrw_read_lock (sh_kobject_lock x); put_sh sh (set_sh_lock w x).
Definition sharemu_read_unlock (sh : Z) : M kern unit :=
  upd_sh sh (λ x, set_sh_lock (mcsrw_read_unlock (sh_kobject_lock x)) x).
Definition sharemu_write_lock (sh : Z) : M kern unit :=
  x ← get_sh sh; w ← mcsrw_write_lock (sh_kobject_lock x); put_sh sh (set_sh_lock w x).
Definition sharemu_write_unlock (sh : Z) : M kern unit :=
  upd_sh sh (λ x, set_sh_lock (mcsrw_write_unlock (sh_kobject_lock x)) x).

(** Running map code on a map that is part of an object: the struct is read, the code
    runs on memory and struct, and the struct is written back. *)
Definition on_map {A} (get_mp : M kern Map) (put_mp : Map → M kern unit) (c : M kst A) : M kern A :=
  mp ← get_mp;
  '(a, mp') ← on_kmem (λ m, match c (Kst m mp) with Ret a (Kst m' mp') => Ret (a, mp') m' | Crash f => Crash f end);
  put_mp mp';;
  mret a.
Definition on_sh_map {A} (sh : Z) (c : M kst A) : M kern A :=
  on_map (x ← get_sh sh; mret (sh_kobject_map x)) (λ mp, upd_sh sh (set_sh_map mp)) c.

(** ** Shares *)

Definition share_alloc (kobj_mask pid : Z) : M kern (Z * Z) :=
  '(r, ko) ← kobject_alloc kobj_share pid;
  if r <? 0 then mret (r, 0) else
  upd_sh ko (set_sh_map (map_init pid));;
  upd_sh ko (λ x, set_sh_blob ((λ b, ShStore 0 (ss_npages b) (ss_pt b)) <$> sh_blob x) x);;
  upd_sh ko (set_sh_lock mcsrw_init);;
  upd_sh ko (λ x, set_sh_blob ((λ b, ShStore (ss_free b) (ss_npages b) (pagetree_init false pid)) <$> sh_blob x) x);;
  upd_sh ko (λ x, MkShare (sh_kobject_map x) (sh_blob x) (sh_kobject_lock x) (s32 kobj_mask));;
  mret (0, ko).

Definition N_SHAREBLOB_PER_PAGE : Z := PGSIZE / BLOB_SIZE.
Definition get_store (sh cpu : Z) : M kern share_store := x ← get_sh sh; deref (λ _, store_at x cpu).
Definition put_store (sh cpu : Z) (b : share_store) : M kern unit :=
  upd_sh sh (λ x, set_sh_blob (<[Z.to_nat cpu := b]> (sh_blob x)) x).

(** A page of blobs for the CPU's store. *)
Definition share_blob_grow (sh cpu : Z) : M kern Z :=
  h ← get_hdr sh;
  '(r, blobs) ← on_kmem (page_alloc (ko_pid h));
  if r <? 0 then mret r else
  b ← get_store sh cpu;
  '(r, pt) ← on_kmem (pagetree_put_page (ss_pt b) (ss_npages b) blobs);
  put_store sh cpu (ShStore (ss_free b) (ss_npages b) pt);;
  if r <? 0 then on_kmem (page_free blobs);; mret r else
  on_kmem (page_zero blobs);;
  b ← get_store sh cpu;
  put_store sh cpu (ShStore (ss_free b) (u64 (ss_npages b + 1)) (ss_pt b));;
  for_each (Z.to_nat N_SHAREBLOB_PER_PAGE) 0 (λ i, LIST_INSERT_HEAD (HBlob sh cpu) (blobs + i * BLOB_SIZE));;
  mret 0.
Definition share_blob_alloc (sh : Z) : M kern (Z * Z) :=
  cpu ← cpu_id;
  b ← LIST_FIRST (HBlob sh cpu);
  r ← (if b =? 0 then share_blob_grow sh cpu else mret 0);
  if r <? 0 then mret (r, 0) else
  b ← LIST_FIRST (HBlob sh cpu);
  LIST_REMOVE (HBlob sh cpu) b;;
  mret (r, b).
Definition share_blob_free (sh sb : Z) : M kern unit := cpu ← cpu_id; LIST_INSERT_HEAD (HBlob sh cpu) sb.

Definition get_info_blob (a : Z) : M kern share_info :=
  b ← get_blob a; match b with BInfo si => mret si | _ => undef end.

(** [share_action_ci] and [share_action_dec].  The loop of the second waits for the other
    CPUs: a count that is not zero is a hang. *)
Definition share_action_ci (sh si : Z) : M kern unit :=
  i ← get_info_blob si;
  c_assert (negb (si_co i =? 0));;
  put_blob si (BInfo (ShInfo (si_ko i) (jos_atomic_dec64 (si_co i)) (si_cnt i))).
Definition share_action_dec (sh si : Z) : M kern unit :=
  i ← get_info_blob si;
  if negb (si_co i =? 0) then crash Hang else
  kobject_decref (si_ko i);;
  share_blob_free sh si.

(** The loop of [share_action_scan] over one of its two lists. *)
Fixpoint action_loop (fuel : nat) (h : lhead) : M kern unit :=
  match fuel with
  | O => crash NoFuel
  | S fuel' =>
      sa ← LIST_FIRST h;
      if sa =? 0 then mret tt else
      b ← get_blob sa;
      match action_of b with
      | None => undef
      | Some a =>
          (if sa_dec a then share_action_dec (sa_sh a) (sa_si a) else share_action_ci (sa_sh a) (sa_si a));;
          LIST_REMOVE h sa;;
          share_blob_free (sa_sh a) sa;;
          action_loop fuel' h
      end
  end.
Definition share_action_scan : M kern unit :=
  cpu ← cpu_id;
  fuel ← gets list_fuel;
  action_loop fuel (HCi cpu);;
  action_loop fuel (HRm cpu).

(** [1 << ko_type] for the types of objects. *)
Definition share_import_obj (sh ko : Z) : M kern Z :=
  h ← get_hdr ko;
  x ← get_sh sh;
  if Z.land (Z.shiftl 1 (ko_type h)) (sh_mask x) =? 0 then mret (- E_INVAL) else
  '(r, sb0) ← share_blob_alloc sh;
  if r <? 0 then mret r else
  put_blob sb0 (BInfo (ShInfo ko 0 1));;
  sharemu_write_lock sh;;
  '(r, sb1) ← on_sh_map sh (map_get (ko_id h) 0);
  if r =? 0 then
    i ← get_info_blob sb1;
    put_blob sb1 (BInfo (ShInfo (si_ko i) (si_co i) (jos_atomic_inc (si_cnt i))));;
    sharemu_write_unlock sh;;
    share_blob_free sh sb0;;
    mret 0
  else
  stk ← gets kn_stk;
  r ← on_sh_map sh (map_put stk (ko_id h) sb0);
  sharemu_write_unlock sh;;
  if r <? 0 then share_blob_free sh sb0;; mret r else
  kobject_incref ko;;
  mret 0.

(** Queues a share action for this CPU. *)
Definition push_action (h : lhead) (sb sh si : Z) (dec : bool) : M kern unit :=
  put_blob sb (BAction (ShAction sh si dec null_link));;
  LIST_INSERT_HEAD h sb.

Definition share_co_obj (sh id type : Z) : M kern (Z * Z) :=
  sharemu_read_lock sh;;
  res ← ('(r, sb0) ← on_sh_map sh (map_get id 0);
         if r <? 0 then mret (r, 0) else
         i ← get_info_blob sb0;
         h ← get_hdr (si_ko i);
         if negb (ko_type h =? type) && negb (type =? kobj_any) then mret (- E_INVAL, 0) else
         '(r, sb1) ← share_blob_alloc sh;
         if r <? 0 then mret (r, 0) else
         put_blob sb0 (BInfo (ShInfo (si_ko i) (jos_atomic_inc64 (si_co i)) (si_cnt i)));;
         cpu ← cpu_id;
         push_action (HCi cpu) sb1 sh sb0 false;;
         mret (r, si_ko i));
  sharemu_read_unlock sh;;
  mret res.

Definition share_remove_obj (sh id : Z) : M kern Z :=
  sharemu_write_lock sh;;
  r ← ('(r, sb0) ← on_sh_map sh (map_get id 0);
       if r <? 0 then mret r else
       i ← get_info_blob sb0;
       let '(cnt, zero) := jos_atomic_dec_and_test (si_cnt i) in
       put_blob sb0 (BInfo (ShInfo (si_ko i) (si_co i) cnt));;
       if negb zero then mret r else
       '(r, sb1) ← share_blob_alloc sh;
       if r <? 0 then mret r else
       e ← on_sh_map sh (map_erase id);
       c_assert (e =? 0);;
       cpu ← cpu_id;
       push_action (HRm cpu) sb1 sh sb0 true;;
       mret r);
  sharemu_write_unlock sh;;
  mret r.

(** ** Tables of shares (kern/kern/sharemap.c), part of a processor *)

Definition set_sharemap (m : Sharemap) (p : Processor) : Processor :=
  MkPs (ps_tf p) (ps_fp_enabled p) (ps_pid p) (ps_running p) (ps_halt p) (ps_interval_hz p) (ps_mode p)
       m (ps_monitor_obj p) (ps_at p) (ps_atref p) (ps_at_link p).
Definition upd_sm (ps : Z) (f : Sharemap → Sharemap) : M kern unit := upd_ps ps (λ p, set_sharemap (f (ps_sharemap p)) p).
Definition get_sm (ps : Z) : M kern Sharemap := p ← get_ps ps; mret (ps_sharemap p).
Definition set_sm_lock (b : bool) (m : Sharemap) : Sharemap := MkSharemap b (sm_map m) (sm_owner m) (sm_mask m).
Definition set_sm_map (mp : Map) (m : Sharemap) : Sharemap := MkSharemap (sm_lock m) mp (sm_owner m) (sm_mask m).
Definition sm_spin_lock (ps : Z) : M kern unit :=
  m ← get_sm ps; if sm_lock m then crash Hang else upd_sm ps (set_sm_lock true).
Definition sm_spin_unlock (ps : Z) : M kern unit := upd_sm ps (set_sm_lock false).
Definition on_sm_map {A} (ps : Z) (c : M kst A) : M kern A :=
  on_map (m ← get_sm ps; mret (sm_map m)) (λ mp, upd_sm ps (set_sm_map mp)) c.

Definition sharemap_init (ps pid owner share_mask : Z) : M kern unit :=
  upd_sm ps (λ m, MkSharemap (sm_lock m) (map_init pid) owner share_mask).
Definition sharemap_add (ps sh : Z) : M kern Z :=
  x ← get_sh sh;
  m ← get_sm ps;
  if negb (Z.land (sh_mask x) (sm_mask m) =? sh_mask x) then mret (- E_INVAL) else
  h ← get_hdr sh;
  sm_spin_lock ps;;
  stk ← gets kn_stk;
  r ← on_sm_map ps (map_put stk (ko_id h) sh);
  sm_spin_unlock ps;;
  when (r =? 0) (kobject_incref sh);;
  mret r.
(** The second component is [*sh], null if the identifier is not there. *)
Definition sharemap_get (ps id : Z) : M kern (Z * Z) :=
  sm_spin_lock ps;;
  res ← on_sm_map ps (map_get id 0);
  sm_spin_unlock ps;;
  mret res.
Definition sharemap_free (ps : Z) : M kern unit := on_sm_map ps map_free.
Definition sharemap_co_obj (ps : Z) (oref : sobj_ref) (type : Z) : M kern (Z * Z) :=
  '(r, sh) ← sharemap_get ps (so_share oref);
  if r <? 0 then mret (r, 0) else
  if so_share oref =? so_object oref then mret (0, sh) else
  share_co_obj sh (so_object oref) type.
