(* ===== verification/At.v ===== *)
(** * Segments and address trees

    kern/kern/segment.c, atmap.c and at.c, and check_user_access of
    kern/arch/amd64/pmap.c.  A segment is an array of pages.
    An address tree maps ranges of virtual addresses to segments and to interior address
    trees: [at_uaddrmap] is the table of mappings the user asked for, [at_addrmap] holds,
    slot by slot, what has been entered into the hardware page map.  Every entry of the
    second kind is on the list of mappings of the object it maps, so that the object can
    take its pages out of all page maps.  A processor runs in an address tree.

    The structs live in pages; a pointer to an entry of a table is its address. *)
From S2P Require Import Prelude Machine Hashtable Locks Ktypes Kmem PageAlloc Pagetree Darray KMap Pmap Mcsrw Kobj Share.

(** Running array code on an array that is part of an object. *)
Definition on_darray {A} (get_da : M kern darray) (put_da : darray → M kern unit) (c : darray → M pmem (A * darray)) : M kern A :=
  a ← get_da;
  '(x, a') ← on_kmem (c a);
  put_da a';;
  mret x.

(** ** Setters of [struct Address_tree] *)
Definition set_at_pgmap_lock (b : bool) (x : Address_tree) : Address_tree :=
  MkAt (at_ps_list x) (at_ps_list_lock x) (at_pgmap x) b (at_utrap_entry x) (at_utrap_stack_base x) (at_utrap_stack_top x)
       (at_interior x) (at_map_list x) (at_map_lock x) (at_uaddrmap x) (at_addrmap x) (at_obj x) (at_obj_lock x) (at_range x).
Definition set_at_ps_list_lock (l : Rec.reclock) (x : Address_tree) : Address_tree :=
  MkAt (at_ps_list x) l (at_pgmap x) (at_pgmap_lock x) (at_utrap_entry x) (at_utrap_stack_base x) (at_utrap_stack_top x)
       (at_interior x) (at_map_list x) (at_map_lock x) (at_uaddrmap x) (at_addrmap x) (at_obj x) (at_obj_lock x) (at_range x).
Definition set_at_map_lock (w : Rw.rwlock) (x : Address_tree) : Address_tree :=
  MkAt (at_ps_list x) (at_ps_list_lock x) (at_pgmap x) (at_pgmap_lock x) (at_utrap_entry x) (at_utrap_stack_base x) (at_utrap_stack_top x)
       (at_interior x) (at_map_list x) w (at_uaddrmap x) (at_addrmap x) (at_obj x) (at_obj_lock x) (at_range x).
Definition set_at_uaddrmap (a : darray) (x : Address_tree) : Address_tree :=
  MkAt (at_ps_list x) (at_ps_list_lock x) (at_pgmap x) (at_pgmap_lock x) (at_utrap_entry x) (at_utrap_stack_base x) (at_utrap_stack_top x)
       (at_interior x) (at_map_list x) (at_map_lock x) a (at_addrmap x) (at_obj x) (at_obj_lock x) (at_range x).
Definition set_at_addrmap (a : darray) (x : Address_tree) : Address_tree :=
  MkAt (at_ps_list x) (at_ps_list_lock x) (at_pgmap x) (at_pgmap_lock x) (at_utrap_entry x) (at_utrap_stack_base x) (at_utrap_stack_top x)
       (at_interior x) (at_map_list x) (at_map_lock x) (at_uaddrmap x) a (at_obj x) (at_obj_lock x) (at_range x).
Definition set_at_obj (o : at_obj_t) (x : Address_tree) : Address_tree :=
  MkAt (at_ps_list x) (at_ps_list_lock x) (at_pgmap x) (at_pgmap_lock x) (at_utrap_entry x) (at_utrap_stack_base x) (at_utrap_stack_top x)
       (at_interior x) (at_map_list x) (at_map_lock x) (at_uaddrmap x) (at_addrmap x) o (at_obj_lock x) (at_range x).
Definition set_at_obj_lock (b : bool) (x : Address_tree) : Address_tree :=
  MkAt (at_ps_list x) (at_ps_list_lock x) (at_pgmap x) (at_pgmap_lock x) (at_utrap_entry x) (at_utrap_stack_base x) (at_utrap_stack_top x)
       (at_interior x) (at_map_list x) (at_map_lock x) (at_uaddrmap x) (at_addrmap x) (at_obj x) b (at_range x).
Definition set_at_range (r : at_range_t) (x : Address_tree) : Address_tree :=
  MkAt (at_ps_list x) (at_ps_list_lock x) (at_pgmap x) (at_pgmap_lock x) (at_utrap_entry x) (at_utrap_stack_base x) (at_utrap_stack_top x)
       (at_interior x) (at_map_list x) (at_map_lock x) (at_uaddrmap x) (at_addrmap x) (at_obj x) (at_obj_lock x) r.
Definition set_at_utrap (entry base top : Z) (x : Address_tree) : Address_tree :=
  MkAt (at_ps_list x) (at_ps_list_lock x) (at_pgmap x) (at_pgmap_lock x) entry base top
       (at_interior x) (at_map_list x) (at_map_lock x) (at_uaddrmap x) (at_addrmap x) (at_obj x) (at_obj_lock x) (at_range x).

(** ** Locks of an address tree *)
Definition pgmap_lock (p : Z) : M kern unit :=
  x ← get_at p; if at_pgmap_lock x then crash Hang else put_at p (set_at_pgmap_lock true x).
Definition pgmap_unlock (p : Z) : M kern unit := upd_at p (set_at_pgmap_lock false).
Definition obj_lock (p : Z) : M kern unit :=
  x ← get_at p; if at_obj_lock x then crash Hang else put_at p (set_at_obj_lock true x).
Definition obj_unlock (p : Z) : M kern unit := upd_at p (set_at_obj_lock false).
Definition map_read_lock (p : Z) : M kern unit :=
  x ← get_at p; w ← Rw.rw_read_lock (at_map_lock x); put_at p (set_at_map_lock w x).
Definition map_read_unlock (p : Z) : M kern unit := upd_at p (λ x, set_at_map_lock (Rw.rw_read_unlock (at_map_lock x)) x).
Definition map_write_lock (p : Z) : M kern unit :=
  x ← get_at p; w ← Rw.rw_write_lock (at_map_lock x); put_at p (set_at_map_lock w x).
Definition map_write_unlock (p : Z) : M kern unit := upd_at p (λ x, set_at_map_lock (Rw.rw_write_unlock (at_map_lock x)) x).
(** [rec_lock] and [rec_unlock] of the list of processors, as Locks has them. *)
Definition on_ps_lock (p : Z) (c : M Rec.reclock unit) : M kern unit :=
  x ← get_at p;
  match c (at_ps_list_lock x) with
  | Ret _ l => put_at p (set_at_ps_list_lock l x)
  | Crash f => crash f
  end.
Definition ps_list_lock (p : Z) : M kern unit := cpu ← cpu_id; on_ps_lock p (Rec.rec_lock cpu).
Definition ps_list_unlock (p : Z) : M kern unit := on_ps_lock p Rec.rec_unlock.

(** ** Lists of mappings (kern/kern/atmap.c); a list is named by its object *)

Definition aml_get_list (ko : Z) : M kern Z :=
  h ← get_hdr ko;
  if (ko_type h =? kobj_segment) || (ko_type h =? kobj_address_tree) then mret ko else panic.
Definition get_aml (ko : Z) : M kern address_map_list := deref (λ s, match kobj_at s ko with Some k => aml_of k | None => None end).
Definition put_aml (ko : Z) (l : address_map_list) : M kern unit := upd_ko ko (λ k, set_body (set_aml l (ko_body k)) k).
Definition aml_init (ko : Z) : M kern unit := put_aml ko (Aml 0 false).
Definition aml_spin_lock (ko : Z) : M kern unit :=
  l ← get_aml ko; if aml_lock l then crash Hang else put_aml ko (Aml (aml_first l) true).
Definition aml_spin_unlock (ko : Z) : M kern unit := l ← get_aml ko; put_aml ko (Aml (aml_first l) false).
Definition aml_insert (ko am : Z) : M kern unit :=
  aml_spin_lock ko;; LIST_INSERT_HEAD (HAml ko) am;; aml_spin_unlock ko.
Definition aml_remove (ko am : Z) : M kern unit :=
  aml_spin_lock ko;; LIST_REMOVE (HAml ko) am;; aml_spin_unlock ko.

(** [LIST_FOREACH]: the next element is read after the body has run. *)
Fixpoint list_foreach (fuel : nat) (h : lhead) (e : Z) (body : Z → M kern unit) : M kern unit :=
  match fuel with
  | O => crash NoFuel
  | S fuel' => if e =? 0 then mret tt else
               body e;; n ← LIST_NEXT h e; list_foreach fuel' h n body
  end.
Definition LIST_FOREACH (h : lhead) (body : Z → M kern unit) : M kern unit :=
  fuel ← gets list_fuel; e ← LIST_FIRST h; list_foreach fuel h e body.
Definition aml_foreach (ko : Z) (cb : Z → M kern unit) : M kern unit :=
  aml_spin_lock ko;; LIST_FOREACH (HAml ko) cb;; aml_spin_unlock ko.

(** ** Taking mappings out (kern/kern/at.c) *)

Definition processor_sched : M kern Z := cpu ← cpu_id; gets (λ s, per_cpu (kn_procs s) cpu).

Definition at_invalidate_range (p first last : Z) : M kern unit :=
  pgmap_lock p;;
  x ← get_at p;
  on_kmem (page_map_invalidate (at_pgmap x) first last);;
  pgmap_unlock p.

Definition kobj_cache_flush (p : Z) : M kern unit :=
  obj_lock p;;
  x ← get_at p;
  let o := at_obj x in
  when (negb (so_object (ao_ref o) =? 0)) (kobject_decref (ao_ko o));;
  upd_at p (λ x, let o := at_obj x in set_at_obj (AtObj (Sobj (so_share (ao_ref o)) 0) (ao_ko o) (ao_ps_id o)) x);;
  obj_unlock p.

(** The branch of [at_tlbflush_others] for a tree that processors run in. *)
Definition flush_processors (p : Z) : M kern unit :=
  ps_list_lock p;;
  LIST_FOREACH (HPs p) (λ ps,
    cur ← processor_sched;
    when (negb (ps =? cur)) (x ← get_ps ps; log (EFlush (ps_pid x))));;
  ps_list_unlock p.
Definition at_tlbflush_helper (am : Z) : M kern unit :=
  a ← get_am am;
  x ← get_at (am_parent a);
  c_assert (negb (at_interior x));;
  flush_processors (am_parent a).
Definition at_tlbflush_others (p : Z) : M kern unit :=
  x ← get_at p;
  if at_interior x then aml_foreach p at_tlbflush_helper else flush_processors p.

Definition set_am_lock (b : bool) (a : address_mapping2) : address_mapping2 :=
  Am b (am_kobj a) (am_parent a) (am_ps a) (am_sh a) (am_va_first a) (am_va_last a) (am_at_slot a) (am_link a).
Definition set_am_kobj (k : Z) (a : address_mapping2) : address_mapping2 :=
  Am (am_lock a) k (am_parent a) (am_ps a) (am_sh a) (am_va_first a) (am_va_last a) (am_at_slot a) (am_link a).
Definition upd_am (am : Z) (f : address_mapping2 → address_mapping2) : M kern unit := a ← get_am am; put_am am (f a).
Definition am_spin_lock (am : Z) : M kern unit :=
  a ← get_am am; if am_lock a then crash Hang else put_am am (set_am_lock true a).
Definition am_spin_unlock (am : Z) : M kern unit := upd_am am (set_am_lock false).

Definition at_invalidate_addrmap (p am : Z) : M kern unit :=
  kobj_cache_flush p;;
  a ← get_am am;
  when (negb (am_kobj a =? 0)) (
    am_spin_lock am;;
    a ← get_am am;
    when (negb (am_kobj a =? 0)) (
      at_tlbflush_others p;;
      a ← get_am am;
      at_invalidate_range p (am_va_first a) (am_va_last a);;
      upd_am am (set_am_kobj 0));;
    am_spin_unlock am).

(** The loops of [aml_invalidate] and [aml_scope]. *)
Definition aml_again (ko prev : Z) : M kern Z := if prev =? 0 then LIST_FIRST (HAml ko) else LIST_NEXT (HAml ko) prev.
Fixpoint aml_invalidate_loop (fuel : nat) (ko sh am prev : Z) : M kern unit :=
  match fuel with
  | O => crash NoFuel
  | S fuel' =>
      if am =? 0 then mret tt else
      a ← get_am am;
      c_assert (negb (am_kobj a =? 0));;
      if (sh =? 0) || (sh =? am_sh a) then
        LIST_REMOVE (HAml ko) am;;
        at_invalidate_addrmap (am_parent a) am;;
        am ← aml_again ko prev;
        aml_invalidate_loop fuel' ko sh am prev
      else
        n ← LIST_NEXT (HAml ko) am;
        aml_invalidate_loop fuel' ko sh n am
  end.
Definition aml_invalidate (ko sh : Z) : M kern unit :=
  aml_spin_lock ko;;
  fuel ← gets list_fuel;
  am ← LIST_FIRST (HAml ko);
  aml_invalidate_loop fuel ko sh am 0;;
  aml_spin_unlock ko.
Fixpoint aml_scope_loop (fuel : nat) (ko sh scope_ps am prev : Z) : M kern unit :=
  match fuel with
  | O => crash NoFuel
  | S fuel' =>
      if am =? 0 then mret tt else
      a ← get_am am;
      c_assert (negb (am_kobj a =? 0));;
      if sh =? am_sh a then
        prev ← (if scope_ps =? am_ps a then
                  LIST_REMOVE (HAml ko) am;; at_invalidate_addrmap (am_parent a) am;; mret prev
                else mret am);
        am ← aml_again ko prev;
        aml_scope_loop fuel' ko sh scope_ps am prev
      else
        n ← LIST_NEXT (HAml ko) am;
        aml_scope_loop fuel' ko sh scope_ps n am
  end.
Definition aml_scope (ko sh scope_ps : Z) : M kern unit :=
  aml_spin_lock ko;;
  fuel ← gets list_fuel;
  am ← LIST_FIRST (HAml ko);
  aml_scope_loop fuel ko sh scope_ps am 0;;
  aml_spin_unlock ko.

(** ** Segments (kern/kern/segment.c) *)

Definition set_sg_pages (a : darray) (x : Segment) : Segment := Seg (sg_map_list x) a.
Definition sg_array {A} (sg : Z) (c : darray → M pmem (A * darray)) : M kern A :=
  on_darray (x ← get_sg sg; mret (sg_pages x)) (λ a, upd_sg sg (set_sg_pages a)) c.
Definition segment_alloc (pid : Z) : M kern (Z * Z) :=
  '(r, ko) ← kobject_alloc kobj_segment pid;
  if r <? 0 then mret (r, 0) else
  aml_init ko;;
  a ← on_kmem (darray_init PGSIZE true pid);
  upd_sg ko (set_sg_pages a);;
  mret (0, ko).
Definition segment_scope_cb (sg sh scope_ps : Z) : M kern unit := aml_scope sg sh scope_ps.
Definition segment_remove_cb (sg sh : Z) : M kern unit := aml_invalidate sg sh.
Definition segment_invalidate (sg : Z) : M kern unit := segment_remove_cb sg 0.
Definition segment_copy (src mode pid : Z) : M kern (Z * Z) :=
  assert_locked src;;
  if negb (mode =? page_shared_cor) && negb (mode =? page_shared_cow) && negb (mode =? page_excl) then mret (- E_INVAL, 0) else
  '(r, dst) ← segment_alloc pid;
  if r <? 0 then mret (r, 0) else
  when ((mode =? page_shared_cor) || (mode =? page_shared_cow)) (segment_invalidate src);;
  lock_kobj dst;;
  xs ← get_sg src;
  xd ← get_sg dst;
  '(r, as_, ad) ← on_kmem (darray_copy (sg_pages xs) (sg_pages xd) mode);
  upd_sg src (set_sg_pages as_);;
  upd_sg dst (set_sg_pages ad);;
  unlock_kobj dst;;
  if r <? 0 then mret (r, 0) else mret (0, dst).
Definition segment_get_npage (sg : Z) : M kern Z := x ← get_sg sg; mret (darray_get_nent (sg_pages x)).
Definition segment_set_nbytes (sg num_bytes : Z) : M kern Z :=
  let npages := ROUNDUP num_bytes PGSIZE / PGSIZE in
  lock_kobj sg;;
  n ← segment_get_npage sg;
  when (n >? npages) (segment_invalidate sg);;
  n ← segment_get_npage sg;
  r ← (if negb (n =? npages) then sg_array sg (λ a, darray_set_nent a npages false) else mret 0);
  unlock_kobj sg;;
  mret r.
Definition segment_get_page (sg npage mode : Z) : M kern (Z * Z) :=
  sg_array sg (λ a, '(r, b, a') ← darray_get a npage mode; mret ((r, b), a')).
Definition segment_gc_cb (sg : Z) : M kern unit := sg_array sg (λ a, a' ← darray_free a; mret (tt, a')).

(** ** The tables of an address tree *)

Definition N_UADDRMAP_PER_PAGE : Z := PGSIZE / UAM_SIZE.
Definition N_ADDRMAP_PER_PAGE : Z := PGSIZE / AM_SIZE.
(** [bootpml4] is the kernel's half of every page map.  [interior] is a [char] of which
    the one-bit fields keep the lowest bit. *)
Definition at_alloc (bootpml4 : gmap Z Z) (interior pid : Z) : M kern (Z * Z) :=
  let flag := Z.testbit interior 0 in
  '(r, ko) ← kobject_alloc kobj_address_tree pid;
  if r <? 0 then mret (r, 0) else
  '(r, pgmap) ← on_kmem (page_map_alloc bootpml4 flag pid);
  if r <? 0 then mret (r, 0) else
  when (negb (interior =? 0)) (on_kmem (write_page pgmap PgZero));;
  ua ← on_kmem (darray_init UAM_SIZE false pid);
  aa ← on_kmem (darray_init AM_SIZE false pid);
  upd_at ko (λ x, MkAt 0 Rec.rec_init pgmap false (at_utrap_entry x) (at_utrap_stack_base x) (at_utrap_stack_top x)
                       flag (Aml 0 false) Rw.rw_init ua aa (at_obj x) false (at_range x));;
  mret (0, ko).

Definition at_nents (p : Z) : M kern Z := x ← get_at p; mret (darray_get_nent (at_uaddrmap x)).
Definition uam_array {A} (p : Z) (c : darray → M pmem (A * darray)) : M kern A :=
  on_darray (x ← get_at p; mret (at_uaddrmap x)) (λ a, upd_at p (set_at_uaddrmap a)) c.
Definition am_array {A} (p : Z) (c : darray → M pmem (A * darray)) : M kern A :=
  on_darray (x ← get_at p; mret (at_addrmap x)) (λ a, upd_at p (set_at_addrmap a)) c.
Definition at_resize (p nent : Z) : M kern Z :=
  n ← at_nents p;
  when (nent <? n) (upd_at p (λ x, set_at_range (AtRange (ar_va_start (at_range x)) (ar_va_end (at_range x)) 0) x));;
  uam_array p (λ a, darray_set_nent a nent true).
Definition at_get_uaddrmap (p ami : Z) : M kern (Z * Z) :=
  uam_array p (λ a, '(r, b, a') ← darray_get a ami page_excl; mret ((r, b), a')).
Definition at_get_addrmap (p smi : Z) : M kern (Z * Z) :=
  '(r, b) ← am_array p (λ a, '(r, b, a') ← darray_get a smi page_excl; mret ((r, b), a'));
  if r =? - E_INVAL then
    r ← am_array p (λ a, darray_grow_nent a (ROUNDUP (u64 (smi + 1)) N_ADDRMAP_PER_PAGE));
    if r <? 0 then mret (r, b) else
    am_array p (λ a, '(r, b, a') ← darray_get a smi page_excl; mret ((r, b), a'))
  else mret (r, b).

(** One round of [at_clear_mappings]. *)
Definition at_clear_mapping (p i : Z) : M kern unit :=
  '(r, u) ← at_get_uaddrmap p i;
  c_assert (r =? 0);;
  uam ← get_uam u;
  if um_flags uam =? 0 then mret tt else
  '(r, am) ← at_get_addrmap p i;
  if r <? 0 then mret tt else
  a ← get_am am;
  when (negb (am_kobj a =? 0)) (
    am_spin_lock am;;
    a ← get_am am;
    when (negb (am_kobj a =? 0)) (
      l ← aml_get_list (am_kobj a);
      aml_remove l am;;
      upd_am am (set_am_kobj 0));;
    am_spin_unlock am).
Definition at_clear_mappings (p : Z) : M kern unit :=
  n ← at_nents p; for_each (Z.to_nat n) 0 (at_clear_mapping p).

(** ** Filling the page map *)

Definition SEGMAP_READ : Z := 0x04.
Definition address_mapping_segment : Z := 1.
Definition address_mapping_interior : Z := 2.

Definition at_va_to_segment_page (uam : u_address_mapping) (va : Z) : M kern Z :=
  let uam_va := ROUNDDOWN (um_va uam) PGSIZE in
  c_assert ((uam_va <=? va) && (va <? u64 (uam_va + um_num_pages uam * PGSIZE)));;
  mret (u64 (um_start_page uam + (va - uam_va) / PGSIZE)).

(** [kobj_get]; [lookup_cache] is 1. *)
Definition kobj_get (p : Z) (ref : sobj_ref) (type : Z) : M kern (Z * Z) :=
  cur ← processor_sched;
  h ← get_hdr cur;
  let ps_id := ko_id h in
  obj_lock p;;
  x ← get_at p;
  let o := at_obj x in
  if (ps_id =? ao_ps_id o) && negb (so_object (ao_ref o) =? 0) &&
     (so_object (ao_ref o) =? so_object ref) && (so_share (ao_ref o) =? so_share ref)
  then obj_unlock p;; mret (0, ao_ko o) else
  '(r, ko) ← sharemap_co_obj cur ref type;
  if r <? 0 then obj_unlock p;; mret (r, 0) else
  when (negb (so_object (ao_ref o) =? 0)) (kobject_decref (ao_ko o));;
  upd_at p (set_at_obj (AtObj ref ko ps_id));;
  kobject_incref ko;;
  obj_unlock p;;
  mret (0, ko).

(** [am] becomes the mapping of [ko] by slot [uam]. *)
Definition enter_am (p ko am : Z) (uam : u_address_mapping) : M kern unit :=
  am_spin_lock am;;
  a ← get_am am;
  when (am_kobj a =? 0) (
    cur ← processor_sched;
    upd_am am (λ a, Am (am_lock a) ko p cur (so_share (um_object uam)) (um_va uam)
                       (u64 (um_va uam + (um_num_pages uam - 1) * PGSIZE)) (um_kslot uam) (am_link a));;
    aml_insert ko am);;
  am_spin_unlock am.

(** Clears a page that was never cleared. *)
Definition clear_once (pp : Z) : M pmem unit :=
  pi ← page_to_pageinfo pp;
  i ← get_info pi;
  when (negb (pi_clear i)) (
    (if pi_clear_lock i then crash Hang else upd_info pi (pi_set_clear_lock true));;
    page_zero pp;;
    upd_info pi (pi_set_clear true);;
    upd_info pi (pi_set_clear_lock false)).

(** The part of [at_pmap_fill_mapping] for a segment. *)
Definition fill_segment (p : Z) (uam : u_address_mapping) (va : Z) : M kern Z :=
  '(r, sg) ← kobj_get p (um_object uam) kobj_segment;
  if r <? 0 then mret r else
  '(r, am) ← at_get_addrmap p (um_kslot uam);
  if r <? 0 then mret r else
  a ← get_am am;
  c_assert ((am_kobj a =? 0) || (am_kobj a =? sg));;
  when (am_kobj a =? 0) (enter_am p sg am uam);;
  pnum ← at_va_to_segment_page uam va;
  let mode := if bit (um_flags uam) SEGMAP_WRITE then page_shared_cow else page_shared_cor in
  '(r, pp) ← segment_get_page sg pnum mode;
  if r <? 0 then mret r else
  on_kmem (clear_once pp);;
  pgmap_lock p;;
  x ← get_at p;
  h ← get_hdr p;
  r ← on_kmem (as_arch_putpage (at_pgmap x) va pp (um_flags uam) (ko_pid h));
  pgmap_unlock p;;
  if r <? 0 then mret r else mret 0.

(** The search of [at_pmap_fill] through the table, from slot [i]. *)
Fixpoint find_uam (n : nat) (i p va reqflags : Z) : M kern (option (Z * Z * Z) + Z) :=
  match n with
  | O => mret (inl None)
  | S n' =>
      '(r, u) ← at_get_uaddrmap p i;
      if r <? 0 then mret (inr r) else
      uam ← get_uam u;
      if negb (bit (um_flags uam) SEGMAP_READ) then find_uam n' (i + 1) p va reqflags else
      if negb (Z.land (um_flags uam) reqflags =? reqflags) then find_uam n' (i + 1) p va reqflags else
      if negb (um_type uam =? address_mapping_segment) && negb (um_type uam =? address_mapping_interior)
      then find_uam n' (i + 1) p va reqflags else
      let va_start := ROUNDDOWN (um_va uam) PGSIZE in
      let '(len, ovf) := safe_mulptr 0 (um_num_pages uam) PGSIZE in
      let '(va_end, ovf) := safe_addptr ovf va_start len in
      if negb (ovf =? 0) || (va <? va_start) || (va_end <=? va) then find_uam n' (i + 1) p va reqflags
      else mret (inl (Some (u, va_start, va_end)))
  end.

(** The part of [at_pmap_fill_mapping] for an interior address tree; [fill] is
    [at_pmap_fill]. *)
Definition fill_interior (fill : Z → Z → Z → M kern Z) (p : Z) (uam : u_address_mapping) (va reqflags : Z) : M kern Z :=
  if negb (bit (um_flags uam) SEGMAP_WRITE) then mret (- E_INVAL) else
  '(r, at_i) ← kobj_get p (um_object uam) kobj_address_tree;
  if r <? 0 then mret r else
  xi ← get_at at_i;
  if negb (at_interior xi) then mret (- E_INVAL) else
  '(r, am) ← at_get_addrmap p (um_kslot uam);
  if r <? 0 then mret r else
  a ← get_am am;
  c_assert ((am_kobj a =? 0) || (am_kobj a =? at_i));;
  r ← (if am_kobj a =? 0 then
         enter_am p at_i am uam;;
         pgmap_lock p;;
         x ← get_at p; xi ← get_at at_i; hi ← get_hdr at_i;
         r ← on_kmem (as_arch_putinterior (at_pgmap x) va (at_pgmap xi) (ko_pid hi));
         pgmap_unlock p;;
         mret r
       else mret 0);
  if r <? 0 then mret r else
  fill at_i (u64 (va - ROUNDDOWN (um_va uam) PISIZE)) reqflags.

Definition at_pmap_fill_mapping (fill : Z → Z → Z → M kern Z) (p : Z) (uam : u_address_mapping) (va reqflags : Z) : M kern Z :=
  if um_type uam =? address_mapping_interior then fill_interior fill p uam va reqflags else fill_segment p uam va.

(** The mapping in the range cache, if it may be used for [va]. *)
Definition cached_uam (p va reqflags : Z) : M kern (option u_address_mapping) :=
  x ← get_at p;
  let rg := at_range x in
  if ar_uam rg =? 0 then mret None else
  uam ← get_uam (ar_uam rg);
  mret (if negb (um_flags uam =? 0) && (ar_va_start rg <=? va) && (va <? ar_va_end rg) &&
           (Z.land (um_flags uam) reqflags =? reqflags) then Some uam else None).

(** One level of [at_pmap_fill]. *)
Definition pmap_fill_step (fill : Z → Z → Z → M kern Z) (p va reqflags : Z) : M kern Z :=
  map_read_lock p;;
  c ← cached_uam p va reqflags;
  r ← match c with
      | Some uam => at_pmap_fill_mapping fill p uam (ROUNDDOWN va PGSIZE) reqflags
      | None =>
          n ← at_nents p;
          f ← find_uam (Z.to_nat n) 0 p va reqflags;
          match f with
          | inr r => mret r
          | inl None => mret (- E_INVAL)
          | inl (Some (u, va_start, va_end)) =>
              upd_at p (set_at_range (AtRange va_start va_end u));;
              uam ← get_uam u;
              at_pmap_fill_mapping fill p uam (ROUNDDOWN va PGSIZE) reqflags
          end
      end;
  map_read_unlock p;;
  mret r.
(** [fuel] bounds the depth of the recursion through interior trees. *)
Fixpoint at_pmap_fill (fuel : nat) (p va reqflags : Z) : M kern Z :=
  match fuel with
  | O => crash NoFuel
  | S fuel' => pmap_fill_step (at_pmap_fill fuel') p va reqflags
  end.
Definition at_pagefault (fuel : nat) (p va reqflags : Z) : M kern Z :=
  r ← at_pmap_fill fuel p va reqflags;
  when (r <? 0) (kobj_cache_flush p);;
  mret r.

(** ** Checking pointers of the user (kern/arch/amd64/pmap.c) *)

(** Whether the page map has [va] with the rights [pte_flags]. *)
Definition has_access (p va pte_flags : Z) : M kern bool :=
  x ← get_at p;
  if at_pgmap x =? 0 then mret false else
  on_kmem (
    '(pp, o) ← page_lookup (at_pgmap x) va;
    if pp =? 0 then mret false else
    e ← the_pte o; v ← read_pte e;
    mret (Z.land v pte_flags =? pte_flags)).
(** [for (va = start; va < end; va += PGSIZE)] with the variable [r]; [n] is the number of
    pages, [fuel] that of [at_pmap_fill]. *)
Fixpoint access_loop (fuel n : nat) (p va pte_flags reqflags r : Z) : M kern Z :=
  match n with
  | O => mret r
  | S n' =>
      if va >=? ULIM then mret (- E_INVAL) else
      ok ← has_access p va pte_flags;
      if (ok : bool) then access_loop fuel n' p (u64 (va + PGSIZE)) pte_flags reqflags r else
      r ← at_pagefault fuel p va reqflags;
      if r <? 0 then mret r else access_loop fuel n' p (u64 (va + PGSIZE)) pte_flags reqflags r
  end.
Definition check_user_access (fuel : nat) (p ptr nbytes reqflags : Z) : M kern Z :=
  h ← get_hdr p;
  let release := negb (ko_lock h) in
  when release (lock_kobj p);;
  let pte_flags := Z.lor PTE_P PTE_U in
  let pte_flags := if bit reqflags SEGMAP_WRITE then Z.lor pte_flags PTE_W else pte_flags in
  r ← (if nbytes >? 0 then
         let start := ROUNDDOWN ptr PGSIZE in
         let stop := ROUNDUP (u64 (ptr + nbytes)) PGSIZE in
         if stop <=? start then mret (- E_INVAL)
         else access_loop fuel (Z.to_nat ((stop - start) / PGSIZE)) p start pte_flags reqflags 0
       else mret 0);
  when release (unlock_kobj p);;
  mret r.

(** ** Changing mappings *)

Definition at_invalidate_uaddrmap (p : Z) (uam : u_address_mapping) : M kern unit :=
  '(r, am) ← at_get_addrmap p (um_kslot uam);
  if r <? 0 then panic else
  a ← get_am am;
  if am_kobj a =? 0 then mret tt else
  l ← aml_get_list (am_kobj a);
  aml_remove l am;;
  at_invalidate_addrmap p am.

(** Interior mappings cover a whole interior page map. *)
Definition sanitize (u : u_address_mapping) : u_address_mapping :=
  if um_type u =? address_mapping_interior
  then Uam (um_type u) (um_object u) (um_kslot u) (um_flags u) (um_va u) 0 PIPAGES else u.
(** [uam_copy] is what was copied from user memory. *)
Definition at_set_uslot (p : Z) (uam_copy : u_address_mapping) : M kern Z :=
  let slot := um_kslot uam_copy in
  map_write_lock p;;
  n ← at_nents p;
  r ← (if slot >=? n then at_resize p (u64 (slot + 1)) else mret 0);
  if r <? 0 then map_write_unlock p;; mret r else
  '(r, u) ← at_get_uaddrmap p slot;
  if r <? 0 then map_write_unlock p;; mret r else
  uam ← get_uam u;
  when (negb (um_flags uam =? 0)) (at_invalidate_uaddrmap p uam);;
  put_uam u (sanitize uam_copy);;
  map_write_unlock p;;
  mret r.

Definition at_invalidate (p ps : Z) : M kern unit :=
  x ← get_at p;
  c_assert (negb (at_interior x));;
  y ← get_ps ps;
  if negb (ps_at y =? p) then mret tt else
  cur ← processor_sched;
  if ps =? cur then at_invalidate_range p 0 (ULIM - PGSIZE) else panic.

(** [struct u_address_tree] *)
Record u_address_tree := Uat {
  uat_size : Z; uat_nent : Z; uat_ents : Z;
  uat_trap_handler : Z; uat_trap_stack_base : Z; uat_trap_stack_top : Z;
}.
Definition set_um_kslot (i : Z) (u : u_address_mapping) : u_address_mapping :=
  Uam (um_type u) (um_object u) i (um_flags u) (um_va u) (um_start_page u) (um_num_pages u).
(** [uat] is what is at [ptr] in user memory. *)
Definition UAT_SIZE : Z := 48.
Definition at_check_uat (fuel : nat) (p ptr : Z) (uat : u_address_tree) : M kern Z :=
  r ← check_user_access fuel p ptr UAT_SIZE SEGMAP_WRITE;
  if r <? 0 then mret r else
  let '(len, overflow) := safe_mul64 0 UAM_SIZE (uat_size uat) in
  r ← check_user_access fuel p (uat_ents uat) len SEGMAP_WRITE;
  if r <? 0 then mret r else
  if negb (overflow =? 0) then mret (- E_INVAL) else mret 0.
(** The address tree of the running processor. *)
Definition sched_at : M kern Z := cur ← processor_sched; y ← get_ps cur; mret (ps_at y).
(** The loop of [at_from_user]; [ents] is the user's array, which is also written.  The
    access check covers [ents] up to its length. *)
Fixpoint from_user_loop (n : nat) (i p nent : Z) (ents : list u_address_mapping) : M kern (Z * list u_address_mapping) :=
  match n with
  | O => mret (0, ents)
  | S n' =>
      '(r, u) ← at_get_uaddrmap p i;
      if r <? 0 then mret (r, ents) else
      put_uam u zero_uam;;
      if i <? nent then
        e ← deref (λ _, ents !! Z.to_nat i);
        let e := set_um_kslot i (sanitize e) in
        put_uam u e;;
        from_user_loop n' (i + 1) p nent (<[Z.to_nat i := e]> ents)
      else from_user_loop n' (i + 1) p nent ents
  end.
(** [uat] and [ents] are what is at [ptr] and at [uat->ents] in user memory. *)
Definition at_from_user (fuel : nat) (p ptr : Z) (uat : u_address_tree) (ents : list u_address_mapping)
    : M kern (Z * list u_address_mapping) :=
  cur_at ← sched_at;
  r ← at_check_uat fuel cur_at ptr uat;
  if r <? 0 then mret (r, ents) else
  let nent := uat_nent uat in
  map_write_lock p;;
  n ← at_nents p;
  r ← (if nent >? n then at_resize p nent else mret 0);
  if r <? 0 then map_write_unlock p;; mret (r, ents) else
  at_clear_mappings p;;
  n ← at_nents p;
  '(r, ents) ← from_user_loop (Z.to_nat n) 0 p nent ents;
  when (0 <=? r) (upd_at p (set_at_utrap (uat_trap_handler uat) (uat_trap_stack_base uat) (uat_trap_stack_top uat)));;
  map_write_unlock p;;
  ps_list_lock p;;
  LIST_FOREACH (HPs p) (at_invalidate p);;
  ps_list_unlock p;;
  mret (r, ents).

(** The loop of [at_to_user]: the code, the entries copied out and their number. *)
Fixpoint to_user_loop (n : nat) (i p nent size : Z) (ents : list u_address_mapping) : M kern (Z * Z * list u_address_mapping) :=
  match n with
  | O => mret (0, nent, ents)
  | S n' =>
      '(r, u) ← at_get_uaddrmap p i;
      if r <? 0 then mret (r, nent, ents) else
      uam ← get_uam u;
      if um_flags uam =? 0 then to_user_loop n' (i + 1) p nent size ents else
      c_assert (um_kslot uam =? i);;
      if nent >=? size then mret (- E_NO_SPACE, nent, ents) else
      _ ← deref (λ _, ents !! Z.to_nat nent);
      to_user_loop n' (i + 1) p (nent + 1) size (<[Z.to_nat nent := uam]> ents)
  end.
Definition at_to_user (fuel : nat) (p ptr : Z) (uat : u_address_tree) (ents : list u_address_mapping)
    : M kern (Z * u_address_tree * list u_address_mapping) :=
  cur_at ← sched_at;
  r ← at_check_uat fuel cur_at ptr uat;
  if r <? 0 then mret (r, uat, ents) else
  map_read_lock p;;
  n ← at_nents p;
  '(r, nent, ents) ← to_user_loop (Z.to_nat n) 0 p 0 (uat_size uat) ents;
  x ← get_at p;
  map_read_unlock p;;
  mret (r, (if r <? 0 then uat else
            Uat (uat_size uat) nent (uat_ents uat) (at_utrap_entry x) (at_utrap_stack_base x) (at_utrap_stack_top x)), ents).
