(* ===== verification/Proc.v ===== *)
(** * Processors, callbacks and the collector

    kern/kern/processor.c, the callbacks that run when an object leaves a share, and the
    collector of kern/kern/kobj.c.  Halting a processor drops its shares, dropping a
    share calls back the objects in it, and an address tree that is called back may halt
    the processor: [depth] bounds that recursion. *)
From S2P Require Import Prelude Machine Hashtable Locks Ktypes Kmem PageAlloc Pagetree Darray KMap Pmap Mcsrw Kobj Share At.

(** ** Setters of [struct Processor] *)
Definition set_ps_at (a : Z) (r : sobj_ref) (p : Processor) : Processor :=
  MkPs (ps_tf p) (ps_fp_enabled p) (ps_pid p) (ps_running p) (ps_halt p) (ps_interval_hz p) (ps_mode p)
       (ps_sharemap p) (ps_monitor_obj p) a r (ps_at_link p).
Definition set_ps_running (b h : bool) (p : Processor) : Processor :=
  MkPs (ps_tf p) (ps_fp_enabled p) (ps_pid p) b h (ps_interval_hz p) (ps_mode p)
       (ps_sharemap p) (ps_monitor_obj p) (ps_at p) (ps_atref p) (ps_at_link p).
Definition set_ps_pid (pid : Z) (p : Processor) : Processor :=
  MkPs (ps_tf p) (ps_fp_enabled p) pid (ps_running p) (ps_halt p) (ps_interval_hz p) (ps_mode p)
       (ps_sharemap p) (ps_monitor_obj p) (ps_at p) (ps_atref p) (ps_at_link p).
Definition set_ps_tf (tf : Trapframe) (p : Processor) : Processor :=
  MkPs tf (ps_fp_enabled p) (ps_pid p) (ps_running p) (ps_halt p) (ps_interval_hz p) (ps_mode p)
       (ps_sharemap p) (ps_monitor_obj p) (ps_at p) (ps_atref p) (ps_at_link p).
Definition set_ps_mode (m : Z) (p : Processor) : Processor :=
  MkPs (ps_tf p) (ps_fp_enabled p) (ps_pid p) (ps_running p) (ps_halt p) (ps_interval_hz p) m
       (ps_sharemap p) (ps_monitor_obj p) (ps_at p) (ps_atref p) (ps_at_link p).
Definition set_ps_interval (hz : Z) (p : Processor) : Processor :=
  MkPs (ps_tf p) (ps_fp_enabled p) (ps_pid p) (ps_running p) (ps_halt p) hz (ps_mode p)
       (ps_sharemap p) (ps_monitor_obj p) (ps_at p) (ps_atref p) (ps_at_link p).
Definition set_ps_fp (b : bool) (p : Processor) : Processor :=
  MkPs (ps_tf p) b (ps_pid p) (ps_running p) (ps_halt p) (ps_interval_hz p) (ps_mode p)
       (ps_sharemap p) (ps_monitor_obj p) (ps_at p) (ps_atref p) (ps_at_link p).
Definition set_ps_monitor (l : list sobj_ref) (p : Processor) : Processor :=
  MkPs (ps_tf p) (ps_fp_enabled p) (ps_pid p) (ps_running p) (ps_halt p) (ps_interval_hz p) (ps_mode p)
       (ps_sharemap p) l (ps_at p) (ps_atref p) (ps_at_link p).

(** ** Attaching processors to address trees (kern/kern/at.c) *)

Definition at_detach (p ps : Z) : M kern unit :=
  y ← get_ps ps;
  c_assert (ps_at y =? p);;
  ps_list_lock p;;
  LIST_REMOVE (HPs p) ps;;
  ps_list_unlock p.
Definition at_attach (p ps : Z) : M kern unit :=
  ps_list_lock p;; LIST_INSERT_HEAD (HPs p) ps;; ps_list_unlock p.
Definition at_set_current (p : Z) : M kern unit :=
  if p =? 0 then log (EPmap 0) else x ← get_at p; log (EPmap (at_pgmap x)).

(** ** Iterating over the objects of a map *)

Fixpoint map_loop (fuel : nat) (next : Map_iter → M kern (Z * option (Z * Z) * Map_iter)) (it : Map_iter)
    (body : Z → M kern unit) : M kern unit :=
  match fuel with
  | O => crash NoFuel
  | S fuel' =>
      '(more, kv, it) ← next it;
      match kv with
      | None => mret tt
      | Some (_, v) => body v;; map_loop fuel' next it body
      end
  end.
Definition iter_fuel (mp : Map) : nat := S (Z.to_nat (mp_npages mp * N_HASHENTRY_PER_PAGE)).
Definition share_foreach (sh : Z) (body : Z → M kern unit) : M kern unit :=
  x ← get_sh sh;
  it ← on_sh_map sh map_iter_init;
  map_loop (iter_fuel (sh_kobject_map x)) (λ it, on_sh_map sh (map_iter_next it)) it body.
Definition sharemap_foreach (ps : Z) (body : Z → M kern unit) : M kern unit :=
  m ← get_sm ps;
  it ← on_sm_map ps map_iter_init;
  map_loop (iter_fuel (sm_map m)) (λ it, on_sm_map ps (map_iter_next it)) it body.

(** ** Halting, and objects that go out of scope *)

(** [share_scope_change]; [at_scope] is [at_scope_cb]. *)
Definition scope_change (at_scope : Z → Z → Z → M kern unit) (sh scope_ps : Z) : M kern unit :=
  sharemu_read_lock sh;;
  hs ← get_hdr sh;
  share_foreach sh (λ sb,
    i ← get_info_blob sb;
    h ← get_hdr (si_ko i);
    if ko_type h =? kobj_segment then segment_scope_cb (si_ko i) (ko_id hs) scope_ps
    else if ko_type h =? kobj_address_tree then at_scope (si_ko i) (ko_id hs) scope_ps
    else if (kobj_address_tree <? ko_type h) && (ko_type h <? kobj_ntypes) then mret tt
    else panic);;
  sharemu_read_unlock sh.

(** [sharemap_clear] *)
Definition sharemap_clear_with (change : Z → Z → M kern unit) (ps : Z) : M kern unit :=
  sm_spin_lock ps;;
  sharemap_foreach ps (λ ko,
    m ← get_sm ps;
    change ko (sm_owner m);;
    kobject_decref ko);;
  m ← get_sm ps;
  let pid := mp_pid (sm_map m) in
  on_sm_map ps map_free;;
  upd_sm ps (set_sm_map (map_init pid));;
  sm_spin_unlock ps.

(** One level of [processor_halt]: 1 if the processor was the running one. *)
Definition halt_step (clear : Z → M kern unit) (ps : Z) : M kern Z :=
  lock_kobj ps;;
  cur ← processor_sched;
  x ← get_ps ps;
  if negb (ps =? cur) then
    upd_ps ps (λ p, set_ps_running (ps_running p) true p);;
    log (EHalt (ps_pid x));;
    unlock_kobj ps;;
    mret 0
  else
    at_set_current 0;;
    at_detach (ps_at x) ps;;
    upd_ps ps (set_ps_at 0 (Sobj 0 0));;
    log (ETimer (ps_pid x) 0);;
    clear ps;;
    unlock_kobj ps;;
    modify (λ s, set_procs (<[ps_pid x := 0]> (kn_procs s)) s);;
    upd_ps ps (λ p, set_ps_running false (ps_halt p) p);;
    mret 1.

Fixpoint at_scope_cb (depth : nat) (p sh scope_ps : Z) : M kern unit :=
  match depth with
  | O => crash NoFuel
  | S depth' =>
      kobj_cache_flush p;;
      x ← get_at p;
      if at_interior x then aml_scope p sh scope_ps else
      y ← get_ps scope_ps;
      when ((p =? ps_at y) && (sh =? so_share (ps_atref y)))
        (halt_step (sharemap_clear_with (scope_change (at_scope_cb depth'))) scope_ps;; mret tt)
  end.
(** A processor is not in an address tree any more when its shares are dropped, so the
    recursion stops at the second level. *)
Definition scope_depth : nat := 3.
Definition share_scope_change (sh scope_ps : Z) : M kern unit := scope_change (at_scope_cb scope_depth) sh scope_ps.
Definition sharemap_clear (ps : Z) : M kern unit := sharemap_clear_with share_scope_change ps.
Definition processor_halt (ps : Z) : M kern Z := halt_step sharemap_clear ps.

Definition sharemap_remove (ps id : Z) : M kern Z :=
  sm_spin_lock ps;;
  '(r, sh) ← on_sm_map ps (map_get id 0);
  when (r =? 0) (e ← on_sm_map ps (map_erase id); c_assert (e =? 0));;
  sm_spin_unlock ps;;
  when (r =? 0) (
    m ← get_sm ps;
    share_scope_change sh (sm_owner m);;
    kobject_decref sh);;
  mret r.

(** The loop of [at_remove_cb]. *)
Fixpoint remove_loop (fuel : nat) (p sh ps prev : Z) : M kern unit :=
  match fuel with
  | O => crash NoFuel
  | S fuel' =>
      if ps =? 0 then mret tt else
      y ← get_ps ps;
      c_assert (ps_at y =? p);;
      r ← (if so_share (ps_atref y) =? sh then processor_halt ps else mret 0);
      if negb (r =? 0) then
        n ← (if prev =? 0 then LIST_FIRST (HPs p) else LIST_NEXT (HPs p) prev);
        remove_loop fuel' p sh n prev
      else
        n ← LIST_NEXT (HPs p) ps;
        remove_loop fuel' p sh n ps
  end.
Definition at_remove_cb (p sh : Z) : M kern unit :=
  kobj_cache_flush p;;
  x ← get_at p;
  if at_interior x then aml_invalidate p sh else
  ps_list_lock p;;
  fuel ← gets list_fuel;
  ps ← LIST_FIRST (HPs p);
  remove_loop fuel p sh ps 0;;
  ps_list_unlock p.

(** ** The collector *)

Definition at_gc_cb (p : Z) : M kern unit :=
  kobj_cache_flush p;;
  at_clear_mappings p;;
  uam_array p (λ a, a' ← darray_free a; mret (tt, a'));;
  am_array p (λ a, a' ← darray_free a; mret (tt, a'));;
  x ← get_at p;
  on_kmem (page_map_free (at_pgmap x)).

Definition share_remove_kobj (sh ko : Z) : M kern unit :=
  h ← get_hdr ko;
  hs ← get_hdr sh;
  if ko_type h =? kobj_segment then segment_remove_cb ko (ko_id hs)
  else if ko_type h =? kobj_address_tree then at_remove_cb ko (ko_id hs)
  else if (kobj_address_tree <? ko_type h) && (ko_type h <? kobj_ntypes) then mret tt
  else panic.
Definition share_gc_cb (sh : Z) : M kern unit :=
  share_foreach sh (λ sb,
    i ← get_info_blob sb;
    c_assert (si_co i =? 0);;
    share_remove_kobj sh (si_ko i);;
    kobject_decref (si_ko i));;
  on_sh_map sh map_free;;
  for_each (Z.to_nat JOS_NCPU) 0 (λ i,
    b ← get_store sh i;
    pt ← on_kmem (pagetree_free (ss_pt b));
    put_store sh i (ShStore (ss_free b) (ss_npages b) pt)).

Definition free_processor (pid : Z) : M kern unit :=
  s ← get;
  c_assert (per_cpu (kn_pfree s) pid =? 1);;
  modify (λ s, set_pfree (<[pid := 0]> (kn_pfree s)) s).
(** A processor that another CPU runs keeps running until that CPU has seen the
    interrupt: waiting for it here is a hang. *)
Definition processor_gc_cb (ps : Z) : M kern unit :=
  x ← get_ps ps;
  when (ps_running x) (
    processor_halt ps;;
    x ← get_ps ps;
    if ps_running x then crash Hang else mret tt);;
  sharemap_free ps;;
  x ← get_ps ps;
  free_processor (ps_pid x).

Definition gc_cb (type ko : Z) : M kern unit :=
  if type =? kobj_segment then segment_gc_cb ko
  else if type =? kobj_address_tree then at_gc_cb ko
  else if type =? kobj_processor then processor_gc_cb ko
  else if type =? kobj_share then share_gc_cb ko
  else if type =? kobj_device then mret tt
  else panic.
Fixpoint gc_loop (fuel : nat) (cpu : Z) : M kern unit :=
  match fuel with
  | O => crash NoFuel
  | S fuel' =>
      ko ← LIST_FIRST (HGc cpu);
      if ko =? 0 then mret tt else
      LIST_REMOVE (HGc cpu) ko;;
      n ← kobject_getref ko;
      if negb (n =? 0) then gc_loop fuel' cpu else
      h ← get_hdr ko;
      gc_cb (ko_type h) ko;;
      kobject_free ko;;
      gc_loop fuel' cpu
  end.
Definition kobject_gc_scan : M kern unit :=
  cpu ← cpu_id; fuel ← gets list_fuel; gc_loop fuel cpu.

(** ** Processors (kern/kern/processor.c) *)

Definition alloc_processor (pid : Z) : M kern Z :=
  s ← get;
  if pid >=? kn_ncpu s then mret (- E_INVAL) else
  let '(v, old) := jos_atomic_compare_exchange (per_cpu (kn_pfree s) pid) 0 1 in
  modify (λ s, set_pfree (<[pid := v]> (kn_pfree s)) s);;
  if old =? 0 then mret 0 else mret (- E_BUSY).
Definition processor_alloc (pid : Z) : M kern (Z * Z) :=
  r ← alloc_processor pid;
  if r <? 0 then mret (r, 0) else
  '(r, ko) ← kobject_alloc kobj_processor pid;
  if r <? 0 then free_processor pid;; mret (r, 0) else
  sharemap_init ko pid ko (-1);;
  upd_ps ko (set_ps_pid pid);;
  mret (0, ko).

Definition processor_add_share (ps sh : Z) : M kern Z := sharemap_add ps sh.
Definition processor_remove_share (ps id : Z) : M kern Z := sharemap_remove ps id.
Definition processor_get_share (ps id : Z) : M kern (Z * Z) := sharemap_get ps id.
Definition processor_import_obj (ps sh_id ko : Z) : M kern Z :=
  '(r, sh) ← processor_get_share ps sh_id;
  if r <? 0 then mret r else share_import_obj sh ko.
Definition processor_co_obj (ps : Z) (oref : sobj_ref) (type : Z) : M kern (Z * Z) := sharemap_co_obj ps oref type.
Definition processor_remove_obj (ps : Z) (oref : sobj_ref) : M kern Z :=
  '(r, sh) ← processor_get_share ps (so_share oref);
  if r <? 0 then mret r else share_remove_obj sh (so_object oref).

(** [struct u_context] (inc/context.h) *)
Record u_context := MkUc {
  uc_at : sobj_ref; uc_mode : Z; uc_entry : Z; uc_stack : Z; uc_share : list sobj_ref; uc_arg : list Z;
}.
Definition ps_mode_reg : Z := 0.
Definition ps_mode_vm : Z := 1.
Definition ps_mode_mon : Z := 2.
Definition FL_IF : Z := 0x200.
Definition GD_UD : Z := Z.lor 0x20 0x03.
Definition GD_UT_NMASK : Z := Z.lor 0x28 0x03.
Definition GD_UT_MASK : Z := Z.lor 0x30 0x03.
(** [processor_arch_vector] of kern/arch/amd64/trap.c *)
Definition processor_arch_vector (ps : Z) (uc : u_context) : M kern Z :=
  if uc_mode uc =? ps_mode_vm then panic else
  let arg i := default 0 (uc_arg uc !! i) in
  upd_ps ps (set_ps_tf (MkTf 0 0 (arg 3%nat) (arg 2%nat) (arg 1%nat) (arg 0%nat) 0 (uc_stack uc) (arg 4%nat) (arg 5%nat) 0 0 0 0 0 0
    (uc_entry uc) FL_IF (Z.lor GD_UT_NMASK 3) (Z.lor GD_UD 3) (Z.lor GD_UD 3) (Z.lor GD_UD 3) (Z.lor GD_UD 3) (Z.lor GD_UD 3)));;
  mret 0.

(** The first loop of [processor_vector]: the shares the new processor gets. *)
Fixpoint vector_shares (ps : Z) (l : list sobj_ref) : M kern Z :=
  match l with
  | [] => mret 0
  | o :: l' =>
      if so_share o =? 0 then mret 0 else
      cur ← processor_sched;
      '(r, ko) ← processor_co_obj cur o kobj_share;
      if r <? 0 then mret r else
      r ← processor_add_share ps ko;
      if r <? 0 then mret r else vector_shares ps l'
  end.
Definition processor_vector (ps : Z) (uc : u_context) : M kern Z :=
  assert_locked ps;;
  x ← get_ps ps;
  if ps_running x then mret (- E_BUSY) else
  r ← vector_shares ps (uc_share uc);
  if r <? 0 then mret r else
  '(r, ko) ← processor_co_obj ps (uc_at uc) kobj_address_tree;
  if r <? 0 then mret r else
  r ← processor_arch_vector ps uc;
  if r <? 0 then mret r else
  at_attach ko ps;;
  upd_ps ps (set_ps_at ko (uc_at uc));;
  upd_ps ps (set_ps_mode (uc_mode uc));;
  upd_ps ps (set_ps_running true false);;
  x ← get_ps ps;
  modify (λ s, set_procs (<[ps_pid x := ps]> (kn_procs s)) s);;
  mret 0.

Definition processor_pagefault (fuel : nat) (ps va reqflags : Z) : M kern Z :=
  x ← get_ps ps; at_pagefault fuel (ps_at x) va reqflags.
Definition processor_set_interval (ps hz : Z) : M kern unit :=
  assert_locked ps;;
  upd_ps ps (set_ps_interval hz);;
  x ← get_ps ps;
  when (ps_running x) (log (ETimer (ps_pid x) hz)).
(** The test is [i > array_size(ps->ps_monitor_obj)]; the array has [NDEVICES_PER_MONITOR]
    elements. *)
Definition processor_set_device (ps i : Z) (o : sobj_ref) : M kern Z :=
  assert_locked ps;;
  if i >? NDEVICES_PER_MONITOR then mret (- E_NO_SPACE) else
  x ← get_ps ps;
  _ ← deref (λ _, ps_monitor_obj x !! Z.to_nat i);
  put_ps ps (set_ps_monitor (<[Z.to_nat i := o]> (ps_monitor_obj x)) x);;
  mret 0.
Definition processor_enable_fp (ps : Z) : M kern unit := upd_ps ps (set_ps_fp true).
(** [processor_run] up to the switch to user mode: the scans, and the processor that runs
    next; a CPU without one waits. *)
Definition processor_run : M kern Z :=
  share_action_scan;;
  kobject_gc_scan;;
  ps ← processor_sched;
  if ps =? 0 then crash Hang else
  x ← get_ps ps;
  if ps_mode x =? ps_mode_mon then mret ps else
  at_set_current (ps_at x);;
  mret ps.
