(* ===== verification/Syscall.v ===== *)
(** * System calls on kernel objects (kern/kern/syscall.c)

    The handlers for shares, segments, processors and address trees.  [src] is the
    calling processor.  A name or struct that a handler copies from user memory is an
    argument, [None] when the access faults; [boot] is the kernel's half of page maps.
    A negative result is an error code, anything else the result of the call. *)
From S2P Require Import Prelude Machine Hashtable Locks Ktypes Kmem PageAlloc Pagetree Darray KMap Pmap Mcsrw Kobj Share At Proc.

(** [check(expr)]: a negative code is returned at once. *)
Definition check (c : M kern Z) (k : Z → M kern Z) : M kern Z := r ← c; if r <? 0 then mret r else k r.
Definition check2 (c : M kern (Z * Z)) (k : Z → M kern Z) : M kern Z := '(r, x) ← c; if r <? 0 then mret r else k x.
(** [locked_call] and [locked_void_call] *)
Definition locked_call {A} (ko : Z) (c : M kern A) : M kern A := lock_kobj ko;; r ← c; unlock_kobj ko;; mret r.
(** [uaccess_start], [kobject_set_name], [uaccess_stop] *)
Definition set_name (ko : Z) (name : option (list Z)) (k : M kern Z) : M kern Z :=
  match name with None => mret (- E_INVAL) | Some n => kobject_set_name ko n;; k end.
Definition ret_id (ko : Z) : M kern Z := h ← get_hdr ko; mret (s64 (ko_id h)).

Definition sys_share_alloc (src sh_id mask : Z) (name : option (list Z)) (pid : Z) : M kern Z :=
  check2 (share_alloc mask pid) (λ sh,
  set_name sh name (
  check (processor_import_obj src sh_id sh) (λ _,
  check (processor_add_share src sh) (λ _,
  ret_id sh)))).

Definition sys_share_addref (src dst_sh_id src_sh_id obj_id : Z) : M kern Z :=
  check2 (processor_get_share src dst_sh_id) (λ dst_sh,
  check2 (processor_get_share src src_sh_id) (λ src_sh,
  check2 (share_co_obj src_sh obj_id kobj_any) (λ obj,
  h ← get_hdr obj;
  if ko_type h =? kobj_share then mret (- E_INVAL) else
  check (share_import_obj dst_sh obj) (λ _, mret 0)))).

Definition sys_share_unref (src sh_id obj_id : Z) : M kern Z :=
  check (processor_remove_obj src (Sobj sh_id obj_id)) (λ _, mret 0).

Definition sys_segment_alloc (src sh_id num_bytes : Z) (name : option (list Z)) (pid : Z) : M kern Z :=
  check2 (segment_alloc pid) (λ sg,
  set_name sg name (
  check (segment_set_nbytes sg num_bytes) (λ _,
  check (processor_import_obj src sh_id sg) (λ _,
  ret_id sg)))).

Definition sys_segment_copy (src dst_sh : Z) (obj : sobj_ref) (name : option (list Z)) (mode pid : Z) : M kern Z :=
  check2 (processor_co_obj src obj kobj_segment) (λ ko,
  check2 (locked_call ko (segment_copy ko (s32 mode) pid)) (λ new_sg,
  set_name new_sg name (
  check (processor_import_obj src dst_sh new_sg) (λ _,
  ret_id new_sg)))).

Definition sys_segment_get_nbytes (src : Z) (obj : sobj_ref) : M kern Z :=
  check2 (processor_co_obj src obj kobj_segment) (λ ko,
  n ← segment_get_npage ko; mret (s64 (u64 (n * PGSIZE)))).

Definition sys_segment_set_nbytes (src : Z) (obj : sobj_ref) (nbytes : Z) : M kern Z :=
  check2 (processor_co_obj src obj kobj_segment) (λ ko,
  check (segment_set_nbytes ko nbytes) (λ _, mret 0)).

Definition sys_processor_alloc (src sh : Z) (name : option (list Z)) (pid : Z) : M kern Z :=
  check2 (processor_alloc pid) (λ ps,
  check (processor_import_obj src sh ps) (λ _,
  set_name ps name (
  ret_id ps))).
Definition sys_processor_current (src : Z) : M kern Z := ret_id src.
Definition sys_processor_vector (src : Z) (obj : sobj_ref) (uc : option u_context) : M kern Z :=
  match uc with
  | None => mret (- E_INVAL)
  | Some uc2 =>
      check2 (processor_co_obj src obj kobj_processor) (λ ps,
      check (locked_call ps (processor_vector ps uc2)) (λ _, mret 0))
  end.
Definition sys_processor_set_interval (src : Z) (obj : sobj_ref) (hz : Z) : M kern Z :=
  check2 (processor_co_obj src obj kobj_processor) (λ ko,
  locked_call ko (processor_set_interval ko hz);; mret 0).
Definition sys_processor_halt (src : Z) (obj : sobj_ref) : M kern Z :=
  check2 (processor_co_obj src obj kobj_processor) (λ ko,
  processor_halt ko;; mret 0).
Definition sys_processor_set_device (src : Z) (psref : sobj_ref) (i : Z) (devref : sobj_ref) : M kern Z :=
  check2 (processor_co_obj src psref kobj_processor) (λ ko,
  check (locked_call ko (processor_set_device ko i devref)) (λ _, mret 0)).

Definition sys_self_fp_enable (src x : Z) : M kern Z := locked_call src (processor_enable_fp src);; mret 0.
Definition sys_self_drop_share (src sh_id : Z) : M kern Z :=
  check (processor_remove_share src sh_id) (λ _, mret 0).
Definition sys_self_get_pid (src : Z) : M kern Z := p ← get_ps src; mret (s32 (ps_pid p)).

Definition sys_at_alloc (boot : gmap Z Z) (src sh_id interior : Z) (name : option (list Z)) (pid : Z) : M kern Z :=
  check2 (at_alloc boot (u8 interior) pid) (λ p,
  check (processor_import_obj src sh_id p) (λ _,
  set_name p name (
  ret_id p))).
Definition sys_at_set_slot (src : Z) (atref : sobj_ref) (uam : option u_address_mapping) : M kern Z :=
  check2 (processor_co_obj src atref kobj_address_tree) (λ p,
  match uam with
  | None => mret (- E_INVAL)
  | Some u => check (at_set_uslot p u) (λ _, mret 0)
  end).
(** [fuel] bounds the page faults of the access checks; [uat] and [ents] are what is at
    [ptr] and [uat->ents] in user memory, before the call and after it. *)
Definition sys_at_get (fuel : nat) (src : Z) (atref : sobj_ref) (ptr : Z) (uat : u_address_tree) (ents : list u_address_mapping)
    : M kern (Z * u_address_tree * list u_address_mapping) :=
  '(r, p) ← processor_co_obj src atref kobj_address_tree;
  if r <? 0 then mret (r, uat, ents) else
  '(r, uat, ents) ← at_to_user fuel p ptr uat ents;
  mret (if r <? 0 then r else 0, uat, ents).
Definition sys_at_set (fuel : nat) (src : Z) (atref : sobj_ref) (ptr : Z) (uat : u_address_tree) (ents : list u_address_mapping)
    : M kern (Z * list u_address_mapping) :=
  '(r, p) ← processor_co_obj src atref kobj_address_tree;
  if r <? 0 then mret (r, ents) else
  '(r, ents) ← at_from_user fuel p ptr uat ents;
  mret (if r <? 0 then r else 0, ents).
