(* ===== verification/KobjThms.v ===== *)
(** * Kernel objects: lists, identifiers, allocation

    The lists of inc/queue.h refine lists of elements, for every kind of head: the class
    [ListMem] says what reading and writing links and heads of one kind does, its
    instances are the heads of the kernel, and the lemmas on insertion and removal are
    proved once.  Then the identifiers and [kobject_alloc]. *)
From S2P Require Import Prelude Machine Hashtable Locks Ktypes Kmem PageAlloc Pagetree PageRefs KMap Kobj.

(** ** Lists *)

(** [l] is the list at [h]: the forward pointers run through it and every [le_prev]
    points back at the pointer that points to its element. *)
Definition next_of (l : list Z) (i : nat) : Z := default 0 (l !! S i).
Definition prev_of (h : lhead) (l : list Z) (i : nat) : lptr :=
  match i with O => PHead h | S j => PNext (default 0 (l !! j)) end.
Record lrep (s : kern) (h : lhead) (l : list Z) : Prop := LRep {
  lr_first : first_at s h = Some (default 0 (head l));
  lr_link : ∀ i e, l !! i = Some e → link_at s h e = Some (Link (next_of l i) (Some (prev_of h l i)));
  lr_nodup : NoDup l;
  lr_nonzero : ∀ e, e ∈ l → e ≠ 0;
}.

(** Writing the link of an [ok] element or the head of [h]: the rest of the list memory of
    [h] stays, and [F] bounds what else changes. *)
Class ListMem (h : lhead) (F : relation kern) (ok : Z → Prop) := {
  lm_refl : Reflexive F;
  lm_trans : Transitive F;
  lm_link s e lk l0 : ok e → raw_link s h e = Some l0 →
    ∃ s', put_link h e lk s = Ret tt s' ∧ F s s' ∧ first_at s' h = first_at s h ∧
          ∀ e', link_at s' h e' = (if decide (e' = e) then Some lk else link_at s h e') ∧
                raw_link s' h e' = (if decide (e' = e) then Some lk else raw_link s h e');
  lm_first s x x0 : first_at s h = Some x0 →
    ∃ s', set_first h x s = Ret tt s' ∧ F s s' ∧ first_at s' h = Some x ∧
          ∀ e, link_at s' h e = link_at s h e ∧ raw_link s' h e = raw_link s h e;
  lm_raw s e lk : link_at s h e = Some lk → raw_link s h e = Some lk;
}.

Section lists.
Context (h : lhead) (F : relation kern) (ok : Z → Prop) {LM : ListMem h F ok}.
Implicit Types (s : kern) (e : Z).

Lemma wp_put_link s e lk l0 (Q : unit → kern → Prop) :
  ok e → raw_link s h e = Some l0 →
  (∀ s', F s s' → first_at s' h = first_at s h →
         (∀ e', link_at s' h e' = (if decide (e' = e) then Some lk else link_at s h e')) →
         (∀ e', raw_link s' h e' = (if decide (e' = e) then Some lk else raw_link s h e')) → Q tt s') →
  wp (put_link h e lk) s Q.
Proof.
  intros Ho Hr HQ. destruct (lm_link s e lk l0 Ho Hr) as (s' & Hp & HF & Hf & Hl). eapply wp_eq; [exact Hp|].
  apply HQ; [done|done|intros e'; apply Hl|intros e'; apply Hl].
Qed.
Lemma wp_set_first s x x0 (Q : unit → kern → Prop) :
  first_at s h = Some x0 →
  (∀ s', F s s' → first_at s' h = Some x → (∀ e, link_at s' h e = link_at s h e) → (∀ e, raw_link s' h e = raw_link s h e) → Q tt s') →
  wp (set_first h x) s Q.
Proof.
  intros Hr HQ. destruct (lm_first s x x0 Hr) as (s' & Hp & HF & Hf & Hl). eapply wp_eq; [exact Hp|].
  apply HQ; [done|done|intros e; apply Hl|intros e; apply Hl].
Qed.
Lemma wp_set_next s e x l0 (Q : unit → kern → Prop) :
  ok e → raw_link s h e = Some l0 →
  (∀ s', F s s' → first_at s' h = first_at s h →
         (∀ e', link_at s' h e' = (if decide (e' = e) then Some (Link x (le_prev l0)) else link_at s h e')) →
         (∀ e', raw_link s' h e' = (if decide (e' = e) then Some (Link x (le_prev l0)) else raw_link s h e')) → Q tt s') →
  wp (set_next h e x) s Q.
Proof. intros Ho Hr HQ. unfold set_next. wp_pure. eapply wp_deref; [exact Hr|]. by eapply wp_put_link. Qed.
Lemma wp_set_prev s e p l0 (Q : unit → kern → Prop) :
  ok e → raw_link s h e = Some l0 →
  (∀ s', F s s' → first_at s' h = first_at s h →
         (∀ e', link_at s' h e' = (if decide (e' = e) then Some (Link (le_next l0) p) else link_at s h e')) →
         (∀ e', raw_link s' h e' = (if decide (e' = e) then Some (Link (le_next l0) p) else raw_link s h e')) → Q tt s') →
  wp (set_prev h e p) s Q.
Proof. intros Ho Hr HQ. unfold set_prev. wp_pure. eapply wp_deref; [exact Hr|]. by eapply wp_put_link. Qed.

(** [LIST_INSERT_HEAD] *)
Lemma insert_head_wp s l e l0 (Q : unit → kern → Prop) :
  (∀ x, x ∈ e :: l → ok x) → lrep s h l → e ∉ l → e ≠ 0 → raw_link s h e = Some l0 →
  (∀ s', lrep s' h (e :: l) → F s s' → (∀ e', e' ≠ e → e' ∉ l → link_at s' h e' = link_at s h e') → Q tt s') →
  wp (LIST_INSERT_HEAD h e) s Q.
Proof.
  intros Hok [Hf Hl Hnd Hnz] He H0 Hr HQ. assert (Hoe : ok e) by (apply Hok; by left). pose proof (lm_refl (h:=h)) as HFr. pose proof (lm_trans (h:=h)) as HFt.
  unfold LIST_INSERT_HEAD. wp_pure. unfold LIST_FIRST. eapply wp_deref; [exact Hf|]. wp_pure.
  eapply wp_set_next; [done|exact Hr|]. intros s1 F1 Hf1 Hl1 Hr1. wp_pure.
  assert (Hend : ∀ s2, F s1 s2 → first_at s2 h = first_at s1 h →
    (∀ i x, l !! i = Some x → link_at s2 h x = Some (Link (next_of l i) (Some (match i with O => PNext e | S j => PNext (default 0 (l !! j)) end)))) →
    (∀ e', e' ∉ l → link_at s2 h e' = link_at s1 h e' ∧ raw_link s2 h e' = raw_link s1 h e') →
    wp (set_first h e;; set_prev h e (Some (PHead h))) s2 Q).
  { intros s2 F2 Hf2 Hl2 Ho2. wp_pure. eapply wp_set_first; [by rewrite Hf2, Hf1|]. intros s3 F3 Hf3 Hl3 Hr3.
    assert (Hre : raw_link s3 h e = Some (Link (default 0 (head l)) (le_prev l0))).
    { rewrite Hr3, (proj2 (Ho2 e He)), Hr1. by rewrite decide_True. }
    eapply wp_set_prev; [done|exact Hre|]. intros s4 F4 Hf4 Hl4 _. apply HQ.
    - split.
      + by rewrite Hf4.
      + intros [|i] x Hx.
        * injection Hx as <-. rewrite Hl4, decide_True by done. unfold next_of. cbn. by destruct l.
        * cbn in Hx. rewrite Hl4, decide_False by (intros ->; by apply He, list_elem_of_lookup_2 with i).
          rewrite Hl3, (Hl2 i x Hx). unfold next_of, prev_of. by destruct i.
      + by apply NoDup_cons.
      + intros x [->|Hx]%elem_of_cons; [done|by apply Hnz].
    - do 3 (etrans; [eassumption|]). done.
    - intros e' Hne Hnl. rewrite Hl4, decide_False by done. by rewrite Hl3, (proj1 (Ho2 e' Hnl)), Hl1, decide_False. }
  destruct l as [|x l].
  - apply wp_when_false; [done|]. apply Hend; [done|done|done|].
    intros e' _. done.
  - change (default 0 (head (x :: l))) with x. assert (Hx0 : x ≠ 0) by (apply Hnz; by left). apply wp_when_true; [by rewrite (proj2 (Z.eqb_neq _ _) Hx0)|].
    assert (Hxe : x ≠ e) by (intros ->; apply He; by left).
    assert (Hrx : raw_link s1 h x = Some (Link (next_of (x :: l) 0) (Some (PHead h)))).
    { rewrite Hr1, decide_False by done. apply lm_raw. by apply (Hl 0%nat x). }
    eapply wp_set_prev; [apply Hok; right; by left|exact Hrx|]. intros s2 F2 Hf2 Hl2 Hr2. apply Hend; [done|by rewrite Hf2| |].
    + intros [|i] y Hy.
      * injection Hy as <-. by rewrite Hl2, decide_True.
      * rewrite Hl2, decide_False.
        -- rewrite Hl1, decide_False by (intros ->; by apply He, list_elem_of_lookup_2 with (S i)). by rewrite (Hl (S i) y Hy).
        -- intros ->. assert (S i = 0%nat) by (eapply NoDup_lookup; [exact Hnd|done|done]). done.
    + intros e' Hnl. assert (e' ≠ x) by (intros ->; apply Hnl; by left). by rewrite Hl2, Hr2, !decide_False.
Qed.

(** What the links must be after the element at index [k] has left. *)
Lemma delete_links l k e (lk : Z → option link) (lk0 : Z → option link) :
  NoDup l → l !! k = Some e →
  (∀ i x, l !! i = Some x → lk0 x = Some (Link (next_of l i) (Some (prev_of h l i)))) →
  (∀ x, x ≠ e → lk x =
     match lk0 x with
     | Some (Link n p) => Some (Link (if decide (k ≠ 0%nat ∧ l !! pred k = Some x) then next_of l k else n)
                                     (if decide (l !! S k = Some x) then Some (prev_of h l k) else p))
     | None => None
     end) →
  ∀ i x, delete k l !! i = Some x → lk x = Some (Link (next_of (delete k l) i) (Some (prev_of h (delete k l) i))).
Proof.
  intros Hnd Hk Hold Hnew i x Hx.
  assert (A : ∀ i, (i < k)%nat → delete k l !! i = l !! i) by (intros; by apply list_lookup_delete_lt).
  assert (B : ∀ i, (k ≤ i)%nat → delete k l !! i = l !! S i) by (intros; by apply list_lookup_delete_ge).
  assert (U : ∀ a b y, l !! a = Some y → l !! b = Some y → a = b) by (intros a b y Ha Hb; by eapply (NoDup_lookup l)).
  assert (∃ i0, l !! i0 = Some x ∧ i0 ≠ k ∧ (i0 = i ∧ (i < k)%nat ∨ i0 = S i ∧ (k ≤ i)%nat)) as (i0 & Hi0 & Hne & Ei).
  { destruct (decide (i < k)%nat) as [Hd|Hd]; [exists i; rewrite A in Hx by done; split_and!; [done|lia|by left]|].
    exists (S i). rewrite B in Hx by lia. split_and!; [done|lia|right; lia]. }
  rewrite Hnew by (intros ->; apply Hne; by eapply U). rewrite (Hold i0 x Hi0). clear Hnew Hold Hx. f_equal. f_equal.
  - unfold next_of. destruct (decide _) as [(Hk0 & Hj)|Hd].
    + pose proof (U _ _ _ Hj Hi0). assert (k = S i) as -> by lia. by rewrite B by lia.
    + destruct Ei as [[-> ?]|[-> ?]].
      * destruct (decide (S i = k)) as [<-|]; [by destruct Hd|]. by rewrite A by lia.
      * by rewrite B by lia.
  - unfold prev_of. destruct (decide _) as [Hd|Hd].
    + pose proof (U _ _ _ Hi0 Hd). assert (i = k) as -> by lia. destruct k as [|k']; [done|]. by rewrite A by lia.
    + f_equal. destruct Ei as [[-> ?]|[-> ?]].
      * destruct i as [|i']; [done|]. by rewrite A by lia.
      * assert (i ≠ k) by (intros ->; by apply Hd). destruct i as [|i']; [lia|]. by rewrite B by lia.
Qed.

(** [LIST_REMOVE] of the element at index [k]. *)
Lemma remove_wp s l k e (Q : unit → kern → Prop) :
  (∀ x, x ∈ l → ok x) → lrep s h l → l !! k = Some e →
  (∀ s', lrep s' h (delete k l) → F s s' → (∀ e', e' ∉ l → link_at s' h e' = link_at s h e') → Q tt s') →
  wp (LIST_REMOVE h e) s Q.
Proof.
  intros Hok [Hf Hl Hnd Hnz] Hk HQ. pose proof (lm_refl (h:=h)) as HFr. pose proof (lm_trans (h:=h)) as HFt.
  unfold LIST_REMOVE, get_link. wp_pure. eapply wp_deref; [by apply (Hl k e)|]. cbn [le_next le_prev]. wp_pure.
  assert (Hthru : ∀ s1, F s s1 → first_at s1 h = first_at s h →
    (∀ x, link_at s1 h x = if decide (l !! S k = Some x) then Some (Link (next_of l (S k)) (Some (prev_of h l k))) else link_at s h x) →
    wp (set_through h (Some (prev_of h l k)) (next_of l k)) s1 Q).
  { intros s1 F1 Hf1 Hl1.
    assert (Hdone : ∀ s2, F s1 s2 → first_at s2 h = Some (default 0 (head (delete k l))) →
      (∀ x, link_at s2 h x = match k with
        | O => link_at s1 h x
        | S j => if decide (l !! j = Some x) then (λ lk, Link (next_of l k) (le_prev lk)) <$> link_at s1 h x else link_at s1 h x end) → Q tt s2).
    { intros s2 F2 Hf2 Hl2. apply HQ; [split; [done| | |]|by etrans|].
      - apply (delete_links l k e _ (link_at s h) Hnd Hk Hl). intros x Hx. rewrite Hl2.
        assert (E1 : link_at s1 h x = match link_at s h x with Some (Link n p) =>
            Some (Link n (if decide (l !! S k = Some x) then Some (prev_of h l k) else p)) | None => None end).
        { rewrite Hl1. case_decide as Hd; [by rewrite (Hl (S k) x Hd)|]. by destruct (link_at s h x) as [[]|]. }
        rewrite E1. destruct (link_at s h x) as [[n p]|]; [|by destruct k; [|case_decide]]. destruct k as [|j].
        + by rewrite (decide_False (P := _ ∧ _)) by (by intros [? _]).
        + destruct (decide (l !! j = Some x)) as [Hj|Hj].
          * by rewrite (decide_True (P := _ ∧ _)) by done.
          * by rewrite (decide_False (P := _ ∧ _)) by (by intros [_ ?]).
      - eapply sublist_NoDup; [done|]. apply sublist_delete.
      - intros x Hx. apply Hnz. eapply sublist_subseteq, Hx. apply sublist_delete.
      - intros x Hx. assert (Hn : ∀ j, l !! j ≠ Some x) by (intros j Hj; by apply Hx, list_elem_of_lookup_2 with j).
        rewrite Hl2. destruct k; [|rewrite decide_False by apply Hn]; by rewrite Hl1, decide_False by apply Hn. }
    destruct k as [|j]; cbn [prev_of set_through].
    - eapply wp_set_first; [by rewrite Hf1|]. intros s2 F2 Hf2 Hl2 _. apply Hdone; [done| |by intros x; rewrite Hl2].
      rewrite Hf2. unfold next_of. by destruct l as [|? [|]].
    - destruct (lookup_lt_is_Some_2 l j) as [y Hy]; [apply lookup_lt_Some in Hk; lia|]. rewrite Hy. cbn [default].
      assert (Hyk : link_at s1 h y = Some (Link (next_of l j) (Some (prev_of h l j)))).
      { rewrite Hl1, decide_False; [by apply Hl|]. intros Hc. assert (j = S (S j)) by (by eapply NoDup_lookup). lia. }
      eapply wp_set_next; [by eapply Hok, list_elem_of_lookup_2|apply lm_raw; exact Hyk|]. intros s2 F2 Hf2 Hl2 _. apply Hdone; [done| |].
      + rewrite Hf2, Hf1, Hf. destruct l; [done|]. by destruct j.
      + intros x. rewrite Hl2. destruct (decide (x = y)) as [->|Hne]; [by rewrite !decide_True, Hyk by done|].
        rewrite (decide_False (P := x = y)) by done. by rewrite (decide_False (P := l !! j = Some x)) by congruence. }
  destruct (l !! S k) as [y|] eqn:Hy.
  - assert (En : next_of l k = y) by (unfold next_of; by rewrite Hy). apply wp_when_true.
    { rewrite En. assert (y ≠ 0) by (eapply Hnz, list_elem_of_lookup_2, Hy). by rewrite (proj2 (Z.eqb_neq y 0)). }
    rewrite En. eapply wp_set_prev; [by eapply Hok, list_elem_of_lookup_2|apply lm_raw, Hl, Hy|]. intros s1 F1 Hf1 Hl1 _. rewrite <- En. apply Hthru; [done|done|].
    intros x. rewrite Hl1. destruct (decide (x = y)) as [->|Hne]; [by rewrite decide_True|]. by rewrite decide_False by congruence.
  - assert (En : next_of l k = 0) by (unfold next_of; by rewrite Hy). apply wp_when_false; [by rewrite En|].
    apply Hthru; [done|done|]. intros x. by rewrite decide_False.
Qed.
End lists.

(** ** The collector's lists *)

(** A page without the link of the collector's list. *)
Definition strip_page (c : page) : page := match c with PgKobj k => PgKobj (set_gc_link null_link k) | c => c end.
Definition strip_mem (m : pmem) : pmem :=
  PMem (pm_conf m) (pm_free m) (pm_lock m) (pm_failures m) (pm_info m) (strip_page <$> pm_page m).
Definition strip_gc (cpu : Z) (s : kern) : kern := set_mem (strip_mem (kn_mem s)) (set_gc (delete cpu (kn_gc s)) s).
(** Only links of the collector's lists and the head of the list of [cpu] change. *)
Definition gc_frame (cpu : Z) (s s' : kern) : Prop := strip_gc cpu s' = strip_gc cpu s.

Lemma strip_set_page p c m : strip_mem (set_page p c m) = set_page p (strip_page c) (strip_mem m).
Proof. unfold strip_mem, set_page. cbn. by rewrite fmap_insert. Qed.
Lemma set_page_same p c m : pm_page m !! p = Some c → set_page p c m = m.
Proof. intros H. destruct m. unfold set_page. cbn in *. by rewrite insert_id. Qed.
Lemma kobj_at_Some s p k : kobj_at s p = Some k ↔ pm_page (kn_mem s) !! p = Some (PgKobj k).
Proof.
  unfold kobj_at. split.
  - destruct (pm_page (kn_mem s) !! p) as [[]|]; cbn; congruence.
  - by intros ->.
Qed.
Lemma kobj_at_put s p k p' : kobj_at (set_mem (set_page p (PgKobj k) (kn_mem s)) s) p' = if decide (p' = p) then Some k else kobj_at s p'.
Proof.
  unfold kobj_at. cbn. case_decide as Hd; [subst; by rewrite lookup_insert_eq|]. by rewrite lookup_insert_ne by congruence.
Qed.

#[export] Instance gc_list_mem cpu : ListMem (HGc cpu) (gc_frame cpu) (λ _, True).
Proof.
  split.
  - by intros s.
  - intros s1 s2 s3 H1 H2. unfold gc_frame in *. congruence.
  - intros s e lk l0 _ Hr. cbn in Hr. apply fmap_Some in Hr as (k & Hk & _).
    exists (set_mem (set_page e (PgKobj (set_gc_link lk k)) (kn_mem s)) s). split_and!.
    + unfold put_link, upd_ko, get_ko, put_ko, mbind, m_bind, deref, modify. by rewrite Hk.
    + unfold gc_frame, strip_gc. cbn. rewrite strip_set_page. rewrite set_page_same; [done|]. cbn.
      apply kobj_at_Some in Hk. rewrite lookup_fmap, Hk. done.
    + done.
    + intros e'. cbn. rewrite kobj_at_put. case_decide; [done|]. done.
  - intros s x x0 _. exists (set_gc (<[cpu := x]> (kn_gc s)) s). split_and!.
    + done.
    + unfold gc_frame, strip_gc. cbn. by rewrite delete_insert_eq.
    + cbn. unfold per_cpu. by rewrite lookup_insert_eq.
    + done.
  - done.
Qed.

(** ** Identifiers *)

(** The machine from the point of view of CPU [c]. *)
Definition as_cpu (c : Z) (s : kern) : kern :=
  let m := kn_mem s in
  let f := pm_conf m in
  set_mem (PMem (MConf c (mc_nodeid f) (mc_memnode f) (mc_npages f) (mc_end f))
                (pm_free m) (pm_lock m) (pm_failures m) (pm_info m) (pm_page m)) s.
(** Identifiers handed out by the CPUs of [cs], one after the other. *)
Fixpoint ids_alloc (cs : list Z) : M kern (list Z) :=
  match cs with
  | [] => mret []
  | c :: cs' => modify (as_cpu c);; x ← id_alloc; l ← ids_alloc cs'; mret (x :: l)
  end.

Definition id_max : Z := 2 ^ 56.
(** [id] was handed out by a CPU whose counter has gone from [g] to [g']. *)
Definition id_between (g g' : gmap Z Z) (id : Z) : Prop :=
  ∃ c x, 0 ≤ c < 256 ∧ id = c * id_max + x ∧ per_cpu g c < x ≤ per_cpu g' c ∧ 0 < x < id_max.
Definition ids_ok (s : kern) : Prop := ∀ c, 0 ≤ per_cpu (kn_id s) c < id_max.

Lemma id_split x c : 0 ≤ x < id_max → 0 ≤ c < 256 → Z.lor x (u64 (Z.shiftl c 56)) = c * id_max + x.
Proof.
  unfold id_max. intros Hx Hc. rewrite Z.shiftl_mul_pow2 by lia. unfold u64. rewrite Z.mod_small by lia.
  assert (Hd : Z.land (c * 2 ^ 56) x = 0).
  { apply Z.bits_inj'. intros n Hn. rewrite Z.land_spec, Z.bits_0. destruct (decide (n < 56)).
    - by rewrite Z.mul_pow2_bits_low by lia.
    - rewrite (Z.bits_above_log2 x n), andb_false_r; [done|lia|].
      destruct (decide (x = 0)) as [->|]; [cbn; lia|]. apply Z.log2_lt_pow2; [lia|]. eapply Z.lt_le_trans; [apply Hx|]. apply Z.pow_le_mono_r; lia. }
  rewrite Z.lor_comm, <- Z.lxor_lor by exact Hd. symmetry. by apply Z.add_nocarry_lxor.
Qed.
Lemma id_high_bits x : 0 ≤ x < 2 ^ 64 → Z.land x 0xFF00000000000000 = 0 ↔ x < id_max.
Proof.
  intros Hx. unfold id_max. split.
  - intros H0. destruct (decide (x < 2 ^ 56)); [done|]. exfalso.
    assert (Hl : 56 ≤ Z.log2 x < 64) by (split; [apply Z.log2_le_pow2; lia|apply Z.log2_lt_pow2; lia]).
    assert (Hb : Z.testbit (Z.land x 0xFF00000000000000) (Z.log2 x) = true).
    { rewrite Z.land_spec, Z.bit_log2 by lia. cbn [andb].
      apply (forallb_seqZ (λ n, Z.testbit 0xFF00000000000000 n) 56 8); [done|lia]. }
    rewrite H0, Z.bits_0 in Hb. done.
  - intros Hl. apply Z.bits_inj'. intros n Hn. rewrite Z.land_spec, Z.bits_0. destruct (decide (n < 56)).
    + assert (Hf : (λ n, negb (Z.testbit 0xFF00000000000000 n)) n = true).
      { apply (forallb_seqZ (λ n, negb (Z.testbit 0xFF00000000000000 n)) 0 56); [done|lia]. }
      cbn beta in Hf. apply negb_true_iff in Hf. rewrite Hf. apply andb_false_r.
    + rewrite (Z.bits_above_log2 x n); [done|lia|]. destruct (decide (x = 0)) as [->|]; [cbn; lia|].
      apply Z.log2_lt_pow2; [lia|]. eapply Z.lt_le_trans; [exact Hl|]. apply Z.pow_le_mono_r; lia.
Qed.

(** [id_alloc]: the next number of the CPU's counter, or a panic when it is used up. *)
Definition id_bump (c : Z) (s : kern) : kern := set_id (<[c := per_cpu (kn_id s) c + 1]> (kn_id s)) s.
Lemma id_alloc_run s c :
  ids_ok s → mc_cpu (pm_conf (kn_mem s)) = c → 0 ≤ c < 256 →
  id_alloc s = if decide (per_cpu (kn_id s) c + 1 < id_max)
               then Ret (c * id_max + (per_cpu (kn_id s) c + 1)) (id_bump c s) else Crash Panic.
Proof.
  intros Hok Hc Hr. specialize (Hok c). unfold id_alloc, cpu_id, on_kmem, zoom, arch_cpu, gets, get, modify, mbind, m_bind.
  rewrite Hc. cbn [set_mem kn_mem kn_id]. assert (Es : set_mem (kn_mem s) s = s) by (by destruct s). rewrite Es.
  assert (Hs : u64 (per_cpu (kn_id s) c + 1) = per_cpu (kn_id s) c + 1) by (unfold u64, id_max in *; rewrite Z.mod_small; lia).
  assert (H64 : 0 ≤ per_cpu (kn_id s) c + 1 < 2 ^ 64) by (unfold id_max in *; lia).
  rewrite Hs. destruct (decide _) as [Hd|Hd].
  - rewrite (proj2 (id_high_bits _ H64)) by done. cbn [negb Z.eqb]. unfold mret, m_ret. f_equal. apply id_split; lia.
  - rewrite (proj2 (Z.eqb_neq _ _)); [done|]. by rewrite id_high_bits.
Qed.

Lemma per_cpu_insert g c x c' : per_cpu (<[c := x]> g) c' = if decide (c' = c) then x else per_cpu g c'.
Proof. unfold per_cpu. case_decide as Hd; [subst; by rewrite lookup_insert_eq|by rewrite lookup_insert_ne]. Qed.
Lemma id_unique c x c' x' :
  c * id_max + x = c' * id_max + x' → 0 < x < id_max → 0 < x' < id_max → c = c' ∧ x = x'.
Proof. unfold id_max. intros. nia. Qed.

Lemma ids_alloc_run cs s :
  ids_ok s → Forall (λ c, 0 ≤ c < 256) cs →
  match ids_alloc cs s with
  | Ret l s' => ids_ok s' ∧ (∀ c, per_cpu (kn_id s) c ≤ per_cpu (kn_id s') c) ∧
                length l = length cs ∧ NoDup l ∧ Forall (id_between (kn_id s) (kn_id s')) l
  | Crash f => f = Panic ∧ ∃ c, c ∈ cs ∧ id_max ≤ per_cpu (kn_id s) c + Z.of_nat (length cs)
  end.
Proof.
  revert s. induction cs as [|c cs IH]; intros s Hok Hcs.
  - cbn. split_and!; [done|done|done|apply NoDup_nil_2|done].
  - apply Forall_cons in Hcs as [Hc Hcs]. cbn [ids_alloc]. unfold mbind at 1, m_bind at 1, modify.
    unfold mbind at 1, m_bind at 1. rewrite (id_alloc_run (as_cpu c s) c) by done.
    set (g := per_cpu (kn_id s) c). change (per_cpu (kn_id (as_cpu c s)) c) with g.
    destruct (decide _) as [Hlt|Hlt].
    2:{ split; [done|]. exists c. split; [by left|]. fold g. cbn [length]. lia. }
    set (s1 := id_bump c (as_cpu c s)).
    assert (Hg1 : ∀ c', per_cpu (kn_id s1) c' = if decide (c' = c) then g + 1 else per_cpu (kn_id s) c').
    { intros c'. apply per_cpu_insert. }
    assert (Hok1 : ids_ok s1).
    { intros c'. rewrite Hg1. specialize (Hok c'). case_decide; [subst; fold g in Hok|]; lia. }
    specialize (IH s1 Hok1 Hcs). unfold mbind, m_bind. destruct (ids_alloc cs s1) as [l s'|f].
    + destruct IH as (Hok' & Hmono & Hlen & Hnd & Hall). unfold mret, m_ret.
      assert (Hm : ∀ c', per_cpu (kn_id s) c' ≤ per_cpu (kn_id s1) c') by (intros c'; rewrite Hg1; case_decide; [subst; fold g|]; lia).
      assert (Hfirst : g + 1 ≤ per_cpu (kn_id s') c) by (specialize (Hmono c); rewrite Hg1, decide_True in Hmono by done; lia).
      split_and!; [done|intros c'; etrans; [apply Hm|apply Hmono]|cbn; lia| |].
      * apply NoDup_cons. split; [|done]. intros Hin. rewrite Forall_forall in Hall.
        apply Hall in Hin as (c' & x & Hc' & He & Hx & Hx0). rewrite Hg1 in Hx. pose proof (Hok c) as Hgr. fold g in Hgr.
        apply id_unique in He as [<- <-]; [|lia|done]. rewrite decide_True in Hx by done. lia.
      * apply Forall_cons. split.
        -- exists c, (g + 1). pose proof (Hok c) as Hgr. fold g in Hgr. fold g. split_and!; lia.
        -- eapply Forall_impl; [exact Hall|]. intros id (c' & x & ? & ? & Hx & ?). exists c', x. specialize (Hm c'). split_and!; lia.
    + destruct IH as [-> (c' & Hin & Hle)]. split; [done|]. rewrite Hg1 in Hle. exists c'. split; [by right|].
      cbn [length]. case_decide; [subst; fold g|]; lia.
Qed.

(** ** Objects in memory *)

Definition put_obj (p : Z) (k : kobject) (s : kern) : kern := set_mem (set_page p (PgKobj k) (kn_mem s)) s.

Lemma wp_get_ko s p k (Q : kobject → kern → Prop) : kobj_at s p = Some k → Q k s → wp (get_ko p) s Q.
Proof. intros Hk HQ. by eapply wp_deref. Qed.
Lemma wp_get_hdr s p k (Q : kobject_hdr → kern → Prop) : kobj_at s p = Some k → Q (ko_hdr k) s → wp (get_hdr p) s Q.
Proof. intros Hk HQ. unfold get_hdr. wp_pure. eapply wp_get_ko; [exact Hk|]. by wp_pure. Qed.
Lemma wp_upd_ko s p f k (Q : unit → kern → Prop) : kobj_at s p = Some k → Q tt (put_obj p (f k) s) → wp (upd_ko p f) s Q.
Proof. intros Hk HQ. unfold upd_ko, put_ko. wp_pure. eapply wp_get_ko; [exact Hk|]. by wp_pure. Qed.
Lemma wp_upd_hdr s p f k (Q : unit → kern → Prop) :
  kobj_at s p = Some k → Q tt (put_obj p (set_hdr (f (ko_hdr k)) k) s) → wp (upd_hdr p f) s Q.
Proof. intros Hk HQ. unfold upd_hdr. by eapply wp_upd_ko. Qed.
Lemma put_obj_twice p k k' s : put_obj p k' (put_obj p k s) = put_obj p k' s.
Proof. destruct s as [[]]. unfold put_obj, set_mem, set_page. cbn. by rewrite insert_insert_eq. Qed.
Lemma wp_cpu_id s (Q : Z → kern → Prop) : Q (mc_cpu (pm_conf (kn_mem s))) s → wp cpu_id s Q.
Proof. intros HQ. unfold cpu_id, on_kmem. wp_pure. unfold arch_cpu. wp_pure. by destruct s. Qed.

(** What the collector's links do not touch. *)
Lemma gc_frame_mem c s s' : gc_frame c s s' → strip_mem (kn_mem s') = strip_mem (kn_mem s).
Proof. intros H. exact (f_equal kn_mem H). Qed.
Lemma gc_frame_page c s s' p : gc_frame c s s' →
  strip_page <$> pm_page (kn_mem s') !! p = strip_page <$> pm_page (kn_mem s) !! p.
Proof. intros H%gc_frame_mem%(f_equal pm_page). rewrite <- !lookup_fmap. cbn in H. by rewrite H. Qed.
Lemma gc_frame_obj c s s' p k : gc_frame c s s' → kobj_at s p = Some k →
  ∃ l, kobj_at s' p = Some (set_gc_link l k).
Proof.
  intros H Hk%kobj_at_Some. pose proof (gc_frame_page c s s' p H) as Hp. rewrite Hk in Hp.
  apply fmap_Some in Hp as (c' & Hc' & He). destruct c' as [| | | | | |k'| | |]; try done.
  exists (ko_gc_link k'). apply kobj_at_Some. rewrite Hc'. do 2 f_equal. destruct k as [h b l], k' as [h' b' l']. injection He as -> ->. done.
Qed.
(** Pages that hold no object are not touched at all. *)
Lemma gc_frame_other c s s' p pg : gc_frame c s s' → pm_page (kn_mem s) !! p = Some pg → as_kobj pg = None →
  pm_page (kn_mem s') !! p = Some pg.
Proof.
  intros H Hp Hn. pose proof (gc_frame_page c s s' p H) as Hq. rewrite Hp in Hq.
  apply fmap_Some in Hq as (c' & -> & He). f_equal. destruct pg; try done; by destruct c'; try done.
Qed.
Lemma refs_strip m m' N R : strip_mem m' = strip_mem m → refs_inv m N R → refs_inv m' N R.
Proof.
  intros H [Ha Hnd Hn Hnr Hl Hr]. destruct m as [c f lk fl i pg], m' as [c' f' lk' fl' i' pg'].
  unfold strip_mem in H. cbn in H. injection H as -> -> -> -> -> Hpg.
  assert (Hs : ∀ p, is_Some (pg !! p) → is_Some (pg' !! p)).
  { intros p Hp. apply (fmap_is_Some strip_page). rewrite <- lookup_fmap, Hpg, lookup_fmap. by apply fmap_is_Some. }
  split; try done. destruct Ha as [H1 H2 H3 H4 H5 H6]. split; try done.
  intros pn Hpn. destruct (H5 pn Hpn) as (j & Hj & Hp & H7). exists j. split_and!; try done; try apply H7. by apply Hs.
Qed.

(** ** [kobject_alloc] *)

Definition fresh_hdr (id type pid : Z) : kobject_hdr :=
  KoHdr id type (replicate (Z.to_nat JOS_KOBJ_NAME_LEN) 0) 0 false pid.
(** What [kobject_alloc] promises on the CPU [c], whose list of objects to collect is [l]. *)
Record alloc_done (s : kern) (N R : list Z) (c : Z) (l : list Z) (type pid p : Z) (s' : kern) : Prop := AllocDone {
  ad_fresh : (p ∉ N) ∧ (p ∉ R);
  ad_refs : refs_inv (kn_mem s') (p :: N) R;
  ad_gc : lrep s' (HGc c) (p :: l);
  ad_obj : ∃ lk, kobj_at s' p = Some (Kobject (fresh_hdr (c * id_max + (per_cpu (kn_id s) c + 1)) type pid) (zero_body type) lk);
  ad_page : ∀ q, q ≠ p → strip_page <$> pm_page (kn_mem s') !! q = strip_page <$> pm_page (kn_mem s) !! q;
  ad_conf : pm_conf (kn_mem s') = pm_conf (kn_mem s);
  ad_id : kn_id s' = <[c := per_cpu (kn_id s) c + 1]> (kn_id s);
}.

Lemma lrep_ext s s' h l : lrep s h l → first_at s' h = first_at s h → (∀ e, e ∈ l → link_at s' h e = link_at s h e) → lrep s' h l.
Proof.
  intros [Hf Hl Hnd Hnz] Hf' Hl'. split; [by rewrite Hf'| |done|done].
  intros i e He. rewrite Hl'; [by apply Hl|]. by eapply list_elem_of_lookup_2.
Qed.
Lemma kobj_at_other s p k q : q ≠ p → kobj_at (put_obj p k s) q = kobj_at s q.
Proof. intros Hq. unfold put_obj. by rewrite kobj_at_put, decide_False. Qed.
Lemma kobj_at_put_obj s p k : kobj_at (put_obj p k s) p = Some k.
Proof. unfold put_obj. by rewrite kobj_at_put, decide_True. Qed.

Lemma kobject_alloc_wp s N R c l type pid node (Q : Z * Z → kern → Prop) :
  refs_inv (kn_mem s) N R → lrep s (HGc c) l → (∀ e, e ∈ l → e ∈ N) →
  home_node (pm_conf (kn_mem s)) pid = Some node →
  mc_cpu (pm_conf (kn_mem s)) = c → 0 ≤ c < 256 → ids_ok s → per_cpu (kn_id s) c + 1 < id_max →
  (∀ f, refs_inv (set_failures f (kn_mem s)) N R → (∀ q, ¬ page_free_p (kn_mem s) q) →
     Q (- E_NO_MEM, 0) (set_mem (set_failures f (kn_mem s)) s)) →
  (∀ p s', alloc_done s N R c l type pid p s' → Q (0, p) s') →
  wp (kobject_alloc type pid) s Q.
Proof.
  intros Hi Hl HlN Hh Hc Hr Hok Hid HN HS. unfold kobject_alloc. wp_pure. unfold on_kmem. wp_pure.
  eapply refs_alloc; [exact Hi|exact Hh| |]; [intros f p Hif Hno; wp_pure; by apply HN|].
  intros p m1 Hi1 Hpg1 Hc1 Hfree Hf1 _. wp_pure.
  assert (Hfr : (p ∉ N) ∧ (p ∉ R)).
  { split; [by apply NoDup_cons, (ri_nodup _ _ _ Hi1)|]. eapply ri_node; [exact Hi1|by left]. }
  destruct (refs_node_contents _ _ _ p Hi1 ltac:(by left)) as [c0 Hp0].
  eapply wp_write_page; [done|].
  set (s1 := set_mem m1 s). set (k0 := Kobject (KoHdr 0 0 _ 0 false 0) (zero_body type) null_link).
  change (set_mem (set_page p (PgKobj k0) _) s1) with (put_obj p k0 s1). wp_pure.
  eapply wp_upd_hdr; [unfold put_obj; rewrite kobj_at_put; by rewrite decide_True|]. rewrite put_obj_twice. wp_pure.
  set (k1 := set_hdr _ k0).
  eapply wp_eq; [rewrite (id_alloc_run (put_obj p k1 s1) c); [|done|by cbn; rewrite Hc1|done]; by rewrite decide_True|]. wp_pure.
  eapply wp_upd_hdr; [unfold id_bump, kobj_at; cbn; by rewrite lookup_insert_eq|].
  change (put_obj p ?k (id_bump c (put_obj p k1 s1))) with (id_bump c (put_obj p k (put_obj p k1 s1))). rewrite put_obj_twice. wp_pure.
  set (k2 := set_hdr _ k1). set (s2 := id_bump c (put_obj p k2 s1)). unfold kobject_gc_collect. wp_pure.
  apply wp_cpu_id. wp_pure. change (mc_cpu (pm_conf (kn_mem s2))) with (mc_cpu (pm_conf m1)). rewrite Hc1, Hc.
  assert (Ho : ∀ q, q ≠ p → kobj_at s2 q = kobj_at s q).
  { intros q Hq. change (kobj_at s2 q) with (kobj_at (put_obj p k2 s1) q). rewrite kobj_at_other by done. unfold kobj_at. cbn. by rewrite Hpg1. }
  eapply (insert_head_wp (HGc c) (gc_frame c) (λ _, True) s2 l p null_link).
  - done.
  - eapply lrep_ext; [exact Hl|done|]. intros e He. cbn. rewrite Ho; [done|]. intros ->. by apply (proj1 Hfr), HlN.
  - intros He. by apply (proj1 Hfr), HlN.
  - eapply page_live_nonzero, refs_node_live; [exact Hi1|by left].
  - cbn. change (kobj_at s2 p) with (kobj_at (put_obj p k2 s1) p). by rewrite kobj_at_put_obj.
  - intros s3 Hl3 HF _. apply HS. pose proof (gc_frame_mem _ _ _ HF) as Hm. split; [done| |done| | | |].
    + eapply refs_strip; [exact Hm|]. apply refs_set_page; [exact Hi1|done].
    + destruct (gc_frame_obj c s2 s3 p k2 HF (kobj_at_put_obj s1 p k2)) as [lk Hlk]. by exists lk.
    + intros q Hq. rewrite (gc_frame_page c s2 s3 q HF). cbn. by rewrite lookup_insert_ne, Hpg1 by congruence.
    + apply (f_equal pm_conf) in Hm. cbn in Hm. by rewrite Hm.
    + exact (f_equal kn_id HF).
Qed.
