(* ===== verification/Collect.v ===== *)
(** * The collector

    [kobject_gc_scan] on a list of dead segments, dead devices and objects that are still
    referenced: it stops, leaves the list empty, gives back every page of the segments and
    devices nobody refers to, and keeps everything else.  The proof composes the intrusive
    lists with page trees and the page allocator. *)
From S2P Require Import Prelude Machine Hashtable Locks Ktypes Kmem PageAlloc Pagetree PageRefs PagetreeSpec PagetreeWhole PagetreeFree Darray DarrayThms DarrayProps KMap Kobj Share At Proc KobjThms.

(** ** Page trees among objects *)

(** A node of a tree is a page of entries or of pointers, not an object. *)
Lemma tree_node_view m l ind q : tree_ok m l ind → q ∈ nodes m l ind → is_Some (page_ptrs m q) ∨ is_Some (page_ents m q).
Proof.
  revert ind. induction l as [|l IH]; intros ind Ht Hq; (destruct (decide (ind = 0)) as [->|Hi]; [by rewrite nodes_null in Hq; apply not_elem_of_nil in Hq|]).
  - rewrite nodes_O in Hq by done. apply list_elem_of_singleton in Hq as ->. right. by rewrite tree_ok_O in Ht.
  - rewrite nodes_S in Hq by done. rewrite tree_ok_S in Ht by done. destruct Ht as [Hp Ht].
    apply elem_of_cons in Hq as [->|Hq]; [by left|]. apply list_elem_of_bind in Hq as (s & Hq & Hs). by eapply IH; [apply Ht|].
Qed.
Lemma pt_node_view m pt q : pt_ok m pt → q ∈ pt_nodes m pt → is_Some (page_ptrs m q) ∨ is_Some (page_ents m q).
Proof.
  intros [_ _ Ht] Hq. apply list_elem_of_bind in Hq as (i & Hq & Hi). by eapply tree_node_view; [apply Ht|].
Qed.
Lemma pt_node_no_obj m pt q : pt_ok m pt → q ∈ pt_nodes m pt → ∃ c, pm_page m !! q = Some c ∧ as_kobj c = None.
Proof.
  intros Hok Hq. destruct (pt_node_view m pt q Hok Hq) as [[a Ha]|[a Ha]]; unfold page_ptrs, page_ents in Ha;
    destruct (pm_page m !! q) as [c|]; try done; exists c; (split; [done|by destruct c]).
Qed.
Lemma gc_frame_tree c s s' pt : gc_frame c s s' → pt_ok (kn_mem s) pt → same_pages (pt_nodes (kn_mem s) pt) (kn_mem s) (kn_mem s').
Proof.
  intros HF Hok q Hq. destruct (pt_node_no_obj _ _ _ Hok Hq) as (pg & Hp & Hn). rewrite Hp. by eapply gc_frame_other.
Qed.

(** ** Segments and devices *)

(** The tree of pages of an object: that of a segment; a device has none. *)
Definition sg_tree (s : kern) (p : Z) : pagetree := match obj_sg s p with Some x => da_pt (sg_pages x) | None => zero_tree end.
(** The pages of the object: itself, the nodes of its tree, and the pages it holds. *)
Definition sg_nodes (s : kern) (p : Z) : list Z := p :: pt_nodes (kn_mem s) (sg_tree s p).
Definition sg_refs (s : kern) (p : Z) : list Z := pt_refs (kn_mem s) (sg_tree s p).
(** A segment or a device that nobody refers to. *)
Definition dead_sg (s : kern) (p : Z) : Prop :=
  ∃ k, kobj_at s p = Some k ∧ ko_ref (ko_hdr k) = 0 ∧ pt_ok (kn_mem s) (sg_tree s p) ∧
    (ko_type (ko_hdr k) = kobj_segment ∧ (∃ sg, ko_body k = KSg sg) ∨
     ko_type (ko_hdr k) = kobj_device ∧ the_sg k = None).

(** Both states show the same object at [p], links aside. *)
Definition same_obj (s s' : kern) (p : Z) : Prop := ∀ k, kobj_at s p = Some k → ∃ l, kobj_at s' p = Some (set_gc_link l k).
Lemma sg_tree_at s p k : kobj_at s p = Some k → sg_tree s p = match the_sg k with Some x => da_pt (sg_pages x) | None => zero_tree end.
Proof. intros Hk. unfold sg_tree, obj_sg. by rewrite Hk. Qed.
Lemma sg_ext s s' p :
  dead_sg s p → same_obj s s' p → same_pages (pt_nodes (kn_mem s) (sg_tree s p)) (kn_mem s) (kn_mem s') →
  sg_nodes s' p = sg_nodes s p ∧ sg_refs s' p = sg_refs s p ∧ dead_sg s' p.
Proof.
  intros (k & Hk & Hr & Hok & Hc) Ho Hs. destruct (Ho k Hk) as [l Hk'].
  assert (E : sg_tree s' p = sg_tree s p) by (rewrite (sg_tree_at _ _ _ Hk), (sg_tree_at _ _ _ Hk'); by destruct k).
  destruct (pt_ext _ _ _ Hs) as (Hn & Hf & Hok' & _). unfold sg_nodes, sg_refs. rewrite E, Hn, Hf.
  split_and!; [done|done|]. exists (set_gc_link l k). split_and!; [done|done|rewrite E; by apply Hok'|by destruct k].
Qed.
Lemma wp_sg_array {A} s p k sg (c : darray → M pmem (A * darray)) (Q : A → kern → Prop) :
  kobj_at s p = Some k → ko_body k = KSg sg →
  wp (c (sg_pages sg)) (kn_mem s) (λ xa m', pm_page m' !! p = pm_page (kn_mem s) !! p ∧
     Q xa.1 (put_obj p (set_body (KSg (set_sg_pages xa.2 sg)) k) (set_mem m' s))) →
  wp (sg_array p c) s Q.
Proof.
  intros Hk Hb Hc. assert (Hsg : ∀ s, kobj_at s p = Some k → obj_sg s p = Some sg).
  { intros s0 Hs0. unfold obj_sg. rewrite Hs0. cbn. unfold the_sg. by rewrite Hb. }
  unfold sg_array, on_darray. wp_pure. unfold get_sg. eapply wp_deref; [by apply Hsg|]. wp_pure. unfold on_kmem. wp_pure.
  eapply wp_mono; [exact Hc|]. intros [x a] m' [Hp HQ]. wp_pure. unfold upd_sg, get_sg. wp_pure.
  assert (Hk' : kobj_at (set_mem m' s) p = Some k) by (apply kobj_at_Some; cbn; rewrite Hp; by apply kobj_at_Some).
  eapply wp_deref; [by apply Hsg|]. unfold put_sg. eapply wp_upd_ko; [exact Hk'|]. by wp_pure.
Qed.

Lemma kobj_keep s s' p : pm_page (kn_mem s') !! p = pm_page (kn_mem s) !! p → kobj_at s' p = kobj_at s p.
Proof. unfold kobj_at. by intros ->. Qed.
Lemma kobj_same_obj s s' p : kobj_at s' p = kobj_at s p → same_obj s s' p.
Proof. intros H k Hk. exists (ko_gc_link k). rewrite H, Hk. by destruct k. Qed.

(** ** One object *)

Lemma releases_set_page m p c : releases m (set_page p c m).
Proof. split; intros q Hq; exact Hq. Qed.
(** Collecting a segment or a device gives back all its pages. *)
Lemma free_obj_wp s p N R (Q : unit → kern → Prop) :
  refs_inv (kn_mem s) (p :: N) R →
  (∀ m', refs_inv m' N R → pm_conf m' = pm_conf (kn_mem s) → (∀ q, q ≠ p → pm_page m' !! q = pm_page (kn_mem s) !! q) →
     page_free_p m' p → releases (kn_mem s) m' → Q tt (set_mem m' s)) →
  wp (kobject_free p) s Q.
Proof.
  intros Hi HQ. unfold kobject_free, on_kmem. wp_pure. eapply refs_free_node; [exact Hi|]. intros m4 Hi4 Hc4 Hp4 Hf4 Hl4 _. by apply HQ.
Qed.
Lemma not_kept m p N R : refs_inv m (p :: N) R → p ∉ N ++ R.
Proof.
  intros Hi. rewrite elem_of_app. pose proof (ri_nodup _ _ _ Hi) as [Hnd _]%NoDup_cons. intros [?|?]; [done|]. eapply refs_disjoint; [exact Hi|by left|done].
Qed.
Lemma free_segment_wp s p k sg N R (Q : unit → kern → Prop) :
  kobj_at s p = Some k → ko_body k = KSg sg → pt_ok (kn_mem s) (sg_tree s p) →
  refs_inv (kn_mem s) (sg_nodes s p ++ N) (sg_refs s p ++ R) →
  (∀ s', dropped (kn_mem s) (sg_nodes s p) (sg_refs s p) N R (kn_mem s') → s' = set_mem (kn_mem s') s → Q tt s') →
  wp (segment_gc_cb p;; kobject_free p) s Q.
Proof.
  intros Hk Hb Hok Hi HQ. assert (E : sg_tree s p = da_pt (sg_pages sg)) by (rewrite (sg_tree_at _ _ _ Hk); unfold the_sg; by rewrite Hb).
  unfold sg_nodes, sg_refs in Hi, HQ. rewrite E in Hi, HQ, Hok. set (m := kn_mem s) in *. set (pt := da_pt (sg_pages sg)) in *.
  assert (Hi' : refs_inv m (pt_nodes m pt ++ p :: N) (pt_refs m pt ++ R)) by (rewrite <- Permutation_middle; exact Hi).
  wp_pure. unfold segment_gc_cb. eapply wp_sg_array; [exact Hk|exact Hb|]. unfold darray_free. wp_pure.
  fold m pt. eapply pagetree_free_wp; [exact Hi'|exact Hok|]. intros m2 [Hi2 Hc2 Hk2 Hn2 Hr2 Hl2]. wp_pure.
  split; [apply Hk2; left; by left|]. pose proof (not_kept _ _ _ _ Hi2) as Hp.
  eapply free_obj_wp; [apply refs_set_page; [exact Hi2|eapply refs_node_contents; [exact Hi2|by left]]|]. intros m4 Hi4 Hc4 Hp4 Hf4 Hl4.
  assert (Hrel : releases m m4) by (etrans; [exact Hl2|etrans; [apply (releases_set_page m2)|exact Hl4]]).
  apply HQ; [|done]. split; try done.
  - cbn. by rewrite Hc4.
  - intros q Hq. assert (q ≠ p) by (intros ->; apply Hp, elem_of_app, Hq). cbn. rewrite Hp4 by done. cbn.
    rewrite lookup_insert_ne by done. apply Hk2. destruct Hq; [left; by right|by right].
  - intros q [->|Hq]%elem_of_cons; [done|]. apply Hl4, (releases_set_page m2), Hn2, Hq.
  - intros q Hq. destruct (Hr2 q Hq) as [?|Hrq]; [by left|]. right. by apply Hl4, (releases_set_page m2).
Qed.
Lemma free_dead_wp s p k N R (Q : unit → kern → Prop) :
  dead_sg s p → kobj_at s p = Some k → refs_inv (kn_mem s) (sg_nodes s p ++ N) (sg_refs s p ++ R) →
  (∀ s', dropped (kn_mem s) (sg_nodes s p) (sg_refs s p) N R (kn_mem s') → s' = set_mem (kn_mem s') s → Q tt s') →
  wp (gc_cb (ko_type (ko_hdr k)) p;; kobject_free p) s Q.
Proof.
  intros (k' & Hk' & Hr & Hok & Hc) Hk Hi HQ. rewrite Hk in Hk'. injection Hk' as <-. destruct Hc as [[Ht [sg Hb]]|[Ht Hd]]; rewrite Ht.
  { eapply (free_segment_wp s p k sg); eauto. }
  change (gc_cb kobj_device p) with (mret tt : M kern unit). wp_pure.
  assert (E : sg_tree s p = zero_tree) by (rewrite (sg_tree_at _ _ _ Hk); by rewrite Hd).
  assert (En : sg_nodes s p = [p]) by (unfold sg_nodes; by rewrite E).
  assert (Er : sg_refs s p = []) by (unfold sg_refs; by rewrite E).
  rewrite En, Er in *. pose proof (not_kept _ _ _ _ Hi) as Hp.
  eapply free_obj_wp; [exact Hi|]. intros m4 Hi4 Hc4 Hp4 Hf4 Hl4. apply HQ; [|done]. split; try done.
  - intros q Hq. apply Hp4. intros ->. apply Hp, elem_of_app, Hq.
  - by intros q ->%list_elem_of_singleton.
  - by intros q ?%not_elem_of_nil.
Qed.

(** ** The list *)

(** The list [l] of the CPU [c] holds the segments and devices [dead], to which nobody refers, and
    objects of [N] that are referenced again. *)
Record gc_inv (s : kern) (c : Z) (l dead N R : list Z) : Prop := GcInv {
  gi_list : lrep s (HGc c) l;
  gi_refs : refs_inv (kn_mem s) ((dead ≫= sg_nodes s) ++ N) ((dead ≫= sg_refs s) ++ R);
  gi_dead : ∀ e, e ∈ dead → e ∈ l ∧ dead_sg s e;
  gi_live : ∀ e, e ∈ l → e ∈ dead ∨ e ∈ N ∧ ∃ k, kobj_at s e = Some k ∧ ko_ref (ko_hdr k) ≠ 0;
}.
(** What is left: the pages of [dead] are free, unless something of [R] refers to them,
    and the rest of the memory is the same but for the links of the list. *)
Record collected (s : kern) (c : Z) (dead N R : list Z) (s' : kern) : Prop := Collected {
  cl_list : lrep s' (HGc c) [];
  cl_refs : refs_inv (kn_mem s') N R;
  cl_nodes : ∀ q, q ∈ dead ≫= sg_nodes s → page_free_p (kn_mem s') q;
  cl_pages : ∀ q, q ∈ dead ≫= sg_refs s → q ∈ R ∨ released (kn_mem s') q;
  cl_keep : ∀ q, q ∈ N ∨ q ∈ R → strip_page <$> pm_page (kn_mem s') !! q = strip_page <$> pm_page (kn_mem s) !! q;
  cl_rel : releases (kn_mem s) (kn_mem s');
  cl_rest : set_mem (kn_mem s) (set_gc ∅ s') = set_gc ∅ s ∧ ∀ c', c' ≠ c → kn_gc s' !! c' = kn_gc s !! c';
}.

Lemma gc_frame_rest c s s' : gc_frame c s s' → set_mem (kn_mem s) (set_gc ∅ s') = set_gc ∅ s ∧ ∀ c', c' ≠ c → kn_gc s' !! c' = kn_gc s !! c'.
Proof.
  intros HF. split.
  - exact (f_equal (λ x, set_mem (kn_mem s) (set_gc ∅ x)) HF).
  - intros c' Hc. pose proof (f_equal (λ s, kn_gc s !! c') HF) as Hg. cbn in Hg. by rewrite !lookup_delete_ne in Hg.
Qed.
Lemma gc_frame_releases c s s' : gc_frame c s s' → releases (kn_mem s) (kn_mem s').
Proof.
  intros HF%gc_frame_mem. pose proof (f_equal pm_conf HF) as Hc. pose proof (f_equal pm_info HF) as Hi. cbn in Hc, Hi.
  split; intros q (pn & i & Hat & Hin & Hst); exists pn, i; by rewrite page_at_conf, Hi.
Qed.

(** Moving the invariant to another state. *)
Lemma gc_inv_move s s' c l dead N R :
  lrep s' (HGc c) l → (∀ e, e ∈ dead → e ∈ l ∧ dead_sg s e) →
  (∀ e, e ∈ l → e ∈ dead ∨ e ∈ N ∧ ∃ k, kobj_at s e = Some k ∧ ko_ref (ko_hdr k) ≠ 0) →
  (∀ e, e ∈ l → same_obj s s' e) →
  (∀ e, e ∈ dead → same_pages (pt_nodes (kn_mem s) (sg_tree s e)) (kn_mem s) (kn_mem s')) →
  refs_inv (kn_mem s') ((dead ≫= sg_nodes s) ++ N) ((dead ≫= sg_refs s) ++ R) →
  gc_inv s' c l dead N R ∧ (dead ≫= sg_nodes s') = (dead ≫= sg_nodes s) ∧ (dead ≫= sg_refs s') = (dead ≫= sg_refs s).
Proof.
  intros Hl Hd Hv Hobj Hpg Hi.
  assert (Hx : ∀ e, e ∈ dead → sg_nodes s' e = sg_nodes s e ∧ sg_refs s' e = sg_refs s e ∧ dead_sg s' e).
  { intros e He. apply sg_ext; [by apply Hd|by apply Hobj, Hd|by apply Hpg]. }
  assert (En : (dead ≫= sg_nodes s') = (dead ≫= sg_nodes s)) by (apply bind_ext_elem; intros e He; by apply Hx).
  assert (Er : (dead ≫= sg_refs s') = (dead ≫= sg_refs s)) by (apply bind_ext_elem; intros e He; by apply Hx).
  split; [|done]. split; [done|by rewrite En, Er| |].
  - intros e He. split; [by apply Hd|by apply Hx].
  - intros e He. destruct (Hv e He) as [?|(HN & k & Hk & Hr)]; [by left|]. right. split; [done|].
    destruct (Hobj e He k Hk) as [lk Hk']. by exists (set_gc_link lk k).
Qed.
Lemma gc_frame_tree_of c s s' e : gc_frame c s s' → dead_sg s e →
  same_pages (pt_nodes (kn_mem s) (sg_tree s e)) (kn_mem s) (kn_mem s').
Proof.
  intros HF (k & _ & _ & Hok & _). by eapply gc_frame_tree.
Qed.
Lemma gc_frame_same_obj c s s' e : gc_frame c s s' → same_obj s s' e.
Proof. intros HF k Hk. by eapply gc_frame_obj. Qed.
(** Taking links out of the list changes nothing else. *)
Lemma gc_inv_frame s s' c l dead N R :
  gc_frame c s s' → lrep s' (HGc c) l → (∀ e, e ∈ dead → e ∈ l ∧ dead_sg s e) →
  (∀ e, e ∈ l → e ∈ dead ∨ e ∈ N ∧ ∃ k, kobj_at s e = Some k ∧ ko_ref (ko_hdr k) ≠ 0) →
  refs_inv (kn_mem s) ((dead ≫= sg_nodes s) ++ N) ((dead ≫= sg_refs s) ++ R) →
  gc_inv s' c l dead N R ∧ (dead ≫= sg_nodes s') = (dead ≫= sg_nodes s) ∧ (dead ≫= sg_refs s') = (dead ≫= sg_refs s).
Proof.
  intros HF Hl Hd Hv Hi. apply gc_inv_move; [done|done|done| | |].
  - intros e _. by eapply gc_frame_same_obj.
  - intros e He. eapply gc_frame_tree_of; [exact HF|by apply Hd].
  - eapply refs_strip; [by eapply gc_frame_mem|done].
Qed.
(** The first object of the list leaves it. *)
Lemma collected_frame s s' s2 c dead N R :
  gc_frame c s s' → (dead ≫= sg_nodes s') = (dead ≫= sg_nodes s) → (dead ≫= sg_refs s') = (dead ≫= sg_refs s) →
  collected s' c dead N R s2 → collected s c dead N R s2.
Proof.
  intros HF En Er [Hl Hi Hn Hp Hk Hr [He Hc]]. pose proof (gc_frame_rest c s s' HF) as [He' Hc']. split; [done|done|by rewrite <- En|by rewrite <- Er| | |].
  - intros q Hq. rewrite Hk by done. by eapply gc_frame_page.
  - etrans; [by eapply gc_frame_releases|done].
  - split; [|intros c' Hne; by rewrite Hc, Hc'].
    transitivity (set_mem (kn_mem s) (set_mem (kn_mem s') (set_gc ∅ s2))); [done|]. by rewrite He.
Qed.
(** An object is collected, then the rest of the list. *)
Lemma collected_drop s s1 s2 c e dead N R :
  dropped (kn_mem s) (sg_nodes s e) (sg_refs s e) ((dead ≫= sg_nodes s) ++ N) ((dead ≫= sg_refs s) ++ R) (kn_mem s1) →
  s1 = set_mem (kn_mem s1) s → (dead ≫= sg_nodes s1) = (dead ≫= sg_nodes s) → (dead ≫= sg_refs s1) = (dead ≫= sg_refs s) →
  collected s1 c dead N R s2 → collected s c (e :: dead) N R s2.
Proof.
  intros [Hi1 Hc1 Hk1 Hn1 Hr1 Hl1] Es En Er [Hl Hi Hn Hp Hk Hr [He Hc]]. split; [done|done| | | | |].
  - intros q Hq. rewrite bind_cons in Hq. apply elem_of_app in Hq as [Hq|Hq]; [by apply Hr, Hn1|]. apply Hn. by rewrite En.
  - intros q Hq. rewrite bind_cons in Hq. apply elem_of_app in Hq as [Hq|Hq]; [|apply Hp; by rewrite Er].
    destruct (Hr1 q Hq) as [[Hd|HR]%elem_of_app|Hrel]; [apply Hp; by rewrite Er|by left|right; by apply Hr].
  - intros q Hq. rewrite Hk by done. rewrite Hk1; [done|]. rewrite !elem_of_app. tauto.
  - by etrans.
  - rewrite Es in He, Hc. split; [|exact Hc].
    transitivity (set_mem (kn_mem s) (set_mem (kn_mem s1) (set_gc ∅ s2))); [done|]. cbn in He. by rewrite He.
Qed.
Lemma dropped_keeps s e dead l N R m' s1 c :
  dropped (kn_mem s) (sg_nodes s e) (sg_refs s e) ((dead ≫= sg_nodes s) ++ N) ((dead ≫= sg_refs s) ++ R) m' →
  s1 = set_mem m' s → lrep s (HGc c) l → (∀ x, x ∈ dead → x ∈ l ∧ dead_sg s x) →
  (∀ x, x ∈ l → x ∈ dead ∨ x ∈ N ∧ ∃ k, kobj_at s x = Some k ∧ ko_ref (ko_hdr k) ≠ 0) →
  gc_inv s1 c l dead N R ∧ (dead ≫= sg_nodes s1) = (dead ≫= sg_nodes s) ∧ (dead ≫= sg_refs s1) = (dead ≫= sg_refs s).
Proof.
  intros [Hi1 Hc1 Hk1 Hn1 Hr1 Hl1] -> Hl Hd Hv.
  assert (Hin : ∀ x, x ∈ l → x ∈ (dead ≫= sg_nodes s) ++ N).
  { intros x Hx. apply elem_of_app. destruct (Hv x Hx) as [Hxd|[HN _]]; [left|by right]. apply list_elem_of_bind. exists x. split; [by left|done]. }
  assert (Ho : ∀ x, x ∈ l → kobj_at (set_mem m' s) x = kobj_at s x) by (intros x Hx; apply kobj_keep, Hk1; left; by apply Hin).
  apply gc_inv_move; [|done|done| | |done].
  - eapply lrep_ext; [exact Hl|done|]. intros x Hx. cbn. by rewrite Ho.
  - intros x Hx. by apply kobj_same_obj, Ho.
  - intros x Hx q Hq. apply Hk1. left. apply elem_of_app. left. apply list_elem_of_bind. exists x. split; [by right|done].
Qed.

Lemma collected_perm s c dead dead' N R s' : dead ≡ₚ dead' → collected s c dead' N R s' → collected s c dead N R s'.
Proof. intros Hp [Hl Hi Hn Hpg Hk Hr Hc]. split; try done; intros q; rewrite Hp; auto. Qed.

(** The first object of the list is dead. *)
Lemma gc_dead_split s c e l dead N R :
  gc_inv s c (e :: l) dead N R → e ∈ dead →
  ∃ dead', dead ≡ₚ e :: dead' ∧ dead_sg s e ∧
    refs_inv (kn_mem s) (sg_nodes s e ++ (dead' ≫= sg_nodes s) ++ N) (sg_refs s e ++ (dead' ≫= sg_refs s) ++ R) ∧
    (∀ x, x ∈ dead' → x ∈ l ∧ dead_sg s x) ∧
    (∀ x, x ∈ l → x ∈ dead' ∨ x ∈ N ∧ ∃ k, kobj_at s x = Some k ∧ ko_ref (ko_hdr k) ≠ 0).
Proof.
  intros [Hl Hi Hd Hv] Hed. assert (Hel : e ∉ l) by (by apply NoDup_cons, (lr_nodup _ _ _ Hl)).
  apply elem_of_Permutation in Hed as [dead' Hp]. exists dead'. destruct (Hd e) as [_ Hde]; [rewrite Hp; by left|].
  assert (Hi' : refs_inv (kn_mem s) (sg_nodes s e ++ (dead' ≫= sg_nodes s) ++ N) (sg_refs s e ++ (dead' ≫= sg_refs s) ++ R)).
  { rewrite Hp in Hi. by rewrite !bind_cons, <- !(assoc_L app) in Hi. }
  assert (Hed' : e ∉ dead').
  { intros Hx. destruct (refs_nodup_l _ _ _ _ Hi') as [_ Hdis]. apply (Hdis e); [by left|]. apply elem_of_app. left.
    apply list_elem_of_bind. exists e. split; [by left|done]. }
  split_and!; [done|done|done| |].
  - intros x Hx. destruct (Hd x) as [Hxl Hxd]; [rewrite Hp; by right|]. apply elem_of_cons in Hxl as [->|?]; done.
  - intros x Hx. destruct (Hv x) as [Hxd|?]; [by right| |by right]. rewrite Hp in Hxd. apply elem_of_cons in Hxd as [->|?]; [done|by left].
Qed.

Lemma gc_loop_wp fuel s c l dead N R :
  gc_inv s c l dead N R → (length l < fuel)%nat → wp (gc_loop fuel c) s (λ _ s', collected s c dead N R s').
Proof.
  revert s l dead. induction fuel as [|fuel IH]; intros s l dead [Hl Hi Hd Hv] Hf; [lia|]. cbn [gc_loop]. wp_pure.
  unfold LIST_FIRST. eapply wp_deref; [apply (lr_first _ _ _ Hl)|]. destruct l as [|e l].
  { wp_pure. destruct dead as [|x dead]; [|by destruct (Hd x) as [?%not_elem_of_nil _]; [left|]].
    split; try done; by intros q ?%not_elem_of_nil. }
  change (default 0 (head (e :: l))) with e.
  assert (He0 : e ≠ 0) by (apply (lr_nonzero _ _ _ Hl); by left). rewrite (proj2 (Z.eqb_neq _ _) He0).
  wp_pure. eapply (remove_wp (HGc c) (gc_frame c) (λ _, True) s (e :: l) 0 e); [done|done|done|]. intros s1 Hl1 HF _.
  change (delete 0%nat (e :: l)) with l in Hl1. wp_pure. unfold kobject_getref. wp_pure.
  destruct (Hv e) as [Hed|(HeN & k & Hk & Hr)]; [by left| |].
  - destruct (gc_dead_split s c e l dead N R (GcInv _ _ _ _ _ _ Hl Hi Hd Hv) Hed) as (dead' & Hp & Hde & Hi' & Hd' & Hv').
    pose proof (λ x, gc_frame_tree_of c s s1 x HF) as Htr. pose proof (λ x, gc_frame_same_obj c s s1 x HF) as Hso.
    destruct (sg_ext s s1 e Hde (Hso e) (Htr e Hde)) as (Ene & Ere & Hde1).
    assert (Hx : ∀ x, x ∈ dead' → sg_nodes s1 x = sg_nodes s x ∧ sg_refs s1 x = sg_refs s x ∧ dead_sg s1 x).
    { intros x Hx. destruct (Hd' x Hx). apply sg_ext; [done|done|by apply Htr]. }
    assert (En : (dead' ≫= sg_nodes s1) = (dead' ≫= sg_nodes s)) by (apply bind_ext_elem; intros x Hxd; by apply Hx).
    assert (Er : (dead' ≫= sg_refs s1) = (dead' ≫= sg_refs s)) by (apply bind_ext_elem; intros x Hxd; by apply Hx).
    pose proof Hde1 as (k1 & Hk1 & Hr1 & _). eapply wp_get_hdr; [exact Hk1|]. wp_pure. rewrite Hr1. change (negb (0 =? 0)) with false. wp_pure.
    eapply wp_get_hdr; [exact Hk1|]. wp_pure.
    eapply (wp_mono _ _ (λ _ s', wp (kobject_free e) s' (λ _ s2, wp (gc_loop fuel c) s2 (λ _ s3, collected s c dead N R s3))));
      [|intros [] s' Hw; by apply wp_bind].
    apply (wp_bind_inv (gc_cb _ e) (λ _, kobject_free e)).
    eapply (free_dead_wp _ _ k1 ((dead' ≫= sg_nodes s1) ++ N) ((dead' ≫= sg_refs s1) ++ R)); [exact Hde1|exact Hk1| |].
    { rewrite Ene, Ere, En, Er. eapply refs_strip; [by eapply gc_frame_mem|exact Hi']. }
    intros s2 Hdr Es2. destruct (dropped_keeps s1 e dead' l N R (kn_mem s2) s2 c Hdr Es2 Hl1) as (Hg2 & En2 & Er2).
    { intros x Hxd. split; [by apply Hd'|by apply Hx]. }
    { intros x Hxl. destruct (Hv' x Hxl) as [?|(HN & k & Hk & Hrk)]; [by left|]. right. split; [done|].
      destruct (Hso x k Hk) as [lk Hk']. by exists (set_gc_link lk k). }
    eapply wp_mono; [apply (IH s2 l dead' Hg2); cbn in Hf; lia|]. intros [] s3 Hc3.
    eapply collected_perm; [exact Hp|]. eapply collected_frame; [exact HF| | |by eapply collected_drop].
    + by rewrite !bind_cons, Ene, En.
    + by rewrite !bind_cons, Ere, Er.
  - destruct (gc_frame_obj _ _ _ _ _ HF Hk) as [lk Hk1]. eapply wp_get_hdr; [exact Hk1|]. wp_pure. cbn [ko_hdr set_gc_link].
    rewrite (proj2 (Z.eqb_neq _ _) Hr). cbn [negb].
    assert (Hed : e ∉ dead).
    { intros Hed. destruct (Hd e Hed) as [_ (k' & Hk' & Hr' & _)]. congruence. }
    destruct (gc_inv_frame s s1 c l dead N R HF Hl1) as (Hg1 & En & Er); [| |done|].
    + intros x Hx. destruct (Hd x Hx) as [Hxl ?]. apply elem_of_cons in Hxl as [->|?]; done.
    + intros x Hx. apply Hv. by right.
    + eapply wp_mono; [apply (IH s1 l dead Hg1); cbn in Hf; lia|]. intros [] s2. by apply collected_frame.
Qed.

(** Every list of distinct pages is shorter than the memory. *)
Lemma pages_length m l : NoDup l → (∀ e, e ∈ l → page_live m e) → Z.of_nat (length l) ≤ Z.max 0 (mc_npages (pm_conf m)).
Proof.
  intros Hnd Hl. set (n := mc_npages (pm_conf m)) in *.
  assert (Hs : l ⊆+ page_addr <$> seqZ 0 n).
  { apply NoDup_submseteq; [done|]. intros e He. destruct (Hl e He) as (pn & i & [-> Hr] & _). apply list_elem_of_fmap.
    exists pn. split; [done|]. by apply elem_of_seqZ. }
  apply submseteq_length in Hs. rewrite length_fmap, length_seqZ in Hs. lia.
Qed.

(** C7: The collector on the CPU it runs on, when every object of the CPU's list that
    nobody refers to is a segment or a device: it stops, the list is empty, every page of
    these segments and devices is free unless another tree still refers to it or the
    hardware uses it, objects of any type that are referenced again stay, and nothing else
    of the memory changes.  (Lists with dead address trees, shares or processors are
    outside the statement.) *)
Theorem kobject_gc_scan_correct s l dead N R :
  gc_inv s (mc_cpu (pm_conf (kn_mem s))) l dead N R →
  wp kobject_gc_scan s (λ _ s', collected s (mc_cpu (pm_conf (kn_mem s))) dead N R s').
Proof.
  intros Hg. unfold kobject_gc_scan. wp_pure. apply wp_cpu_id. wp_pure. apply gc_loop_wp with l; [done|].
  pose proof Hg as [Hl Hi Hd Hv]. unfold list_fuel.
  assert (Hlen : Z.of_nat (length l) ≤ Z.max 0 (mc_npages (pm_conf (kn_mem s)))); [|lia].
  apply pages_length; [apply Hl|]. intros e He. eapply refs_node_live; [exact Hi|]. apply elem_of_app.
  destruct (Hv e He) as [Hed|[? _]]; [left|by right]. apply list_elem_of_bind. exists e. split; [by left|done].
Qed.

(** ** Example: a segment with a page to collect, and a share that is referenced *)
Module CollectExample.
Definition sg_page : Z := page_addr 3.
Definition sh_page : Z := page_addr 5.
Definition hdr (type n : Z) : kobject_hdr := KoHdr 7 type [] n false 0.
Definition sg : Segment := Seg (Aml 0 false) ArrayExample.arr1.
Definition dead_ko : kobject := Kobject (hdr kobj_segment 0) (KSg sg) (Link sh_page (Some (PHead (HGc 0)))).
Definition live_ko : kobject := Kobject (hdr kobj_share 1) (zero_body kobj_share) (Link 0 (Some (PNext sg_page))).
Definition mem : pmem := set_page sg_page (PgKobj dead_ko) (set_page sh_page (PgKobj live_ko) ArrayExample.mem1).
Definition st : kern := Kern mem {[0 := sg_page]} ∅ ∅ ∅ ∅ ∅ 1 0 [].
Lemma st_inv : gc_inv st 0 [sg_page; sh_page] [sg_page] [sh_page] [].
Proof.
  pose proof ArrayExample.arr1_inv as [[[Hi Hok _] _ _ _ _ _ _ _] _].
  assert (Hn : pt_nodes mem (da_pt ArrayExample.arr1) = pt_nodes ArrayExample.mem1 (da_pt ArrayExample.arr1) ∧
               pt_refs mem (da_pt ArrayExample.arr1) = pt_refs ArrayExample.mem1 (da_pt ArrayExample.arr1) ∧
               pt_ok mem (da_pt ArrayExample.arr1)).
  { assert (Hs : same_pages (pt_nodes ArrayExample.mem1 (da_pt ArrayExample.arr1)) ArrayExample.mem1 mem).
    { intros q Hq. pose proof (refs_nodup_l _ _ _ _ Hi) as [_ Hdis]. unfold mem, set_page. cbn [pm_page]. rewrite !lookup_insert_ne; [done| |];
        intros <-; apply (Hdis _ Hq); unfold sg_page, sh_page; [right; by left|by left]. }
    destruct (pt_ext _ _ _ Hs) as (? & ? & Hok' & _). split_and!; [done|done|by apply Hok']. }
  destruct Hn as (En & Er & Hok').
  assert (Hk : ∀ p, is_Some (pm_page ArrayExample.mem1 !! p) → ∀ c, is_Some (pm_page (set_page sh_page c ArrayExample.mem1) !! p)).
  { intros p Hp c. unfold set_page. cbn [pm_page]. destruct (decide (p = sh_page)) as [->|]; [by rewrite lookup_insert_eq|by rewrite lookup_insert_ne]. }
  assert (Hc : ∀ p, p ∈ [sg_page; sh_page] → is_Some (pm_page ArrayExample.mem1 !! p)).
  { intros p Hp. eapply refs_node_contents; [exact Hi|]. apply elem_of_app. by right. }
  assert (Hsg : kobj_at st sg_page = Some dead_ko) by (apply kobj_at_Some; apply lookup_insert_eq).
  assert (Hsh : kobj_at st sh_page = Some live_ko).
  { apply kobj_at_Some. change (<[sg_page := PgKobj dead_ko]> (pm_page (set_page sh_page (PgKobj live_ko) ArrayExample.mem1)) !! sh_page = Some (PgKobj live_ko)).
    rewrite lookup_insert_ne by (vm_compute; discriminate). apply lookup_insert_eq. }
  assert (Et : sg_tree st sg_page = da_pt ArrayExample.arr1) by (unfold sg_tree, obj_sg; by rewrite Hsg).
  split.
  - split; [done| |apply (bool_decide_unpack _); vm_compute; exact I|].
    + intros [|[|i]] e He; [injection He as <-|injection He as <-|by destruct i]; unfold link_at; [by rewrite Hsg|by rewrite Hsh].
    + intros e He. assert (Hz : Forall (λ e, e ≠ 0) [sg_page; sh_page]) by (repeat constructor; vm_compute; discriminate). rewrite Forall_forall in Hz. by apply Hz.
  - rewrite !bind_singleton, !app_nil_r. unfold sg_nodes, sg_refs. rewrite Et. change (kn_mem st) with mem.
    rewrite En, Er. cbn [app]. rewrite app_nil_r in Hi. rewrite Permutation_middle.
    apply refs_set_page; [apply refs_set_page; [exact Hi|apply Hc; right; by left]|apply Hk, Hc; by left].
  - intros e ->%list_elem_of_singleton. split; [by left|]. exists dead_ko.
    split; [exact Hsg|]. split; [reflexivity|]. split; [rewrite Et; exact Hok'|]. left. split; [reflexivity|by exists sg].
  - intros e [->|Hx]%elem_of_cons; [left; by left|]. apply list_elem_of_singleton in Hx as ->. right. split; [by left|]. exists live_ko. split; [exact Hsh|done].
Qed.
End CollectExample.

Lemma kobject_gc_scan_correct_witness :
  wp kobject_gc_scan CollectExample.st (λ _ s',
    page_free_p (kn_mem s') CollectExample.sg_page ∧ lrep s' (HGc 0) [] ∧
    strip_page <$> pm_page (kn_mem s') !! CollectExample.sh_page = Some (strip_page (PgKobj CollectExample.live_ko))).
Proof.
  eapply wp_mono; [exact (kobject_gc_scan_correct CollectExample.st _ _ _ _ CollectExample.st_inv)|].
  intros [] s' [Hl _ Hn _ Hk _ _]. split_and!; [apply Hn; by left|exact Hl|]. rewrite Hk by (left; by left). reflexivity.
Defined.
