(* ===== verification/KobjProps.v ===== *)
(** * Kernel objects: properties

    Identifiers are never handed out twice, and a new object is a fresh page that starts
    on the collector's list, so that it dies unless someone refers to it before the next
    scan. *)
From S2P Require Import Prelude Machine Hashtable Locks Ktypes Kmem PageAlloc Pagetree PageRefs PagetreeProps KMap Kobj KobjThms.

(** C14: Identifiers are unique: whatever CPUs allocate in whatever order, no number is handed
    out twice, none is 0, and every number is new for its CPU.  The only other outcome is
    a panic, when a CPU has used up its 2^56 numbers. *)
Theorem id_alloc_unique cs s :
  ids_ok s → Forall (λ c, 0 ≤ c < 256) cs →
  match ids_alloc cs s with
  | Ret l s' => length l = length cs ∧ NoDup l ∧ Forall (id_between (kn_id s) (kn_id s')) l ∧ 0 ∉ l
  | Crash f => f = Panic ∧ ∃ c, c ∈ cs ∧ id_max ≤ per_cpu (kn_id s) c + Z.of_nat (length cs)
  end.
Proof.
  intros Hok Hcs. pose proof (ids_alloc_run cs s Hok Hcs) as H. destruct (ids_alloc cs s) as [l s'|f]; [|done].
  destruct H as (_ & _ & Hlen & Hnd & Hall). split_and!; try done. intros H0. rewrite Forall_forall in Hall.
  destruct (Hall 0 H0) as (c & x & Hc & He & _ & Hx). unfold id_max in *. lia.
Qed.

(** C13: [kobject_alloc] gives [-E_NO_MEM] and no object when memory is used up.  Otherwise the
    object is a page that nothing used; its header has a new identifier, the type and the
    CPU asked for, no name and no references; its body is all zero; it is first on the
    collector's list of the CPU; and no other page changes but for links of that list. *)
Theorem kobject_alloc_correct s N R c l type pid node :
  refs_inv (kn_mem s) N R → lrep s (HGc c) l → (∀ e, e ∈ l → e ∈ N) →
  home_node (pm_conf (kn_mem s)) pid = Some node →
  mc_cpu (pm_conf (kn_mem s)) = c → 0 ≤ c < 256 → ids_ok s → per_cpu (kn_id s) c + 1 < id_max →
  wp (kobject_alloc type pid) s (λ '(r, p) s',
    (r = - E_NO_MEM ∧ (∀ q, ¬ page_free_p (kn_mem s) q) ∧ lrep s' (HGc c) l ∧ refs_inv (kn_mem s') N R ∧
       pm_page (kn_mem s') = pm_page (kn_mem s)) ∨
    (r = 0 ∧ alloc_done s N R c l type pid p s')).
Proof.
  intros Hi Hl HlN Hh Hc Hr Hok Hid. eapply kobject_alloc_wp; try done.
  - intros f Hif Hno. left. split_and!; try done. eapply lrep_ext; done.
  - intros p s' Hd. by right.
Qed.

(** ** Examples *)

Definition boot_kern : kern := Kern Machine2.mem ∅ ∅ ∅ ∅ ∅ ∅ 2 0 [].
Lemma boot_ids : ids_ok boot_kern.
Proof. intros c. unfold per_cpu, boot_kern. cbn [kn_id]. rewrite lookup_empty. cbn. unfold id_max. lia. Qed.
Lemma id_alloc_unique_witness :
  match ids_alloc [0; 1; 0; 1; 1] boot_kern with Ret l _ => NoDup l ∧ (0 ∉ l) | Crash _ => False end ∧
  (∃ s', ids_alloc [0; 1; 0] boot_kern = Ret [1; id_max + 1; 2] s').
Proof.
  split; [|eexists; vm_compute; reflexivity].
  pose proof (id_alloc_unique [0; 1; 0; 1; 1] boot_kern boot_ids ltac:(repeat constructor; lia)) as H.
  destruct (ids_alloc [0; 1; 0; 1; 1] boot_kern) as [l s'|f]; [by destruct H as (_ & ? & _ & ?)|].
  destruct H as (_ & c & Hc & Hle). unfold id_max, per_cpu, boot_kern in Hle. cbn [kn_id] in Hle. rewrite lookup_empty in Hle. cbn in Hle. lia.
Defined.
Lemma kobject_alloc_correct_witness :
  wp (kobject_alloc kobj_segment 0) boot_kern (λ '(r, p) s',
    r = - E_NO_MEM ∨ (r = 0 ∧ refs_inv (kn_mem s') [p; page_addr 3; page_addr 5] [] ∧ lrep s' (HGc 0) [p])) ∧
  match kobject_alloc kobj_segment 0 boot_kern with Ret (r, p) _ => r = 0 ∧ p = page_addr 2 | Crash _ => False end.
Proof.
  split; [|vm_compute; by split].
  eapply wp_mono; [apply (kobject_alloc_correct boot_kern [page_addr 3; page_addr 5] [] 0 [] kobj_segment 0 0)|].
  - exact TreeExample.start.
  - split; [done|by intros i e ?|apply NoDup_nil_2|by intros e ?%not_elem_of_nil].
  - by intros e ?%not_elem_of_nil.
  - reflexivity.
  - reflexivity.
  - lia.
  - exact boot_ids.
  - vm_compute. reflexivity.
  - intros [r p] s' [(? & _)|(? & [])]; [by left|right; by split_and!].
Defined.
