(* ===== verification/KernExamples.v ===== *)
(** * A machine with one processor

    A machine with 64 pages and one CPU boots the object layer the way the kernel does:
    a share, a processor that has it, an address tree in it, and the processor running in
    that address tree.  The theorems run sequences of system calls and page faults of a
    user program on it and show what the code does in cases its authors did not mean. *)
From S2P Require Import Prelude Machine Hashtable Locks Ktypes Kmem PageAlloc Pagetree Darray KMap Pmap Mcsrw Kobj Share At Proc Syscall.

Module OneCpu.
Definition npages : Z := 64.
Definition conf : mconf := MConf 0 [0] [MemNode 0 (4096 * npages) [true]] npages (KERNBASE + 1048576).
(** The first four pages are the kernel's. *)
Definition mem : pmem :=
  PMem conf (list_to_map ((0, page_addr <$> seqZ 4 (npages - 4)) :: ((λ n, (n, [])) <$> seqZ 1 15))) ∅ 0
    (list_to_map (((λ n, (n, zero_info)) <$> seqZ 0 4) ++ ((λ n, (n, pi_set_free true zero_info)) <$> seqZ 4 (npages - 4))))
    (list_to_map ((λ pn, (page_addr pn, PgJunk)) <$> seqZ 0 npages)).
Definition machine : kern := Kern mem ∅ ∅ ∅ ∅ ∅ ∅ 1 (page_addr 1 + 8) [].

(** A share for all types of objects, a processor and an address tree in it, started. *)
Definition start_up : M kern Z :=
  '(r1, sh) ← share_alloc (-1) 0;
  '(r2, ps) ← processor_alloc 0;
  r3 ← processor_add_share ps sh;
  r4 ← share_import_obj sh ps;
  '(r5, a) ← at_alloc ∅ 0 0;
  r6 ← share_import_obj sh a;
  h ← get_hdr sh;
  ha ← get_hdr a;
  r7 ← locked_call ps (processor_vector ps (MkUc (Sobj (ko_id h) (ko_id ha)) ps_mode_reg 0 0 [] []));
  c_assert (forallb (λ r, r =? 0) [r1; r2; r3; r4; r5; r6; r7]);;
  processor_run.
(** The identifiers boot hands out. *)
Definition sh : Z := 1.
Definition ps_id : Z := 2.
Definition at_id : Z := 3.

(** What a user program does, on the processor that runs; after each trap the kernel
    scans its lists in [processor_run]. *)
Definition trap {A} (c : Z → M kern A) : M kern A := ps ← processor_sched; r ← c ps; processor_run;; mret r.
Definition ok (c : M kern Z) : M kern Z := r ← c; c_assert (0 <=? r);; mret r.
Definition new_segment : M kern Z := ok (trap (λ ps, sys_segment_alloc ps sh 4096 (Some []) 0)).
(** Slot [slot] of the address tree [a] maps one page of object [id] of type [type] at [va]. *)
Definition map_at (a slot id va type : Z) : M kern Z :=
  ok (trap (λ ps, sys_at_set_slot ps (Sobj sh a)
    (Some (Uam type (Sobj sh id) slot (Z.lor SEGMAP_READ SEGMAP_WRITE) va 0 1)))).
(** A write to [va] that faults. *)
Definition write_fault (fuel : nat) (va : Z) : M kern Z :=
  trap (λ ps, processor_pagefault fuel ps va (Z.lor SEGMAP_READ SEGMAP_WRITE)).
(** The page the hardware uses for [va], and whether the allocator has it as free. *)
Definition page_behind (va : Z) : M kern Z :=
  trap (λ ps, x ← get_ps ps; y ← get_at (ps_at x); '(p, _) ← on_kmem (page_lookup (at_pgmap y) va); mret p).
Definition is_free (p : Z) : M kern bool :=
  i ← on_kmem (pi ← page_to_pageinfo p; get_info pi); mret (pi_freepage i).
Definition result {A} (c : M kern A) : A + fault :=
  match (start_up;; c) machine with Ret a _ => inl a | Crash f => inr f end.
End OneCpu.
Import OneCpu.

(** Everything works once: a new segment is mapped, faults in, and the hardware then
    translates the address to a page that is not free. *)
Theorem mapped_segment_faults_in :
  result (sg ← new_segment; map_at at_id 0 sg 0x10000 address_mapping_segment;;
          r ← write_fault 2 0x10000; p ← page_behind 0x10000; f ← is_free p; mret (r, negb (p =? 0), f))
  = inl (0, true, false).
Proof. vm_compute. reflexivity. Qed.

(** A user program keeps access to memory the kernel has freed: it maps two segments
    and touches both, then drops its reference to the first.  [share_remove_obj] does not
    call [segment_remove_cb], so no mapping is taken out; the collector frees the
    segment's pages, and the program's page table still shows one of them, writable, while
    it is on the allocator's free list. *)
Theorem unref_leaves_freed_page_mapped :
  result (sa ← new_segment; sb ← new_segment;
          map_at at_id 0 sa 0x10000 address_mapping_segment;;
          map_at at_id 1 sb 0x20000 address_mapping_segment;;
          write_fault 2 0x10000;; write_fault 2 0x20000;;
          r ← trap (λ ps, sys_share_unref ps sh sa);
          p ← page_behind 0x10000; f ← is_free p; mret (r, negb (p =? 0), f))
  = inl (0, true, true).
Proof. vm_compute. reflexivity. Qed.

(** Moving a mapping panics the kernel at the next fault on its old address: the range
    cache of the address tree still names the slot, and [at_va_to_segment_page] asserts
    that the address is in the range the slot has now. *)
Theorem moved_mapping_panics :
  result (sg ← new_segment; map_at at_id 0 sg 0x10000 address_mapping_segment;; write_fault 2 0x10000;;
          map_at at_id 0 sg 0x30000 address_mapping_segment;; write_fault 2 0x10000)
  = inr Panic.
Proof. vm_compute. reflexivity. Qed.

(** The object lookup cache of an address tree does not look at types: a segment that was
    just looked up is taken for an interior address tree. *)
Theorem segment_used_as_address_tree :
  result (sg ← new_segment; map_at at_id 0 sg 0x10000 address_mapping_segment;; write_fault 2 0x10000;;
          map_at at_id 1 sg 0x40000000 address_mapping_interior;; write_fault 2 0x40000000)
  = inr Undef.
Proof. vm_compute. reflexivity. Qed.

(** A share that is named as an object of itself passes for an object of every type. *)
Theorem share_used_as_segment : result (trap (λ ps, sys_segment_get_nbytes ps (Sobj sh sh))) = inr Undef.
Proof. vm_compute. reflexivity. Qed.

(** An interior address tree that maps itself makes the fault handler call itself without
    end: three hundred nested calls are not enough. *)
Theorem self_mapped_tree_recurses :
  result (i ← ok (trap (λ ps, sys_at_alloc ∅ ps sh 1 (Some []) 0));
          map_at i 0 i 0 address_mapping_interior;;
          map_at at_id 0 i 0x40000000 address_mapping_interior;;
          write_fault 300 0x40000000)
  = inr NoFuel.
Proof. vm_compute. reflexivity. Qed.

(** What a user reads in a copy of a segment with data in it. *)
Definition copied_segment (mode : Z) : page + fault :=
  result (sa ← new_segment; map_at at_id 0 sa 0x10000 address_mapping_segment;; write_fault 2 0x10000;;
          p ← page_behind 0x10000; on_kmem (write_page p PgJunk);;
          sb ← ok (trap (λ ps, sys_segment_copy ps sh (Sobj sh sa) (Some []) mode 0));
          map_at at_id 1 sb 0x20000 address_mapping_segment;; write_fault 2 0x20000;;
          q ← page_behind 0x20000; on_kmem (read_page q)).
(** A private copy of a segment is empty: [pagetree_copy_ent] copies the pages but does not
    mark them as cleared, so the first fault on each page of the copy zeroes it.  Copies that
    share pages show the contents. *)
Theorem copied_segment_reads_zero :
  copied_segment page_excl = inl PgZero ∧ copied_segment page_shared_cow = inl PgJunk ∧ copied_segment page_shared_cor = inl PgJunk.
Proof. vm_compute. split_and!; reflexivity. Qed.

(** [processor_set_device] accepts the index one past the end of the array. *)
Theorem set_device_off_by_one :
  result (trap (λ ps, sys_processor_set_device ps (Sobj sh ps_id) NDEVICES_PER_MONITOR (Sobj 0 0))) = inr Undef.
Proof. vm_compute. reflexivity. Qed.
