(* ===== verification/Effects.v ===== *)
(** * What code does not change

    [Keeps] (Supply.v) for the page trees, the dynamic arrays and the page maps: which
    pages are marked as page maps is changed by the page map code alone; page trees and
    dynamic arrays leave the marks as they are. *)
From S2P Require Import Prelude Machine Hashtable Locks Ktypes Kmem PageAlloc Pagetree Supply Darray Pmap PmapSpec.

(** ** The marks of page maps *)

(** The flags of a page that say whether it is a page map, and the lock of its clearing. *)
Definition marks (i : page_info) : bool * bool * bool := (pi_pmap i, pi_pmap_int i, pi_clear_lock i).
Definition same_marks (m m' : pmem) : Prop :=
  pm_conf m' = pm_conf m ∧ ∀ pn, marks <$> pm_info m' !! pn = marks <$> pm_info m !! pn.
#[export] Instance same_marks_preorder : PreOrder same_marks.
Proof. split; [by intros m|]. intros m1 m2 m3 [C1 H1] [C2 H2]. split; [congruence|]. intros pn. by rewrite H2, H1. Qed.

Lemma same_marks_bit m m' q : same_marks m m' → pmap_bit m' q = pmap_bit m q.
Proof.
  intros [_ H]. unfold pmap_bit. specialize (H ((q - PHYSBASE) / PGSIZE)).
  destruct (pm_info m' !! _), (pm_info m !! _); cbn in H; try done. by injection H.
Qed.
Lemma same_marks_info m pn i i' : pm_info m !! pn = Some i → marks i' = marks i → same_marks m (set_info pn i' m).
Proof.
  intros Hi Hm. split; [done|]. intros pn'. cbn. destruct (decide (pn' = pn)) as [->|Hne].
  - by rewrite lookup_insert_eq, Hi; cbn; rewrite Hm.
  - by rewrite lookup_insert_ne.
Qed.

(** ** Relations that allocation keeps *)

(** Relations that do not look at page contents, free lists, reference counts and free
    bits; what allocates and writes pages keeps them.  Freeing also changes the mark of
    cleared pages. *)
Class Quiet (P : relation pmem) : Prop := {
  q_pre :: PreOrder P;
  q_page : ∀ p c m, P m (set_page p c m);
  q_lists : ∀ n l m, P m (set_free n l m);
  q_locks : ∀ l m, P m (set_locks l m);
  q_failures : ∀ f m, P m (set_failures f m);
  q_free_bit : ∀ m pn i b, pm_info m !! pn = Some i → P m (set_info pn (pi_set_free b i) m);
  q_ref : ∀ m pn i r, pm_info m !! pn = Some i → P m (set_info pn (pi_set_ref r i) m);
}.
Class Clears (P : relation pmem) : Prop :=
  clears : ∀ m pn i b, pm_info m !! pn = Some i → P m (set_info pn (pi_set_clear b i) m).
#[export] Instance marks_quiet : Quiet same_marks.
Proof. split; try done; [typeclasses eauto|intros; by eapply same_marks_info..]. Qed.
#[export] Instance marks_clears : Clears same_marks.
Proof. intros m pn i b Hi. by eapply same_marks_info. Qed.

Section quiet.
Context (P : relation pmem) `{!Quiet P}.
#[export] Instance km_kva2pa p : Keeps P (kva2pa p). Proof. unfold kva2pa. keeps. Qed.
#[export] Instance km_pa2ppn p : Keeps P (pa2ppn p). Proof. unfold pa2ppn. keeps. Qed.
#[export] Instance km_pageinfo p : Keeps P (page_to_pageinfo p). Proof. unfold page_to_pageinfo. keeps. Qed.
#[export] Instance km_get_info p : Keeps P (get_info p). Proof. unfold get_info. keeps. Qed.
Lemma km_upd_info pn f : (∀ m i, pm_info m !! pn = Some i → P m (set_info pn (f i) m)) → Keeps P (upd_info pn f).
Proof.
  intros Hf m a m'. unfold upd_info, get_info, put_info, mbind, m_bind, deref, modify.
  destruct (pm_info m !! pn) as [i|] eqn:Hi; [|done]. intros [= _ <-]. by apply Hf.
Qed.
#[export] Instance km_upd_free pn b : Keeps P (upd_info pn (pi_set_free b)).
Proof. apply km_upd_info. intros m i. apply q_free_bit. Qed.
#[export] Instance km_upd_ref pn f : Keeps P (upd_info pn (λ i, pi_set_ref (f (pi_ref i)) i)).
Proof. apply km_upd_info. intros m i. apply q_ref. Qed.
#[export] Instance km_set_page p c : Keeps P (modify (set_page p c)). Proof. apply keeps_modify, q_page. Qed.
#[export] Instance km_read_page p : Keeps P (read_page p). Proof. unfold read_page. keeps. Qed.
#[export] Instance km_write_page p c : Keeps P (write_page p c). Proof. unfold write_page. keeps. Qed.
#[export] Instance km_page_zero p : Keeps P (page_zero p). Proof. unfold page_zero. keeps. Qed.
#[export] Instance km_copy_page p q : Keeps P (copy_page p q). Proof. unfold copy_page. keeps. Qed.
#[export] Instance km_node_by_addr p : Keeps P (arch_node_by_addr p). Proof. unfold arch_node_by_addr. keeps. Qed.
#[export] Instance km_node_by_cpu p : Keeps P (arch_node_by_cpu p). Proof. unfold arch_node_by_cpu. keeps. Qed.
#[export] Instance km_arch_cpu : Keeps P arch_cpu. Proof. unfold arch_cpu. keeps. Qed.
#[export] Instance km_set_locks l : Keeps P (modify (set_locks l)). Proof. apply keeps_modify, q_locks. Qed.
#[export] Instance km_set_free n l : Keeps P (modify (set_free n l)). Proof. apply keeps_modify, q_lists. Qed.
#[export] Instance km_set_failures f : Keeps P (modify (set_failures f)). Proof. apply keeps_modify, q_failures. Qed.
#[export] Instance km_list_lock n : Keeps P (list_lock n). Proof. unfold list_lock. keeps. Qed.
#[export] Instance km_list_unlock n : Keeps P (list_unlock n). Proof. unfold list_unlock. keeps. Qed.
#[export] Instance km_free_list n : Keeps P (free_list n). Proof. unfold free_list. keeps. Qed.
#[export] Instance km_tailq_first n : Keeps P (tailq_first n). Proof. unfold tailq_first. keeps. Qed.
#[export] Instance km_tailq_insert n p : Keeps P (tailq_insert_head n p). Proof. unfold tailq_insert_head. keeps. Qed.
#[export] Instance km_tailq_remove n : Keeps P (tailq_remove_first n). Proof. unfold tailq_remove_first. keeps. Qed.
#[export] Instance km_alloc_search k n node : Keeps P (alloc_search k n node).
Proof. revert n. induction k as [|k IH]; intros n; cbn [alloc_search]; keeps. Qed.
#[export] Instance km_page_alloc pid : Keeps P (page_alloc pid). Proof. unfold page_alloc. keeps. Qed.

Context `{!Clears P}.
#[export] Instance km_upd_clear pn b : Keeps P (upd_info pn (pi_set_clear b)).
Proof. apply km_upd_info. intros m i. apply clears. Qed.
#[export] Instance km_page_free p : Keeps P (page_free p). Proof. unfold page_free. keeps. Qed.

(** Page trees and arrays. *)
#[export] Instance km_read_ptr p s : Keeps P (read_ptr p s). Proof. unfold read_ptr. keeps. Qed.
#[export] Instance km_write_ptr p s v : Keeps P (write_ptr p s v). Proof. unfold write_ptr. keeps. Qed.
#[export] Instance km_read_pent p s : Keeps P (read_pent p s). Proof. unfold read_pent. keeps. Qed.
#[export] Instance km_write_pent p s v : Keeps P (write_pent p s v). Proof. unfold write_pent. keeps. Qed.
#[export] Instance km_read_indir pt ip : Keeps P (read_indir pt ip). Proof. unfold read_indir. keeps. Qed.
#[export] Instance km_write_indir pt ip v : Keeps P (write_indir pt ip v). Proof. unfold write_indir. keeps. Qed.
#[export] Instance km_read_ent pt pe : Keeps P (read_ent pt pe). Proof. unfold read_ent. keeps. Qed.
#[export] Instance km_write_ent pt pe e : Keeps P (write_ent pt pe e). Proof. unfold write_ent. keeps. Qed.
#[export] Instance km_incref p : Keeps P (pagetree_incref p).
Proof. unfold pagetree_incref. keeps. Qed.
#[export] Instance km_decref p : Keeps P (pagetree_decref p).
Proof.
  unfold pagetree_decref. keeps1; [keeps|]. intros m b m'. unfold mbind at 1, m_bind at 1, get_info, deref.
  destruct (pm_info m !! a) as [i|] eqn:Hi; [|done].
  destruct (jos_atomic_dec_and_test (pi_ref i)) as [r z]. unfold mbind at 1, m_bind at 1, put_info, modify. intros Hr.
  etrans; [by apply (q_ref m a i r)|].
  revert Hr. generalize (set_info a (pi_set_ref r i) m). intros m1 Hr.
  assert (K : Keeps P (if z then c_assert (pi_hw_ref i =? 0);; page_free p else mret tt)) by keeps. by eapply K.
Qed.
#[export] Instance km_tree_copy_page pt pe pid : Keeps P (pagetree_copy_page pt pe pid). Proof. unfold pagetree_copy_page. keeps. Qed.
#[export] Instance km_indirect_node pt ip pid : Keeps P (get_indirect_node pt ip pid). Proof. unfold get_indirect_node. keeps. Qed.
#[export] Instance km_entp_indirect l pt ip n pid : Keeps P (pagetree_get_entp_indirect l pt ip n pid).
Proof. revert pt ip n. induction l as [|l IH]; intros pt ip n; cbn [pagetree_get_entp_indirect]; keeps. Qed.
#[export] Instance km_entp_loop k i pt n q : Keeps P (get_entp_loop k i pt n q).
Proof. revert i n q. induction k as [|k IH]; intros i n q; cbn [get_entp_loop]; keeps. Qed.
#[export] Instance km_get_entp pt n : Keeps P (pagetree_get_entp pt n). Proof. unfold pagetree_get_entp. keeps. Qed.
#[export] Instance km_ent_lock pt pe : Keeps P (ent_lock pt pe). Proof. unfold ent_lock. keeps. Qed.
#[export] Instance km_ent_unlock pt pe : Keeps P (ent_unlock pt pe). Proof. unfold ent_unlock. keeps. Qed.
#[export] Instance km_page_demand pt pe : Keeps P (get_page_demand pt pe). Proof. unfold get_page_demand. keeps. Qed.
#[export] Instance km_page_cow pt pe mode : Keeps P (get_page_cow pt pe mode). Proof. unfold get_page_cow. keeps. Qed.
#[export] Instance km_get_page pt n mode : Keeps P (pagetree_get_page pt n mode). Proof. unfold pagetree_get_page. keeps. Qed.
#[export] Instance km_put_entry pt pe p : Keeps P (Pagetree.put_entry pt pe p). Proof. unfold Pagetree.put_entry. keeps. Qed.
#[export] Instance km_put_page pt n p : Keeps P (pagetree_put_page pt n p). Proof. unfold pagetree_put_page. keeps. Qed.
#[export] Instance km_rw_read_lock w : Keeps P (Rw.rw_read_lock w). Proof. unfold Rw.rw_read_lock. keeps. Qed.
#[export] Instance km_rw_write_lock w : Keeps P (Rw.rw_write_lock w). Proof. unfold Rw.rw_write_lock. keeps. Qed.
#[export] Instance km_darray_get a i mode : Keeps P (darray_get a i mode). Proof. unfold darray_get. keeps. Qed.
#[export] Instance km_drop_pages k i pt : Keeps P (drop_pages k i pt).
Proof. revert i pt. induction k as [|k IH]; intros i pt; cbn [drop_pages]; keeps. Qed.
#[export] Instance km_undo_pages k i pt : Keeps P (undo_pages k i pt).
Proof. revert i pt. induction k as [|k IH]; intros i pt; cbn [undo_pages]; keeps. Qed.
#[export] Instance km_alloc_one pid i mx pt : Keeps P (alloc_one pid i mx pt). Proof. unfold alloc_one. keeps. Qed.
#[export] Instance km_clear_page p : Keeps P (clear_page p). Proof. unfold clear_page. keeps. Qed.
#[export] Instance km_alloc_pages k i c mx pid clear pt : Keeps P (alloc_pages k i c mx pid clear pt).
Proof. revert i mx pt. induction k as [|k IH]; intros i mx pt; cbn [alloc_pages]; keeps. Qed.
#[export] Instance km_set_nent_internal a n c : Keeps P (darray_set_nent_internal a n c). Proof. unfold darray_set_nent_internal. keeps. Qed.
#[export] Instance km_set_nent a n c : Keeps P (darray_set_nent a n c). Proof. unfold darray_set_nent. keeps. Qed.
#[export] Instance km_grow_nent a n : Keeps P (darray_grow_nent a n). Proof. unfold darray_grow_nent. keeps. Qed.

(** Mapping a page marks nothing either. *)
#[export] Instance km_read_pte e : Keeps P (read_pte e). Proof. unfold read_pte. keeps. Qed.
#[export] Instance km_write_pte e v : Keeps P (write_pte e v). Proof. unfold write_pte. keeps. Qed.
Lemma km_trav_loop {X} (body : Z → X → M pmem (Z * X)) n idx x : (∀ i x, Keeps P (body i x)) → Keeps P (trav_loop body n idx x).
Proof. intros Hb. revert idx x. induction n as [|n IH]; intros idx x; cbn [trav_loop]; keeps. Qed.
Lemma km_traverse {X} l pg first last flags (cb : X → ptep → Z → M pmem X) base pid x :
  (∀ x e va, Keeps P (cb x e va)) → Keeps P (page_map_traverse_internal l pg first last flags cb base pid x).
Proof.
  intros Hcb. revert pg first last base x. induction l as [|l IH]; intros pg first last base x;
    cbn [page_map_traverse_internal]; apply km_trav_loop; intros i y; keeps.
Qed.
#[export] Instance km_pgdir_walk pg l va flags pid : Keeps P (pgdir_walk pg l va flags pid).
Proof.
  unfold pgdir_walk. destruct (va >=? ULIM); [keeps|]. apply (keeps_bind _).
  - apply km_traverse. intros. apply keeps_ret, _.
  - intros [r o]. keeps.
Qed.
#[export] Instance km_the_pte o : Keeps P (the_pte o). Proof. unfold the_pte. keeps. Qed.
#[export] Instance km_putpage pg va pp flags pid : Keeps P (as_arch_putpage pg va pp flags pid). Proof. unfold as_arch_putpage. keeps. Qed.
#[export] Instance km_invalidate_internal l pg first last : Keeps P (page_map_invalidate_internal l pg first last).
Proof. revert pg first last. induction l as [|l IH]; intros pg first last; cbn [page_map_invalidate_internal]; keeps. Qed.
#[export] Instance km_invalidate pg first last : Keeps P (page_map_invalidate pg first last). Proof. unfold page_map_invalidate. keeps. Qed.
End quiet.
