(* ===== verification/Space.v ===== *)
(** * A page map and arrays side by side

    The memory of an address space: a page map, and the dynamic arrays that live next to
    it (the tables of mappings and the pages of segments).  [space] owns all of them at
    once; the lemmas here let an operation on one component run in it and keep the
    others.  The rules of PageRefs say who owns which page; what is added is that arrays
    do not touch the marks of page maps (Effects). *)
From S2P Require Import Prelude Machine Hashtable Locks Ktypes Kmem PageAlloc Pagetree Supply PageRefs PagetreeSpec PagetreeOps PagetreeWhole PagetreeThms PagetreeFree PagetreeProps Darray DarrayThms DarrayProps Pmap PmapSpec PmapThms PmapProps Effects.

(** ** The pages of a tree are those of its entries *)

Lemma ent_ref_elem e q : q ∈ ent_ref e → pe_page e = q ∧ q ≠ 0.
Proof. unfold ent_ref. destruct (Z.eqb_spec (pe_page e) 0); [by intros ?%not_elem_of_nil|]. by intros ->%list_elem_of_singleton. Qed.
Lemma refs_walk m l ind q : q ∈ refs m l ind → ∃ n, 0 ≤ n < cap l ∧ pe_page (walk m l ind n) = q ∧ q ≠ 0.
Proof.
  revert ind. induction l as [|l IH]; intros ind Hq; (destruct (decide (ind = 0)) as [->|Hi]; [by rewrite refs_null in Hq; apply not_elem_of_nil in Hq|]).
  - rewrite refs_O in Hq by done. apply list_elem_of_bind in Hq as (s & [Hs H0]%ent_ref_elem & Hin%elem_of_indices).
    exists s. unfold walk. rewrite locate_O by done. split_and!; [apply Hin..|done|done].
  - rewrite refs_S in Hq by done. apply list_elem_of_bind in Hq as (s & (n & Hn & Hw & H0)%IH & Hin%elem_of_slots).
    pose proof (cap_pos l). exists (s * cap l + n). cbn [cap]. split; [nia|].
    rewrite walk_S by done. rewrite Z.div_add_l, Z.div_small, Z.add_0_r by lia.
    by rewrite Z.add_comm, Z.mod_add, Z.mod_small by lia.
Qed.
Lemma refs_entry m pt q : length (pt_direct pt) = 3%nat → q ∈ pt_refs m pt → ∃ n, 0 ≤ n ∧ pe_page (pt_entry m pt n) = q ∧ q ≠ 0.
Proof.
  intros H3 [Hq|Hq]%elem_of_app; apply list_elem_of_bind in Hq as (e & Hq & He).
  - apply list_elem_of_lookup in He as [k Hk]. pose proof (lookup_lt_Some _ _ _ Hk) as Hlt. exists (Z.of_nat k).
    unfold pt_entry, PAGETREE_DIRECT_ENTRIES. rewrite (proj2 (Z.ltb_lt _ _)), Nat2Z.id, Hk by lia. apply ent_ref_elem in Hq as [Hq H0]. split_and!; [lia|done|done].
  - apply refs_walk in Hq as (n & Hn & Hw & H0).
    assert (Hl : ∃ N, PAGETREE_DIRECT_ENTRIES ≤ N ∧ level_of N = Some (e, n)).
    { exists (PAGETREE_DIRECT_ENTRIES + foldr Z.add 0 (cap <$> take e levels) + n). pose proof (cap_pos 0). pose proof (cap_pos 1).
      pose proof (cap_pos 2). pose proof (cap_pos 3). unfold PAGETREE_DIRECT_ENTRIES, level_of, levels in *.
      repeat (apply elem_of_cons in He as [->|He]; [|]); [..|by apply elem_of_nil in He];
        cbn [take fmap list_fmap foldr find_level]; unfold PAGETREE_DIRECT_ENTRIES; (split; [lia|]);
        repeat (first [rewrite (proj2 (Z.ltb_lt _ _)) by lia | rewrite (proj2 (Z.ltb_ge _ _)) by lia]); do 2 f_equal; lia. }
    destruct Hl as (k & Hk & Hlv). exists k. unfold pt_entry. rewrite (proj2 (Z.ltb_ge _ _)), Hlv by lia. split_and!; [|done..].
    unfold PAGETREE_DIRECT_ENTRIES in Hk. lia.
Qed.

(** ** Arrays without ownership *)

Record da_wf (m : pmem) (a : darray) : Prop := DaWf {
  dw_ok : pt_ok m (da_pt a);
  dw_ents : ∀ n, 0 ≤ n → PagetreeWhole.ent_ok (pt_entry m (da_pt a) n);
  dw_esz : 0 < da_esz a ≤ PGSIZE;
  dw_pp : da_pp a = PGSIZE / da_esz a;
  dw_pid : pt_pid (da_pt a) = da_pid a;
  dw_demand : pt_demand (da_pt a) = da_demand a;
  dw_nent : 0 ≤ da_nent a ∧ da_nent a + da_pp a - 1 < 2 ^ 64;
  dw_out : ∀ n, da_npages a (da_nent a) ≤ n → pe_page (pt_entry m (da_pt a) n) = 0;
  dw_in : da_demand a = false → ∀ n, 0 ≤ n < da_npages a (da_nent a) → pe_page (pt_entry m (da_pt a) n) ≠ 0;
  dw_lock : da_ptl a = Rw.RW_LOCK_BIAS;
}.
Definition a_nodes (m : pmem) (a : darray) : list Z := pt_nodes m (da_pt a).
Definition a_refs (m : pmem) (a : darray) : list Z := pt_refs m (da_pt a).

Lemma da_inv_wf m a N R : da_inv m a N R ↔ da_wf m a ∧ refs_inv m (a_nodes m a ++ N) (a_refs m a ++ R).
Proof.
  split.
  - intros [[[Hr Hok He] H1 H2 H3 H4 H5 H6 H7] Hl]. by split.
  - intros [[Hok He H1 H2 H3 H4 H5 H6 H7 Hl] Hr]. split; [|done]. by split; [split|..].
Qed.
Lemma pt_entry_neg m pt n : n < 0 → pt_entry m pt n = default null_ent (pt_direct pt !! 0%nat).
Proof. intros Hn. unfold pt_entry. rewrite (proj2 (Z.ltb_lt _ _)) by (unfold PAGETREE_DIRECT_ENTRIES; lia). by replace (Z.to_nat n) with 0%nat by lia. Qed.
Lemma entry_ext m m' a n : same_pages (a_nodes m a) m m' → pt_entry m' (da_pt a) n = pt_entry m (da_pt a) n.
Proof.
  intros Hs. destruct (decide (0 ≤ n)) as [Hn|Hn]; [by apply pt_ext|]. by rewrite !pt_entry_neg by lia.
Qed.
Lemma da_wf_ext m m' a : same_pages (a_nodes m a) m m' → da_wf m a → da_wf m' a ∧ a_nodes m' a = a_nodes m a ∧ a_refs m' a = a_refs m a.
Proof.
  intros Hs [Hok He H1 H2 H3 H4 H5 H6 H7 Hl]. destruct (pt_ext _ _ _ Hs) as (Hn & Hr & Ho & _).
  split; [|done]. split; try done.
  - by apply Ho.
  - intros n Hn0. rewrite (entry_ext m m') by done. by apply He.
  - intros n Hn0. rewrite (entry_ext m m') by done. by apply H6.
  - intros Hd n Hn0. rewrite (entry_ext m m') by done. by apply H7.
Qed.

(** Other contents for pages. *)
Definition with_pages (pg : gmap Z page) (m : pmem) : pmem :=
  PMem (pm_conf m) (pm_free m) (pm_lock m) (pm_failures m) (pm_info m) pg.
Lemma refs_pages m N R pg : refs_inv m N R → (∀ q, is_Some (pm_page m !! q) → is_Some (pg !! q)) → refs_inv (with_pages pg m) N R.
Proof.
  intros [Ha Hnd Hn Hnr Hl Hr] Hs. split; try done. destruct Ha as [H1 H2 H3 H4 H5 H6]. split; try done.
  intros pn Hpn. destruct (H5 pn Hpn) as (i & Hi & Hp & H7 & H8). exists i. split_and!; try done. by apply Hs.
Qed.

(** ** The space *)

Record space (m : pmem) (lvl : nat) (pm : Z) (As : list darray) (N R : list Z) : Prop := Space {
  sp_refs : refs_inv m (tables m lvl pm ++ (As ≫= a_nodes m) ++ N) ((As ≫= a_refs m) ++ R);
  sp_pm : pm ∈ N;
  sp_ok : map_ok m lvl pm;
  sp_root : root_map m lvl pm;
  sp_marks : ∀ pn, pmap_bit m (page_addr pn) = true → page_addr pn ∈ N;
  sp_wf : ∀ a, a ∈ As → da_wf m a;
}.

Section space.
Context (lvl : nat) (pm : Z).
Implicit Types (m : pmem) (As : list darray) (N R : list Z).

Lemma space_live m As N R q : space m lvl pm As N R → q ∈ N → page_live m q.
Proof. intros H Hq. eapply refs_node_live; [apply H|]. rewrite !elem_of_app. tauto. Qed.
Lemma space_pm_inv m As N R : space m lvl pm As N R → pm_inv m lvl pm ((As ≫= a_nodes m) ++ N) ((As ≫= a_refs m) ++ R).
Proof.
  intros H. pose proof H as [Hr Hp Hok Hroot Hm Hw]. split; [done|apply elem_of_app; by right|done|].
  intros q Hf. destruct (pmap_bit m q) eqn:Hb; [|done]. exfalso. eapply page_live_not_free; [|exact Hf]. eapply space_live; [exact H|].
  destruct Hf as (pn & i & [-> _] & _). by apply (Hm pn).
Qed.
(** Taking one array out of the list. *)
Lemma split_array (f : darray → list Z) As1 a As2 (T N : list Z) :
  T ++ ((As1 ++ a :: As2) ≫= f) ++ N ≡ₚ f a ++ T ++ ((As1 ++ As2) ≫= f) ++ N.
Proof.
  rewrite !bind_app, bind_cons, <- !(assoc_L app).
  by rewrite (Permutation_app_swap_app (As1 ≫= f)), (Permutation_app_swap_app T).
Qed.
Lemma space_da_inv m As1 a As2 N R : space m lvl pm (As1 ++ a :: As2) N R →
  da_inv m a (tables m lvl pm ++ ((As1 ++ As2) ≫= a_nodes m) ++ N) (((As1 ++ As2) ≫= a_refs m) ++ R).
Proof.
  intros [Hr Hp Hok Hroot Hm Hw]. apply da_inv_wf. split; [apply Hw, elem_of_app; right; by left|].
  rewrite split_array in Hr. by rewrite (split_array (a_refs m) As1 a As2 [] R) in Hr.
Qed.

(** Code that keeps the marks keeps the map. *)
Lemma root_marks m m' : same_marks m m' → root_map m lvl pm → root_map m' lvl pm.
Proof.
  intros [Hc Hm] (pn & i & Hat & Hi & Hp & Hl). specialize (Hm pn). rewrite Hi in Hm.
  apply fmap_Some in Hm as (i' & Hi' & E). injection E as E1 E2 _. exists pn, i'. rewrite page_at_conf by done.
  split_and!; [done|done|congruence|]. unfold root_level in *. by rewrite <- E2.
Qed.
(** A step that keeps the marks and the pages of the tables and of the arrays [As]. *)
Definition same_array m m' (a : darray) : Prop :=
  da_wf m' a ∧ a_nodes m' a = a_nodes m a ∧ a_refs m' a = a_refs m a ∧ ∀ n, pt_entry m' (da_pt a) n = pt_entry m (da_pt a) n.
Definition same_arrays m m' As : Prop := ∀ a, a ∈ As → same_array m m' a.
Lemma same_arrays_lists m m' As : same_arrays m m' As →
  (∀ a, a ∈ As → da_wf m' a) ∧ (As ≫= a_nodes m') = (As ≫= a_nodes m) ∧ (As ≫= a_refs m') = (As ≫= a_refs m).
Proof. intros H. split_and!; [intros a Ha; by apply H|apply bind_ext_elem; intros a Ha; by apply H..]. Qed.
Lemma keep_map m m' N :
  conf_ok (pm_conf m) → map_ok m lvl pm → root_map m lvl pm → (∀ pn, pmap_bit m (page_addr pn) = true → page_addr pn ∈ N) → same_marks m m' →
  (∀ q, q ∈ pm :: tables m lvl pm → pm_page m' !! q = pm_page m !! q) →
  map_same lvl m m' pm ∧ root_map m' lvl pm ∧ (∀ pn, pmap_bit m' (page_addr pn) = true → page_addr pn ∈ N).
Proof.
  intros Hc Hok Hroot Hm Hs Hk. split_and!; [|by eapply root_marks|intros q Hq; apply Hm; by rewrite <- (same_marks_bit m m')].
  apply map_ext; [done|done|]. split_and!; [done|intros q; by apply same_marks_bit|apply Hs].
Qed.
Lemma keep_arrays m m' As :
  (∀ a, a ∈ As → da_wf m a) → (∀ q, q ∈ As ≫= a_nodes m → pm_page m' !! q = pm_page m !! q) → same_arrays m m' As.
Proof.
  intros Hw Hk a Ha. assert (Hs : same_pages (a_nodes m a) m m') by (intros q Hq; apply Hk, list_elem_of_bind; by exists a).
  destruct (da_wf_ext m m' a Hs (Hw a Ha)) as (? & ? & ?). split_and!; try done. intros n. by apply entry_ext.
Qed.

(** An operation on one array. *)
Lemma space_array m m' As1 a a' As2 N R :
  let rest := As1 ++ As2 in
  let N' := tables m lvl pm ++ (rest ≫= a_nodes m) ++ N in
  let R' := (rest ≫= a_refs m) ++ R in
  space m lvl pm (As1 ++ a :: As2) N R → da_inv m' a' N' R' → same_marks m m' →
  (∀ q, q ∈ N' ∨ q ∈ R' → pm_page m' !! q = pm_page m !! q) →
  space m' lvl pm (As1 ++ a' :: As2) N R ∧ map_same lvl m m' pm ∧ same_arrays m m' rest.
Proof.
  intros rest N' R' [Hr Hp Hok Hroot Hm Hw] Ha Hs Hk.
  destruct (keep_map m m' N) as (Hms & Hroot' & Hm'); [apply Hr|done|done|done|done| |].
  { intros q [->|Hq]%elem_of_cons; apply Hk; left; unfold N'; rewrite !elem_of_app; tauto. }
  assert (Hsa : same_arrays m m' rest).
  { apply keep_arrays; [|intros q Hq; apply Hk; left; unfold N'; rewrite !elem_of_app; tauto].
    intros b Hb. apply Hw. unfold rest in Hb. rewrite elem_of_app in Hb |- *. rewrite elem_of_cons. tauto. }
  split_and!; [|done|done]. destruct (same_arrays_lists _ _ _ Hsa) as (Hw' & En & Er). apply da_inv_wf in Ha as [Hwa Hra]. split; [|done|apply Hms|done|done|].
  - rewrite split_array. rewrite (split_array (a_refs m') As1 a' As2 [] R). fold rest. cbn [app].
    by rewrite En, Er, (proj1 Hms).
  - intros b. rewrite elem_of_app, elem_of_cons. intros [?|[->|?]]; [|done|]; apply Hw', elem_of_app; tauto.
Qed.
(** An operation on the page map. *)
Lemma space_map m m' As N R :
  space m lvl pm As N R → pm_inv m' lvl pm ((As ≫= a_nodes m) ++ N) ((As ≫= a_refs m) ++ R) → map_frame m m' lvl pm → same_marks m m' →
  space m' lvl pm As N R ∧ same_arrays m m' As.
Proof.
  intros H Hv Hf Hs. pose proof H as [Hr Hp Hok Hroot Hm Hw].
  assert (Hsa : same_arrays m m' As).
  { apply keep_arrays; [done|]. intros q Hq. pose proof (space_pm_inv _ _ _ _ H) as [Hrm _ _ _]. apply Hf.
    - eapply refs_node_live; [exact Hr|]. rewrite !elem_of_app. tauto.
    - intros ->. pose proof (ri_nodup _ _ _ Hr) as Hnd. rewrite !NoDup_app in Hnd. destruct Hnd as (_ & _ & _ & Hd & _). by eapply Hd.
    - intros Ht. eapply (refs_nodup_l _ _ _ _ Hr); [exact Ht|]. apply elem_of_app. by left. }
  split; [|done]. destruct (same_arrays_lists _ _ _ Hsa) as (Hw' & En & Er). destruct Hv as [Hr' _ Hok' _].
  split; [by rewrite En, Er|done|done|by eapply root_marks| |done]. intros q Hq. apply Hm. by rewrite <- (same_marks_bit m m').
Qed.
(** Objects and data pages are apart from the structure. *)
Definition data_page m As N R (q : Z) : Prop := (q ∈ N ∧ q ≠ pm) ∨ q ∈ (As ≫= a_refs m) ++ R.
Lemma space_apart m As N R q : space m lvl pm As N R → data_page m As N R q →
  q ≠ pm ∧ (q ∉ tables m lvl pm ++ (As ≫= a_nodes m)) ∧ is_Some (pm_page m !! q).
Proof.
  intros [Hr Hp _ _ _ _] [[Hq Hne]|Hq].
  - split_and!; [done| |].
    + rewrite (assoc_L app) in Hr. intros Hc. by eapply (refs_nodup_l _ _ _ _ Hr).
    + eapply refs_node_contents; [exact Hr|]. rewrite !elem_of_app. tauto.
  - split_and!; [| |by eapply refs_ref_contents].
    + intros ->. eapply refs_disjoint; [exact Hr| |exact Hq]. rewrite !elem_of_app. tauto.
    + intros Hc. eapply refs_disjoint; [exact Hr| |exact Hq]. rewrite elem_of_app in Hc. rewrite !elem_of_app. tauto.
Qed.
(** Writing such pages. *)
Lemma space_pages m m' As N R :
  space m lvl pm As N R → (∀ q, data_page m As N R q ∨ pm_page m' !! q = pm_page m !! q) →
  refs_inv m' (tables m lvl pm ++ (As ≫= a_nodes m) ++ N) ((As ≫= a_refs m) ++ R) → same_marks m m' →
  space m' lvl pm As N R ∧ map_same lvl m m' pm ∧ same_arrays m m' As.
Proof.
  intros H Hk Hi Hs. pose proof H as [Hr Hp Hok Hroot Hm Hw].
  assert (Hpg : ∀ q, q = pm ∨ q ∈ tables m lvl pm ++ (As ≫= a_nodes m) → pm_page m' !! q = pm_page m !! q).
  { intros q Hq. destruct (Hk q) as [Hd|]; [|done]. destruct (space_apart _ _ _ _ _ H Hd) as (Hqp & Hqt & _). by destruct Hq. }
  destruct (keep_map m m' N) as (Hms & Hroot' & Hm'); [apply Hr|done|done|done|done| |].
  { intros q [->|Hin]%elem_of_cons; apply Hpg; [by left|right; apply elem_of_app; by left]. }
  assert (Hsa : same_arrays m m' As) by (apply keep_arrays; [done|]; intros q Hin; apply Hpg; right; apply elem_of_app; by right).
  split_and!; [|done|done]. destruct (same_arrays_lists _ _ _ Hsa) as (Hw' & En & Er). split; [by rewrite En, Er, (proj1 Hms)|done|apply Hms|done|done|done].
Qed.
Lemma space_write m m' As N R q :
  space m lvl pm As N R → data_page m As N R q →
  refs_inv m' (tables m lvl pm ++ (As ≫= a_nodes m) ++ N) ((As ≫= a_refs m) ++ R) →
  same_marks m m' → (∀ p, p ≠ q → pm_page m' !! p = pm_page m !! p) →
  space m' lvl pm As N R ∧ map_same lvl m m' pm ∧ same_arrays m m' As.
Proof.
  intros H Hq Hi Hs Hk. apply space_pages; [done| |done|done].
  intros p. destruct (decide (p = q)) as [->|Hne]; [by left|right; by apply Hk].
Qed.
Lemma same_marks_page m q c : same_marks m (set_page q c m).
Proof. by split. Qed.
Lemma space_set_page m As N R q c :
  space m lvl pm As N R → data_page m As N R q →
  space (set_page q c m) lvl pm As N R ∧ map_same lvl m (set_page q c m) pm ∧ same_arrays m (set_page q c m) As.
Proof.
  intros H Hq. destruct (space_apart _ _ _ _ _ H Hq) as (_ & _ & Hs). eapply space_write; [done|exact Hq| |apply same_marks_page|].
  - apply refs_set_page; [apply H|done].
  - intros p Hp. cbn. by rewrite lookup_insert_ne.
Qed.
Lemma space_with_pages m As N R pg :
  space m lvl pm As N R → (∀ q, data_page m As N R q ∨ pg !! q = pm_page m !! q) → (∀ q, is_Some (pm_page m !! q) → is_Some (pg !! q)) →
  space (with_pages pg m) lvl pm As N R ∧ map_same lvl m (with_pages pg m) pm ∧ same_arrays m (with_pages pg m) As.
Proof. intros H Hk Hs. apply space_pages; [done|done|apply refs_pages; [apply H|done]|done]. Qed.
End space.
