(* ===== verification/AtThms.v ===== *)
(** * Address trees: lemmas

    Reading and writing the objects and the entries of the table of mappings, and the
    list of the mappings of a segment, which runs through the tables of all address
    trees. *)
From S2P Require Import Prelude Machine Hashtable Locks Ktypes Kmem PageAlloc Pagetree Supply PageRefs PagetreeSpec PagetreeWhole Darray DarrayThms DarrayProps KMap Pmap Kobj Share At KobjThms Space.

(** A run from a specification that fixes value and state. *)
Lemma wp_run_eq {S A} (c : M S A) s x t : wp c s (λ a s', a = x ∧ s' = t) → c s = Ret x t.
Proof. unfold wp. destruct (c s); [|done]. by intros [-> ->]. Qed.

Lemma wpx_zoom {S T A} (proj : S → T) (upd : T → S → S) (c : M T A) s (Q : A → S → Prop) X :
  wpx c (proj s) (λ a t, Q a (upd t s)) X → wpx (zoom proj upd c) s Q X.
Proof. unfold wpx, zoom. by destruct (c (proj s)). Qed.

(** ** Entries of a table *)

Lemma page_of_elem pn o : 0 ≤ pn < 2 ^ 34 → 0 ≤ o < PGSIZE → page_of (page_addr pn + o) = page_addr pn.
Proof.
  change PGSIZE with 4096. intros Hpn Ho. unfold page_of, page_addr, PHYSBASE. change PGSIZE with 4096.
  rewrite ROUNDDOWN_small by (unfold in_u64; lia). dlia.
Qed.
Lemma elem_slot_at sz pn j : 0 ≤ pn < 2 ^ 34 → 0 < sz → 0 ≤ j < PGSIZE / sz → elem_slot sz (page_addr pn + j * sz) = Some j.
Proof.
  intros Hpn Hsz Hj. assert (Ho : 0 ≤ j * sz < PGSIZE).
  { change PGSIZE with 4096 in *. pose proof (Z.mul_div_le 4096 sz Hsz). nia. }
  unfold elem_slot. rewrite page_of_elem by done. replace (page_addr pn + j * sz - page_addr pn) with (j * sz) by lia.
  rewrite Z.mod_mul, Z.div_mul by lia. by rewrite (proj2 (Z.ltb_lt _ _)) by lia.
Qed.

(** The mapping at address [a], and writing one. *)
Definition set_ams (a : Z) (x : address_mapping2) (m : pmem) : pmem :=
  match elem_slot AM_SIZE a, pm_page m !! page_of a ≫= as_ams with
  | Some i, Some l => set_page (page_of a) (PgAms (<[i := x]> l)) m
  | _, _ => m
  end.
Lemma am_at_inv m a x : am_at m a = Some x →
  ∃ i l, elem_slot AM_SIZE a = Some i ∧ pm_page m !! page_of a ≫= as_ams = Some l ∧ x = default zero_am (l !! i).
Proof.
  unfold am_at, elem_at. destruct (elem_slot AM_SIZE a) as [i|]; [|done]. destruct (_ ≫= as_ams) as [l|]; [|done].
  intros [= <-]. by exists i, l.
Qed.
Lemma elem_slot_inj sz a b i : 0 < sz → page_of a = page_of b → elem_slot sz a = Some i → elem_slot sz b = Some i → a = b.
Proof.
  intros Hsz Hp. unfold elem_slot. rewrite Hp.
  destruct (_ && _) eqn:E1; [|done]. intros [= E]. destruct (((b - _) mod sz =? 0) && _) eqn:E2; [|done]. intros [= E'].
  apply andb_true_iff in E1 as [E1 _], E2 as [E2 _]. apply Z.eqb_eq in E1, E2.
  apply Z.div_exact in E1; [|lia]. apply Z.div_exact in E2; [|lia]. rewrite E in E1. rewrite E' in E2. lia.
Qed.
Lemma set_ams_am m a x y b : am_at m a = Some y → am_at (set_ams a x m) b = if decide (b = a) then Some x else am_at m b.
Proof.
  intros (i & l & Hi & Hl & _)%am_at_inv. unfold set_ams. rewrite Hi, Hl. unfold am_at, elem_at. cbn [pm_page set_page].
  case_decide as Hd.
  - subst b. by rewrite Hi, lookup_insert_eq; cbn; rewrite lookup_insert_eq.
  - destruct (elem_slot AM_SIZE b) as [j|] eqn:Hj; [|done]. destruct (decide (page_of b = page_of a)) as [E|E].
    + rewrite E, lookup_insert_eq, Hl. cbn. destruct (decide (i = j)) as [->|].
      * exfalso. apply Hd. by eapply (elem_slot_inj AM_SIZE).
      * by rewrite lookup_insert_ne.
    + by rewrite lookup_insert_ne by congruence.
Qed.
Lemma set_ams_conf m a x : pm_conf (set_ams a x m) = pm_conf m.
Proof. unfold set_ams. by repeat case_match. Qed.
Lemma set_ams_page m a x q : q ≠ page_of a → pm_page (set_ams a x m) !! q = pm_page m !! q.
Proof. intros Hq. unfold set_ams. repeat case_match; try done. cbn. by rewrite lookup_insert_ne. Qed.
Lemma wp_put_am s a x y (Q : unit → kern → Prop) :
  am_at (kn_mem s) a = Some y → Q tt (set_mem (set_ams a x (kn_mem s)) s) → wp (put_am a x) s Q.
Proof.
  intros (i & l & Hi & Hl & _)%am_at_inv HQ. unfold set_ams in HQ. rewrite Hi, Hl in HQ.
  unfold put_am, on_kmem, put_elem. wp_pure. eapply wp_deref; [by rewrite Hi, Hl|]. by wp_pure.
Qed.
Lemma wp_get_am s a y (Q : address_mapping2 → kern → Prop) : am_at (kn_mem s) a = Some y → Q y s → wp (get_am a) s Q.
Proof. intros Ha HQ. by eapply wp_deref. Qed.
Lemma wp_upd_am s a f y (Q : unit → kern → Prop) :
  am_at (kn_mem s) a = Some y → Q tt (set_mem (set_ams a (f y) (kn_mem s)) s) → wp (upd_am a f) s Q.
Proof. intros Ha HQ. unfold upd_am. wp_pure. eapply wp_get_am; [done|]. by eapply wp_put_am. Qed.

(** ** The list of the mappings of an object *)

Definition with_aml (l : address_map_list) (k : kobject) : kobject := set_body (set_aml l (ko_body k)) k.
(** Only the links of the mappings of [L], the mappings of [D] and the list of [ko] change. *)
Record aml_frame (ko : Z) (L D : list Z) (s s' : kern) : Prop := AmlFrame {
  af_rest : set_mem (kn_mem s) s' = s;
  af_mem : kn_mem s' = with_pages (pm_page (kn_mem s')) (kn_mem s);
  af_page : ∀ q, q ≠ ko → (∀ e, e ∈ L → q ≠ page_of e) → pm_page (kn_mem s') !! q = pm_page (kn_mem s) !! q;
  af_ams : ∀ q, is_Some (pm_page (kn_mem s) !! q ≫= as_ams) → is_Some (pm_page (kn_mem s') !! q ≫= as_ams);
  af_am : ∀ e, e ∉ D → set_am_link null_link <$> am_at (kn_mem s') e = set_am_link null_link <$> am_at (kn_mem s) e;
  af_ko : ∀ k, kobj_at s ko = Some k → ∃ l, kobj_at s' ko = Some (with_aml l k);
}.

Lemma with_aml_id k : ∃ l, with_aml l k = k.
Proof.
  destruct k as [h b l]. unfold with_aml, set_body, set_aml. cbn. destruct b as [[l0 pg]|a| | |]; cbn; try (by exists (Aml 0 false)).
  - by exists l0.
  - exists (at_map_list a). by destruct a.
Qed.
Lemma with_aml_twice l l' k : with_aml l' (with_aml l k) = with_aml l' k.
Proof. destruct k as [h b lk]. unfold with_aml, set_body, set_aml. cbn. by destruct b as [[]|[]| | |]. Qed.
Lemma aml_frame_refl ko L D s : aml_frame ko L D s s.
Proof.
  split; [by destruct s|by destruct (kn_mem s)|done|done|done|]. intros k Hk. destruct (with_aml_id k) as [l Hl]. exists l. by rewrite Hl.
Qed.
Lemma aml_frame_trans ko L D s1 s2 s3 : aml_frame ko L D s1 s2 → aml_frame ko L D s2 s3 → aml_frame ko L D s1 s3.
Proof.
  intros [R1 M1 P1 A1 L1 K1] [R2 M2 P2 A2 L2 K2]. split.
  - transitivity (set_mem (kn_mem s1) (set_mem (kn_mem s2) s3)); [done|]. by rewrite R2.
  - by rewrite M2, M1.
  - intros q Hq Hn. rewrite P2; [by apply P1|done|done].
  - intros q Hq. by apply A2, A1.
  - intros e He. by rewrite L2, L1.
  - intros k Hk. destruct (K1 k Hk) as [f Hf]. destruct (K2 _ Hf) as [f' Hf']. exists f'. by rewrite <- (with_aml_twice f).
Qed.
Lemma set_ams_kobj s a x y p : am_at (kn_mem s) a = Some y → kobj_at (set_mem (set_ams a x (kn_mem s)) s) p = kobj_at s p.
Proof.
  intros (i & l & Hi & Hl & _)%am_at_inv. unfold kobj_at. cbn. destruct (decide (p = page_of a)) as [->|]; [|by rewrite set_ams_page].
  unfold set_ams. rewrite Hi, Hl. cbn. rewrite lookup_insert_eq. destruct (pm_page (kn_mem s) !! page_of a) as [[]|]; done.
Qed.
Lemma put_obj_am s p k k' e : kobj_at s p = Some k → am_at (kn_mem (put_obj p k' s)) e = am_at (kn_mem s) e.
Proof.
  intros Hk%kobj_at_Some. unfold am_at, elem_at. cbn. destruct (decide (page_of e = p)) as [->|]; [|by rewrite lookup_insert_ne].
  by rewrite lookup_insert_eq, Hk.
Qed.
(** Writing a mapping of [D], or the link of any mapping. *)
Lemma set_ams_frame s ko L D a y x : am_at (kn_mem s) a = Some y → a ∈ L → (a ∈ D ∨ set_am_link null_link x = set_am_link null_link y) →
  aml_frame ko L D s (set_mem (set_ams a x (kn_mem s)) s).
Proof.
  intros Hy HL Hx. pose proof Hy as (i & l & Hi & Hl & _)%am_at_inv. split; cbn [kn_mem set_mem].
  - by destruct s.
  - unfold set_ams. by rewrite Hi, Hl.
  - intros q _ Hn. apply set_ams_page. by apply Hn.
  - intros q Hq. destruct (decide (q = page_of a)) as [->|]; [|by rewrite set_ams_page].
    unfold set_ams. rewrite Hi, Hl. cbn. by rewrite lookup_insert_eq.
  - intros e He. rewrite (set_ams_am _ _ _ y) by done. case_decide as Hd; [|done]. subst e. rewrite Hy. cbn. f_equal. by destruct Hx.
  - intros k Hk. destruct (with_aml_id k) as [f Hf]. exists f.
    change (kobj_at (set_mem (set_ams a x (kn_mem s)) s) ko = Some (with_aml f k)). by rewrite (set_ams_kobj s a _ y), Hf.
Qed.
Lemma put_aml_frame s ko L D k l : kobj_at s ko = Some k → aml_frame ko L D s (put_obj ko (with_aml l k) s).
Proof.
  intros Hk. split.
  - by destruct s.
  - done.
  - intros q Hq _. cbn. by rewrite lookup_insert_ne.
  - intros q Hq. cbn. destruct (decide (q = ko)) as [->|]; [|by rewrite lookup_insert_ne].
    apply kobj_at_Some in Hk. rewrite Hk in Hq. by destruct Hq.
  - intros e _. by rewrite (put_obj_am s ko k).
  - intros k' Hk'. exists l. rewrite kobj_at_put_obj. congruence.
Qed.
Lemma with_aml_of l l0 k : aml_of k = Some l0 → aml_of (with_aml l k) = Some l.
Proof. destruct k as [h b lk]. unfold aml_of, with_aml, set_aml, set_body. cbn. by destruct b. Qed.
#[export] Instance aml_list_mem ko L D : ListMem (HAml ko) (aml_frame ko L D) (.∈ L).
Proof.
  split.
  - intros s. apply aml_frame_refl.
  - intros s1 s2 s3. apply aml_frame_trans.
  - intros s e lk l0 HL Hr. cbn in Hr. apply fmap_Some in Hr as (y & Hy & _).
    exists (set_mem (set_ams e (set_am_link lk y) (kn_mem s)) s).
    assert (Hl : ∀ e', link_at (set_mem (set_ams e (set_am_link lk y) (kn_mem s)) s) (HAml ko) e' = if decide (e' = e) then Some lk else link_at s (HAml ko) e').
    { intros e'. cbn. rewrite (set_ams_am _ _ _ y) by done. by case_decide. }
    split_and!; [|eapply set_ams_frame; [done|done|by right]| |intros e'; split; apply Hl].
    + apply wp_run_eq. unfold put_link. apply wp_bind. eapply wp_get_am; [done|]. by eapply wp_put_am.
    + cbn. by rewrite (set_ams_kobj s e _ y).
  - intros s x x0 Hf. cbn in Hf. destruct (kobj_at s ko) as [k|] eqn:Hk; [|done]. apply fmap_Some in Hf as (l & Hl & _).
    exists (put_obj ko (with_aml (Aml x (aml_lock l)) k) s). split_and!.
    + cbn [set_first]. unfold get_ko, put_ko, mbind, m_bind, deref, modify. by rewrite Hk, Hl.
    + by apply put_aml_frame.
    + cbn. rewrite kobj_at_put_obj. by rewrite (with_aml_of _ l).
    + intros e. unfold raw_link, link_at. by rewrite (put_obj_am s ko k).
  - done.
Qed.
Lemma aml_frame_weaken ko L D D' s s' : D ⊆ D' → aml_frame ko L D s s' → aml_frame ko L D' s s'.
Proof. intros HD [R M P A La K]. split; try done. intros e He. apply La. intros Hd. by apply He, HD. Qed.
Lemma wp_get_aml s ko k l (Q : address_map_list → kern → Prop) :
  kobj_at s ko = Some k → aml_of k = Some l → Q l s → wp (get_aml ko) s Q.
Proof. intros Hk Hl HQ. eapply wp_deref; [by rewrite Hk|done]. Qed.
Lemma wp_put_aml s ko k l (Q : unit → kern → Prop) :
  kobj_at s ko = Some k → Q tt (put_obj ko (with_aml l k) s) → wp (put_aml ko l) s Q.
Proof. intros Hk HQ. unfold put_aml. by eapply wp_upd_ko. Qed.
(** A change of the lock of the list leaves the list. *)
Lemma lrep_lock s ko k l0 b ls : kobj_at s ko = Some k → aml_of k = Some l0 → lrep s (HAml ko) ls →
  lrep (put_obj ko (with_aml (Aml (aml_first l0) b) k) s) (HAml ko) ls.
Proof.
  intros Hk Hl Hr. eapply lrep_ext; [exact Hr| |].
  - cbn. rewrite kobj_at_put_obj, Hk, (with_aml_of _ l0), Hl by done. done.
  - intros e _. unfold link_at. by rewrite (put_obj_am s ko k).
Qed.

(** [aml_insert] *)
Lemma aml_insert_wp s ko am k l0 ls y (Q : unit → kern → Prop) :
  kobj_at s ko = Some k → aml_of k = Some l0 → aml_lock l0 = false →
  lrep s (HAml ko) ls → am ∉ ls → am ≠ 0 → am_at (kn_mem s) am = Some y →
  (∀ s' f, lrep s' (HAml ko) (am :: ls) → aml_frame ko (am :: ls) [] s s' → kobj_at s' ko = Some (with_aml (Aml f false) k) → Q tt s') →
  wp (aml_insert ko am) s Q.
Proof.
  intros Hk Hl Hlk Hls Ham H0 Hy HQ. unfold aml_insert, aml_spin_lock, aml_spin_unlock. wp_pure.
  eapply wp_get_aml; [done|done|]. rewrite Hlk. eapply wp_put_aml; [done|]. wp_pure.
  set (s1 := put_obj ko _ s). assert (Hk1 : kobj_at s1 ko = Some (with_aml (Aml (aml_first l0) true) k)) by apply kobj_at_put_obj.
  assert (F1 : aml_frame ko (am :: ls) [] s s1) by (by apply put_aml_frame).
  eapply (insert_head_wp (HAml ko) (aml_frame ko (am :: ls) []) (.∈ am :: ls) s1 ls am (am_link y)).
  - done.
  - by apply lrep_lock.
  - done.
  - done.
  - unfold raw_link, link_at, s1. by rewrite (put_obj_am s ko k), Hy.
  - intros s2 Hl2 F2 _. wp_pure. destruct (af_ko _ _ _ _ _ F2 _ Hk1) as [l2 Hk2]. rewrite with_aml_twice in Hk2.
    assert (Ha2 : aml_of (with_aml l2 k) = Some l2) by (by eapply with_aml_of).
    eapply wp_get_aml; [done|done|]. eapply wp_put_aml; [done|]. rewrite with_aml_twice. apply (HQ _ (aml_first l2)).
    + rewrite <- (with_aml_twice l2). by apply lrep_lock.
    + eapply aml_frame_trans; [exact F1|]. eapply aml_frame_trans; [exact F2|]. rewrite <- (with_aml_twice l2). by apply put_aml_frame.
    + apply kobj_at_put_obj.
Qed.

(** ** Entering a mapping *)

(** The entry [enter_am] makes for the slot [uam] of the address tree [p]. *)
Definition am_for (p ko cur : Z) (uam : u_address_mapping) (l : link) : address_mapping2 :=
  Am false ko p cur (so_share (um_object uam)) (um_va uam) (u64 (um_va uam + (um_num_pages uam - 1) * PGSIZE)) (um_kslot uam) l.
Lemma wp_sched s (Q : Z → kern → Prop) : Q (per_cpu (kn_procs s) (mc_cpu (pm_conf (kn_mem s)))) s → wp processor_sched s Q.
Proof. intros HQ. unfold processor_sched. wp_pure. apply wp_cpu_id. by wp_pure. Qed.

Lemma enter_am_wp s p ko am uam a k l0 ls cur (Q : unit → kern → Prop) :
  am_at (kn_mem s) am = Some a → am_lock a = false → am_kobj a = 0 → am ≠ 0 → am ∉ ls →
  kobj_at s ko = Some k → aml_of k = Some l0 → aml_lock l0 = false → lrep s (HAml ko) ls →
  cur = per_cpu (kn_procs s) (mc_cpu (pm_conf (kn_mem s))) →
  (∀ s' f l, lrep s' (HAml ko) (am :: ls) → aml_frame ko (am :: ls) [am] s s' → kobj_at s' ko = Some (with_aml (Aml f false) k) →
     am_at (kn_mem s') am = Some (am_for p ko cur uam l) → Q tt s') →
  wp (enter_am p ko am uam) s Q.
Proof.
  intros Ha Hlk Hz H0 Hin Hk Hl0 Hl0k Hls Hcur HQ. unfold enter_am, am_spin_lock. wp_pure.
  eapply wp_get_am; [done|]. rewrite Hlk. eapply wp_put_am; [done|]. wp_pure.
  set (s1 := set_mem _ s). assert (Ha1 : am_at (kn_mem s1) am = Some (set_am_lock true a)).
  { unfold s1. cbn. by rewrite (set_ams_am _ _ _ a), decide_True. }
  eapply wp_get_am; [exact Ha1|]. wp_pure. apply wp_when_true; [cbn; by rewrite Hz|]. wp_pure. apply wp_sched. wp_pure.
  replace (per_cpu (kn_procs s1) _) with cur by (subst cur; unfold s1; cbn; by rewrite set_ams_conf).
  eapply wp_upd_am; [exact Ha1|]. wp_pure. cbn [am_lock set_am_lock am_link].
  assert (F1 : aml_frame ko (am :: ls) [am] s s1) by (eapply set_ams_frame; [done|by left|left; by left]).
  set (x := Am true _ _ _ _ _ _ _ _). set (s2 := set_mem _ s1).
  assert (F2 : aml_frame ko (am :: ls) [am] s s2).
  { eapply aml_frame_trans; [exact F1|]. eapply set_ams_frame; [exact Ha1|by left|left; by left]. }
  assert (Ha2 : am_at (kn_mem s2) am = Some x) by (unfold s2; cbn; by rewrite (set_ams_am _ _ _ (set_am_lock true a)), decide_True).
  assert (Hk2 : kobj_at s2 ko = Some k) by (unfold s2; erewrite set_ams_kobj by exact Ha1; unfold s1; by erewrite set_ams_kobj by exact Ha).
  eapply aml_insert_wp; [exact Hk2|done|done| |done|done|exact Ha2|].
  { eapply lrep_ext; [exact Hls| |].
    - cbn. by rewrite Hk, Hk2.
    - intros e He. unfold link_at, s2. cbn. rewrite (set_ams_am _ _ _ _ _ Ha1), decide_False by congruence.
      unfold s1. cbn. by rewrite (set_ams_am _ _ _ _ _ Ha), decide_False by congruence. }
  intros s3 f Hl3 F3 Hk3. pose proof (af_am _ _ _ _ _ F3 am ltac:(by apply not_elem_of_nil)) as E3.
  rewrite Ha2 in E3. destruct (am_at (kn_mem s3) am) as [x3|] eqn:Ha3; [|done]. apply (inj Some) in E3.
  unfold am_spin_unlock. eapply wp_upd_am; [exact Ha3|]. apply (HQ _ f (am_link x3)).
  - eapply lrep_ext; [exact Hl3| |].
    + cbn. by erewrite set_ams_kobj by exact Ha3.
    + intros e _. unfold link_at. cbn. rewrite (set_ams_am _ _ _ _ _ Ha3). case_decide as Hd; [|done]. subst e. by rewrite Ha3.
  - eapply aml_frame_trans; [exact F2|]. eapply aml_frame_trans; [eapply aml_frame_weaken; [|exact F3]; set_solver|].
    eapply set_ams_frame; [exact Ha3|by left|left; by left].
  - by erewrite set_ams_kobj by exact Ha3.
  - cbn. rewrite (set_ams_am _ _ _ _ _ Ha3), decide_True by done. destruct x3; cbn in *. unfold x, am_for, set_am_link in *. cbn in *. injection E3. by intros; subst.
Qed.

(** ** Objects *)

Definition with_body (p : Z) (b : kobj_body) (s : kern) : kern :=
  match kobj_at s p with Some k => put_obj p (set_body b k) s | None => s end.
Lemma obj_at_kobj s p x : obj_at s p = Some x ↔ ∃ k, kobj_at s p = Some k ∧ ko_body k = KAt x.
Proof.
  unfold obj_at. destruct (kobj_at s p) as [k|]; cbn; [|split; [done|by intros (? & ? & _)]].
  unfold the_at. destruct (ko_body k) eqn:Hb; (split; [|by intros (k' & [= <-] & Hb'); rewrite Hb in Hb'; simplify_eq]); try done.
  intros [= ->]. by exists k.
Qed.
Lemma obj_sg_kobj s p x : obj_sg s p = Some x ↔ ∃ k, kobj_at s p = Some k ∧ ko_body k = KSg x.
Proof.
  unfold obj_sg. destruct (kobj_at s p) as [k|]; cbn; [|split; [done|by intros (? & ? & _)]].
  unfold the_sg. destruct (ko_body k) eqn:Hb; (split; [|by intros (k' & [= <-] & Hb'); rewrite Hb in Hb'; simplify_eq]); try done.
  intros [= ->]. by exists k.
Qed.
Lemma kobj_with s p b k : kobj_at s p = Some k → kobj_at (with_body p b s) p = Some (set_body b k).
Proof. intros Hk. unfold with_body. rewrite Hk. apply kobj_at_put_obj. Qed.
Lemma kobj_with_other s p b q : q ≠ p → kobj_at (with_body p b s) q = kobj_at s q.
Proof. intros Hq. unfold with_body. destruct (kobj_at s p); [by apply kobj_at_other|done]. Qed.
Lemma obj_at_with s p x x' : obj_at s p = Some x → obj_at (with_body p (KAt x') s) p = Some x'.
Proof. intros (k & Hk & _)%obj_at_kobj. apply obj_at_kobj. exists (set_body (KAt x') k). split; [by apply kobj_with|done]. Qed.
Lemma obj_sg_with s p x x' : obj_sg s p = Some x → obj_sg (with_body p (KSg x') s) p = Some x'.
Proof. intros (k & Hk & _)%obj_sg_kobj. apply obj_sg_kobj. exists (set_body (KSg x') k). split; [by apply kobj_with|done]. Qed.
Lemma obj_at_with_other s p b q : q ≠ p → obj_at (with_body p b s) q = obj_at s q.
Proof. intros Hq. unfold obj_at. by rewrite kobj_with_other. Qed.
Lemma obj_sg_with_other s p b q : q ≠ p → obj_sg (with_body p b s) q = obj_sg s q.
Proof. intros Hq. unfold obj_sg. by rewrite kobj_with_other. Qed.
Lemma with_body_twice s p b b' : with_body p b' (with_body p b s) = with_body p b' s.
Proof.
  destruct (kobj_at s p) as [k|] eqn:Hk; [|unfold with_body; by rewrite !Hk].
  unfold with_body at 1. rewrite (kobj_with s p b k Hk). unfold with_body. rewrite Hk. apply put_obj_twice.
Qed.
Lemma with_body_id s p k : kobj_at s p = Some k → with_body p (ko_body k) s = s.
Proof.
  intros Hk. unfold with_body. rewrite Hk. apply kobj_at_Some in Hk. destruct s as [[] ? ? ? ? ? ? ?], k. unfold put_obj, set_mem, set_page, set_body. cbn in *.
  by rewrite insert_id.
Qed.
Lemma with_at_id s p x : obj_at s p = Some x → with_body p (KAt x) s = s.
Proof. intros (k & Hk & Hb)%obj_at_kobj. rewrite <- Hb. by apply with_body_id. Qed.
Lemma with_sg_id s p x : obj_sg s p = Some x → with_body p (KSg x) s = s.
Proof. intros (k & Hk & Hb)%obj_sg_kobj. rewrite <- Hb. by apply with_body_id. Qed.
Lemma with_body_mem s p b k : kobj_at s p = Some k → kn_mem (with_body p b s) = set_page p (PgKobj (set_body b k)) (kn_mem s).
Proof. intros Hk. unfold with_body. by rewrite Hk. Qed.
Lemma with_body_am s p b e : am_at (kn_mem (with_body p b s)) e = am_at (kn_mem s) e.
Proof. unfold with_body. destruct (kobj_at s p) as [k|] eqn:Hk; [by eapply put_obj_am|done]. Qed.

Lemma wp_get_at s p x (Q : Address_tree → kern → Prop) : obj_at s p = Some x → Q x s → wp (get_at p) s Q.
Proof. intros Hx HQ. by eapply wp_deref. Qed.
Lemma wp_put_at s p x x' (Q : unit → kern → Prop) : obj_at s p = Some x → Q tt (with_body p (KAt x') s) → wp (put_at p x') s Q.
Proof. intros (k & Hk & _)%obj_at_kobj HQ. unfold put_at. eapply wp_upd_ko; [exact Hk|]. unfold with_body in HQ. by rewrite Hk in HQ. Qed.
Lemma wp_upd_at s p x f (Q : unit → kern → Prop) : obj_at s p = Some x → Q tt (with_body p (KAt (f x)) s) → wp (upd_at p f) s Q.
Proof. intros Hx HQ. unfold upd_at. wp_pure. eapply wp_get_at; [done|]. by eapply wp_put_at. Qed.
Lemma wp_get_sg s p x (Q : Segment → kern → Prop) : obj_sg s p = Some x → Q x s → wp (get_sg p) s Q.
Proof. intros Hx HQ. by eapply wp_deref. Qed.
Lemma wp_upd_sg s p x f (Q : unit → kern → Prop) : obj_sg s p = Some x → Q tt (with_body p (KSg (f x)) s) → wp (upd_sg p f) s Q.
Proof.
  intros Hx HQ. unfold upd_sg. wp_pure. eapply wp_get_sg; [done|]. apply obj_sg_kobj in Hx as (k & Hk & _). unfold put_sg.
  eapply wp_upd_ko; [exact Hk|]. unfold with_body in HQ. by rewrite Hk in HQ.
Qed.

(** Running array code on an array inside an object: the object is written back. *)
Lemma on_darray_wpx {A} get_da put_da (c : darray → M pmem (A * darray)) p s a (b : darray → kobj_body) (Q : A → kern → Prop) X :
  (∀ Q' : darray → kern → Prop, Q' a s → wp get_da s Q') →
  (∀ a' m' (Q' : unit → kern → Prop), pm_page m' !! p = pm_page (kn_mem s) !! p →
     Q' tt (with_body p (b a') (set_mem m' s)) → wp (put_da a') (set_mem m' s) Q') →
  wpx (c a) (kn_mem s) (λ xa m', pm_page m' !! p = pm_page (kn_mem s) !! p ∧ Q xa.1 (with_body p (b xa.2) (set_mem m' s))) X →
  wpx (on_darray get_da put_da c) s Q X.
Proof.
  intros Hg Hp Hc. unfold on_darray. apply wpx_bind_wp, Hg, wpx_bind, wpx_zoom.
  eapply wpx_mono; [exact Hc| |done]. intros [x a'] m' [Hm HQ]. apply wpx_bind_wp, Hp; [done|]. by apply wp_wpx, wp_ret.
Qed.
Lemma obj_at_keep s m' p x : obj_at s p = Some x → pm_page m' !! p = pm_page (kn_mem s) !! p → obj_at (set_mem m' s) p = Some x.
Proof. unfold obj_at, kobj_at. cbn. by intros H ->. Qed.
Lemma obj_sg_keep s m' p x : obj_sg s p = Some x → pm_page m' !! p = pm_page (kn_mem s) !! p → obj_sg (set_mem m' s) p = Some x.
Proof. unfold obj_sg, kobj_at. cbn. by intros H ->. Qed.
Section arrays.
Context {A : Type} (s : kern) (p : Z) (c : darray → M pmem (A * darray)) (Q : A → kern → Prop) (X : Prop).
Definition array_post (a : darray) (b : darray → kobj_body) : Prop :=
  wpx (c a) (kn_mem s) (λ xa m', pm_page m' !! p = pm_page (kn_mem s) !! p ∧ Q xa.1 (with_body p (b xa.2) (set_mem m' s))) X.
Lemma am_array_wpx x : obj_at s p = Some x → array_post (at_addrmap x) (λ a, KAt (set_at_addrmap a x)) → wpx (am_array p c) s Q X.
Proof.
  intros Hx. apply on_darray_wpx.
  - intros Q' HQ. wp_pure. eapply wp_get_at; [done|]. by wp_pure.
  - intros a' m' Q' Hm HQ. eapply wp_upd_at; [by apply obj_at_keep|done].
Qed.
Lemma uam_array_wpx x : obj_at s p = Some x → array_post (at_uaddrmap x) (λ a, KAt (set_at_uaddrmap a x)) → wpx (uam_array p c) s Q X.
Proof.
  intros Hx. apply on_darray_wpx.
  - intros Q' HQ. wp_pure. eapply wp_get_at; [done|]. by wp_pure.
  - intros a' m' Q' Hm HQ. eapply wp_upd_at; [by apply obj_at_keep|done].
Qed.
Lemma sg_array_wpx x : obj_sg s p = Some x → array_post (sg_pages x) (λ a, KSg (set_sg_pages a x)) → wpx (sg_array p c) s Q X.
Proof.
  intros Hx. apply on_darray_wpx.
  - intros Q' HQ. wp_pure. eapply wp_get_sg; [done|]. by wp_pure.
  - intros a' m' Q' Hm HQ. eapply wp_upd_sg; [by apply obj_sg_keep|done].
Qed.
End arrays.
