(* ===== verification/Fault.v ===== *)
(** * Page faults

    [fill_segment] is what a page fault on a mapped segment ends in: it finds the object,
    enters the mapping on the list of the segment, gets the page out of the segment's
    array, clears it if nobody has, and puts it into the page map.  The theorem composes
    the page map, the table of mappings, the list of mappings, the array of pages and the
    page allocator. *)
From S2P Require Import Prelude Machine Hashtable Locks Ktypes Kmem PageAlloc Pagetree Supply PageRefs PagetreeSpec PagetreeWhole PagetreeThms PagetreeProps Darray DarrayThms DarrayProps KMap Pmap PmapSpec PmapThms PmapProps Kobj Share At KobjThms Effects Space AtThms.

(** ** Cleared pages *)

Definition same_clear (m m' : pmem) : Prop := ∀ q, clear_bit m' q = clear_bit m q.
#[export] Instance same_clear_quiet : Quiet same_clear.
Proof.
  split; try done.
  - split; [done|]. intros m1 m2 m3 H1 H2 q. by rewrite H2, H1.
  - intros m pn i b Hi q. eapply clear_bit_info; [exact Hi|done|by left].
  - intros m pn i r Hi q. eapply clear_bit_info; [exact Hi|done|by left].
Qed.
(** Nobody is clearing a page. *)
Definition no_clear_lock (m : pmem) : Prop := ∀ pn i, pm_info m !! pn = Some i → pi_clear_lock i = false.
Lemma no_clear_lock_marks m m' : same_marks m m' → no_clear_lock m → no_clear_lock m'.
Proof.
  intros [_ Hs] Hn pn i' Hi'. specialize (Hs pn). rewrite Hi' in Hs. cbn in Hs. symmetry in Hs.
  apply fmap_Some in Hs as (i & Hi & E). injection E as _ _ ->. by eapply Hn.
Qed.
(** The pages an array has are cleared. *)
Definition pages_clear (m : pmem) (a : darray) : Prop :=
  ∀ k, 0 ≤ k → pe_page (pt_entry m (da_pt a) k) ≠ 0 → clear_bit m (pe_page (pt_entry m (da_pt a) k)) = true.

(** Page [pn] cleared and marked so. *)
Definition zeroed (pn : Z) (i : page_info) (m : pmem) : pmem := set_info pn (pi_set_clear true i) (set_page (page_addr pn) PgZero m).
Lemma clear_once_new m pn i N R :
  refs_inv m N R → page_at m pn (page_addr pn) → pm_info m !! pn = Some i → pi_clear i = false → pi_clear_lock i = false →
  is_Some (pm_page m !! page_addr pn) → clear_once (page_addr pn) m = Ret tt (zeroed pn i m).
Proof.
  intros Hr Hat Hi Hc Hk Hp. apply wp_run_eq. unfold clear_once. wp_pure. eapply page_to_pageinfo_page; [apply Hr|exact Hat|]. wp_pure.
  eapply wp_get_info; [exact Hi|]. wp_pure. apply wp_when_true; [by rewrite Hc|]. rewrite Hk. wp_pure. eapply wp_upd_info; [exact Hi|]. wp_pure.
  unfold page_zero. apply wp_write_page; [done|]. wp_pure. eapply wp_upd_info; [cbn; apply lookup_insert_eq|]. wp_pure.
  eapply wp_upd_info; [cbn; apply lookup_insert_eq|]. split; [done|]. unfold zeroed, set_info, set_page. cbn. rewrite !insert_insert_eq. do 2 f_equal.
  destruct i. cbn in *. by subst.
Qed.
Lemma clear_once_done m pn i N R :
  refs_inv m N R → page_at m pn (page_addr pn) → pm_info m !! pn = Some i → pi_clear i = true → clear_once (page_addr pn) m = Ret tt m.
Proof.
  intros Hr Hat Hi Hc. apply wp_run_eq. unfold clear_once. wp_pure. eapply page_to_pageinfo_page; [apply Hr|exact Hat|]. wp_pure.
  eapply wp_get_info; [exact Hi|]. wp_pure. by apply wp_when_false; [rewrite Hc|].
Qed.
Lemma zeroed_refs m pn i N R : refs_inv m N R → page_at m pn (page_addr pn) → pm_info m !! pn = Some i → pi_freepage i = false →
  is_Some (pm_page m !! page_addr pn) → refs_inv (zeroed pn i m) N R.
Proof. intros Hr Hat Hi Hf Hp. apply refs_set_clear; [by apply refs_set_page|done|done|done]. Qed.
Lemma zeroed_clear m pn i q : pm_info m !! pn = Some i → clear_bit m q = true ∨ q = page_addr pn → clear_bit (zeroed pn i m) q = true.
Proof.
  intros Hi Hq. unfold clear_bit, zeroed. cbn. destruct (decide (pn = (q - PHYSBASE) / PGSIZE)) as [->|Hne]; [by rewrite lookup_insert_eq|].
  rewrite lookup_insert_ne by done. destruct Hq as [Hq| ->]; [exact Hq|]. by rewrite page_number in Hne.
Qed.

(** ** A segment and an address tree that maps it *)

(** An array that is a table of structs of size [sz]: all pages are there and private. *)
Record table_ok (m : pmem) (a : darray) (sz : Z) : Prop := TableOk {
  tb_esz : da_esz a = sz;
  tb_demand : da_demand a = false;
  tb_excl : ∀ n, 0 ≤ n → is_shared (pt_entry m (da_pt a) n) = false;
}.
Definition arrays (x : Address_tree) (g : Segment) : list darray := [at_uaddrmap x; at_addrmap x; sg_pages g].

(** Memory with both.  [ls] lists the mappings of the segment [sg], here and in other
    address trees, whose tables are among [R]. *)
Record as_mem (lvl : nat) (p sg : Z) (m : pmem) (x : Address_tree) (g : Segment) (N R ls : list Z) : Prop := AsMem {
  as_space : space m lvl (at_pgmap x) (arrays x g) N R;
  as_objs : (p ∈ N ∧ p ≠ at_pgmap x) ∧ (sg ∈ N ∧ sg ≠ at_pgmap x) ∧ p ≠ sg;
  as_utab : table_ok m (at_uaddrmap x) UAM_SIZE;
  as_tab : table_ok m (at_addrmap x) AM_SIZE;
  as_upages : ∀ q, q ∈ a_refs m (at_uaddrmap x) →
    is_Some (pm_page m !! q ≫= as_uams) ∧ (q ∉ a_refs m (at_addrmap x)) ∧ q ∉ a_refs m (sg_pages g);
  as_pages : ∀ q, q ∈ a_refs m (at_addrmap x) → is_Some (pm_page m !! q ≫= as_ams) ∧ q ∉ a_refs m (sg_pages g);
  as_open : ∀ e y, page_of e ∈ a_refs m (at_addrmap x) → am_at m e = Some y → am_lock y = false ∧ (am_kobj y = sg → e ∈ ls);
  as_elems : ∀ e, e ∈ ls → (∃ y, am_at m e = Some y ∧ am_kobj y = sg) ∧
    (page_of e ∈ a_refs m (at_addrmap x) ∨ page_of e ∈ R) ∧ page_of e ∉ a_refs m (sg_pages g);
  as_clean : pages_clear m (sg_pages g);
  as_nolock : no_clear_lock m;
}.
Record as_inv (lvl : nat) (p sg : Z) (s : kern) (x : Address_tree) (g : Segment) (N R ls : list Z) : Prop := AsInv {
  as_at : obj_at s p = Some x;
  as_sg : obj_sg s sg = Some g;
  as_unlocked : aml_lock (sg_map_list g) = false;
  as_list : lrep s (HAml sg) ls;
  as_m : as_mem lvl p sg (kn_mem s) x g N R ls;
}.

(** What a user sees of page [k]: a page that is not there yet reads as zeros. *)
Definition view (m : pmem) (a : darray) (k : Z) : option page :=
  if pe_page (pt_entry m (da_pt a) k) =? 0 then Some PgZero else pm_page m !! pe_page (pt_entry m (da_pt a) k).

(** ** Entries of tables *)

Lemma wp_with_run {S A} (c : M S A) s (Q : A → S → Prop) : wp c s Q → wp c s (λ a s', Q a s' ∧ c s = Ret a s').
Proof. unfold wp. by destruct (c s). Qed.
Lemma darray_get_end m a i mode N R : da_inv m a N R → da_nent a ≤ i → darray_get a i mode m = Ret (- E_INVAL, 0, a) m.
Proof.
  intros [_ Hl] Hi. apply wp_run_eq. unfold darray_get. rewrite Hl. wp_pure. apply wp_ret.
  rewrite Z.geb_leb, (proj2 (Z.leb_le _ _)) by done. wp_pure. split; [|done]. f_equal. destruct a; simpl in *. by rewrite Hl.
Qed.
Lemma darray_get_hit m a i mode N R node :
  da_inv m a N R → 0 ≤ i < da_nent a → home_node (pm_conf m) (da_pid a) = Some node →
  pe_page (pt_entry m (da_pt a) (i / da_pp a)) ≠ 0 → is_shared (pt_entry m (da_pt a) (i / da_pp a)) = false →
  darray_get a i mode m = Ret (0, ent_addr m a i, a) m.
Proof.
  intros Hinv Hi Hh Hp Hs. pose proof Hinv as [Ha Hl]. pose proof (da_pp_pos _ _ _ _ Ha) as Hpp. pose proof Ha as [Hpt _ _ Hpid _ _ _ _].
  apply wp_run_eq. unfold darray_get. rewrite Hl. wp_pure. apply wp_ret. rewrite Z.geb_leb, (proj2 (Z.leb_gt _ _)) by apply Hi. wp_pure.
  eapply wp_eq; [apply (get_page_existing m (da_pt a) (i / da_pp a) N R node); [exact Hpt|apply Z.div_pos; lia|by rewrite Hpid|done|done]|]. wp_pure.
  split; [|done]. cbn [da_pp da_esz set_ptl]. rewrite (ent_addr_exact m a N R i m (da_pt a) Ha ltac:(lia) Hpt Hp). f_equal.
  rewrite (relocked a (da_pt a)) by done. by destruct a.
Qed.
(** The address of an entry of a table. *)
Lemma table_entry_at m a sz N R i :
  da_inv m a N R → da_esz a = sz → 0 ≤ i → pe_page (pt_entry m (da_pt a) (i / da_pp a)) ≠ 0 →
  page_of (ent_addr m a i) = pe_page (pt_entry m (da_pt a) (i / da_pp a)) ∧ elem_slot sz (ent_addr m a i) = Some (i mod da_pp a) ∧ ent_addr m a i ≠ 0.
Proof.
  intros [Ha _] <- Hi Hp. pose proof (da_pp_pos _ _ _ _ Ha) as Hpp. pose proof Ha as [Hpt Hesz Epp _ _ _ _ _].
  destruct (ent_off_range _ _ _ _ i Ha Hi) as [Hlo Hhi]. pose proof Hpt as [Hinv _ _].
  assert (Hlive : page_live m (pe_page (pt_entry m (da_pt a) (i / da_pp a)))).
  { eapply ri_live; [exact Hinv|]. apply elem_of_app. left. eapply page_in_refs; [done|apply Z.div_pos; lia|done]. }
  destruct (page_live_addr _ _ Hlive) as (pn & _ & E & [_ Hpn] & _). unfold ent_addr. rewrite E.
  assert (Hc : 0 ≤ pn < 2 ^ 34) by (destruct (ai_conf _ (ri_alloc _ _ _ Hinv)); lia).
  split_and!.
  - apply page_of_elem; [done|lia].
  - apply elem_slot_at; [done|lia|]. rewrite <- Epp. apply Z.mod_pos_bound. lia.
  - unfold page_addr, PHYSBASE. change PGSIZE with 4096 in *. lia.
Qed.

(** A table that may have grown: the pages it had are as before, new pages are zero and
    its own. *)
Record grown_table (m : pmem) (a : darray) (m' : pmem) (a' : darray) (N R : list Z) : Prop := GrownTable {
  gt_inv : da_inv m' a' N R;
  gt_shape : same_shape a a';
  gt_old : ∀ k, 0 ≤ k → pe_page (pt_entry m (da_pt a) k) ≠ 0 → pt_entry m' (da_pt a') k = pt_entry m (da_pt a) k ∧
    pm_page m' !! pe_page (pt_entry m (da_pt a) k) = pm_page m !! pe_page (pt_entry m (da_pt a) k);
  gt_new : ∀ k, 0 ≤ k → pe_page (pt_entry m (da_pt a) k) = 0 → pe_page (pt_entry m' (da_pt a') k) = 0 ∨ filled true R m' (da_pt a') k;
  gt_other : ∀ q, q ∈ N ∨ q ∈ R → pm_page m' !! q = pm_page m !! q ∧ clear_bit m' q = clear_bit m q;
  gt_conf : pm_conf m' = pm_conf m;
}.
Lemma takes_refl k m : takes k m m.
Proof. eapply takes_le; [reflexivity|apply Nat.le_0_l]. Qed.
(** What growing takes: as much as the new pages cost. *)
#[export] Instance ts_alloc_one pid i mx pt : Takes PAGE_COST (alloc_one pid i mx pt).
Proof.
  unfold alloc_one. apply (takes_bind 1 MAX_NODES); [typeclasses eauto|]. intros [r q]. destruct (r =? 0); [|apply takes_keeps; keeps].
  apply takes_bind_l; [typeclasses eauto|]. intros [r' pt']. keeps.
Qed.
#[export] Instance ts_clear_page q : Keeps (takes 0) (clear_page q). Proof. unfold clear_page. keeps. Qed.
Lemma alloc_pages_takes k i cur mx pid clear pt m r pt' m' :
  alloc_pages k i cur mx pid clear pt m = Ret (r, pt') m' → 0 ≤ r → takes (PAGE_COST * k) m m'.
Proof.
  revert i mx pt m. induction k as [|k IH]; intros i mx pt m; cbn [alloc_pages].
  { intros [= _ _ <-] _. replace (PAGE_COST * 0)%nat with 0%nat by lia. reflexivity. }
  unfold mbind, m_bind at 1. destruct (alloc_one pid i mx pt m) as [[[[r1 q] pt1] mx1] m1|] eqn:E1; [|done].
  assert (T1 : takes PAGE_COST m m1) by (by eapply ts_alloc_one). destruct (Z.ltb_spec r1 0).
  - unfold mbind, m_bind. destruct (undo_pages _ _ _ _); [|done]. intros [= <- _ _] ?. lia.
  - unfold mbind, m_bind. destruct (when clear (clear_page q) m1) as [u m2|] eqn:E2; [|done]. intros Hr H0.
    assert (K : Keeps (takes 0) (when clear (clear_page q))) by keeps. pose proof (K _ _ _ E2) as T2.
    eapply takes_le; [eapply takes_trans; [exact T1|eapply takes_trans; [exact T2|by eapply IH]]|lia].
Qed.
Lemma grow_takes a n m r a' m' :
  darray_grow_nent a n m = Ret (r, a') m' → 0 ≤ r → da_npages a (da_nent a) ≤ da_npages a n →
  takes (PAGE_COST * Z.to_nat (da_npages a n - da_npages a (da_nent a))) m m'.
Proof.
  unfold darray_grow_nent, Rw.rw_write_lock, mbind, m_bind. intros Hr H0 Hle. destruct (_ =? 0); [|done]. cbn in Hr.
  case_match; [injection Hr as _ _ <-; apply takes_refl|]. revert Hr.
  unfold darray_set_nent_internal, mbind, m_bind. cbn [da_nent set_ptl da_pt da_demand da_pid].
  change (da_npages (set_ptl ?w a) ?k) with (da_npages a k). replace (Z.to_nat (da_npages a (da_nent a) - da_npages a n)) with 0%nat by lia.
  cbn [drop_pages]. destruct (da_demand a); cbn.
  { intros [= _ _ <-]. apply takes_refl. }
  destruct (alloc_pages _ _ _ _ _ _ _ m) as [[r1 pt1] m1|] eqn:E; [|done]. destruct (Z.ltb_spec r1 0); cbn; intros [= <- _ <-]; [lia|].
  by eapply alloc_pages_takes.
Qed.
Lemma grow_table m a n N R node :
  da_inv m a N R → da_demand a = false → 0 ≤ n → n + da_pp a - 1 < 2 ^ 64 → home_node (pm_conf m) (da_pid a) = Some node →
  wp (darray_grow_nent a n) m (λ ra m', grown_table m a m' ra.2 N R ∧
    ((ra.1 = 0 ∧ n ≤ da_nent ra.2 ∧ takes (PAGE_COST * Z.to_nat (da_npages a n - da_npages a (da_nent a))) m m') ∨
     ra.1 = - E_NO_MEM ∨ ra.1 = - E_NO_SPACE)).
Proof.
  intros Hinv Hd Hn Hov Hh. eapply wp_mono; [eapply wp_with_run, darray_grow_nent_correct; [exact Hinv|done|done|exact Hh]|]. intros [r a'] m' [Hpost Hrun]. revert Hpost.
  pose proof Hinv as [[_ _ _ _ _ [Hc0 Hc1] Hout Hin] _].
  intros [(Hle & [= -> ->] & ->)|(Hlt & (Hok & Hsh & _ & Hres) & Hinv')].
  { split; [|left; split_and!; [done|done|]]; [split; try done; by left|]. apply takes_refl. }
  pose proof Hinv as [Ha _]. pose proof (da_pp_pos _ _ _ _ Ha) as Hpp. pose proof Hsh as (_ & Epp & _ & _).
  assert (Hnp : da_npages a (da_nent a) ≤ da_npages a n).
  { rewrite !(da_npages_val m a N R) by done. apply Z.div_le_mono; lia. }
  destruct (da_npages_range _ _ _ _ _ Ha Hc0 Hc1) as [Hr0 _].
  assert (Hnpg : ∀ l, da_npages a' l = da_npages a l) by (intros l; unfold da_npages; by rewrite Epp).
  pose proof Hinv' as [[_ _ _ _ _ _ Hout' _] _]. cbn [snd] in Hout'. rewrite Hnpg in Hout'.
  assert (Hk : kept (da_npages a (da_nent a)) m (da_pt a) N R m' (da_pt a') ∧
    ∀ k, da_npages a (da_nent a) ≤ k → pe_page (pt_entry m' (da_pt a') k) = 0 ∨ filled true R m' (da_pt a') k).
  { destruct Hres as [(-> & En & Hkp & Hf)|(_ & _ & _ & En & Hkp)]; rewrite En in Hout'.
    - rewrite Z.min_l in Hkp by done. split; [done|]. intros k Hk. destruct (decide (k < da_npages a n)); [right; apply Hf; [done|lia]|].
      left. apply Hout'. lia.
    - split; [done|]. intros k Hk. left. by apply Hout'. }
  destruct Hk as [[_ Hl Hp Ho (Ec & _ & _) Hb] Hnew].
  assert (Hlow : ∀ k, 0 ≤ k → pe_page (pt_entry m (da_pt a) k) ≠ 0 → 0 ≤ k < da_npages a (da_nent a)).
  { intros k Hk H0. split; [done|]. destruct (Z.lt_ge_cases k (da_npages a (da_nent a))) as [|Hge]; [done|]. by destruct H0; apply Hout. }
  split; [split; try done|].
  - intros k Hk H0. split; [by apply Hl, Hlow|by apply Hp; [apply Hlow|]].
  - intros k Hk H0. apply Hnew. destruct (Z.lt_ge_cases k (da_npages a (da_nent a))) as [Hlt'|]; [|done]. by destruct (Hin Hd k).
  - intros q Hq. split; [by apply Ho|apply Hb; tauto].
  - destruct Hres as [(-> & E & _)|([-> | ->] & _)]; [left|right; by left|right; by right].
    split_and!; [done|cbn; lia|by eapply grow_takes].
Qed.

Section fault.
Context (lvl : nat) (p sg : Z).
Implicit Types (m : pmem) (s : kern) (x : Address_tree) (g : Segment) (N R ls : list Z).
Abbreviation as_inv := (as_inv lvl p sg).
Abbreviation as_mem := (as_mem lvl p sg).

Lemma am_at_ext m m' e : pm_page m' !! page_of e = pm_page m !! page_of e → am_at m' e = am_at m e.
Proof. unfold am_at, elem_at. by intros ->. Qed.

(** The parts of the address tree the invariant depends on. *)
Definition same_at x x' : Prop := at_pgmap x' = at_pgmap x ∧ at_uaddrmap x' = at_uaddrmap x ∧ at_addrmap x' = at_addrmap x.
(** Pages that hold parts of the tables and lists. *)
Definition table_page m x ls (q : Z) : Prop :=
  q ∈ a_refs m (at_uaddrmap x) ∨ q ∈ a_refs m (at_addrmap x) ∨ ∃ e, e ∈ ls ∧ q = page_of e.
Lemma first_at_sg s g : obj_sg s sg = Some g → first_at s (HAml sg) = Some (aml_first (sg_map_list g)).
Proof. intros (k & Hk & Hb)%obj_sg_kobj. cbn. rewrite Hk. cbn. unfold aml_of. by rewrite Hb. Qed.
(** The pages the structures are made of, apart from the objects. *)
Lemma table_page_ref m x g N R ls q : as_mem m x g N R ls → table_page m x ls q →
  q ∈ (arrays x g ≫= a_refs m) ++ R ∧ q ∉ a_refs m (sg_pages g).
Proof.
  intros H Hq. assert (Hin : ∀ a, a ∈ arrays x g → q ∈ a_refs m a → q ∈ (arrays x g ≫= a_refs m) ++ R).
  { intros a Ha Hqa. apply elem_of_app. left. apply list_elem_of_bind. by exists a. }
  destruct Hq as [Hq|[Hq|(e & He & ->)]].
  - split; [by apply (Hin (at_uaddrmap x)); [left|]|apply (as_upages _ _ _ _ _ _ _ _ _ H _ Hq)].
  - split; [by apply (Hin (at_addrmap x)); [right; left|]|apply (as_pages _ _ _ _ _ _ _ _ _ H _ Hq)].
  - destruct (as_elems _ _ _ _ _ _ _ _ _ H e He) as (_ & [Hr|Hr] & Hn); (split; [|exact Hn]).
    + by apply (Hin (at_addrmap x)); [right; left|].
    + apply elem_of_app. by right.
Qed.
Lemma sg_ref_in m x g R q : q ∈ a_refs m (sg_pages g) → q ∈ (arrays x g ≫= a_refs m) ++ R.
Proof. intros Hq. apply elem_of_app. left. apply list_elem_of_bind. exists (sg_pages g). split; [done|]. by right; right; left. Qed.
Lemma as_ref_not_node m x g N R ls q : as_mem m x g N R ls → q ∈ (arrays x g ≫= a_refs m) ++ R → q ∉ N.
Proof.
  intros H Hq HN. eapply refs_disjoint; [apply (as_space _ _ _ _ _ _ _ _ _ H)| |exact Hq]. rewrite !elem_of_app. right. right. exact HN.
Qed.
Lemma sg_page_ref m x g N R ls k : as_mem m x g N R ls → 0 ≤ k → pe_page (pt_entry m (da_pt (sg_pages g)) k) ≠ 0 →
  pe_page (pt_entry m (da_pt (sg_pages g)) k) ∈ a_refs m (sg_pages g).
Proof.
  intros H Hk H0. eapply page_in_refs; [|done|done].
  apply (space_da_inv lvl (at_pgmap x) m [at_uaddrmap x; at_addrmap x] (sg_pages g) []). apply (as_space _ _ _ _ _ _ _ _ _ H).
Qed.

(** ** Steps that leave the structures alone *)

Lemma as_mem_ext m m' x x' g N R ls :
  as_mem m x g N R ls → same_at x x' →
  space m' lvl (at_pgmap x) (arrays x g) N R → same_arrays m m' (arrays x g) →
  (∀ q, table_page m x ls q → pm_page m' !! q = pm_page m !! q) →
  pages_clear m' (sg_pages g) → no_clear_lock m' → as_mem m' x' g N R ls.
Proof.
  intros [Hsp Ho Hut Ht Hu Hm Hop He Hcl Hnl] (E1 & E2 & E3) Hsp' Hsa Hpg Hcl' Hnl'.
  destruct (Hsa (at_uaddrmap x)) as (_ & _ & Eu & Euu); [by left|].
  destruct (Hsa (at_addrmap x)) as (_ & _ & Em & Emm); [by right; left|].
  destruct (Hsa (sg_pages g)) as (_ & _ & Eg & _); [by right; right; left|].
  split; unfold arrays; rewrite ?E1, ?E2, ?E3, ?Eu, ?Em, ?Eg; [exact Hsp'|exact Ho| | | | | | |exact Hcl'|exact Hnl'].
  - destruct Hut as [H1 H2 H3]. split; [done|done|]. intros n Hn. rewrite Euu. by apply H3.
  - destruct Ht as [H1 H2 H3]. split; [done|done|]. intros n Hn. rewrite Emm. by apply H3.
  - intros q Hq. rewrite Hpg by (by left). by apply Hu.
  - intros q Hq. rewrite Hpg by (right; by left). by apply Hm.
  - intros e y Hq. rewrite (am_at_ext m) by (apply Hpg; right; by left). by apply Hop.
  - intros e Hin. rewrite (am_at_ext m) by (apply Hpg; right; right; by exists e). by apply He.
Qed.
Lemma lrep_pages s s' g g' ls : obj_sg s sg = Some g → obj_sg s' sg = Some g' → aml_first (sg_map_list g') = aml_first (sg_map_list g) →
  (∀ e, e ∈ ls → pm_page (kn_mem s') !! page_of e = pm_page (kn_mem s) !! page_of e) → lrep s (HAml sg) ls → lrep s' (HAml sg) ls.
Proof.
  intros Hg Hg' Hf Hp Hl. eapply lrep_ext; [exact Hl| |].
  - by rewrite (first_at_sg s g), (first_at_sg s' g'), Hf.
  - intros e Hin. unfold link_at. by rewrite (am_at_ext (kn_mem s)) by (by apply Hp).
Qed.

(** Neither a translation nor what is seen of the segment changes, and no page is lost. *)
Definition transparent (pm : Z) m g m' g' : Prop :=
  (∀ va, in_space lvl va → pm_walk m' lvl pm va = pm_walk m lvl pm va) ∧
  (∀ k, 0 ≤ k → view m' (sg_pages g') k = view m (sg_pages g) k) ∧
  (∀ k, 0 ≤ k → pe_page (pt_entry m' (da_pt (sg_pages g')) k) = 0 → pe_page (pt_entry m (da_pt (sg_pages g)) k) = 0).
Lemma transparent_refl pm m g : transparent pm m g m g.
Proof. done. Qed.
Lemma transparent_trans pm m1 g1 m2 g2 m3 g3 :
  transparent pm m1 g1 m2 g2 → transparent pm m2 g2 m3 g3 → transparent pm m1 g1 m3 g3.
Proof. intros (W1 & V1 & P1) (W2 & V2 & P2). split_and!; [intros va Hva; by rewrite W2, W1|intros k Hk; by rewrite V2, V1|intros k Hk Hz; by apply P1, P2]. Qed.
Lemma map_same_walk m m' pm va : map_same lvl m m' pm → in_space lvl va → pm_walk m' lvl pm va = pm_walk m lvl pm va.
Proof. intros (_ & _ & Hw) Hva. destruct (in_space_user _ _ Hva) as (Hl & _ & Hin). by apply Hw. Qed.
Lemma view_ext m m' a k :
  pt_entry m' (da_pt a) k = pt_entry m (da_pt a) k →
  (pe_page (pt_entry m (da_pt a) k) ≠ 0 → pm_page m' !! pe_page (pt_entry m (da_pt a) k) = pm_page m !! pe_page (pt_entry m (da_pt a) k)) →
  view m' a k = view m a k.
Proof. intros He Hp. unfold view. rewrite He. destruct (Z.eqb_spec (pe_page (pt_entry m (da_pt a) k)) 0); [done|by apply Hp]. Qed.

(** The table of mappings stays where it is. *)
Definition same_table x m m' : Prop := ∀ k, pt_entry m' (da_pt (at_addrmap x)) k = pt_entry m (da_pt (at_addrmap x)) k.
Lemma arrays_table x m m' As : same_arrays m m' As → at_addrmap x ∈ As → same_table x m m'.
Proof. intros Hs Hin. by destruct (Hs _ Hin) as (_ & _ & _ & ?). Qed.

(** Writing the page of an object. *)
Lemma as_mem_obj m x x' g N R ls q c :
  as_mem m x g N R ls → same_at x x' → q = p ∨ q = sg →
  as_mem (set_page q c m) x' g N R ls ∧ transparent (at_pgmap x) m g (set_page q c m) g ∧ same_arrays m (set_page q c m) (arrays x g).
Proof.
  intros H Hx Hq. pose proof (as_objs _ _ _ _ _ _ _ _ _ H) as ((Hp & Hpm) & (Hs & Hsm) & _).
  assert (HqN : q ∈ N ∧ q ≠ at_pgmap x) by (by destruct Hq as [-> | ->]).
  destruct (space_set_page _ _ _ _ _ _ _ c (as_space _ _ _ _ _ _ _ _ _ H) (or_introl HqN)) as (Hsp & Hms & Hsa).
  assert (Hne : ∀ q', q' ∈ (arrays x g ≫= a_refs m) ++ R → pm_page (set_page q c m) !! q' = pm_page m !! q').
  { intros q' Hq'. cbn. rewrite lookup_insert_ne; [done|]. intros ->. eapply as_ref_not_node; [exact H|exact Hq'|apply HqN]. }
  assert (Hent : ∀ n, pt_entry (set_page q c m) (da_pt (sg_pages g)) n = pt_entry m (da_pt (sg_pages g)) n) by (apply Hsa; by right; right; left).
  split_and!; [| |done].
  - eapply as_mem_ext; [exact H|exact Hx|exact Hsp|exact Hsa| | |apply H].
    + intros q' Hq'. eapply Hne, table_page_ref; [exact H|exact Hq'].
    + intros n Hn. rewrite Hent. by apply (as_clean _ _ _ _ _ _ _ _ _ H).
  - split_and!; [by intros va Hva; apply map_same_walk| |by intros n Hn; rewrite Hent]. intros n Hn. apply view_ext; [done|]. intros H0.
    eapply Hne, sg_ref_in, sg_page_ref; [exact H|done|done].
Qed.
(** Writing the address tree. *)
Lemma as_with_at s x x' g N R ls :
  as_inv s x g N R ls → same_at x x' →
  as_inv (with_body p (KAt x') s) x' g N R ls ∧ transparent (at_pgmap x) (kn_mem s) g (kn_mem (with_body p (KAt x') s)) g ∧
  same_arrays (kn_mem s) (kn_mem (with_body p (KAt x') s)) (arrays x g).
Proof.
  intros [Ha Hg Hu Hl H] Hx. pose proof (as_objs _ _ _ _ _ _ _ _ _ H) as (_ & _ & Hps). pose proof Ha as (k & Hk & _)%obj_at_kobj.
  destruct (as_mem_obj _ _ x' _ _ _ _ p (PgKobj (set_body (KAt x') k)) H Hx (or_introl eq_refl)) as (Hm & Ht & Hsa).
  rewrite <- (with_body_mem s p (KAt x') k Hk) in Hm, Ht, Hsa. split_and!; [|done|done].
  assert (Hg' : obj_sg (with_body p (KAt x') s) sg = Some g) by (by rewrite obj_sg_with_other).
  split; [by eapply obj_at_with|done|done| |done]. eapply lrep_ext; [exact Hl|by rewrite !(first_at_sg _ g)|].
  intros e _. unfold link_at. by rewrite with_body_am.
Qed.

(** ** The table of mappings grows *)

Definition rest_nodes m x g N : list Z := tables m lvl (at_pgmap x) ++ ([at_uaddrmap x; sg_pages g] ≫= a_nodes m) ++ N.
Definition rest_refs m x g R : list Z := ([at_uaddrmap x; sg_pages g] ≫= a_refs m) ++ R.
Lemma as_table_inv m x g N R ls : as_mem m x g N R ls → da_inv m (at_addrmap x) (rest_nodes m x g N) (rest_refs m x g R).
Proof. intros H. apply (space_da_inv lvl (at_pgmap x) m [at_uaddrmap x] (at_addrmap x) [sg_pages g]). apply (as_space _ _ _ _ _ _ _ _ _ H). Qed.
Lemma rest_ref m x g R q : q ∈ a_refs m (at_uaddrmap x) ∨ q ∈ a_refs m (sg_pages g) ∨ q ∈ R → q ∈ rest_refs m x g R.
Proof. unfold rest_refs. cbn. rewrite app_nil_r, !elem_of_app. tauto. Qed.
(** A reference of the table is one it had or a new page. *)
Lemma grown_refs m a m' a' N R q : da_inv m a N R → grown_table m a m' a' N R → q ∈ a_refs m' a' →
  (q ∈ a_refs m a ∧ pm_page m' !! q = pm_page m !! q) ∨ ((q ∉ R) ∧ pm_page m' !! q = Some PgZero).
Proof.
  intros [[Hpt _ _ _ _ _ _ _] _] G Hq. destruct (gt_inv _ _ _ _ _ _ G) as [[Hpt' _ _ _ _ _ _ _] _].
  apply refs_entry in Hq as (k & Hk & <- & H0); [|apply Hpt'].
  destruct (decide (pe_page (pt_entry m (da_pt a) k) = 0)) as [Hz|Hnz].
  - destruct (gt_new _ _ _ _ _ _ G k Hk Hz) as [|(_ & Hc & HR & _)]; [done|]. right. split; [done|by apply Hc].
  - destruct (gt_old _ _ _ _ _ _ G k Hk Hnz) as [-> Hc]. left. split; [by eapply page_in_refs|done].
Qed.
Lemma old_refs m a m' a' N R q : da_inv m a N R → grown_table m a m' a' N R → q ∈ a_refs m a → q ∈ a_refs m' a' ∧ pm_page m' !! q = pm_page m !! q.
Proof.
  intros [[Hpt _ _ _ _ _ _ _] _] G Hq. destruct (gt_inv _ _ _ _ _ _ G) as [[Hpt' _ _ _ _ _ _ _] _].
  apply refs_entry in Hq as (k & Hk & <- & H0); [|apply Hpt]. destruct (gt_old _ _ _ _ _ _ G k Hk H0) as [E Hc]. split; [|done].
  rewrite <- E in H0 |- *. by eapply page_in_refs.
Qed.
Lemma grown_excl m a m' a' N R sz : table_ok m a sz → grown_table m a m' a' N R → table_ok m' a' sz.
Proof.
  intros [H1 H2 H3] G. pose proof (gt_shape _ _ _ _ _ _ G) as (_ & _ & E1 & E2). split; [congruence|congruence|]. intros n Hn.
  destruct (decide (pe_page (pt_entry m (da_pt a) n) = 0)) as [Hz|Hnz].
  - destruct (gt_new _ _ _ _ _ _ G n Hn Hz) as [Hz'|(_ & _ & _ & Hmd)]; [|unfold is_shared; by rewrite Hmd].
    destruct (gt_inv _ _ _ _ _ _ G) as [[[_ _ He] _ _ _ _ _ _ _] _]. destruct (He n Hn) as [_ Hs]. destruct (Hs Hz') as [Hc Hr].
    unfold is_shared. by rewrite (proj2 (Z.eqb_neq _ _) Hc), (proj2 (Z.eqb_neq _ _) Hr).
  - destruct (gt_old _ _ _ _ _ _ G n Hn Hnz) as [-> _]. by apply H3.
Qed.
Lemma zero_am_at m e y : pm_page m !! page_of e = Some PgZero → am_at m e = Some y → y = zero_am.
Proof. intros Hp (i & l & _ & Hl & ->)%am_at_inv. rewrite Hp in Hl. cbn in Hl. injection Hl as <-. by rewrite lookup_empty. Qed.

Lemma live_nonzero m q : conf_ok (pm_conf m) → page_live m q → q ≠ 0.
Proof.
  intros Hc Hl. destruct (page_live_addr _ _ Hl) as (pn & _ & -> & [_ Hpn] & _). destruct Hc. unfold page_addr, PHYSBASE. change PGSIZE with 4096. lia.
Qed.
Lemma as_seg_nonzero m x g N R ls : as_mem m x g N R ls → sg ≠ 0.
Proof.
  intros H. pose proof (as_objs _ _ _ _ _ _ _ _ _ H) as (_ & (Hg & _) & _). eapply live_nonzero; [|eapply space_live; [apply (as_space _ _ _ _ _ _ _ _ _ H)|done]].
  apply (as_space _ _ _ _ _ _ _ _ _ H).
Qed.
Lemma as_grown m x g N R ls m' a' :
  as_mem m x g N R ls → grown_table m (at_addrmap x) m' a' (rest_nodes m x g N) (rest_refs m x g R) → same_marks m m' →
  as_mem m' (set_at_addrmap a' x) g N R ls ∧ transparent (at_pgmap x) m g m' g ∧
  (∀ q, q ∈ N ∨ q ∈ R ∨ table_page m x ls q → pm_page m' !! q = pm_page m !! q).
Proof.
  intros H G Hsm. pose proof (as_table_inv _ _ _ _ _ _ H) as Hti. pose proof H as [Hsp Ho Hut Ht Hu Hm Hop He Hcl Hnl].
  destruct (space_array lvl (at_pgmap x) m m' [at_uaddrmap x] (at_addrmap x) a' [sg_pages g] N R Hsp (gt_inv _ _ _ _ _ _ G) Hsm) as (Hsp' & Hms & Hsa).
  { intros q Hq. by apply (gt_other _ _ _ _ _ _ G). }
  destruct (Hsa (at_uaddrmap x)) as (_ & _ & Eu & Euu); [by left|]. destruct (Hsa (sg_pages g)) as (_ & _ & Eg & Egg); [by right; left|].
  assert (Hoth : ∀ q, q ∈ rest_refs m x g R → pm_page m' !! q = pm_page m !! q ∧ clear_bit m' q = clear_bit m q).
  { intros q Hq. apply (gt_other _ _ _ _ _ _ G). by right. }
  split_and!.
  - split; cbn [at_pgmap at_uaddrmap at_addrmap set_at_addrmap]; rewrite ?Eu, ?Eg; [exact Hsp'|exact Ho| | | | | | | |by eapply no_clear_lock_marks].
    + destruct Hut as [H1 H2 H3]. split; [done|done|]. intros n Hn. rewrite Euu. by apply H3.
    + by eapply grown_excl.
    + intros q Hq. destruct (Hu q Hq) as (H1 & H2 & H3). assert (Hqr : q ∈ rest_refs m x g R) by (apply rest_ref; by left).
      rewrite (proj1 (Hoth q Hqr)). split_and!; [done| |done]. intros Hq'. destruct (grown_refs _ _ _ _ _ _ _ Hti G Hq') as [[? _]|[? _]]; done.
    + intros q Hq. destruct (grown_refs _ _ _ _ _ _ _ Hti G Hq) as [[Hq' ->]|[Hq' ->]]; [by apply Hm|]. split; [by exists ∅|].
      intros Hin. apply Hq', rest_ref. tauto.
    + intros e y Hq Hy. destruct (grown_refs _ _ _ _ _ _ _ Hti G Hq) as [[Hq' Hpg]|[_ Hz]]; [|rewrite (zero_am_at m' e y) by done; split; [done|intros Hz']].
      2: { by destruct (as_seg_nonzero _ _ _ _ _ _ H). }
      rewrite (am_at_ext m) in Hy by done. by eapply Hop.
    + intros e Hin. destruct (He e Hin) as (Hy & Hor & Hns).
      assert (Hpg : pm_page m' !! page_of e = pm_page m !! page_of e ∧ (page_of e ∈ a_refs m' a' ∨ page_of e ∈ R)).
      { destruct Hor as [Hr|Hr]; [destruct (old_refs _ _ _ _ _ _ _ Hti G Hr); split; [done|by left]|].
        split; [apply Hoth, rest_ref; tauto|by right]. }
      rewrite (am_at_ext m) by apply Hpg. by split_and!; [|apply Hpg|].
    + intros k Hk. rewrite Egg. intros H0. rewrite (proj2 (Hoth _ (rest_ref _ _ _ _ _ (or_intror (or_introl (sg_page_ref _ _ _ _ _ _ _ H Hk H0)))))). by apply Hcl.
  - split_and!; [intros va Hva; by apply map_same_walk| |by intros k Hk; rewrite Egg]. intros k Hk. apply view_ext; [done|]. intros H0.
    apply Hoth, rest_ref. right. left. by eapply sg_page_ref.
  - intros q [Hq|[Hq|[Hq|[Hq|(e & Hin & ->)]]]].
    + apply (gt_other _ _ _ _ _ _ G). left. unfold rest_nodes. rewrite !elem_of_app. tauto.
    + apply Hoth, rest_ref. tauto.
    + apply Hoth, rest_ref. by left.
    + by eapply old_refs.
    + destruct (He e Hin) as (_ & [Hr|Hr] & _); [by eapply old_refs|]. apply Hoth, rest_ref. tauto.
Qed.

(** ** Finding the entry of a slot *)

(** Nothing but memory changes; of the objects [N] only the bodies of the address tree and
    of the segment, and of the other pages [R] only those with elements of [ls], the list of
    mappings. *)
Record others (pm : Z) N R ls s s' : Prop := Others {
  ot_rest : set_mem (kn_mem s) s' = s;
  ot_conf : pm_conf (kn_mem s') = pm_conf (kn_mem s);
  ot_hdr : ∀ q, q ∈ N → q ≠ pm → ko_hdr <$> kobj_at s' q = ko_hdr <$> kobj_at s q;
  ot_page : ∀ q, q ∈ N → q ≠ pm → q ≠ p → q ≠ sg → pm_page (kn_mem s') !! q = pm_page (kn_mem s) !! q;
  ot_refs : ∀ q, q ∈ R → q ∉ page_of <$> ls → pm_page (kn_mem s') !! q = pm_page (kn_mem s) !! q;
}.
Lemma others_refl pm N R ls s : others pm N R ls s s.
Proof. split; [by destruct s|done|done|done|done]. Qed.
Lemma others_mono pm N R ls ls' s s' : ls ⊆ ls' → others pm N R ls s s' → others pm N R ls' s s'.
Proof.
  intros Hs [H1 H2 H3 H4 H5]. split; try done. intros q Hq Hn. apply H5; [done|]. intros (e & -> & He)%list_elem_of_fmap.
  apply Hn, list_elem_of_fmap_2, Hs, He.
Qed.
Lemma others_trans pm N R ls s1 s2 s3 : others pm N R ls s1 s2 → others pm N R ls s2 s3 → others pm N R ls s1 s3.
Proof.
  intros [R1 C1 H1 P1 F1] [R2 C2 H2 P2 F2]. split; [|congruence|intros q Hq Hne; by rewrite H2, H1|intros q Hq ???; by rewrite P2, P1|intros q Hq Hn; by rewrite F2, F1].
  transitivity (set_mem (kn_mem s1) (set_mem (kn_mem s2) s3)); [done|]. by rewrite R2.
Qed.
Lemma others_with pm N R ls s x g N' ls' q b : as_mem (kn_mem s) x g N' R ls' → q = p ∨ q = sg → others pm N R ls s (with_body q b s).
Proof.
  intros H Hq. unfold with_body. destruct (kobj_at s q) as [k|] eqn:Hk; [|apply others_refl]. split; [by destruct s|done| | |].
  - intros q' _ _. destruct (decide (q' = q)) as [->|]; [by rewrite kobj_at_put_obj, Hk|by rewrite kobj_at_other].
  - intros q' _ _ Hp Hs. cbn. rewrite lookup_insert_ne; [done|]. intros ->. by destruct Hq.
  - intros q' HR _. cbn. rewrite lookup_insert_ne; [done|]. intros ->. pose proof (as_objs _ _ _ _ _ _ _ _ _ H) as ((HpN & _) & (HsN & _) & _).
    eapply as_ref_not_node; [exact H|apply elem_of_app; right; exact HR|]. by destruct Hq as [-> | ->].
Qed.
Lemma others_mem pm N R ls s m' : pm_conf m' = pm_conf (kn_mem s) → (∀ q, q ∈ N ∧ q ≠ pm ∨ q ∈ R → pm_page m' !! q = pm_page (kn_mem s) !! q) →
  others pm N R ls s (set_mem m' s).
Proof.
  intros Hc Hp. split; [by destruct s|done| | |]; cbn.
  - intros q Hq Hne. unfold kobj_at. cbn. rewrite Hp by (by left). done.
  - intros q Hq Hne _ _. apply Hp. by left.
  - intros q Hq _. apply Hp. by right.
Qed.

(** The slot is not entered, or entered for this segment. *)
Definition slot_open m x (i : Z) : Prop :=
  pe_page (pt_entry m (da_pt (at_addrmap x)) (i / da_pp (at_addrmap x))) ≠ 0 →
  ∀ y, am_at m (ent_addr m (at_addrmap x) i) = Some y → am_kobj y = 0 ∨ am_kobj y = sg.
(** [am] is the address of the entry. *)
Record slot_entry m x (i am : Z) : Prop := SlotEntry {
  sl_addr : am = ent_addr m (at_addrmap x) i;
  sl_page : page_of am ∈ a_refs m (at_addrmap x);
  sl_nonnull : am ≠ 0;
  sl_am : ∃ y, am_at m am = Some y ∧ (am_kobj y = 0 ∨ am_kobj y = sg);
}.
Lemma slot_hit m x g N R ls i : as_mem m x g N R ls → slot_open m x i → 0 ≤ i < da_nent (at_addrmap x) → slot_entry m x i (ent_addr m (at_addrmap x) i).
Proof.
  intros H Hop Hi. pose proof (as_table_inv _ _ _ _ _ _ H) as Hti. pose proof Hti as [Ha _]. pose proof (as_tab _ _ _ _ _ _ _ _ _ H) as [He Hd _].
  pose proof Ha as [Hpt _ _ _ _ [_ Hov] _ Hin]. destruct (da_page_of _ _ _ _ _ _ Ha Hi Hov) as [Hk0 Hk].
  assert (H0 : pe_page (pt_entry m (da_pt (at_addrmap x)) (i / da_pp (at_addrmap x))) ≠ 0) by (by apply Hin).
  destruct (table_entry_at m (at_addrmap x) AM_SIZE _ _ i Hti He ltac:(lia) H0) as (Hp & Hs & Hnz).
  assert (Hr : page_of (ent_addr m (at_addrmap x) i) ∈ a_refs m (at_addrmap x)) by (rewrite Hp; by eapply page_in_refs).
  split; [done|done|done|]. destruct (as_pages _ _ _ _ _ _ _ _ _ H _ Hr) as [[l Hl] _].
  exists (default zero_am (l !! (i mod da_pp (at_addrmap x)))).
  assert (E : am_at m (ent_addr m (at_addrmap x) i) = Some (default zero_am (l !! (i mod da_pp (at_addrmap x))))) by (unfold am_at, elem_at; by rewrite Hs, Hl).
  split; [done|]. by apply Hop.
Qed.
Lemma am_array_hit s x g N R ls i node :
  as_inv s x g N R ls → 0 ≤ i < da_nent (at_addrmap x) → home_node (pm_conf (kn_mem s)) (da_pid (at_addrmap x)) = Some node →
  am_array p (λ a, '(r, b, a') ← darray_get a i page_excl; mret ((r, b), a')) s = Ret (0, ent_addr (kn_mem s) (at_addrmap x) i) s.
Proof.
  intros [Hx _ _ _ H] Hi Hh. pose proof (as_table_inv _ _ _ _ _ _ H) as Hti. pose proof Hti as [Ha _]. pose proof (as_tab _ _ _ _ _ _ _ _ _ H) as [He Hd Hs].
  pose proof Ha as [_ _ _ _ _ [_ Hov] _ Hin]. destruct (da_page_of _ _ _ _ _ _ Ha Hi Hov) as [Hk0 Hk].
  apply wp_run_eq. eapply wpx_wp; [eapply (am_array_wpx s p _ _ False x Hx)|by intros []]. apply wp_wpx, wp_bind.
  eapply wp_eq; [eapply darray_get_hit; [exact Hti|exact Hi|exact Hh|by apply Hin|by apply Hs]|]. wp_pure. split; [done|].
  cbn [fst snd]. split; [done|]. replace (set_mem (kn_mem s) s) with s by by destruct s.
  replace (set_at_addrmap (at_addrmap x) x) with x by by destruct x. by apply with_at_id.
Qed.
Lemma am_array_end s x g N R ls i :
  as_inv s x g N R ls → da_nent (at_addrmap x) ≤ i →
  am_array p (λ a, '(r, b, a') ← darray_get a i page_excl; mret ((r, b), a')) s = Ret (- E_INVAL, 0) s.
Proof.
  intros [Hx _ _ _ H] Hi. pose proof (as_table_inv _ _ _ _ _ _ H) as Hti.
  apply wp_run_eq. eapply wpx_wp; [eapply (am_array_wpx s p _ _ False x Hx)|by intros []]. apply wp_wpx, wp_bind.
  eapply wp_eq; [eapply darray_get_end; [exact Hti|exact Hi]|]. wp_pure. split; [done|].
  cbn [fst snd]. split; [done|]. replace (set_mem (kn_mem s) s) with s by by destruct s.
  replace (set_at_addrmap (at_addrmap x) x) with x by by destruct x. by apply with_at_id.
Qed.

Lemma slot_open_grown m m' m2 x a' N R i :
  da_inv m (at_addrmap x) N R → da_esz (at_addrmap x) = AM_SIZE → grown_table m (at_addrmap x) m' a' N R → 0 ≤ i →
  (∀ n, pt_entry m2 (da_pt a') n = pt_entry m' (da_pt a') n) → (∀ e, am_at m2 e = am_at m' e) →
  slot_open m x i → slot_open m2 (set_at_addrmap a' x) i.
Proof.
  intros Hti He G Hi Hent Ham Hop. unfold slot_open, ent_addr. cbn [at_addrmap set_at_addrmap]. pose proof (gt_shape _ _ _ _ _ _ G) as (_ & -> & Ez & _).
  rewrite Hent, Ez. set (k := i / da_pp (at_addrmap x)). assert (Hk : 0 ≤ k) by (apply Z.div_pos; [lia|]; pose proof (da_pp_pos _ _ _ _ (proj1 Hti)); lia).
  intros H0 y. rewrite Ham. intros Hy.
  assert (Hti' : da_inv m' a' N R) by apply G.
  destruct (table_entry_at m' a' AM_SIZE N R i Hti') as (Hp' & _ & _); [congruence|done| |].
  { pose proof (gt_shape _ _ _ _ _ _ G) as (_ & -> & _ & _). by fold k. }
  unfold ent_addr in Hp'. pose proof (gt_shape _ _ _ _ _ _ G) as (_ & E & _ & _). rewrite E, Ez in Hp'. fold k in Hp'.
  destruct (decide (pe_page (pt_entry m (da_pt (at_addrmap x)) k) = 0)) as [Hz|Hnz].
  - destruct (gt_new _ _ _ _ _ _ G k Hk Hz) as [|(_ & Hc & _)]; [done|]. left.
    assert (y = zero_am) as ->; [|done]. eapply zero_am_at; [|exact Hy]. rewrite Hp'. by apply Hc.
  - destruct (gt_old _ _ _ _ _ _ G k Hk Hnz) as [Eo Hc]. apply (Hop Hnz). unfold ent_addr. fold k.
    rewrite Eo in Hy, Hp'. rewrite <- Hy. symmetry. apply am_at_ext. by rewrite Hp'.
Qed.
(** The array is grown and written back. *)
Lemma grow_wp s x g N R ls n node :
  as_inv s x g N R ls → 0 ≤ n → n + da_pp (at_addrmap x) - 1 < 2 ^ 64 → home_node (pm_conf (kn_mem s)) (da_pid (at_addrmap x)) = Some node →
  wp (am_array p (λ a, darray_grow_nent a n)) s (λ r s', ∃ a', let x' := set_at_addrmap a' x in
    as_inv s' x' g N R ls ∧ transparent (at_pgmap x) (kn_mem s) g (kn_mem s') g ∧ others (at_pgmap x) N R [] s s' ∧ da_pid a' = da_pid (at_addrmap x) ∧
    ((r = 0 ∧ n ≤ da_nent a' ∧ (∀ i, 0 ≤ i → slot_open (kn_mem s) x i → slot_open (kn_mem s') x' i) ∧
      takes (PAGE_COST * Z.to_nat (da_npages (at_addrmap x) n - da_npages (at_addrmap x) (da_nent (at_addrmap x)))) (kn_mem s) (kn_mem s')) ∨
     r = - E_NO_MEM ∨ r = - E_NO_SPACE)).
Proof.
  intros [Hx Hg Hu Hl H] Hn Hov Hh. pose proof (as_table_inv _ _ _ _ _ _ H) as Hti. pose proof (as_tab _ _ _ _ _ _ _ _ _ H) as [He Hd _].
  pose proof (as_objs _ _ _ _ _ _ _ _ _ H) as ((HpN & _) & (HgN & _) & Hps).
  eapply wpx_wp; [eapply (am_array_wpx s p _ _ False x Hx)|by intros []]. apply wp_wpx.
  eapply wp_mono; [eapply (keeps_wp same_marks); [typeclasses eauto|by eapply grow_table]|]. intros [r a'] m' [[G Hres] Hsm]. cbn [fst snd] in *.
  destruct (as_grown _ _ _ _ _ _ _ _ H G Hsm) as (Hm & Ht & Hpg). set (x' := set_at_addrmap a' x) in *.
  assert (Hp' : pm_page m' !! p = pm_page (kn_mem s) !! p) by (apply Hpg; by left). split; [done|].
  set (s1 := set_mem m' s). assert (Hx1 : obj_at s1 p = Some x) by (by apply obj_at_keep). pose proof Hx1 as (k & Hk & _)%obj_at_kobj.
  assert (Hg1 : obj_sg s1 sg = Some g) by (apply obj_sg_keep; [done|apply Hpg; by left]).
  destruct (as_mem_obj _ _ x' _ _ _ _ p (PgKobj (set_body (KAt x') k)) Hm ltac:(done) (or_introl eq_refl)) as (Hm2 & Ht2 & Hsa2).
  change m' with (kn_mem s1) in Hm2, Ht2, Hsa2. rewrite <- (with_body_mem s1 p (KAt x') k Hk) in Hm2, Ht2, Hsa2.
  exists a'. fold x'. split_and!.
  - split; [by eapply obj_at_with|by rewrite obj_sg_with_other|done| |done].
    eapply (lrep_ext s1); [| |].
    + eapply (lrep_pages s); [done|exact Hg1|done| |done]. intros e Hin. apply Hpg. right. right. right. right. by exists e.
    + by rewrite !(first_at_sg _ g); [|exact Hg1|rewrite obj_sg_with_other].
    + intros e _. unfold link_at. by rewrite with_body_am.
  - eapply transparent_trans; [exact Ht|exact Ht2].
  - eapply others_trans; [apply (others_mem _ N R [] s m'); [apply G|intros q [[Hq _]|Hq]; apply Hpg; [by left|by right; left]]|].
    eapply (others_with _ N R [] s1); [exact Hm|by left].
  - apply (gt_shape _ _ _ _ _ _ G).
  - destruct Hres as [(-> & Hle & Htk)|Hr]; [left|by right].
    split_and!; [done|done| |eapply takes_le; [eapply takes_trans; [exact Htk|apply takes_same; by rewrite (with_body_mem s1 p (KAt x') k Hk)]|lia]]. intros i Hi. eapply slot_open_grown; [exact Hti|exact He|exact G|done| |intros e; apply with_body_am].
    apply (Hsa2 a'). by right; left.
Qed.
(** The most pages entering slot [i] can take. *)
Definition slot_cost x (i : Z) : nat :=
  PAGE_COST * Z.to_nat (da_npages (at_addrmap x) (ROUNDUP (i + 1) N_ADDRMAP_PER_PAGE) - da_npages (at_addrmap x) (da_nent (at_addrmap x))).
Lemma at_get_addrmap_wp s x g N R ls i node :
  as_inv s x g N R ls → slot_open (kn_mem s) x i → 0 ≤ i < 2 ^ 63 → home_node (pm_conf (kn_mem s)) (da_pid (at_addrmap x)) = Some node →
  wp (at_get_addrmap p i) s (λ '(r, am) s', ∃ a', let x' := set_at_addrmap a' x in
    as_inv s' x' g N R ls ∧ transparent (at_pgmap x) (kn_mem s) g (kn_mem s') g ∧ others (at_pgmap x) N R [] s s' ∧
    ((r = 0 ∧ slot_entry (kn_mem s') x' i am ∧ takes (slot_cost x i) (kn_mem s) (kn_mem s')) ∨ r = - E_NO_MEM ∨ r = - E_NO_SPACE)).
Proof.
  intros H Hop Hi Hh. unfold at_get_addrmap. apply wp_bind. destruct (Z.lt_ge_cases i (da_nent (at_addrmap x))) as [Hlt|Hge].
  { eapply wp_eq; [eapply am_array_hit; [exact H|lia|exact Hh]|]. wp_pure. exists (at_addrmap x).
    replace (set_at_addrmap (at_addrmap x) x) with x by by destruct x. split_and!; [done|done|apply others_refl|].
    left. split; [done|]. split; [eapply slot_hit; [apply H|done|lia]|]. apply takes_refl. }
  eapply wp_eq; [eapply am_array_end; [exact H|exact Hge]|]. wp_pure. rewrite Z.eqb_refl. apply wp_bind.
  assert (Epp : da_pp (at_addrmap x) = N_ADDRMAP_PER_PAGE).
  { pose proof (as_table_inv _ _ _ _ _ _ (as_m _ _ _ _ _ _ _ _ _ H)) as [[_ _ E _ _ _ _ _] _].
    pose proof (as_tab _ _ _ _ _ _ _ _ _ (as_m _ _ _ _ _ _ _ _ _ H)) as [E' _ _]. by rewrite E, E'. }
  assert (Eu : u64 (i + 1) = i + 1) by (apply Z.mod_small; lia). rewrite Eu.
  destruct (ROUNDUP_exact (i + 1) N_ADDRMAP_PER_PAGE) as [_ Hr]; [unfold in_u64; lia|done|change N_ADDRMAP_PER_PAGE with 51; lia|].
  eapply wp_mono; [eapply grow_wp; [exact H| | |exact Hh]|].
  { lia. }
  { rewrite Epp. change N_ADDRMAP_PER_PAGE with 51 in *. lia. }
  intros r s' (a' & H' & Ht & Ho & Epid & Hres). cbn beta. destruct Hres as [(-> & Hle & Hop' & Htk)|Herr].
  - cbn [Z.ltb]. rewrite Z.ltb_irrefl. eapply wp_eq; [eapply am_array_hit; [exact H'|cbn; lia|]|].
    { rewrite (ot_conf _ _ _ _ _ _ Ho). cbn. by rewrite Epid. }
    exists a'. split_and!; [done|done|done|]. left. split; [done|]. split; [|exact Htk]. eapply slot_hit; [apply H'|apply Hop'; [lia|done]|cbn; lia].
  - rewrite (proj2 (Z.ltb_lt r 0)) by (destruct Herr as [-> | ->]; done). wp_pure. exists a'. by split_and!; [| | |right].
Qed.

(** ** Entering the mapping *)

Definition with_list (f : Z) g : Segment := set_sg_map_list (Aml f false) g.
(** What [enter_am] changes: the pages of the mappings and the segment. *)
Definition entry_page m x ls am (q : Z) : Prop := ∃ e, e ∈ am :: ls ∧ q = page_of e.
Lemma entry_page_ref m x g N R ls i am q : as_mem m x g N R ls → slot_entry m x i am → entry_page m x ls am q →
  q ∈ (arrays x g ≫= a_refs m) ++ R ∧ q ∉ a_refs m (sg_pages g).
Proof.
  intros H Hs (e & [->|He]%elem_of_cons & ->); eapply table_page_ref; try exact H.
  - right. left. apply (sl_page _ _ _ _ Hs).
  - right. right. by exists e.
Qed.
(** A table of user mappings is not a page of entries. *)
Lemma upage_not_elem m x g N R ls i am q : as_mem m x g N R ls → slot_entry m x i am → q ∈ a_refs m (at_uaddrmap x) → ¬ entry_page m x ls am q.
Proof.
  intros H Hs Hq (e & [->|He]%elem_of_cons & ->); destruct (as_upages _ _ _ _ _ _ _ _ _ H _ Hq) as ([u Hu] & Hna & _).
  - apply Hna, (sl_page _ _ _ _ Hs).
  - destruct (as_elems _ _ _ _ _ _ _ _ _ H e He) as ((y & Hy & Hk) & _). pose proof Hy as (j & l & _ & Hl & _)%am_at_inv.
    destruct (pm_page m !! page_of e) as [c|] eqn:Hp; [|discriminate]. cbn in Hu, Hl. destruct c; try discriminate. apply (zero_am_at m e y) in Hy; [|done].
    eapply as_seg_nonzero; [exact H|]. by rewrite <- Hk, Hy.
Qed.
Lemma am_strip m m' e y : set_am_link null_link <$> am_at m' e = set_am_link null_link <$> am_at m e → am_at m' e = Some y →
  ∃ y0, am_at m e = Some y0 ∧ am_lock y = am_lock y0 ∧ am_kobj y = am_kobj y0.
Proof. intros E Hy. rewrite Hy in E. symmetry in E. apply fmap_Some in E as (y0 & Hy0 & E). exists y0. destruct y, y0. by injection E. Qed.

Section entered.
Context s x g N R ls i am s' f cur uam l
  (H : as_inv s x g N R ls) (Hs : slot_entry (kn_mem s) x i am)
  (Hz : ∀ y, am_at (kn_mem s) am = Some y → am_kobj y = 0)
  (Hl' : lrep s' (HAml sg) (am :: ls)) (F : aml_frame sg (am :: ls) [am] s s') (Hg' : obj_sg s' sg = Some (with_list f g))
  (Hy' : am_at (kn_mem s') am = Some (am_for p sg cur uam l)).
Lemma entered_pages q : q ≠ sg → ¬ entry_page (kn_mem s) x ls am q → pm_page (kn_mem s') !! q = pm_page (kn_mem s) !! q.
Proof. intros Hq He. apply (af_page _ _ _ _ _ F); [done|]. intros e Hin ->. apply He. by exists e. Qed.
Lemma entered_space : space (kn_mem s') lvl (at_pgmap x) (arrays x g) N R ∧ map_same lvl (kn_mem s) (kn_mem s') (at_pgmap x) ∧ same_arrays (kn_mem s) (kn_mem s') (arrays x g).
Proof.
  destruct H as [Hx Hg Hu Hl Hm]. pose proof (as_objs _ _ _ _ _ _ _ _ _ Hm) as (_ & Hsg & _). rewrite (af_mem _ _ _ _ _ F).
  apply space_with_pages; [apply (as_space _ _ _ _ _ _ _ _ _ Hm)| |].
  - intros q. destruct (decide (q = sg)) as [->|Hne]; [by left; left|].
    destruct (decide (q ∈ page_of <$> am :: ls)) as [Hin|Hni].
    + left. right. eapply entry_page_ref; [exact Hm|exact Hs|]. apply list_elem_of_fmap in Hin as (e & -> & He). by exists e.
    + right. apply entered_pages; [done|]. intros (e & He & ->). by apply Hni, list_elem_of_fmap_2.
  - intros q Hq. destruct (decide (q = sg)) as [->|Hne].
    { apply obj_sg_kobj in Hg' as (k & Hk & _). apply kobj_at_Some in Hk. by rewrite Hk. }
    destruct (decide (q ∈ page_of <$> am :: ls)) as [Hin|Hni].
    + assert (Ha : is_Some (pm_page (kn_mem s) !! q ≫= as_ams)).
      { apply list_elem_of_fmap in Hin as (e & -> & [->|He]%elem_of_cons).
        - destruct (sl_am _ _ _ _ Hs) as (y & Hy & _). apply am_at_inv in Hy as (j & l' & _ & Hl1 & _). by rewrite Hl1.
        - destruct (as_elems _ _ _ _ _ _ _ _ _ Hm e He) as ((y & Hy & _) & _). apply am_at_inv in Hy as (j & l' & _ & Hl1 & _). by rewrite Hl1. }
      apply (af_ams _ _ _ _ _ F) in Ha as [? Ha]. by destruct (pm_page (kn_mem s') !! q).
    + rewrite entered_pages; [done|done|]. intros (e & He & ->). by apply Hni, list_elem_of_fmap_2.
Qed.
Lemma entered_mem : as_mem (kn_mem s') x (with_list f g) N R (am :: ls).
Proof.
  destruct entered_space as (Hsp & Hms & Hsa). destruct H as [Hx Hg Hu Hl Hm].
  destruct (Hsa (at_uaddrmap x)) as (_ & _ & Eu & Euu); [by left|]. destruct (Hsa (at_addrmap x)) as (_ & _ & Em & Emm); [by right; left|].
  destruct (Hsa (sg_pages g)) as (_ & _ & Eg & Egg); [by right; right; left|]. pose proof (as_objs _ _ _ _ _ _ _ _ _ Hm) as Ho.
  assert (Hnn : ∀ e, e ∈ ls → e ≠ am).
  { intros e He ->. destruct (as_elems _ _ _ _ _ _ _ _ _ Hm am He) as ((y & Hy & Hk) & _). eapply as_seg_nonzero; [exact Hm|]. rewrite <- Hk. by apply Hz. }
  pose proof Hm as [_ _ Hut Ht Hup Hpg Hop He Hcl Hnl].
  split; unfold arrays; cbn [sg_pages with_list set_sg_map_list]; rewrite ?Eu, ?Em, ?Eg; [exact Hsp|exact Ho| | | | | | | |].
  - destruct Hut as [H1 H2 H3]. split; [done|done|]. intros n Hn. rewrite Euu. by apply H3.
  - destruct Ht as [H1 H2 H3]. split; [done|done|]. intros n Hn. rewrite Emm. by apply H3.
  - intros q Hq. rewrite entered_pages; [by apply Hup| |by eapply upage_not_elem].
    intros ->. eapply as_ref_not_node; [exact Hm|eapply table_page_ref; [exact Hm|by left]|apply Ho].
  - intros q Hq. split; [|by apply Hpg]. by apply (af_ams _ _ _ _ _ F), Hpg.
  - intros e y Hq Hy. destruct (decide (e = am)) as [->|Hne].
    + rewrite Hy' in Hy. injection Hy as <-. split; [done|]. by left.
    + destruct (am_strip _ _ _ _ (af_am _ _ _ _ _ F e ltac:(by rewrite list_elem_of_singleton)) Hy) as (y0 & Hy0 & -> & ->). destruct (Hop e y0 Hq Hy0) as [? Hin].
      split; [done|]. intros Hk. right. by apply Hin.
  - intros e [->|Hin]%elem_of_cons.
    + split_and!; [by exists (am_for p sg cur uam l)|left; apply Hs|apply Hpg, Hs].
    + destruct (He e Hin) as ((y & Hy & Hk) & Hor & Hni). split_and!; [|done|done].
      pose proof (af_am _ _ _ _ _ F e ltac:(rewrite list_elem_of_singleton; by apply Hnn)) as E. symmetry in E.
      rewrite Hy in E. cbn in E. symmetry in E. apply fmap_Some in E as (y1 & Hy1 & E). exists y1. split; [done|]. rewrite <- Hk. destruct y, y1. by injection E.
  - intros k Hk. rewrite Egg, (af_mem _ _ _ _ _ F). by apply Hcl.
  - rewrite (af_mem _ _ _ _ _ F). exact Hnl.
Qed.
Lemma entered_inv : as_inv s' x (with_list f g) N R (am :: ls) ∧ transparent (at_pgmap x) (kn_mem s) g (kn_mem s') (with_list f g) ∧ others (at_pgmap x) N R (am :: ls) s s' ∧
  same_table x (kn_mem s) (kn_mem s') ∧ takes 0 (kn_mem s) (kn_mem s').
Proof.
  pose proof entered_mem as Hm'. destruct entered_space as (_ & Hms & Hsa). destruct H as [Hx Hg Hu Hl Hm].
  pose proof (as_objs _ _ _ _ _ _ _ _ _ Hm) as ((HpN & _) & _ & Hps).
  assert (HN : ∀ q, q ∈ N → q ≠ sg → pm_page (kn_mem s') !! q = pm_page (kn_mem s) !! q).
  { intros q Hq Hne. apply entered_pages; [done|]. intros He. eapply as_ref_not_node; [exact Hm|by eapply entry_page_ref|done]. }
  split_and!.
  - split; [|done|done|done|done]. rewrite <- Hx. unfold obj_at, kobj_at. by rewrite HN.
  - destruct (Hsa (sg_pages g)) as (_ & _ & _ & Egg); [by right; right; left|].
    split_and!; [intros va Hva; by apply map_same_walk| |by intros k Hk; cbn [sg_pages with_list set_sg_map_list]; rewrite Egg]. intros k Hk. cbn [sg_pages with_list set_sg_map_list].
    apply view_ext; [done|]. intros H0. pose proof (sg_page_ref _ _ _ _ _ _ _ Hm Hk H0) as Hr.
    apply entered_pages.
    + intros E. eapply as_ref_not_node; [exact Hm|by apply sg_ref_in|]. rewrite E. by apply (as_objs _ _ _ _ _ _ _ _ _ Hm).
    + intros He. by eapply entry_page_ref.
  - split; [apply F|by rewrite (af_mem _ _ _ _ _ F)| | |].
    + intros q Hq _. destruct (decide (q = sg)) as [->|Hne]; [|unfold kobj_at; by rewrite HN].
      apply obj_sg_kobj in Hg as (k & Hk & _). destruct (af_ko _ _ _ _ _ F k Hk) as [l1 Hk']. by rewrite Hk, Hk'.
    + intros q Hq _ _ Hne. by apply HN.
    + intros q Hq Hn. apply entered_pages.
      * intros ->. eapply as_ref_not_node; [exact Hm|apply elem_of_app; right; exact Hq|]. by apply (as_objs _ _ _ _ _ _ _ _ _ Hm).
      * intros (e & He & ->). by apply Hn, list_elem_of_fmap_2.
  - eapply arrays_table; [exact Hsa|by right; left].
  - apply takes_same; by rewrite (af_mem _ _ _ _ _ F).
Qed.
End entered.

(** ** Getting a page of the segment *)

Definition seg_nodes m x N : list Z := tables m lvl (at_pgmap x) ++ ([at_uaddrmap x; at_addrmap x] ≫= a_nodes m) ++ N.
Definition seg_refs m x R : list Z := ([at_uaddrmap x; at_addrmap x] ≫= a_refs m) ++ R.
Lemma as_seg_inv m x g N R ls : as_mem m x g N R ls → da_inv m (sg_pages g) (seg_nodes m x N) (seg_refs m x R).
Proof. intros H. apply (space_da_inv lvl (at_pgmap x) m [at_uaddrmap x; at_addrmap x] (sg_pages g) []). apply (as_space _ _ _ _ _ _ _ _ _ H). Qed.
Lemma seg_ref m x R q : q ∈ a_refs m (at_uaddrmap x) ∨ q ∈ a_refs m (at_addrmap x) ∨ q ∈ R → q ∈ seg_refs m x R.
Proof. unfold seg_refs. cbn. rewrite app_nil_r, !elem_of_app. intros [Hq|[Hq|Hq]]; [left; by left|left; by right|by right]. Qed.
Lemma seg_refs_in m x g R q : q ∈ seg_refs m x R → q ∈ (arrays x g ≫= a_refs m) ++ R.
Proof.
  unfold seg_refs. rewrite !elem_of_app, !list_elem_of_bind. intros [(a & Hq & Ha)|]; [left|by right]. exists a. split; [done|].
  unfold arrays. apply elem_of_cons in Ha as [->|[->|[]%elem_of_nil]%elem_of_cons]; [by left|by right; left].
Qed.
Lemma table_seg_ref m x g N R ls q : as_mem m x g N R ls → table_page m x ls q → q ∈ seg_refs m x R.
Proof.
  intros H [Hq|[Hq|(e & He & ->)]]; apply seg_ref; [by left|by right; left|]. right. by apply (as_elems _ _ _ _ _ _ _ _ _ H e He).
Qed.

Lemma map_same_trans m m1 m2 pm : map_same lvl m m1 pm → map_same lvl m1 m2 pm → map_same lvl m m2 pm.
Proof. intros (E1 & _ & W1) (E2 & O2 & W2). split_and!; [congruence|done|]. intros va Hva Hl. by rewrite W2, W1. Qed.

(** The array has got page [n], which may be new; a new page is cleared. *)
Section got.
Context m x g N R ls m' (a' : darray) m2 (n : Z) (H : as_mem m x g N R ls) (Hn : 0 ≤ n).
Local Abbreviation ent := (pt_entry m (da_pt (sg_pages g))).
Local Abbreviation ent' := (pt_entry m' (da_pt a')).
Local Abbreviation old := (pe_page (ent n)).
Local Abbreviation new := (pe_page (ent' n)).
Context (Hinv : da_inv m' a' (seg_nodes m x N) (seg_refs m x R)) (Hsh : same_shape (sg_pages g) a') (Hsm : same_marks m m')
  (Hent : ∀ k, 0 ≤ k → k ≠ n → ent' k = ent k) (Hkeep : old ≠ 0 → new ≠ 0)
  (Hseen : ∀ k, 0 ≤ k → k ≠ n ∨ old ≠ 0 → seen m' (da_pt a') k = seen m (da_pt (sg_pages g)) k)
  (Hoth : ∀ q, q ∈ seg_nodes m x N ∨ q ∈ seg_refs m x R → pm_page m' !! q = pm_page m !! q)
  (Hnew : new = old ∨ new ∉ seg_nodes m x N ++ seg_refs m x R)
  (Hcl1 : old = 0 → new ≠ 0 → clear_bit m' new = false) (Hcl2 : old ≠ 0 → clear_bit m old = true → clear_bit m' new = true)
  (Hcl3 : ∀ k, 0 ≤ k → k ≠ n → pe_page (ent k) ≠ 0 → clear_bit m' (pe_page (ent k)) = clear_bit m (pe_page (ent k))).
Context (Hpg2 : ∀ q, q ≠ sg → ¬ (old = 0 ∧ new ≠ 0 ∧ q = new) → pm_page m2 !! q = pm_page m' !! q)
  (Hz2 : old = 0 → new ≠ 0 → pm_page m2 !! new = Some PgZero ∧ clear_bit m2 new = true)
  (Hb2 : ∀ q, clear_bit m' q = true → clear_bit m2 q = true)
  (Hr2 : ∀ N R, refs_inv m' N R → refs_inv m2 N R) (Hs2 : same_marks m' m2).
Local Abbreviation g' := (set_sg_pages a' g).

Lemma got_refs q : q ∈ a_refs m' a' → q ∈ a_refs m (sg_pages g) ∨ q = new ∧ old = 0 ∧ new ≠ 0 ∨ q = new ∧ q ∉ seg_nodes m x N ++ seg_refs m x R.
Proof.
  intros Hq. destruct Hinv as [[Hpt' _ _ _ _ _ _ _] _]. apply refs_entry in Hq as (k & Hk & <- & H0); [|apply Hpt'].
  destruct (decide (k = n)) as [->|Hne].
  - destruct Hnew as [E|Hno]; [|by right; right]. left. rewrite E in H0 |- *. eapply sg_page_ref; [exact H|done|done].
  - left. rewrite Hent in H0 |- * by done. eapply sg_page_ref; [exact H|done|done].
Qed.
Lemma got_apart q : q ∈ seg_refs m x R → q ∉ a_refs m (sg_pages g) → q ∉ a_refs m' a'.
Proof.
  intros Hq Hni Hin. apply got_refs in Hin as [|[(-> & Hz & Hnz)|(_ & Hno)]]; [done| |apply Hno, elem_of_app; by right].
  destruct Hnew as [E|Hno]; [by rewrite E in Hnz|]. apply Hno, elem_of_app. by right.
Qed.
Lemma got_page q : q ∈ seg_refs m x R → pm_page m2 !! q = pm_page m !! q.
Proof.
  intros Hq. rewrite Hpg2; [apply Hoth; by right| |].
  - intros ->. eapply as_ref_not_node; [exact H| |apply (as_objs _ _ _ _ _ _ _ _ _ H)]. by apply seg_refs_in.
  - intros (Hz & Hnz & ->). destruct Hnew as [E|Hno]; [by rewrite E in Hnz|]. apply Hno, elem_of_app. by right.
Qed.
Lemma got_space : space m2 lvl (at_pgmap x) (arrays x g') N R ∧ map_same lvl m m2 (at_pgmap x) ∧
  same_arrays m m2 [at_uaddrmap x; at_addrmap x] ∧ same_array m' m2 a'.
Proof.
  destruct (space_array lvl (at_pgmap x) m m' [at_uaddrmap x; at_addrmap x] (sg_pages g) a' [] N R (as_space _ _ _ _ _ _ _ _ _ H) Hinv Hsm Hoth) as (Hsp & Hms & Hsa).
  cbn [app] in Hsp, Hsa.
  destruct (space_pages lvl (at_pgmap x) m' m2 [at_uaddrmap x; at_addrmap x; a'] N R Hsp) as (Hsp2 & Hms2 & Hsa2); [|by apply Hr2, Hsp|done|].
  { intros q. destruct (decide (q = sg)) as [->|Hne]; [left; left; apply (as_objs _ _ _ _ _ _ _ _ _ H)|].
    destruct (decide (old = 0 ∧ new ≠ 0 ∧ q = new)) as [(_ & Hnz & ->)|]; [|right; by apply Hpg2].
    left. right. apply elem_of_app. left. apply list_elem_of_bind. exists a'. split; [|by right; right; left].
    eapply page_in_refs; [apply Hinv|done|done]. }
  split_and!; [done|by eapply map_same_trans| |apply Hsa2; by right; right; left].
  intros a Ha. destruct (Hsa a Ha) as (_ & E1 & E2 & E3). destruct (Hsa2 a) as (Hw & E1' & E2' & E3').
  { apply elem_of_cons in Ha as [->|[->|[]%elem_of_nil]%elem_of_cons]; [by left|by right; left]. }
  split_and!; [done|congruence|congruence|]. intros k. by rewrite E3', E3.
Qed.
Lemma got_clean : pages_clear m2 a'.
Proof.
  destruct got_space as (_ & _ & _ & (_ & _ & _ & E)). intros k Hk. rewrite E. intros H0. destruct (decide (k = n)) as [->|Hne].
  - destruct (decide (old = 0)) as [Hz|Hnz]; [by apply Hz2|]. by apply Hb2, Hcl2, (as_clean _ _ _ _ _ _ _ _ _ H).
  - rewrite Hent in H0 |- * by done. apply Hb2. rewrite Hcl3 by done. by apply (as_clean _ _ _ _ _ _ _ _ _ H).
Qed.
Lemma got_mem : as_mem m2 x g' N R ls.
Proof.
  destruct got_space as (Hsp & _ & Hsa & (_ & _ & Ea & _)). destruct (Hsa (at_uaddrmap x)) as (_ & _ & Eu & Euu); [by left|].
  destruct (Hsa (at_addrmap x)) as (_ & _ & Em & Emm); [by right; left|]. pose proof H as [_ Ho Hut Ht Hu Hm Hop He _ Hnl].
  assert (Hna : ∀ q, table_page m x ls q → q ∉ a_refs m2 a').
  { intros q Hq. rewrite Ea. apply got_apart; [by eapply table_seg_ref|]. by eapply table_page_ref. }
  assert (Hpg : ∀ q, table_page m x ls q → pm_page m2 !! q = pm_page m !! q) by (intros q Hq; by eapply got_page, table_seg_ref).
  split; cbn [sg_pages set_sg_pages]; rewrite ?Eu, ?Em; [exact Hsp|exact Ho| | | | | | |exact got_clean|].
  - destruct Hut as [H1 H2 H3]. split; [done|done|]. intros k Hk. rewrite Euu. by apply H3.
  - destruct Ht as [H1 H2 H3]. split; [done|done|]. intros k Hk. rewrite Emm. by apply H3.
  - intros q Hq. rewrite Hpg by (by left). split_and!; [by apply Hu|by apply Hu|]. apply Hna. by left.
  - intros q Hq. rewrite Hpg by (by right; left). split; [by apply Hm|]. apply Hna. by right; left.
  - intros e y Hq. rewrite (am_at_ext m) by (by apply Hpg; right; left). by apply Hop.
  - intros e Hin. assert (Htp : table_page m x ls (page_of e)) by (right; right; by exists e).
    rewrite (am_at_ext m) by (by apply Hpg). split_and!; [by apply He|by apply He|by apply Hna].
  - eapply no_clear_lock_marks; [exact Hs2|]. by eapply no_clear_lock_marks.
Qed.
Lemma got_transparent : transparent (at_pgmap x) m g m2 g'.
Proof.
  destruct got_space as (Hsp & Hms & Hsa & (_ & _ & _ & E)). split_and!; [intros va Hva; by apply map_same_walk| |].
  2: { intros k Hk. cbn [sg_pages set_sg_pages]. rewrite E. destruct (decide (k = n)) as [->|Hne]; [|by rewrite Hent].
       intros Hz. destruct (decide (old = 0)) as [|Hnz]; [done|]. by apply Hkeep in Hnz. }
  intros k Hk. unfold view. cbn [sg_pages set_sg_pages]. rewrite E.
  assert (Hsg : ∀ q, q ∈ a_refs m' a' → q ≠ sg).
  { intros q Hq ->. destruct Hinv as [[[Hrf _ _] _ _ _ _ _ _ _] _]. eapply (refs_disjoint _ _ _ _ Hrf); [|apply elem_of_app; left; exact Hq].
    rewrite elem_of_app. right. unfold seg_nodes. rewrite !elem_of_app. right. right. apply (as_objs _ _ _ _ _ _ _ _ _ H). }
  destruct (decide (k = n ∧ old = 0)) as [[-> Hz]|Hor].
  { rewrite Hz. cbn. destruct (Z.eqb_spec new 0) as [|Hnz]; [done|]. by apply Hz2. }
  assert (Hs : k ≠ n ∨ old ≠ 0) by (destruct (decide (k = n)) as [->|]; [right; intros Hz; by apply Hor|by left]).
  pose proof (Hseen k Hk Hs) as Es. unfold seen in Es.
  assert (Hz : pe_page (ent' k) = 0 ↔ pe_page (ent k) = 0).
  { destruct (decide (k = n)) as [->|Hne]; [|by rewrite Hent]. destruct Hs as [|Hnz]; [done|]. split; [by intros ?%Hkeep|done]. }
  destruct (Z.eqb_spec (pe_page (ent' k)) 0) as [Hz'|Hnz'], (Z.eqb_spec (pe_page (ent k)) 0) as [Hz0|Hnz0]; [done|by apply Hz in Hz'|by apply Hz in Hz0|].
  rewrite <- Es. apply Hpg2.
  - apply Hsg. eapply page_in_refs; [apply Hinv|done|done].
  - intros (Hzo & Hnn & Ek). assert (Hkn : k ≠ n) by (intros ->; by apply Hor). pose proof (Hcl1 Hzo Hnn) as Hc.
    rewrite <- Ek, Hent, Hcl3 in Hc by done. by rewrite (as_clean _ _ _ _ _ _ _ _ _ H k) in Hc.
Qed.
Lemma got_node q : q ∈ N → q ≠ sg → pm_page m2 !! q = pm_page m !! q.
Proof.
  intros Hq Hne. assert (HqN : q ∈ seg_nodes m x N) by (unfold seg_nodes; rewrite !elem_of_app; by right; right). rewrite Hpg2; [apply Hoth; by left|done|].
  intros (Hz & Hnz & ->). destruct Hnew as [E|Hno]; [by rewrite E in Hnz|]. apply Hno, elem_of_app. by left.
Qed.
Lemma got_inv s s2 k : as_inv s x g N R ls → kn_mem s = m → kn_mem s2 = m2 → set_mem m s2 = s →
  kobj_at s sg = Some k → pm_page m2 !! sg = Some (PgKobj (set_body (KSg g') k)) →
  as_inv s2 x g' N R ls ∧ transparent (at_pgmap x) (kn_mem s) g (kn_mem s2) g' ∧ others (at_pgmap x) N R [] s s2 ∧ same_table x (kn_mem s) (kn_mem s2).
Proof.
  intros [Hx Hg Hu Hl _] E E2 Es Hk Hk2. pose proof (as_objs _ _ _ _ _ _ _ _ _ H) as ((HpN & _) & _ & Hps).
  assert (Hks : kobj_at s2 sg = Some (set_body (KSg g') k)) by (apply kobj_at_Some; by rewrite E2).
  assert (Hg2 : obj_sg s2 sg = Some g') by (unfold obj_sg; by rewrite Hks).
  rewrite E, E2. split_and!; [split; [|done|done| |rewrite E2; exact got_mem]|exact got_transparent|split|].
  8: { destruct got_space as (_ & _ & Hsa & _). eapply arrays_table; [exact Hsa|by right; left]. }
  - rewrite <- Hx. unfold obj_at, kobj_at. by rewrite E2, E, got_node.
  - eapply lrep_pages; [exact Hg|exact Hg2|done| |exact Hl]. intros e He. rewrite E2, E. eapply got_page, table_seg_ref; [exact H|].
    right. right. by exists e.
  - by rewrite E.
  - rewrite E, E2, (proj1 Hs2). apply Hsm.
  - intros q Hq _. destruct (decide (q = sg)) as [->|Hne]; [by rewrite Hks, Hk|]. unfold kobj_at. by rewrite E2, E, got_node.
  - intros q Hq _ _ Hne. by rewrite E2, E, got_node.
  - intros q Hq _. rewrite E2, E. apply got_page, seg_ref. tauto.
Qed.
End got.

(** The steps of [segment_get_page] and of clearing, as the lemmas above take them. *)
Record got_step m x g N R m' (a' : darray) (n : Z) : Prop := GotStep {
  gs_inv : da_inv m' a' (seg_nodes m x N) (seg_refs m x R);
  gs_marks : same_marks m m';
  gs_ent : ∀ k, 0 ≤ k → k ≠ n → pt_entry m' (da_pt a') k = pt_entry m (da_pt (sg_pages g)) k;
  gs_keep : pe_page (pt_entry m (da_pt (sg_pages g)) n) ≠ 0 → pe_page (pt_entry m' (da_pt a') n) ≠ 0;
  gs_seen : ∀ k, 0 ≤ k → k ≠ n ∨ pe_page (pt_entry m (da_pt (sg_pages g)) n) ≠ 0 → seen m' (da_pt a') k = seen m (da_pt (sg_pages g)) k;
  gs_oth : ∀ q, q ∈ seg_nodes m x N ∨ q ∈ seg_refs m x R → pm_page m' !! q = pm_page m !! q;
  gs_new : pe_page (pt_entry m' (da_pt a') n) = pe_page (pt_entry m (da_pt (sg_pages g)) n) ∨
           pe_page (pt_entry m' (da_pt a') n) ∉ seg_nodes m x N ++ seg_refs m x R;
  gs_dirty : pe_page (pt_entry m (da_pt (sg_pages g)) n) = 0 → pe_page (pt_entry m' (da_pt a') n) ≠ 0 →
             clear_bit m' (pe_page (pt_entry m' (da_pt a') n)) = false;
  gs_clean : pe_page (pt_entry m (da_pt (sg_pages g)) n) ≠ 0 → clear_bit m (pe_page (pt_entry m (da_pt (sg_pages g)) n)) = true →
             clear_bit m' (pe_page (pt_entry m' (da_pt a') n)) = true;
  gs_clear : ∀ k, 0 ≤ k → k ≠ n → pe_page (pt_entry m (da_pt (sg_pages g)) k) ≠ 0 →
             clear_bit m' (pe_page (pt_entry m (da_pt (sg_pages g)) k)) = clear_bit m (pe_page (pt_entry m (da_pt (sg_pages g)) k));
}.
Record got_clear (old new : Z) m' m2 : Prop := GotClear {
  gc_page : ∀ q, q ≠ sg → ¬ (old = 0 ∧ new ≠ 0 ∧ q = new) → pm_page m2 !! q = pm_page m' !! q;
  gc_zero : old = 0 → new ≠ 0 → pm_page m2 !! new = Some PgZero ∧ clear_bit m2 new = true;
  gc_mono : ∀ q, clear_bit m' q = true → clear_bit m2 q = true;
  gc_refs : ∀ N R, refs_inv m' N R → refs_inv m2 N R;
  gc_marks : same_marks m' m2;
}.
Lemma step_inv s x g N R ls m' a' n s2 k :
  as_inv s x g N R ls → 0 ≤ n → got_step (kn_mem s) x g N R m' a' n →
  got_clear (pe_page (pt_entry (kn_mem s) (da_pt (sg_pages g)) n)) (pe_page (pt_entry m' (da_pt a') n)) m' (kn_mem s2) →
  set_mem (kn_mem s) s2 = s → kobj_at s sg = Some k → pm_page (kn_mem s2) !! sg = Some (PgKobj (set_body (KSg (set_sg_pages a' g)) k)) →
  let g' := set_sg_pages a' g in
  (as_inv s2 x g' N R ls ∧ transparent (at_pgmap x) (kn_mem s) g (kn_mem s2) g' ∧ others (at_pgmap x) N R [] s s2 ∧ same_table x (kn_mem s) (kn_mem s2)) ∧
  pe_page (pt_entry (kn_mem s2) (da_pt a') n) = pe_page (pt_entry m' (da_pt a') n).
Proof.
  intros Hs Hn [G1 G2 G3 G4 G5 G6 G7 G8 G9 G10] [C1 C2 C3 C4 C5] Es Hk Hsg g'. pose proof (as_m _ _ _ _ _ _ _ _ _ Hs) as H. split.
  - exact (got_inv _ x g N R ls m' a' _ n H Hn G1 G2 G3 G4 G5 G6 G7 G8 G9 G10 C1 C2 C3 C4 C5 s s2 k Hs eq_refl eq_refl Es Hk Hsg).
  - destruct (got_space _ x g N R ls m' a' (kn_mem s2) n H Hn G1 G2 G6 C1 C4 C5) as (_ & _ & _ & (_ & _ & _ & ->)). done.
Qed.
(** What [darray_get] does is such a step, of the right page or of no page. *)
Lemma pp_one m a N R : da_inv m a N R → da_esz a = PGSIZE → da_pp a = 1.
Proof. intros [Ha _] He. by rewrite (do_pp _ _ _ _ Ha), He. Qed.
Lemma get_step m x g N R ls n r b a' m' :
  as_mem m x g N R ls → da_esz (sg_pages g) = PGSIZE → 0 ≤ n → same_marks m m' →
  get_post m (sg_pages g) n (seg_nodes m x N) (seg_refs m x R) (r, b, a') m' →
  got_step m x g N R m' a' n ∧ same_shape (sg_pages g) a' ∧ da_nent a' = da_nent (sg_pages g) ∧
  ((r = 0 ∧ n < da_nent (sg_pages g) ∧ pe_page (pt_entry m' (da_pt a') n) ≠ 0 ∧ b = pe_page (pt_entry m' (da_pt a') n)) ∨
   ((r = - E_INVAL ∧ da_nent (sg_pages g) ≤ n ∨ r = - E_NO_MEM ∨ r = - E_NO_SPACE) ∧
    pe_page (pt_entry m' (da_pt a') n) = pe_page (pt_entry m (da_pt (sg_pages g)) n))).
Proof.
  intros H He Hn Hsm (Hinv & Hsh & Hne & Hpost). pose proof (as_seg_inv _ _ _ _ _ _ H) as Hi. pose proof (pp_one _ _ _ _ Hi He) as Epp.
  rewrite Epp, Z.div_1_r in Hpost. destruct Hpost as [(Hge & -> & -> & ->)|[(Hlt & Hr & Hu)|(Hlt & -> & Hnz & -> & Hent & Hseen & Hoth & (Hc1 & Hc2 & Hc3) & Hnew)]].
  - split_and!; [|done|done|right; split; [by left|done]]. split; try done. by left.
  - assert (Hk : ∀ k, 0 ≤ k → pt_entry m' (da_pt a') k = pt_entry m (da_pt (sg_pages g)) k) by (intros k Hk; apply (kp_low _ _ _ _ _ _ _ (Hu (k + 1))); lia).
    assert (Hb : ∀ k, 0 ≤ k → pe_page (pt_entry m (da_pt (sg_pages g)) k) ≠ 0 → clear_bit m' (pe_page (pt_entry m (da_pt (sg_pages g)) k)) = clear_bit m (pe_page (pt_entry m (da_pt (sg_pages g)) k))).
    { intros k Hk0 H0. apply (kp_clear _ _ _ _ _ _ _ (Hu (k + 1))). right. right. exists k. split_and!; [lia|lia|done|done]. }
    split_and!; [|done|done|right; split; [destruct Hr as [->|[-> _]]; right; [by left|by right]|by rewrite Hk]].
    split; rewrite ?(Hk n Hn); try done.
    + intros k Hk0 _. by apply Hk.
    + intros k Hk0 _. eapply kept_seen; [apply (Hu (k + 1))|lia].
    + apply (Hu 0).
    + by left.
    + intros H0 Hc. by rewrite Hb.
    + intros k Hk0 _. by apply Hb.
  - split_and!; [by split; try done; intros; apply Hc1|done|done|]. left. split_and!; [done|done|done|].
    unfold ent_addr. destruct Hsh as (_ & -> & _). rewrite Epp, Z.div_1_r, Z.mod_1_r. lia.
Qed.
(** Nothing to clear. *)
Lemma clear_none old new m' c : is_Some (pm_page m' !! sg) → old ≠ 0 ∨ new = 0 → got_clear old new m' (set_page sg c m').
Proof.
  intros Hp Hor. split.
  - intros q Hq _. cbn. by rewrite lookup_insert_ne.
  - intros Hz Hnz. by destruct Hor.
  - done.
  - intros. by apply refs_set_page.
  - apply same_marks_page.
Qed.
(** A new page. *)
Lemma clear_new pn i m' c N R : is_Some (pm_page m' !! sg) → page_addr pn ≠ sg → refs_inv m' N R → page_addr pn ∈ R →
  page_at m' pn (page_addr pn) → pm_info m' !! pn = Some i → pi_freepage i = false →
  got_clear 0 (page_addr pn) m' (zeroed pn i (set_page sg c m')).
Proof.
  intros Hp Hne Hrf Hin Hat Hi Hf. assert (Hpp : is_Some (pm_page (set_page sg c m') !! page_addr pn)).
  { cbn. rewrite lookup_insert_ne by done. by eapply refs_ref_contents. }
  split.
  - intros q Hq Hor. cbn. rewrite lookup_insert_ne; [by rewrite lookup_insert_ne|]. intros <-. apply Hor. split_and!; [done| |done].
    eapply live_nonzero; [apply Hrf|]. by exists pn, i.
  - intros _ _. split; [cbn; apply lookup_insert_eq|]. apply zeroed_clear; [done|by right].
  - intros q Hq. apply zeroed_clear; [done|by left].
  - intros. apply zeroed_refs; try done. by apply refs_set_page.
  - etrans; [apply (same_marks_page _ sg c)|]. etrans; [apply (same_marks_page _ (page_addr pn) PgZero)|]. by eapply same_marks_info.
Qed.
(** The segment written back. *)
Lemma back_mem s m' g' k : kobj_at s sg = Some k → pm_page m' !! sg = pm_page (kn_mem s) !! sg →
  kn_mem (with_body sg (KSg g') (set_mem m' s)) = set_page sg (PgKobj (set_body (KSg g') k)) m' ∧
  ∀ m2, set_mem (kn_mem s) (set_mem m2 (with_body sg (KSg g') (set_mem m' s))) = s.
Proof.
  intros Hk Hp. assert (Hk' : kobj_at (set_mem m' s) sg = Some k) by (unfold kobj_at in *; cbn; by rewrite Hp).
  split; [by rewrite (with_body_mem _ _ _ k Hk')|]. intros m2. unfold with_body. rewrite Hk'. by destruct s.
Qed.
Definition got_post s x g N R ls (n : Z) (res : Z * Z) s' : Prop :=
  let '(r, pp) := res in
  ∃ a', let g' := set_sg_pages a' g in
    same_shape (sg_pages g) a' ∧ da_nent a' = da_nent (sg_pages g) ∧
    (((r = - E_INVAL ∧ da_nent (sg_pages g) ≤ n ∨ r = - E_NO_MEM ∨ r = - E_NO_SPACE) ∧
        as_inv s' x g' N R ls ∧ transparent (at_pgmap x) (kn_mem s) g (kn_mem s') g' ∧ others (at_pgmap x) N R [] s s') ∨
     (r = 0 ∧ n < da_nent (sg_pages g) ∧ pp ≠ 0 ∧ ∃ m2, clear_once pp (kn_mem s') = Ret tt m2 ∧
        let s2 := set_mem m2 s' in
        (as_inv s2 x g' N R ls ∧ transparent (at_pgmap x) (kn_mem s) g m2 g' ∧ others (at_pgmap x) N R [] s s2 ∧ same_table x (kn_mem s) m2) ∧ pe_page (pt_entry m2 (da_pt a') n) = pp)).
Lemma step_found s x g N R ls m' a' n k :
  as_inv s x g N R ls → 0 ≤ n → kobj_at s sg = Some k → got_step (kn_mem s) x g N R m' a' n →
  pe_page (pt_entry m' (da_pt a') n) ≠ 0 →
  let s1 := with_body sg (KSg (set_sg_pages a' g)) (set_mem m' s) in
  ∃ m2, clear_once (pe_page (pt_entry m' (da_pt a') n)) (kn_mem s1) = Ret tt m2 ∧ pm_page m2 !! sg = Some (PgKobj (set_body (KSg (set_sg_pages a' g)) k)) ∧
    got_clear (pe_page (pt_entry (kn_mem s) (da_pt (sg_pages g)) n)) (pe_page (pt_entry m' (da_pt a') n)) m' m2.
Proof.
  intros Hs Hn Hk G Hnz s1. pose proof (as_m _ _ _ _ _ _ _ _ _ Hs) as H. pose proof (as_objs _ _ _ _ _ _ _ _ _ H) as (_ & (HsN & _) & _).
  assert (HsN' : sg ∈ seg_nodes (kn_mem s) x N) by (unfold seg_nodes; rewrite !elem_of_app; by right; right).
  destruct (back_mem s m' (set_sg_pages a' g) k Hk (gs_oth _ _ _ _ _ _ _ _ G sg (or_introl HsN'))) as [Em _]. fold s1 in Em. rewrite Em.
  pose proof (gs_inv _ _ _ _ _ _ _ _ G) as [[Hpt _ _ _ _ _ _ _] _]. pose proof Hpt as [Hrf _ _].
  assert (HnR : pe_page (pt_entry m' (da_pt a') n) ∈ pt_refs m' (da_pt a') ++ seg_refs (kn_mem s) x R) by (apply elem_of_app; left; by eapply page_in_refs).
  assert (HsI : sg ∈ pt_nodes m' (da_pt a') ++ seg_nodes (kn_mem s) x N) by (apply elem_of_app; by right).
  assert (Hsne : pe_page (pt_entry m' (da_pt a') n) ≠ sg) by (intros E; eapply (refs_disjoint _ _ _ _ Hrf HsI); by rewrite <- E).
  assert (Hpg : is_Some (pm_page m' !! sg)) by (by eapply refs_node_contents).
  destruct (page_live_addr _ _ (ri_live _ _ _ Hrf _ HnR)) as (pn & i & Epn & Hat & Hi & Hf). rewrite Epn in *.
  set (c := PgKobj _) in *. assert (Hrf1 := refs_set_page _ _ _ sg c Hrf Hpg).
  destruct (decide (pe_page (pt_entry (kn_mem s) (da_pt (sg_pages g)) n) = 0)) as [Hz|Hnz0].
  - pose proof (gs_dirty _ _ _ _ _ _ _ _ G Hz) as Hd. rewrite Epn in Hd. specialize (Hd Hnz). rewrite (clear_bit_at _ _ _ Hi) in Hd.
    exists (zeroed pn i (set_page sg c m')). split_and!.
    + eapply clear_once_new; [exact Hrf1|done|done|done| |].
      * eapply no_clear_lock_marks; [apply G|apply H|exact Hi].
      * cbn. rewrite lookup_insert_ne by done. by eapply refs_ref_contents.
    + cbn. by rewrite lookup_insert_ne, lookup_insert_eq by done.
    + rewrite Hz. by eapply clear_new.
  - pose proof (gs_clean _ _ _ _ _ _ _ _ G Hnz0 (as_clean _ _ _ _ _ _ _ _ _ H n Hn Hnz0)) as Hc. rewrite Epn, (clear_bit_at _ _ _ Hi) in Hc.
    exists (set_page sg c m'). split_and!; [by eapply clear_once_done|cbn; apply lookup_insert_eq|]. apply clear_none; [done|by left].
Qed.
Lemma segment_get_page_wpx s x g N R ls n mode node :
  as_inv s x g N R ls → da_esz (sg_pages g) = PGSIZE → 0 ≤ n → home_node (pm_conf (kn_mem s)) (da_pid (sg_pages g)) = Some node → mode ≠ page_excl →
  wpx (segment_get_page sg n mode) s (got_post s x g N R ls n)
    (n < da_nent (sg_pages g) ∧ da_demand (sg_pages g) = true ∧ pe_page (pt_entry (kn_mem s) (da_pt (sg_pages g)) n) = 0 ∧ few_free MAX_NODES (kn_mem s)).
Proof.
  intros Hs He Hn Hh Hmode. pose proof Hs as [_ Hg _ _ H]. pose proof Hg as (k & Hk & _)%obj_sg_kobj. pose proof (as_seg_inv _ _ _ _ _ _ H) as Hi.
  pose proof (pp_one _ _ _ _ Hi He) as Epp. pose proof (as_objs _ _ _ _ _ _ _ _ _ H) as (_ & (HsN & _) & _).
  assert (HsN' : sg ∈ seg_nodes (kn_mem s) x N) by (unfold seg_nodes; rewrite !elem_of_app; by right; right).
  unfold segment_get_page. eapply (sg_array_wpx s sg _ _ _ g Hg). apply wpx_bind.
  eapply wpx_mono; [eapply (keeps_wpx same_marks); [typeclasses eauto|eapply darray_get_wpx; [exact Hi|done|exact Hh|done]]| |].
  2: { rewrite Epp, Z.div_1_r. by intros (? & ? & ? & ?). }
  intros [[r b] a'] m' [Hpost Hsm]. apply wp_wpx. wp_pure. cbn [fst snd].
  destruct (get_step _ _ _ _ _ _ _ _ _ _ _ H He Hn Hsm Hpost) as (G & Hsh & Hne & Hres).
  assert (Hsg : pm_page m' !! sg = pm_page (kn_mem s) !! sg) by (apply (gs_oth _ _ _ _ _ _ _ _ G); by left). split; [done|].
  destruct (back_mem s m' (set_sg_pages a' g) k Hk Hsg) as [Em Erest]. exists a'. split_and!; [done|done|]. destruct Hres as [(-> & Hlt & Hnz & ->)|[Herr Hold]].
  - right. split_and!; [done|done|done|]. destruct (step_found _ _ _ _ _ _ _ _ _ _ Hs Hn Hk G Hnz) as (m2 & Hco & Hk2 & Hc). exists m2. split; [exact Hco|].
    by eapply (step_inv s x g N R ls m' a' n (set_mem m2 _) k).
  - left. split; [done|].
    assert (Hpg : is_Some (pm_page m' !! sg)) by (rewrite Hsg; apply kobj_at_Some in Hk; by rewrite Hk).
    set (s1 := with_body _ _ _) in *.
    destruct (step_inv s x g N R ls m' a' n s1 k Hs Hn G) as ((H1 & H2 & H3 & _) & _); [|exact (Erest (kn_mem s1))|done|rewrite Em; cbn; apply lookup_insert_eq|by split_and!].
    rewrite Em. apply clear_none; [done|]. rewrite Hold. destruct (decide (pe_page (pt_entry (kn_mem s) (da_pt (sg_pages g)) n) = 0)); [by right|by left].
Qed.
(** ** Putting the page into the map *)

Lemma as_data_page m x g N R ls q : as_mem m x g N R ls → (q ∈ N ∧ q ≠ at_pgmap x) ∨ q ∈ (arrays x g ≫= a_refs m) ++ R →
  page_live m q ∧ q ≠ at_pgmap x ∧ q ∉ tables m lvl (at_pgmap x).
Proof.
  intros H Hq. pose proof (as_space _ _ _ _ _ _ _ _ _ H) as Hsp. destruct (space_apart _ _ _ _ _ _ _ Hsp Hq) as (Hne & Hni & _). split_and!; [|done|].
  - destruct Hq as [[Hq _]|Hq]; [by eapply space_live|]. by apply (ri_live _ _ _ (sp_refs _ _ _ _ _ _ Hsp)).
  - intros Hin. apply Hni, elem_of_app. by left.
Qed.
Lemma as_mapped m x g N R ls m' :
  as_mem m x g N R ls → pm_inv m' lvl (at_pgmap x) ((arrays x g ≫= a_nodes m) ++ N) ((arrays x g ≫= a_refs m) ++ R) →
  map_frame m m' lvl (at_pgmap x) → same_marks m m' → same_clear m m' →
  as_mem m' x g N R ls ∧ (∀ k, 0 ≤ k → view m' (sg_pages g) k = view m (sg_pages g) k) ∧
  same_arrays m m' (arrays x g) ∧
  (∀ q, (q ∈ N ∧ q ≠ at_pgmap x) ∨ q ∈ R ∨ table_page m x ls q → pm_page m' !! q = pm_page m !! q).
Proof.
  intros H Hv Hf Hs Hc. destruct (space_map _ _ _ _ _ _ _ (as_space _ _ _ _ _ _ _ _ _ H) Hv Hf Hs) as [Hsp Hsa].
  assert (Hpg : ∀ q, (q ∈ N ∧ q ≠ at_pgmap x) ∨ q ∈ (arrays x g ≫= a_refs m) ++ R → pm_page m' !! q = pm_page m !! q).
  { intros q Hq. destruct (as_data_page _ _ _ _ _ _ _ H Hq) as (Hl & Hne & Hni). by apply Hf. }
  assert (Hent : ∀ k, pt_entry m' (da_pt (sg_pages g)) k = pt_entry m (da_pt (sg_pages g)) k) by (apply Hsa; by right; right; left).
  split_and!; [|intros k Hk; apply view_ext; [done|]|done|].
  - eapply as_mem_ext; [exact H|done|exact Hsp|exact Hsa| | |by eapply no_clear_lock_marks, H].
    + intros q Hq. apply Hpg. right. by eapply table_page_ref.
    + intros k Hk. rewrite Hent, Hc. by apply (as_clean _ _ _ _ _ _ _ _ _ H).
  - intros H0. apply Hpg. right. by eapply sg_ref_in, sg_page_ref.
  - intros q [Hq|[Hq|Hq]]; apply Hpg; [by left|right; apply elem_of_app; by right|right; by eapply table_page_ref].
Qed.
Lemma as_mapped_inv s x g N R ls m' :
  as_inv s x g N R ls → as_mem m' x g N R ls → pm_conf m' = pm_conf (kn_mem s) →
  (∀ q, (q ∈ N ∧ q ≠ at_pgmap x) ∨ q ∈ R ∨ table_page (kn_mem s) x ls q → pm_page m' !! q = pm_page (kn_mem s) !! q) →
  as_inv (set_mem m' s) x g N R ls ∧ others (at_pgmap x) N R [] s (set_mem m' s).
Proof.
  intros [Hx Hg Hu Hl H] H' Hc Hpg. pose proof (as_objs _ _ _ _ _ _ _ _ _ H) as (HpN & HsN & _).
  assert (Hg' : obj_sg (set_mem m' s) sg = Some g) by (apply obj_sg_keep; [done|apply Hpg; by left]). split; [split|].
  - apply obj_at_keep; [done|apply Hpg; by left].
  - done.
  - done.
  - eapply lrep_pages; [exact Hg|exact Hg'|done| |done]. intros e He. apply Hpg. right. right. right. right. by exists e.
  - done.
  - apply others_mem; [done|]. intros q [Hq|Hq]; apply Hpg; [by left|by right; left].
Qed.
(** What the user sees after the page has been mapped. *)
Definition mapped m x g m' (flags va pp r : Z) : Prop :=
  (∀ k, 0 ≤ k → view m' (sg_pages g) k = view m (sg_pages g) k) ∧ same_arrays m m' (arrays x g) ∧
  ((r = 0 ∧ ∃ e, sub e = pp ∧ bit e PTE_P = true ∧ bit e PTE_U = true ∧
      bit e PTE_W = bit flags SEGMAP_WRITE ∧ bit e PTE_NX = negb (bit flags SEGMAP_EXEC) ∧
      ∀ va', in_space lvl va' → pm_walk m' lvl (at_pgmap x) va' = if va' / PGSIZE =? va / PGSIZE then inl e else pm_walk m lvl (at_pgmap x) va') ∨
   (r = - E_NO_MEM ∧ ∀ va', in_space lvl va' → pm_walk m' lvl (at_pgmap x) va' = pm_walk m lvl (at_pgmap x) va')).
Lemma putpage_wp s x g N R ls va pp flags pid node :
  as_inv s x g N R ls → in_space lvl va → page_live (kn_mem s) pp → (∃ e, pm_walk (kn_mem s) lvl (at_pgmap x) va = inl e) →
  home_node (pm_conf (kn_mem s)) pid = Some node →
  wp (on_kmem (as_arch_putpage (at_pgmap x) va pp flags pid)) s (λ r s',
    as_inv s' x g N R ls ∧ others (at_pgmap x) N R [] s s' ∧ mapped (kn_mem s) x g (kn_mem s') flags va pp r).
Proof.
  intros Hs Hva Hlive Hopen Hh. pose proof (as_m _ _ _ _ _ _ _ _ _ Hs) as H. pose proof (as_space _ _ _ _ _ _ _ _ _ H) as Hsp.
  destruct (page_live_addr _ _ Hlive) as (pn & i & -> & [_ Hpn] & _). apply wp_zoom.
  eapply wp_mono; [eapply (keeps_wp same_clear); [typeclasses eauto|eapply (keeps_wp same_marks); [typeclasses eauto|]]|].
  { eapply as_arch_putpage_wp; [by eapply space_pm_inv|apply Hsp|done|done|done|exact Hh]. }
  intros r m' [[(Hv & Hf & Hres) Hsm] Hsc]. destruct (as_mapped _ _ _ _ _ _ _ H Hv Hf Hsm Hsc) as (H' & Hvw & Hsa & Hpg).
  destruct (as_mapped_inv s x g N R ls m' Hs H' (proj1 Hsm) Hpg) as [Hs' Ho]. by split_and!.
Qed.
Lemma same_arrays_trans m m1 m2 As : same_arrays m m1 As → same_arrays m1 m2 As → same_arrays m m2 As.
Proof.
  intros H1 H2 a Ha. destruct (H1 a Ha) as (_ & E1 & E2 & E3), (H2 a Ha) as (Hw & F1 & F2 & F3).
  split_and!; [done|congruence|congruence|]. intros k. by rewrite F3, E3.
Qed.
(** Around the lock of the page map. *)
Lemma mapped_trans m x g m1 m2 m3 flags va pp r : in_space lvl va →
  transparent (at_pgmap x) m g m1 g → same_arrays m m1 (arrays x g) → mapped m1 x g m2 flags va pp r →
  transparent (at_pgmap x) m2 g m3 g → same_arrays m2 m3 (arrays x g) → mapped m x g m3 flags va pp r.
Proof.
  intros Hva (W1 & V1 & _) A1 (V2 & A2 & Hor) (W3 & V3 & _) A3. split_and!; [intros k Hk; by rewrite V3, V2, V1|by eapply same_arrays_trans, same_arrays_trans|].
  destruct Hor as [(-> & e & H1 & H2 & H3 & H4 & H5 & Hw)|(-> & Hw)]; [left|right]; split; try done.
  - exists e. split_and!; try done. intros va' Hva'. rewrite W3, Hw by done. case_match; [done|by apply W1].
  - intros va' Hva'. by rewrite W3, Hw, W1.
Qed.
Lemma map_step s x g N R ls va pp flags h node :
  as_inv s x g N R ls → at_pgmap_lock x = false → in_space lvl va → page_live (kn_mem s) pp → (∃ e, pm_walk (kn_mem s) lvl (at_pgmap x) va = inl e) →
  ko_hdr <$> kobj_at s p = Some h → home_node (pm_conf (kn_mem s)) (ko_pid h) = Some node →
  wp (pgmap_lock p;; x ← get_at p; h ← get_hdr p; r ← on_kmem (as_arch_putpage (at_pgmap x) va pp flags (ko_pid h));
      pgmap_unlock p;; if r <? 0 then mret r else mret 0) s (λ r s',
    as_inv s' x g N R ls ∧ others (at_pgmap x) N R [] s s' ∧ mapped (kn_mem s) x g (kn_mem s') flags va pp r).
Proof.
  intros Hs Hlk Hva Hlive Hopen Hh Hn. pose proof (as_at _ _ _ _ _ _ _ _ _ Hs) as Hx. unfold pgmap_lock. wp_pure. eapply wp_get_at; [exact Hx|].
  rewrite Hlk. eapply wp_put_at; [exact Hx|]. wp_pure. set (x1 := set_at_pgmap_lock true x). set (s1 := with_body p (KAt x1) s).
  destruct (as_with_at s x x1 g N R ls Hs ltac:(done)) as (Hs1 & T1 & A1). fold s1 in Hs1, T1, A1. pose proof (others_with (at_pgmap x) N R [] s x g N ls p (KAt x1) (as_m _ _ _ _ _ _ _ _ _ Hs) (or_introl eq_refl)) as O1. fold s1 in O1.
  pose proof (as_objs _ _ _ _ _ _ _ _ _ (as_m _ _ _ _ _ _ _ _ _ Hs)) as ((HpN & Hpm) & _).
  eapply wp_get_at; [apply (as_at _ _ _ _ _ _ _ _ _ Hs1)|]. wp_pure.
  pose proof (ot_hdr _ _ _ _ _ _ O1 p HpN Hpm) as Eh. rewrite Hh in Eh. apply fmap_Some in Eh as (k1 & Hk1 & Eh). eapply wp_get_hdr; [exact Hk1|]. rewrite <- Eh. wp_pure.
  eapply wp_mono; [eapply (putpage_wp s1 x1 g N R ls va pp flags (ko_pid h) node Hs1 Hva)|].
  - pose proof Hx as (k & Hk & _)%obj_at_kobj. unfold s1. by rewrite (with_body_mem s p _ k Hk).
  - cbn [at_pgmap x1 set_at_pgmap_lock]. destruct T1 as [W1 _]. by rewrite W1.
  - by rewrite (ot_conf _ _ _ _ _ _ O1).
  - intros r s2 (Hs2 & O2 & M2). wp_pure. unfold pgmap_unlock. eapply wp_upd_at; [apply (as_at _ _ _ _ _ _ _ _ _ Hs2)|].
    destruct (as_with_at s2 x1 x g N R ls Hs2 ltac:(done)) as (Hs3 & T3 & A3).
    replace (set_at_pgmap_lock false x1) with x by (destruct x; cbn in Hlk; by rewrite Hlk).
    assert (M3 : mapped (kn_mem s) x g (kn_mem (with_body p (KAt x) s2)) flags va pp r) by (eapply mapped_trans; [done|exact T1|exact A1|exact M2|exact T3|exact A3]).
    assert (O3 : others (at_pgmap x) N R [] s (with_body p (KAt x) s2)).
    { eapply others_trans; [exact O1|]. eapply others_trans; [exact O2|]. eapply others_with; [apply (as_m _ _ _ _ _ _ _ _ _ Hs2)|by left]. }
    assert (E : (if r <? 0 then mret r else mret 0 : M kern Z) = mret r) by (destruct M2 as (_ & _ & [(-> & _)|(-> & _)]); done).
    rewrite E. wp_pure. by split_and!.
Qed.

(** ** The fault *)

Lemma enter_step s x g N R ls i am uam a (Q : unit → kern → Prop) :
  as_inv s x g N R ls → slot_entry (kn_mem s) x i am → am_at (kn_mem s) am = Some a →
  (∀ s' g' ls', as_inv s' x g' N R ls' → transparent (at_pgmap x) (kn_mem s) g (kn_mem s') g' → others (at_pgmap x) N R ls' s s' →
     same_table x (kn_mem s) (kn_mem s') → takes 0 (kn_mem s) (kn_mem s') → sg_pages g' = sg_pages g → am ∈ ls' → ls ⊆ ls' → Q tt s') →
  wp (when (am_kobj a =? 0) (enter_am p sg am uam)) s Q.
Proof.
  intros Hs Hsl Ha HQ. pose proof Hs as [Hx Hg Hu Hl H]. destruct (as_open _ _ _ _ _ _ _ _ _ H am a (sl_page _ _ _ _ Hsl) Ha) as [Hlk Hin].
  destruct (sl_am _ _ _ _ Hsl) as (a' & Ha' & Hor). rewrite Ha in Ha'. apply (inj Some) in Ha' as <-. pose proof (as_seg_nonzero _ _ _ _ _ _ H) as H0.
  destruct (decide (am_kobj a = 0)) as [Hz|Hnz].
  - apply wp_when_true; [by rewrite Hz|]. pose proof Hg as (k & Hk & Hb)%obj_sg_kobj.
    assert (Hni : am ∉ ls).
    { intros Hni. destruct (as_elems _ _ _ _ _ _ _ _ _ H am Hni) as ((y & Hy & Hky) & _). rewrite Ha in Hy. apply (inj Some) in Hy as <-. congruence. }
    eapply (enter_am_wp s p sg am uam a k (sg_map_list g) ls); try done; [apply Hsl|unfold aml_of; by rewrite Hb|].
    intros s' f l Hl' F Hk' Hy'.
    assert (Hg' : obj_sg s' sg = Some (with_list f g)).
    { apply obj_sg_kobj. exists (with_aml (Aml f false) k). split; [done|]. unfold with_aml, set_aml. cbn. by rewrite Hb. }
    destruct (entered_inv s x g N R ls i am s' f _ uam l Hs Hsl ltac:(intros y Hy; congruence) Hl' F Hg' Hy') as (Hs' & T & O & Tb & Tk).
    eapply HQ; [exact Hs'|exact T|exact O|exact Tb|exact Tk|done|by left|set_solver].
  - apply wp_when_false; [by apply Z.eqb_neq|]. destruct Hor as [|Hsg]; [done|].
    eapply (HQ s g ls); [done|done|apply others_refl|done|reflexivity|done|by apply Hin|done].
Qed.

(** The page of the segment a fault at [va] is for. *)
Definition fault_page (uam : u_address_mapping) (va : Z) : Z := u64 (um_start_page uam + (va - ROUNDDOWN (um_va uam) PGSIZE) / PGSIZE).
Definition in_mapping (uam : u_address_mapping) (va : Z) : Prop :=
  ROUNDDOWN (um_va uam) PGSIZE ≤ va < u64 (ROUNDDOWN (um_va uam) PGSIZE + um_num_pages uam * PGSIZE).
Lemma fault_page_wp s uam va (Q : Z → kern → Prop) : in_mapping uam va → Q (fault_page uam va) s → wp (at_va_to_segment_page uam va) s Q.
Proof. intros [H1 H2] HQ. unfold at_va_to_segment_page. wp_pure. apply wp_assert; [|by wp_pure]. by rewrite (proj2 (Z.leb_le _ _)), (proj2 (Z.ltb_lt _ _)). Qed.

(** Everything has a home for new pages: the tables, the segment and the page map. *)
Record homes s x g : Prop := Homes {
  ho_table : is_Some (home_node (pm_conf (kn_mem s)) (da_pid (at_addrmap x)));
  ho_seg : is_Some (home_node (pm_conf (kn_mem s)) (da_pid (sg_pages g)));
  ho_map : ∃ h, ko_hdr <$> kobj_at s p = Some h ∧ is_Some (home_node (pm_conf (kn_mem s)) (ko_pid h));
}.
(** The page at [va] is that of the segment, and the mapping can be found from the segment. *)
Definition fault_done m x g ls m' x' g' ls' (uam : u_address_mapping) (va : Z) : Prop :=
  let n := fault_page uam va in
  let pp := pe_page (pt_entry m' (da_pt (sg_pages g')) n) in
  n < da_nent (sg_pages g) ∧ pp ≠ 0 ∧ ent_addr m' (at_addrmap x') (um_kslot uam) ∈ ls' ∧
  ∃ e, sub e = pp ∧ bit e PTE_P = true ∧ bit e PTE_U = true ∧
    bit e PTE_W = bit (um_flags uam) SEGMAP_WRITE ∧ bit e PTE_NX = negb (bit (um_flags uam) SEGMAP_EXEC) ∧
    ∀ va', in_space lvl va' → pm_walk m' lvl (at_pgmap x) va' = if va' / PGSIZE =? va / PGSIZE then inl e else pm_walk m lvl (at_pgmap x) va'.
Definition fault_post s x g N R ls (uam : u_address_mapping) (va r : Z) s' : Prop :=
  ∃ x' g' ls', as_inv s' x' g' N R ls' ∧ at_pgmap x' = at_pgmap x ∧ others (at_pgmap x) N R ls' s s' ∧ ls ⊆ ls' ∧
    (∀ k, 0 ≤ k → view (kn_mem s') (sg_pages g') k = view (kn_mem s) (sg_pages g) k) ∧
    ((r = 0 ∧ fault_done (kn_mem s) x g ls (kn_mem s') x' g' ls' uam va) ∨
     ((r = - E_INVAL ∧ da_nent (sg_pages g) ≤ fault_page uam va ∨ r = - E_NO_MEM ∨ r = - E_NO_SPACE) ∧
      ∀ va', in_space lvl va' → pm_walk (kn_mem s') lvl (at_pgmap x) va' = pm_walk (kn_mem s) lvl (at_pgmap x) va')).
(** An error before the page map is touched. *)
Lemma fault_failed s x g N R ls uam va r s' x' g' ls' :
  as_inv s' x' g' N R ls' → at_pgmap x' = at_pgmap x → others (at_pgmap x) N R ls' s s' → ls ⊆ ls' → transparent (at_pgmap x) (kn_mem s) g (kn_mem s') g' →
  (r = - E_INVAL ∧ da_nent (sg_pages g) ≤ fault_page uam va ∨ r = - E_NO_MEM ∨ r = - E_NO_SPACE) → fault_post s x g N R ls uam va r s'.
Proof. intros Hs Ep Ho Hls (W & V & _) Hr. exists x', g', ls'. split_and!; try done. right. by split. Qed.
(** The last steps: the page is there and clean. *)
Lemma fault_mapped s0 s x0 x g0 g N R ls0 ls uam va r s' :
  at_pgmap x = at_pgmap x0 → in_space lvl va → others (at_pgmap x0) N R ls s0 s → ls0 ⊆ ls → transparent (at_pgmap x0) (kn_mem s0) g0 (kn_mem s) g →
  fault_page uam va < da_nent (sg_pages g0) → pe_page (pt_entry (kn_mem s) (da_pt (sg_pages g)) (fault_page uam va)) ≠ 0 →
  ent_addr (kn_mem s) (at_addrmap x) (um_kslot uam) ∈ ls →
  as_inv s' x g N R ls → others (at_pgmap x) N R [] s s' →
  mapped (kn_mem s) x g (kn_mem s') (um_flags uam) va (pe_page (pt_entry (kn_mem s) (da_pt (sg_pages g)) (fault_page uam va))) r →
  fault_post s0 x0 g0 N R ls0 uam va r s'.
Proof.
  intros Ep Hva Ho Hls (W & V & _) Hlt Hnz Hin Hs' Ho' (V' & A' & Hres). rewrite Ep in *. exists x, g, ls.
  assert (Hent : ∀ k, pt_entry (kn_mem s') (da_pt (sg_pages g)) k = pt_entry (kn_mem s) (da_pt (sg_pages g)) k) by (apply (A' (sg_pages g)); by right; right; left).
  split_and!; [done|done|eapply others_trans; [exact Ho|eapply others_mono; [|exact Ho']; set_solver]|done|intros k Hk; by rewrite V', V|]. destruct Hres as [(-> & e & H1 & H2 & H3 & H4 & H5 & Hw)|(-> & Hw)]; [left|right].
  - split; [done|]. unfold fault_done. cbv zeta. rewrite Hent. split_and!; [done|done| |].
    + unfold ent_addr in Hin |- *. destruct (A' (at_addrmap x)) as (_ & _ & _ & ->); [by right; left|done].
    + exists e. split_and!; try done. intros va' Hva'. rewrite Hw by done. case_match; [done|by apply W].
  - split; [by right; left|]. intros va' Hva'. by rewrite Hw, W.
Qed.
(** The page would have to be allocated, and there is no more memory than entering the
    mapping and the tree of the segment can take: the only reason to panic. *)
Definition out_of_memory m x g (uam : u_address_mapping) (va : Z) : Prop :=
  fault_page uam va < da_nent (sg_pages g) ∧ da_demand (sg_pages g) = true ∧ pe_page (pt_entry m (da_pt (sg_pages g)) (fault_page uam va)) = 0 ∧
  few_free (slot_cost x (um_kslot uam) + MAX_NODES) m.
Lemma fill_segment_wpx s s0 x g N R ls uam va :
  kobj_get p (um_object uam) kobj_segment s = Ret (0, sg) s0 → as_inv s0 x g N R ls → homes s0 x g → at_pgmap_lock x = false → da_esz (sg_pages g) = PGSIZE →
  slot_open (kn_mem s0) x (um_kslot uam) → 0 ≤ um_kslot uam < 2 ^ 63 → in_mapping uam va → in_space lvl va →
  (∃ e, pm_walk (kn_mem s0) lvl (at_pgmap x) va = inl e) →
  wpx (fill_segment p uam va) s (fault_post s0 x g N R ls uam va)
    (out_of_memory (kn_mem s0) x g uam va).
Proof.
  intros Hget Hs [[nt Hnt] [ns Hns] (h & Hh & nm & Hnm)] Hlk He Hop Hks Him Hva Hopen.
  unfold fill_segment. apply wpx_bind_wp. eapply wp_eq; [exact Hget|]. cbv beta iota. rewrite Z.ltb_irrefl.
  apply wpx_bind_wp. eapply wp_mono; [eapply at_get_addrmap_wp; [exact Hs|exact Hop|exact Hks|exact Hnt]|].
  intros [r am] s1 (a1 & Hs1 & T1 & O1 & Hres). set (x1 := set_at_addrmap a1 x) in *. cbv beta iota.
  destruct Hres as [(-> & Hsl & Htk)|Herr].
  2: { rewrite (proj2 (Z.ltb_lt r 0)) by (destruct Herr as [-> | ->]; done). apply wp_wpx, wp_ret.
       eapply fault_failed; [exact Hs1|done|eapply others_mono; [|exact O1]; set_solver|done|exact T1|by right]. }
  rewrite Z.ltb_irrefl. destruct (sl_am _ _ _ _ Hsl) as (a & Ha & Hor). apply wpx_bind_wp. eapply wp_get_am; [exact Ha|].
  apply wpx_bind_wp. apply wp_assert; [destruct Hor as [-> | ->]; [done|by rewrite Z.eqb_refl, orb_true_r]|].
  apply wpx_bind_wp. eapply enter_step; [exact Hs1|exact Hsl|exact Ha|]. intros s2 g2 ls2 Hs2 T2 O2 Tb2 Tk2 Eg2 Hin Hls.
  apply wpx_bind_wp. apply fault_page_wp; [done|]. cbv zeta. set (n := fault_page uam va) in *.
  assert (Hn0 : 0 ≤ n) by (apply Z.mod_pos_bound; lia).
  assert (T12 : transparent (at_pgmap x) (kn_mem s0) g (kn_mem s2) g2) by (by eapply transparent_trans).
  assert (O12 : others (at_pgmap x) N R ls2 s0 s2) by (eapply others_trans; [eapply others_mono; [|exact O1]; set_solver|exact O2]).
  apply wpx_bind. eapply wpx_mono; [eapply (segment_get_page_wpx s2 x1 g2 N R ls2 n _ ns Hs2)| |].
  - by rewrite Eg2.
  - done.
  - by rewrite Eg2, (ot_conf _ _ _ _ _ _ O12).
  - by case_match.
  - intros [r pp] s3 (a3 & Hsh & Hne & Hres3). cbv beta iota. destruct Hres3 as [(Herr & Hs3 & T3 & O3)|(-> & Hlt & Hpp & m4 & Hco & (Hs4 & T4 & O4 & Tb4) & Epp)].
    + rewrite (proj2 (Z.ltb_lt r 0)) by (destruct Herr as [[-> _]|[-> | ->]]; done). apply wp_wpx, wp_ret.
      eapply fault_failed; [exact Hs3|done|eapply others_trans; [exact O12|eapply others_mono; [|exact O3]; set_solver]|done|by eapply transparent_trans|].
      by rewrite Eg2 in Herr.
    + rewrite Z.ltb_irrefl. apply wpx_bind_wp. eapply wp_eq; [unfold on_kmem, zoom; by rewrite Hco|]. set (s4 := set_mem m4 s3) in *.
      assert (T14 : transparent (at_pgmap x) (kn_mem s0) g (kn_mem s4) (set_sg_pages a3 g2)) by (by eapply transparent_trans).
      assert (O14 : others (at_pgmap x) N R ls2 s0 s4) by (eapply others_trans; [exact O12|eapply others_mono; [|exact O4]; set_solver]). pose proof (as_m _ _ _ _ _ _ _ _ _ Hs4) as H4.
      pose proof (as_objs _ _ _ _ _ _ _ _ _ H4) as ((HpN & Hpm) & _).
      apply wp_wpx. eapply wp_mono; [eapply (map_step s4 x1 (set_sg_pages a3 g2) N R ls2 va pp (um_flags uam) h nm Hs4)|].
      * done.
      * done.
      * rewrite <- Epp. apply (as_data_page _ _ _ _ _ _ _ H4). right. apply sg_ref_in, (sg_page_ref _ _ (set_sg_pages a3 g2) _ _ _ n H4); [done|cbn; congruence].
      * destruct T14 as (W & _ & _). cbn [at_pgmap x1 set_at_addrmap]. by rewrite W.
      * by rewrite (ot_hdr _ _ _ _ _ _ O14 p HpN Hpm).
      * by rewrite (ot_conf _ _ _ _ _ _ O14).
      * intros r5 s5 (Hs5 & O5 & M5). eapply (fault_mapped s0 s4 x x1 g (set_sg_pages a3 g2)); try done.
        -- by rewrite <- Eg2.
        -- cbn. fold n. congruence.
        -- rewrite (sl_addr _ _ _ _ Hsl) in Hin. unfold ent_addr in Hin |- *. by rewrite <- Tb2, <- Tb4 in Hin.
        -- cbn [sg_pages set_sg_pages]. fold n. change (kn_mem s4) with m4. by rewrite Epp.
  - rewrite Eg2. intros (H1 & H2 & H3 & H4). split_and!; [done|done| |].
    + apply T12; [done|]. by rewrite Eg2.
    + eapply takes_few; [|exact H4]. eapply takes_le; [eapply takes_trans; [exact Htk|exact Tk2]|lia].
Qed.
End fault.
