(* ===== verification/Lookup.v ===== *)
(** * Finding the object of a mapping

    [kobj_get] finds the object a mapping names: in the one-entry cache of the address
    tree, or through the shares of the running processor; in the second case it enters the
    object into the cache, which holds a reference, and gives the one it had back.
    [kobj_cache_flush] empties the cache.  The lemmas say what both change, and that the
    invariant of page faults survives. *)
From S2P Require Import Prelude Machine Hashtable Locks Ktypes Kmem PageAlloc Pagetree Supply PageRefs PagetreeSpec PagetreeWhole PagetreeThms PagetreeProps Darray DarrayThms DarrayProps KMap Pmap PmapSpec PmapThms PmapProps Kobj Share At KobjThms Effects Space AtThms Fault.

(** ** Steps that write objects *)

(** Only contents of the pages [P] and the heads of the lists of objects to check in differ. *)
Record touch (P : list Z) (s s' : kern) : Prop := Touch {
  to_rest : set_mem (kn_mem s) (set_ci (kn_ci s) s') = s;
  to_mem : kn_mem s' = with_pages (pm_page (kn_mem s')) (kn_mem s);
  to_pages : ∀ q, q ∉ P → pm_page (kn_mem s') !! q = pm_page (kn_mem s) !! q;
  to_some : ∀ q, is_Some (pm_page (kn_mem s) !! q) → is_Some (pm_page (kn_mem s') !! q);
}.
Lemma touch_refl P s : touch P s s.
Proof. split; [by destruct s|by destruct s as [[]]|done|done]. Qed.
Lemma touch_mono P P' s s' : P ⊆ P' → touch P s s' → touch P' s s'.
Proof. intros HP [H1 H2 H3 H4]. split; try done. intros q Hq. apply H3. by intros ?%HP. Qed.
Lemma touch_trans P s1 s2 s3 : touch P s1 s2 → touch P s2 s3 → touch P s1 s3.
Proof.
  intros [R1 M1 P1 S1] [R2 M2 P2 S2]. split.
  - transitivity (set_mem (kn_mem s1) (set_ci (kn_ci s1) (set_mem (kn_mem s2) (set_ci (kn_ci s2) s3)))); [done|]. by rewrite R2.
  - rewrite M2. cbn. rewrite M1. by destruct (kn_mem s1).
  - intros q Hq. by rewrite P2, P1.
  - intros q Hq. by apply S2, S1.
Qed.
Lemma touch_put P s q k k' : kobj_at s q = Some k → q ∈ P → touch P s (put_obj q k' s).
Proof.
  intros Hk HP. split; [by destruct s|by destruct s as [[]]| |].
  - intros r Hr. cbn. rewrite lookup_insert_ne; [done|]. by intros ->.
  - intros r Hr. cbn. destruct (decide (q = r)) as [->|]; [by rewrite lookup_insert_eq|by rewrite lookup_insert_ne].
Qed.
Lemma touch_with P s q b : q ∈ P → touch P s (with_body q b s).
Proof. unfold with_body. destruct (kobj_at s q) as [k|] eqn:Hk; [by eapply touch_put|intros _; apply touch_refl]. Qed.
Lemma touch_kobj P s s' q : touch P s s' → q ∉ P → kobj_at s' q = kobj_at s q.
Proof. intros HT Hq. unfold kobj_at. by rewrite (to_pages _ _ _ HT). Qed.
Lemma touch_info P s s' : touch P s s' → pm_conf (kn_mem s') = pm_conf (kn_mem s) ∧ pm_info (kn_mem s') = pm_info (kn_mem s).
Proof. intros HT. by rewrite (to_mem _ _ _ HT). Qed.
Lemma touch_cur P s s' : touch P s s' → kn_procs s' = kn_procs s ∧ pm_conf (kn_mem s') = pm_conf (kn_mem s).
Proof. intros HT. split; [|by apply (touch_info P)]. exact (f_equal kn_procs (to_rest _ _ _ HT)). Qed.

Lemma put_hdr_at s q k h r : kobj_at s q = Some k → obj_at (put_obj q (set_hdr h k) s) r = obj_at s r.
Proof.
  intros Hk. unfold obj_at. destruct (decide (r = q)) as [->|]; [rewrite kobj_at_put_obj, Hk; by destruct k|by rewrite kobj_at_other].
Qed.
Lemma put_hdr_sg s q k h r : kobj_at s q = Some k → obj_sg (put_obj q (set_hdr h k) s) r = obj_sg s r.
Proof.
  intros Hk. unfold obj_sg. destruct (decide (r = q)) as [->|]; [rewrite kobj_at_put_obj, Hk; by destruct k|by rewrite kobj_at_other].
Qed.
Lemma put_hdr_hdr s q k h r : ko_hdr <$> kobj_at (put_obj q (set_hdr h k) s) r = if decide (r = q) then Some h else ko_hdr <$> kobj_at s r.
Proof. case_decide as E; [subst; by rewrite kobj_at_put_obj|by rewrite kobj_at_other]. Qed.
Lemma with_body_hdr s q b r : ko_hdr <$> kobj_at (with_body q b s) r = ko_hdr <$> kobj_at s r.
Proof.
  unfold with_body. destruct (kobj_at s q) as [k|] eqn:Hk; [|done].
  destruct (decide (r = q)) as [->|]; [by rewrite kobj_at_put_obj, Hk|by rewrite kobj_at_other].
Qed.

(** Giving back a reference that is not the last one. *)
Definition unref (q : Z) (k : kobject) (s : kern) : kern := put_obj q (set_hdr (set_ref (ko_ref (ko_hdr k) - 1) (ko_hdr k)) k) s.
Lemma decref_run s q k : kobj_at s q = Some k → 1 < ko_ref (ko_hdr k) < 2 ^ 64 → kobject_decref q s = Ret tt (unref q k s).
Proof.
  intros Hk Hr. apply wp_run_eq. unfold kobject_decref, kobject_getref. wp_pure. eapply wp_get_hdr; [exact Hk|]. wp_pure.
  apply wp_assert; [by apply negb_true_iff, Z.eqb_neq; lia|]. wp_pure. eapply wp_upd_hdr; [exact Hk|]. unfold jos_atomic_dec64. rewrite u64_small by (unfold in_u64; lia).
  wp_pure. eapply wp_get_hdr; [apply kobj_at_put_obj|]. wp_pure. apply wp_when_false; [apply Z.eqb_neq; cbn; lia|]. done.
Qed.

Section lookup.
Context (lvl : nat) (p sg : Z).
Implicit Types (m : pmem) (s : kern) (x : Address_tree) (g : Segment) (N R ls F : list Z) (ref : sobj_ref).
Local Abbreviation as_inv := (as_inv lvl p sg).
Local Abbreviation as_mem := (as_mem lvl p sg).

(** Writing objects keeps the invariant, as long as the tree and the segment stay. *)
Lemma as_objects P s s' x x' g N R ls :
  as_inv s x g N R ls → touch P s s' → (∀ q, q ∈ P → q ∈ N ∧ q ≠ at_pgmap x) → obj_at s' p = Some x' → same_at x x' → obj_sg s' sg = Some g →
  as_inv s' x' g N R ls ∧ transparent lvl (at_pgmap x) (kn_mem s) g (kn_mem s') g ∧ same_arrays (kn_mem s) (kn_mem s') (arrays x g) ∧
  (∀ q, q ∈ (arrays x g ≫= a_refs (kn_mem s)) ++ R → pm_page (kn_mem s') !! q = pm_page (kn_mem s) !! q).
Proof.
  intros [Hx Hg Hu Hl H] [_ Em HP Hsome] HN Hx' Hsa Hg'.
  assert (Hdata : ∀ q, data_page (at_pgmap x) (kn_mem s) (arrays x g) N R q ∨ pm_page (kn_mem s') !! q = pm_page (kn_mem s) !! q).
  { intros q. destruct (decide (q ∈ P)) as [Hq|Hq]; [left; left; by apply HN|right; by apply HP]. }
  destruct (space_with_pages lvl (at_pgmap x) _ _ _ _ _ (as_space _ _ _ _ _ _ _ _ _ H) Hdata Hsome) as (Hsp & Hms & Harr). rewrite <- Em in Hsp, Hms, Harr.
  assert (Href : ∀ q, q ∈ (arrays x g ≫= a_refs (kn_mem s)) ++ R → pm_page (kn_mem s') !! q = pm_page (kn_mem s) !! q).
  { intros q Hq. apply HP. intros HqP. eapply as_ref_not_node; [exact H|exact Hq|by apply HN]. }
  assert (Hent : ∀ n, pt_entry (kn_mem s') (da_pt (sg_pages g)) n = pt_entry (kn_mem s) (da_pt (sg_pages g)) n) by (apply Harr; by right; right; left).
  split_and!; [split|split_and!|done|done].
  - done.
  - done.
  - done.
  - eapply lrep_pages; [exact Hg|exact Hg'|done| |exact Hl]. intros e He. eapply Href, table_page_ref; [exact H|]. right. right. by exists e.
  - eapply as_mem_ext; [exact H|exact Hsa|exact Hsp|exact Harr| | |].
    + intros q Hq. by eapply Href, table_page_ref.
    + intros n Hn. rewrite Hent, Em. by apply (as_clean _ _ _ _ _ _ _ _ _ H).
    + rewrite Em. apply (as_nolock _ _ _ _ _ _ _ _ _ H).
  - intros va Hva. by apply map_same_walk.
  - intros n Hn. apply view_ext; [done|]. intros H0. by eapply Href, sg_ref_in, sg_page_ref.
  - intros n Hn. by rewrite Hent.
Qed.

(** ** The object is in the cache *)

Definition cur_ps s : Z := per_cpu (kn_procs s) (mc_cpu (pm_conf (kn_mem s))).
Definition cur_hdr s : option kobject_hdr := ko_hdr <$> kobj_at s (cur_ps s).
(** The test of the cache. *)
Definition cache_hit (ps_id : Z) x ref : bool :=
  (ps_id =? ao_ps_id (at_obj x)) && negb (so_object (ao_ref (at_obj x)) =? 0) &&
  (so_object (ao_ref (at_obj x)) =? so_object ref) && (so_share (ao_ref (at_obj x)) =? so_share ref).
Definition obj_cached s x ref : Prop := ∃ h, cur_hdr s = Some h ∧ cache_hit (ko_id h) x ref = true ∧ ao_ko (at_obj x) = sg.
Lemma kobj_get_cached s x ref type : obj_at s p = Some x → at_obj_lock x = false → obj_cached s x ref → kobj_get p ref type s = Ret (0, sg) s.
Proof.
  intros Hx Hlk (h & Hh & Hhit & Hko). apply fmap_Some in Hh as (k & Hk & ->). apply wp_run_eq. unfold kobj_get, obj_lock. wp_pure. apply wp_sched. wp_pure.
  eapply wp_get_hdr; [exact Hk|]. wp_pure. eapply wp_get_at; [exact Hx|]. rewrite Hlk. eapply wp_put_at; [exact Hx|]. wp_pure.
  set (x1 := set_at_obj_lock true x). assert (Hx1 : obj_at (with_body p (KAt x1) s) p = Some x1) by (by eapply obj_at_with). eapply wp_get_at; [exact Hx1|].
  change (at_obj x1) with (at_obj x). unfold cache_hit in Hhit. rewrite Hhit. wp_pure.
  unfold obj_unlock. eapply wp_upd_at; [exact Hx1|]. wp_pure. rewrite Hko. split; [done|]. rewrite with_body_twice.
  replace (set_at_obj_lock false x1) with x by (destruct x; cbn in Hlk; by rewrite Hlk). by apply with_at_id.
Qed.

(** ** The object is found through the shares *)

(** What does not matter for finding objects: locks of the tables and the range cache. *)
Definition same_fault x x' : Prop :=
  same_at x x' ∧ at_pgmap_lock x' = at_pgmap_lock x ∧ at_obj_lock x' = at_obj_lock x ∧ at_obj x' = at_obj x.
Lemma same_fault_trans x1 x2 x3 : same_fault x1 x2 → same_fault x2 x3 → same_fault x1 x3.
Proof. intros ((A1 & A2 & A3) & B1 & C1 & D1) ((A4 & A5 & A6) & B2 & C2 & D2). split_and!; try congruence. split_and!; congruence. Qed.
(** The object the cache holds. *)
Definition old_obj x : list Z := if so_object (ao_ref (at_obj x)) =? 0 then [] else [ao_ko (at_obj x)].

(** The running processor finds [sg] as [ref] in its shares: the lookup succeeds and, apart
    from locks it gives back, writes only pages [F] of the shares, which are not part of the
    address space.  The object the cache holds has other references. *)
Record obj_shared F s x N ref : Prop := ObjShared {
  os_miss : ∃ h, cur_hdr s = Some h ∧ cache_hit (ko_id h) x ref = false;
  os_old : ∀ q, q ∈ old_obj x → (q ∈ N ∧ q ≠ at_pgmap x ∧ q ≠ p) ∧ ∃ h, ko_hdr <$> kobj_at s q = Some h ∧ 1 < ko_ref h < 2 ^ 64;
  os_pages : ∀ q, q ∈ F → q ∈ N ∧ q ≠ at_pgmap x ∧ q ≠ p ∧ q ≠ sg;
  os_run : ∀ x', same_fault x x' → let s' := with_body p (KAt (set_at_obj_lock true x')) s in
    ∃ s1, sharemap_co_obj (cur_ps s) ref kobj_segment s' = Ret (0, sg) s1 ∧ touch F s' s1 ∧ ∀ q, ko_hdr <$> kobj_at s1 q = ko_hdr <$> kobj_at s' q;
}.
(** The state after it: the cache holds the object and a reference to it, and the reference
    to the old one is gone. *)
Record looked_up F s x g N R ls ref s0 x0 : Prop := LookedUp {
  lu_inv : as_inv s0 x0 g N R ls;
  lu_obj : ∃ h, cur_hdr s = Some h ∧ cache_hit (ko_id h) x ref = false ∧ x0 = set_at_obj (AtObj ref sg (ko_id h)) x;
  lu_same : transparent lvl (at_pgmap x) (kn_mem s) g (kn_mem s0) g ∧ same_arrays (kn_mem s) (kn_mem s0) (arrays x g);
  lu_refs : ∀ q, q ∈ (arrays x g ≫= a_refs (kn_mem s)) ++ R → pm_page (kn_mem s0) !! q = pm_page (kn_mem s) !! q;
  lu_touch : touch (p :: sg :: old_obj x ++ F) s s0;
  lu_tree : ko_hdr <$> kobj_at s0 p = ko_hdr <$> kobj_at s p;
  lu_hdr : ∀ q, q ≠ sg → q ∉ old_obj x → ko_hdr <$> kobj_at s0 q = ko_hdr <$> kobj_at s q;
  lu_ref : ∀ h, sg ∉ old_obj x → ko_hdr <$> kobj_at s sg = Some h → ko_hdr <$> kobj_at s0 sg = Some (set_ref (jos_atomic_inc64 (ko_ref h)) h);
  lu_unref : ∀ q h, q ∈ old_obj x → q ≠ sg → ko_hdr <$> kobj_at s q = Some h → ko_hdr <$> kobj_at s0 q = Some (set_ref (ko_ref h - 1) h);
}.

Lemma drop_old s x (Q : unit → kern → Prop) :
  (∀ q, q ∈ old_obj x → ∃ h, ko_hdr <$> kobj_at s q = Some h ∧ 1 < ko_ref h < 2 ^ 64) →
  (∀ s', touch (old_obj x) s s' → (∀ r, obj_at s' r = obj_at s r) → (∀ r, obj_sg s' r = obj_sg s r) →
     (∀ r, r ∉ old_obj x → ko_hdr <$> kobj_at s' r = ko_hdr <$> kobj_at s r) →
     (∀ r h, r ∈ old_obj x → ko_hdr <$> kobj_at s r = Some h → ko_hdr <$> kobj_at s' r = Some (set_ref (ko_ref h - 1) h)) → Q tt s') →
  wp (when (negb (so_object (ao_ref (at_obj x)) =? 0)) (kobject_decref (ao_ko (at_obj x)))) s Q.
Proof.
  unfold old_obj. intros Hold HQ. destruct (so_object (ao_ref (at_obj x)) =? 0).
  { apply wp_when_false; [done|]. apply HQ; try done; [apply touch_refl|]. by intros r h ?%not_elem_of_nil. }
  apply wp_when_true; [done|]. destruct (Hold (ao_ko (at_obj x))) as (h & Hh & Hr); [by left|]. apply fmap_Some in Hh as (k & Hk & ->).
  eapply wp_eq; [by apply decref_run|]. unfold unref. apply HQ.
  - eapply touch_put; [exact Hk|by left].
  - intros r. by apply put_hdr_at.
  - intros r. by apply put_hdr_sg.
  - intros r Hr'. rewrite put_hdr_hdr, decide_False; [done|]. intros ->. apply Hr'. by left.
  - intros r h ->%list_elem_of_singleton. rewrite Hk. cbn. intros [= <-]. by rewrite kobj_at_put_obj.
Qed.
Lemma kobj_get_shared F s x g N R ls ref :
  as_inv s x g N R ls → at_obj_lock x = false → obj_shared F s x N ref →
  ∃ s0 x0, kobj_get p ref kobj_segment s = Ret (0, sg) s0 ∧ looked_up F s x g N R ls ref s0 x0.
Proof.
  intros Hs Hlk [(h & Hh & Hmiss) Hold HF Hrun]. pose proof Hs as [Hx Hg _ _ H]. pose proof (as_objs _ _ _ _ _ _ _ _ _ H) as (HpN & HsN & Hps).
  set (x1 := set_at_obj_lock true x). set (sL := with_body p (KAt x1) s). set (new := AtObj ref sg (ko_id h)).
  destruct (Hrun x) as (s1 & Hlook & T1 & Hh1); [done|]. fold x1 sL in Hlook, T1, Hh1.
  assert (Hhs1 : ∀ q, ko_hdr <$> kobj_at s1 q = ko_hdr <$> kobj_at s q) by (intros q; rewrite Hh1; apply with_body_hdr).
  assert (HpF : p ∉ F) by (intros Hq; by destruct (HF p Hq) as (_ & _ & ? & _)). assert (HsF : sg ∉ F) by (intros Hq; by destruct (HF sg Hq) as (_ & _ & _ & ?)).
  assert (Hx1 : obj_at s1 p = Some x1) by (unfold obj_at; rewrite (touch_kobj F sL s1) by done; by eapply obj_at_with).
  assert (Hg1 : obj_sg s1 sg = Some g) by (unfold obj_sg; rewrite (touch_kobj F sL s1) by done; rewrite <- Hg; by apply obj_sg_with_other).
  set (P := p :: sg :: old_obj x ++ F). assert (TL : touch P s s1).
  { eapply touch_trans; [apply touch_with; by left|eapply touch_mono, T1]. intros q Hq. unfold P. rewrite !elem_of_cons, elem_of_app. tauto. }
  enough (Hwp : wp (kobj_get p ref kobj_segment) s (λ r s0, r = (0, sg) ∧ looked_up F s x g N R ls ref s0 (set_at_obj new x))).
  { apply wp_run in Hwp as (r & s0 & Hrun0 & -> & Hl). by exists s0, (set_at_obj new x). }
  apply fmap_Some in Hh as (k & Hk & Ekh). unfold kobj_get, obj_lock. wp_pure. apply wp_sched. wp_pure.
  eapply wp_get_hdr; [exact Hk|]. wp_pure. eapply wp_get_at; [exact Hx|]. rewrite Hlk. eapply wp_put_at; [exact Hx|]. fold x1 sL. wp_pure.
  eapply wp_get_at; [by eapply obj_at_with|]. change (at_obj x1) with (at_obj x). unfold cache_hit in Hmiss. rewrite <- Ekh, Hmiss. wp_pure.
  eapply wp_eq; [exact Hlook|]. wp_pure.
  apply drop_old; [intros q Hq; rewrite Hhs1; by apply Hold|]. intros s2 T2 Ha2 Hg2 Hh2 Hu2. wp_pure.
  eapply wp_upd_at; [rewrite Ha2; exact Hx1|]. set (s3 := with_body p _ s2). wp_pure. unfold kobject_incref.
  assert (Hg3 : obj_sg s3 sg = Some g) by (unfold s3; rewrite obj_sg_with_other by done; by rewrite Hg2).
  pose proof Hg3 as (k3 & Hk3 & _)%obj_sg_kobj. eapply wp_upd_hdr; [exact Hk3|]. set (s4 := put_obj sg _ s3). wp_pure.
  assert (Hx4 : obj_at s4 p = Some (set_at_obj new x1)).
  { unfold s4. rewrite put_hdr_at by done. eapply obj_at_with. rewrite Ha2. exact Hx1. }
  unfold obj_unlock. eapply wp_upd_at; [exact Hx4|]. wp_pure. split; [done|].
  replace (set_at_obj_lock false (set_at_obj new x1)) with (set_at_obj new x) by (destruct x; cbn in Hlk; by rewrite Hlk).
  set (s5 := with_body p _ s4). assert (Hx5 : obj_at s5 p = Some (set_at_obj new x)) by (by eapply obj_at_with).
  assert (Hg5 : obj_sg s5 sg = Some g) by (unfold s5; rewrite obj_sg_with_other by done; unfold s4; by rewrite put_hdr_sg).
  assert (T5 : touch P s s5).
  { eapply touch_trans; [exact TL|]. eapply touch_trans; [eapply touch_mono, T2; intros q Hq; unfold P; rewrite !elem_of_cons, elem_of_app; tauto|].
    eapply touch_trans; [apply touch_with; by left|]. eapply touch_trans; [eapply touch_put; [exact Hk3|by right; left]|]. apply touch_with. by left. }
  assert (HP : ∀ q, q ∈ P → q ∈ N ∧ q ≠ at_pgmap x).
  { intros q [->|[->|[Hq|Hq]%elem_of_app]%elem_of_cons]%elem_of_cons; [done|done|by destruct (Hold q Hq) as ((? & ? & _) & _)|by destruct (HF q Hq) as (? & ? & _)]. }
  destruct (as_objects P s s5 x (set_at_obj new x) g N R ls Hs T5 HP Hx5 ltac:(done) Hg5) as (Hs5 & Tr & Ar & Rf).
  assert (Hh5 : ∀ q, q ≠ sg → ko_hdr <$> kobj_at s5 q = ko_hdr <$> kobj_at s2 q).
  { intros q Hq. unfold s5. rewrite with_body_hdr. unfold s4. rewrite put_hdr_hdr, decide_False by done. unfold s3. by rewrite with_body_hdr. }
  assert (Hpo : p ∉ old_obj x) by (intros Hq; by destruct (Hold p Hq) as ((_ & _ & ?) & _)).
  split; [done| |done|done|done|by rewrite Hh5, Hh2, Hhs1| | |].
  - exists h. split_and!; [|done|done]. unfold cur_hdr. by rewrite Hk, Ekh.
  - intros q Hq Hni. by rewrite Hh5, Hh2, Hhs1.
  - intros h0 Hni Hh0. unfold s5. rewrite with_body_hdr. unfold s4. rewrite put_hdr_hdr, decide_True by done.
    assert (E : ko_hdr <$> kobj_at s3 sg = Some h0) by (unfold s3; by rewrite with_body_hdr, Hh2, Hhs1). rewrite Hk3 in E. by injection E as ->.
  - intros q h0 Hin Hq Hh0. rewrite Hh5 by done. apply Hu2; [done|]. by rewrite Hhs1.
Qed.

(** ** Either way *)

Definition found F s x g N R ls ref s0 x0 : Prop := (obj_cached s x ref ∧ s0 = s ∧ x0 = x) ∨ looked_up F s x g N R ls ref s0 x0.
Lemma kobj_get_found F s x g N R ls ref :
  as_inv s x g N R ls → at_obj_lock x = false → obj_cached s x ref ∨ obj_shared F s x N ref →
  ∃ s0 x0, kobj_get p ref kobj_segment s = Ret (0, sg) s0 ∧ found F s x g N R ls ref s0 x0.
Proof.
  intros Hs Hlk [Hc|Hsh].
  - exists s, x. split; [by apply (kobj_get_cached s x); [apply Hs| |]|]. by left.
  - destruct (kobj_get_shared F s x g N R ls ref Hs Hlk Hsh) as (s0 & x0 & ? & ?). exists s0, x0. split; [done|by right].
Qed.
(** What both have in common. *)
Lemma found_same F s x g N R ls ref s0 x0 : as_inv s x g N R ls → found F s x g N R ls ref s0 x0 →
  as_inv s0 x0 g N R ls ∧ same_at x x0 ∧ at_pgmap_lock x0 = at_pgmap_lock x ∧ transparent lvl (at_pgmap x) (kn_mem s) g (kn_mem s0) g ∧
  same_arrays (kn_mem s) (kn_mem s0) (arrays x g) ∧
  (∀ q, q ∈ (arrays x g ≫= a_refs (kn_mem s)) ++ R → pm_page (kn_mem s0) !! q = pm_page (kn_mem s) !! q) ∧
  touch (p :: sg :: old_obj x ++ F) s s0 ∧ ko_hdr <$> kobj_at s0 p = ko_hdr <$> kobj_at s p.
Proof.
  intros Hs [(_ & -> & ->)|[Hi (h & _ & _ & ->) [Ht Ha] Hr Hto Hp _ _ _]]; [|done].
  destruct (as_objects [] s s x x g N R ls Hs (touch_refl _ _)) as (_ & _ & Ha & _); [by intros q ?%not_elem_of_nil|apply Hs|done|apply Hs|].
  split_and!; [done|done|done|done|done|done|apply touch_refl|done].
Qed.
(** It does not matter whether locks of the tree were taken or the range cache written before. *)
Lemma found_before F s x x' g N R ls ref s0 x0 :
  as_inv s x g N R ls → same_fault x x' → found F (with_body p (KAt x') s) x' g N R ls ref s0 x0 →
  ∃ t y, found F s x g N R ls ref t y ∧ s0 = with_body p (KAt x0) t ∧ same_at y x0.
Proof.
  intros Hs Hf. pose proof Hf as (Hsa & Hl1 & Hl2 & Ho). pose proof Hs as [Hx _ _ _ H]. set (s' := with_body p (KAt x') s).
  destruct (as_objects [p] s s' x x' g N R ls Hs (touch_with _ _ _ _ ltac:(by left))) as (Hs' & Tr' & Ar' & Rf');
    [intros q ->%list_elem_of_singleton; by apply (as_objs _ _ _ _ _ _ _ _ _ H)|by eapply obj_at_with|done|unfold s'; rewrite obj_sg_with_other; [apply Hs|apply not_eq_sym, (as_objs _ _ _ _ _ _ _ _ _ H)]|]. pose proof Hsa as (Ep & Eu & Ea).
  assert (Hcur : cur_hdr s' = cur_hdr s).
  { unfold cur_hdr, cur_ps. destruct (touch_cur [p] s s' (touch_with _ _ _ _ ltac:(by left))) as [-> ->]. apply with_body_hdr. }
  assert (Hhit : ∀ i, cache_hit i x' ref = cache_hit i x ref) by (intros i; unfold cache_hit; by rewrite Ho).
  assert (Eold : old_obj x' = old_obj x) by (unfold old_obj; by rewrite Ho).
  assert (Ear : arrays x' g = arrays x g) by (unfold arrays; by rewrite Eu, Ea).
  intros [(Hc & -> & ->)|[Hi (h & Hh & Hm & ->) [Ht Ha] Hr Hto Hp H1 H2 H3]].
  - exists s, x. split_and!; [|done|done]. left. split; [|done]. destruct Hc as (h & Hh & Hht & Hk). exists h. by rewrite <- Hcur, <- Hhit, <- Ho.
  - set (y := set_at_obj (AtObj ref sg (ko_id h)) x). set (y' := set_at_obj (AtObj ref sg (ko_id h)) x') in *.
    pose proof (as_at _ _ _ _ _ _ _ _ _ Hi) as Hx0. assert (Hsy : same_at y' y) by (by split_and!).
    set (t := with_body p (KAt y) s0).
    destruct (as_objects [p] s0 t y' y g N R ls Hi (touch_with _ _ _ _ ltac:(by left))) as (Hi' & Tr0 & Ar0 & Rf0);
      [intros q ->%list_elem_of_singleton; change (at_pgmap y') with (at_pgmap x'); rewrite Ep; by apply (as_objs _ _ _ _ _ _ _ _ _ H)|by eapply obj_at_with|done|
       unfold t; rewrite obj_sg_with_other; [apply Hi|apply not_eq_sym, (as_objs _ _ _ _ _ _ _ _ _ H)]|].
    change (arrays y' g) with (arrays x' g) in Ar0, Rf0. rewrite Ear in *.
    exists t, y. rewrite Eold in *. split_and!; [right|unfold t; rewrite with_body_twice; symmetry; by apply with_at_id|by split_and!].
    split; [done| | | | | | | |].
    + exists h. by rewrite <- Hcur, <- Hhit.
    + split; [|by eapply same_arrays_trans, same_arrays_trans]. rewrite <- Ep. eapply transparent_trans; [rewrite Ep; exact Tr'|]. eapply transparent_trans; [exact Ht|exact Tr0].
    + destruct (same_arrays_lists _ _ _ Ar') as (_ & _ & E1). destruct (same_arrays_lists _ _ _ Ha) as (_ & _ & E2).
      intros q Hq. rewrite Rf0, Hr, Rf'; rewrite ?E2, ?E1; done.
    + eapply touch_trans; [apply touch_with; by left|]. eapply touch_trans; [exact Hto|]. apply touch_with. by left.
    + unfold t. rewrite with_body_hdr, Hp. apply with_body_hdr.
    + intros q Hq Hn. unfold t. rewrite with_body_hdr, H1 by done. apply with_body_hdr.
    + intros h0 Hn Hh0. unfold t. rewrite with_body_hdr. apply H2; [done|]. unfold s'. by rewrite with_body_hdr.
    + intros q h0 Hin Hq Hh0. unfold t. rewrite with_body_hdr. apply H3; [done|done|]. unfold s'. by rewrite with_body_hdr.
Qed.

(** ** Emptying the cache *)

Definition no_obj x : Address_tree := set_at_obj (AtObj (Sobj (so_share (ao_ref (at_obj x))) 0) (ao_ko (at_obj x)) (ao_ps_id (at_obj x))) x.
(** The reference of the cache is given back. *)
Definition flushed s x : kern :=
  match old_obj x with
  | [] => s
  | q :: _ => with_body p (KAt (no_obj x)) (match kobj_at s q with Some k => unref q k s | None => s end)
  end.
Lemma put_with_comm s q k b : q ≠ p → put_obj q k (with_body p b s) = with_body p b (put_obj q k s).
Proof.
  intros Hq. unfold with_body. rewrite kobj_at_other by done. destruct (kobj_at s p) as [kp|]; [|done].
  destruct s as [[]]. unfold put_obj, set_mem, set_page. cbn. by rewrite insert_insert_ne.
Qed.
Lemma flush_run s x :
  obj_at s p = Some x → at_obj_lock x = false →
  (∀ q, q ∈ old_obj x → q ≠ p ∧ ∃ h, ko_hdr <$> kobj_at s q = Some h ∧ 1 < ko_ref h < 2 ^ 64) →
  kobj_cache_flush p s = Ret tt (flushed s x).
Proof.
  intros Hx Hlk Hold. set (x1 := set_at_obj_lock true x). apply wp_run_eq. unfold kobj_cache_flush, obj_lock. wp_pure. eapply wp_get_at; [exact Hx|].
  rewrite Hlk. eapply wp_put_at; [exact Hx|]. fold x1. wp_pure. eapply wp_get_at; [by eapply obj_at_with|]. change (at_obj x1) with (at_obj x).
  unfold flushed, old_obj in *. destruct (Z.eqb_spec (so_object (ao_ref (at_obj x))) 0) as [Hz|Hnz].
  - apply wp_bind, wp_when_false; [done|]. wp_pure. eapply wp_upd_at; [by eapply obj_at_with|]. wp_pure. unfold obj_unlock. rewrite with_body_twice.
    eapply wp_upd_at; [by eapply obj_at_with|]. split; [done|]. rewrite with_body_twice. rewrite <- (with_at_id s p x Hx) at 2. do 2 f_equal.
    destruct x; cbn in *. subst. destruct at_obj as [[]]; cbn in *. by subst.
  - apply wp_bind, wp_when_true; [done|]. destruct (Hold (ao_ko (at_obj x))) as (Hq & h & Hh & Hr); [by left|]. apply fmap_Some in Hh as (k & Hk & ->).
    eapply wp_eq; [apply decref_run; [by rewrite kobj_with_other|done]|]. unfold unref. rewrite put_with_comm by done.
    set (s2 := put_obj _ _ s). assert (Hx2 : obj_at s2 p = Some x) by (unfold s2; by rewrite put_hdr_at).
    wp_pure. eapply wp_upd_at; [by eapply obj_at_with|]. rewrite with_body_twice. wp_pure. unfold obj_unlock.
    eapply wp_upd_at; [by eapply obj_at_with|]. split; [done|]. rewrite with_body_twice, Hk. fold s2. do 2 f_equal.
    destruct x; cbn in *. by subst.
Qed.
End lookup.
