(* ===== verification/FaultProps.v ===== *)
(** * The page fault handler

    [at_pmap_fill] finds the mapping of a faulting address, in the cache of the address
    tree or by a search of the table, and has [fill_segment] do the rest. *)
From S2P Require Import Prelude Machine Hashtable Locks Ktypes Kmem PageAlloc Pagetree Supply PageRefs PagetreeSpec PagetreeWhole PagetreeThms PagetreeProps Darray DarrayThms DarrayProps KMap Pmap PmapSpec PmapThms PmapProps Kobj Share At KobjThms Effects Space AtThms Fault Lookup.

Section handler.
Context (lvl : nat) (p sg : Z).
Implicit Types (m : pmem) (s : kern) (x : Address_tree) (g : Segment) (N R ls : list Z) (uam : u_address_mapping).
Local Abbreviation as_inv := (as_inv lvl p sg).
Local Abbreviation as_mem := (as_mem lvl p sg).

(** ** The search of the table *)

(** Whether a mapping covers [va] with the access asked for; its first and last address. *)
Definition covers uam (va reqflags : Z) : option (Z * Z) :=
  if negb (bit (um_flags uam) SEGMAP_READ) then None else
  if negb (Z.land (um_flags uam) reqflags =? reqflags) then None else
  if negb (um_type uam =? address_mapping_segment) && negb (um_type uam =? address_mapping_interior) then None else
  let va_start := ROUNDDOWN (um_va uam) PGSIZE in
  let '(len, ovf) := safe_mulptr 0 (um_num_pages uam) PGSIZE in
  let '(va_end, ovf) := safe_addptr ovf va_start len in
  if negb (ovf =? 0) || (va <? va_start) || (va_end <=? va) then None else Some (va_start, va_end).
(** The slot [i] of the table. *)
Definition slot_uam m x (i : Z) : option u_address_mapping := uam_at m (ent_addr m (at_uaddrmap x) i).
Definition slot_covers m x (i va reqflags : Z) : option (Z * Z) := slot_uam m x i ≫= λ uam, covers uam va reqflags.

Lemma as_utable_inv m x g N R ls : as_mem m x g N R ls →
  da_inv m (at_uaddrmap x) (tables m lvl (at_pgmap x) ++ ([at_addrmap x; sg_pages g] ≫= a_nodes m) ++ N) (([at_addrmap x; sg_pages g] ≫= a_refs m) ++ R).
Proof. intros H. apply (space_da_inv lvl (at_pgmap x) m [] (at_uaddrmap x) [at_addrmap x; sg_pages g]). apply (as_space _ _ _ _ _ _ _ _ _ H). Qed.
Lemma uam_hit s x g N R ls i node :
  as_inv s x g N R ls → 0 ≤ i < da_nent (at_uaddrmap x) → home_node (pm_conf (kn_mem s)) (da_pid (at_uaddrmap x)) = Some node →
  at_get_uaddrmap p i s = Ret (0, ent_addr (kn_mem s) (at_uaddrmap x) i) s ∧ is_Some (slot_uam (kn_mem s) x i).
Proof.
  intros [Hx _ _ _ H] Hi Hh. pose proof (as_utable_inv _ _ _ _ _ _ H) as Hti. pose proof Hti as [Ha _]. pose proof (as_utab _ _ _ _ _ _ _ _ _ H) as [He Hd Hs].
  pose proof Ha as [Hpt _ _ _ _ [_ Hov] _ Hin]. destruct (da_page_of _ _ _ _ _ _ Ha Hi Hov) as [Hk0 Hk].
  assert (H0 : pe_page (pt_entry (kn_mem s) (da_pt (at_uaddrmap x)) (i / da_pp (at_uaddrmap x))) ≠ 0) by (by apply Hin). split.
  - apply wp_run_eq. unfold at_get_uaddrmap. eapply wpx_wp; [eapply (uam_array_wpx s p _ _ False x Hx)|by intros []]. apply wp_wpx, wp_bind.
    eapply wp_eq; [eapply darray_get_hit; [exact Hti|exact Hi|exact Hh|done|by apply Hs]|]. wp_pure. split; [done|].
    cbn [fst snd]. split; [done|]. replace (set_mem (kn_mem s) s) with s by by destruct s.
    replace (set_at_uaddrmap (at_uaddrmap x) x) with x by by destruct x. by apply with_at_id.
  - destruct (table_entry_at _ _ UAM_SIZE _ _ i Hti He ltac:(lia) H0) as (Hp & Hsl & _).
    destruct (as_upages _ _ _ _ _ _ _ _ _ H (page_of (ent_addr (kn_mem s) (at_uaddrmap x) i))) as ([l Hl] & _).
    { rewrite Hp. by eapply page_in_refs. }
    unfold slot_uam, uam_at, elem_at. rewrite Hsl, Hl. by eexists.
Qed.
(** [find_uam] returns the first slot that covers the address. *)
Definition first_slot m x (i n va reqflags : Z) (res : option (Z * Z * Z)) : Prop :=
  match res with
  | None => ∀ j, i ≤ j < n → slot_covers m x j va reqflags = None
  | Some (u, a, b) => ∃ j, i ≤ j < n ∧ u = ent_addr m (at_uaddrmap x) j ∧ slot_covers m x j va reqflags = Some (a, b) ∧
                      ∀ j', i ≤ j' < j → slot_covers m x j' va reqflags = None
  end.
Lemma find_uam_step s x va reqflags (n : nat) i uam :
  at_get_uaddrmap p i s = Ret (0, ent_addr (kn_mem s) (at_uaddrmap x) i) s → slot_uam (kn_mem s) x i = Some uam →
  find_uam (S n) i p va reqflags s =
    match covers uam va reqflags with
    | Some (a, b) => Ret (inl (Some (ent_addr (kn_mem s) (at_uaddrmap x) i, a, b))) s
    | None => find_uam n (i + 1) p va reqflags s
    end.
Proof.
  intros Hget Huam. cbn [find_uam]. unfold mbind, m_bind at 1. rewrite Hget. cbn [fst snd]. rewrite Z.ltb_irrefl. unfold get_uam, deref, mbind, m_bind.
  unfold slot_uam in Huam. rewrite Huam. unfold covers. destruct (negb (bit _ _)); [done|]. destruct (negb (Z.land _ _ =? _)); [done|].
  destruct (negb (um_type uam =? _) && _); [done|]. cbv zeta. destruct (safe_mulptr _ _ _) as [len o1]. destruct (safe_addptr _ _ _) as [ve o2].
  by destruct (_ || _ || _).
Qed.
Lemma find_uam_run s x g N R ls va reqflags node (n : nat) i :
  as_inv s x g N R ls → home_node (pm_conf (kn_mem s)) (da_pid (at_uaddrmap x)) = Some node → 0 ≤ i → i + Z.of_nat n ≤ da_nent (at_uaddrmap x) →
  ∃ res, find_uam n i p va reqflags s = Ret (inl res) s ∧ first_slot (kn_mem s) x i (i + Z.of_nat n) va reqflags res.
Proof.
  intros Hs Hh. revert i. induction n as [|n IH]; intros i Hi Hn.
  { exists None. split; [done|]. intros j Hj. lia. }
  destruct (uam_hit s x g N R ls i node Hs ltac:(lia) Hh) as [Hget [uam Huam]]. rewrite (find_uam_step s x va reqflags n i uam Hget Huam).
  assert (Hci : slot_covers (kn_mem s) x i va reqflags = covers uam va reqflags) by (unfold slot_covers; by rewrite Huam).
  destruct (covers uam va reqflags) as [[a b]|].
  - eexists. split; [done|]. exists i. split_and!; [lia|lia|done|done|]. intros j' Hj'. lia.
  - destruct (IH (i + 1) ltac:(lia) ltac:(lia)) as (res & Hf & Hres). exists res. split; [done|].
    replace (i + 1 + Z.of_nat n) with (i + Z.of_nat (S n)) in Hres by lia. destruct res as [[[u a] b]|]; cbn in Hres |- *.
    + destruct Hres as (j & Hj & Hu & Hcj & Hlow). exists j. split_and!; [lia|lia|done|done|]. intros j' Hj'.
      destruct (decide (j' = i)) as [->|]; [done|]. apply Hlow. lia.
    + intros j Hj. destruct (decide (j = i)) as [->|]; [done|]. apply Hres. lia.
Qed.
(** A mapping that covers an address is one [at_va_to_segment_page] accepts for its page. *)
Lemma covers_in_mapping uam va reqflags a b : in_u64 (um_va uam) → in_u64 (um_num_pages uam) → in_u64 va →
  covers uam va reqflags = Some (a, b) → in_mapping uam (ROUNDDOWN va PGSIZE).
Proof.
  intros Hv Hn Hva. unfold covers. do 3 (case_match; [done|]). cbv zeta.
  destruct (safe64_exact (um_num_pages uam) PGSIZE Hn ltac:(unfold in_u64; change PGSIZE with 4096; lia)) as [_ Em]. change safe_mulptr with safe_mul64. rewrite Em.
  pose proof (u64_range (um_num_pages uam * PGSIZE)) as Hl. destruct (ROUNDDOWN_spec (um_va uam) PGSIZE Hv ltac:(done)) as [Hr Hr0].
  assert (Hs : in_u64 (ROUNDDOWN (um_va uam) PGSIZE)) by (unfold in_u64, ROUNDDOWN in *; rewrite u64_small in * by done; pose proof (Z.mod_pos_bound (um_va uam) PGSIZE ltac:(done)); pose proof (Z.mod_le (um_va uam) PGSIZE ltac:(lia) ltac:(done)); lia).
  destruct (Z.ltb_spec (um_num_pages uam * PGSIZE) (2 ^ 64)) as [Hlt|].
  2: { unfold safe_addptr, safe_add. by destruct (_ <? ROUNDDOWN (um_va uam) PGSIZE). }
  destruct (safe64_exact (ROUNDDOWN (um_va uam) PGSIZE) (u64 (um_num_pages uam * PGSIZE)) Hs Hl) as [Ea _]. change safe_addptr with safe_add64. rewrite Ea.
  rewrite (u64_small (um_num_pages uam * PGSIZE)) by (unfold in_u64 in *; change PGSIZE with 4096 in *; lia).
  destruct (Z.ltb_spec (ROUNDDOWN (um_va uam) PGSIZE + um_num_pages uam * PGSIZE) (2 ^ 64)); [|done]. cbn [Z.eqb negb orb].
  destruct (Z.ltb_spec va (ROUNDDOWN (um_va uam) PGSIZE)) as [|Hge]; [done|]. cbn [orb].
  destruct (Z.leb_spec (u64 (ROUNDDOWN (um_va uam) PGSIZE + um_num_pages uam * PGSIZE)) va) as [|Hlt']; [done|]. intros _.
  destruct (ROUNDDOWN_spec va PGSIZE Hva ltac:(done)) as [Hd Hd0]. split; [|lia]. clear - Hge Hd Hd0 Hr0. change PGSIZE with 4096 in *. dlia.
Qed.

(** ** Steps that write the address tree *)

Lemma with_body_uam s q b u : uam_at (kn_mem (with_body q b s)) u = uam_at (kn_mem s) u.
Proof.
  unfold with_body. destruct (kobj_at s q) as [k|] eqn:Hk; [|done]. apply kobj_at_Some in Hk. unfold uam_at, elem_at. cbn.
  destruct (decide (page_of u = q)) as [->|]; [by rewrite lookup_insert_eq, Hk|by rewrite lookup_insert_ne].
Qed.
(** What a fault on [va] in the mapping [uam] needs; [F] are pages of the shares through
    which the segment is found if the cache of the tree does not have it. *)
Record fault_ready F s x g N uam (va : Z) : Prop := FaultReady {
  fr_homes : homes p s x g;
  fr_uhome : is_Some (home_node (pm_conf (kn_mem s)) (da_pid (at_uaddrmap x)));
  fr_locks : at_pgmap_lock x = false ∧ at_obj_lock x = false;
  fr_size : da_esz (sg_pages g) = PGSIZE;
  fr_slot : slot_open sg (kn_mem s) x (um_kslot uam) ∧ 0 ≤ um_kslot uam < 2 ^ 63;
  fr_obj : obj_cached sg s x (um_object uam) ∨ obj_shared p sg F s x N (um_object uam);
  fr_va : in_mapping uam va ∧ in_space lvl va ∧ ∃ e, pm_walk (kn_mem s) lvl (at_pgmap x) va = inl e;
}.
Lemma same_ent_addr m m' a i : (∀ k, pt_entry m' (da_pt a) k = pt_entry m (da_pt a) k) → ent_addr m' a i = ent_addr m a i.
Proof. intros E. unfold ent_addr. by rewrite E. Qed.
(** Writing the address tree does not change where objects are found. *)
Lemma found_with F s x x' N ref : obj_at s p = Some x → same_fault x x' → let s' := with_body p (KAt x') s in
  obj_cached sg s x ref ∨ obj_shared p sg F s x N ref → obj_cached sg s' x' ref ∨ obj_shared p sg F s' x' N ref.
Proof.
  intros Hx Hf s'. pose proof Hf as ((Ep & _ & _) & _ & _ & Eo). destruct (touch_cur [p] s s' (touch_with _ _ _ _ ltac:(by left))) as [Er Ec].
  assert (Eh : ∀ q, ko_hdr <$> kobj_at s' q = ko_hdr <$> kobj_at s q) by (intros q; apply with_body_hdr).
  assert (Ecur : cur_ps s' = cur_ps s) by (unfold cur_ps; by rewrite Er, Ec).
  intros [(h & Hh & Hhit & Hko)|[(h & Hh & Hmiss) Hold HF Hrun]]; [left|right].
  - exists h. unfold cur_hdr, cache_hit. by rewrite Ecur, Eh, Eo.
  - split; unfold old_obj, cache_hit, cur_hdr; rewrite ?Eo, ?Ep; [exists h; by rewrite Ecur, Eh|intros q Hq; rewrite Eh; by apply Hold|done|].
    intros x2 Hf2. unfold s'. rewrite with_body_twice. change (cur_ps (with_body p (KAt x') s)) with (cur_ps s'). rewrite Ecur. apply Hrun. by eapply same_fault_trans.
Qed.
Lemma ready_with_at F s x x' g N R ls uam va :
  as_inv s x g N R ls → same_fault x x' → fault_ready F s x g N uam va → fault_ready F (with_body p (KAt x') s) x' g N uam va.
Proof.
  intros Hs Hf [[Ht Hg (h & Hh & Hhn)] Hu Hl Hsz [Hop Hk] Ho (Him & Hva & Hw)]. pose proof Hf as (Hsa & E1 & E2 & E3).
  destruct (as_with_at _ _ _ s x x' g N R ls Hs Hsa) as (Hs' & (W & _ & _) & A). set (s' := with_body p (KAt x') s) in *. destruct Hsa as (Ep & Eu & Ea).
  assert (Ec : pm_conf (kn_mem s') = pm_conf (kn_mem s)) by (apply (touch_info [p]), touch_with; by left).
  destruct (A (at_addrmap x)) as (_ & _ & _ & Et); [by right; left|]. split.
  - split; rewrite ?Ea, Ec; [done|done|]. exists h. unfold s'. by rewrite with_body_hdr.
  - by rewrite Eu, Ec.
  - by rewrite E1, E2.
  - done.
  - split; [|done]. unfold slot_open. rewrite Ea, Et, (same_ent_addr _ _ _ _ Et). intros H0 y. unfold s'. rewrite with_body_am. by apply Hop.
  - by apply (found_with F s x x'); [apply Hs| |].
  - by rewrite Ep, W.
Qed.
Lemma fault_before s x x' g N R ls uam va r s' :
  as_inv s x g N R ls → same_at x x' → fault_post lvl p sg (with_body p (KAt x') s) x' g N R ls uam va r s' → in_space lvl va →
  fault_post lvl p sg s x g N R ls uam va r s'.
Proof.
  intros Hs Hsa (x2 & g2 & ls2 & Hs2 & Ep2 & Ho & Hls & Hv & Hres) Hva. destruct (as_with_at _ _ _ s x x' g N R ls Hs Hsa) as (_ & (W & V & _) & _).
  destruct Hsa as (Ep & _ & _). rewrite Ep in *. exists x2, g2, ls2. split_and!; [done|done| |done|intros k Hk; by rewrite Hv, V|].
  - eapply others_trans; [eapply others_with; [apply Hs|by left]|exact Ho].
  - destruct Hres as [(-> & H1 & H2 & H3 & e & H4 & H5 & H6 & H7 & H8 & Hw)|(Hr & Hw)]; [left|right].
    + split; [done|]. split_and!; [done|done|done|]. exists e. split_and!; try done. intros va' Hva'. rewrite Ep in Hw. rewrite Hw by done. case_match; [done|by apply W].
    + split; [done|]. intros va' Hva'. by rewrite Hw, W.
Qed.
Lemma fault_after s x g N R ls uam va r s' f (Q : unit → kern → Prop) :
  fault_post lvl p sg s x g N R ls uam va r s' → (∀ x, same_at x (f x)) →
  (∀ s'', fault_post lvl p sg s x g N R ls uam va r s'' → Q tt s'') → wp (upd_at p f) s' Q.
Proof.
  intros (x2 & g2 & ls2 & Hs2 & Ep2 & Ho & Hls & Hv & Hres) Hf HQ. eapply wp_upd_at; [apply (as_at _ _ _ _ _ _ _ _ _ Hs2)|]. apply HQ.
  destruct (as_with_at _ _ _ s' x2 (f x2) g2 N R ls2 Hs2 (Hf x2)) as (Hs3 & (W & V & _) & A). destruct (Hf x2) as (Ep & _ & Ea).
  exists (f x2), g2, ls2. rewrite Ep, Ep2. rewrite Ep2 in W. split_and!; [done|done| |done|intros k Hk; by rewrite V, Hv|].
  - eapply others_trans; [exact Ho|eapply others_with; [apply Hs2|by left]].
  - destruct (A (sg_pages g2)) as (_ & _ & _ & Eg); [by right; right; left|]. destruct (A (at_addrmap x2)) as (_ & _ & _ & Et); [by right; left|].
    destruct Hres as [(-> & H1 & H2 & H3 & e & H4 & H5 & H6 & H7 & H8 & Hw)|(Hr & Hw)]; [left|right].
    + split; [done|]. unfold fault_done. cbv zeta. rewrite Eg, Ea, (same_ent_addr _ _ _ _ Et). split_and!; [done|done|done|]. exists e. split_and!; try done.
      intros va' Hva'. rewrite W by done. by apply Hw.
    + split; [done|]. intros va' Hva'. by rewrite W, Hw.
Qed.

(** ** The handler *)

(** The object was found, from [s0] on the page was mapped or the attempt failed. *)
Definition handled F s x g N R ls uam (va r : Z) s' : Prop :=
  ∃ s0 x0, found lvl p sg F s x g N R ls (um_object uam) s0 x0 ∧ fault_post lvl p sg s0 x0 g N R ls uam va r s'.
Lemma handled_before F s x x' g N R ls uam va r s' :
  as_inv s x g N R ls → same_fault x x' → in_space lvl va →
  handled F (with_body p (KAt x') s) x' g N R ls uam va r s' → handled F s x g N R ls uam va r s'.
Proof.
  intros Hs Hf Hva (s0 & x0 & Hfd & Hp). destruct (found_before _ _ _ F s x x' g N R ls _ s0 x0 Hs Hf Hfd) as (t & y & Hfy & -> & Hsa).
  exists t, y. split; [done|]. eapply fault_before; [|exact Hsa|exact Hp|done]. by destruct (found_same _ _ _ _ _ _ _ _ _ _ _ _ _ Hs Hfy).
Qed.
(** Shortage of memory is seen from before. *)
Lemma short_before s s' x x' g uam va : same_at x x' → transparent lvl (at_pgmap x) (kn_mem s) g (kn_mem s') g →
  pm_conf (kn_mem s') = pm_conf (kn_mem s) → pm_info (kn_mem s') = pm_info (kn_mem s) →
  out_of_memory (kn_mem s') x' g uam va → out_of_memory (kn_mem s) x g uam va.
Proof.
  intros (_ & _ & Ea) (_ & _ & Hp) Hc Hi (H1 & H2 & H3 & H4). split_and!; [done|done|apply Hp; [apply Z.mod_pos_bound; lia|done]|].
  eapply few_free_le; [eapply takes_few; [by apply takes_same|exact H4]|]. unfold slot_cost. rewrite Ea. apply Nat.le_refl.
Qed.
Lemma fill_mapping_wpx F s x g N R ls uam va fill reqflags :
  as_inv s x g N R ls → fault_ready F s x g N uam va → um_type uam ≠ address_mapping_interior →
  wpx (at_pmap_fill_mapping fill p uam va reqflags) s (handled F s x g N R ls uam va) (out_of_memory (kn_mem s) x g uam va).
Proof.
  intros Hs [[Hht Hhg (h & Hh & Hhm)] _ [Hl1 Hl2] Hsz [Hop Hk] Hc (Him & Hva & Hw)] Ht. unfold at_pmap_fill_mapping. rewrite (proj2 (Z.eqb_neq _ _) Ht).
  destruct (kobj_get_found _ _ _ F s x g N R ls _ Hs Hl2 Hc) as (s0 & x0 & Hget & Hfd).
  destruct (found_same _ _ _ _ _ _ _ _ _ _ _ _ _ Hs Hfd) as (Hs0 & Hsa & Hl0 & Tr & Ar & Rf & To & Hp0). pose proof Hsa as (Ep & Eu & Ea).
  destruct (touch_info _ _ _ To) as [Ec Ei]. destruct (Ar (at_addrmap x)) as (_ & _ & _ & Et); [by right; left|].
  eapply wpx_mono; [eapply (fill_segment_wpx lvl p sg s s0 x0 g N R ls uam va Hget Hs0)| |].
  - split; rewrite ?Ea, Ec; [done|done|]. exists h. by rewrite Hp0.
  - by rewrite Hl0.
  - done.
  - unfold slot_open. rewrite Ea, Et, (same_ent_addr _ _ _ _ Et). intros H0 y.
    pose proof (as_table_inv _ _ _ _ _ _ _ _ _ (as_m _ _ _ _ _ _ _ _ _ Hs)) as Hti. pose proof (as_tab _ _ _ _ _ _ _ _ _ (as_m _ _ _ _ _ _ _ _ _ Hs)) as [He _ _].
    destruct (table_entry_at _ _ _ _ _ (um_kslot uam) Hti He ltac:(lia) H0) as (Epg & _ & _). rewrite (am_at_ext (kn_mem s)); [by apply Hop|].
    apply Rf, elem_of_app. left. apply list_elem_of_bind. exists (at_addrmap x). split; [|by right; left]. rewrite Epg.
    eapply page_in_refs; [apply Hti|apply Z.div_pos; [lia|]|done]. pose proof (da_pp_pos _ _ _ _ (proj1 Hti)). lia.
  - done.
  - done.
  - done.
  - destruct Tr as (W & _). by rewrite Ep, W.
  - intros r s' Hp. by exists s0, x0.
  - by apply short_before.
Qed.

(** The cached mapping may be used for [va]. *)
Definition usable x uam (va reqflags : Z) : bool :=
  negb (um_flags uam =? 0) && (ar_va_start (at_range x) <=? va) && (va <? ar_va_end (at_range x)) && (Z.land (um_flags uam) reqflags =? reqflags).
Definition range_miss m x (va reqflags : Z) : Prop :=
  ar_uam (at_range x) = 0 ∨ ∃ uam, uam_at m (ar_uam (at_range x)) = Some uam ∧ usable x uam va reqflags = false.
(** The mapping a fault on [va] is for: the cached one, or the first of the table. *)
Inductive mapping_for m x (va reqflags : Z) : u_address_mapping → Prop :=
| in_cache uam : ar_uam (at_range x) ≠ 0 → uam_at m (ar_uam (at_range x)) = Some uam → usable x uam va reqflags = true → mapping_for m x va reqflags uam
| in_table u a b uam : range_miss m x va reqflags → first_slot m x 0 (da_nent (at_uaddrmap x)) va reqflags (Some (u, a, b)) → uam_at m u = Some uam →
    mapping_for m x va reqflags uam.

Lemma cached_hit s x va reqflags uam : obj_at s p = Some x → ar_uam (at_range x) ≠ 0 → uam_at (kn_mem s) (ar_uam (at_range x)) = Some uam →
  usable x uam va reqflags = true → cached_uam p va reqflags s = Ret (Some uam) s.
Proof.
  intros Hx H0 Hu Huse. apply wp_run_eq. unfold cached_uam. wp_pure. eapply wp_get_at; [exact Hx|]. cbv zeta. rewrite (proj2 (Z.eqb_neq _ _) H0). wp_pure.
  unfold get_uam. eapply wp_deref; [exact Hu|]. wp_pure. unfold usable in Huse. by rewrite Huse.
Qed.
Lemma cached_miss s x va reqflags : obj_at s p = Some x → range_miss (kn_mem s) x va reqflags → cached_uam p va reqflags s = Ret None s.
Proof.
  intros Hx Hm. apply wp_run_eq. unfold cached_uam. wp_pure. eapply wp_get_at; [exact Hx|]. cbv zeta.
  destruct (Z.eqb_spec (ar_uam (at_range x)) 0) as [Hz|Hnz]; [by wp_pure|]. destruct Hm as [|(uam & Hu & Huse)]; [done|]. wp_pure.
  unfold get_uam. eapply wp_deref; [exact Hu|]. wp_pure. unfold usable in Huse. by rewrite Huse.
Qed.
Lemma first_slot_unique m x i n va reqflags r1 r2 : first_slot m x i n va reqflags r1 → first_slot m x i n va reqflags r2 → r1 = r2.
Proof.
  destruct r1 as [[[u1 a1] b1]|], r2 as [[[u2 a2] b2]|]; cbn; [| | |done].
  - intros (j1 & H1 & -> & C1 & L1) (j2 & H2 & -> & C2 & L2). assert (j1 = j2) as ->; [|congruence].
    destruct (Z.lt_trichotomy j1 j2) as [Hlt|[->|Hlt]]; [|done|]; [rewrite L2 in C1 by lia|rewrite L1 in C2 by lia]; done.
  - intros (j & H1 & _ & C & _) L. by rewrite L in C.
  - intros L (j & H1 & _ & C & _). by rewrite L in C.
Qed.
(** The table seen after the address tree has been written. *)
Lemma first_slot_with s x x' g N R ls i n va reqflags res : as_inv s x g N R ls → same_at x x' →
  first_slot (kn_mem s) x i n va reqflags res → first_slot (kn_mem (with_body p (KAt x') s)) x' i n va reqflags res.
Proof.
  intros Hs Hsa. destruct (as_with_at _ _ _ s x x' g N R ls Hs Hsa) as (_ & _ & A). destruct Hsa as (_ & Eu & _).
  destruct (A (at_uaddrmap x)) as (_ & _ & _ & E); [by left|].
  assert (Hc : ∀ j, slot_covers (kn_mem (with_body p (KAt x') s)) x' j va reqflags = slot_covers (kn_mem s) x j va reqflags).
  { intros j. unfold slot_covers, slot_uam. by rewrite Eu, (same_ent_addr _ _ _ _ E), with_body_uam. }
  destruct res as [[[u a] b]|]; cbn.
  - intros (j & Hj & -> & C & L). exists j. rewrite Hc, Eu, (same_ent_addr _ _ _ _ E). split_and!; try done; [lia|lia|]. intros j' Hj'. rewrite Hc. by apply L.
  - intros L j Hj. rewrite Hc. by apply L.
Qed.
Lemma mapping_for_with s x x' g N R ls va reqflags uam : as_inv s x g N R ls → same_at x x' → at_range x' = at_range x →
  mapping_for (kn_mem s) x va reqflags uam → mapping_for (kn_mem (with_body p (KAt x') s)) x' va reqflags uam.
Proof.
  intros Hs Hsa Er. pose proof Hsa as (_ & Eu & _). intros [uam' H0 Hu Huse|u a b uam' Hm Hf Hu].
  - apply in_cache; [by rewrite Er|by rewrite Er, with_body_uam|unfold usable; by rewrite Er].
  - eapply in_table; [|rewrite Eu; by eapply first_slot_with|by rewrite with_body_uam]. unfold range_miss, usable. rewrite Er.
    destruct Hm as [|(v & Hv & Hno)]; [by left|right]. exists v. by rewrite with_body_uam.
Qed.
Lemma short_with s x x' g N R ls uam va : as_inv s x g N R ls → same_at x x' →
  out_of_memory (kn_mem (with_body p (KAt x') s)) x' g uam va → out_of_memory (kn_mem s) x g uam va.
Proof.
  intros Hs Hsa. destruct (as_with_at _ _ _ s x x' g N R ls Hs Hsa) as (_ & Tr & _).
  destruct (touch_info [p] s (with_body p (KAt x') s) (touch_with _ _ _ _ ltac:(by left))). by apply short_before.
Qed.
(** The mapping found by the search. *)
Lemma fill_found_wpx F s x g N R ls u a b uam va fill reqflags :
  as_inv s x g N R ls → fault_ready F s x g N uam va → um_type uam ≠ address_mapping_interior → uam_at (kn_mem s) u = Some uam →
  wpx (upd_at p (set_at_range (AtRange a b u));; uam ← get_uam u; at_pmap_fill_mapping fill p uam va reqflags) s
    (handled F s x g N R ls uam va) (out_of_memory (kn_mem s) x g uam va).
Proof.
  intros Hs Hr Ht Hu. set (x' := set_at_range (AtRange a b u) x). assert (Hsa : same_fault x x') by done.
  apply wpx_bind_wp. eapply wp_upd_at; [apply (as_at _ _ _ _ _ _ _ _ _ Hs)|]. fold x'.
  apply wpx_bind_wp. unfold get_uam. eapply wp_deref; [by rewrite with_body_uam|].
  destruct (as_with_at _ _ _ s x x' g N R ls Hs (proj1 Hsa)) as (Hs' & _ & _).
  eapply wpx_mono; [apply (fill_mapping_wpx F _ x' g N R ls); [exact Hs'|by eapply ready_with_at|done]| |].
  - intros r s' Hp. eapply handled_before; [exact Hs|exact Hsa|apply Hr|exact Hp].
  - by eapply short_with; [exact Hs|apply Hsa].
Qed.
(** Between the locks. *)
Lemma fill_locked_wpx F s x g N R ls va reqflags uam fill (Q : Z → kern → Prop) X :
  as_inv s x g N R ls → mapping_for (kn_mem s) x va reqflags uam → um_type uam ≠ address_mapping_interior →
  fault_ready F s x g N uam (ROUNDDOWN va PGSIZE) →
  (∀ r s', handled F s x g N R ls uam (ROUNDDOWN va PGSIZE) r s' → Q r s') → (out_of_memory (kn_mem s) x g uam (ROUNDDOWN va PGSIZE) → X) →
  ∃ c, cached_uam p va reqflags s = Ret c s ∧
    wpx (match c with
         | Some uam => at_pmap_fill_mapping fill p uam (ROUNDDOWN va PGSIZE) reqflags
         | None =>
             n ← at_nents p;
             f ← find_uam (Z.to_nat n) 0 p va reqflags;
             match f with
             | inr r => mret r
             | inl None => mret (- E_INVAL)
             | inl (Some (u, va_start, va_end)) =>
                 upd_at p (set_at_range (AtRange va_start va_end u));;
                 uam ← get_uam u;
                 at_pmap_fill_mapping fill p uam (ROUNDDOWN va PGSIZE) reqflags
             end
         end) s Q X.
Proof.
  intros Hs Hfor Ht Hr HQ HX. pose proof (as_at _ _ _ _ _ _ _ _ _ Hs) as Hx. destruct Hfor as [uam H0 Hu Huse|u a b uam Hm Hf Hu].
  - exists (Some uam). split; [by eapply cached_hit|]. eapply wpx_mono; [eapply fill_mapping_wpx; [exact Hs|exact Hr|done]|exact HQ|exact HX].
  - exists None. split; [by eapply cached_miss|]. apply wpx_bind_wp. unfold at_nents. wp_pure. eapply wp_get_at; [exact Hx|]. wp_pure.
    unfold darray_get_nent. destruct (fr_uhome _ _ _ _ _ _ _ Hr) as [node Hh].
    pose proof (as_utable_inv _ _ _ _ _ _ (as_m _ _ _ _ _ _ _ _ _ Hs)) as [[_ _ _ _ _ [Hn0 _] _ _] _].
    destruct (find_uam_run s x g N R ls va reqflags node (Z.to_nat (da_nent (at_uaddrmap x))) 0 Hs Hh) as (res & Hrun & Hfs); [lia|lia|].
    replace (0 + Z.of_nat (Z.to_nat (da_nent (at_uaddrmap x)))) with (da_nent (at_uaddrmap x)) in Hfs by lia.
    rewrite (first_slot_unique _ _ _ _ _ _ _ _ Hfs Hf) in Hrun. apply wpx_bind_wp. eapply wp_eq; [exact Hrun|].
    eapply wpx_mono; [eapply fill_found_wpx; [exact Hs|exact Hr|done|exact Hu]|exact HQ|exact HX].
Qed.
Lemma at_pmap_fill_wpx fuel F s x g N R ls va reqflags uam :
  as_inv s x g N R ls → at_map_lock x = Rw.RW_LOCK_BIAS → mapping_for (kn_mem s) x va reqflags uam → um_type uam ≠ address_mapping_interior →
  fault_ready F s x g N uam (ROUNDDOWN va PGSIZE) →
  wpx (at_pmap_fill (S fuel) p va reqflags) s (handled F s x g N R ls uam (ROUNDDOWN va PGSIZE)) (out_of_memory (kn_mem s) x g uam (ROUNDDOWN va PGSIZE)).
Proof.
  intros Hs Hlk Hfor Ht Hr. pose proof (as_at _ _ _ _ _ _ _ _ _ Hs) as Hx. cbn [at_pmap_fill]. unfold pmap_fill_step.
  set (x1 := set_at_map_lock (u32 (Rw.RW_LOCK_BIAS - 1)) x). assert (Hsa : same_fault x x1) by done. set (s1 := with_body p (KAt x1) s).
  apply wpx_bind_wp. unfold map_read_lock. wp_pure. eapply wp_get_at; [exact Hx|]. rewrite Hlk. wp_pure. apply wp_ret. eapply wp_put_at; [exact Hx|]. fold x1 s1.
  destruct (as_with_at _ _ _ s x x1 g N R ls Hs (proj1 Hsa)) as (Hs1 & _ & _). fold s1 in Hs1.
  destruct (fill_locked_wpx F s1 x1 g N R ls va reqflags uam (at_pmap_fill fuel)
    (λ r s', wpx (map_read_unlock p;; mret r) s' (handled F s x g N R ls uam (ROUNDDOWN va PGSIZE)) (out_of_memory (kn_mem s) x g uam (ROUNDDOWN va PGSIZE)))
    (out_of_memory (kn_mem s) x g uam (ROUNDDOWN va PGSIZE)) Hs1) as (c & Hc & Hw).
  - by eapply mapping_for_with.
  - done.
  - by eapply ready_with_at.
  - intros r s' Hp. apply wp_wpx. wp_pure. unfold map_read_unlock.
    destruct (handled_before F s x x1 g N R ls uam _ r s' Hs Hsa ltac:(apply Hr) Hp) as (s0 & x0 & Hfd & Hp0).
    eapply fault_after; [exact Hp0|done|]. intros s'' Hp'. wp_pure. by exists s0, x0.
  - by eapply short_with; [exact Hs|apply Hsa].
  - apply wpx_bind_wp. eapply wp_eq; [exact Hc|]. by apply wpx_bind.
Qed.
(** Nothing is mapped there. *)
Lemma unmapped_run fuel s x g N R ls va reqflags node :
  as_inv s x g N R ls → at_map_lock x = Rw.RW_LOCK_BIAS → home_node (pm_conf (kn_mem s)) (da_pid (at_uaddrmap x)) = Some node →
  range_miss (kn_mem s) x va reqflags → first_slot (kn_mem s) x 0 (da_nent (at_uaddrmap x)) va reqflags None →
  at_pmap_fill (S fuel) p va reqflags s = Ret (- E_INVAL) s.
Proof.
  intros Hs Hlk Hh Hm Hf. pose proof (as_at _ _ _ _ _ _ _ _ _ Hs) as Hx. apply wp_run_eq. cbn [at_pmap_fill]. unfold pmap_fill_step.
  set (x1 := set_at_map_lock (u32 (Rw.RW_LOCK_BIAS - 1)) x). assert (Hsa : same_at x x1) by done. set (s1 := with_body p (KAt x1) s).
  unfold map_read_lock. wp_pure. eapply wp_get_at; [exact Hx|]. rewrite Hlk. wp_pure. apply wp_ret. eapply wp_put_at; [exact Hx|]. fold x1 s1. wp_pure.
  destruct (as_with_at _ _ _ s x x1 g N R ls Hs Hsa) as (Hs1 & _ & _). fold s1 in Hs1. pose proof (as_at _ _ _ _ _ _ _ _ _ Hs1) as Hx1.
  eapply wp_eq; [eapply cached_miss; [exact Hx1|]|].
  { destruct Hm as [|(uam & Hu & Hno)]; [by left|right]. exists uam. split; [|done]. unfold s1. by rewrite with_body_uam. }
  wp_pure. unfold at_nents. wp_pure. eapply wp_get_at; [exact Hx1|]. wp_pure. unfold darray_get_nent.
  pose proof (as_utable_inv _ _ _ _ _ _ (as_m _ _ _ _ _ _ _ _ _ Hs)) as [[_ _ _ _ _ [Hn0 _] _ _] _].
  destruct (find_uam_run s1 x1 g N R ls va reqflags node (Z.to_nat (da_nent (at_uaddrmap x1))) 0 Hs1) as (res & Hrun & Hfs); [|lia|cbn; lia|].
  { destruct (touch_info [p] s s1 (touch_with _ _ _ _ ltac:(by left))) as [-> _]. done. }
  replace (0 + Z.of_nat (Z.to_nat (da_nent (at_uaddrmap x1)))) with (da_nent (at_uaddrmap x)) in Hfs by (cbn; lia).
  rewrite (first_slot_unique _ _ _ _ _ _ _ _ Hfs (first_slot_with s x x1 g N R ls _ _ _ _ None Hs Hsa Hf)) in Hrun.
  eapply wp_eq; [exact Hrun|]. wp_pure. unfold map_read_unlock. eapply wp_upd_at; [exact Hx1|]. wp_pure. split; [done|]. unfold s1. rewrite with_body_twice.
  replace (set_at_map_lock _ x1) with x by (destruct x; cbn in Hlk; by rewrite Hlk). by apply with_at_id.
Qed.
(** The error makes [at_pagefault] empty the cache of the tree. *)
Lemma unmapped_pagefault fuel s x g N R ls va reqflags node :
  as_inv s x g N R ls → at_map_lock x = Rw.RW_LOCK_BIAS → at_obj_lock x = false → home_node (pm_conf (kn_mem s)) (da_pid (at_uaddrmap x)) = Some node →
  (∀ q, q ∈ old_obj x → q ≠ p ∧ ∃ h, ko_hdr <$> kobj_at s q = Some h ∧ 1 < ko_ref h < 2 ^ 64) →
  range_miss (kn_mem s) x va reqflags → first_slot (kn_mem s) x 0 (da_nent (at_uaddrmap x)) va reqflags None →
  at_pagefault (S fuel) p va reqflags s = Ret (- E_INVAL) (flushed p s x).
Proof.
  intros Hs Hlk Hol Hh Hold Hm Hf. apply wp_run_eq. unfold at_pagefault. wp_pure. eapply wp_eq; [by eapply unmapped_run|]. wp_pure.
  apply wp_when_true; [done|]. eapply wp_eq; [by apply flush_run; [apply Hs| |]|]. by wp_pure.
Qed.
End handler.

(** C1: A page fault on a segment is handled: [at_pmap_fill] finds the mapping of the
    faulting address, in the range cache or as the first of the table that covers it, finds
    the segment, in the cache of the tree or through the shares of the processor (then the
    cache gets a reference to it and gives back the one it had), and maps the page.  If it
    returns 0, the address translates to the page the segment has for it, with the access
    the mapping allows, and all other addresses of the space translate as before; the
    mapping is on the list of the segment, so that a change of the segment finds it.  A new
    page is zero, so what is seen of the segment stays as it was: demand paging is
    transparent.  If it fails, the address is past the end of the segment or memory is
    short, and no translation and no content has changed.  All structures stay well-formed;
    the other objects, and the other pages except those with links of the list of mappings,
    are not changed at all once the segment is found.  The only way to panic is a page of a
    demand-allocated segment that is not there yet, when no more pages are free than
    entering the mapping into the table and the way to the page in the segment's tree can
    take.  It is assumed that the mapping is not one of an interior tree, that the locks
    are free, and that a lookup through the shares succeeds and writes only pages of the
    shares. *)
Theorem at_pmap_fill_correct lvl p sg fuel F s x g N R ls va reqflags uam :
  as_inv lvl p sg s x g N R ls → at_map_lock x = Rw.RW_LOCK_BIAS → mapping_for (kn_mem s) x va reqflags uam →
  um_type uam ≠ address_mapping_interior → fault_ready lvl p sg F s x g N uam (ROUNDDOWN va PGSIZE) →
  wpx (at_pmap_fill (S fuel) p va reqflags) s (handled lvl p sg F s x g N R ls uam (ROUNDDOWN va PGSIZE))
    (out_of_memory (kn_mem s) x g uam (ROUNDDOWN va PGSIZE)).
Proof. apply at_pmap_fill_wpx. Qed.

(** C15: A fault on an address nothing maps: if the range cache of the tree is empty or its
    mapping cannot be used for the address, and no slot of the table covers the address with
    the access asked for, [at_pagefault] returns [-E_INVAL].  It changes nothing, locks
    included, but for the cache of the last object: that is emptied and its reference given
    back.  (The reference must not be the last one of that object.) *)
Theorem unmapped_fault lvl p sg fuel s x g N R ls va reqflags node :
  as_inv lvl p sg s x g N R ls → at_map_lock x = Rw.RW_LOCK_BIAS → at_obj_lock x = false →
  home_node (pm_conf (kn_mem s)) (da_pid (at_uaddrmap x)) = Some node →
  (∀ q, q ∈ old_obj x → q ≠ p ∧ ∃ h, ko_hdr <$> kobj_at s q = Some h ∧ 1 < ko_ref h < 2 ^ 64) →
  range_miss (kn_mem s) x va reqflags → (∀ i, 0 ≤ i < da_nent (at_uaddrmap x) → slot_covers (kn_mem s) x i va reqflags = None) →
  at_pagefault (S fuel) p va reqflags s = Ret (- E_INVAL) (flushed p s x).
Proof. intros. by eapply unmapped_pagefault. Qed.

