(* ===== verification/FaultExamples.v ===== *)
(** * An address space on which the theorems of page faults apply

    A machine on which a fault finds its mapping in the table of the tree and the segment
    through the shares of the processor, with the proofs that it satisfies the hypotheses. *)
From S2P Require Import Prelude Machine Hashtable Locks Ktypes Kmem PageAlloc Pagetree Supply PageRefs PagetreeSpec PagetreeWhole PagetreeThms PagetreeProps Darray DarrayThms DarrayProps KMap Pmap PmapSpec PmapThms PmapProps Kobj Share At KobjThms Effects Space AtThms Fault Lookup FaultProps.

(** ** Tests for concrete machines *)

(** [refs_inv] as a test: [startb] for machines on which the pages [R] are referenced. *)
Definition refsb (m : pmem) (N R : list Z) : bool :=
  alloc_invb m && bool_decide (NoDup N) && forallb (λ p, page_usedb m p && bool_decide (p ∉ R)) N && forallb (page_usedb m) R &&
  forallb (λ ki, let c := cnt R (page_addr ki.1) in
    (pi_ref ki.2 =? c + pi_hw_ref ki.2) && (0 <=? pi_hw_ref ki.2) && (pi_ref ki.2 <? 2 ^ 32) && (negb (pi_freepage ki.2) || (pi_ref ki.2 =? 0)) &&
    (bool_decide (page_addr ki.1 ∉ N) || (pi_ref ki.2 =? 0))) (map_to_list (pm_info m)).
Lemma page_usedb_sound m p : page_usedb m p = true → page_used m p.
Proof.
  unfold page_usedb. rewrite !andb_true_iff. intros [[[Hp%Z.eqb_eq H0%Z.leb_le] H1%Z.ltb_lt] Hinf]. set (pn := (p - PHYSBASE) / PGSIZE) in *.
  destruct (pm_info m !! pn) as [i|] eqn:Hpn; [|done]. apply andb_true_iff in Hinf as [Hf%negb_true_iff Hw%negb_true_iff].
  exists pn, i. split; [by split|]. by split_and!.
Qed.
Lemma refsb_sound m N R : refsb m N R = true → refs_inv m N R.
Proof.
  unfold refsb. rewrite !andb_true_iff. intros [[[[Ha Hnd%bool_decide_eq_true] HN] HR] Hi].
  assert (Hinf : ∀ pn i, pm_info m !! pn = Some i → ref_ok i (cnt R (page_addr pn)) ∧ (page_addr pn ∈ N → pi_ref i = 0)).
  { intros pn i Hpn. apply elem_of_map_to_list, (forallb_elem _ _ _ Hi) in Hpn. cbn in Hpn. rewrite !andb_true_iff, !orb_true_iff, negb_true_iff in Hpn.
    destruct Hpn as [[[[H1%Z.eqb_eq H2%Z.leb_le] H3%Z.ltb_lt] H4] H5]. unfold ref_ok. split_and!; try done.
    - intros Hf. destruct H4 as [?|?%Z.eqb_eq]; [congruence|done].
    - intros HpN. destruct H5 as [H5%bool_decide_eq_true|?%Z.eqb_eq]; [by destruct H5|done]. }
  split; [by apply alloc_invb_sound|done| | | |].
  - intros p Hp. apply (forallb_elem _ _ _ HN), andb_true_iff in Hp as [Hu Hr%bool_decide_eq_true]. split; [by apply page_usedb_sound|done].
  - intros p pn i Hp [-> _] Hpn. by apply (proj2 (Hinf pn i Hpn)).
  - intros p Hp. apply (forallb_elem _ _ _ HR), page_usedb_sound in Hp. by apply page_used_live.
  - intros pn i _ Hpn. by apply Hinf.
Qed.

(** ** A machine with a segment nobody has touched

    Page 0 is the page map, page 1 the address tree, page 2 a segment of four pages, page 3
    the processor and page 4 the table of mappings of the tree, whose second slot maps the
    segment at [0x10000].  The processor holds the share in page 5, in which the segment has
    the identifier 5; pages 6 and 7 are the hash tables of the two and page 8 has the blobs of
    the share.  The cache of the tree holds another segment, in page 9. *)
Module FaultExample.
Definition npages : Z := 16.
Definition conf : mconf := MConf 0 [0] [MemNode 0 (4096 * npages) [true]] npages (KERNBASE + 1048576).
Definition tree1 (dem : bool) (a : Z) : pagetree :=
  Pagetree [PtEnt a page_excl false; null_ent; null_ent] (replicate 4 0) 0 dem.
Definition arr (sz : Z) (n : Z) (d : bool) : darray := Darray (pagetree_init d 0) Rw.rw_init 0 (PGSIZE / sz) sz n d.
Definition sg : Z := page_addr 2.
Definition uam : u_address_mapping := Uam address_mapping_segment (Sobj 1 5) 0 (Z.lor SEGMAP_READ SEGMAP_WRITE) 0x10000 0 4.
Definition uam0 : u_address_mapping := Uam address_mapping_segment (Sobj 1 6) 1 SEGMAP_READ 0x20000 0 2.
Definition x : Address_tree :=
  MkAt 0 Rec.rec_init (page_addr 0) false 0 0 0 false (Aml 0 false) Rw.rw_init
       (Darray (tree1 false (page_addr 4)) Rw.rw_init 0 (PGSIZE / UAM_SIZE) UAM_SIZE 2 false) (arr AM_SIZE 0 false)
       (AtObj (Sobj 1 6) (page_addr 9) 7) false (AtRange 0 0 0).
Definition g : Segment := Seg (Aml 0 false) (arr PGSIZE 4 true).
Definition obj (id type ref : Z) (b : kobj_body) : page := PgKobj (Kobject (KoHdr id type [] ref false 0) b null_link).
Definition map1 (a : Z) : Map := MkMap (tree1 false a) (HashTable false true N_HASHENTRY_PER_PAGE 1 0) zero_tree KMap.zero_table 1 false 0.
Definition hash1 (key val : Z) : page := PgHash {[probe_of key N_HASHENTRY_PER_PAGE 0 := HashEntry key val]}.
Definition blob (i : Z) : Z := page_addr 8 + i * BLOB_SIZE.
Definition ps : kobj_body :=
  KPs (MkPs zero_tf false 0 false false 0 0 (MkSharemap false (map1 (page_addr 6)) (page_addr 3) 0) [] 0 (Sobj 0 0) null_link).
Definition share : kobj_body := KSh (MkShare (map1 (page_addr 7)) [ShStore (blob 1) 1 (tree1 false (page_addr 8))] mcsrw_init 0).
Definition used : list (Z * page) :=
  [(0, PgZero); (1, obj 3 kobj_address_tree 1 (KAt x)); (2, obj 5 kobj_segment 1 (KSg g)); (3, obj 7 kobj_processor 1 ps);
   (4, PgUams {[0 := uam0; 1 := uam]}); (5, obj 1 kobj_share 1 share); (6, hash1 1 (page_addr 5)); (7, hash1 5 (blob 0));
   (8, PgBlobs {[0 := BInfo (ShInfo sg 0 1); 1 := BLink (Link 0 (Some (PHead (HBlob (page_addr 5) 0))))]});
   (9, obj 6 kobj_segment 2 (KSg g))].
Definition info (pn : Z) : page_info :=
  if pn =? 0 then pi_set_pmap true zero_info else if pn =? 4 then pi_set_ref 1 zero_info else if pn <? 10 then zero_info else pi_set_free true zero_info.
Definition mem : pmem :=
  PMem conf (list_to_map ((0, page_addr <$> seqZ 10 (npages - 10)) :: ((λ n, (n, [])) <$> seqZ 1 15))) ∅ 0
    (list_to_map ((λ n, (n, info n)) <$> seqZ 0 npages))
    (list_to_map (prod_map page_addr id <$> used ++ ((λ pn, (pn, PgJunk)) <$> seqZ 10 (npages - 10)))).
Definition machine : kern := Kern mem ∅ ∅ ∅ ∅ {[0 := page_addr 3]} ∅ 1 (page_addr 3 + 8) [].
Definition N : list Z := page_addr <$> ([0; 1; 2; 3] ++ seqZ 5 5).
Definition F : list Z := page_addr <$> [3; 5; 8].

Lemma tree1_indir d a i : indir (tree1 d a) i = 0.
Proof. by do 4 (destruct i as [|i]; [done|]). Qed.
Lemma tree1_entry m a n : 0 ≤ n → pt_entry m (tree1 false a) n = if n =? 0 then PtEnt a page_excl false else null_ent.
Proof.
  intros Hn. unfold pt_entry. destruct (Z.ltb_spec n PAGETREE_DIRECT_ENTRIES) as [Hl|Hl]; change PAGETREE_DIRECT_ENTRIES with 3 in Hl.
  - assert (n = 0 ∨ n = 1 ∨ n = 2) as [-> |[-> | ->]] by lia; reflexivity.
  - rewrite (proj2 (Z.eqb_neq n 0)) by lia. destruct (level_of n) as [[i r]|]; [|done]. rewrite tree1_indir. apply walk_null.
Qed.
Lemma arr_wf sz n d : 0 < sz ≤ PGSIZE → 0 ≤ n < 2 ^ 63 → n = 0 ∨ d = true → da_wf mem (arr sz n d).
Proof.
  intros Hsz Hn Hd. destruct (pagetree_init_shape mem d 0) as (_ & _ & Hok & He).
  assert (Hp : 0 < PGSIZE / sz ≤ PGSIZE) by (change PGSIZE with 4096 in *; split; [apply Z.div_str_pos; lia|apply Z.div_le_upper_bound; lia]).
  assert (Hpos : ∀ k, 0 ≤ da_npages (arr sz n d) k).
  { intros k. unfold da_npages, ROUNDUP. cbn [da_pp arr]. apply Z.div_pos; [|lia]. unfold ROUNDDOWN.
    pose proof (Z.mod_le (u64 (u64 (k + PGSIZE / sz - 1))) (PGSIZE / sz)). pose proof (u64_range (u64 (k + PGSIZE / sz - 1))) as [? _]. lia. }
  split; try done; cbn [da_pt da_nent da_pp arr].
  - intros k Hk. by rewrite He.
  - change PGSIZE with 4096 in *. lia.
  - intros k Hk. rewrite He; [done|]. specialize (Hpos n). lia.
  - cbn. intros -> k Hk. destruct Hd as [-> |]; [|done]. exfalso.
    assert (E : da_npages (arr sz 0 false) 0 = 0).
    { unfold da_npages. cbn [da_pp arr]. rewrite ROUNDUP_div; [|unfold in_u64; lia|lia|change PGSIZE with 4096 in *; lia]. apply Z.div_small. lia. }
    assert (Hk' : 0 ≤ k < da_npages (arr sz 0 false) 0) by exact Hk. rewrite E in Hk'. lia.
Qed.
Lemma table_wf : da_wf mem (at_uaddrmap x).
Proof.
  assert (Enp : da_npages (at_uaddrmap x) (da_nent (at_uaddrmap x)) = 1) by (vm_compute; reflexivity).
  split; try reflexivity; try rewrite Enp; cbn [at_uaddrmap x da_pt da_nent da_pp da_esz].
  - split; [reflexivity|reflexivity|]. intros i _. rewrite tree1_indir. apply tree_ok_null.
  - intros n Hn. rewrite tree1_entry by done. by destruct (n =? 0).
  - split; reflexivity || discriminate.
  - split; [discriminate|reflexivity].
  - intros n Hn. rewrite tree1_entry by lia. by rewrite (proj2 (Z.eqb_neq n 0)) by lia.
  - intros _ n Hn. replace n with 0 by lia. discriminate.
Qed.
Lemma arrays_wf a : a ∈ arrays x g → da_wf mem a.
Proof.
  unfold arrays. rewrite !elem_of_cons. intros [Ha|[Ha|[Ha|Ha]]]; rewrite ?Ha.
  - exact table_wf.
  - apply (arr_wf AM_SIZE 0 false); [done|lia|by left].
  - apply (arr_wf PGSIZE 4 true); [done|lia|by right].
  - by apply elem_of_nil in Ha.
Qed.
Lemma arr_empty sz n d : a_nodes mem (arr sz n d) = [] ∧ a_refs mem (arr sz n d) = [] ∧ ∀ k, 0 ≤ k → pt_entry mem (da_pt (arr sz n d)) k = null_ent.
Proof. by destruct (pagetree_init_shape mem d 0) as (H1 & H2 & _ & H3). Qed.
Lemma table_refs : a_nodes mem (at_uaddrmap x) = [] ∧ a_refs mem (at_uaddrmap x) = [page_addr 4].
Proof. split; vm_compute; reflexivity. Qed.
Lemma fx_infos pn i : pm_info mem !! pn = Some i → (pi_pmap i = true → page_addr pn ∈ N) ∧ pi_clear_lock i = false.
Proof.
  assert (Hall : forallb (λ ki, implb (pi_pmap ki.2) (bool_decide (page_addr ki.1 ∈ N)) && negb (pi_clear_lock ki.2)) (map_to_list (pm_info mem)) = true)
    by (vm_compute; reflexivity).
  intros Hi%elem_of_map_to_list. apply (forallb_elem _ _ _ Hall) in Hi. cbn [fst snd] in Hi. apply andb_true_iff in Hi as [H1 H2%negb_true_iff].
  split; [|done]. intros Hp. rewrite Hp in H1. by apply bool_decide_eq_true in H1.
Qed.
Lemma fx_root : root_map mem 3 (page_addr 0).
Proof. exists 0, (pi_set_pmap true zero_info). split; [split; [done|cbn; unfold npages; lia]|]. split; [vm_compute; reflexivity|done]. Qed.
Lemma fx_marks pn : pmap_bit mem (page_addr pn) = true → page_addr pn ∈ N.
Proof. unfold pmap_bit. rewrite page_number. destruct (pm_info mem !! pn) as [i|] eqn:Hi; [by apply fx_infos|discriminate]. Qed.
Lemma fx_space : space mem 3 (page_addr 0) (arrays x g) N [].
Proof.
  destruct table_refs as (Nu & Ru), (arr_empty AM_SIZE 0 false) as (Na & Ra & _), (arr_empty PGSIZE 4 true) as (Ng & Rg & _).
  split; [|by left|apply MapExample.map_okb_sound; vm_compute; reflexivity|exact fx_root|exact fx_marks|exact arrays_wf].
  assert (HT : tables mem 3 (page_addr 0) = []) by (vm_compute; reflexivity). rewrite HT. unfold arrays. rewrite !bind_cons. cbn [at_addrmap x sg_pages g].
  rewrite Nu, Na, Ng, Ru, Ra, Rg. apply refsb_sound. vm_compute. reflexivity.
Qed.
Lemma in_N q : bool_decide (q ∈ N) = true → q ∈ N.
Proof. apply bool_decide_eq_true. Qed.
Lemma fx_objs : (page_addr 1 ∈ N ∧ page_addr 1 ≠ page_addr 0) ∧ (sg ∈ N ∧ sg ≠ page_addr 0) ∧ page_addr 1 ≠ sg.
Proof. split_and!; [apply in_N; vm_compute; reflexivity|done|apply in_N; vm_compute; reflexivity|done|done]. Qed.
Lemma fx_mem : as_mem 3 (page_addr 1) sg mem x g N [] [].
Proof.
  destruct table_refs as (_ & Ru), (arr_empty AM_SIZE 0 false) as (_ & Ra & Ea), (arr_empty PGSIZE 4 true) as (_ & Rg & Eg).
  split; [exact fx_space|exact fx_objs|split; [reflexivity|reflexivity|]|split; [reflexivity|reflexivity|]| | | | | |]; cbn [at_addrmap x sg_pages g].
  - intros k Hk. cbn [at_uaddrmap x da_pt]. rewrite tree1_entry by exact Hk. by destruct (k =? 0).
  - intros k Hk. rewrite Ea by exact Hk. reflexivity.
  - intros q. rewrite Ru, Ra, Rg. intros ->%list_elem_of_singleton. split; [eexists; vm_compute; reflexivity|]. split; apply not_elem_of_nil.
  - intros q. rewrite Ra. by intros ?%not_elem_of_nil.
  - intros e y. rewrite Ra. by intros ?%not_elem_of_nil.
  - by intros e ?%not_elem_of_nil.
  - intros k Hk. rewrite Eg by exact Hk. intros Hz. by destruct Hz.
  - intros pn i Hi. exact (proj2 (fx_infos pn i Hi)).
Qed.
Lemma fx_inv : as_inv 3 (page_addr 1) sg machine x g N [] [].
Proof.
  split; [vm_compute; reflexivity|vm_compute; reflexivity|reflexivity| |exact fx_mem].
  split; [vm_compute; reflexivity|by intros i e|apply NoDup_nil_2|by intros e ?%not_elem_of_nil].
Qed.

(** The lookup through the shares, whatever the tree has in its caches. *)
Definition locked (x' : Address_tree) : kern := with_body (page_addr 1) (KAt (set_at_obj_lock true x')) machine.
Definition after (x' : Address_tree) : kern :=
  match sharemap_co_obj (page_addr 3) (um_object uam) kobj_segment (locked x') with Ret _ s => s | Crash _ => machine end.
Lemma lookup_run x' : sharemap_co_obj (page_addr 3) (um_object uam) kobj_segment (locked x') = Ret (0, sg) (after x').
Proof. vm_compute. reflexivity. Qed.
Lemma lookup_others x' q : q ∉ F → pm_page (kn_mem (after x')) !! q = pm_page (kn_mem (locked x')) !! q.
Proof.
  assert (E : foldr delete (pm_page (kn_mem (after x'))) F = foldr delete (pm_page (kn_mem (locked x'))) F) by (vm_compute; reflexivity).
  intros Hq. assert (Hf : ∀ (M : gmap Z page), foldr delete M F !! q = M !! q).
  { intros M. revert Hq. generalize F. induction l as [|r l IH]; [done|]. rewrite not_elem_of_cons. intros [Hr Hl]. cbn. rewrite lookup_delete_ne by done. by apply IH. }
  rewrite <- Hf, E. apply Hf.
Qed.
Lemma in_F q : q ∈ F → q = page_addr 3 ∨ q = page_addr 5 ∨ q = page_addr 8.
Proof. unfold F. cbn [fmap list_fmap]. rewrite !elem_of_cons. intros [?|[?|[?|Hq%elem_of_nil]]]; [tauto..|done]. Qed.
Lemma lookup_hdrs x' q : ko_hdr <$> kobj_at (after x') q = ko_hdr <$> kobj_at (locked x') q.
Proof.
  destruct (decide (q ∈ F)) as [Hq|Hq]; [|unfold kobj_at; by rewrite lookup_others].
  apply in_F in Hq as [-> |[-> | ->]]; vm_compute; reflexivity.
Qed.
Lemma lookup_touch x' : touch F (locked x') (after x').
Proof.
  split; [vm_compute; reflexivity|vm_compute; reflexivity|apply lookup_others|]. intros q Hq.
  destruct (decide (q ∈ F)) as [HF|HF]; [|by rewrite lookup_others]. clear Hq.
  apply in_F in HF as [-> |[-> | ->]]; eexists; vm_compute; reflexivity.
Qed.
Lemma fx_old : page_addr 9 ≠ page_addr 1 ∧ ∃ h, ko_hdr <$> kobj_at machine (page_addr 9) = Some h ∧ 1 < ko_ref h < 2 ^ 64.
Proof. split; [discriminate|]. exists (KoHdr 6 kobj_segment [] 2 false 0). split; [vm_compute; reflexivity|cbn; lia]. Qed.
Lemma fx_shared : obj_shared (page_addr 1) sg F machine x N (um_object uam).
Proof.
  split.
  - exists (KoHdr 7 kobj_processor [] 1 false 0). split; vm_compute; reflexivity.
  - intros q. change (old_obj x) with [page_addr 9]. intros ->%list_elem_of_singleton. destruct fx_old as [H1 H2].
    split; [split_and!; [apply in_N; vm_compute; reflexivity|discriminate|exact H1]|exact H2].
  - intros q [-> |[-> | ->]]%in_F; (split_and!; [apply in_N; vm_compute; reflexivity|discriminate..]).
  - intros x' _. exists (after x'). split; [apply lookup_run|]. split; [apply lookup_touch|apply lookup_hdrs].
Qed.
Lemma fx_ready : fault_ready 3 (page_addr 1) sg F machine x g N uam 0x13000.
Proof.
  split.
  - split; [exists 0; vm_compute; reflexivity|exists 0; vm_compute; reflexivity|]. eexists. split; [vm_compute; reflexivity|]. exists 0. vm_compute. reflexivity.
  - exists 0. vm_compute. reflexivity.
  - split; reflexivity.
  - reflexivity.
  - split; [|cbn; lia]. intros Hz. destruct Hz. vm_compute. reflexivity.
  - right. exact fx_shared.
  - split_and!; [vm_compute; split; congruence|unfold in_space, ULIM; lia|]. exists 0. vm_compute. reflexivity.
Qed.
Lemma fx_found : mapping_for mem x 0x13234 SEGMAP_WRITE uam.
Proof.
  apply (in_table _ _ _ _ (page_addr 4 + UAM_SIZE) 0x10000 0x14000); [by left| |vm_compute; reflexivity].
  exists 1. split; [cbn; lia|]. split; [vm_compute; reflexivity|]. split; [vm_compute; reflexivity|].
  intros j Hj. replace j with 0 by lia. vm_compute. reflexivity.
Qed.
Lemma fx_unmapped i : 0 ≤ i < da_nent (at_uaddrmap x) → slot_covers mem x i 0x50000 SEGMAP_WRITE = None.
Proof. intros Hi. cbn in Hi. assert (i = 0 ∨ i = 1) as [-> | ->] by lia; vm_compute; reflexivity. Qed.
End FaultExample.

Lemma at_pmap_fill_correct_witness :
  wpx (at_pmap_fill 1 (page_addr 1) 0x13234 SEGMAP_WRITE) FaultExample.machine
    (handled 3 (page_addr 1) FaultExample.sg FaultExample.F FaultExample.machine FaultExample.x FaultExample.g FaultExample.N [] [] FaultExample.uam 0x13000)
    (out_of_memory FaultExample.mem FaultExample.x FaultExample.g FaultExample.uam 0x13000) ∧
  (∃ s, at_pmap_fill 1 (page_addr 1) 0x13234 SEGMAP_WRITE FaultExample.machine = Ret 0 s).
Proof.
  split.
  - apply (at_pmap_fill_correct 3 (page_addr 1) FaultExample.sg 0 FaultExample.F FaultExample.machine FaultExample.x FaultExample.g FaultExample.N [] [] 0x13234 SEGMAP_WRITE FaultExample.uam).
    + exact FaultExample.fx_inv.
    + reflexivity.
    + exact FaultExample.fx_found.
    + discriminate.
    + exact FaultExample.fx_ready.
  - destruct (at_pmap_fill 1 (page_addr 1) 0x13234 SEGMAP_WRITE FaultExample.machine) as [r s|f] eqn:E.
    + exists s. f_equal. change r with (match Ret (S := kern) r s with Ret r _ => r | Crash _ => 1 end). rewrite <- E. vm_compute. reflexivity.
    + exfalso. assert (H : match at_pmap_fill 1 (page_addr 1) 0x13234 SEGMAP_WRITE FaultExample.machine with Ret _ _ => True | Crash _ => False end) by (vm_compute; exact I).
      rewrite E in H. exact H.
Defined.

Lemma unmapped_fault_witness :
  at_pagefault 1 (page_addr 1) 0x50000 SEGMAP_WRITE FaultExample.machine =
    Ret (- E_INVAL) (flushed (page_addr 1) FaultExample.machine FaultExample.x).
Proof.
  apply (unmapped_fault 3 (page_addr 1) FaultExample.sg 0 FaultExample.machine FaultExample.x FaultExample.g FaultExample.N [] [] 0x50000 SEGMAP_WRITE 0).
  - exact FaultExample.fx_inv.
  - reflexivity.
  - reflexivity.
  - vm_compute. reflexivity.
  - intros q. change (old_obj FaultExample.x) with [page_addr 9]. intros ->%list_elem_of_singleton. exact FaultExample.fx_old.
  - left. reflexivity.
  - exact FaultExample.fx_unmapped.
Defined.
