(* ===== verification/Access.v ===== *)
(** * Checking pointers of the user

    [check_user_access] decides whether the kernel may use a range of user addresses: it
    looks at the page map for every page of the range and asks [at_pagefault] for those it
    does not find.  The lemmas say what it answers when no page has to be brought in. *)
From S2P Require Import Prelude Machine Hashtable Locks Ktypes Kmem PageAlloc Pagetree Supply PageRefs PagetreeSpec PagetreeWhole PagetreeThms PagetreeProps Darray DarrayThms DarrayProps KMap Pmap PmapSpec PmapThms PmapProps Kobj Share At KobjThms Effects Space AtThms Fault Lookup FaultProps FaultExamples.

(** The rights [check_user_access] asks for, and the test of one page. *)
Definition access_flags (reqflags : Z) : Z :=
  if bit reqflags SEGMAP_WRITE then Z.lor (Z.lor PTE_P PTE_U) PTE_W else Z.lor PTE_P PTE_U.
Definition granted (m : pmem) (pm reqflags va : Z) : bool :=
  Z.land (hw_walk m 3 pm va) (access_flags reqflags) =? access_flags reqflags.

Lemma granted_present m pm rf va : granted m pm rf va = true → bit (hw_walk m 3 pm va) PTE_P = true.
Proof.
  unfold granted. rewrite Z.eqb_eq. intros H. assert (Hb : Z.testbit (access_flags rf) 0 = true).
  { unfold access_flags. by destruct (bit rf SEGMAP_WRITE). }
  rewrite (bit_pow _ 0) by lia. rewrite <- H, Z.land_spec in Hb. by apply andb_true_iff in Hb as [? _].
Qed.

(** ** The lock of the tree *)

Section lock.
Context (p : Z).
Implicit Types (s : kern) (x : Address_tree).

(** The state with the lock of the object set or not. *)
Definition hlock (b : bool) s : kern :=
  match kobj_at s p with Some k => put_obj p (set_hdr (set_lock b (ko_hdr k)) k) s | None => s end.
Lemma hlock_twice b b' s : hlock b (hlock b' s) = hlock b s.
Proof.
  unfold hlock. destruct (kobj_at s p) as [k|] eqn:Hk; [|by rewrite Hk]. rewrite kobj_at_put_obj, put_obj_twice. by destruct k.
Qed.
Lemma hlock_id s k : kobj_at s p = Some k → hlock (ko_lock (ko_hdr k)) s = s.
Proof.
  intros Hk. unfold hlock. rewrite Hk. replace (set_hdr _ k) with k by (by destruct k as [[]]).
  apply kobj_at_Some in Hk. destruct s as [[]]. unfold put_obj, set_mem, set_page. cbn in *. by rewrite insert_id.
Qed.
Lemma hlock_at b s q : obj_at (hlock b s) q = obj_at s q.
Proof. unfold hlock. destruct (kobj_at s p) as [k|] eqn:Hk; [by apply put_hdr_at|done]. Qed.
Lemma hlock_sg b s q : obj_sg (hlock b s) q = obj_sg s q.
Proof. unfold hlock. destruct (kobj_at s p) as [k|] eqn:Hk; [by apply put_hdr_sg|done]. Qed.
Lemma hlock_touch b s : touch [p] s (hlock b s).
Proof. unfold hlock. destruct (kobj_at s p) as [k|] eqn:Hk; [eapply touch_put; [exact Hk|by left]|apply touch_refl]. Qed.
Lemma hlock_other b s q : q ≠ p → kobj_at (hlock b s) q = kobj_at s q.
Proof. intros Hq. unfold hlock. destruct (kobj_at s p) as [k|]; [by apply kobj_at_other|done]. Qed.
(** Pages that do not hold objects are the same. *)
Lemma hlock_view {A} b s (view : page → option A) q : (∀ k, view (PgKobj k) = None) →
  pm_page (kn_mem (hlock b s)) !! q ≫= view = pm_page (kn_mem s) !! q ≫= view.
Proof.
  intros Hv. unfold hlock. destruct (kobj_at s p) as [k|] eqn:Hk; [|done]. apply kobj_at_Some in Hk. cbn.
  destruct (decide (q = p)) as [->|]; [|by rewrite lookup_insert_ne]. rewrite lookup_insert_eq, Hk. cbn. by rewrite !Hv.
Qed.
Lemma hlock_ptrs b s q : page_ptrs (kn_mem (hlock b s)) q = page_ptrs (kn_mem s) q.
Proof. by apply hlock_view. Qed.
Lemma hlock_node b s q i : node_ptr (kn_mem (hlock b s)) q i = node_ptr (kn_mem s) q i.
Proof. unfold node_ptr. by rewrite hlock_ptrs. Qed.
Lemma hlock_walk b s lvl pm va : hw_walk (kn_mem (hlock b s)) lvl pm va = hw_walk (kn_mem s) lvl pm va.
Proof. revert pm. induction lvl as [|l IH]; intros pm; cbn; rewrite hlock_node; [done|]. repeat case_match; done. Qed.
Lemma hlock_path b s lvl pm va : path_ok (kn_mem s) lvl pm va → path_ok (kn_mem (hlock b s)) lvl pm va.
Proof.
  revert pm. induction lvl as [|l IH]; intros pm [H1 H2]; (split; [by rewrite hlock_ptrs|]); rewrite hlock_node; [done|].
  destruct H2 as [H2 H3]. split; [done|]. intros Hb. by apply IH, H3.
Qed.
Lemma hlock_uam b s u : uam_at (kn_mem (hlock b s)) u = uam_at (kn_mem s) u.
Proof. unfold uam_at, elem_at. by rewrite hlock_view. Qed.

Lemma unref_hlock b s q k : q ≠ p → unref q k (hlock b s) = hlock b (unref q k s).
Proof.
  intros Hq. unfold unref, hlock. rewrite kobj_at_other by done. destruct (kobj_at s p) as [k'|]; [|done].
  destruct s as [[]]. unfold put_obj, set_mem, set_page. cbn. by rewrite insert_insert_ne.
Qed.
Lemma with_hlock b s y : with_body p y (hlock b s) = hlock b (with_body p y s).
Proof.
  unfold with_body, hlock. destruct (kobj_at s p) as [k|] eqn:Hk; [|by rewrite Hk]. rewrite !kobj_at_put_obj, !put_obj_twice. by destruct k.
Qed.
Lemma flushed_hlock b s x : (∀ q, q ∈ old_obj x → q ≠ p) → flushed p (hlock b s) x = hlock b (flushed p s x).
Proof.
  intros Hold. unfold flushed. destruct (old_obj x) as [|q l]; [done|]. assert (Hq : q ≠ p) by (apply Hold; by left).
  rewrite hlock_other by done. destruct (kobj_at s q) as [k|]; [rewrite unref_hlock by done|]; apply with_hlock.
Qed.
Lemma flushed_hdr s x : (∀ q, q ∈ old_obj x → q ≠ p) → ko_hdr <$> kobj_at (flushed p s x) p = ko_hdr <$> kobj_at s p.
Proof.
  intros Hold. unfold flushed. destruct (old_obj x) as [|q l]; [done|]. assert (Hq : q ≠ p) by (apply Hold; by left). rewrite with_body_hdr.
  destruct (kobj_at s q) as [k|]; [|done]. unfold unref. by rewrite kobj_at_other.
Qed.
End lock.

(** ** The check *)

Section access.
Context (p : Z) (fuel : nat) (rf : Z).
Implicit Types (s : kern) (x : Address_tree).

Lemma has_access_run s x va :
  obj_at s p = Some x → at_pgmap x ≠ 0 → 0 ≤ va < ULIM → path_ok (kn_mem s) 3 (at_pgmap x) va →
  has_access p va (access_flags rf) s = Ret (granted (kn_mem s) (at_pgmap x) rf va) s.
Proof.
  intros Hx Hpm Hva Hp. set (pm := at_pgmap x) in *. set (m := kn_mem s) in *. apply wp_run_eq. unfold has_access. wp_pure. eapply wp_get_at; [exact Hx|].
  fold pm. rewrite (proj2 (Z.eqb_neq pm 0)) by done. apply wp_zoom. fold m. apply wp_bind, page_lookup_wp; [done|done| |].
  - intros Hn. cbn [Z.eqb]. apply wp_ret. split; [|by destruct s]. destruct (granted m pm rf va) eqn:Hg; [|done].
    by rewrite (granted_present _ _ _ _ Hg) in Hn.
  - intros [tb i] _ Hpp Hi He Hs. rewrite (proj2 (Z.eqb_neq _ 0)) by done. cbn [the_pte]. wp_pure.
    apply wp_read_pte; [done|done|]. cbn [fst snd] in He. rewrite He. apply wp_ret. split; [done|by destruct s].
Qed.

(** Pages that are mapped with the rights asked for are passed over. *)
Lemma access_skip s x (n k : nat) va r :
  obj_at s p = Some x → at_pgmap x ≠ 0 → 0 ≤ va → va + PGSIZE * Z.of_nat n ≤ ULIM →
  (∀ i, 0 ≤ i < Z.of_nat n → path_ok (kn_mem s) 3 (at_pgmap x) (va + PGSIZE * i) ∧ granted (kn_mem s) (at_pgmap x) rf (va + PGSIZE * i) = true) →
  access_loop fuel (n + k) p va (access_flags rf) rf r s = access_loop fuel k p (va + PGSIZE * Z.of_nat n) (access_flags rf) rf r s.
Proof.
  change PGSIZE with 4096. intros Hx Hpm. revert va. induction n as [|n IH]; intros va H0 Hu Hp; [cbn; f_equal; lia|].
  cbn [Nat.add access_loop]. rewrite Z.geb_leb, (proj2 (Z.leb_gt _ _)) by lia.
  destruct (Hp 0) as [Hp0 Hg0]; [lia|]. rewrite Z.mul_0_r, Z.add_0_r in Hp0, Hg0.
  unfold mbind, m_bind. rewrite (has_access_run s x) by (done || lia). rewrite Hg0. cbn. change PGSIZE with 4096.
  rewrite u64_small by (unfold in_u64, ULIM in *; lia). rewrite IH; [f_equal; lia|lia|lia|].
  intros i Hi. replace (va + 4096 + 4096 * i) with (va + 4096 * (i + 1)) by lia. apply Hp. lia.
Qed.
(** A page that cannot be had ends the check. *)
Lemma access_stop s s' x (k : nat) va r e :
  obj_at s p = Some x → at_pgmap x ≠ 0 → 0 ≤ va < ULIM → path_ok (kn_mem s) 3 (at_pgmap x) va → granted (kn_mem s) (at_pgmap x) rf va = false →
  at_pagefault fuel p va rf s = Ret e s' → e < 0 → access_loop fuel (S k) p va (access_flags rf) rf r s = Ret e s'.
Proof.
  intros Hx Hpm Hva Hp Hg Hf He. cbn [access_loop]. rewrite Z.geb_leb, (proj2 (Z.leb_gt _ _)) by lia.
  unfold mbind, m_bind. rewrite (has_access_run s x) by done. rewrite Hg, Hf. by rewrite (proj2 (Z.ltb_lt e 0)).
Qed.

(** What [check_user_access] does with the lock of the tree taken. *)
Definition checked (ptr nbytes : Z) : M kern Z :=
  if nbytes >? 0 then
    let start := ROUNDDOWN ptr PGSIZE in
    let stop := ROUNDUP (u64 (ptr + nbytes)) PGSIZE in
    if stop <=? start then mret (- E_INVAL)
    else access_loop fuel (Z.to_nat ((stop - start) / PGSIZE)) p start (access_flags rf) rf 0
  else mret 0.
Lemma check_run s s' k k' ptr nbytes r :
  kobj_at s p = Some k → kobj_at s' p = Some k' → ko_lock (ko_hdr k') = ko_lock (ko_hdr k) →
  checked ptr nbytes (hlock p true s) = Ret r (hlock p true s') → check_user_access fuel p ptr nbytes rf s = Ret r s'.
Proof.
  intros Hk Hk' El Hc. apply wp_run_eq. unfold check_user_access. wp_pure. eapply wp_get_hdr; [exact Hk|]. cbv zeta. fold (access_flags rf). fold (checked ptr nbytes).
  pose proof (hlock_id p s k Hk) as Hs. pose proof (hlock_id p s' k' Hk') as Hs'. rewrite El in Hs'. destruct (ko_lock (ko_hdr k)) eqn:Hl; cbn [negb].
  - wp_pure. apply wp_when_false; [done|]. wp_pure. rewrite Hs, Hs' in Hc. eapply wp_eq; [exact Hc|]. wp_pure. by apply wp_when_false.
  - wp_pure. apply wp_when_true; [done|]. unfold lock_kobj. wp_pure. eapply wp_get_hdr; [exact Hk|]. rewrite Hl. eapply wp_upd_hdr; [exact Hk|].
    assert (E1 : put_obj p (set_hdr (set_lock true (ko_hdr k)) k) s = hlock p true s) by (unfold hlock; by rewrite Hk). rewrite E1.
    wp_pure. eapply wp_eq; [exact Hc|]. wp_pure. apply wp_when_true; [done|]. unfold unlock_kobj.
    assert (Hk2 : kobj_at (hlock p true s') p = Some (set_hdr (set_lock true (ko_hdr k')) k')) by (unfold hlock; rewrite Hk'; apply kobj_at_put_obj).
    eapply wp_upd_hdr; [exact Hk2|]. wp_pure. split; [done|]. rewrite <- Hs' at 2. rewrite <- (hlock_twice p false true s'). unfold hlock at 2. by rewrite Hk2.
Qed.
End access.

(** The pages of a range: from [a] to [b] where [a * PGSIZE] is its start rounded
    down and [(b + 1) * PGSIZE] its end rounded up. *)
Lemma access_start ptr : 0 ≤ ptr < ULIM → ROUNDDOWN ptr PGSIZE = 4096 * (ptr / 4096).
Proof. intros H. rewrite ROUNDDOWN_small by (unfold in_u64, ULIM in *; lia). change PGSIZE with 4096. dlia. Qed.
Lemma access_end x : 0 < x ≤ ULIM → ROUNDUP (u64 x) PGSIZE = 4096 * ((x - 1) / 4096 + 1).
Proof.
  intros H. rewrite u64_small by (unfold in_u64, ULIM in *; lia). change PGSIZE with 4096.
  destruct (ROUNDUP_exact x 4096) as [-> _]; [unfold in_u64, ULIM in *; lia|lia|unfold ULIM in *; lia|]. dlia.
Qed.
Lemma access_count a b : (4096 * (b + 1) - 4096 * a) / 4096 = b + 1 - a.
Proof. dlia. Qed.
Lemma access_bounds ptr n : 0 ≤ ptr → 0 < n → ptr + n ≤ ULIM →
  0 ≤ ptr / 4096 ≤ (ptr + n - 1) / 4096 ∧ 4096 * ((ptr + n - 1) / 4096 + 1) ≤ ULIM.
Proof. unfold ULIM. intros. dlia. Qed.

Definition pages_of (ptr nbytes : Z) : list Z := seqZ (ptr / PGSIZE) ((ptr + nbytes - 1) / PGSIZE + 1 - ptr / PGSIZE).
Lemma checked_pages p fuel rf ptr nbytes : 0 ≤ ptr → 0 < nbytes → ptr + nbytes ≤ ULIM →
  checked p fuel rf ptr nbytes = access_loop fuel (length (pages_of ptr nbytes)) p (PGSIZE * (ptr / PGSIZE)) (access_flags rf) rf 0.
Proof.
  intros H0 Hn Hu. destruct (access_bounds ptr nbytes H0 Hn Hu) as [Hb Hend]. unfold checked, pages_of. cbv zeta.
  rewrite Z.gtb_ltb, (proj2 (Z.ltb_lt _ _)), access_start, access_end by lia. change PGSIZE with 4096.
  rewrite (proj2 (Z.leb_gt _ _)) by lia. by rewrite access_count, length_seqZ.
Qed.
(** The first page that fails a test. *)
Lemma first_false (f : Z → bool) a (n : nat) :
  (forallb f (seqZ a (Z.of_nat n)) = true ∧ ∀ i, 0 ≤ i < Z.of_nat n → f (a + i) = true) ∨
  (forallb f (seqZ a (Z.of_nat n)) = false ∧ ∃ j k, n = (j + S k)%nat ∧ f (a + Z.of_nat j) = false ∧ ∀ i, 0 ≤ i < Z.of_nat j → f (a + i) = true).
Proof.
  revert a. induction n as [|n IH]; intros a; [left; split; [done|lia]|].
  rewrite (seqZ_cons a (Z.of_nat (S n))) by lia. cbn [forallb]. replace (Z.pred (Z.of_nat (S n))) with (Z.of_nat n) by lia.
  destruct (f a) eqn:Ha; [|right; split; [done|]; exists 0%nat, n; rewrite Z.add_0_r; split_and!; [done|done|lia]].
  assert (Hs : ∀ i, Z.succ a + i = a + (i + 1)) by lia.
  destruct (IH (Z.succ a)) as [[Hf Hall]|[Hf (j & k & -> & Hj & Hall)]]; [left|right]; (split; [done|]).
  - intros i Hi. destruct (decide (i = 0)) as [->|]; [by rewrite Z.add_0_r|]. replace (a + i) with (Z.succ a + (i - 1)) by lia. apply Hall. lia.
  - exists (S j), k. split_and!; [lia|rewrite <- Hj; f_equal; lia|]. intros i Hi. destruct (decide (i = 0)) as [->|]; [by rewrite Z.add_0_r|].
    replace (a + i) with (Z.succ a + (i - 1)) by lia. apply Hall. lia.
Qed.
Lemma granted_hlock p b s pm rf va : granted (kn_mem (hlock p b s)) pm rf va = granted (kn_mem s) pm rf va.
Proof. unfold granted. by rewrite hlock_walk. Qed.

(** Nothing maps [va] with the access [rf]. *)
Definition unmapped (m : pmem) (x : Address_tree) (va rf : Z) : Prop :=
  range_miss m x va rf ∧ ∀ i, 0 ≤ i < da_nent (at_uaddrmap x) → slot_covers m x i va rf = None.
Lemma unmapped_locked lvl p sg fuel s x g N R ls node va rf :
  as_inv lvl p sg s x g N R ls → at_map_lock x = Rw.RW_LOCK_BIAS → at_obj_lock x = false →
  home_node (pm_conf (kn_mem s)) (da_pid (at_uaddrmap x)) = Some node →
  (∀ q, q ∈ old_obj x → q ≠ p ∧ ∃ h, ko_hdr <$> kobj_at s q = Some h ∧ 1 < ko_ref h < 2 ^ 64) → unmapped (kn_mem s) x va rf →
  at_pagefault (S fuel) p va rf (hlock p true s) = Ret (- E_INVAL) (hlock p true (flushed p s x)).
Proof.
  intros Hs Hlk Hol Hh Hold [Hm Hf]. rewrite <- flushed_hlock by (intros q Hq; by apply Hold). pose proof Hs as [Hx Hg _ _ H].
  pose proof (as_objs _ _ _ _ _ _ _ _ _ H) as (HpN & _ & _). pose proof (hlock_touch p true s) as HT.
  destruct (as_objects lvl p sg [p] s (hlock p true s) x x g N R ls Hs HT) as (Hs' & _ & Ar & _).
  { by intros q ->%list_elem_of_singleton. }
  { by rewrite hlock_at. }
  { done. }
  { by rewrite hlock_sg. }
  destruct (touch_info _ _ _ HT) as [Ec _]. destruct (Ar (at_uaddrmap x)) as (_ & _ & _ & Et); [by left|].
  eapply unmapped_pagefault; [exact Hs'|done|done|by rewrite Ec| | |].
  - intros q Hq. destruct (Hold q Hq) as [Hqp Hh']. split; [done|]. by rewrite hlock_other.
  - destruct Hm as [Hm|(uam & Hu & Huse)]; [by left|right]. exists uam. by rewrite hlock_uam.
  - intros i Hi. rewrite <- (Hf i Hi). unfold slot_covers, slot_uam. by rewrite (same_ent_addr _ _ _ _ Et), hlock_uam.
Qed.

(** C24: [check_user_access] on a range below [ULIM] of which no page has to be brought in
    (a page that is not there with the rights asked for is mapped by nothing): it returns 0 and
    leaves everything as it was, the lock of the tree included, exactly when the page map
    has every page of the range with the rights; otherwise it returns [-E_INVAL], and the
    attempt to bring the page in has emptied the object cache of the tree. *)
Theorem check_user_access_range p sg fuel s x g N R ls node ptr nbytes rf :
  as_inv 3 p sg s x g N R ls → at_map_lock x = Rw.RW_LOCK_BIAS → at_obj_lock x = false →
  home_node (pm_conf (kn_mem s)) (da_pid (at_uaddrmap x)) = Some node →
  (∀ q, q ∈ old_obj x → q ≠ p ∧ ∃ h, ko_hdr <$> kobj_at s q = Some h ∧ 1 < ko_ref h < 2 ^ 64) →
  0 ≤ ptr → 0 < nbytes → ptr + nbytes ≤ ULIM →
  (∀ pg, pg ∈ pages_of ptr nbytes → path_ok (kn_mem s) 3 (at_pgmap x) (PGSIZE * pg) ∧
     (granted (kn_mem s) (at_pgmap x) rf (PGSIZE * pg) = false → unmapped (kn_mem s) x (PGSIZE * pg) rf)) →
  check_user_access (S fuel) p ptr nbytes rf s =
    if forallb (λ pg, granted (kn_mem s) (at_pgmap x) rf (PGSIZE * pg)) (pages_of ptr nbytes)
    then Ret 0 s else Ret (- E_INVAL) (flushed p s x).
Proof.
  intros Hs Hlk Hol Hh Hold H0 Hn Hu Hpg. pose proof Hs as [Hx _ _ _ H]. pose proof Hx as (k & Hk & _)%obj_at_kobj.
  destruct (access_bounds ptr nbytes H0 Hn Hu) as [Hb Hend]. pose proof (checked_pages p (S fuel) rf ptr nbytes H0 Hn Hu) as Hc.
  assert (Hpm : at_pgmap x ≠ 0) by (eapply page_live_nonzero, space_live; apply (as_space _ _ _ _ _ _ _ _ _ H)).
  assert (Hxl : obj_at (hlock p true s) p = Some x) by (by rewrite hlock_at).
  unfold pages_of in *. change PGSIZE with 4096 in *. set (a := ptr / 4096) in *. set (b := (ptr + nbytes - 1) / 4096) in *. rewrite length_seqZ in Hc.
  assert (Hn' : b + 1 - a = Z.of_nat (Z.to_nat (b + 1 - a))) by lia. rewrite Hn' in *. set (n := Z.to_nat (b + 1 - a)) in *. rewrite Nat2Z.id in Hc.
  assert (Hsh : ∀ i, 4096 * a + 4096 * i = 4096 * (a + i)) by lia.
  assert (Hsk : ∀ (j l : nat), (j ≤ n)%nat → (∀ i, 0 ≤ i < Z.of_nat j → granted (kn_mem s) (at_pgmap x) rf (4096 * (a + i)) = true) →
    access_loop (S fuel) (j + l) p (4096 * a) (access_flags rf) rf 0 (hlock p true s) =
    access_loop (S fuel) l p (4096 * (a + Z.of_nat j)) (access_flags rf) rf 0 (hlock p true s)).
  { intros j l Hj Hall. rewrite <- Hsh. apply (access_skip p (S fuel) rf _ x); [done|done|lia|change PGSIZE with 4096; lia|]. intros i Hi. change PGSIZE with 4096.
    rewrite Hsh, granted_hlock. split; [|by apply Hall]. apply hlock_path, Hpg, elem_of_seqZ. lia. }
  destruct (first_false (λ pg, granted (kn_mem s) (at_pgmap x) rf (4096 * pg)) a n) as [[-> Hall]|[-> (j & l & Ej & Hj & Hall)]].
  - eapply check_run; [exact Hk|exact Hk|done|]. rewrite Hc. rewrite <- (Nat.add_0_r n), Hsk; [done|lia|done].
  - pose proof (flushed_hdr p s x ltac:(intros q Hq; by apply Hold)) as Hfh.
    rewrite Hk in Hfh. apply fmap_Some in Hfh as (k' & Hk' & Ek).
    eapply check_run; [exact Hk|exact Hk'|by rewrite <- Ek|]. rewrite Hc, Ej, Hsk; [|lia|done].
    destruct (Hpg (a + Z.of_nat j)) as [Hp Hun]; [apply elem_of_seqZ; lia|].
    eapply access_stop; [done|done|lia|by apply hlock_path|by rewrite granted_hlock|by eapply unmapped_locked; eauto|done].
Qed.

(** C40: A length that makes the end of the range wrap around is accepted: the end of
    the range is computed modulo [2^64] and the variable that should record the
    overflow is never set, so for any address with the low bits greater than 1 and a
    mapped page, access to [2^64 - 1] bytes is granted after looking at one page. *)
Theorem check_user_access_wraps p fuel s x rf ptr :
  obj_at s p = Some x → at_pgmap x ≠ 0 → 0 ≤ ptr < ULIM → 1 < ptr mod PGSIZE →
  path_ok (kn_mem s) 3 (at_pgmap x) (PGSIZE * (ptr / PGSIZE)) → granted (kn_mem s) (at_pgmap x) rf (PGSIZE * (ptr / PGSIZE)) = true →
  check_user_access fuel p ptr (2 ^ 64 - 1) rf s = Ret 0 s.
Proof.
  intros Hx Hpm Hptr Hlow Hp Hg. pose proof Hx as (k & Hk & _)%obj_at_kobj. eapply check_run; [exact Hk|exact Hk|done|].
  unfold checked. cbv zeta. change (2 ^ 64 - 1 >? 0) with true. cbv iota. change PGSIZE with 4096 in Hlow, Hp, Hg.
  assert (Hw : u64 (ptr + (2 ^ 64 - 1)) = u64 (ptr - 1)).
  { unfold u64. replace (ptr + (2 ^ 64 - 1)) with (ptr - 1 + 1 * 2 ^ 64) by lia. apply Z.mod_add. lia. }
  assert (Hlt : 1 < ptr) by (pose proof (Z.mod_le ptr 4096); lia).
  rewrite Hw, access_start, access_end by lia. replace ((ptr - 1 - 1) / 4096) with (ptr / 4096) by dlia.
  rewrite (proj2 (Z.leb_gt _ _)) by lia. change PGSIZE with 4096. rewrite access_count. replace (Z.to_nat (ptr / 4096 + 1 - ptr / 4096)) with (1 + 0)%nat by lia.
  rewrite (access_skip p fuel rf _ x); [done|by rewrite hlock_at|done|dlia|change PGSIZE with 4096; unfold ULIM in *; dlia|].
  intros i Hi. replace i with 0 by lia. change PGSIZE with 4096. rewrite Z.mul_0_r, Z.add_0_r, granted_hlock. split; [by apply hlock_path|done].
Qed.

(** ** The machine of FaultExamples.v, with one page brought in *)
Module AccessExample.
Definition mapped : kern :=
  match at_pmap_fill 1 (page_addr 1) 0x13234 SEGMAP_WRITE FaultExample.machine with Ret _ s => s | Crash _ => FaultExample.machine end.
Definition x : Address_tree := default FaultExample.x (obj_at mapped (page_addr 1)).
Lemma mapped_run : at_pmap_fill 1 (page_addr 1) 0x13234 SEGMAP_WRITE FaultExample.machine = Ret 0 mapped.
Proof. vm_compute. reflexivity. Qed.
Lemma mapped_inv : ∃ g ls, as_inv 3 (page_addr 1) FaultExample.sg mapped x g FaultExample.N [] ls.
Proof.
  pose proof (at_pmap_fill_wpx 3 (page_addr 1) FaultExample.sg 0 FaultExample.F FaultExample.machine FaultExample.x FaultExample.g FaultExample.N [] [] 0x13234 SEGMAP_WRITE
    FaultExample.uam FaultExample.fx_inv eq_refl FaultExample.fx_found ltac:(discriminate) FaultExample.fx_ready) as H.
  unfold wpx in H. rewrite mapped_run in H. destruct H as (s0 & x0 & _ & x' & g' & ls' & Hs & _). exists g', ls'.
  unfold x. rewrite (as_at _ _ _ _ _ _ _ _ _ Hs). exact Hs.
Qed.
Lemma mapped_old q : q ∈ old_obj x → q ≠ page_addr 1 ∧ ∃ h, ko_hdr <$> kobj_at mapped q = Some h ∧ 1 < ko_ref h < 2 ^ 64.
Proof.
  assert (E : old_obj x = [FaultExample.sg]) by (vm_compute; reflexivity). rewrite E. intros ->%list_elem_of_singleton. split; [discriminate|].
  exists (KoHdr 5 kobj_segment [] 2 false 0). split; [vm_compute; reflexivity|cbn; lia].
Qed.
Lemma mapped_path pg : pg = 0x13 ∨ pg = 0x14 → path_ok (kn_mem mapped) 3 (at_pgmap x) (PGSIZE * pg).
Proof. intros [-> | ->]; apply path_okb_sound; vm_compute; reflexivity. Qed.
Lemma mapped_pages pg : pg ∈ pages_of 0x13f00 0x200 → path_ok (kn_mem mapped) 3 (at_pgmap x) (PGSIZE * pg) ∧
  (granted (kn_mem mapped) (at_pgmap x) SEGMAP_WRITE (PGSIZE * pg) = false → unmapped (kn_mem mapped) x (PGSIZE * pg) SEGMAP_WRITE).
Proof.
  assert (E : pages_of 0x13f00 0x200 = [0x13; 0x14]) by (vm_compute; reflexivity). rewrite E, elem_of_cons, list_elem_of_singleton. intros Hpg.
  split; [by apply mapped_path|]. destruct Hpg as [-> | ->]; [intros H; vm_compute in H; discriminate|]. intros _. split.
  - right. exists FaultExample.uam. split; vm_compute; reflexivity.
  - assert (En : da_nent (at_uaddrmap x) = 2) by (vm_compute; reflexivity). rewrite En. intros i Hi.
    assert (i = 0 ∨ i = 1) as [-> | ->] by lia; vm_compute; reflexivity.
Qed.
End AccessExample.

Lemma check_user_access_range_witness :
  check_user_access 1 (page_addr 1) 0x13f00 0x200 SEGMAP_WRITE AccessExample.mapped =
    Ret (- E_INVAL) (flushed (page_addr 1) AccessExample.mapped AccessExample.x).
Proof.
  destruct AccessExample.mapped_inv as (g & ls & Hs).
  etransitivity; [apply (check_user_access_range (page_addr 1) FaultExample.sg 0 AccessExample.mapped AccessExample.x g FaultExample.N [] ls 0 0x13f00 0x200 SEGMAP_WRITE)|].
  - exact Hs.
  - vm_compute. reflexivity.
  - vm_compute. reflexivity.
  - vm_compute. reflexivity.
  - exact AccessExample.mapped_old.
  - lia.
  - lia.
  - unfold ULIM. lia.
  - exact AccessExample.mapped_pages.
  - assert (E : forallb (λ pg, granted (kn_mem AccessExample.mapped) (at_pgmap AccessExample.x) SEGMAP_WRITE (PGSIZE * pg)) (pages_of 0x13f00 0x200) = false) by (vm_compute; reflexivity).
    rewrite E. reflexivity.
Defined.
Lemma check_user_access_wraps_witness :
  check_user_access 1 (page_addr 1) 0x13100 (2 ^ 64 - 1) SEGMAP_WRITE AccessExample.mapped = Ret 0 AccessExample.mapped.
Proof.
  apply (check_user_access_wraps (page_addr 1) 1 AccessExample.mapped AccessExample.x SEGMAP_WRITE 0x13100).
  - vm_compute. reflexivity.
  - vm_compute. discriminate.
  - unfold ULIM. lia.
  - reflexivity.
  - apply AccessExample.mapped_path. by left.
  - vm_compute. reflexivity.
Defined.
