(* ===== verification/Uas.v ===== *)
(** * The address-space manager of the user library

    lib/as.c and lib/segment.c.  A process keeps a copy of the table of its address tree
    ([cache_uat]) and chooses slots and addresses for new mappings from it.

    What the library relies on is the class [ProcKernel]: the kernel as one process sees
    it.  Its views are the mappings in use of the current address tree, in the order of
    their slots, and the bytes of the segments that the process can reach, by object
    identifier; its operations are the system calls.  [ProcKernelLaws] is what the calls
    promise.  A call may be refused for want of memory; [k_refused] says that this has
    happened, so that a theorem can tell such a failure from others.  The pages in which
    the process keeps its copy of the table are assumed to be there, so that [sys_at_get]
    has nothing to bring in.  A load or store of the process goes through the first mapping
    that covers the address, with the test that the kernel's page-fault handler applies
    ([covers]).

    The entries of the cache lie in a segment of their own at [UADDRMAPENTS].  Only this
    code uses them, so they are kept as a list as long as the segment has room for.  The
    process has one thread: a mutex that is held stays held. *)
From Stdlib Require Import Sorting.Sorted.
From S2P Require Import Prelude Machine Ktypes Pmap At FaultProps.

(** ** The kernel as a process sees it *)

Class ProcKernel (K : Type) := {
  k_live : K → list u_address_mapping;
  k_seg : K → Z → option (list Z);
  k_as : K → sobj_ref;
  (** A call has been refused for want of memory. *)
  k_refused : K → Prop;
  (** A store of the process: object, offset, bytes. *)
  k_store : Z → Z → list Z → K → K;
  k_segment_alloc : Z → Z → list Z → Z → M K Z;
  k_segment_get_nbytes : sobj_ref → M K Z;
  k_segment_set_nbytes : sobj_ref → Z → M K Z;
  k_share_alloc : Z → Z → list Z → Z → M K Z;
  k_share_unref : sobj_ref → M K Z;
  k_self_drop_share : Z → M K Z;
  (** The code, the tree's header and the entries after the call. *)
  k_at_get : sobj_ref → u_address_tree → list u_address_mapping → M K (Z * u_address_tree * list u_address_mapping);
  k_at_set : sobj_ref → u_address_tree → list u_address_mapping → M K (Z * list u_address_mapping);
  k_at_set_slot : sobj_ref → u_address_mapping → M K Z;
}.

(** Setting a slot of the table: mappings without flags are not in use. *)
Fixpoint insert_slot (u : u_address_mapping) (l : list u_address_mapping) : list u_address_mapping :=
  match l with
  | [] => [u]
  | v :: l' => if um_kslot u <? um_kslot v then u :: v :: l' else v :: insert_slot u l'
  end.
Definition clear_slot (i : Z) (l : list u_address_mapping) : list u_address_mapping :=
  filter (λ v, um_kslot v ≠ i) l.
Definition set_slot (u : u_address_mapping) (l : list u_address_mapping) : list u_address_mapping :=
  let l' := clear_slot (um_kslot u) l in
  if um_flags u =? 0 then l' else insert_slot (sanitize u) l'.
(** Setting the whole table: the entries are numbered from 0. *)
Definition number_slots (l : list u_address_mapping) : list u_address_mapping :=
  imap (λ i u, set_um_kslot (Z.of_nat i) (sanitize u)) l.
Definition in_use (l : list u_address_mapping) : list u_address_mapping := filter (λ u, um_flags u ≠ 0) l.

(** The bytes of a segment after its size is set: cut, or extended with zeroes. *)
Definition resize_bytes (n : Z) (bs : list Z) : list Z :=
  take (Z.to_nat n) bs ++ replicate (Z.to_nat n - length bs) 0.
(** [bs] with [v] written at [off]. *)
Definition splice (off : Z) (v bs : list Z) : list Z :=
  take (Z.to_nat off) bs ++ v ++ drop (Z.to_nat off + length v) bs.

(** Two states of the kernel that the process cannot tell apart. *)
Record same_view {K} `{!ProcKernel K} (k k' : K) : Prop := SameView {
  sv_live : k_live k' = k_live k;
  sv_as : k_as k' = k_as k;
  sv_seg : ∀ id, k_seg k' id = k_seg k id;
  sv_refused : k_refused k → k_refused k';
}.
(** The same but for the segment [id]. *)
Record same_but {K} `{!ProcKernel K} (id : Z) (k k' : K) : Prop := SameBut {
  sb_live : k_live k' = k_live k;
  sb_as : k_as k' = k_as k;
  sb_seg : ∀ id', id' ≠ id → k_seg k' id' = k_seg k id';
  sb_refused : k_refused k → k_refused k';
}.
Definition slot_lt (u v : u_address_mapping) : Prop := um_kslot u < um_kslot v.
Definition slots_ok (l : list u_address_mapping) : Prop :=
  StronglySorted slot_lt l ∧ Forall (λ u, um_flags u ≠ 0 ∧ 0 ≤ um_kslot u < 2 ^ 32 ∧ 0 ≤ um_va u < 2 ^ 64) l.
Definition seg_ok (bs : list Z) : Prop := Z.of_nat (length bs) mod PGSIZE = 0 ∧ Z.of_nat (length bs) < 2 ^ 60 ∧ Forall (λ b, 0 ≤ b < 256) bs.

(** What the calls promise, by the code of kern/kern/syscall.c, segment.c and at.c. *)
Class ProcKernelLaws (K : Type) `{!ProcKernel K} := {
  live_ok (k : K) : slots_ok (k_live k);
  seg_wf (k : K) id bs : k_seg k id = Some bs → seg_ok bs;
  store_law (k : K) id off v bs : k_seg k id = Some bs → 0 ≤ off → off + Z.of_nat (length v) ≤ Z.of_nat (length bs) →
    Forall (λ b, 0 ≤ b < 256) v →
    same_but id k (k_store id off v k) ∧ k_seg (k_store id off v k) id = Some (splice off v bs);
  segment_alloc_law (k : K) sh bytes name pid : 0 ≤ bytes < 2 ^ 60 →
    wp (k_segment_alloc sh bytes name pid) k (λ r k',
      (r < 0 ∧ k_refused k' ∧ same_view k k') ∨
      (0 < r < 2 ^ 63 ∧ k_seg k r = None ∧ same_but r k k' ∧ k_seg k' r = Some (replicate (Z.to_nat (ROUNDUP bytes PGSIZE)) 0)));
  get_nbytes_law (k : K) ref :
    wp (k_segment_get_nbytes ref) k (λ r k', same_view k k' ∧
      ((r < 0 ∧ (k_refused k' ∨ k_seg k (so_object ref) = None)) ∨
       ∃ bs, k_seg k (so_object ref) = Some bs ∧ r = Z.of_nat (length bs)));
  set_nbytes_law (k : K) ref n : 0 ≤ n < 2 ^ 64 →
    wp (k_segment_set_nbytes ref n) k (λ r k',
      (r < 0 ∧ same_view k k' ∧ (k_refused k' ∨ k_seg k (so_object ref) = None)) ∨
      (r = 0 ∧ same_but (so_object ref) k k' ∧
       ∃ bs, k_seg k (so_object ref) = Some bs ∧ k_seg k' (so_object ref) = Some (resize_bytes (ROUNDUP n PGSIZE) bs)));
  share_alloc_law (k : K) sh mask name pid : wp (k_share_alloc sh mask name pid) k (λ _ k', same_view k k');
  share_unref_law (k : K) ref : wp (k_share_unref ref) k (λ _ k', same_but (so_object ref) k k');
  drop_share_law (k : K) sh : wp (k_self_drop_share sh) k (λ _ k', k_live k' = k_live k ∧ k_as k' = k_as k ∧ (k_refused k → k_refused k'));
  at_get_law (k : K) uat ents : 0 ≤ uat_size uat ≤ Z.of_nat (length ents) →
    wp (k_at_get (k_as k) uat ents) k (λ '(r, uat', ents') k', same_view k k' ∧
      let n := length (k_live k) in
      if Z.of_nat n <=? uat_size uat
      then r = 0 ∧ uat_size uat' = uat_size uat ∧ uat_nent uat' = Z.of_nat n ∧ uat_ents uat' = uat_ents uat ∧
           ents' = k_live k ++ drop n ents
      else r < 0 ∧ uat' = uat ∧ length ents' = length ents);
  at_set_law (k : K) uat ents : 0 ≤ uat_nent uat ≤ Z.of_nat (length ents) → uat_nent uat < 2 ^ 32 → Forall (λ u, 0 ≤ um_va u < 2 ^ 64) ents →
    wp (k_at_set (k_as k) uat ents) k (λ '(r, ents') k',
      let n := Z.to_nat (uat_nent uat) in
      (r < 0 ∧ k_refused k' ∧ same_view k k' ∧ ents' = ents) ∨
      (r = 0 ∧ k_live k' = in_use (number_slots (take n ents)) ∧ k_as k' = k_as k ∧ (∀ id, k_seg k' id = k_seg k id) ∧
       (k_refused k → k_refused k') ∧
       ents' = number_slots (take n ents) ++ drop n ents));
  at_set_slot_law (k : K) u : 0 ≤ um_kslot u < 2 ^ 32 → 0 ≤ um_va u < 2 ^ 64 →
    wp (k_at_set_slot (k_as k) u) k (λ r k',
      (r < 0 ∧ k_refused k' ∧ same_view k k') ∨
      (r = 0 ∧ k_live k' = set_slot u (k_live k) ∧ k_as k' = k_as k ∧ (k_refused k → k_refused k') ∧ ∀ id, k_seg k' id = k_seg k id));
}.

(** ** The state of the library *)

(** [struct fs_handle]: the device and the words of the union; [fh_s] is the pointer of
    [struct vfs0_handle].  Then the part of [core_env_t] that lib/as.c and fs/ use. *)
Record fs_handle := FsHandle { fh_dev_id : Z; fh_ref : sobj_ref; fh_s : Z }.
#[export] Instance sobj_ref_eq_dec : EqDecision sobj_ref.
Proof. solve_decision. Defined.
#[export] Instance fs_handle_eq_dec : EqDecision fs_handle.
Proof. solve_decision. Defined.
Record core_env_t := CoreEnv { ce_sh : Z; ce_pid : Z; ce_mtab : sobj_ref; ce_rhand : fs_handle; ce_cwd : fs_handle }.

Record ustate (K : Type) := Us {
  us_kern : K;
  us_uat : u_address_tree;                    (* cache_uat *)
  us_ents : list u_address_mapping;           (* the array at UADDRMAPENTS *)
  us_mu : bool;                               (* cache_uat_mu *)
  us_cached : sobj_ref;                       (* cached_atref of cache_refresh *)
  us_map_ptr : Z;                             (* map_ptr of cache_get_va *)
  us_exhausted : bool;                        (* dumb_exhausted of cache_get_va *)
  us_mtab : Z;                                (* mtab of fs_namei *)
  us_mtab_ref : sobj_ref;                     (* mtab_ref of fs_namei *)
  us_env : core_env_t;
}.
Arguments Us {K}. Arguments us_kern {K}. Arguments us_uat {K}. Arguments us_ents {K}. Arguments us_mu {K}.
Arguments us_cached {K}. Arguments us_map_ptr {K}. Arguments us_exhausted {K}. Arguments us_mtab {K}.
Arguments us_mtab_ref {K}. Arguments us_env {K}.

Definition n_base_mappings : Z := 64.
Definition UADDRMAPENTS : Z := 0x700600000000.
Definition UADDRMAPENTSEND : Z := 0x700601000000.
Definition usegmapents_bytes : Z := UADDRMAPENTSEND - UADDRMAPENTS.
Definition UASMANAGERBASE : Z := 0x100000000.
Definition UASMANAGEREND : Z := 0x300100000000.
(** [sizeof(struct u_address_mapping)] *)
Definition UAM_BYTES : Z := 56.

Section as_c.
Context {K : Type} `{!ProcKernel K}.
Implicit Types (s : ustate K).

Definition set_kern (k : K) s : ustate K :=
  Us k (us_uat s) (us_ents s) (us_mu s) (us_cached s) (us_map_ptr s) (us_exhausted s) (us_mtab s) (us_mtab_ref s) (us_env s).
Definition set_cache (uat : u_address_tree) (ents : list u_address_mapping) s : ustate K :=
  Us (us_kern s) uat ents (us_mu s) (us_cached s) (us_map_ptr s) (us_exhausted s) (us_mtab s) (us_mtab_ref s) (us_env s).
Definition set_us_mu (b : bool) s : ustate K :=
  Us (us_kern s) (us_uat s) (us_ents s) b (us_cached s) (us_map_ptr s) (us_exhausted s) (us_mtab s) (us_mtab_ref s) (us_env s).
Definition set_cached (r : sobj_ref) s : ustate K :=
  Us (us_kern s) (us_uat s) (us_ents s) (us_mu s) r (us_map_ptr s) (us_exhausted s) (us_mtab s) (us_mtab_ref s) (us_env s).
Definition set_map_ptr (p : Z) (ex : bool) s : ustate K :=
  Us (us_kern s) (us_uat s) (us_ents s) (us_mu s) (us_cached s) p ex (us_mtab s) (us_mtab_ref s) (us_env s).
Definition set_mtab (p : Z) (r : sobj_ref) s : ustate K :=
  Us (us_kern s) (us_uat s) (us_ents s) (us_mu s) (us_cached s) (us_map_ptr s) (us_exhausted s) p r (us_env s).

(** A system call. *)
Definition kcall {A} (m : M K A) : M (ustate K) A := zoom us_kern set_kern m.

(** [processor_current_as] *)
Definition processor_current_as : M (ustate K) sobj_ref := gets (λ s, k_as (us_kern s)).
(** [thread_mutex_lock(&cache_uat_mu)] and its release. *)
Definition cache_lock : M (ustate K) unit := b ← gets us_mu; if b : bool then crash Hang else modify (set_us_mu true).
Definition cache_unlock : M (ustate K) unit := b ← gets us_mu; if b : bool then modify (set_us_mu false) else panic.

(** [sys_at_get(atref, &cache_uat)] and [cache_uat.ents[i]] *)
Definition cache_at_get (atref : sobj_ref) : M (ustate K) Z :=
  uat ← gets us_uat;
  ents ← gets us_ents;
  '(r, uat', ents') ← kcall (k_at_get atref uat ents);
  modify (set_cache uat' ents');;
  mret r.
Definition cache_ent (i : Z) : M (ustate K) u_address_mapping := deref (λ s, us_ents s !! Z.to_nat i).
Definition cache_nent : M (ustate K) Z := gets (λ s, uat_nent (us_uat s)).
Definition cache_size : M (ustate K) Z := gets (λ s, uat_size (us_uat s)).

(** ** lib/as.c *)

Definition set_uat_size (n : Z) (u : u_address_tree) : u_address_tree :=
  Uat n (uat_nent u) (uat_ents u) (uat_trap_handler u) (uat_trap_stack_base u) (uat_trap_stack_top u).
(** Growing the segment gives the array room for [nsize] entries. *)
Definition cache_resize (nsize : Z) s : ustate K :=
  set_cache (set_uat_size nsize (us_uat s)) (us_ents s ++ replicate (Z.to_nat nsize - length (us_ents s)) zero_uam) s.
Definition cache_grow : M (ustate K) Z :=
  atref ← processor_current_as;
  r ← cache_at_get atref;
  if r <? 0 then mret r else
  size ← cache_size;
  let nsize := u64 (size * 2) in
  let nbytes := u64 (nsize * UAM_BYTES) in
  if usegmapents_bytes <? nbytes then mret (- E_NO_MEM) else
  nent ← cache_nent;
  o ← for_loop (Z.to_nat nent) 0 (λ i,
    e ← cache_ent i;
    if negb (um_flags e =? 0) && (um_va e =? UADDRMAPENTS) then
      r ← kcall (k_segment_set_nbytes (um_object e) nbytes);
      if r <? 0 then mret (Some r) else
      modify (cache_resize nsize);;
      mret (Some 0)
    else mret None);
  mret (default (- E_NOT_FOUND) o).

Definition cache_refresh (atref : sobj_ref) : M (ustate K) unit :=
  c ← gets us_cached;
  if negb (so_object c =? so_object atref) then
    r ← cache_at_get atref;
    if r <? 0 then panic else modify (set_cached atref)
  else mret tt.

(** The loop of [cache_get_kslot]: [i] and [kslot] when it stops. *)
Fixpoint kslot_loop (n : nat) (i kslot : Z) : M (ustate K) (Z * Z) :=
  match n with
  | O => mret (i, kslot)
  | S n' =>
      e ← cache_ent i;
      if (um_flags e =? 0) || negb (um_kslot e =? kslot) then mret (i, kslot)
      else kslot_loop n' (i + 1) (u32 (um_kslot e + 1))
  end.
Definition cache_get_kslot : M (ustate K) Z :=
  nent ← cache_nent;
  '(i, kslot) ← kslot_loop (Z.to_nat nent) 0 0;
  size ← cache_size;
  if i =? size then
    r ← cache_grow;
    if r <? 0 then mret r else mret kslot
  else mret kslot.

(** [as_lookup]: the code and [*uam]. *)
Definition as_lookup (va : Z) : M (ustate K) (Z * option u_address_mapping) :=
  atref ← processor_current_as;
  cache_lock;;
  cache_refresh atref;;
  nent ← cache_nent;
  o ← for_loop (Z.to_nat nent) 0 (λ i,
    e ← cache_ent i;
    if (um_va e =? va) && negb (um_flags e =? 0) then
      c_assert (um_type e =? address_mapping_segment);;
      mret (Some e)
    else mret None);
  cache_unlock;;
  mret (match o with Some e => (1, Some e) | None => (0, None) end).

Definition set_um_flags (f : Z) (u : u_address_mapping) : u_address_mapping :=
  Uam (um_type u) (um_object u) (um_kslot u) f (um_va u) (um_start_page u) (um_num_pages u).
Definition as_unmap (va : Z) : M (ustate K) Z :=
  atref ← processor_current_as;
  cache_lock;;
  cache_refresh atref;;
  nent ← cache_nent;
  o ← for_loop (Z.to_nat nent) 0 (λ i,
    e ← cache_ent i;
    if (um_va e =? va) && negb (um_flags e =? 0) then
      r ← kcall (k_at_set_slot atref (set_um_flags 0 e));
      mret (if r <? 0 then Some r else None)
    else mret None);
  r2 ← cache_at_get atref;
  c_assert (r2 =? 0);;
  cache_unlock;;
  mret (default 0 o).

(** Whether an existing range [start, end) and the one tried collide, as the code tests it. *)
Definition collides (start end_ try_start try_end : Z) : bool :=
  ((start <=? try_start) && (try_start <? end_)) ||
  ((start <? try_end) && (try_end <=? end_)) ||
  ((try_start <? start) && (end_ <? try_end)).
(** One pass over the cache: the end of the first mapping in the way. *)
Definition get_va_pass (try_start try_end : Z) : M (ustate K) (option Z) :=
  nent ← cache_nent;
  for_loop (Z.to_nat nent) 0 (λ i,
    e ← cache_ent i;
    let start := um_va e in
    let end_ := u64 (start + u64 (um_num_pages e * PGSIZE)) in
    mret (if collides start end_ try_start try_end then Some end_ else None)).
(** The passes from [again] on.  Every restart moves past one more mapping, so one pass
    per entry and a last one are enough ([get_va_loop_run]). *)
Fixpoint get_va_loop (fuel : nat) (bytes try_start try_end : Z) : M (ustate K) Z :=
  match fuel with
  | O => crash NoFuel
  | S fuel' =>
      o ← get_va_pass try_start try_end;
      match o with
      | Some end_ => get_va_loop fuel' bytes end_ (u64 (end_ + bytes))
      | None => if UASMANAGEREND <? try_end then panic else mret try_start
      end
  end.
Definition cache_get_va (bytes : Z) : M (ustate K) Z :=
  let bytes := ROUNDUP bytes PGSIZE in
  ex ← gets us_exhausted;
  p ← gets us_map_ptr;
  nent ← cache_nent;
  let search := get_va_loop (S (Z.to_nat nent)) bytes UASMANAGERBASE (u64 (UASMANAGERBASE + bytes)) in
  if negb ex then
    if UASMANAGEREND <? u64 (p + bytes) then modify (set_map_ptr p true);; search
    else modify (set_map_ptr (u64 (p + bytes)) false);; mret p
  else search.

(** [as_map]: the code, [*va_p] and [*bytes_store]; a null pointer is [None]. *)
Definition as_map (sgref : sobj_ref) (start_byteoff flags : Z) (va_p bytes_store : option Z)
    : M (ustate K) (Z * option Z * option Z) :=
  c_assert (start_byteoff mod PGSIZE =? 0);;
  n ← (match bytes_store with
       | Some (Zpos b) => mret (inl (u64 (Zpos b + start_byteoff)))
       | _ => n ← kcall (k_segment_get_nbytes sgref); mret (if n <? 0 then inr n else inl n)
       end);
  match n with
  | inr n => mret (n, va_p, bytes_store)
  | inl sg_bytes =>
      let map_bytes := ROUNDUP (u64 (sg_bytes - start_byteoff)) PGSIZE in
      atref ← processor_current_as;
      cache_lock;;
      cache_refresh atref;;
      r ← cache_get_kslot;
      if r <? 0 then cache_unlock;; mret (r, va_p, bytes_store) else
      let kslot := r in
      map_va ← (match va_p with Some (Zpos v) => mret (Zpos v) | _ => cache_get_va map_bytes end);
      r ← kcall (k_at_set_slot atref
            (Uam address_mapping_segment sgref (u32 kslot) (u32 flags) map_va (start_byteoff / PGSIZE) (map_bytes / PGSIZE)));
      if r <? 0 then cache_unlock;; mret (r, va_p, bytes_store) else
      r2 ← cache_at_get atref;
      c_assert (r2 =? 0);;
      cache_unlock;;
      mret (r, (λ _, map_va) <$> va_p, (λ _, u64 (sg_bytes - start_byteoff)) <$> bytes_store)
  end.

Definition at_map_interior (intref : sobj_ref) (flags va : Z) : M (ustate K) Z :=
  atref ← processor_current_as;
  cache_lock;;
  cache_refresh atref;;
  r ← cache_get_kslot;
  if r <? 0 then cache_unlock;; mret r else
  r ← kcall (k_at_set_slot atref
        (Uam address_mapping_interior intref (u32 r) (u32 (Z.lor (Z.lor SEGMAP_READ SEGMAP_WRITE) flags)) va 0 0));
  if r <? 0 then cache_unlock;; mret r else
  r2 ← cache_at_get atref;
  c_assert (r2 =? 0);;
  cache_unlock;;
  mret r.

Definition set_uat_trap (h b t : Z) (u : u_address_tree) : u_address_tree := Uat (uat_size u) (uat_nent u) (uat_ents u) h b t.
Definition as_set_utrap (entry stack_base stack_top : Z) : M (ustate K) Z :=
  atref ← processor_current_as;
  cache_lock;;
  cache_refresh atref;;
  modify (λ s, set_cache (set_uat_trap entry stack_base stack_top (us_uat s)) (us_ents s) s);;
  uat ← gets us_uat;
  ents ← gets us_ents;
  '(r, ents') ← kcall (k_at_set atref uat ents);
  modify (λ s, set_cache (us_uat s) ents' s);;
  cache_unlock;;
  mret (if r <? 0 then r else 0).

(** [as_init]; [uam_ents] is what the array on the stack holds before. *)
Definition set_uat_nent (n : Z) (u : u_address_tree) : u_address_tree :=
  Uat (uat_size u) n (uat_ents u) (uat_trap_handler u) (uat_trap_stack_base u) (uat_trap_stack_top u).
Definition as_init (name : list Z) (uam_ents : list u_address_mapping) : M (ustate K) unit :=
  atref ← processor_current_as;
  '(r, uat, ents) ← kcall (k_at_get atref (Uat n_base_mappings 0 0 0 0 0) uam_ents);
  if r <? 0 then panic else
  env ← gets us_env;
  sg_id ← kcall (k_segment_alloc (ce_sh env) (n_base_mappings * UAM_BYTES) name (ce_pid env));
  if sg_id <? 0 then panic else
  let slot := uat_nent uat in
  e ← deref (λ _, ents !! Z.to_nat slot);
  let e := Uam address_mapping_segment (Sobj (ce_sh env) sg_id) (um_kslot e) (Z.lor SEGMAP_READ SEGMAP_WRITE)
             UADDRMAPENTS 0 (ROUNDUP usegmapents_bytes PGSIZE / PGSIZE) in
  '(r, _) ← kcall (k_at_set atref (set_uat_nent (u64 (slot + 1)) uat) (<[Z.to_nat slot := e]> ents));
  if r <? 0 then panic else
  modify (λ s, set_cache (Uat n_base_mappings (uat_nent (us_uat s)) UADDRMAPENTS (uat_trap_handler (us_uat s))
                            (uat_trap_stack_base (us_uat s)) (uat_trap_stack_top (us_uat s)))
                 (replicate (Z.to_nat n_base_mappings) zero_uam) s);;
  cache_refresh atref;;
  modify (set_us_mu false).

(** ** lib/segment.c *)

(** [segment_alloc]: the code, [*sg] and [*va_p]. *)
Definition user_segment_alloc (sh bytes : Z) (va_p : option Z) (flags : Z) (name : list Z) (pid : Z)
    : M (ustate K) (Z * option sobj_ref * option Z) :=
  id ← kcall (k_segment_alloc sh bytes name pid);
  if id <? 0 then mret (id, None, va_p) else
  match va_p with
  | Some _ =>
      '(r, va_p', _) ← as_map (Sobj sh id) 0 (Z.lor (Z.lor SEGMAP_READ SEGMAP_WRITE) flags) va_p (Some bytes);
      if r <? 0 then
        _ ← kcall (k_share_unref (Sobj sh id));
        mret (r, None, va_p')
      else mret (0, Some (Sobj sh id), va_p')
  | None => mret (0, Some (Sobj sh id), None)
  end.

(** ** Loads and stores of the process *)

(** The bytes [va, va + n) through the first mapping that covers [va]: object and offset.
    An access that runs out of its mapping, or into an earlier one, counts as a fault. *)
Fixpoint resolve (l : list u_address_mapping) (va n reqflags : Z) : option (Z * Z) :=
  match l with
  | [] => None
  | u :: l' =>
      match covers u va reqflags with
      | Some (va_start, va_end) =>
          if (um_type u =? address_mapping_segment) && (va + n <=? va_end)
          then Some (so_object (um_object u), um_start_page u * PGSIZE + (va - va_start)) else None
      | None =>
          let va_start := ROUNDDOWN (um_va u) PGSIZE in
          if (va <? va_start) && (va_start <? va + n) then None else resolve l' va n reqflags
      end
  end.
Definition uload (va n : Z) : M (ustate K) (list Z) := λ s,
  if n =? 0 then Ret [] s else
  match resolve (k_live (us_kern s)) va n 0 with
  | Some (id, off) =>
      match k_seg (us_kern s) id with
      | Some bs => if off + n <=? Z.of_nat (length bs) then Ret (take (Z.to_nat n) (drop (Z.to_nat off) bs)) s else Crash Undef
      | None => Crash Undef
      end
  | None => Crash Undef
  end.
Definition ustore (va : Z) (v : list Z) : M (ustate K) unit := λ s,
  if Z.of_nat (length v) =? 0 then Ret tt s else
  match resolve (k_live (us_kern s)) va (Z.of_nat (length v)) SEGMAP_WRITE with
  | Some (id, off) =>
      match k_seg (us_kern s) id with
      | Some bs => if off + Z.of_nat (length v) <=? Z.of_nat (length bs)
                   then Ret tt (set_kern (k_store id off v (us_kern s)) s) else Crash Undef
      | None => Crash Undef
      end
  | None => Crash Undef
  end.
End as_c.
