(* ===== verification/UasThms.v ===== *)
(** * The address-space manager: lemmas

    The cache agrees with the kernel's table ([as_ok]); every operation of lib/as.c
    keeps it so. *)
From Stdlib Require Import Sorting.Sorted.
From S2P Require Import Prelude Machine Ktypes Pmap At FaultProps Uas.

Ltac pgs := change PGSIZE with 4096 in *.

(** ** Tables as sorted lists *)

Lemma slot_sorted_bound l lo n :
  StronglySorted slot_lt l → Forall (λ u, lo ≤ um_kslot u < n) l → Z.of_nat (length l) ≤ Z.max 0 (n - lo).
Proof.
  intros Hs. revert lo. induction Hs as [|u l Hs IH Hu]; intros lo Hf; [simpl; lia|].
  apply Forall_cons in Hf as [Hu' Hf]. pose proof (IH (um_kslot u + 1)) as IHu. simpl. assert (Z.of_nat (length l) ≤ Z.max 0 (n - (um_kslot u + 1))); [|lia].
  apply IHu. rewrite Forall_forall in Hu, Hf |- *. intros v Hv. pose proof (Hu v Hv). pose proof (Hf v Hv). unfold slot_lt in *. lia.
Qed.
Lemma slot_inj l u v : StronglySorted slot_lt l → u ∈ l → v ∈ l → um_kslot u = um_kslot v → u = v.
Proof.
  induction 1 as [|w l Hs IH Hw]; intros Hu Hv He; [by apply not_elem_of_nil in Hu|]. rewrite Forall_forall in Hw.
  apply elem_of_cons in Hu as [->|Hu], Hv as [->|Hv]; [done|..|by apply IH].
  - pose proof (Hw v Hv). unfold slot_lt in *. lia.
  - pose proof (Hw u Hu). unfold slot_lt in *. lia.
Qed.
Lemma slot_lookup_lt l i j u v : StronglySorted slot_lt l → l !! i = Some u → l !! j = Some v → (i < j)%nat → um_kslot u < um_kslot v.
Proof.
  intros Hs. revert i j. induction Hs as [|w l Hs IH Hw]; intros i j Hi Hj Hij; [done|]. destruct i as [|i], j as [|j]; try lia; simpl in *.
  - injection Hi as ->. rewrite Forall_forall in Hw. by apply (Hw v), list_elem_of_lookup_2 with j.
  - apply (IH i j); [done..|lia].
Qed.

Lemma clear_slot_fresh i l : Forall (λ u, um_kslot u ≠ i) l → clear_slot i l = l.
Proof. unfold clear_slot. induction 1 as [|u l Hu Hl IH]; [done|]. rewrite filter_cons_True by done. by rewrite IH. Qed.
Lemma elem_of_insert_slot v u l : v ∈ insert_slot u l ↔ v = u ∨ v ∈ l.
Proof.
  induction l as [|w l IH]; simpl; [by rewrite list_elem_of_singleton, elem_of_nil; tauto|].
  destruct (_ <? _); rewrite !elem_of_cons; [tauto|]. rewrite IH. tauto.
Qed.
Lemma insert_slot_length u l : length (insert_slot u l) = S (length l).
Proof. induction l as [|w l IH]; simpl; [done|]. destruct (_ <? _); simpl; congruence. Qed.
Lemma insert_slot_clear u l : Forall (λ v, um_kslot v ≠ um_kslot u) l → clear_slot (um_kslot u) (insert_slot u l) = l.
Proof.
  induction 1 as [|w l Hw Hl IH]; simpl.
  - unfold clear_slot. rewrite filter_cons_False by tauto. done.
  - destruct (_ <? _).
    + unfold clear_slot. rewrite filter_cons_False by tauto. apply (clear_slot_fresh (um_kslot u) (w :: l)). by constructor.
    + unfold clear_slot in *. rewrite filter_cons_True by done. by rewrite IH.
Qed.
Lemma insert_slot_sorted u l : StronglySorted slot_lt l → Forall (λ v, um_kslot v ≠ um_kslot u) l → StronglySorted slot_lt (insert_slot u l).
Proof.
  induction 1 as [|w l Hs IH Hw]; intros Hf; simpl; [by repeat constructor|]. apply Forall_cons in Hf as [Hwu Hf].
  destruct (Z.ltb_spec (um_kslot u) (um_kslot w)) as [Hlt|Hge].
  - constructor; [by constructor|]. constructor; [done|]. eapply Forall_impl; [exact Hw|]. unfold slot_lt. intros v Hv. lia.
  - constructor; [by apply IH|]. apply Forall_forall. intros v Hv. apply elem_of_insert_slot in Hv as [->|Hv].
    + unfold slot_lt. lia.
    + rewrite Forall_forall in Hw. by apply Hw.
Qed.
(** [clear_slot] takes out the one element with that slot. *)
Lemma clear_slot_middle l1 u l2 : StronglySorted slot_lt (l1 ++ u :: l2) → clear_slot (um_kslot u) (l1 ++ u :: l2) = l1 ++ l2.
Proof.
  intros Hs. unfold clear_slot. rewrite filter_app, filter_cons_False by tauto. f_equal.
  - apply (clear_slot_fresh (um_kslot u) l1), Forall_forall. intros v Hv.
    apply list_elem_of_lookup in Hv as [i Hi]. pose proof (lookup_lt_Some _ _ _ Hi).
    pose proof (slot_lookup_lt (l1 ++ u :: l2) i (length l1) v u Hs) as Hlt.
    rewrite lookup_app_l in Hlt by done. rewrite list_lookup_middle in Hlt by done. specialize (Hlt Hi eq_refl ltac:(lia)). lia.
  - apply (clear_slot_fresh (um_kslot u) l2), Forall_forall. intros v Hv.
    apply list_elem_of_lookup in Hv as [i Hi].
    pose proof (slot_lookup_lt (l1 ++ u :: l2) (length l1) (length l1 + S i) u v Hs) as Hlt.
    assert (Hj : (l1 ++ u :: l2) !! (length l1 + S i)%nat = Some v).
    { rewrite lookup_app_r by lia. by replace (length l1 + S i - length l1)%nat with (S i) by lia. }
    specialize (Hlt (list_lookup_middle l1 l2 u _ eq_refl) Hj ltac:(lia)). lia.
Qed.
Lemma Forall_sublist {A} (P : A → Prop) (l l' : list A) : l' `sublist_of` l → Forall P l → Forall P l'.
Proof. rewrite !Forall_forall. intros Hsub Hf x Hx. by apply Hf, (elem_of_sublist l'). Qed.
Lemma sorted_sublist (l l' : list u_address_mapping) : l' `sublist_of` l → StronglySorted slot_lt l → StronglySorted slot_lt l'.
Proof.
  induction 1 as [|u l1 l2 Hsub IH|u l1 l2 Hsub IH]; intros Hs; [done| |]; inversion_clear Hs.
  - constructor; [auto|]. by apply (Forall_sublist _ l2).
  - auto.
Qed.

(** ** The invariant *)

Definition u_end (u : u_address_mapping) : Z := um_va u + um_num_pages u * PGSIZE.
Definition apart (u v : u_address_mapping) : Prop := u_end u ≤ um_va v ∨ u_end v ≤ um_va u.
Definition cache_id (l : list u_address_mapping) (id : Z) : Prop := Exists (λ u, um_va u = UADDRMAPENTS ∧ so_object (um_object u) = id) l.

Section as_thms.
Context {K : Type} `{!ProcKernel K} `{!ProcKernelLaws K}.
Implicit Types (s : ustate K) (k : K).

Abbreviation live s := (k_live (us_kern s)).

(** What holds of the table and of where addresses come from, whatever the cache holds. *)
Record table_ok (size : Z) s : Prop := TableOk {
  tb_slots : Forall (λ u, um_kslot u < size) (live s);
  tb_range : Forall (λ u, 0 ≤ um_num_pages u ∧ u_end u < 2 ^ 62) (live s);
  tb_apart : ∀ u v, u ∈ live s → v ∈ live s → u = v ∨ apart u v;
  tb_ptr : UASMANAGERBASE ≤ us_map_ptr s ≤ UASMANAGEREND ∧ us_map_ptr s mod PGSIZE = 0;
  tb_va : Forall (λ u, um_va u mod PGSIZE = 0) (live s);
  tb_room : us_exhausted s = false → Forall (λ u, u_end u ≤ us_map_ptr s ∨ UASMANAGEREND ≤ um_va u) (live s);
}.
(** The cache can take the whole table. *)
Record cache_shape s : Prop := CacheShape {
  cs_size : 0 < uat_size (us_uat s) ≤ Z.of_nat (length (us_ents s));
  cs_max : uat_size (us_uat s) * UAM_BYTES ≤ usegmapents_bytes;
  cs_cached : so_object (us_cached s) = so_object (k_as (us_kern s));
}.
(** The cache is the table. *)
Definition coherent s : Prop := uat_nent (us_uat s) = Z.of_nat (length (live s)) ∧ take (length (live s)) (us_ents s) = live s.
Record as_ok (held : bool) s : Prop := AsOk {
  ok_mu : us_mu s = held;
  ok_table : table_ok (uat_size (us_uat s)) s;
  ok_shape : cache_shape s;
  ok_cache : coherent s;
}.

(** What an operation of the manager leaves alone. *)
Record still s s' : Prop := Still {
  st_env : us_env s' = us_env s;
  st_mtab : us_mtab s' = us_mtab s;
  st_mref : us_mtab_ref s' = us_mtab_ref s;
  st_as : k_as (us_kern s') = k_as (us_kern s);
  st_seg id : ¬ cache_id (live s) id → k_seg (us_kern s') id = k_seg (us_kern s) id;
  st_some id : is_Some (k_seg (us_kern s) id) → is_Some (k_seg (us_kern s') id);
  st_refused : k_refused (us_kern s) → k_refused (us_kern s');
}.
Lemma still_refl s : still s s.
Proof. by constructor. Qed.
Lemma still_trans s1 s2 s3 : still s1 s2 → (∀ id, cache_id (live s2) id → cache_id (live s1) id) → still s2 s3 → still s1 s3.
Proof.
  intros [H1 H2 H3 H4 H5 H6 H7] Hid [G1 G2 G3 G4 G5 G6 G7]. constructor; try congruence; [|auto..].
  intros id Hn. rewrite G5 by auto. auto.
Qed.

Lemma live_le_size s : table_ok (uat_size (us_uat s)) s → 0 < uat_size (us_uat s) → Z.of_nat (length (live s)) ≤ uat_size (us_uat s).
Proof.
  intros Ht Hpos. destruct (live_ok (us_kern s)) as [Hs Hf]. pose proof (slot_sorted_bound (live s) 0 (uat_size (us_uat s)) Hs) as H.
  rewrite Z.max_r in H by lia. rewrite Z.sub_0_r in H. apply H. pose proof (tb_slots _ _ Ht) as Hb. rewrite Forall_forall in Hf, Hb |- *.
  intros u Hu. pose proof (Hf u Hu). pose proof (Hb u Hu). lia.
Qed.

Lemma wp_kcall {A} (m : M K A) s Q R : wp m (us_kern s) R → (∀ a k', R a k' → Q a (set_kern k' s)) → wp (kcall m) s Q.
Proof. intros Hm HQ. apply wp_zoom. eapply wp_mono; [exact Hm|]. exact HQ. Qed.

(** [sys_at_get] brings the cache up to date. *)
Lemma cache_at_get_wp s (Q : Z → ustate K → Prop) :
  table_ok (uat_size (us_uat s)) s → cache_shape s →
  (∀ uat ents k', same_view (us_kern s) k' → uat_size uat = uat_size (us_uat s) → length ents = length (us_ents s) →
     uat_nent uat = Z.of_nat (length (live s)) → take (length (live s)) ents = live s →
     Q 0 (set_cache uat ents (set_kern k' s))) →
  wp (cache_at_get (k_as (us_kern s))) s Q.
Proof.
  intros Ht [Hsz Hmx Hc] HQ. unfold cache_at_get. wp_pure. pose proof (live_le_size s Ht ltac:(lia)) as Hle.
  eapply wp_kcall; [apply at_get_law; lia|]. intros [[r uat'] ents'] k' [Hv Hr]. cbv zeta in Hr.
  rewrite (proj2 (Z.leb_le _ _) Hle) in Hr. destruct Hr as (-> & H1 & H2 & H3 & ->). wp_pure. apply HQ; try done.
  - rewrite length_app, length_drop. lia.
  - by rewrite take_app_length.
Qed.

(** Transport of the invariants along changes that do not matter to them. *)
Lemma table_ok_live size s s' :
  table_ok size s → live s' = live s → us_map_ptr s' = us_map_ptr s → us_exhausted s' = us_exhausted s → table_ok size s'.
Proof. intros [H1 H2 H3 H4 H5 H6] Hl Hp He. constructor; rewrite ?Hl, ?Hp, ?He; auto. Qed.
Lemma table_ok_size size size' s : table_ok size s → size ≤ size' → table_ok size' s.
Proof.
  intros [H1 H2 H3 H4 H5 H6] Hle. constructor; auto. eapply Forall_impl; [exact H1|]. simpl. intros u Hu. lia.
Qed.
Lemma table_ok_sub size s s' :
  table_ok size s → live s' `sublist_of` live s → us_map_ptr s' = us_map_ptr s → us_exhausted s' = us_exhausted s → table_ok size s'.
Proof.
  intros [H1 H2 H3 H4 H5 H6] Hl Hp He. constructor; rewrite ?Hp, ?He; try done.
  - by apply (Forall_sublist _ _ _ Hl).
  - by apply (Forall_sublist _ _ _ Hl).
  - intros u v Hu Hv. apply H3; by eapply elem_of_sublist.
  - by apply (Forall_sublist _ _ _ Hl).
  - intros Hx. by apply (Forall_sublist _ _ _ Hl), H6.
Qed.

(** Nothing about the mappings changes. *)
Record same_map s s' : Prop := SameMap {
  sm_still : still s s';
  sm_live : live s' = live s;
  sm_ptr : us_map_ptr s' = us_map_ptr s;
  sm_ex : us_exhausted s' = us_exhausted s;
}.
Lemma same_map_refl s : same_map s s.
Proof. constructor; [apply still_refl|done..]. Qed.
Lemma same_map_trans s1 s2 s3 : same_map s1 s2 → same_map s2 s3 → same_map s1 s3.
Proof.
  intros [H1 H2 H3 H4] [G1 G2 G3 G4]. constructor; try congruence.
  apply (still_trans s1 s2 s3 H1); [by rewrite H2|done].
Qed.
Lemma same_view_map s k' uat ents : same_view (us_kern s) k' → same_map s (set_cache uat ents (set_kern k' s)).
Proof. intros [H1 H2 H3 H4]. constructor; [|done..]. constructor; simpl; try done; intros id; by rewrite H3. Qed.
Lemma same_view_kern s k' : same_view (us_kern s) k' → same_map s (set_kern k' s).
Proof. intros [H1 H2 H3 H4]. constructor; [|done..]. constructor; simpl; try done; intros id; by rewrite H3. Qed.

Lemma cache_at_get_ok s b at_ :
  us_mu s = b → table_ok (uat_size (us_uat s)) s → cache_shape s → at_ = k_as (us_kern s) →
  wp (cache_at_get at_) s (λ r s', r = 0 ∧ as_ok b s' ∧ same_map s s' ∧ uat_size (us_uat s') = uat_size (us_uat s)).
Proof.
  intros Hmu Ht Hs ->. apply cache_at_get_wp; [done..|]. intros uat ents k' Hv Hsz Hlen Hn Htk. pose proof (same_view_map s k' uat ents Hv) as Hm.
  split; [done|]. split; [|done]. destruct Hs as [Hs1 Hs2 Hs3]. constructor; simpl.
  - done.
  - rewrite Hsz. by apply (table_ok_live _ s); [|apply Hm..].
  - constructor; simpl; rewrite ?Hsz, ?Hlen; [done..|]. rewrite Hs3. f_equal. symmetry. apply Hv.
  - unfold coherent. simpl. by rewrite (sv_live _ _ Hv).
Qed.

Lemma cache_ent_wp b s i (Q : u_address_mapping → ustate K → Prop) :
  as_ok b s → 0 ≤ i < Z.of_nat (length (live s)) →
  (∀ u, live s !! Z.to_nat i = Some u → Q u s) → wp (cache_ent i) s Q.
Proof.
  intros [_ _ _ [_ Hc]] Hi HQ. destruct (lookup_lt_is_Some_2 (live s) (Z.to_nat i)) as [u Hu]; [lia|].
  apply (wp_deref _ _ u); [|by apply HQ]. rewrite <- Hc in Hu. by rewrite lookup_take_lt in Hu by lia.
Qed.

(** The cache can be doubled: there is room in its range of addresses, and its segment is
    mapped and known. *)
Definition cache_reachable s : Prop := ∀ id, cache_id (live s) id → is_Some (k_seg (us_kern s) id).
Definition growable s : Prop :=
  uat_size (us_uat s) * 2 * UAM_BYTES ≤ usegmapents_bytes ∧ (∃ id, cache_id (live s) id) ∧ cache_reachable s.
Lemma growable_map s s' : same_map s s' → uat_size (us_uat s') = uat_size (us_uat s) → growable s → growable s'.
Proof.
  intros [[_ _ _ _ _ H _] Hl _ _] Hsz (H1 & H2 & H3). unfold growable, cache_reachable. rewrite Hsz, Hl. split_and!; [done..|]. intros id Hid. by apply H, H3.
Qed.
(** [cache_grow] doubles the cache, unless it cannot be or the kernel refuses; the table stays. *)
Lemma grow_coherent s nsize : coherent s → coherent (cache_resize nsize s).
Proof.
  intros [Hn Ht]. split; [done|]. simpl. rewrite take_app_le; [done|].
  assert (length (live s) = length (take (length (live s)) (us_ents s))) as H by by rewrite Ht. rewrite length_take in H. lia.
Qed.
Lemma cache_grow_wp b s :
  as_ok b s →
  wp cache_grow s (λ r s', as_ok b s' ∧ same_map s s' ∧ ((r < 0 ∧ (k_refused (us_kern s') ∨ ¬ growable s) ∧ uat_size (us_uat s) ≤ uat_size (us_uat s')) ∨ (r = 0 ∧ uat_size (us_uat s') = 2 * uat_size (us_uat s)))).
Proof.
  intros [Hmu Ht Hsh Hc]. unfold cache_grow, processor_current_as. wp_pure. eapply wp_mono; [by apply (cache_at_get_ok s b)|].
  intros r s1 (-> & Hok1 & Hm1 & Hsz). wp_pure. unfold cache_size. wp_pure. pose proof Hok1 as [_ Ht1 [Hs1 Hs1' Hs1''] Hc1]. unfold UAM_BYTES, usegmapents_bytes, UADDRMAPENTSEND, UADDRMAPENTS in *.
  rewrite (u64_small (uat_size (us_uat s1) * 2)) by (unfold in_u64; lia).
  rewrite (u64_small (uat_size (us_uat s1) * 2 * 56)) by (unfold in_u64; lia).
  destruct (Z.ltb_spec (0x700601000000 - 0x700600000000) (uat_size (us_uat s1) * 2 * 56)).
  { wp_pure. split_and!; [done..|]. left. split_and!; [unfold E_NO_MEM; lia| |lia]. right. intros [Hg _].
    unfold UAM_BYTES, usegmapents_bytes, UADDRMAPENTSEND, UADDRMAPENTS in Hg. lia. }
  unfold cache_nent. wp_pure. destruct Hc1 as [Hn1 Htk1]. rewrite Hn1, Nat2Z.id.
  apply (wp_for_loop (λ i s2, s2 = s1 ∧ ∀ x v, 0 ≤ Z.of_nat x < i → live s1 !! x = Some v → um_va v ≠ UADDRMAPENTS) (λ r s2, as_ok b s2 ∧ same_map s s2 ∧
    ((r < 0 ∧ (k_refused (us_kern s2) ∨ ¬ growable s) ∧ uat_size (us_uat s) ≤ uat_size (us_uat s2)) ∨ (r = 0 ∧ uat_size (us_uat s2) = 2 * uat_size (us_uat s))))); [split; [done|]; intros x v Hx; lia| | |].
  - intros i s2 Hi [-> Hlow]. apply wp_bind, (cache_ent_wp b); [done|lia|]. intros u Hu. destruct (live_ok (us_kern s1)) as [_ Hf]. rewrite Forall_lookup in Hf.
    destruct (Hf _ _ Hu) as [Hfl _]. rewrite (proj2 (Z.eqb_neq _ _) Hfl). cbn [negb andb]. destruct (um_va u =? _) eqn:Hva; [apply Z.eqb_eq in Hva|apply Z.eqb_neq in Hva].
    2: { apply wp_ret. cbv beta iota. split; [done|]. intros x v Hx Hv. destruct (decide (Z.of_nat x = i)) as [<-|]; [rewrite Nat2Z.id in Hu; simplify_eq; done|]. apply (Hlow x); [lia|done]. }
    assert (Hcid : cache_id (live s) (so_object (um_object u))).
    { apply Exists_exists. exists u. split; [|done]. rewrite <- (sm_live _ _ Hm1). by eapply list_elem_of_lookup_2. }
     apply wp_bind. eapply wp_kcall; [apply set_nbytes_law; lia|].
    intros r k' [(Hr & Hv & Hwhy)|(-> & Hsb & Hb0)].
    + rewrite (proj2 (Z.ltb_lt _ _) Hr). wp_pure. assert (Hm2 : same_map s1 (set_kern k' s1)) by by apply same_view_kern.
      split_and!; [|by apply (same_map_trans s s1)|left; split_and!; [done| |simpl; lia]].
      2: { destruct Hwhy as [?|Hnone]; [by left|right]. intros (_ & _ & Hcr). destruct (st_some _ _ (sm_still _ _ Hm1) _ (Hcr _ Hcid)) as [bs Hbs]. congruence. }
      constructor; simpl; [apply Hok1| | |].
      * by apply (table_ok_live _ s1); [|apply Hm2..].
      * constructor; simpl; [done|done|]. by rewrite Hs1'', (sv_as _ _ Hv).
      * unfold coherent. simpl. by rewrite (sv_live _ _ Hv).
    + wp_pure. assert (Hm2 : same_map s1 (cache_resize (uat_size (us_uat s1) * 2) (set_kern k' s1))).
      { destruct Hsb as [G1 G2 G3 G4]. constructor; [constructor; simpl; try done|done..]; intros id Hid.
        - apply G3. intros ->. apply Hid. apply Exists_exists. exists u. split; [by eapply list_elem_of_lookup_2|done].
        - destruct (decide (id = so_object (um_object u))) as [->|Hne]; [|by rewrite G3]. destruct Hb0 as (bs & _ & ->). by eexists. }
      split_and!; [|by apply (same_map_trans s s1)|right; simpl; lia]. constructor; [apply Hok1| | |].
      * apply (table_ok_size (uat_size (us_uat s1))); [|simpl; lia]. by apply (table_ok_live _ s1); [|apply Hm2..].
      * constructor; simpl; [rewrite length_app, length_replicate; lia|unfold UAM_BYTES, usegmapents_bytes, UADDRMAPENTSEND, UADDRMAPENTS; lia|].
        by rewrite Hs1'', (sb_as _ _ _ Hsb).
      * apply grow_coherent. unfold coherent. simpl. by rewrite (sb_live _ _ _ Hsb).
  - intros r s2 Hp. wp_pure. done.
  - intros s2 [-> Hlow]. wp_pure. split_and!; [done..|]. left. split_and!; [simpl; unfold E_NOT_FOUND; lia| |lia]. right. intros (_ & [id Hid] & _).
    unfold cache_id in Hid. rewrite <- (sm_live _ _ Hm1), Exists_exists in Hid. destruct Hid as (u & [x Hx]%list_elem_of_lookup & Hva & _).
    apply (Hlow x u); [apply lookup_lt_Some in Hx; lia|done|done].
Qed.

(** ** The choice of a slot *)

Lemma kslot_loop_run b s n i :
  as_ok b s → Z.of_nat (length (live s)) < 2 ^ 31 → 0 ≤ i → i + Z.of_nat n = Z.of_nat (length (live s)) →
  wp (kslot_loop n i i) s (λ p s', s' = s ∧ p.2 = p.1 ∧ i ≤ p.1 ≤ Z.of_nat (length (live s)) ∧
    (∀ x u, i ≤ Z.of_nat x < p.1 → live s !! x = Some u → um_kslot u = Z.of_nat x) ∧
    (∀ u, live s !! Z.to_nat p.1 = Some u → um_kslot u ≠ p.1)).
Proof.
  intros Hok Hlt. revert i. induction n as [|n IH]; intros i Hi Hn; cbn [kslot_loop].
  - wp_pure. simpl. split_and!; [done|done|lia|lia|intros x u Hx; lia|]. intros u Hu. apply lookup_lt_Some in Hu. lia.
  - apply wp_bind, (cache_ent_wp b); [done|lia|]. intros u Hu. destruct (live_ok (us_kern s)) as [_ Hf].
    rewrite Forall_forall in Hf. destruct (Hf u) as [Hfl _]; [by eapply list_elem_of_lookup_2|]. rewrite (proj2 (Z.eqb_neq _ _) Hfl). simpl.
    destruct (Z.eqb_spec (um_kslot u) i) as [He|Hne]; simpl.
    + rewrite He, u32_small by (unfold in_u32; lia). eapply wp_mono; [apply IH; lia|]. intros [j ks] s' (-> & H1 & H2 & H3 & H4). simpl in *.
      split_and!; [done|done|lia|lia| |done]. intros x v Hx Hv. destruct (decide (Z.of_nat x = i)) as [Hxi|]; [|apply H3; [lia|done]].
      replace x with (Z.to_nat i) in Hv by lia. rewrite Hu in Hv. injection Hv as <-. lia.
    + wp_pure. simpl. split_and!; [done|done|lia|lia|intros x v Hx; lia|]. intros v Hv. rewrite Hu in Hv. by injection Hv as <-.
Qed.

(** The least slot that no mapping uses. *)
Definition least_free (l : list u_address_mapping) (j : Z) : Prop :=
  0 ≤ j ∧ Forall (λ u, um_kslot u ≠ j) l ∧ ∀ i, 0 ≤ i < j → ∃ u, u ∈ l ∧ um_kslot u = i.
Lemma sorted_index l x u : slots_ok l → l !! x = Some u → Z.of_nat x ≤ um_kslot u.
Proof.
  intros [Hs Hf] Hx. revert u Hx. induction x as [|x IH]; intros u Hx.
  - rewrite Forall_forall in Hf. destruct (Hf u) as (_ & H & _); [by eapply list_elem_of_lookup_2|]. lia.
  - destruct (lookup_lt_is_Some_2 l x) as [v Hv]; [apply lookup_lt_Some in Hx; lia|]. pose proof (IH v Hv).
    pose proof (slot_lookup_lt l x (S x) v u Hs Hv Hx ltac:(lia)). lia.
Qed.
Lemma first_gap_free l j :
  slots_ok l → 0 ≤ j ≤ Z.of_nat (length l) → (∀ x u, 0 ≤ Z.of_nat x < j → l !! x = Some u → um_kslot u = Z.of_nat x) →
  (∀ u, l !! Z.to_nat j = Some u → um_kslot u ≠ j) → least_free l j.
Proof.
  intros Hl Hj Hlow Hat. split; [lia|]. split.
  - apply Forall_forall. intros u [x Hx]%list_elem_of_lookup. destruct (decide (Z.of_nat x < j)) as [Hlt|Hge].
    { rewrite (Hlow x u) by (done || lia). lia. }
    destruct (decide (Z.of_nat x = j)) as [Hxj|]; [apply Hat; by replace (Z.to_nat j) with x by lia|].
    pose proof (sorted_index l x u Hl Hx). lia.
  - intros i Hi. destruct (lookup_lt_is_Some_2 l (Z.to_nat i)) as [u Hu]; [lia|]. exists u. split; [by eapply list_elem_of_lookup_2|].
    rewrite (Hlow (Z.to_nat i) u) by (done || lia). lia.
Qed.
Lemma live_small b s : as_ok b s → Z.of_nat (length (live s)) ≤ uat_size (us_uat s) < 2 ^ 31.
Proof.
  intros [_ Ht [Hs Hm _] _]. pose proof (live_le_size s Ht ltac:(lia)). unfold UAM_BYTES, usegmapents_bytes, UADDRMAPENTSEND, UADDRMAPENTS in *. lia.
Qed.
(** The table is as large as the cache, which cannot be made larger. *)
Definition full s : Prop := Z.of_nat (length (live s)) = uat_size (us_uat s) ∧ ¬ growable s.
(** [cache_get_kslot] finds the least free slot, after growing the cache when it is full. *)
Lemma cache_get_kslot_wp b s :
  as_ok b s →
  wp cache_get_kslot s (λ r s', as_ok b s' ∧ same_map s s' ∧ uat_size (us_uat s) ≤ uat_size (us_uat s') ∧ ((r < 0 ∧ (k_refused (us_kern s') ∨ full s)) ∨ (least_free (live s) r ∧ r < uat_size (us_uat s')))).
Proof.
  intros Hok. pose proof (live_small b s Hok) as Hsm. unfold cache_get_kslot, cache_nent. wp_pure. destruct (ok_cache _ _ Hok) as [Hn _].
  rewrite Hn, Nat2Z.id. eapply wp_mono; [apply (kslot_loop_run b); [done|lia..]|]. intros [i ks] s' (-> & He & Hi & Hlow & Hat). simpl in *. subst ks.
  assert (Hfree : least_free (live s) i) by (apply first_gap_free; [apply live_ok|lia|done..]).
  unfold cache_size. wp_pure. destruct (Z.eqb_spec i (uat_size (us_uat s))) as [Hfull|Hroom].
  - apply wp_bind. eapply wp_mono; [by apply (cache_grow_wp b)|]. intros r s' (Hok' & Hm & [(Hr & Hwhy & Hle)|[-> Hsz]]).
    + rewrite (proj2 (Z.ltb_lt _ _) Hr). wp_pure. split_and!; [done..|]. left. split; [done|]. destruct Hwhy as [?|Hng]; [by left|right]. split; [lia|done].
    + wp_pure. destruct (ok_shape _ _ Hok) as [? _ _]. split_and!; [done|done|lia|]. right. split; [done|]. lia.
  - wp_pure. split_and!; [done|apply same_map_refl|lia|]. right. split; [done|lia].
Qed.

(** ** The choice of an address *)

(** A range that no mapping of the list overlaps. *)
Definition clear_range (l : list u_address_mapping) (a n : Z) : Prop := Forall (λ u, u_end u ≤ a ∨ a + n ≤ um_va u) l.

Lemma collides_spec a e ts te : a ≤ e → ts < te → collides a e ts te = false ↔ e ≤ ts ∨ te ≤ a.
Proof. unfold collides. intros Ha Ht. rewrite !orb_false_iff, !andb_false_iff, !Z.leb_gt, !Z.ltb_ge. lia. Qed.
Lemma collides_moves a e ts te : a ≤ e → ts < te → collides a e ts te = true → ts < e.
Proof. unfold collides. intros Ha Ht. rewrite !orb_true_iff, !andb_true_iff, !Z.leb_le, !Z.ltb_lt. lia. Qed.

Lemma u_end_u64 b s u : as_ok b s → u ∈ live s → um_va u ≤ u_end u < 2 ^ 62 ∧ u64 (um_va u + u64 (um_num_pages u * PGSIZE)) = u_end u.
Proof.
  intros Hok Hu. destruct (ok_table _ _ Hok) as [_ Hr _ _ _ _]. destruct (live_ok (us_kern s)) as [_ Hf]. rewrite Forall_forall in Hr, Hf.
  destruct (Hr u Hu) as [Hn He]. destruct (Hf u Hu) as (_ & _ & Hv). unfold u_end in *. pgs. split; [lia|].
  rewrite (u64_small (um_num_pages u * 4096)) by (unfold in_u64; lia). apply u64_small. unfold in_u64. lia.
Qed.
Lemma get_va_pass_eval b s ts te :
  as_ok b s →
  wp (get_va_pass ts te) s (λ o s', s' = s ∧
    match o with
    | Some e => ∃ u, u ∈ live s ∧ e = u_end u ∧ collides (um_va u) (u_end u) ts te = true
    | None => ∀ u, u ∈ live s → collides (um_va u) (u_end u) ts te = false
    end).
Proof.
  intros Hok. unfold get_va_pass, cache_nent. wp_pure. destruct (ok_cache _ _ Hok) as [Hn _]. rewrite Hn, Nat2Z.id.
  apply (wp_for_loop (λ i s', s' = s ∧ ∀ x u, Z.of_nat x < i → live s !! x = Some u → collides (um_va u) (u_end u) ts te = false)
                     (λ e s', s' = s ∧ ∃ u, u ∈ live s ∧ e = u_end u ∧ collides (um_va u) (u_end u) ts te = true)).
  - split; [done|]. intros x u Hx. lia.
  - intros i s' Hi [-> Hlow]. apply wp_bind, (cache_ent_wp b); [done|lia|]. intros u Hu. wp_pure.
    assert (Hin : u ∈ live s) by by eapply list_elem_of_lookup_2. destruct (u_end_u64 b s u Hok Hin) as [Hr ->].
    destruct (collides _ _ _ _) eqn:Hc; (split; [done|]); [by exists u|]. intros x v Hx Hv.
    destruct (decide (Z.of_nat x = i)) as [Hxi|]; [|apply (Hlow x v); [lia|done]].
    replace x with (Z.to_nat i) in Hv by lia. rewrite Hu in Hv. by injection Hv as <-.
  - intros e s' H. exact H.
  - intros s' [-> Hall]. split; [done|]. intros u [x Hx]%list_elem_of_lookup. pose proof (lookup_lt_Some _ _ _ Hx). by apply (Hall x); [lia|].
Qed.
Lemma get_va_pass_run b s ts te :
  as_ok b s → ts < te →
  wp (get_va_pass ts te) s (λ o s', s' = s ∧
    match o with
    | Some e => ∃ u, u ∈ live s ∧ e = u_end u ∧ ts < e
    | None => clear_range (live s) ts (te - ts)
    end).
Proof.
  intros Hok Hlt. eapply wp_mono; [by apply (get_va_pass_eval b)|]. intros [e|] s' [-> H]; (split; [done|]).
  - destruct H as (u & Hu & -> & Hc). exists u. split_and!; [done..|]. destruct (u_end_u64 b s u Hok Hu) as [Hr _]. by apply collides_moves in Hc; [|lia|].
  - apply Forall_forall. intros u Hu. destruct (u_end_u64 b s u Hok Hu) as [Hr _]. specialize (H u Hu). apply collides_spec in H; [|lia|done]. lia.
Qed.

(** The mappings that end after an address: the search passes one more with every restart. *)
Definition beyond (l : list u_address_mapping) (a : Z) : nat := length (filter (λ u, a < u_end u) l).
Lemma beyond_mono l a a' : a ≤ a' → (beyond l a' ≤ beyond l a)%nat.
Proof.
  intros Ha. unfold beyond. induction l as [|u l IH]; [done|]. rewrite !filter_cons.
  destruct (decide (a' < u_end u)), (decide (a < u_end u)); simpl; lia.
Qed.
Lemma beyond_step l a u : u ∈ l → a < u_end u → (beyond l (u_end u) < beyond l a)%nat.
Proof.
  intros Hu Ha. unfold beyond. induction l as [|v l IH]; [by apply not_elem_of_nil in Hu|]. rewrite !filter_cons.
  apply elem_of_cons in Hu as [<-|Hu].
  - rewrite decide_False by lia. rewrite decide_True by done. simpl. pose proof (beyond_mono l a (u_end u) ltac:(lia)) as Hm. unfold beyond in Hm. lia.
  - specialize (IH Hu). destruct (decide (u_end u < u_end v)), (decide (a < u_end v)); simpl; lia.
Qed.
(** The search terminates: its result is a free range below the end of the managed
    addresses, or there is none where it looks and it panics. *)
Lemma get_va_loop_run b s bytes fuel ts X :
  as_ok b s → 0 < bytes < 2 ^ 62 → bytes mod PGSIZE = 0 → UASMANAGERBASE ≤ ts < 2 ^ 62 → ts mod PGSIZE = 0 → (beyond (live s) ts < fuel)%nat → X →
  wpx (get_va_loop fuel bytes ts (u64 (ts + bytes))) s (λ va s', s' = s ∧ UASMANAGERBASE ≤ va ∧ va mod PGSIZE = 0 ∧ va + bytes ≤ UASMANAGEREND ∧ clear_range (live s) va bytes) X.
Proof.
  intros Hok Hb Hbm. revert ts. induction fuel as [|fuel IH]; intros ts Hts Hm Hf HX; [lia|]. cbn [get_va_loop].
  rewrite (u64_small (ts + bytes)) by (unfold in_u64, UASMANAGERBASE in *; lia). apply wpx_bind_wp. eapply wp_mono; [by apply (get_va_pass_run b); [|lia]|].
  intros [e|] s' [-> H].
  - destruct H as (u & Hu & -> & Hlt). destruct (u_end_u64 b s u Hok Hu) as [Hr _]. apply IH; [lia| |pose proof (beyond_step _ _ _ Hu Hlt); lia|done].
    unfold u_end in *. pose proof (tb_va _ _ (ok_table _ _ Hok)) as Hva. rewrite Forall_forall in Hva. specialize (Hva u Hu). pgs. dlia.
  - replace (ts + bytes - ts) with bytes in H by lia. destruct (Z.ltb_spec UASMANAGEREND (ts + bytes)); [done|].
    apply wp_wpx, wp_ret. split_and!; [done|lia|done|lia|done].
Qed.

(** The fast way of choosing an address still has room. *)
Definition fits s (n : Z) : Prop := us_exhausted s = false ∧ us_map_ptr s + n ≤ UASMANAGEREND.

Lemma set_map_ptr_ok b s p ex :
  as_ok b s → UASMANAGERBASE ≤ p ≤ UASMANAGEREND → p mod PGSIZE = 0 → (ex = false → us_exhausted s = false ∧ us_map_ptr s ≤ p) → as_ok b (set_map_ptr p ex s).
Proof.
  intros [H1 [T1 T2 T3 T4 T5 T6] [S1 S2 S3] H4] Hp Hm Hex. constructor; [done| | |done]; [|by constructor].
  constructor; try done. simpl. intros He. destruct (Hex He) as [H5 H6]. eapply Forall_impl; [by apply T6|]. simpl. intros u. lia.
Qed.
Record va_post s (bytes va : Z) s' : Prop := VaPost {
  vp_state : ∃ p ex, s' = set_map_ptr p ex s;
  vp_range : UASMANAGERBASE ≤ va ∧ va + bytes ≤ UASMANAGEREND;
  vp_page : va mod PGSIZE = 0;
  vp_clear : clear_range (live s) va bytes;
  vp_room : us_exhausted s' = false → va + bytes ≤ us_map_ptr s';
  vp_fits : fits s bytes → us_exhausted s' = false ∧ us_map_ptr s' = us_map_ptr s + bytes;
}.
Lemma ROUNDUP_pages n : 0 ≤ n < 2 ^ 63 → n mod PGSIZE = 0 → ROUNDUP n PGSIZE = n.
Proof.
  intros Hn Hm. destruct (ROUNDUP_exact n PGSIZE) as [-> _]; [unfold in_u64; lia|done|pgs; lia|]. pgs. dlia.
Qed.
(** [cache_get_va] gives a range that no mapping overlaps; it panics only when the fast way
    has no room. *)
Lemma cache_get_va_wpx b s bytes :
  as_ok b s → 0 < bytes < 2 ^ 62 → bytes mod PGSIZE = 0 →
  wpx (cache_get_va bytes) s (λ va s', as_ok b s' ∧ va_post s bytes va s') (¬ fits s bytes).
Proof.
  intros Hok Hb Hm. unfold cache_get_va. rewrite ROUNDUP_pages by (done || lia). apply wpx_bind_wp, wp_gets, wpx_bind_wp, wp_gets.
  unfold cache_nent. apply wpx_bind_wp, wp_gets. destruct (ok_table _ _ Hok) as [_ _ _ [Hp Hpm] _ Hroom]. destruct (ok_cache _ _ Hok) as [Hn _].
  assert (Hsearch : ∀ s1, as_ok b s1 → live s1 = live s → ¬ fits s bytes → us_exhausted s1 = true → (∃ p ex, s1 = set_map_ptr p ex s) →
    wpx (get_va_loop (S (Z.to_nat (uat_nent (us_uat s)))) bytes UASMANAGERBASE (u64 (UASMANAGERBASE + bytes))) s1
      (λ va s', as_ok b s' ∧ va_post s bytes va s') (¬ fits s bytes)).
  { intros s1 Hok1 Hl Hnf Hex Hs1. rewrite Hn, Nat2Z.id. eapply wpx_mono; [apply (get_va_loop_run b s1 bytes); try done| |done].
    - rewrite <- Hl. unfold beyond. pose proof (length_filter (λ u, UASMANAGERBASE < u_end u) (live s1)). lia.
    - intros va s' (-> & H1 & H2 & H3 & H4). split; [done|]. rewrite Hl in H4. constructor; try done. by rewrite Hex. }
  unfold UASMANAGERBASE, UASMANAGEREND in Hp. rewrite (u64_small (us_map_ptr s + bytes)) by (unfold in_u64; lia).
  destruct (us_exhausted s) eqn:Hex; cbn [negb].
  - apply Hsearch; [done|done|unfold fits; intros [? _]; congruence|done|]. exists (us_map_ptr s), true. destruct s; simpl in *. by rewrite Hex.
  - destruct (Z.ltb_spec UASMANAGEREND (us_map_ptr s + bytes)).
    + apply wpx_bind_wp, wp_modify. apply Hsearch; [by apply set_map_ptr_ok|done|unfold fits; intros [_ ?]; lia|done|by eexists _, _].
    + apply wpx_bind_wp, wp_modify, wp_wpx, wp_ret. split.
      * apply set_map_ptr_ok; [done|unfold UASMANAGERBASE; lia|pgs; dlia|intros _; split; [done|lia]].
      * constructor; simpl; try done; [by eexists _, _|unfold UASMANAGERBASE; lia|].
        eapply Forall_impl; [by apply Hroom|]. simpl. intros u. lia.
Qed.

(** ** Setting a slot *)

Lemma as_ok_kern b s k' : same_view (us_kern s) k' → as_ok b s → as_ok b (set_kern k' s).
Proof.
  intros Hv [H1 H2 [S1 S2 S3] H4]. constructor; simpl; [done| | |].
  - by apply (table_ok_live _ s); [|apply Hv|..].
  - constructor; simpl; [done..|]. by rewrite S3, (sv_as _ _ Hv).
  - unfold coherent. simpl. by rewrite (sv_live _ _ Hv).
Qed.
Lemma as_ok_mu b b' s : as_ok b s → as_ok b' (set_us_mu b' s).
Proof.
  intros [H1 H2 [S1 S2 S3] H4]. constructor; [done|by apply (table_ok_live _ s)|by constructor|done].
Qed.
Lemma same_map_mu s b : same_map s (set_us_mu b s).
Proof. by constructor; [constructor|..]. Qed.
Lemma cache_lock_wp s (Q : unit → ustate K → Prop) : us_mu s = false → Q tt (set_us_mu true s) → wp cache_lock s Q.
Proof. intros Hm HQ. unfold cache_lock. wp_pure. rewrite Hm. by apply wp_modify. Qed.
Lemma cache_unlock_wp s (Q : unit → ustate K → Prop) : us_mu s = true → Q tt (set_us_mu false s) → wp cache_unlock s Q.
Proof. intros Hm HQ. unfold cache_unlock. wp_pure. rewrite Hm. by apply wp_modify. Qed.
Lemma cache_refresh_wp s at_ (Q : unit → ustate K → Prop) : cache_shape s → at_ = k_as (us_kern s) → Q tt s → wp (cache_refresh at_) s Q.
Proof. intros [_ _ Hc] -> HQ. unfold cache_refresh. wp_pure. rewrite (proj2 (Z.eqb_eq _ _) Hc). by apply wp_ret. Qed.

(** A mapping that can be added: its slot is the least free one, its addresses are free. *)
Record addable s (u : u_address_mapping) : Prop := Addable {
  ad_slot : least_free (live s) (um_kslot u) ∧ um_kslot u < uat_size (us_uat s);
  ad_flags : um_flags u ≠ 0;
  ad_type : um_type u = address_mapping_segment;
  ad_va : 0 ≤ um_va u ∧ um_va u mod PGSIZE = 0;
  ad_range : 0 ≤ um_num_pages u ∧ u_end u < 2 ^ 62;
  ad_clear : clear_range (live s) (um_va u) (um_num_pages u * PGSIZE);
  ad_room : us_exhausted s = false → u_end u ≤ us_map_ptr s ∨ UASMANAGEREND ≤ um_va u;
}.
Lemma table_ok_insert s s' u :
  table_ok (uat_size (us_uat s)) s → addable s u → live s' = insert_slot u (live s) → us_map_ptr s' = us_map_ptr s → us_exhausted s' = us_exhausted s →
  table_ok (uat_size (us_uat s)) s'.
Proof.
  intros [H1 H2 H3 H4 H5 H6] [A1 A2 A3 A4 A5 A6 A7] Hl Hp He. constructor; rewrite ?Hp, ?He; try done.
  1, 2, 4, 5: rewrite ?Hl; intros; apply Forall_forall; intros v [->|Hv]%elem_of_insert_slot; [tauto|].
  - rewrite Forall_forall in H1. auto.
  - rewrite Forall_forall in H2. auto.
  - rewrite Forall_forall in H5. auto.
  - specialize (H6 H). rewrite Forall_forall in H6. auto.
  - unfold clear_range in A6. rewrite Forall_forall in A6. rewrite Hl. intros v w [->|Hv]%elem_of_insert_slot [->|Hw]%elem_of_insert_slot; [by left|..|by apply H3]; right; unfold apart.
    + destruct (A6 w Hw); [by right|left; done].
    + destruct (A6 v Hv); [by left|right; done].
Qed.
Lemma set_slot_wp s u at_ :
  as_ok true s → at_ = k_as (us_kern s) → addable s u →
  wp (kcall (k_at_set_slot at_ u)) s (λ r s',
    (r < 0 ∧ k_refused (us_kern s') ∧ as_ok true s' ∧ same_map s s' ∧ uat_size (us_uat s') = uat_size (us_uat s)) ∨
    (r = 0 ∧ us_mu s' = true ∧ table_ok (uat_size (us_uat s')) s' ∧ cache_shape s' ∧ uat_size (us_uat s') = uat_size (us_uat s) ∧
     still s s' ∧ live s' = insert_slot u (live s) ∧ us_map_ptr s' = us_map_ptr s ∧ us_exhausted s' = us_exhausted s)).
Proof.
  intros Hok -> Ha. pose proof (live_small _ _ Hok) as Hsm. pose proof Ha as [[[Hk0 [Hfr _]] Hk] Hfl Hty [Hva Hvm] [Hn He] Hcl Hro].
  eapply wp_kcall; [apply at_set_slot_law; [lia|unfold u_end in He; pgs; lia]|]. intros r k' [(Hr & Href & Hv)|(-> & Hl & Has & Hmono & Hseg)].
  - left. split_and!; [done|done|by apply as_ok_kern|by apply same_view_kern|done].
  - right. unfold set_slot in Hl. rewrite (proj2 (Z.eqb_neq _ _) Hfl), clear_slot_fresh in Hl by done.
    assert (sanitize u = u) as Hsan by (unfold sanitize; by rewrite Hty). rewrite Hsan in Hl.
    split_and!; [done|apply (ok_mu _ _ Hok)| | |done|by constructor; try done; intros id; simpl; rewrite Hseg|done..].
    + by apply (table_ok_insert s _ u); [apply Hok|..].
    + destruct (ok_shape _ _ Hok) as [S1 S2 S3]. constructor; simpl; [done..|]. by rewrite S3, Has.
Qed.

(** ** Mapping a segment *)

(** The number of bytes that a call of [as_map] maps: what the caller asks for, or the
    segment from [start] on. *)
Definition wants s (sgref : sobj_ref) (start : Z) (bytes_store : option Z) (len : Z) : Prop :=
  match bytes_store with
  | Some (Zpos b) => len = Zpos b
  | _ => ∀ bs, k_seg (us_kern s) (so_object sgref) = Some bs → len = Z.of_nat (length bs) - start
  end.
Definition new_mapping (sgref : sobj_ref) (start flags len kslot va : Z) : u_address_mapping :=
  Uam address_mapping_segment sgref kslot flags va (start / PGSIZE) (ROUNDUP len PGSIZE / PGSIZE).
Record mapped_new s (sgref : sobj_ref) (start flags len va : Z) s' : Prop := MappedNew {
  mn_ok : as_ok false s';
  mn_still : still s s';
  mn_live : ∃ kslot, least_free (live s) kslot ∧ live s' = insert_slot (new_mapping sgref start flags len kslot va) (live s);
  mn_va : UASMANAGERBASE ≤ va ∧ va + ROUNDUP len PGSIZE ≤ UASMANAGEREND ∧ va mod PGSIZE = 0;
  mn_clear : clear_range (live s) va (ROUNDUP len PGSIZE);
}.
(** Why a mapping is not made: the kernel refuses, the table is full, or the segment is
    not known. *)
Definition map_fails s (sgref : sobj_ref) s' : Prop :=
  k_refused (us_kern s') ∨ full s ∨ k_seg (us_kern s) (so_object sgref) = None.
Definition as_map_post s sgref start flags len (res : Z * option Z * option Z) s' : Prop :=
  uat_size (us_uat s) ≤ uat_size (us_uat s') ∧
  ((res.1.1 < 0 ∧ map_fails s sgref s' ∧ as_ok false s' ∧ still s s' ∧ live s' = live s) ∨
   (∃ va, res.1 = (0, Some va) ∧ mapped_new s sgref start flags len va s')) ∧
  (fits s (ROUNDUP len PGSIZE) → us_exhausted s' = false ∧ us_map_ptr s ≤ us_map_ptr s' ≤ us_map_ptr s + ROUNDUP len PGSIZE).

Lemma same_map_fits s s' n : same_map s s' → fits s n ↔ fits s' n.
Proof. intros [_ _ Hp He]. unfold fits. by rewrite Hp, He. Qed.

Lemma map_fails_before s s2 sgref s' :
  same_map s s2 → uat_size (us_uat s2) = uat_size (us_uat s) → map_fails s2 sgref s' → map_fails s sgref s'.
Proof.
  intros Hm Hsz [H|[[H1 H2]|H]]; [by left|right; left|right; right].
  - rewrite (sm_live _ _ Hm), Hsz in H1. split; [done|]. intros Hg. by apply H2, (growable_map s).
  - destruct (k_seg (us_kern s) (so_object sgref)) as [bs|] eqn:Hs; [|done]. destruct (st_some _ _ (sm_still _ _ Hm) (so_object sgref)) as [b Hb]; [by rewrite Hs|congruence].
Qed.
(** From the choice of the slot on. *)
Lemma as_map_finish s sgref start flags len va_p bst :
  as_ok true s → 0 < len < 2 ^ 61 → 0 < flags < 2 ^ 32 → (va_p = Some 0) →
  let n := ROUNDUP len PGSIZE in
  wpx (r ← cache_get_kslot;
       if r <? 0 then cache_unlock;; mret (r, va_p, bst) else
       map_va ← (match va_p with Some (Zpos v) => mret (Zpos v) | _ => cache_get_va n end);
       r' ← kcall (k_at_set_slot (k_as (us_kern s)) (Uam address_mapping_segment sgref (u32 r) (u32 flags) map_va (start / PGSIZE) (n / PGSIZE)));
       if r' <? 0 then cache_unlock;; mret (r', va_p, bst) else
       r2 ← cache_at_get (k_as (us_kern s));
       c_assert (r2 =? 0);;
       cache_unlock;;
       mret (r', (λ _, map_va) <$> va_p, (λ _, len) <$> bst)) s
    (as_map_post s sgref start flags len) (¬ fits s n).
Proof.
  intros Hok Hlen Hfl -> n. destruct (ROUNDUP_exact len PGSIZE) as [Hn Hnr]; [unfold in_u64; lia|done|pgs; lia|].
  assert (Hnm : n mod PGSIZE = 0) by (unfold n; rewrite Hn; pgs; dlia).
  assert (Hnd : ROUNDUP len PGSIZE = n) by done. clearbody n. rewrite Hnd in Hnr. clear Hn. unfold as_map_post. pgs. rewrite Hnd.
  apply wpx_bind_wp. eapply wp_mono; [by apply cache_get_kslot_wp|]. intros r s1 (Hok1 & Hm1 & Hsz1 & Hr). pose proof (same_map_fits s s1 n Hm1) as Hft.
  destruct (Z.ltb_spec r 0) as [Hneg|Hpos].
  { apply wpx_bind_wp, cache_unlock_wp; [apply Hok1|]. apply wp_wpx, wp_ret. destruct Hm1 as [G1 G2 G3 G4]. destruct Hr as [[_ Hwhy]|[[? _] _]]; [|lia].
    split; [done|]. split; [left; split_and!; [done|unfold map_fails; tauto|by apply (as_ok_mu true)| |done]|].
    - by destruct G1; constructor.
    - intros [F1 F2]. simpl. rewrite G3, G4. split; [done|]. lia. }
  destruct Hr as [[? _]|[Hfree Hlt]]; [lia|]. pose proof (live_small _ _ Hok1) as Hsm.
  apply wpx_bind. eapply wpx_mono; [apply (cache_get_va_wpx true s1 n Hok1); [lia|done]| |by rewrite <- Hft].
  intros va s2 [Hok2 [(p & ex & ->) [Hv1 Hv2] Hvp Hvc Hvr Hvf]]. rewrite !u32_small by (unfold in_u32; lia).
  set (u := Uam _ _ _ _ _ _ _). set (s2 := set_map_ptr p ex s1) in *. assert (Hnp : um_num_pages u * 4096 = n) by (simpl; dlia).
  assert (Ha : addable s2 u).
  { unfold UASMANAGERBASE, UASMANAGEREND in *. rewrite <- (sm_live _ _ Hm1) in Hfree. constructor; unfold u_end; pgs; rewrite ?Hnp; simpl; [done|lia|done|split; [lia|done]|split; [dlia|lia]|done|].
    intros He. left. by apply Hvr. }
  apply wpx_bind_wp. eapply wp_mono; [apply (set_slot_wp s2 u _ Hok2); [|done]; simpl; symmetry; apply (st_as _ _ (sm_still _ _ Hm1))|].
  assert (Hf2 : fits s n → us_exhausted s2 = false ∧ us_map_ptr s ≤ us_map_ptr s2 ≤ us_map_ptr s + n).
  { intros Hf. apply Hft, Hvf in Hf as [H1 H2]. split; [done|]. rewrite H2, (sm_ptr _ _ Hm1). lia. }
  intros r' s3 [(Hr' & Href & Hok3 & Hm3 & Hsz3)|(-> & Hmu3 & Ht3 & Hsh3 & Hsz3 & Hst3 & Hl3 & Hp3 & He3)].
  - rewrite (proj2 (Z.ltb_lt _ _) Hr'). apply wpx_bind_wp, cache_unlock_wp; [apply Hok3|]. apply wp_wpx, wp_ret.
    destruct Hm1 as [G1 G2 _ _], Hm3 as [K1 K2 K3 K4].
    split; [simpl in *; lia|]. split; [left; split_and!; [done|by left|by apply (as_ok_mu true)| |]|].
    + assert (Hst : still s s3); [|by destruct Hst; constructor].
      apply (still_trans s s1 s3 G1); [by rewrite G2|by destruct K1; constructor].
    + simpl. by rewrite K2.
    + simpl. by rewrite K3, K4.
  - apply wpx_bind_wp. eapply wp_mono; [apply (cache_at_get_ok s3 true); [done..|]|].
    { rewrite (st_as _ _ Hst3). simpl. symmetry. apply (st_as _ _ (sm_still _ _ Hm1)). }
    intros r2 s4 (-> & Hok4 & Hm4 & Hsz4). apply wpx_bind_wp, wp_assert; [done|]. apply wpx_bind_wp, cache_unlock_wp; [apply Hok4|]. apply wp_wpx, wp_ret.
    destruct Hm1 as [G1 G2 _ _], Hm4 as [K1 K2 K3 K4]. split; [simpl in *; lia|]. split; [right; exists va; split; [done|]|simpl; by rewrite K3, K4, Hp3, He3].
    constructor.
    + by apply (as_ok_mu true).
    + assert (Hid : ∀ id, cache_id (live s3) id → cache_id (live s) id).
      { intros id. unfold cache_id. rewrite Hl3, !Exists_exists. simpl. intros (v & [->|Hv]%elem_of_insert_slot & Hv' & Hid).
        - exfalso. simpl in Hv'. unfold UASMANAGEREND, UADDRMAPENTS in *. lia.
        - exists v. rewrite <- G2. done. }
      assert (Hst : still s s4); [|by destruct Hst; constructor].
      apply (still_trans s s3 s4); [|exact Hid|done]. apply (still_trans s s1 s3 G1); [by rewrite G2|by destruct Hst3; constructor].
    + exists r. split; [done|]. unfold new_mapping. simpl. pgs. by rewrite K2, Hl3, Hnd, <- G2.
    + pgs. rewrite Hnd. split_and!; [lia|lia|done].
    + pgs. by rewrite Hnd, <- G2.
Qed.

Lemma as_map_wpx s sgref start flags bst len :
  as_ok false s → wants s sgref start bst len → 0 ≤ start → start mod PGSIZE = 0 → 0 < len → len + start < 2 ^ 61 → 0 < flags < 2 ^ 32 →
  wpx (as_map sgref start flags (Some 0) bst) s (as_map_post s sgref start flags len) (¬ fits s (ROUNDUP len PGSIZE)).
Proof.
  intros Hok Hw Hst Hsm Hlen Hmax Hfl. unfold as_map. apply wpx_bind_wp, wp_assert; [by apply Z.eqb_eq|].
  assert (Hrest : ∀ s1, same_view (us_kern s) (us_kern s1) → s1 = set_kern (us_kern s1) s →
    wpx (atref ← processor_current_as; cache_lock;; cache_refresh atref;; r ← cache_get_kslot;
       if r <? 0 then cache_unlock;; mret (r, Some 0, bst) else
       map_va ← cache_get_va (ROUNDUP len PGSIZE);
       r' ← kcall (k_at_set_slot atref (Uam address_mapping_segment sgref (u32 r) (u32 flags) map_va (start / PGSIZE) (ROUNDUP len PGSIZE / PGSIZE)));
       if r' <? 0 then cache_unlock;; mret (r', Some 0, bst) else
       r2 ← cache_at_get atref;
       c_assert (r2 =? 0);;
       cache_unlock;;
       mret (r', (λ _, map_va) <$> Some 0, (λ _, len) <$> bst)) s1 (as_map_post s sgref start flags len) (¬ fits s (ROUNDUP len PGSIZE))).
  { intros s1 Hv Hs1. apply wpx_bind_wp, wp_gets. set (s2 := set_us_mu true s1).
    assert (Hok1 : as_ok false s1) by (rewrite Hs1; by apply as_ok_kern). assert (Hok2 : as_ok true s2) by by apply (as_ok_mu false).
    assert (Hm : same_map s s2).
    { apply (same_map_trans s s1); [|apply same_map_mu]. rewrite Hs1. by apply same_view_kern. }
    apply wpx_bind_wp, cache_lock_wp; [apply Hok1|]. apply wpx_bind_wp, cache_refresh_wp; [apply Hok2|done|].
    change (k_as (us_kern s1)) with (k_as (us_kern s2)). eapply wpx_mono; [apply (as_map_finish s2 sgref start flags len (Some 0) bst Hok2 ltac:(lia) Hfl eq_refl)| |].
    - assert (Hsz2 : uat_size (us_uat s2) = uat_size (us_uat s)) by (simpl; by rewrite Hs1).
      intros res s' (Hsz & H & Hf). rewrite <- (same_map_fits s s2) in Hf by done. rewrite (sm_ptr _ _ Hm) in Hf. rewrite Hsz2 in Hsz. split; [done|]. split; [|done].
      pose proof Hm as [G1 G2 _ _]. destruct H as [(H1 & Hwhy & H2 & H3 & H4)|(va & H1 & [H2 H3 H4 H5 H6])].
      + left. split_and!; [done|by apply (map_fails_before s s2)|done|by apply (still_trans s s2 s' G1); [rewrite G2|]|congruence].
      + right. exists va. split; [done|]. rewrite G2 in *. constructor; try done. by apply (still_trans s s2 s' G1); [rewrite G2|].
    - by rewrite <- (same_map_fits s s2). }
  destruct bst as [[|b|b]|]; simpl in Hw; try
    (apply wpx_bind_wp, wp_bind; eapply wp_kcall; [apply get_nbytes_law|]; intros n k' [Hv Hn]; destruct (Z.ltb_spec n 0) as [Hneg|Hpos]; wp_pure;
     [ destruct Hn as [[_ Hwhy]|(bs & _ & ->)]; [|lia]; apply wp_wpx, wp_ret; split; [done|];
       split; [left; split_and!; [done|unfold map_fails; tauto|by apply as_ok_kern|by apply same_view_kern|apply Hv]|]; intros [F1 F2]; simpl;
       destruct (ROUNDUP_exact len PGSIZE) as [_ ?]; [unfold in_u64; lia|done|pgs; lia|]; split; [done|lia]
     | destruct Hn as [[? _]|(bs & Hbs & ->)]; [lia|]; rewrite <- (Hw bs Hbs), (u64_small len) by (unfold in_u64; lia); by apply Hrest ]).
  apply wpx_bind_wp, wp_ret. rewrite (u64_small (Zpos b + start)) by (unfold in_u64; lia). replace (Zpos b + start - start) with len by lia.
  rewrite (u64_small len) by (unfold in_u64; lia). apply Hrest; [done|]. by destruct s.
Qed.

(** ** Unmapping *)

Definition not_at (va : Z) (l : list u_address_mapping) : list u_address_mapping := filter (λ u, um_va u ≠ va) l.
(** The table after the loop has dealt with the first [i] entries. *)
Definition unmapping (va : Z) (i : nat) (l : list u_address_mapping) : list u_address_mapping := not_at va (take i l) ++ drop i l.
Lemma not_at_sub va l : not_at va l `sublist_of` l.
Proof. apply sublist_filter. Qed.
Lemma unmapping_sub va i l : unmapping va i l `sublist_of` l.
Proof. unfold unmapping. rewrite <- (take_drop i l) at 3. apply sublist_app; [apply not_at_sub|done]. Qed.
Lemma unmapping_all va i l : (length l ≤ i)%nat → unmapping va i l = not_at va l.
Proof. intros Hi. unfold unmapping. by rewrite take_ge, drop_ge, app_nil_r. Qed.
Lemma unmapping_keeps va i l u : u ∈ l → um_va u ≠ va → u ∈ unmapping va i l.
Proof.
  intros Hu Hne. unfold unmapping, not_at. rewrite elem_of_app, list_elem_of_filter. rewrite <- (take_drop i l), elem_of_app in Hu. tauto.
Qed.
Lemma unmapping_step va i l u :
  StronglySorted slot_lt l → l !! i = Some u →
  unmapping va (S i) l = if decide (um_va u = va) then clear_slot (um_kslot u) (unmapping va i l) else unmapping va i l.
Proof.
  intros Hs Hi. pose proof (unmapping_sub va i l) as Hsub. unfold unmapping in *. rewrite (take_S_r _ _ _ Hi), (drop_S _ _ _ Hi) in *.
  unfold not_at in *. rewrite filter_app. destruct (decide (um_va u = va)) as [He|Hne].
  - rewrite clear_slot_middle by by apply (sorted_sublist l). rewrite filter_cons_False by tauto. by rewrite app_nil_r.
  - rewrite filter_cons_True by done. by rewrite <- app_assoc.
Qed.
Lemma set_slot_none u l : set_slot (set_um_flags 0 u) l = clear_slot (um_kslot u) l.
Proof. done. Qed.

Definition unmap_post s (va r : Z) s' : Prop :=
  as_ok false s' ∧ still s s' ∧ us_map_ptr s' = us_map_ptr s ∧ us_exhausted s' = us_exhausted s ∧ uat_size (us_uat s') = uat_size (us_uat s) ∧
  ((r = 0 ∧ live s' = not_at va (live s)) ∨ (r < 0 ∧ k_refused (us_kern s') ∧ ∃ i, live s' = unmapping va i (live s))).
Lemma as_unmap_wp s va : as_ok false s → wp (as_unmap va) s (unmap_post s va).
Proof.
  intros Hok. unfold as_unmap, processor_current_as. wp_pure. apply cache_lock_wp; [apply Hok|]. set (s1 := set_us_mu true s).
  assert (Hok1 : as_ok true s1) by by apply (as_ok_mu false). wp_pure. apply cache_refresh_wp; [apply Hok1|done|]. unfold cache_nent. wp_pure.
  destruct (ok_cache _ _ Hok1) as [Hn Htk]. rewrite Hn, Nat2Z.id. destruct (live_ok (us_kern s)) as [Hsort Hall]. rewrite Forall_forall in Hall.
  set (I := λ (i : Z) s', ∃ k', s' = set_kern k' s1 ∧ k_live k' = unmapping va (Z.to_nat i) (live s) ∧ k_as k' = k_as (us_kern s) ∧
    (k_refused (us_kern s) → k_refused k') ∧ ∀ id, k_seg k' id = k_seg (us_kern s) id).
  assert (Hfin : ∀ (o : option Z) i s', I i s' → (o = None ∧ i = Z.of_nat (length (live s)) ∨ ∃ r, o = Some r ∧ r < 0 ∧ k_refused (us_kern s')) →
    wp (r2 ← cache_at_get (k_as (us_kern s)); c_assert (r2 =? 0);; cache_unlock;; mret (default 0 o)) s' (unmap_post s va)).
  { intros o i s' (k' & -> & Hl & Has & Hmono & Hseg) Ho. wp_pure. destruct Hok1 as [_ Ht1 [S1 S2 S3] _].
    eapply wp_mono; [apply (cache_at_get_ok _ true); [done| | |by simpl]|].
    - apply (table_ok_sub _ s1); try done. simpl. rewrite Hl. apply unmapping_sub.
    - constructor; [done..|]. simpl. rewrite Has. exact S3.
    - intros r2 s2 (-> & Hok2 & Hm2 & Hsz2). wp_pure. apply wp_assert; [done|]. wp_pure. apply cache_unlock_wp; [apply Hok2|]. wp_pure.
      destruct Hm2 as [[G1 G2 G3 G4 G5 G6 G7] K2 K3 K4]. simpl in *. rewrite Hl in *. split_and!; [by apply (as_ok_mu true)| |done|done|done|].
      + constructor; simpl; [done..|congruence| |intros id Hid; apply G6; by rewrite Hseg|auto]. intros id Hid. rewrite G5, Hseg; [done|]. intros Hc. apply Hid. unfold cache_id in *.
        rewrite Exists_exists in *. destruct Hc as (u & Hu & Hp). exists u. split; [|done]. by eapply elem_of_sublist, unmapping_sub.
      + destruct Ho as [[-> ->]|(r & -> & Hr & Href)]; simpl; [left|right; by eauto]. rewrite K2. split; [done|]. apply unmapping_all. lia. }
  apply (wp_for_loop I (λ r s', r < 0 ∧ k_refused (us_kern s') ∧ ∃ i, I i s')).
  - exists (us_kern s1). split_and!; [by destruct s1|done..].
  - intros i s' Hi (k' & -> & Hl & Has & Hmono & Hseg). destruct (lookup_lt_is_Some_2 (live s) (Z.to_nat i)) as [u Hu]; [simpl in Hi; lia|].
    pose proof (unmapping_step va (Z.to_nat i) (live s) u Hsort Hu) as Hstep.
    apply wp_bind, (wp_deref _ _ u). { simpl in *. rewrite <- Htk in Hu. by rewrite lookup_take_lt in Hu by lia. }
    destruct (Hall u) as (Hfl & Hks & Hva); [by eapply list_elem_of_lookup_2|]. rewrite (proj2 (Z.eqb_neq _ _) Hfl), andb_true_r.
    rewrite <- Z2Nat.inj_succ in Hstep by lia. change (Z.succ i) with (i + 1) in Hstep. destruct (Z.eqb_spec (um_va u) va) as [He|Hne].
    + rewrite decide_True in Hstep by done. apply wp_bind. eapply wp_kcall; [rewrite <- Has; apply at_set_slot_law; simpl; lia|].
      intros r k2 [(Hr & Href & [V1 V2 V3 V4])|(-> & Hl2 & Has2 & Hmono2 & Hseg2)]; apply wp_ret; simpl in *.
      * rewrite (proj2 (Z.ltb_lt _ _) Hr). split; [done|]. split; [done|]. exists i, k2. split_and!; [done|congruence|congruence|auto|]. intros id. by rewrite V3.
      * exists k2. rewrite set_slot_none in Hl2. split_and!; [done|congruence|congruence|auto|]. intros id. by rewrite Hseg2.
    + rewrite decide_False in Hstep by done. apply wp_ret. exists k'. split_and!; [done|congruence|done..].
  - intros r s' (Hr & Href & i & Hi). apply (Hfin (Some r) i); [done|]. right. by eauto.
  - intros s' Hi. apply (Hfin None _ s' Hi). left. split; [done|]. simpl. lia.
Qed.

(** ** Loads and stores *)

Definition plain_range (u : u_address_mapping) : Prop := 0 ≤ um_va u ∧ um_va u mod PGSIZE = 0 ∧ 0 ≤ um_num_pages u ∧ u_end u < 2 ^ 62.
Lemma plain_rounddown u : plain_range u → ROUNDDOWN (um_va u) PGSIZE = um_va u.
Proof. intros (H1 & H2 & H3 & H4). unfold u_end in H4. rewrite ROUNDDOWN_small by (unfold in_u64; pgs; lia). lia. Qed.
Lemma covers_plain u va req :
  plain_range u →
  covers u va req =
    if bit (um_flags u) SEGMAP_READ && (Z.land (um_flags u) req =? req) &&
       ((um_type u =? address_mapping_segment) || (um_type u =? address_mapping_interior)) && (um_va u <=? va) && (va <? u_end u)
    then Some (um_va u, u_end u) else None.
Proof.
  intros Hp. pose proof (plain_rounddown u Hp) as Hr. destruct Hp as (H1 & H2 & H3 & H4). unfold covers. unfold u_end in *.
  destruct (bit _ _); [|done]. destruct (Z.land _ _ =? _); [|done]. cbn [negb andb]. rewrite <- negb_orb.
  destruct ((_ =? address_mapping_segment) || _); [|done]. cbn [negb andb]. cbv zeta. rewrite Hr.
  destruct (safe64_exact (um_num_pages u) PGSIZE) as [_ Em]; [unfold in_u64; pgs; lia|unfold in_u64; pgs; lia|]. change safe_mulptr with safe_mul64. rewrite Em.
  rewrite (proj2 (Z.ltb_lt _ _)) by (pgs; lia). rewrite u64_small by (unfold in_u64; pgs; lia).
  destruct (safe64_exact (um_va u) (um_num_pages u * PGSIZE)) as [Ea _]; [unfold in_u64; pgs; lia|unfold in_u64; pgs; lia|]. change safe_addptr with safe_add64. rewrite Ea.
  rewrite (proj2 (Z.ltb_lt _ _)) by (pgs; lia). rewrite u64_small by (unfold in_u64; pgs; lia). cbn [Z.eqb negb orb].
  destruct (Z.ltb_spec va (um_va u)), (Z.leb_spec (um_va u + um_num_pages u * PGSIZE) va), (Z.leb_spec (um_va u) va), (Z.ltb_spec va (um_va u + um_num_pages u * PGSIZE)); try done; lia.
Qed.
Lemma resolve_hit l u va n req :
  (∀ v, v ∈ l → plain_range v) → (∀ v, v ∈ l → v = u ∨ apart v u) → u ∈ l → 0 < n → um_va u ≤ va → va + n ≤ u_end u →
  bit (um_flags u) SEGMAP_READ = true → Z.land (um_flags u) req = req → um_type u = address_mapping_segment →
  resolve l va n req = Some (so_object (um_object u), um_start_page u * PGSIZE + (va - um_va u)).
Proof.
  intros Hpl Hap Hu Hn H1 H2 Hr Hq Ht. induction l as [|v l IH]; [by apply not_elem_of_nil in Hu|]. cbn [resolve].
  assert (Hpv : plain_range v) by (apply Hpl; by left). rewrite (covers_plain v va req Hpv), (plain_rounddown v Hpv).
  destruct (Hap v) as [->|Hv]; [by left| |].
  - rewrite Hr, Hq, Ht, Z.eqb_refl, (proj2 (Z.leb_le _ _) H1), (proj2 (Z.ltb_lt va (u_end u))) by lia. simpl. by rewrite (proj2 (Z.leb_le _ _) H2).
  - destruct Hpv as (_ & _ & Hnp & _). assert (um_va v ≤ u_end v) by (unfold u_end; pgs; lia).
    assert ((um_va v <=? va) && (va <? u_end v) = false) as E1.
    { apply andb_false_iff. rewrite Z.leb_gt, Z.ltb_ge. unfold apart in Hv. lia. }
    rewrite <- andb_assoc, E1, andb_false_r.
    assert ((va <? um_va v) && (um_va v <? va + n) = false) as ->.
    { apply andb_false_iff. rewrite !Z.ltb_ge. unfold apart in Hv. lia. }
    apply IH.
    + intros w Hw. apply Hpl. by right.
    + intros w Hw. apply Hap. by right.
    + apply elem_of_cons in Hu as [Hu|Hu]; [|done]. subst u. destruct Hv; lia.
Qed.

(** The process sees the bytes [off, off + len) of segment [id] at [va], for reading and
    writing. *)
Record window s (va id off len : Z) (u : u_address_mapping) : Prop := Window {
  wi_in : u ∈ live s;
  wi_id : so_object (um_object u) = id;
  wi_va : um_va u ≤ va ∧ va + len ≤ u_end u;
  wi_off : um_start_page u * PGSIZE + (va - um_va u) = off;
  wi_rw : bit (um_flags u) SEGMAP_READ = true ∧ Z.land (um_flags u) SEGMAP_WRITE = SEGMAP_WRITE ∧ um_type u = address_mapping_segment;
}.
Lemma live_plain b s u : as_ok b s → u ∈ live s → plain_range u.
Proof.
  intros Hok Hu. destruct (ok_table _ _ Hok) as [_ H2 _ _ H5 _]. destruct (live_ok (us_kern s)) as [_ Hf]. rewrite Forall_forall in H2, H5, Hf.
  destruct (H2 u Hu), (Hf u Hu) as (_ & _ & ?). split_and!; auto; lia.
Qed.
Lemma window_resolve b s va id off len u o n req :
  as_ok b s → window s va id off len u → 0 ≤ o → 0 < n → o + n ≤ len → req = 0 ∨ req = SEGMAP_WRITE →
  resolve (live s) (va + o) n req = Some (id, off + o).
Proof.
  intros Hok [W1 <- W3 <- (R1 & R2 & R3)] Ho Hn Hl Hq. rewrite (resolve_hit (live s) u); try done; try lia.
  - f_equal. f_equal. lia.
  - intros v. by apply (live_plain b).
  - intros v Hv. by apply (tb_apart _ _ (ok_table _ _ Hok)).
  - destruct Hq as [->| ->]; [apply Z.land_0_r|done].
Qed.
Lemma uload_run b s va id off len u o n bs :
  as_ok b s → window s va id off len u → k_seg (us_kern s) id = Some bs → 0 ≤ off → 0 ≤ o → 0 ≤ n → o + n ≤ len → off + o + n ≤ Z.of_nat (length bs) →
  uload (va + o) n s = Ret (take (Z.to_nat n) (drop (Z.to_nat (off + o)) bs)) s.
Proof.
  intros Hok Hw Hs Hof Ho Hn Hl Hb. unfold uload. destruct (Z.eqb_spec n 0) as [->|Hn0]; [done|].
  rewrite (window_resolve b s va id off len u) by (done || lia || by left). rewrite Hs. by rewrite (proj2 (Z.leb_le _ _) Hb).
Qed.
Lemma ustore_run b s va id off len u o v bs :
  as_ok b s → window s va id off len u → k_seg (us_kern s) id = Some bs → 0 ≤ off → 0 ≤ o → o + Z.of_nat (length v) ≤ len →
  off + o + Z.of_nat (length v) ≤ Z.of_nat (length bs) → (0 < length v)%nat →
  ustore (va + o) v s = Ret tt (set_kern (k_store id (off + o) v (us_kern s)) s).
Proof.
  intros Hok Hw Hs Hof Ho Hl Hb Hv. unfold ustore. destruct (Z.eqb_spec (Z.of_nat (length v)) 0) as [|_]; [lia|].
  rewrite (window_resolve b s va id off len u) by (done || lia || by right). rewrite Hs. by rewrite (proj2 (Z.leb_le _ _) Hb).
Qed.
End as_thms.
