(* ===== verification/Ramfs.v ===== *)
(** * The RAM file system

    fs/ramfs.c.  A file or directory is a segment; every operation maps it with
    [as_map], works on the mapped bytes and unmaps it.  The layout of [union
    ramfs_inode] is that of the code: byte 0 is the type, the mutex is at 8, and at 16
    begin the directory entries (80 bytes each: name, share, object) or the file's bytes.
    The size of a file is the size of its segment less 8192, so sizes are multiples of
    the page size.

    A C string is the list of its characters without the final NUL; buffers are lists of
    bytes. *)
From S2P Require Import Prelude Machine Ktypes Pmap At Uas.

Definition RAMFS_NDENT : Z := 64.
Definition FS_NAME_LEN : Z := 64.
Definition dir_type : Z := 0.
Definition file_type : Z := 1.
(** [sizeof(ramfs_inode_t)] and the offsets of the fields. *)
Definition INODE_BYTES : Z := 8192.
Definition OFF_MU : Z := 8.
Definition OFF_ENT : Z := 16.
Definition OFF_RAM : Z := 16.
Definition DENT_BYTES : Z := 80.
Definition OFF_SEG : Z := 64.
Definition S_IFDIR : Z := 0x4000.
Definition DEV_RAMFS : Z := 114.
Definition SEGMAP_RW : Z := Z.lor SEGMAP_READ SEGMAP_WRITE.

(** 64-bit words in memory. *)
Fixpoint le_bytes (n : nat) (w : Z) : list Z :=
  match n with O => [] | S n' => w mod 256 :: le_bytes n' (w / 256) end.
Fixpoint of_le (l : list Z) : Z :=
  match l with [] => 0 | b :: l' => b + 256 * of_le l' end.
Definition le64 (w : Z) : list Z := le_bytes 8 w.

(** The string at the start of a field of bytes; nothing when it is not terminated there. *)
Fixpoint cstr (l : list Z) : option (list Z) :=
  match l with
  | [] => None
  | b :: l' => if b =? 0 then Some [] else cons b <$> cstr l'
  end.
(** The [n] bytes that [strncpy(_, name, n)] writes. *)
Definition strncpy_bytes (n : nat) (name : list Z) : list Z := take n name ++ replicate (n - length name) 0.

Section ramfs_c.
Context {K : Type} `{!ProcKernel K}.
Implicit Types (s : ustate K).

(** [thread_mutex_lock] and [thread_mutex_unlock] on a mutex in mapped memory. *)
Definition thread_mutex_lock (mu : Z) : M (ustate K) unit :=
  w ← uload mu 8;
  if of_le w =? 0 then ustore mu (le64 1) else crash Hang.
Definition thread_mutex_unlock (mu : Z) : M (ustate K) unit :=
  w ← uload mu 8;
  if of_le w =? 1 then ustore mu (le64 0) else
  if of_le w =? 0 then panic else mret tt.

(** [ramfs_init]: the code and [*h]. *)
Definition ramfs_init (name_share name_root : list Z) : M (ustate K) (Z * option fs_handle) :=
  env ← gets us_env;
  sh ← kcall (k_share_alloc (ce_sh env) (Z.shiftl 1 kobj_segment) name_share (ce_pid env));
  if sh <? 0 then mret (sh, None) else
  '(r, seg, ino) ← user_segment_alloc sh INODE_BYTES (Some 0) 0 name_root (ce_pid env);
  if r <? 0 then
    _ ← kcall (k_share_unref (Sobj (ce_sh env) sh));
    _ ← kcall (k_self_drop_share sh);
    mret (r, None)
  else
    ino ← deref (λ _, ino);
    seg ← deref (λ _, seg);
    ustore ino (replicate (Z.to_nat INODE_BYTES) 0);;
    ustore ino [dir_type];;
    _ ← as_unmap ino;
    mret (0, Some (FsHandle DEV_RAMFS seg 0)).

(** [ramfs_map_dir] and [ramfs_map_file]: the code and the address. *)
Definition ramfs_map (type : Z) (seg : sobj_ref) (flags : Z) : M (ustate K) (Z * Z) :=
  '(r, ino, _) ← as_map seg 0 flags (Some 0) None;
  if r <? 0 then mret (r, 0) else
  ino ← deref (λ _, ino);
  t ← uload ino 1;
  if negb (of_le t =? type) then
    _ ← as_unmap ino;
    mret (-1, 0)
  else mret (0, ino).
Definition ramfs_map_dir : sobj_ref → Z → M (ustate K) (Z * Z) := ramfs_map dir_type.
Definition ramfs_map_file : sobj_ref → Z → M (ustate K) (Z * Z) := ramfs_map file_type.

(** The body of the loop of [ramfs_inode_alloc] for a free entry [ent]. *)
Definition ramfs_inode_fill (h : fs_handle) (name : list Z) (type dir ent : Z) : M (ustate K) (Z * option fs_handle) :=
  env ← gets us_env;
  '(r, seg, ino) ← user_segment_alloc (so_share (fh_ref h)) INODE_BYTES (Some 0) 0 name (ce_pid env);
  if r <? 0 then
    thread_mutex_unlock (dir + OFF_MU);;
    _ ← as_unmap dir;
    mret (r, None)
  else
    ino ← deref (λ _, ino);
    seg ← deref (λ _, seg);
    ustore ino (replicate (Z.to_nat INODE_BYTES) 0);;
    ustore ino [u8 type];;
    _ ← as_unmap ino;
    ustore ent (strncpy_bytes (Z.to_nat (FS_NAME_LEN - 1)) name);;
    ustore (ent + (FS_NAME_LEN - 1)) [0];;
    ustore (ent + OFF_SEG) (le64 (so_share seg) ++ le64 (so_object seg));;
    thread_mutex_unlock (dir + OFF_MU);;
    _ ← as_unmap dir;
    mret (0, Some (FsHandle DEV_RAMFS seg 0)).
(** [ramfs_inode_alloc]: the code and [*o]. *)
Definition ramfs_inode_alloc (h : fs_handle) (name : list Z) (type : Z) : M (ustate K) (Z * option fs_handle) :=
  '(r, dir) ← ramfs_map_dir (fh_ref h) (Z.lor SEGMAP_WRITE SEGMAP_READ);
  if r <? 0 then mret (r, None) else
  thread_mutex_lock (dir + OFF_MU);;
  o ← for_loop (Z.to_nat RAMFS_NDENT) 0 (λ i,
    let ent := dir + OFF_ENT + i * DENT_BYTES in
    c ← uload ent 1;
    if of_le c =? 0 then
      res ← ramfs_inode_fill h name type dir ent;
      mret (Some res)
    else mret None);
  match o with
  | Some res => mret res
  | None =>
      thread_mutex_unlock (dir + OFF_MU);;
      _ ← as_unmap dir;
      mret (- E_NO_SPACE, None)
  end.

Definition ramfs_file_size (h : fs_handle) : M (ustate K) Z :=
  r ← kcall (k_segment_get_nbytes (fh_ref h));
  if r <? 0 then mret r else mret (r - INODE_BYTES).

Definition ramfs_file_create (dir : fs_handle) (fn : list Z) : M (ustate K) (Z * option fs_handle) := ramfs_inode_alloc dir fn file_type.
Definition ramfs_dir_mk (h : fs_handle) (fn : list Z) : M (ustate K) (Z * option fs_handle) := ramfs_inode_alloc h fn dir_type.

(** [ramfs_file_pread]: the code and what is copied to the buffer. *)
Definition ramfs_file_pread (h : fs_handle) (count off : Z) : M (ustate K) (Z * list Z) :=
  r ← ramfs_file_size h;
  if r <? 0 then mret (r, []) else
  if r <? off then mret (0, []) else
  let count := if u64 (r - off) <? count then u64 (r - off) else count in
  '(r, file) ← ramfs_map_file (fh_ref h) SEGMAP_RW;
  if r <? 0 then mret (r, []) else
  buf ← uload (file + OFF_RAM + off) count;
  _ ← as_unmap file;
  mret (s64 count, buf).

Definition ramfs_file_truncate (h : fs_handle) (new_size : Z) : M (ustate K) Z :=
  '(r, file) ← ramfs_map_file (fh_ref h) SEGMAP_RW;
  if r <? 0 then mret r else
  thread_mutex_lock (file + OFF_MU);;
  old_size ← ramfs_file_size h;
  if old_size <? 0 then
    thread_mutex_unlock (file + OFF_MU);;
    _ ← as_unmap file;
    mret old_size
  else
    r ← kcall (k_segment_set_nbytes (fh_ref h) (u64 (new_size + INODE_BYTES)));
    (if old_size <? new_size then ustore (file + OFF_RAM + old_size) (replicate (Z.to_nat (new_size - old_size)) 0) else mret tt);;
    thread_mutex_unlock (file + OFF_MU);;
    _ ← as_unmap file;
    mret r.

Definition ramfs_file_pwrite (h : fs_handle) (buf : list Z) (off : Z) : M (ustate K) Z :=
  let count := Z.of_nat (length buf) in
  '(r, file) ← ramfs_map_file (fh_ref h) SEGMAP_RW;
  if r <? 0 then mret r else
  let need := s64 (count + off) in
  thread_mutex_lock (file + OFF_MU);;
  r ← ramfs_file_size h;
  if r <? 0 then
    thread_mutex_unlock (file + OFF_MU);;
    _ ← as_unmap file;
    mret r
  else
    m ← (if r <? need then
           r ← kcall (k_segment_set_nbytes (fh_ref h) (u64 (need + INODE_BYTES)));
           thread_mutex_unlock (file + OFF_MU);;
           _ ← as_unmap file;
           if r <? 0 then mret (r, 0) else ramfs_map_file (fh_ref h) SEGMAP_RW
         else thread_mutex_unlock (file + OFF_MU);; mret (0, file));
    let '(r, file) := m in
    if r <? 0 then mret r else
    ustore (file + OFF_RAM + off) buf;;
    _ ← as_unmap file;
    mret (s64 count).

(** [ramfs_dir_lookup]: the code and [*o]. *)
Definition ramfs_dir_lookup (h : fs_handle) (fn : list Z) : M (ustate K) (Z * option fs_handle) :=
  '(r, dir) ← ramfs_map_dir (fh_ref h) SEGMAP_RW;
  if r <? 0 then mret (r, None) else
  thread_mutex_lock (dir + OFF_MU);;
  o ← for_loop (Z.to_nat RAMFS_NDENT) 0 (λ i,
    let ent := dir + OFF_ENT + i * DENT_BYTES in
    c ← uload ent 1;
    if of_le c =? 0 then mret None else
    field ← uload ent FS_NAME_LEN;
    name ← deref (λ _, cstr field);
    if decide (name = fn) then
      share ← uload (ent + OFF_SEG) 8;
      object ← uload (ent + OFF_SEG + 8) 8;
      thread_mutex_unlock (dir + OFF_MU);;
      _ ← as_unmap dir;
      mret (Some (0, Some (FsHandle DEV_RAMFS (Sobj (of_le share) (of_le object)) 0)))
    else mret None);
  match o with
  | Some res => mret res
  | None =>
      thread_mutex_unlock (dir + OFF_MU);;
      _ ← as_unmap dir;
      mret (- E_NOT_FOUND, None)
  end.

Definition ramfs_pfork (root : fs_handle) : M (ustate K) (Z * sobj_ref) :=
  mret (0, Sobj (so_share (fh_ref root)) (so_share (fh_ref root))).

(** [ramfs_stat]: the code, [st->size] and [st->mode]. *)
Definition ramfs_stat (h : fs_handle) : M (ustate K) (Z * Z * Z) :=
  r ← ramfs_file_size h;
  if r <? 0 then mret (r, 0, 0) else
  let size := u64 r in
  '(r, ino, _) ← as_map (fh_ref h) 0 SEGMAP_RW (Some 0) None;
  if r <? 0 then mret (r, size, 0) else
  ino ← deref (λ _, ino);
  t ← uload ino 1;
  _ ← as_unmap ino;
  mret (0, size, if of_le t =? dir_type then S_IFDIR else 0).
Definition ramfs_fsync (h : fs_handle) : M (ustate K) Z := mret 0.
End ramfs_c.
