(* ===== verification/RamfsThms.v ===== *)
(** * The RAM file system: lemmas

    The shape of inodes in segments, and what mapping one, loading and storing through the
    mapping and unmapping it do to its bytes; then reading and writing files. *)
From S2P Require Import Prelude Machine Ktypes Pmap At FaultProps Uas UasThms Ramfs.

(** ** Bytes *)

Lemma splice_length off v bs : 0 ≤ off → off + Z.of_nat (length v) ≤ Z.of_nat (length bs) → length (splice off v bs) = length bs.
Proof. intros Ho Hl. unfold splice. rewrite !length_app, length_take, length_drop. lia. Qed.
Lemma splice_lookup off v bs i :
  0 ≤ off → off + Z.of_nat (length v) ≤ Z.of_nat (length bs) →
  splice off v bs !! i = if decide (off ≤ Z.of_nat i < off + Z.of_nat (length v)) then v !! (i - Z.to_nat off)%nat else bs !! i.
Proof.
  intros Ho Hl. unfold splice. assert (Ht : length (take (Z.to_nat off) bs) = Z.to_nat off) by (rewrite length_take; lia).
  destruct (decide (Z.of_nat i < off)) as [Hlt|Hge].
  - rewrite decide_False by lia. rewrite lookup_app_l by lia. apply lookup_take_lt. lia.
  - rewrite lookup_app_r by lia. rewrite Ht. destruct (decide _) as [Hin|Hout].
    + rewrite lookup_app_l by lia. done.
    + rewrite lookup_app_r by lia. rewrite lookup_drop. f_equal. lia.
Qed.
Lemma resize_length n bs : 0 ≤ n → length (resize_bytes n bs) = Z.to_nat n.
Proof. intros Hn. unfold resize_bytes. rewrite length_app, length_take, length_replicate. lia. Qed.
Lemma resize_lookup n bs i :
  resize_bytes n bs !! i = if decide (Z.of_nat i < n) then Some (default 0 (bs !! i)) else None.
Proof.
  unfold resize_bytes. destruct (decide (Z.of_nat i < n)) as [Hi|Hi].
  - destruct (decide (i < length bs)%nat) as [Hlt|Hge].
    + rewrite lookup_app_l by (rewrite length_take; lia). rewrite lookup_take_lt by lia.
      destruct (lookup_lt_is_Some_2 bs i Hlt) as [b Hb]. by rewrite Hb.
    + rewrite lookup_app_r by (rewrite length_take; lia). rewrite (lookup_ge_None_2 bs) by lia.
      rewrite lookup_replicate_2; [done|]. rewrite length_take. lia.
  - apply lookup_ge_None_2. rewrite length_app, length_take, length_replicate. lia.
Qed.
(** The bytes [o, o + n) of a segment. *)
Definition sub_bytes (o n : Z) (bs : list Z) : list Z := take (Z.to_nat n) (drop (Z.to_nat o) bs).
Lemma sub_lookup o n bs i : sub_bytes o n bs !! i = if decide (Z.of_nat i < n) then bs !! (Z.to_nat o + i)%nat else None.
Proof.
  unfold sub_bytes. destruct (decide _) as [Hi|Hi].
  - rewrite lookup_take_lt by lia. apply lookup_drop.
  - apply lookup_take_ge. lia.
Qed.
Lemma sub_length o n bs : 0 ≤ o → 0 ≤ n → o + n ≤ Z.of_nat (length bs) → length (sub_bytes o n bs) = Z.to_nat n.
Proof. intros. unfold sub_bytes. rewrite length_take, length_drop. lia. Qed.
Lemma sub_splice_same o v bs : 0 ≤ o → o + Z.of_nat (length v) ≤ Z.of_nat (length bs) → sub_bytes o (Z.of_nat (length v)) (splice o v bs) = v.
Proof.
  intros Ho Hl. apply list_eq. intros i. rewrite sub_lookup. destruct (decide _) as [Hi|Hi].
  - rewrite splice_lookup, decide_True by lia. f_equal. lia.
  - symmetry. apply lookup_ge_None_2. lia.
Qed.
Lemma sub_splice_other o n o' v bs :
  0 ≤ o → 0 ≤ o' → o' + Z.of_nat (length v) ≤ Z.of_nat (length bs) → o + n ≤ o' ∨ o' + Z.of_nat (length v) ≤ o → sub_bytes o n (splice o' v bs) = sub_bytes o n bs.
Proof.
  intros Ho Ho' Hl Hd. apply list_eq. intros i. rewrite !sub_lookup. destruct (decide _) as [Hi|Hi]; [|done].
  rewrite splice_lookup, decide_False by lia. done.
Qed.
(** Two writes to the same place: the second counts. *)
Lemma splice_splice o v w bs : 0 ≤ o → o + Z.of_nat (length v) ≤ Z.of_nat (length bs) → length w = length v → splice o w (splice o v bs) = splice o w bs.
Proof.
  intros Ho Hl Hw. apply list_eq. intros i. rewrite !splice_lookup by (rewrite ?splice_length by lia; lia). rewrite Hw. by destruct (decide _).
Qed.
Lemma splice_self o n bs : 0 ≤ o → 0 ≤ n → o + n ≤ Z.of_nat (length bs) → splice o (sub_bytes o n bs) bs = bs.
Proof.
  intros Ho Hn Hl. apply list_eq. intros i. rewrite splice_lookup by (rewrite ?sub_length by lia; lia). rewrite sub_length by lia.
  destruct (decide _) as [Hi|]; [|done]. rewrite sub_lookup, decide_True by lia. f_equal. lia.
Qed.
Lemma splice_resize o v n bs :
  0 ≤ o → o + Z.of_nat (length v) ≤ Z.of_nat (length bs) → o + Z.of_nat (length v) ≤ n → resize_bytes n (splice o v bs) = splice o v (resize_bytes n bs).
Proof.
  intros Ho Hl Hn. apply list_eq. intros i. rewrite splice_lookup by (rewrite ?resize_length by lia; lia). rewrite !resize_lookup.
  rewrite splice_lookup by lia. destruct (decide (o ≤ _ < _)) as [Hi|]; [|done]. rewrite decide_True by lia.
  destruct (lookup_lt_is_Some_2 v (i - Z.to_nat o)) as [b ->]; [lia|done].
Qed.
Lemma sub_resize o n m bs : 0 ≤ o → o + n ≤ m → o + n ≤ Z.of_nat (length bs) → sub_bytes o n (resize_bytes m bs) = sub_bytes o n bs.
Proof.
  intros Ho Hm Hl. apply list_eq. intros i. rewrite !sub_lookup. destruct (decide _) as [Hi|]; [|done].
  rewrite resize_lookup, decide_True by lia. destruct (lookup_lt_is_Some_2 bs (Z.to_nat o + i)) as [b ->]; [lia|done].
Qed.

Lemma le_bytes_length n w : length (le_bytes n w) = n.
Proof. revert w. induction n as [|n IH]; intros w; simpl; [done|]. by rewrite IH. Qed.
Lemma of_le_bytes n w : 0 ≤ w < 256 ^ Z.of_nat n → of_le (le_bytes n w) = w.
Proof.
  revert w. induction n as [|n IH]; intros w Hw; [simpl in *; lia|]. cbn [le_bytes of_le].
  rewrite Nat2Z.inj_succ, Z.pow_succ_r in Hw by lia. rewrite IH by (split; [apply Z.div_pos; lia|apply Z.div_lt_upper_bound; lia]). dlia.
Qed.
Lemma le_bytes_range n w : Forall (λ b, 0 ≤ b < 256) (le_bytes n w).
Proof. revert w. induction n as [|n IH]; intros w; constructor; [apply Z.mod_pos_bound; lia|auto]. Qed.
Lemma cstr_app l l' : Forall (λ b, b ≠ 0) l → cstr (l ++ 0 :: l') = Some l.
Proof. induction 1 as [|b l Hb Hl IH]; simpl; [done|]. rewrite (proj2 (Z.eqb_neq _ _) Hb), IH. done. Qed.

(** ** Progress of the process *)

Section ramfs_thms.
Context {K : Type} `{!ProcKernel K} `{!ProcKernelLaws K}.
Implicit Types (s : ustate K) (k : K).
Abbreviation live s := (k_live (us_kern s)).

(** From [s] to [s'] the manager's invariant still holds, at most [n] bytes of fresh
    addresses are used up, and only the segments [ids] have changed, apart from the one
    that holds the cache. *)
Record going (n : Z) (ids : list Z) s s' : Prop := Going {
  go_ok : as_ok false s';
  go_env : us_env s' = us_env s;
  go_mtab : us_mtab s' = us_mtab s;
  go_mref : us_mtab_ref s' = us_mtab_ref s;
  go_as : k_as (us_kern s') = k_as (us_kern s);
  go_id id : cache_id (live s') id → cache_id (live s) id;
  go_room : fits s n → us_exhausted s' = false ∧ us_map_ptr s' ≤ us_map_ptr s + n;
  go_seg id : id ∉ ids → ¬ cache_id (live s) id → k_seg (us_kern s') id = k_seg (us_kern s) id;
  go_some id : id ∉ ids → is_Some (k_seg (us_kern s) id) → is_Some (k_seg (us_kern s') id);
  go_refused : k_refused (us_kern s) → k_refused (us_kern s');
  go_size : uat_size (us_uat s) ≤ uat_size (us_uat s');
}.
Lemma going_refl s ids : as_ok false s → going 0 ids s s.
Proof. intros Hok. constructor; try done. intros [H1 H2]. split; [done|lia]. Qed.
(** How many mappings there are, and whether there are as many as the cache can hold. *)
Definition nmaps s : Z := Z.of_nat (length (live s)).
Definition crowded s : Prop := uat_size (us_uat s) ≤ nmaps s.
(** No mapping is left over, unless the kernel refused to take it down. *)
Definition tidy s s' : Prop := k_refused (us_kern s') ∨ nmaps s' ≤ nmaps s.

Lemma going_trans n m ids1 ids2 s1 s2 s3 : 0 ≤ m → going n ids1 s1 s2 → going m ids2 s2 s3 → going (n + m) (ids1 ++ ids2) s1 s3.
Proof.
  intros Hm [A1 A2 A3 A4 A5 A6 A7 A8 A9 A10 A11] [B1 B2 B3 B4 B5 B6 B7 B8 B9 B10 B11]. constructor; try congruence; try lia; auto.
  - intros [F1 F2]. destruct A7 as [G1 G2]; [split; [done|lia]|]. destruct B7 as [H1 H2]; [split; [done|lia]|]. split; [done|lia].
  - intros id Hid Hn. rewrite elem_of_app in Hid. rewrite B8, A8; tauto || auto.
  - intros id Hid Hn. rewrite elem_of_app in Hid. apply B9, A9; tauto.
Qed.
Lemma going_fits n m ids s s' : going n ids s s' → 0 ≤ m → fits s (n + m) → fits s' m.
Proof. intros [_ _ _ _ _ _ H _ _ _ _] Hm [F1 F2]. destruct H as [G1 G2]; [split; [done|lia]|]. split; [done|lia]. Qed.
Lemma going_weaken n ids n' ids' s s' : going n ids s s' → n ≤ n' → ids ⊆ ids' → going n' ids' s s'.
Proof.
  intros [A1 A2 A3 A4 A5 A6 A7 A8 A9 A10 A11] Hn Hid. constructor; try done.
  - intros [F1 F2]. destruct A7; [split; [done|lia]|]. split; [done|lia].
  - intros id Hi. apply A8. intros Hx. by apply Hi, Hid.
  - intros id Hi. apply A9. intros Hx. by apply Hi, Hid.
Qed.

(** ** Working on a mapped segment *)

(** Segment [id] holds [bs], and its first [len] bytes are mapped at [va]. *)
Record at_work s (va id len : Z) (bs : list Z) (u : u_address_mapping) : Prop := AtWork {
  aw_ok : as_ok false s;
  aw_win : window s va id 0 len u;
  aw_seg : k_seg (us_kern s) id = Some bs;
}.
Lemma at_work_load s va id len bs u o n (Q : list Z → ustate K → Prop) :
  at_work s va id len bs u → 0 ≤ o → 0 ≤ n → o + n ≤ len → o + n ≤ Z.of_nat (length bs) → Q (sub_bytes o n bs) s → wp (uload (va + o) n) s Q.
Proof.
  intros [Hok Hw Hs] Ho Hn Hl Hb HQ. eapply wp_eq; [by apply (uload_run false s va id 0 len u o n bs)|]. exact HQ.
Qed.
Lemma at_work_load0 s va id len bs u n (Q : list Z → ustate K → Prop) :
  at_work s va id len bs u → 0 ≤ n ≤ len → n ≤ Z.of_nat (length bs) → Q (sub_bytes 0 n bs) s → wp (uload va n) s Q.
Proof. intros Hw Hn Hb HQ. rewrite <- (Z.add_0_r va). eapply at_work_load; [exact Hw|lia..|done]. Qed.
Lemma as_ok_same_live b s k' : k_live k' = live s → k_as k' = k_as (us_kern s) → as_ok b s → as_ok b (set_kern k' s).
Proof.
  intros Hl Ha [H1 H2 [S1 S2 S3] H4]. constructor; simpl; [done| | |].
  - by apply (table_ok_live _ s).
  - constructor; simpl; [done..|]. by rewrite S3, Ha.
  - unfold coherent. simpl. by rewrite Hl.
Qed.
Lemma same_but_going id s k' : as_ok false s → same_but id (us_kern s) k' → going 0 [id] s (set_kern k' s).
Proof.
  intros Hok [H1 H2 H3 H4]. constructor; simpl; [by apply as_ok_same_live|done..|by rewrite H1| | | |done|lia].
  - intros [F1 F2]. split; [done|lia].
  - intros id' Hid _. apply H3. rewrite list_elem_of_singleton in Hid. done.
  - intros id' Hid. rewrite H3; [done|]. by rewrite list_elem_of_singleton in Hid.
Qed.
Lemma same_view_going s k' : as_ok false s → same_view (us_kern s) k' → going 0 [] s (set_kern k' s).
Proof.
  intros Hok [H1 H2 H3 H4]. constructor; simpl; [by apply as_ok_same_live|done..|by rewrite H1| | | |done|lia].
  - intros [F1 F2]. split; [done|lia].
  - done.
  - intros id _. by rewrite H3.
Qed.
Lemma window_live s s' va id off len u : window s va id off len u → u ∈ live s' → window s' va id off len u.
Proof. intros [H1 H2 H3 H4 H5] Hu. by constructor. Qed.

Definition stored s va id len bs (u : u_address_mapping) s' : Prop := going 0 [id] s s' ∧ at_work s' va id len bs u ∧ live s' = live s.
Lemma at_work_store s va id len bs u o v :
  at_work s va id len bs u → 0 ≤ o → o + Z.of_nat (length v) ≤ len → o + Z.of_nat (length v) ≤ Z.of_nat (length bs) → Forall (λ b, 0 ≤ b < 256) v →
  wp (ustore (va + o) v) s (λ _ s', stored s va id len (splice o v bs) u s').
Proof.
  intros [Hok Hw Hs] Ho Hl Hb Hv. destruct (decide (length v = 0%nat)) as [H0|Hne].
  { apply nil_length_inv in H0 as ->. assert (splice o [] bs = bs) as ->. { unfold splice. simpl. by rewrite Nat.add_0_r, take_drop. }
    unfold ustore. simpl. unfold wp. split_and!; [by apply going_refl|done|done]. }
  eapply wp_eq; [apply (ustore_run false s va id 0 len u o v bs); try done; lia|].
  destruct (store_law (us_kern s) id o v bs Hs Ho Hb Hv) as [Hsb Hs']. rewrite Z.add_0_l. split_and!.
  - by apply same_but_going.
  - constructor; simpl; [by apply as_ok_same_live; [apply Hsb..|]| |done]. eapply window_live; [exact Hw|]. simpl. rewrite (sb_live _ _ _ Hsb). apply Hw.
  - apply Hsb.
Qed.
Lemma at_work_store0 s va id len bs u v :
  at_work s va id len bs u → Z.of_nat (length v) ≤ len → Z.of_nat (length v) ≤ Z.of_nat (length bs) → Forall (λ b, 0 ≤ b < 256) v →
  wp (ustore va v) s (λ _ s', stored s va id len (splice 0 v bs) u s').
Proof. intros Hw Hl Hb Hv. rewrite <- (Z.add_0_r va) at 1. by apply at_work_store. Qed.

(** The mutex of an inode is at byte 8. *)
Definition mutex_is (w : Z) (bs : list Z) : Prop := sub_bytes OFF_MU 8 bs = le64 w.
Lemma mutex_lock_wp s va id len bs u :
  at_work s va id len bs u → 16 ≤ len → 16 ≤ Z.of_nat (length bs) → mutex_is 0 bs →
  wp (thread_mutex_lock (va + OFF_MU)) s (λ _ s', stored s va id len (splice OFF_MU (le64 1) bs) u s').
Proof.
  intros Hw Hl Hb Hm. unfold thread_mutex_lock, OFF_MU in *. wp_pure. eapply at_work_load; [exact Hw|lia..|]. rewrite Hm.
  change (of_le (le64 0) =? 0) with true. cbv iota. apply at_work_store; [done|lia|change (length (le64 1)) with 8%nat; lia..|apply le_bytes_range].
Qed.
Lemma mutex_unlock_wp s va id len bs u :
  at_work s va id len bs u → 16 ≤ len → 16 ≤ Z.of_nat (length bs) → mutex_is 1 bs →
  wp (thread_mutex_unlock (va + OFF_MU)) s (λ _ s', stored s va id len (splice OFF_MU (le64 0) bs) u s').
Proof.
  intros Hw Hl Hb Hm. unfold thread_mutex_unlock, OFF_MU in *. wp_pure. eapply at_work_load; [exact Hw|lia..|]. rewrite Hm.
  change (of_le (le64 1) =? 1) with true. cbv iota. apply at_work_store; [done|lia|change (length (le64 0)) with 8%nat; lia..|apply le_bytes_range].
Qed.
Lemma mutex_set w bs : 16 ≤ Z.of_nat (length bs) → mutex_is w (splice OFF_MU (le64 w) bs).
Proof. intros Hl. unfold mutex_is. pose proof (sub_splice_same OFF_MU (le64 w) bs) as H. unfold OFF_MU, le64 in *. rewrite !le_bytes_length in H. apply H; lia. Qed.
(** Locking and unlocking leaves the bytes as they were. *)
Lemma mutex_cancel bs : 16 ≤ Z.of_nat (length bs) → mutex_is 0 bs → splice OFF_MU (le64 0) (splice OFF_MU (le64 1) bs) = bs.
Proof.
  intros Hl Hm. unfold mutex_is, OFF_MU, le64 in *. rewrite splice_splice by (rewrite ?le_bytes_length; lia). rewrite <- Hm. apply splice_self; lia.
Qed.

(** Mapping and unmapping. *)
Lemma map_seg_wp s seg bst len bs :
  as_ok false s → wants s seg 0 bst len → k_seg (us_kern s) (so_object seg) = Some bs → ¬ cache_id (live s) (so_object seg) →
  0 < len < 2 ^ 61 → len mod PGSIZE = 0 → fits s len →
  wp (as_map seg 0 SEGMAP_RW (Some 0) bst) s (λ res s', going len [] s s' ∧ (∀ v, v ∈ live s → v ∈ live s') ∧
    ((res.1.1 < 0 ∧ (k_refused (us_kern s') ∨ crowded s) ∧ live s' = live s) ∨ ∃ va u, res.1 = (0, Some va) ∧ at_work s' va (so_object seg) len bs u ∧ (um_va u = va ∧ u_end u = va + len) ∧
                            live s' = insert_slot u (live s) ∧ clear_range (live s) va len)).
Proof.
  intros Hok Hw Hs Hnc Hl Hlm Hf. eapply wp_mono; [eapply wpx_wp; [apply (as_map_wpx s seg 0 SEGMAP_RW bst len); try done; lia|]|].
  { rewrite ROUNDUP_pages by (done || lia). tauto. }
  intros [[r vp] b] s' (Hsz & H & Hroom). rewrite ROUNDUP_pages in Hroom by (done || lia). specialize (Hroom Hf) as (R1 & R2 & R3).
  destruct H as [(Hr & Hwhy & Hok' & Hst & Hlive)|(va & Hres & [Hok' Hst (kslot & Hks & Hlive) Hva Hcl])].
  - split; [|split; [by rewrite Hlive|]].
    + destruct Hst. constructor; try done; [by rewrite Hlive|auto..].
    + left. split_and!; [done| |done]. destruct Hwhy as [?|[[He _]|Hnone]]; [by left|right; unfold crowded, nmaps; lia|congruence].
  - rewrite ROUNDUP_pages in * by (done || lia). set (u := new_mapping _ _ _ _ _ _) in *. split.
    + destruct Hst as [G1 G2 G3 G4 G5 G6 G7]. constructor; try done; [|auto..]. intros id. unfold cache_id. rewrite Hlive, !Exists_exists.
      intros (v & [->|Hv]%elem_of_insert_slot & Hv' & Hid); [|by eauto]. exfalso. simpl in Hv'. unfold UASMANAGEREND, UADDRMAPENTS in *. lia.
    + split; [intros v Hv; rewrite Hlive; apply elem_of_insert_slot; by right|]. right. exists va, u. split; [done|]. assert (Hin : u ∈ live s') by (rewrite Hlive; apply elem_of_insert_slot; by left).
      assert (Hue : u_end u = va + len) by (unfold u_end; simpl; rewrite ROUNDUP_pages by (done || lia); pgs; dlia).
      split_and!; try done. constructor; [done| |by rewrite (st_seg _ _ Hst)]. constructor; try done.
      * simpl. lia.
      * simpl. change (0 / PGSIZE) with 0. lia.
Qed.
Lemma nmaps_insert s s' u : live s' = insert_slot u (live s) → nmaps s' = nmaps s + 1.
Proof. intros Hl. unfold nmaps. rewrite Hl. clear Hl. induction (live s) as [|v l IH]; simpl; [done|]. destruct (_ <? _); simpl; lia. Qed.
Lemma not_at_less va l : (∃ u, u ∈ l ∧ um_va u = va) → Z.of_nat (length (not_at va l)) < Z.of_nat (length l).
Proof.
  intros (u & Hu & Hva). apply list_elem_of_split in Hu as (l1 & l2 & ->). unfold not_at. rewrite filter_app, filter_cons_False by tauto.
  rewrite !length_app. simpl. pose proof (length_filter (λ u, um_va u ≠ va) l1). pose proof (length_filter (λ u, um_va u ≠ va) l2). lia.
Qed.
Lemma unmap_wp s va :
  as_ok false s → wp (as_unmap va) s (λ _ s', going 0 [] s s' ∧ (∀ u, u ∈ live s → um_va u ≠ va → u ∈ live s') ∧
    (∀ u, u ∈ live s → um_va u = va → k_refused (us_kern s') ∨ nmaps s' < nmaps s)).
Proof.
  intros Hok. eapply wp_mono; [by apply as_unmap_wp|]. intros r s' (Hok' & [G1 G2 G3 G4 G5 G6 G7] & Hp & He & Hsz & Hl).
  assert (Hl' : ∃ i, live s' = unmapping va i (live s)).
  { destruct Hl as [[_ Hl]|(_ & _ & i & Hl)]; [|by exists i]. exists (length (live s)). by rewrite unmapping_all. }
  destruct Hl' as [i Hl']. split_and!.
  - constructor; try done; [|intros [F1 F2]; split; [congruence|lia]|auto..|lia]. intros id. unfold cache_id. rewrite !Exists_exists, Hl'. intros (u & Hu & Hp').
    exists u. split; [|done]. eapply elem_of_sublist; [exact Hu|apply unmapping_sub].
  - intros u Hu Hne. rewrite Hl'. by apply unmapping_keeps.
  - intros u Hu Hva. destruct Hl as [[_ Hl]|(_ & Hl & _)]; [right|by left]. unfold nmaps. rewrite Hl. apply not_at_less; eauto.
Qed.

Lemma going_next n m ids ids' s s1 s2 : going n ids s s1 → going m ids' s1 s2 → 0 ≤ m → ids' ⊆ ids → going (n + m) ids s s2.
Proof.
  intros H1 H2 Hm Hid. eapply going_weaken; [eapply going_trans; [|exact H1|exact H2]; done|done|].
  intros x. rewrite elem_of_app. intros [Hx|Hx]; [done|by apply Hid].
Qed.

End ramfs_thms.

(** [advance H H1]: from the state that [H] reaches on to the one that [H1] reaches. *)
Ltac advance H H1 := apply (λ G, going_next _ _ _ _ _ _ _ G H1 ltac:(first [lia | unfold INODE_BYTES; lia]) ltac:(first [apply list_subseteq_nil | done])) in H.

(** ** Files *)

Section ramfs_files.
Context {K : Type} `{!ProcKernel K} `{!ProcKernelLaws K}.
Implicit Types (s : ustate K) (k : K).
Abbreviation live s := (k_live (us_kern s)).

(** An inode of the given type that nobody has locked. *)
Record inode s (seg : sobj_ref) (type : Z) (bs : list Z) : Prop := Inode {
  in_seg : k_seg (us_kern s) (so_object seg) = Some bs;
  in_cache : ¬ cache_id (live s) (so_object seg);
  in_len : INODE_BYTES ≤ Z.of_nat (length bs);
  in_type : of_le (sub_bytes 0 1 bs) = type;
  in_mu : mutex_is 0 bs;
}.
Lemma inode_len s seg type bs : inode s seg type bs → 8192 ≤ Z.of_nat (length bs) < 2 ^ 60 ∧ Z.of_nat (length bs) mod PGSIZE = 0.
Proof. intros [H1 _ H2 _ _]. destruct (seg_wf _ _ _ H1) as (? & ? & _). unfold INODE_BYTES in *. split; [lia|done]. Qed.
Lemma inode_going n ids s s' seg type bs : inode s seg type bs → going n ids s s' → so_object seg ∉ ids → inode s' seg type bs.
Proof.
  intros [H1 H2 H3 H4 H5] Hg Hid. constructor; try done.
  - by rewrite (go_seg _ _ _ _ Hg).
  - intros Hc. by apply H2, (go_id _ _ _ _ Hg).
Qed.

Lemma ramfs_map_wp s seg type t bs :
  as_ok false s → inode s seg t bs → fits s (Z.of_nat (length bs)) →
  wp (ramfs_map type seg SEGMAP_RW) s (λ res s', going (Z.of_nat (length bs)) [] s s' ∧
    ((res.1 < 0 ∧ (k_refused (us_kern s') ∨ crowded s ∨ type ≠ t) ∧ tidy s s') ∨ (res.1 = 0 ∧ type = t ∧ ∃ u, at_work s' res.2 (so_object seg) (Z.of_nat (length bs)) bs u ∧ (um_va u = res.2 ∧ u_end u = res.2 + Z.of_nat (length bs)) ∧
                  live s' = insert_slot u (live s) ∧ clear_range (live s) res.2 (Z.of_nat (length bs))))).
Proof.
  intros Hok Hin Hf. pose proof (inode_len _ _ _ _ Hin) as [Hl Hlm]. destruct Hin as [H1 H2 H3 H4 H5]. unfold ramfs_map. wp_pure.
  eapply wp_mono; [apply (map_seg_wp s seg None (Z.of_nat (length bs)) bs); try done; [|lia]|].
  { intros bs' Hbs'. rewrite H1 in Hbs'. injection Hbs' as <-. lia. }
  intros [[r vp] b] s1 (Hg & _ & [(Hr & Hwhy & Hsame)|(va & u & [= -> ->] & Hw & Hu & Hlive & Hcl)]); cbn [fst snd] in *.
  { rewrite (proj2 (Z.ltb_lt _ _) Hr). wp_pure. split; [done|]. left. split_and!; [done|tauto|]. right. unfold nmaps. by rewrite Hsame. }
  change (0 <? 0) with false. cbv iota. wp_pure. apply (wp_deref _ _ va); [done|]. wp_pure. eapply at_work_load0; [exact Hw|lia..|].
  rewrite H4. destruct (Z.eqb_spec t type) as [->|Hne]; simpl; wp_pure.
  - split; [done|]. right. split_and!; [done..|]. by exists u.
  - eapply wp_mono; [by apply unmap_wp, Hw|]. intros r' s2 (Hg2 & _ & Hless). wp_pure. split.
    + rewrite <- (Z.add_0_r (Z.of_nat (length bs))). by apply (going_next _ 0 _ [] _ s1).
    + left. split_and!; [unfold E_INVAL; simpl; lia|right; right; congruence|]. destruct Hu as [Hu _].
      destruct (Hless u) as [?|Hlt]; [apply Hw|done|by left|right]. pose proof (nmaps_insert _ _ _ Hlive). lia.
Qed.

Definition size_of (bs : list Z) : Z := Z.of_nat (length bs) - INODE_BYTES.
Lemma ramfs_file_size_wp s h bs :
  as_ok false s → k_seg (us_kern s) (so_object (fh_ref h)) = Some bs →
  wp (ramfs_file_size h) s (λ r s', going 0 [] s s' ∧ live s' = live s ∧ (∀ id, k_seg (us_kern s') id = k_seg (us_kern s) id) ∧ ((r < 0 ∧ k_refused (us_kern s')) ∨ r = size_of bs)).
Proof.
  intros Hok Hs. unfold ramfs_file_size. wp_pure. eapply wp_kcall; [apply get_nbytes_law|]. intros r k' [Hv Hr].
  pose proof (same_view_going s k' Hok Hv) as Hg. destruct Hv as [V1 V2 V3 V4]. destruct Hr as [[Hneg Hwhy]|(bs' & Hbs & ->)].
  - rewrite (proj2 (Z.ltb_lt _ _) Hneg). wp_pure. split_and!; [done..|left]. split; [done|]. destruct Hwhy as [?|Hnone]; [done|congruence].
  - rewrite (proj2 (Z.ltb_ge _ _)) by lia. rewrite Hs in Hbs. injection Hbs as <-. wp_pure. split_and!; [done..|by right].
Qed.

(** What a read of [count] bytes at [off] gives: the bytes up to the end of the file. *)
Definition read_len (bs : list Z) (count off : Z) : Z := Z.max 0 (Z.min count (size_of bs - off)).
Definition file_bytes (bs : list Z) (off n : Z) : list Z := sub_bytes (OFF_RAM + off) n bs.

Lemma ramfs_pread_wp s h bs count off :
  as_ok false s → inode s (fh_ref h) file_type bs → fits s (Z.of_nat (length bs)) → 0 ≤ count < 2 ^ 63 → 0 ≤ off < 2 ^ 64 →
  wp (ramfs_file_pread h count off) s (λ res s', going (Z.of_nat (length bs)) [] s s' ∧ tidy s s' ∧
    ((res.1 < 0 ∧ (k_refused (us_kern s') ∨ crowded s)) ∨ res = (read_len bs count off, file_bytes bs off (read_len bs count off)))).
Proof.
  intros Hok Hin Hf Hc Ho. pose proof (inode_len _ _ _ _ Hin) as [Hl Hlm]. unfold ramfs_file_pread. wp_pure.
  eapply wp_mono; [by apply (ramfs_file_size_wp s h bs), Hin|]. intros r s1 (Hg1 & Hl1 & Hs1 & Hr). unfold size_of, INODE_BYTES in Hr.
  assert (Ht1 : nmaps s1 = nmaps s) by (unfold nmaps; by rewrite Hl1).
  destruct (Z.ltb_spec r 0) as [Hneg|Hpos]; wp_pure.
  { destruct Hr as [[_ Href]|?]; [|lia]. split_and!; [eapply going_weaken; [exact Hg1|lia|done]|by left|left; tauto]. }
  destruct Hr as [[? _]|Hr]; [lia|]. unfold read_len, size_of, INODE_BYTES. destruct (Z.ltb_spec r off) as [Hlt|Hge]; wp_pure.
  { split_and!; [eapply going_weaken; [exact Hg1|lia|done]|right; lia|]. right. rewrite Z.max_l by lia. unfold file_bytes, sub_bytes. by rewrite Z2Nat.inj_0, take_0. }
  rewrite (u64_small (r - off)) by (unfold in_u64; lia).
  set (n := if r - off <? count then r - off else count). assert (Hn : n = Z.max 0 (Z.min count (Z.of_nat (length bs) - 8192 - off))).
  { unfold n. destruct (Z.ltb_spec (r - off) count); lia. } clearbody n. rewrite <- Hn.
  assert (Hin1 : inode s1 (fh_ref h) file_type bs) by (eapply inode_going; [exact Hin|exact Hg1|by apply not_elem_of_nil]).
  eapply wp_mono; [apply (ramfs_map_wp s1 _ file_type _ _ (go_ok _ _ _ _ Hg1) Hin1)|].
  { eapply (going_fits 0 _ _ s); [exact Hg1|lia|by rewrite Z.add_0_l]. }
  intros [r2 va] s2 [Hg2 H]. pose proof (going_next _ _ _ _ _ _ _ Hg1 Hg2 ltac:(lia) ltac:(done)) as Hg. rewrite Z.add_0_l in Hg. cbn [fst snd] in H.
  destruct H as [(Hr2 & Hwhy & Ht2)|(-> & _ & u & Hw & Hu & Hl2 & _)].
  { rewrite (proj2 (Z.ltb_lt _ _) Hr2). wp_pure. split_and!; [done|destruct Ht2; [by left|right; lia]|left]. split; [done|].
    destruct Hwhy as [?|[Hcr|?]]; [by left|right|done]. unfold crowded in *. pose proof (go_size _ _ _ _ Hg1). lia. }
  wp_pure. rewrite <- Z.add_assoc. eapply at_work_load; [exact Hw|unfold OFF_RAM; lia..|].
  wp_pure. eapply wp_mono; [by apply unmap_wp, Hw|]. intros r3 s3 (Hg3 & _ & Hless). wp_pure. split_and!.
  - rewrite <- (Z.add_0_r (Z.of_nat (length bs))). by apply (going_next _ 0 _ [] _ s2).
  - destruct (Hless u) as [?|Hlt]; [apply Hw|apply Hu|by left|right]. pose proof (nmaps_insert _ _ _ Hl2). lia.
  - right. unfold s64. rewrite Z.mod_small by lia. unfold file_bytes. f_equal. lia.
Qed.

Lemma at_work_view s s' va id len bs bs' u :
  at_work s va id len bs u → as_ok false s' → live s' = live s → k_seg (us_kern s') id = Some bs' → at_work s' va id len bs' u.
Proof. intros [H1 H2 H3] Hok Hl Hs. constructor; [done| |done]. eapply window_live; [exact H2|]. rewrite Hl. apply H2. Qed.

(** A file after it has been made large enough for [need] bytes. *)
Definition grown (bs : list Z) (need : Z) : list Z :=
  if size_of bs <? need then resize_bytes (ROUNDUP (need + INODE_BYTES) PGSIZE) bs else bs.
Lemma grown_len bs need :
  8192 ≤ Z.of_nat (length bs) → Z.of_nat (length bs) mod PGSIZE = 0 → 0 ≤ need < 2 ^ 60 →
  Z.of_nat (length bs) ≤ Z.of_nat (length (grown bs need)) < 2 ^ 61 + Z.of_nat (length bs) ∧ need + INODE_BYTES ≤ Z.of_nat (length (grown bs need)) ∧ Z.of_nat (length (grown bs need)) mod PGSIZE = 0.
Proof.
  intros Hl Hm Hn. unfold grown, size_of, INODE_BYTES. destruct (Z.ltb_spec (Z.of_nat (length bs) - 8192) need); [|split_and!; [lia|lia|lia|done]].
  destruct (ROUNDUP_exact (need + 8192) PGSIZE) as [He Hr]; [unfold in_u64; lia|done|pgs; lia|].
  rewrite resize_length, Z2Nat.id by lia. pgs. rewrite He in *. split_and!; [dlia..|]. dlia.
Qed.
Lemma grown_inode bs need t :
  8192 ≤ Z.of_nat (length bs) → Z.of_nat (length bs) mod PGSIZE = 0 → 0 ≤ need < 2 ^ 60 → of_le (sub_bytes 0 1 bs) = t → mutex_is 0 bs →
  of_le (sub_bytes 0 1 (grown bs need)) = t ∧ mutex_is 0 (grown bs need).
Proof.
  intros Hl Hm Hn Ht Hmu. pose proof (grown_len bs need Hl Hm Hn) as (Hg & _ & _). unfold grown in *. destruct (_ <? _); [|done].
  assert (H0 : 0 ≤ ROUNDUP (need + INODE_BYTES) PGSIZE).
  { unfold INODE_BYTES. destruct (ROUNDUP_exact (need + 8192) PGSIZE) as [_ ?]; [unfold in_u64; lia|done|pgs; lia|lia]. }
  rewrite resize_length in Hg by done. unfold mutex_is, OFF_MU in *. rewrite !sub_resize by lia. done.
Qed.

(** The part of [ramfs_file_pwrite] that makes the file large enough. *)
Definition pwrite_prepare (h : fs_handle) (file need : Z) : M (ustate K) (Z * Z) :=
  r ← kcall (k_segment_set_nbytes (fh_ref h) (u64 (need + INODE_BYTES)));
  thread_mutex_unlock (file + OFF_MU);;
  _ ← as_unmap file;
  if r <? 0 then mret (r, 0) else ramfs_map_file (fh_ref h) SEGMAP_RW.
Lemma pwrite_prepare_wp s h bs va u need :
  let id := so_object (fh_ref h) in
  let len := Z.of_nat (length bs) in
  at_work s va id len (splice OFF_MU (le64 1) bs) u → um_va u = va → ¬ cache_id (live s) id → 8192 ≤ len → len mod PGSIZE = 0 →
  of_le (sub_bytes 0 1 bs) = file_type → mutex_is 0 bs → size_of bs < need < 2 ^ 60 → fits s (Z.of_nat (length (grown bs need))) →
  wp (pwrite_prepare h va need) s (λ res s', going (Z.of_nat (length (grown bs need))) [id] s s' ∧
    ((res.1 < 0 ∧ (k_refused (us_kern s') ∨ uat_size (us_uat s) < nmaps s ∧ nmaps s' < nmaps s) ∧
      ∃ bs', k_seg (us_kern s') id = Some bs' ∧ (bs' = bs ∨ bs' = grown bs need)) ∨
     (res.1 = 0 ∧ tidy s s' ∧ ∃ u', at_work s' res.2 id (Z.of_nat (length (grown bs need))) (grown bs need) u' ∧ um_va u' = res.2))).
Proof.
  intros id len Hw Hu Hnc Hl Hlm Ht Hmu Hneed Hf. unfold pwrite_prepare. wp_pure.
  assert (Hn0 : 0 ≤ need < 2 ^ 60) by (unfold size_of, INODE_BYTES in Hneed; lia). pose proof (grown_len bs need Hl Hlm Hn0) as (Hg1 & Hg2 & Hg3).
  pose proof (grown_inode bs need file_type Hl Hlm Hn0 Ht Hmu) as (Ht' & Hmu'). assert (Hlen : 16 ≤ len) by lia.
  rewrite (u64_small (need + INODE_BYTES)) by (unfold in_u64, INODE_BYTES; lia).
  eapply wp_kcall; [apply set_nbytes_law; unfold INODE_BYTES; lia|]. intros r k' Hr. set (s1 := set_kern k' s) in *.
  assert (H1 : going 0 [id] s s1 ∧ ∃ g, at_work s1 va id len (splice OFF_MU (le64 1) g) u ∧ 16 ≤ Z.of_nat (length g) ∧ mutex_is 0 g ∧
                 live s1 = live s ∧ ((r < 0 ∧ k_refused (us_kern s1) ∧ g = bs) ∨ (r = 0 ∧ g = grown bs need))).
  { destruct Hr as [(Hneg & Hv & Hwhy)|(-> & Hsb & b0 & Hb0 & Hs')].
    - pose proof (same_view_going s k' (aw_ok _ _ _ _ _ _ Hw) Hv) as Hg. split; [by eapply going_weaken; [exact Hg|done|apply list_subseteq_nil]|].
      exists bs. split_and!; [|done|done|apply Hv|left; split_and!; [done| |done]].
      2: { destruct Hwhy as [?|Hnone]; [done|]. fold id in Hnone. rewrite (aw_seg _ _ _ _ _ _ Hw) in Hnone. done. }
      eapply at_work_view; [exact Hw|apply Hg|apply Hv|]. simpl. rewrite (sv_seg _ _ Hv). apply Hw.
    - pose proof (same_but_going id s k' (aw_ok _ _ _ _ _ _ Hw) Hsb) as Hg. split; [done|]. exists (grown bs need).
      split_and!; [|lia|done|apply Hsb|by right]. eapply at_work_view; [exact Hw|apply Hg|apply Hsb|]. simpl.
      pose proof (aw_seg _ _ _ _ _ _ Hw) as Hb1. fold id in Hb0, Hs'. rewrite Hb1 in Hb0. injection Hb0 as <-. rewrite Hs'. f_equal.
      unfold grown in *. rewrite (proj2 (Z.ltb_lt _ _)) in * by lia. unfold INODE_BYTES in Hg2. rewrite splice_resize; [done|unfold OFF_MU; lia|unfold OFF_MU, le64; rewrite le_bytes_length; lia|].
      unfold OFF_MU, le64. rewrite le_bytes_length.
      destruct (ROUNDUP_exact (need + INODE_BYTES) PGSIZE) as [_ ?]; [unfold in_u64, INODE_BYTES; lia|done|unfold INODE_BYTES; pgs; lia|]. unfold INODE_BYTES in *. lia. }
  clear Hr. destruct H1 as (Hgo1 & g & Hw1 & Hgl & Hgm & Hl1 & Hr).
  wp_pure. eapply wp_mono; [eapply mutex_unlock_wp; [exact Hw1|lia| |by apply mutex_set]|].
  { rewrite splice_length; [done|unfold OFF_MU; lia|unfold OFF_MU, le64; rewrite le_bytes_length; lia]. }
  rewrite mutex_cancel by done. intros [] s2 (Hgo2 & Hw2 & Hl2). wp_pure. eapply wp_mono; [by apply unmap_wp, Hw2|]. intros r' s3 (Hgo3 & _ & Hless). wp_pure.
  assert (Hlt : k_refused (us_kern s3) ∨ nmaps s3 < nmaps s).
  { destruct (Hless u) as [?|Hlt]; [apply Hw2|done|by left|right]. unfold nmaps in *. by rewrite Hl2, Hl1 in Hlt. }
  pose proof (going_next _ _ _ _ _ _ _ Hgo1 Hgo2 ltac:(lia) ltac:(done)) as Hgo. pose proof (go_refused _ _ _ _ Hgo2) as Href2. advance Hgo Hgo3.
  assert (Hs3 : k_seg (us_kern s3) id = Some g).
  { rewrite (go_seg _ _ _ _ Hgo3); [apply Hw2|by apply not_elem_of_nil|]. intros Hc. apply Hnc. rewrite Hl2 in Hc. by apply (go_id _ _ _ _ Hgo1) in Hc. }
  destruct Hr as [(Hneg & Href & ->)|[-> ->]].
  - rewrite (proj2 (Z.ltb_lt _ _) Hneg). wp_pure. split; [eapply going_weaken; [exact Hgo|lia|done]|]. left. split; [done|].
    split; [left; by apply (go_refused _ _ _ _ Hgo3), Href2|]. exists bs. split; [done|by left].
  - wp_pure. assert (Hin3 : inode s3 (fh_ref h) file_type (grown bs need)).
    { constructor; try done; [|unfold INODE_BYTES; lia]. intros Hc. by apply Hnc, (go_id _ _ _ _ Hgo). }
    eapply wp_mono; [apply (ramfs_map_wp s3 _ file_type _ _ (go_ok _ _ _ _ Hgo) Hin3)|].
    { eapply going_fits; [exact Hgo|lia|done]. }
    intros [r4 va4] s4 [Hgo4 H]. cbn [fst snd] in *. split.
    + eapply (going_next _ _ _ _ _ _ _ Hgo Hgo4); [lia|apply list_subseteq_nil].
    + assert (Hrf : k_refused (us_kern s3) → k_refused (us_kern s4)) by apply Hgo4. pose proof (go_size _ _ _ _ Hgo) as Hsz.
      destruct H as [(Hneg & Hwhy & Ht4)|(-> & _ & u' & Hw4 & [Hu4 _] & Hl4 & _)]; [left|right].
      2: { split; [done|]. split; [|by eauto]. destruct Hlt as [?|Hlt]; [left; auto|right]. pose proof (nmaps_insert _ _ _ Hl4). lia. }
      split; [done|]. split.
      { destruct Hlt as [?|Hlt]; [left; auto|]. destruct Hwhy as [?|[Hcr|?]]; [by left| |done]. destruct Ht4 as [?|Ht4]; [by left|right]. unfold crowded in Hcr. lia. }
      exists (grown bs need). split; [|by right].
      rewrite (go_seg _ _ _ _ Hgo4); [done|by apply not_elem_of_nil|]. intros Hc. by apply (in_cache _ _ _ _ Hin3).
Qed.

Lemma mutex_set_len w bs : 16 ≤ Z.of_nat (length bs) → length (splice OFF_MU (le64 w) bs) = length bs.
Proof. intros Hl. apply splice_length; [done|]. unfold OFF_MU, le64. rewrite le_bytes_length. lia. Qed.
Lemma ramfs_pwrite_wp s h bs buf off :
  let id := so_object (fh_ref h) in
  let need := Z.of_nat (length buf) + off in
  let g := grown bs need in
  as_ok false s → inode s (fh_ref h) file_type bs → 0 ≤ off → need < 2 ^ 60 → Forall (λ b, 0 ≤ b < 256) buf →
  fits s (Z.of_nat (length bs) + Z.of_nat (length g)) →
  wp (ramfs_file_pwrite h buf off) s (λ r s', going (Z.of_nat (length bs) + Z.of_nat (length g)) [id] s s' ∧ tidy s s' ∧
    ((r < 0 ∧ (k_refused (us_kern s') ∨ crowded s) ∧ ∃ bs', k_seg (us_kern s') id = Some bs' ∧ (bs' = bs ∨ bs' = g)) ∨
     (r = Z.of_nat (length buf) ∧ k_seg (us_kern s') id = Some (splice (OFF_RAM + off) buf g)))).
Proof.
  intros id need g Hok Hin Ho Hneed Hbuf Hf. pose proof (inode_len _ _ _ _ Hin) as [Hl Hlm]. unfold ramfs_file_pwrite. wp_pure.
  pose proof (grown_len bs need ltac:(lia) Hlm ltac:(lia)) as (Hg1 & Hg2 & Hg3). fold g in Hg1, Hg2, Hg3.
  eapply wp_mono; [apply (ramfs_map_wp s _ file_type _ _ Hok Hin); destruct Hf; split; [done|lia]|].
  intros [r va] s1 [Hgo1 H]. cbn [fst snd] in H.
  assert (Hgo1' : going (Z.of_nat (length bs)) [id] s s1) by (eapply going_weaken; [exact Hgo1|lia|apply list_subseteq_nil]).
  assert (Hnc1 : ¬ cache_id (live s1) id) by (intros Hc; by apply (in_cache _ _ _ _ Hin), (go_id _ _ _ _ Hgo1)).
  destruct H as [(Hneg & Hwhy & Ht1)|(-> & _ & u & Hw & [Hu _] & Hl1 & _)].
  { rewrite (proj2 (Z.ltb_lt _ _) Hneg). wp_pure. split_and!; [eapply going_weaken; [exact Hgo1'|lia|done]|done|]. left. split; [done|]. split; [tauto|]. exists bs. split; [|by left].
    rewrite (go_seg _ _ _ _ Hgo1); [apply Hin|by apply not_elem_of_nil|apply Hin]. }
  wp_pure. eapply wp_mono; [eapply mutex_lock_wp; [exact Hw|lia..|apply Hin]|]. intros [] s2 (Hgo2 & Hw2 & Hl2). wp_pure.
  pose proof (going_next _ _ _ _ _ _ _ Hgo1' Hgo2 ltac:(lia) ltac:(done)) as Hgo.
  eapply wp_mono; [apply (ramfs_file_size_wp s2 h (splice OFF_MU (le64 1) bs) (go_ok _ _ _ _ Hgo)), Hw2|]. intros r s3 (Hgo3 & Hl3 & Hs3 & Hr).
  advance Hgo Hgo3.
  assert (Hw3 : at_work s3 va id (Z.of_nat (length bs)) (splice OFF_MU (le64 1) bs) u).
  { eapply at_work_view; [exact Hw2|apply Hgo3|done|]. rewrite Hs3. apply Hw2. }
  assert (Hn3 : nmaps s3 = nmaps s + 1) by (unfold nmaps; rewrite Hl3, Hl2; by apply (nmaps_insert _ _ u)).
  assert (Hnc3 : ¬ cache_id (live s3) id) by (by rewrite Hl3, Hl2). unfold size_of in Hr. rewrite mutex_set_len in Hr by lia. change (_ - INODE_BYTES) with (size_of bs) in Hr.
  destruct (Z.ltb_spec r 0) as [Hneg|Hpos]; wp_pure.
  { eapply wp_mono; [eapply mutex_unlock_wp; [exact Hw3|lia|rewrite mutex_set_len; lia|apply mutex_set; lia]|]. rewrite mutex_cancel by (lia || apply Hin).
    intros [] s4 (Hgo4 & Hw4 & Hl4). wp_pure. eapply wp_mono; [by apply unmap_wp, Hw4|]. intros r5 s5 (Hgo5 & _ & Hless). wp_pure.
    pose proof (λ H, go_refused _ _ _ _ Hgo5 (go_refused _ _ _ _ Hgo4 H)) as Hrf. advance Hgo Hgo4. advance Hgo Hgo5.
    destruct Hr as [[_ Href]|?]; [|unfold size_of, INODE_BYTES in *; lia].
    split_and!; [eapply going_weaken; [exact Hgo|lia|done]|left; auto|]. left. split; [done|]. split; [left; auto|]. exists bs. split; [|by left].
    rewrite (go_seg _ _ _ _ Hgo5); [apply Hw4|by apply not_elem_of_nil|by rewrite Hl4]. }
  destruct Hr as [[? _]| ->]; [lia|]. assert (Hs64 : s64 (Z.of_nat (length buf) + off) = need) by (unfold s64; rewrite Z.mod_small by lia; unfold need; lia). rewrite Hs64.
  assert (Hprep : wp (if size_of bs <? need then pwrite_prepare h va need else thread_mutex_unlock (va + OFF_MU);; mret (0, va)) s3
    (λ res s', going (Z.of_nat (length g)) [id] s3 s' ∧
      ((res.1 < 0 ∧ (k_refused (us_kern s') ∨ uat_size (us_uat s3) < nmaps s3 ∧ nmaps s' < nmaps s3) ∧ ∃ bs', k_seg (us_kern s') id = Some bs' ∧ (bs' = bs ∨ bs' = g)) ∨
       (res.1 = 0 ∧ tidy s3 s' ∧ ∃ u', at_work s' res.2 id (Z.of_nat (length g)) g u' ∧ um_va u' = res.2)))).
  { destruct (Z.ltb_spec (size_of bs) need) as [Hlt|Hge].
    - apply (pwrite_prepare_wp s3 h bs va u need); try done; try lia; [apply Hin..|]. eapply going_fits; [exact Hgo|lia|]. by rewrite !Z.add_0_r.
    - wp_pure. eapply wp_mono; [eapply mutex_unlock_wp; [exact Hw3|lia|rewrite mutex_set_len; lia|apply mutex_set; lia]|]. rewrite mutex_cancel by (lia || apply Hin).
      intros [] s4 (Hgo4 & Hw4 & Hl4). wp_pure. split; [eapply going_weaken; [exact Hgo4|lia|done]|]. right. split; [done|].
      split; [right; unfold nmaps; by rewrite Hl4|]. exists u. unfold g, grown. by rewrite (proj2 (Z.ltb_ge _ _) Hge). }
  eapply wp_mono; [exact Hprep|]. clear Hprep. intros [r va4] s4 [Hgo4 H]. cbn [fst snd] in H. pose proof (going_next _ _ _ _ _ _ _ Hgo Hgo4 ltac:(lia) ltac:(done)) as Hgo'.
  rewrite !Z.add_0_r in Hgo'. pose proof (go_size _ _ _ _ Hgo) as Hsz3. destruct H as [(Hneg & Hwhy & Hs4)|(-> & Ht4 & u4 & Hw4 & Hu4)].
  { rewrite (proj2 (Z.ltb_lt _ _) Hneg). wp_pure. unfold tidy, crowded. split_and!; [done|destruct Hwhy as [?|[_ ?]]; [by left|right; lia]|].
    left. split; [done|]. split; [|done]. destruct Hwhy as [?|[? _]]; [by left|right; lia]. }
  wp_pure. rewrite <- Z.add_assoc. unfold INODE_BYTES in Hg2. eapply wp_mono; [eapply at_work_store; [exact Hw4|unfold OFF_RAM, need in *; lia..|done]|].
  intros [] s5 (Hgo5 & Hw5 & Hl5). wp_pure. eapply wp_mono; [by apply unmap_wp, Hw5|]. intros r6 s6 (Hgo6 & _ & Hless). wp_pure.
  assert (Ht6 : tidy s s6).
  { destruct (Hless u4) as [?|Hlt]; [apply Hw5|done|by left|]. destruct Ht4 as [Href|Ht4]; [left; by apply (go_refused _ _ _ _ Hgo6), (go_refused _ _ _ _ Hgo5)|right].
    unfold nmaps in *. rewrite Hl5 in Hlt. lia. }
  advance Hgo' Hgo5. pose proof (going_next _ _ _ _ _ _ _ Hgo' Hgo6 ltac:(lia) (list_subseteq_nil _)) as Hgo6'.
  split_and!; [eapply going_weaken; [exact Hgo6'|lia|done]|done|]. right. unfold s64. rewrite Z.mod_small by lia. split; [lia|].
  rewrite (go_seg _ _ _ _ Hgo6); [apply Hw5|by apply not_elem_of_nil|]. intros Hc. by apply (in_cache _ _ _ _ Hin), (go_id _ _ _ _ Hgo').
Qed.
End ramfs_files.
