(* ===== verification/RamfsDir.v ===== *)
(** * The RAM file system: directories

    The entries of a directory as bytes of its segment: searching them for a name and
    writing one of them. *)
From S2P Require Import Prelude Machine Ktypes Pmap At FaultProps Uas UasThms Ramfs RamfsThms.

(** ** Entries *)

Definition ent_off (i : Z) : Z := OFF_ENT + i * DENT_BYTES.
Definition dent_free (bs : list Z) (i : Z) : bool := of_le (sub_bytes (ent_off i) 1 bs) =? 0.
Definition dent_name (bs : list Z) (i : Z) : option (list Z) := cstr (sub_bytes (ent_off i) FS_NAME_LEN bs).
Definition dent_seg (bs : list Z) (i : Z) : sobj_ref :=
  Sobj (of_le (sub_bytes (ent_off i + OFF_SEG) 8 bs)) (of_le (sub_bytes (ent_off i + OFF_SEG + 8) 8 bs)).
Definition named (bs : list Z) (fn : list Z) (i : Z) : Prop := dent_free bs i = false ∧ dent_name bs i = Some fn.
(** The entry that a lookup finds, and that there is none. *)
Definition first_named (bs fn : list Z) (i : Z) : Prop := 0 ≤ i < RAMFS_NDENT ∧ named bs fn i ∧ ∀ j, 0 ≤ j < i → ¬ named bs fn j.
Definition none_named (bs fn : list Z) : Prop := ∀ j, 0 ≤ j < RAMFS_NDENT → ¬ named bs fn j.
(** Names are terminated. *)
Definition dir_ok (bs : list Z) : Prop := ∀ i, 0 ≤ i < RAMFS_NDENT → dent_free bs i = false → is_Some (dent_name bs i).

Lemma sub_mutex o n w bs : 16 ≤ o → 16 ≤ Z.of_nat (length bs) → sub_bytes o n (splice OFF_MU (le64 w) bs) = sub_bytes o n bs.
Proof. intros Ho Hl. unfold OFF_MU, le64. apply sub_splice_other; rewrite ?le_bytes_length; lia. Qed.
Lemma ent_bound i n : 0 ≤ i < RAMFS_NDENT → n ≤ DENT_BYTES → 16 ≤ ent_off i ∧ ent_off i + n ≤ 8192.
Proof. unfold ent_off, RAMFS_NDENT, DENT_BYTES, OFF_ENT. lia. Qed.

Lemma wp_bind_assoc {S A B C} (m : M S A) (f : A → M S B) (g : B → M S C) s Q : wp ((m ≫= f) ≫= g) s Q → wp (m ≫= λ a, f a ≫= g) s Q.
Proof. unfold wp, mbind, m_bind. by destruct (m s). Qed.

Section ramfs_dir.
Context {K : Type} `{!ProcKernel K} `{!ProcKernelLaws K}.
Implicit Types (s : ustate K) (k : K).
Abbreviation live s := (k_live (us_kern s)).

(** Unlocking and unmapping at the end of every directory operation. *)
Lemma dir_leave_wp s va id len bs u :
  at_work s va id len (splice OFF_MU (le64 1) bs) u → um_va u = va → ¬ cache_id (live s) id → 16 ≤ len → 16 ≤ Z.of_nat (length bs) → mutex_is 0 bs →
  wp (thread_mutex_unlock (va + OFF_MU);; as_unmap va) s (λ _ s', going 0 [id] s s' ∧ k_seg (us_kern s') id = Some bs ∧
    (k_refused (us_kern s') ∨ nmaps s' < nmaps s)).
Proof.
  intros Hw Hu Hnc Hl Hb Hm. wp_pure. eapply wp_mono; [eapply mutex_unlock_wp; [exact Hw|done|by rewrite mutex_set_len|by apply mutex_set]|].
  rewrite mutex_cancel by done. intros [] s1 (Hg1 & Hw1 & Hl1). eapply wp_mono; [by apply unmap_wp, Hw1|]. intros r s2 (Hg2 & _ & Hless). split_and!.
  - advance Hg1 Hg2. by rewrite Z.add_0_l in Hg1.
  - rewrite (go_seg _ _ _ _ Hg2); [apply Hw1|by apply not_elem_of_nil|by rewrite Hl1].
  - destruct (Hless u) as [?|Hlt]; [apply Hw1|done|by left|right]. unfold nmaps in *. by rewrite Hl1 in Hlt.
Qed.

(** What [ramfs_dir_lookup] returns: the first entry of that name, [-E_NOT_FOUND] when
    there is none, or another code when the directory could not be mapped. *)
Definition lookup_result s (fn bs : list Z) (res : Z * option fs_handle) s' : Prop :=
  (∃ i, first_named bs fn i ∧ res = (0, Some (FsHandle DEV_RAMFS (dent_seg bs i) 0))) ∨
  (none_named bs fn ∧ res = (- E_NOT_FOUND, None)) ∨
  (res.1 < 0 ∧ res.2 = None ∧ (k_refused (us_kern s') ∨ crowded s)).

Lemma ramfs_dir_lookup_wp s h fn bs :
  let id := so_object (fh_ref h) in
  as_ok false s → inode s (fh_ref h) dir_type bs → dir_ok bs → fits s (Z.of_nat (length bs)) →
  wp (ramfs_dir_lookup h fn) s (λ res s', going (Z.of_nat (length bs)) [id] s s' ∧ tidy s s' ∧ k_seg (us_kern s') id = Some bs ∧ lookup_result s fn bs res s').
Proof.
  intros id Hok Hin Hdir Hf. pose proof (inode_len _ _ _ _ Hin) as [Hl Hlm]. unfold ramfs_dir_lookup. wp_pure.
  pose proof (ramfs_map_wp s (fh_ref h) dir_type _ _ Hok Hin Hf) as Hmap. apply wp_run in Hmap as ([r va] & s1 & Hrun & Hg1 & H). cbn [fst snd] in H.
  eapply wp_eq; [exact Hrun|]. assert (Hnc : ¬ cache_id (live s1) id) by (intros Hc; by apply (in_cache _ _ _ _ Hin), (go_id _ _ _ _ Hg1)).
  assert (Hg1' : going (Z.of_nat (length bs)) [id] s s1) by (eapply going_weaken; [exact Hg1|lia|apply list_subseteq_nil]).
  destruct H as [(Hneg & Hwhy & Ht1)|(-> & _ & u & Hw & [Hu _] & Hl1 & _)].
  { rewrite (proj2 (Z.ltb_lt _ _) Hneg). wp_pure. split_and!; [done|done| |right; right; split_and!; [done|done|tauto]].
    rewrite (go_seg _ _ _ _ Hg1); [apply Hin|by apply not_elem_of_nil|apply Hin]. }
  wp_pure. eapply wp_mono; [eapply mutex_lock_wp; [exact Hw|lia..|apply Hin]|]. intros [] s2 (Hg2 & Hw2 & Hl2). wp_pure.
  advance Hg1' Hg2. rewrite Z.add_0_r in Hg1'. assert (Hb1 : length (splice OFF_MU (le64 1) bs) = length bs) by (apply mutex_set_len; lia).
  assert (Hleave : wp (thread_mutex_unlock (va + OFF_MU);; as_unmap va) s2 (λ _ s', going (Z.of_nat (length bs)) [id] s s' ∧ tidy s s' ∧ k_seg (us_kern s') id = Some bs)).
  { eapply wp_mono; [eapply dir_leave_wp; [exact Hw2|done|by rewrite Hl2|lia|lia|apply Hin]|]. intros r' s3 (Hg3 & Hs3 & Hlt).
    split; [advance Hg1' Hg3; by rewrite Z.add_0_r in Hg1'|]. split; [|done]. destruct Hlt as [?|Hlt]; [by left|right].
    pose proof (nmaps_insert _ _ _ Hl1). unfold nmaps in *. rewrite Hl2 in Hlt. lia. }
  apply (wp_for_loop (λ i s', s' = s2 ∧ ∀ j, 0 ≤ j < i → ¬ named bs fn j)
    (λ res s', going (Z.of_nat (length bs)) [id] s s' ∧ tidy s s' ∧ k_seg (us_kern s') id = Some bs ∧ lookup_result s fn bs res s')).
  - split; [done|]. intros j Hj. lia.
  - intros i s' Hi [-> Hlow]. change (0 + Z.of_nat (Z.to_nat RAMFS_NDENT)) with RAMFS_NDENT in Hi.
    pose proof (ent_bound i 80 Hi ltac:(unfold DENT_BYTES; lia)) as [E1 E2]. assert (Hea : va + OFF_ENT + i * DENT_BYTES = va + ent_off i) by (unfold ent_off; lia). rewrite Hea.
    wp_pure. eapply at_work_load; [exact Hw2|lia..|]. rewrite sub_mutex by lia. fold (dent_free bs i).
    destruct (dent_free bs i) eqn:Hfree.
    { wp_pure. split; [done|]. intros j Hj Hn. destruct (decide (j = i)) as [->|]; [by destruct Hn; congruence|]. by apply (Hlow j); [lia|]. }
    wp_pure. eapply at_work_load; [exact Hw2|unfold FS_NAME_LEN; lia..|]. wp_pure. rewrite sub_mutex by lia. fold (dent_name bs i).
    destruct (Hdir i Hi Hfree) as [nm Hnm]. apply (wp_deref _ _ nm); [done|]. destruct (decide (nm = fn)) as [->|Hne].
    + wp_pure. rewrite <- Z.add_assoc. eapply at_work_load; [exact Hw2|unfold OFF_SEG; lia..|]. wp_pure. rewrite <- Z.add_assoc. eapply at_work_load; [exact Hw2|unfold OFF_SEG; lia..|].
      apply wp_bind_assoc. apply wp_bind. eapply wp_mono; [exact Hleave|]. intros r' s3 (Hg3 & Ht3 & Hs3). wp_pure. split_and!; [done..|]. left. exists i.
      split; [done|]. unfold dent_seg. rewrite !sub_mutex by (unfold OFF_SEG; lia). done.
    + wp_pure. split; [done|]. intros j Hj [Hn1 Hn2]. destruct (decide (j = i)) as [->|]; [congruence|]. by apply (Hlow j); [lia|].
  - intros res s' H. wp_pure. exact H.
  - intros s' [-> Hnone]. apply wp_bind_assoc, wp_bind. eapply wp_mono; [exact Hleave|]. intros r' s3 (Hg3 & Ht3 & Hs3). wp_pure. split_and!; [done..|].
    right. left. split; [exact Hnone|done].
Qed.

(** ** New inodes *)

Definition fresh_ids s (ids : list Z) : Prop := ∀ id, id ∈ ids → k_seg (us_kern s) id = None.
Definition zero_inode : list Z := replicate (Z.to_nat INODE_BYTES) 0.

Lemma segment_alloc_wp s sh name pid :
  as_ok false s → cache_reachable s → fits s INODE_BYTES →
  wp (user_segment_alloc sh INODE_BYTES (Some 0) 0 name pid) s (λ res s', ∃ ids, fresh_ids s ids ∧ going INODE_BYTES ids s s' ∧
    (∀ v, v ∈ live s → v ∈ live s') ∧
    ((res.1.1 < 0 ∧ (k_refused (us_kern s') ∨ crowded s) ∧ live s' = live s) ∨
     ∃ va id u, res = (0, Some (Sobj sh id), Some va) ∧ id ∈ ids ∧ 0 < id < 2 ^ 63 ∧ at_work s' va id INODE_BYTES zero_inode u ∧
                               um_va u = va ∧ live s' = insert_slot u (live s) ∧ clear_range (live s) va INODE_BYTES)).
Proof.
  intros Hok Hcr Hf. unfold user_segment_alloc. wp_pure. eapply wp_kcall; [apply segment_alloc_law; unfold INODE_BYTES; lia|].
  intros id k' [(Hneg & Href & Hv)|(Hid & Hfr & Hsb & Hz)].
  { rewrite (proj2 (Z.ltb_lt _ _) Hneg). wp_pure. exists []. split_and!.
    - intros x Hx. by apply not_elem_of_nil in Hx.
    - eapply going_weaken; [by apply same_view_going|unfold INODE_BYTES; lia|done].
    - simpl. by rewrite (sv_live _ _ Hv).
    - left. split_and!; [done|by left|apply Hv]. }
  rewrite (proj2 (Z.ltb_ge id 0)) by lia. pose proof (same_but_going id s k' Hok Hsb) as Hg. set (s1 := set_kern k' s) in *.
  assert (Hids : fresh_ids s [id]) by (intros x ->%list_elem_of_singleton; done). assert (Hl1 : live s1 = live s) by apply Hsb.
  wp_pure. eapply wp_mono; [apply (map_seg_wp s1 (Sobj sh id) (Some INODE_BYTES) INODE_BYTES zero_inode (go_ok _ _ _ _ Hg)); try done|].
  { rewrite Hl1. intros Hc. destruct (Hcr id Hc) as [b Hb]. simpl in Hb. congruence. }
  intros [[r vp] b] s2 (Hg2 & Hsup & H). advance Hg Hg2. rewrite Z.add_0_l in Hg. rewrite Hl1 in *. cbn [fst snd] in *.
  destruct H as [(Hneg & Hwhy & Hsame)|(va & u & [= -> ->] & Hw & [Hu _] & Hl2 & Hcl)].
  - rewrite (proj2 (Z.ltb_lt _ _) Hneg). wp_pure. eapply wp_kcall; [apply share_unref_law|]. intros r' k3 Hsb3. wp_pure.
    exists [id]. pose proof (same_but_going id s2 k3 (go_ok _ _ _ _ Hg) Hsb3) as Hg3. advance Hg Hg3. split_and!; [done|done| |].
    + simpl. rewrite (sb_live _ _ _ Hsb3). done.
    + left. split_and!; [done| |simpl; rewrite (sb_live _ _ _ Hsb3); congruence]. destruct Hwhy as [Href|Hcr']; [left; by apply (sb_refused _ _ _ Hsb3)|right].
      unfold crowded, nmaps in *. rewrite Hl1 in Hcr'. exact Hcr'.
  - wp_pure. exists [id]. split_and!; [done..|]. right. exists va, id, u. split_and!; try done; try lia. by left.
Qed.

(** The bytes of an entry. *)
Definition dent_bytes (name : list Z) (seg : sobj_ref) : list Z :=
  strncpy_bytes (Z.to_nat (FS_NAME_LEN - 1)) name ++ [0] ++ le64 (so_share seg) ++ le64 (so_object seg).
Definition new_inode (type : Z) : list Z := splice 0 [u8 type] zero_inode.
Lemma splice_app o a b bs : 0 ≤ o → o + Z.of_nat (length a) + Z.of_nat (length b) ≤ Z.of_nat (length bs) →
  splice (o + Z.of_nat (length a)) b (splice o a bs) = splice o (a ++ b) bs.
Proof.
  intros Ho Hl. apply list_eq. intros i. rewrite !splice_lookup by (rewrite ?splice_length, ?length_app by lia; lia). rewrite length_app.
  destruct (decide (o + Z.of_nat (length a) ≤ Z.of_nat i < _)) as [H1|H1].
  - rewrite decide_True by lia. rewrite lookup_app_r by lia. f_equal. lia.
  - destruct (decide (o ≤ Z.of_nat i < o + Z.of_nat (length a))) as [H2|H2].
    + rewrite decide_True by lia. by rewrite lookup_app_l by lia.
    + by rewrite decide_False by lia.
Qed.
Lemma strncpy_length n name : length (strncpy_bytes n name) = n.
Proof. unfold strncpy_bytes. rewrite length_app, length_take, length_replicate. lia. Qed.
Lemma dent_length name seg : length (dent_bytes name seg) = 80%nat.
Proof. unfold dent_bytes, le64. rewrite !length_app, strncpy_length, !le_bytes_length. done. Qed.

Lemma splice_comm o a o' b bs :
  0 ≤ o → 0 ≤ o' → o + Z.of_nat (length a) ≤ Z.of_nat (length bs) → o' + Z.of_nat (length b) ≤ Z.of_nat (length bs) →
  o + Z.of_nat (length a) ≤ o' ∨ o' + Z.of_nat (length b) ≤ o → splice o a (splice o' b bs) = splice o' b (splice o a bs).
Proof.
  intros Ho Ho' Ha Hb Hd. apply list_eq. intros i. rewrite !splice_lookup by (rewrite ?splice_length by lia; lia).
  destruct (decide (o ≤ _ < _)), (decide (o' ≤ _ < _)); lia || done.
Qed.
Lemma strncpy_range n name : Forall (λ b, 0 ≤ b < 256) name → Forall (λ b, 0 ≤ b < 256) (strncpy_bytes n name).
Proof. intros H. apply Forall_app. split; [by apply Forall_take|]. apply Forall_replicate. lia. Qed.

(** The entry is written in three steps. *)
Lemma fill_entry_wp s dir did len bs u i name seg :
  at_work s dir did len bs u → 8192 ≤ len → 8192 ≤ Z.of_nat (length bs) → 0 ≤ i < RAMFS_NDENT → Forall (λ b, 0 ≤ b < 256) name →
  wp (ustore (dir + ent_off i) (strncpy_bytes (Z.to_nat (FS_NAME_LEN - 1)) name);;
      ustore (dir + ent_off i + (FS_NAME_LEN - 1)) [0];;
      ustore (dir + ent_off i + OFF_SEG) (le64 (so_share seg) ++ le64 (so_object seg))) s
    (λ _ s', stored s dir did len (splice (ent_off i) (dent_bytes name seg) bs) u s').
Proof.
  intros Hw Hl Hb Hi Hn. pose proof (ent_bound i 80 Hi ltac:(done)) as [E1 E2]. wp_pure. unfold FS_NAME_LEN, OFF_SEG in *. change (Z.to_nat (64 - 1)) with 63%nat.
  set (nm := strncpy_bytes 63 name). assert (Hnm : length nm = 63%nat) by apply strncpy_length.
  eapply wp_mono; [eapply at_work_store; [exact Hw|lia..|by apply strncpy_range]|]. intros [] s1 (Hg1 & Hw1 & Hl1). wp_pure. rewrite <- !Z.add_assoc.
  assert (B1 : length (splice (ent_off i) nm bs) = length bs) by (apply splice_length; lia).
  eapply wp_mono; [eapply at_work_store; [exact Hw1|lia|simpl; lia..|by repeat constructor]|]. intros [] s2 (Hg2 & Hw2 & Hl2).
  replace (ent_off i + (64 - 1)) with (ent_off i + Z.of_nat (length nm)) in Hw2 by lia. rewrite splice_app in Hw2 by (simpl; lia).
  assert (B2 : length (splice (ent_off i) (nm ++ [0]) bs) = length bs) by (apply splice_length; rewrite ?length_app; simpl; lia).
  assert (B3 : length (le64 (so_share seg) ++ le64 (so_object seg)) = 16%nat) by (unfold le64; by rewrite length_app, !le_bytes_length).
  eapply wp_mono; [eapply at_work_store; [exact Hw2|lia..|apply Forall_app; split; apply le_bytes_range]|]. intros [] s3 (Hg3 & Hw3 & Hl3).
  replace (ent_off i + 64) with (ent_off i + Z.of_nat (length (nm ++ [0]))) in Hw3 by (rewrite length_app; simpl; lia).
  rewrite splice_app in Hw3 by (rewrite ?length_app in *; simpl in *; lia). rewrite <- app_assoc in Hw3.
  advance Hg1 Hg2. advance Hg1 Hg3. split_and!; [done|exact Hw3|congruence].
Qed.

Lemma splice_all v bs : length v = length bs → splice 0 v bs = v.
Proof. intros He. unfold splice. rewrite Z2Nat.inj_0, take_0, Nat.add_0_l, He, drop_all, app_nil_r. done. Qed.
(** The new inode: zeroes and the type. *)
Lemma init_inode_wp s ino id type u :
  at_work s ino id INODE_BYTES zero_inode u →
  wp (ustore ino (replicate (Z.to_nat INODE_BYTES) 0);; ustore ino [u8 type]) s (λ _ s', stored s ino id INODE_BYTES (new_inode type) u s').
Proof.
  intros Hw. wp_pure. assert (Hzl : length zero_inode = Z.to_nat INODE_BYTES) by apply length_replicate.
  eapply wp_mono; [eapply at_work_store0; [exact Hw|fold zero_inode; rewrite Hzl, Z2Nat.id by done; lia..|apply Forall_replicate; lia]|]. intros [] s1 (Hg1 & Hw1 & Hl1).
  assert (splice 0 zero_inode zero_inode = zero_inode) as He by by apply splice_all.
  fold zero_inode in Hw1.
  rewrite He in Hw1. eapply wp_mono; [eapply at_work_store0; [exact Hw1|change (length [u8 type]) with 1%nat; unfold INODE_BYTES; lia|rewrite Hzl; change (length [u8 type]) with 1%nat; unfold INODE_BYTES; lia|]|].
  { repeat constructor; apply Z.mod_pos_bound; lia. }
  intros [] s2 (Hg2 & Hw2 & Hl2). advance Hg1 Hg2. split_and!; [done|done|congruence].
Qed.

Definition fill_post s (h : fs_handle) name type i (bs : list Z) (res : Z * option fs_handle) s' : Prop :=
  let did := so_object (fh_ref h) in
  ∃ ids, fresh_ids s ids ∧ going INODE_BYTES (did :: ids) s s' ∧ (k_refused (us_kern s') ∨ nmaps s' < nmaps s) ∧
    ((res.1 < 0 ∧ res.2 = None ∧ (k_refused (us_kern s') ∨ crowded s) ∧ k_seg (us_kern s') did = Some bs) ∨
     (∃ id, let seg := Sobj (so_share (fh_ref h)) id in
        res = (0, Some (FsHandle DEV_RAMFS seg 0)) ∧ id ∈ ids ∧ 0 < id < 2 ^ 63 ∧
        k_seg (us_kern s') did = Some (splice (ent_off i) (dent_bytes name seg) bs) ∧ k_seg (us_kern s') id = Some (new_inode type))).

Lemma ramfs_inode_fill_wp s h name type dir bs u i :
  let did := so_object (fh_ref h) in
  at_work s dir did (Z.of_nat (length bs)) (splice OFF_MU (le64 1) bs) u → um_va u = dir → ¬ cache_id (live s) did → cache_reachable s → fits s INODE_BYTES →
  8192 ≤ Z.of_nat (length bs) → mutex_is 0 bs → 0 ≤ i < RAMFS_NDENT → Forall (λ b, 0 ≤ b < 256) name →
  wp (ramfs_inode_fill h name type dir (dir + ent_off i)) s (fill_post s h name type i bs).
Proof.
  intros did Hw Hu Hnc Hcr Hf Hl Hm Hi Hn. pose proof (ent_bound i 80 Hi ltac:(done)) as [E1 E2]. unfold ramfs_inode_fill. wp_pure.
  eapply wp_mono; [apply (segment_alloc_wp s _ _ _ (aw_ok _ _ _ _ _ _ Hw) Hcr Hf)|].
  intros [[r sg] vp] s1 (ids & Hfr & Hg1 & Hsup & H). assert (Hdid : did ∉ ids).
  { intros Hx. specialize (Hfr did Hx). rewrite (aw_seg _ _ _ _ _ _ Hw) in Hfr. done. }
  assert (Hg : going INODE_BYTES (did :: ids) s s1) by (eapply going_weaken; [exact Hg1|done|intros x Hx; by right]).
  assert (Hw1 : at_work s1 dir did (Z.of_nat (length bs)) (splice OFF_MU (le64 1) bs) u).
  { constructor; [apply Hg1|eapply window_live; [apply Hw|apply Hsup, Hw]|]. rewrite (go_seg _ _ _ _ Hg1) by done. apply Hw. }
  assert (Hnc1 : ¬ cache_id (live s1) did) by (intros Hc; by apply Hnc, (go_id _ _ _ _ Hg1)). cbn [fst snd] in H.
  destruct H as [(Hneg & Hwhy & Hsame)|(ino & id & u2 & [= -> -> ->] & Hin & Hid & Hw2 & Hu2 & Hins & Hcl)].
  { rewrite (proj2 (Z.ltb_lt _ _) Hneg). apply wp_bind_assoc, wp_bind. eapply wp_mono; [eapply dir_leave_wp; [exact Hw1|done|done|lia|lia|done]|].
    intros r' s2 (Hg2 & Hs2 & Hlt). wp_pure. exists ids. split_and!; [done| |unfold nmaps in *; by rewrite Hsame in Hlt|].
    2: { left. split_and!; [done|done| |done]. destruct Hwhy as [?|?]; [left; by apply Hg2|by right]. }
    assert (Hg2' : going 0 (did :: ids) s1 s2) by (eapply going_weaken; [exact Hg2|done|intros x ->%list_elem_of_singleton; by left]). advance Hg Hg2'. exact Hg. }
  change (0 <? 0) with false. cbv iota. apply wp_bind, (wp_deref _ _ ino); [done|]. apply wp_bind, (wp_deref _ _ (Sobj (so_share (fh_ref h)) id)); [done|].
  apply wp_bind_assoc, wp_bind. eapply wp_mono; [by eapply init_inode_wp|]. intros [] s2 (Hg2 & Hw3 & Hl2).
  assert (Hne : did ≠ id) by by intros ->. assert (Hnew : ¬ cache_id (live s) id) by (intros Hc; destruct (Hcr id Hc) as [b Hb]; by rewrite (Hfr id Hin) in Hb).
  wp_pure. eapply wp_mono; [by apply unmap_wp, Hw3|]. intros r3 s3 (Hg3 & Hsup3 & Hless3).
  assert (Hg23 : going 0 [id] s1 s3) by (advance Hg2 Hg3; done).
  assert (Hid3 : k_seg (us_kern s3) id = Some (new_inode type)).
  { rewrite (go_seg _ _ _ _ Hg3); [apply Hw3|by apply not_elem_of_nil|]. rewrite Hl2. intros Hc. by apply Hnew, (go_id _ _ _ _ Hg1). }
  assert (Hw4 : at_work s3 dir did (Z.of_nat (length bs)) (splice OFF_MU (le64 1) bs) u).
  { constructor; [apply Hg3| |].
    - eapply window_live; [apply Hw|]. apply Hsup3; [rewrite Hl2; apply Hw1|]. unfold clear_range in Hcl. rewrite Forall_forall in Hcl.
      destruct (Hcl u ltac:(apply Hw)) as [H1|H1]; destruct (wi_va _ _ _ _ _ _ (aw_win _ _ _ _ _ _ Hw)) as [H2 H3]; unfold INODE_BYTES in H1; lia.
    - rewrite (go_seg _ _ _ _ Hg23) by (rewrite ?list_elem_of_singleton; done). apply Hw1. }
  assert (Hnc3 : ¬ cache_id (live s3) did) by (intros Hc; by apply Hnc1, (go_id _ _ _ _ Hg23)).
  wp_pure. set (seg := Sobj (so_share (fh_ref h)) id) in *. assert (B1 : length (splice OFF_MU (le64 1) bs) = length bs) by (apply mutex_set_len; lia).
  pose proof (fill_entry_wp s3 dir did _ _ u i name seg Hw4 ltac:(lia) ltac:(lia) Hi Hn) as Hfill. apply wp_bind_inv in Hfill. eapply wp_mono; [exact Hfill|].
  intros [] s4 Hfill2. cbv beta in Hfill2. apply wp_bind_inv in Hfill2. wp_pure. eapply wp_mono; [exact Hfill2|]. intros [] s5 Hfill3. cbv beta in Hfill3.
  wp_pure. eapply wp_mono; [exact Hfill3|]. intros [] s6 (Hg6 & Hw6 & Hl6). clear Hfill Hfill2 Hfill3.
  pose proof (dent_length name seg) as Hdl. set (bs' := splice (ent_off i) (dent_bytes name seg) bs). assert (B2 : length bs' = length bs) by (apply splice_length; lia).
  rewrite splice_comm in Hw6 by (unfold OFF_MU, le64; rewrite ?le_bytes_length; lia). fold bs' in Hw6. rewrite <- B2 in Hw6.
  apply wp_bind_assoc, wp_bind. eapply wp_mono; [eapply dir_leave_wp; [exact Hw6|done|by rewrite Hl6|lia|lia|]|].
  { unfold mutex_is, bs'. rewrite sub_splice_other by (unfold OFF_MU; lia). done. }
  intros r7 s7 (Hg7 & Hs7 & Hlt7). wp_pure. exists ids.
  assert (Hlt : k_refused (us_kern s7) ∨ nmaps s7 < nmaps s).
  { destruct (Hless3 u2) as [Href|Hlt3]; [rewrite Hl2; apply Hw2|done|left; by apply (go_refused _ _ _ _ Hg7), (go_refused _ _ _ _ Hg6)|].
    destruct Hlt7 as [?|Hlt7]; [by left|right]. pose proof (nmaps_insert _ _ _ Hins). unfold nmaps in *. rewrite Hl6 in Hlt7. rewrite Hl2 in Hlt3. lia. }
  advance Hg6 Hg7.
  assert (Hg36 : going 0 (did :: ids) s1 s7) by (eapply going_weaken; [eapply going_trans; [|exact Hg23|exact Hg6]; done|done|];
    intros x [->%list_elem_of_singleton| ->%list_elem_of_singleton]%elem_of_app; [by right|by left]).
  split_and!; [done|by advance Hg Hg36|done|]. right. exists id. split_and!; try done; try lia.
  rewrite (go_seg _ _ _ _ Hg6); [done|rewrite list_elem_of_singleton; done|]. intros Hc. by apply Hnew, (go_id _ _ _ _ Hg1), (go_id _ _ _ _ Hg23).
Qed.

Definition first_free (bs : list Z) (i : Z) : Prop := 0 ≤ i < RAMFS_NDENT ∧ dent_free bs i = true ∧ ∀ j, 0 ≤ j < i → dent_free bs j = false.
(** [ramfs_inode_alloc] fails and leaves the directory as it was, or fills the first free
    entry and makes a new segment.  It needs two mappings, and fails only if it cannot have
    them or the directory is full. *)
Definition dir_full (bs : list Z) : Prop := ∀ j, 0 ≤ j < RAMFS_NDENT → dent_free bs j = false.
Definition alloc_post s (h : fs_handle) name type (bs : list Z) (res : Z * option fs_handle) s' : Prop :=
  let did := so_object (fh_ref h) in
  ∃ ids, fresh_ids s ids ∧ going (Z.of_nat (length bs) + INODE_BYTES) (did :: ids) s s' ∧ tidy s s' ∧
    ((res.1 < 0 ∧ res.2 = None ∧ (k_refused (us_kern s') ∨ uat_size (us_uat s) < nmaps s + 2 ∨ dir_full bs) ∧ k_seg (us_kern s') did = Some bs) ∨
     (∃ i id, let seg := Sobj (so_share (fh_ref h)) id in first_free bs i ∧
        res = (0, Some (FsHandle DEV_RAMFS seg 0)) ∧ id ∈ ids ∧ 0 < id < 2 ^ 63 ∧
        k_seg (us_kern s') did = Some (splice (ent_off i) (dent_bytes name seg) bs) ∧ k_seg (us_kern s') id = Some (new_inode type))).

Lemma fill_alloc s s2 h name type i bs res s' :
  going (Z.of_nat (length bs)) [so_object (fh_ref h)] s s2 → nmaps s2 = nmaps s + 1 → is_Some (k_seg (us_kern s2) (so_object (fh_ref h))) → first_free bs i →
  fill_post s2 h name type i bs res s' → alloc_post s h name type bs res s'.
Proof.
  intros Hg Hn2 Hd Hi (ids & Hfr & Hg2 & Hlt & H). pose proof (go_size _ _ _ _ Hg) as Hsz. exists ids. split_and!.
  - intros id Hin. pose proof (Hfr id Hin) as H2. destruct (k_seg (us_kern s) id) eqn:Hs; [|done].
    destruct (decide (id = so_object (fh_ref h))) as [->|Hne]; [by rewrite H2 in Hd; destruct Hd|].
    destruct (go_some _ _ _ _ Hg id) as [b Hb]; [by rewrite list_elem_of_singleton|by rewrite Hs|congruence].
  - eapply going_weaken; [eapply going_trans; [|exact Hg|exact Hg2]; done|done|]. intros x [->%list_elem_of_singleton|Hx]%elem_of_app; [by left|done].
  - destruct Hlt as [?|?]; [by left|right; lia].
  - destruct H as [(H1 & H2 & Hwhy & H3)|(id & H)]; [left|right; exists i, id; by split]. split_and!; [done|done| |done].
    unfold crowded in Hwhy. destruct Hwhy as [?|?]; [by left|right; left; lia].
Qed.
Lemma cache_reachable_going n ids s s' : going n ids s s' → cache_reachable s → (∀ id, id ∈ ids → is_Some (k_seg (us_kern s') id)) → cache_reachable s'.
Proof.
  intros Hg Hc Hids id Hid. destruct (decide (id ∈ ids)) as [Hin|Hin]; [auto|]. apply (go_some _ _ _ _ Hg); [done|]. apply Hc. by apply (go_id _ _ _ _ Hg).
Qed.
Lemma ramfs_inode_alloc_wp s h name type bs :
  as_ok false s → inode s (fh_ref h) dir_type bs → cache_reachable s → fits s (Z.of_nat (length bs) + INODE_BYTES) → Forall (λ b, 0 ≤ b < 256) name →
  wp (ramfs_inode_alloc h name type) s (alloc_post s h name type bs).
Proof.
  intros Hok Hin Hcr Hf Hn. pose proof (inode_len _ _ _ _ Hin) as [Hl Hlm]. unfold ramfs_inode_alloc. change (Z.lor SEGMAP_WRITE SEGMAP_READ) with SEGMAP_RW. wp_pure.
  set (did := so_object (fh_ref h)). eapply wp_mono; [apply (ramfs_map_wp s (fh_ref h) dir_type _ _ Hok Hin); destruct Hf; split; [done|unfold INODE_BYTES in *; lia]|].
  intros [r va] s1 [Hg1 H]. cbn [fst snd] in H. assert (Hnc : ¬ cache_id (live s1) did) by (intros Hc; by apply (in_cache _ _ _ _ Hin), (go_id _ _ _ _ Hg1)).
  assert (Hfail : ∀ res s', going (Z.of_nat (length bs)) [did] s s' → tidy s s' → k_seg (us_kern s') did = Some bs → res.1 < 0 → res.2 = None →
    (k_refused (us_kern s') ∨ crowded s ∨ dir_full bs) → alloc_post s h name type bs res s').
  { intros res s' Hg Ht Hs Hr1 Hr2 Hwhy. exists []. split_and!; [intros x Hx; by apply not_elem_of_nil in Hx|eapply going_weaken; [exact Hg|unfold INODE_BYTES; lia|done]|done|].
    left. split_and!; [done|done| |done]. unfold crowded in Hwhy. destruct Hwhy as [?|[?|?]]; [by left|right; left; lia|by right; right]. }
  assert (Hg1' : going (Z.of_nat (length bs)) [did] s s1) by (eapply going_weaken; [exact Hg1|lia|apply list_subseteq_nil]).
  destruct H as [(Hneg & Hwhy & Ht1)|(-> & _ & u & Hw & [Hu _] & Hl1 & _)].
  { rewrite (proj2 (Z.ltb_lt _ _) Hneg). wp_pure. apply Hfail; try done; [|tauto]. rewrite (go_seg _ _ _ _ Hg1); [apply Hin|by apply not_elem_of_nil|apply Hin]. }
  wp_pure. eapply wp_mono; [eapply mutex_lock_wp; [exact Hw|lia..|apply Hin]|]. intros [] s2 (Hg2 & Hw2 & Hl2). wp_pure.
  advance Hg1' Hg2. rewrite Z.add_0_r in Hg1'. assert (Hb1 : length (splice OFF_MU (le64 1) bs) = length bs) by (apply mutex_set_len; lia).
  apply (wp_for_loop (λ i s', s' = s2 ∧ ∀ j, 0 ≤ j < i → dent_free bs j = false) (λ res s', alloc_post s h name type bs res s')).
  - split; [done|]. intros j Hj. lia.
  - intros i s' Hi [-> Hlow]. change (0 + Z.of_nat (Z.to_nat RAMFS_NDENT)) with RAMFS_NDENT in Hi.
    pose proof (ent_bound i 80 Hi ltac:(done)) as [E1 E2]. assert (Hea : va + OFF_ENT + i * DENT_BYTES = va + ent_off i) by (unfold ent_off; lia). rewrite Hea.
    wp_pure. eapply at_work_load; [exact Hw2|lia..|]. rewrite sub_mutex by lia. fold (dent_free bs i). destruct (dent_free bs i) eqn:Hfree; wp_pure.
    + eapply wp_mono; [apply (ramfs_inode_fill_wp s2 h name type va bs u i); try done; try apply Hin|].
      * by rewrite Hl2.
      * apply (cache_reachable_going _ _ _ _ Hg1' Hcr). intros x ->%list_elem_of_singleton. rewrite (aw_seg _ _ _ _ _ _ Hw2). by eexists.
      * eapply going_fits; [exact Hg1'|done|done].
      * intros res s3 H3. wp_pure. eapply (fill_alloc s s2); [exact Hg1'|unfold nmaps; rewrite Hl2; by apply (nmaps_insert _ _ u)|rewrite (aw_seg _ _ _ _ _ _ Hw2); by eexists|done|done].
    + split; [done|]. intros j Hj. destruct (decide (j = i)) as [->|]; [done|]. apply Hlow. lia.
  - intros res s' H. wp_pure. exact H.
  - intros s' [-> Hall]. apply wp_bind_assoc, wp_bind. eapply wp_mono; [eapply dir_leave_wp; [exact Hw2|done|by rewrite Hl2|lia|lia|apply Hin]|]. intros r' s3 (Hg3 & Hs3 & Hlt). wp_pure.
    advance Hg1' Hg3. rewrite Z.add_0_r in Hg1'. apply Hfail; try done; [|by right; right]. destruct Hlt as [?|Hlt]; [by left|right].
    pose proof (nmaps_insert _ _ _ Hl1). unfold nmaps in *. rewrite Hl2 in Hlt. lia.
Qed.
End ramfs_dir.
