(* ===== verification/Fs.v ===== *)
(** * Devices, the mount table and paths

    fs/fs.c dispatches on the device of a handle, fs/mount.c keeps the mount table in a
    segment, fs/namei.c resolves paths; lib/fs.c and lib/unixfd.c put descriptors and
    [mkdir]/[creat] on top.  The devices other than ramfs are arguments: [vfs0_dev] and
    [dbfs_dev] may be any operations.  [errno] is not kept. *)
From S2P Require Import Prelude Machine Ktypes Pmap At Uas Ramfs.

(** [struct fs_handle] in memory: 32 bytes, the device first, the union at 8. *)
Definition HANDLE_BYTES : Z := 32.
Definition handle_bytes (h : fs_handle) : list Z :=
  [u8 (fh_dev_id h); 0; 0; 0; 0; 0; 0; 0] ++ le64 (so_share (fh_ref h)) ++ le64 (so_object (fh_ref h)) ++ le64 (fh_s h).
(** [struct fs_mtab_ent] *)
Definition FS_NMOUNT : Z := 8.
Definition MTAB_ENT : Z := 128.
Definition OFF_MNT_NAME : Z := 32.
Definition OFF_MNT_ROOT : Z := 96.

(** [struct fs_dev] *)
Record fs_dev (K : Type) := FsDev {
  file_pread : fs_handle → Z → Z → M (ustate K) (Z * list Z);
  file_pwrite : fs_handle → list Z → Z → M (ustate K) Z;
  file_create : fs_handle → list Z → M (ustate K) (Z * option fs_handle);
  file_truncate : fs_handle → Z → M (ustate K) Z;
  dir_lookup : fs_handle → list Z → M (ustate K) (Z * option fs_handle);
  dir_mk : fs_handle → list Z → M (ustate K) (Z * option fs_handle);
  fs_pfork : option (fs_handle → M (ustate K) (Z * sobj_ref));
  dev_stat : fs_handle → M (ustate K) (Z * Z * Z);
  dev_fsync : fs_handle → M (ustate K) Z;
}.
Arguments FsDev {K}. Arguments file_pread {K}. Arguments file_pwrite {K}. Arguments file_create {K}. Arguments file_truncate {K}.
Arguments dir_lookup {K}. Arguments dir_mk {K}. Arguments fs_pfork {K}. Arguments dev_stat {K}. Arguments dev_fsync {K}.

(** The flags of <fcntl.h> and the kinds of [lseek]. *)
Definition O_RDONLY : Z := 0.
Definition O_WRONLY : Z := 1.
Definition O_APPEND : Z := 0x400.
Definition O_TRUNC : Z := 0x200.
Definition SEEK_SET : Z := 0.
Definition SEEK_CUR : Z := 1.
Definition SEEK_END : Z := 2.
Definition EINVAL : Z := 22.
Definition SLASH : Z := 47.

(** [struct Fd], for a file *)
Record Fd := MkFd { fd_omode : Z; fd_offset : Z; fd_fh : fs_handle }.

(** [strchr(pn, '/')]: the characters before the first slash, and those after it. *)
Fixpoint split_name (pn : list Z) : list Z * list Z :=
  match pn with
  | [] => ([], [])
  | c :: pn' => if c =? SLASH then ([], pn') else let '(name, next) := split_name pn' in (c :: name, next)
  end.
(** [strrchr(path, '/')]: what comes up to the last slash, with it, and what follows. *)
Fixpoint split_last (path : list Z) : option (list Z) * list Z :=
  match path with
  | [] => (None, [])
  | c :: path' =>
      match split_last path' with
      | (Some dir, name) => (Some (c :: dir), name)
      | (None, name) => if c =? SLASH then (Some [c], name) else (None, c :: name)
      end
  end.

Section fs_c.
Context {K : Type} `{!ProcKernel K}.
Variables vfs0_dev dbfs_dev : fs_dev K.
Implicit Types (s : ustate K).

Definition ramfs_dev : fs_dev K :=
  FsDev ramfs_file_pread ramfs_file_pwrite ramfs_file_create ramfs_file_truncate ramfs_dir_lookup ramfs_dir_mk
        (Some ramfs_pfork) ramfs_stat ramfs_fsync.

(** ** fs/fs.c *)

(** [devlist] is indexed by the characters 'r', '0' and 'd'. *)
Definition fs_dev_get (dir : fs_handle) : option (fs_dev K) :=
  if fh_dev_id dir =? DEV_RAMFS then Some ramfs_dev else
  if fh_dev_id dir =? 48 then Some vfs0_dev else
  if fh_dev_id dir =? 100 then Some dbfs_dev else None.
(** [fs_dev_get(h)->op]: a null pointer for an unknown device. *)
Definition on_dev {A} (h : fs_handle) (f : fs_dev K → M (ustate K) A) : M (ustate K) A :=
  d ← deref (λ _, fs_dev_get h); f d.

Definition fs_stat (h : fs_handle) : M (ustate K) (Z * Z * Z) := on_dev h (λ d, dev_stat d h).
Definition fs_mkdir (root : fs_handle) (name : list Z) : M (ustate K) (Z * option fs_handle) := on_dev root (λ d, dir_mk d root name).
Definition fs_dlookup (d : fs_handle) (name : list Z) : M (ustate K) (Z * option fs_handle) := on_dev d (λ v, dir_lookup v d name).
Definition fs_create (dir : fs_handle) (name : list Z) : M (ustate K) (Z * option fs_handle) := on_dev dir (λ d, file_create d dir name).
Definition fs_fsync (file : fs_handle) : M (ustate K) Z := on_dev file (λ d, dev_fsync d file).
Definition fs_ftruncate (file : fs_handle) (new_size : Z) : M (ustate K) Z := on_dev file (λ d, file_truncate d file new_size).
Definition fs_pwrite (file : fs_handle) (buf : list Z) (off : Z) : M (ustate K) Z := on_dev file (λ d, file_pwrite d file buf off).
Definition fs_pread (file : fs_handle) (count off : Z) : M (ustate K) (Z * list Z) := on_dev file (λ d, file_pread d file count off).

(** ** fs/mount.c *)

Definition load_handle (p : Z) : M (ustate K) fs_handle :=
  d ← uload p 1;
  share ← uload (p + 8) 8;
  object ← uload (p + 16) 8;
  w ← uload (p + 24) 8;
  mret (FsHandle (of_le d) (Sobj (of_le share) (of_le object)) (of_le w)).

Definition fs_mount (mount_seg : sobj_ref) (dir : option fs_handle) (mnt_name : list Z) (root : option fs_handle) : M (ustate K) Z :=
  '(r, mtab, _) ← as_map mount_seg 0 SEGMAP_RW (Some 0) None;
  if r <? 0 then mret r else
  mtab ← deref (λ _, mtab);
  o ← for_loop (Z.to_nat FS_NMOUNT) 0 (λ i,
    let ent := mtab + i * MTAB_ENT in
    c ← uload (ent + OFF_MNT_NAME) 1;
    if of_le c =? 0 then
      ustore (ent + OFF_MNT_NAME) (strncpy_bytes (Z.to_nat (FS_NAME_LEN - 1)) mnt_name);;
      ustore (ent + OFF_MNT_NAME + (FS_NAME_LEN - 1)) [0];;
      match dir with Some d => ustore ent (handle_bytes d) | None => mret tt end;;
      match root with Some d => ustore (ent + OFF_MNT_ROOT) (handle_bytes d) | None => mret tt end;;
      _ ← as_unmap mtab;
      mret (Some 0)
    else mret None);
  match o with
  | Some r => mret r
  | None => _ ← as_unmap mtab; mret (- E_NO_SPACE)
  end.

(** The loop of [fs_mount_pfork]: the code and the shares stored so far. *)
Fixpoint mount_pfork_loop (n : nat) (i mtab size : Z) (sh : list sobj_ref) : M (ustate K) (Z * list sobj_ref) :=
  match n with
  | O => _ ← as_unmap mtab; mret (Z.of_nat (length sh), sh)
  | S n' =>
      let ent := mtab + i * MTAB_ENT in
      c ← uload (ent + OFF_MNT_NAME) 1;
      if of_le c =? 0 then mount_pfork_loop n' (i + 1) mtab size sh else
      if Z.of_nat (length sh) >=? size then _ ← as_unmap mtab; mret (- E_NO_SPACE, sh) else
      root ← load_handle (ent + OFF_MNT_ROOT);
      d ← deref (λ _, fs_dev_get root);
      match fs_pfork d with
      | None => mount_pfork_loop n' (i + 1) mtab size sh
      | Some f =>
          '(r, x) ← f root;
          if r <? 0 then _ ← as_unmap mtab; mret (r, sh) else
          mount_pfork_loop n' (i + 1) mtab size (sh ++ [x])
      end
  end.
Definition fs_mount_pfork (mount_seg : sobj_ref) (size : Z) : M (ustate K) (Z * list sobj_ref) :=
  '(r, mtab, _) ← as_map mount_seg 0 SEGMAP_RW (Some 0) None;
  if r <? 0 then mret (r, []) else
  mtab ← deref (λ _, mtab);
  mount_pfork_loop (Z.to_nat FS_NMOUNT) 0 mtab size [].

(** ** fs/namei.c *)

(** The search of the mount table for a name in directory [q]. *)
Definition mount_lookup (mtab : Z) (q : fs_handle) (fn : list Z) : M (ustate K) (option fs_handle) :=
  for_loop (Z.to_nat FS_NMOUNT) 0 (λ i,
    let mnt := mtab + i * MTAB_ENT in
    object ← uload (mnt + 16) 8;
    if negb (of_le object =? so_object (fh_ref q)) then mret None else
    field ← uload (mnt + OFF_MNT_NAME) FS_NAME_LEN;
    name ← deref (λ _, cstr field);
    if decide (name = fn) then root ← load_handle (mnt + OFF_MNT_ROOT); mret (Some root) else mret None).
(** One component of a path. *)
Definition walk_name (mtab : Z) (q : fs_handle) (fn : list Z) : M (ustate K) (Z * fs_handle) :=
  m ← (if mtab =? 0 then mret None else mount_lookup mtab q fn);
  match m with
  | Some root => mret (0, root)
  | None =>
      '(r, q2) ← on_dev q (λ d, dir_lookup d q fn);
      if r <? 0 then mret (r, q) else
      q2 ← deref (λ _, q2);
      mret (0, q2)
  end.
(** The loop of [fs_lookup_path]; every pass drops at least one character, so the length of
    the path bounds their number. *)
Fixpoint lookup_path_loop (fuel : nat) (mtab : Z) (q : fs_handle) (pn : list Z) : M (ustate K) (Z * fs_handle) :=
  match pn with
  | [] => mret (0, q)
  | _ =>
      match fuel with
      | O => crash NoFuel
      | S fuel' =>
          let '(fn, next_pn) := split_name pn in
          if FS_NAME_LEN <=? Z.of_nat (length fn) then mret (- E_NO_SPACE, q) else
          if decide (fn = []) then lookup_path_loop fuel' mtab q next_pn else
          '(r, q') ← walk_name mtab q fn;
          if r <? 0 then mret (r, q) else lookup_path_loop fuel' mtab q' next_pn
      end
  end.
(** [fs_lookup_path]: the code and [*h]. *)
Definition fs_lookup_path (start_dir : fs_handle) (pn : list Z) (mtab : Z) : M (ustate K) (Z * option fs_handle) :=
  env ← gets us_env;
  let '(q, pn) := match pn with c :: pn' => if c =? SLASH then (ce_rhand env, pn') else (start_dir, pn) | [] => (start_dir, pn) end in
  '(r, h) ← lookup_path_loop (length pn) mtab q pn;
  mret (r, if r <? 0 then None else Some h).

Definition fs_namei (pn : list Z) : M (ustate K) (Z * option fs_handle) :=
  env ← gets us_env;
  p ← gets us_mtab;
  ref ← gets us_mtab_ref;
  (if negb (so_share ref =? so_share (ce_mtab env)) || negb (so_object ref =? so_object (ce_mtab env)) then
     (if negb (p =? 0) then _ ← as_unmap p; mret tt else mret tt);;
     modify (set_mtab 0 ref)
   else mret tt);;
  p ← gets us_mtab;
  r ← (if p =? 0 then
         '(r, mtab, _) ← as_map (ce_mtab env) 0 SEGMAP_READ (Some 0) None;
         if r <? 0 then mret r else
         mtab ← deref (λ _, mtab);
         modify (set_mtab mtab (ce_mtab env));;
         mret 0
       else mret 0);
  if r <? 0 then mret (r, None) else
  p ← gets us_mtab;
  fs_lookup_path (ce_cwd env) pn p.

(** ** lib/fs.c *)

(** The operations of an open file: the result and what [lseek] leaves in the descriptor.
    When [fs_stat] fails, [s.size] is not initialised. *)
Definition fs_fd_write (fd : Fd) (buf : list Z) (offset : Z) : M (ustate K) Z :=
  if negb (Z.land (fd_omode fd) O_RDONLY =? 0) then mret (-1) else
  if negb (Z.land (fd_omode fd) O_APPEND =? 0) then
    '(r, size, _) ← fs_stat (fd_fh fd);
    if r <? 0 then undef else fs_pwrite (fd_fh fd) buf size
  else
    r ← fs_pwrite (fd_fh fd) buf offset;
    mret (if r <? 0 then -1 else r).
Definition fs_fd_read (fd : Fd) (count offset : Z) : M (ustate K) (Z * list Z) :=
  if negb (Z.land (fd_omode fd) O_WRONLY =? 0) then mret (-1, []) else
  '(r, buf) ← fs_pread (fd_fh fd) count offset;
  mret (if r <? 0 then (-1, buf) else (r, buf)).
Definition set_fd_offset (o : Z) (fd : Fd) : Fd := MkFd (fd_omode fd) o (fd_fh fd).
Definition fs_fd_lseek (fd : Fd) (offset whence : Z) : M (ustate K) (Z * Fd) :=
  if whence =? SEEK_SET then mret (offset, set_fd_offset offset fd) else
  if whence =? SEEK_CUR then mret (s64 (fd_offset fd + offset), set_fd_offset (s64 (fd_offset fd + offset)) fd) else
  if whence =? SEEK_END then
    '(r, size, _) ← fs_stat (fd_fh fd);
    if r <? 0 then mret (r, fd) else
    mret (s64 (size + offset), set_fd_offset (s64 (size + offset)) fd)
  else mret (EINVAL, fd).

(** ** lib/unixfd.c *)

(** [open_dir]: the code and [*h]. *)
Definition open_dir (path : option (list Z)) : M (ustate K) (Z * option fs_handle) :=
  env ← gets us_env;
  match path with
  | None => mret (0, Some (ce_cwd env))
  | Some path =>
      '(r, p) ← fs_namei path;
      if r <? 0 then mret (-1, None) else
      p ← deref (λ _, p);
      '(r, _, mode) ← fs_stat p;
      if r <? 0 then mret (r, None) else
      if negb (Z.land mode 0xf000 =? S_IFDIR) then mret (-1, None) else
      mret (0, Some p)
  end.
(** [fh_creat]: the code and [*h]; the character before an empty path is not there. *)
Definition fh_creat (path : list Z) (type : Z) : M (ustate K) (Z * option fs_handle) :=
  c ← deref (λ _, last path);
  if c =? SLASH then mret (-1, None) else
  let '(ppath, name) := split_last path in
  '(r, p) ← open_dir ppath;
  if r <? 0 then mret (r, None) else
  p ← deref (λ _, p);
  '(r, _) ← fs_dlookup p name;
  if r =? 0 then mret (-1, None) else
  '(r, o) ← (if type =? file_type then fs_create p name else fs_mkdir p name);
  if r <? 0 then mret (r, None) else mret (0, o).
Definition check_open_flags (flags : Z) : Z :=
  if negb (Z.land flags O_RDONLY =? 0) && negb (Z.land flags (Z.lor O_APPEND O_TRUNC) =? 0) then -1 else 0.
Definition mkdir (path : list Z) : M (ustate K) Z := '(r, _) ← fh_creat path dir_type; mret r.
End fs_c.
