(* ===== verification/UserKernel.v ===== *)
(** * A kernel for one process

    A small kernel that keeps the promises of [ProcKernelLaws]: a table of mappings, the
    bytes of the segments, the next identifier, and whether a call was refused.  It shows
    that the promises can be kept, and runs the examples.  The views leave out what is not
    well formed, so they are well formed in every state. *)
From Stdlib Require Import Sorting.Sorted.
From S2P Require Import Prelude Machine Ktypes Pmap At FaultProps Uas UasThms Ramfs RamfsThms.

Record ukern := Uk { uk_live : list u_address_mapping; uk_segs : gmap Z (list Z); uk_next : Z; uk_as : sobj_ref; uk_refused : bool }.

Definition byteb (b : Z) : bool := (0 <=? b) && (b <? 256).
Definition slotb (u : u_address_mapping) : bool :=
  negb (um_flags u =? 0) && ((0 <=? um_kslot u) && (um_kslot u <? 2 ^ 32)) && ((0 <=? um_va u) && (um_va u <? 2 ^ 64)).
Fixpoint sortedb (l : list u_address_mapping) : bool :=
  match l with [] => true | u :: l' => forallb (λ v, um_kslot u <? um_kslot v) l' && sortedb l' end.
Definition slots_okb (l : list u_address_mapping) : bool := sortedb l && forallb slotb l.
Definition seg_okb (bs : list Z) : bool :=
  (Z.of_nat (length bs) mod PGSIZE =? 0) && (Z.of_nat (length bs) <? 2 ^ 60) && forallb byteb bs.

Lemma forallb_Forall {A} (p : A → bool) (P : A → Prop) l : (∀ x, p x = true ↔ P x) → forallb p l = true ↔ Forall P l.
Proof. intros H. rewrite forallb_forall, Forall_forall. split; intros Hl x Hx; apply H, Hl; by apply list_elem_of_In. Qed.
Lemma byteb_spec b : byteb b = true ↔ 0 ≤ b < 256.
Proof. unfold byteb. rewrite andb_true_iff, Z.leb_le, Z.ltb_lt. done. Qed.
Lemma slotb_spec u : slotb u = true ↔ um_flags u ≠ 0 ∧ 0 ≤ um_kslot u < 2 ^ 32 ∧ 0 ≤ um_va u < 2 ^ 64.
Proof. unfold slotb. rewrite !andb_true_iff, negb_true_iff, Z.eqb_neq, !Z.leb_le, !Z.ltb_lt. tauto. Qed.
Lemma sortedb_spec l : sortedb l = true ↔ StronglySorted slot_lt l.
Proof.
  induction l as [|u l IH]; simpl; [split; [constructor|done]|]. rewrite andb_true_iff, IH, (forallb_Forall _ (slot_lt u)).
  - split; [intros [H1 H2]; by constructor|]. by inversion 1.
  - intros v. apply Z.ltb_lt.
Qed.
Lemma slots_okb_spec l : slots_okb l = true ↔ slots_ok l.
Proof. unfold slots_okb, slots_ok. rewrite andb_true_iff, sortedb_spec, (forallb_Forall _ _ _ slotb_spec). done. Qed.
Lemma seg_okb_spec bs : seg_okb bs = true ↔ seg_ok bs.
Proof. unfold seg_okb, seg_ok. rewrite !andb_true_iff, Z.eqb_eq, Z.ltb_lt, (forallb_Forall _ _ _ byteb_spec). tauto. Qed.

Definition uk_view_live (k : ukern) : list u_address_mapping := if slots_okb (uk_live k) then uk_live k else [].
Definition uk_view_seg (k : ukern) (id : Z) : option (list Z) :=
  bs ← uk_segs k !! id; if seg_okb bs then Some bs else None.
Definition uk_put (id : Z) (bs : list Z) (k : ukern) : ukern := Uk (uk_live k) (<[id := bs]> (uk_segs k)) (uk_next k) (uk_as k) (uk_refused k).
Definition uk_set_live (l : list u_address_mapping) (k : ukern) : ukern := Uk l (uk_segs k) (uk_next k) (uk_as k) (uk_refused k).

Definition uk_refuse (k : ukern) : ukern := Uk (uk_live k) (uk_segs k) (uk_next k) (uk_as k) true.

#[export] Instance uk_kernel : ProcKernel ukern := {
  k_live := uk_view_live;
  k_seg := uk_view_seg;
  k_as := uk_as;
  k_refused k := uk_refused k = true;
  k_store id off v k :=
    match uk_view_seg k id with
    | Some bs => if (0 <=? off) && (off + Z.of_nat (length v) <=? Z.of_nat (length bs)) && forallb byteb v then uk_put id (splice off v bs) k else k
    | None => k
    end;
  k_segment_alloc sh bytes name pid := λ k,
    let r := uk_next k in
    match uk_segs k !! r with
    | None => if (0 <? r) && (r <? 2 ^ 63) && (bytes <? 2 ^ 59)
              then Ret r (Uk (uk_live k) (<[r := replicate (Z.to_nat (ROUNDUP bytes PGSIZE)) 0]> (uk_segs k)) (r + 1) (uk_as k) (uk_refused k))
              else Ret (- E_NO_MEM) (uk_refuse k)
    | Some _ => Ret (- E_NO_MEM) (uk_refuse k)
    end;
  k_segment_get_nbytes ref := λ k,
    Ret (match uk_view_seg k (so_object ref) with Some bs => Z.of_nat (length bs) | None => - E_NOT_FOUND end) k;
  k_segment_set_nbytes ref n := λ k,
    match uk_view_seg k (so_object ref) with
    | Some bs => if ROUNDUP n PGSIZE <? 2 ^ 60 then Ret 0 (uk_put (so_object ref) (resize_bytes (ROUNDUP n PGSIZE) bs) k) else Ret (- E_NO_MEM) (uk_refuse k)
    | None => Ret (- E_NOT_FOUND) k
    end;
  k_share_alloc sh mask name pid := λ k, Ret 2 k;
  k_share_unref ref := λ k, Ret 0 (Uk (uk_live k) (delete (so_object ref) (uk_segs k)) (uk_next k) (uk_as k) (uk_refused k));
  k_self_drop_share sh := λ k, Ret 0 k;
  k_at_get at_ uat ents := λ k,
    let l := uk_view_live k in
    if Z.of_nat (length l) <=? uat_size uat
    then Ret (0, Uat (uat_size uat) (Z.of_nat (length l)) (uat_ents uat) 0 0 0, l ++ drop (length l) ents) k
    else Ret (- E_NO_SPACE, uat, ents) k;
  k_at_set at_ uat ents := λ k,
    let n := Z.to_nat (uat_nent uat) in
    let l := number_slots (take n ents) in
    Ret (0, l ++ drop n ents) (uk_set_live (in_use l) k);
  k_at_set_slot at_ u := λ k, Ret 0 (uk_set_live (set_slot u (uk_view_live k)) k);
}.

(** ** The promises *)

Lemma uk_live_ok k : slots_ok (uk_view_live k).
Proof. unfold uk_view_live. destruct (slots_okb _) eqn:H; [by apply slots_okb_spec|]. by split; constructor. Qed.
Lemma uk_view_set_live l k : slots_ok l → uk_view_live (uk_set_live l k) = l.
Proof. intros H%slots_okb_spec. unfold uk_view_live. simpl. by rewrite H. Qed.
Lemma uk_view_put id bs k id' : seg_ok bs → uk_view_seg (uk_put id bs k) id' = if decide (id' = id) then Some bs else uk_view_seg k id'.
Proof.
  intros H%seg_okb_spec. unfold uk_view_seg. simpl. destruct (decide (id' = id)) as [->|Hne].
  - rewrite lookup_insert_eq. simpl. by rewrite H.
  - by rewrite lookup_insert_ne by done.
Qed.
Lemma uk_seg_wf k id bs : uk_view_seg k id = Some bs → seg_ok bs.
Proof. unfold uk_view_seg. destruct (_ !! id); simpl; [|done]. destruct (seg_okb _) eqn:H; [|done]. intros [= <-]. by apply seg_okb_spec. Qed.
Lemma uk_put_same_but id bs k : seg_ok bs → same_but id k (uk_put id bs k).
Proof. intros H. constructor; [done..| |done]. intros id' Hne. simpl. by rewrite uk_view_put, decide_False by done. Qed.
Lemma seg_ok_splice off v bs : seg_ok bs → 0 ≤ off → off + Z.of_nat (length v) ≤ Z.of_nat (length bs) → Forall (λ b, 0 ≤ b < 256) v → seg_ok (splice off v bs).
Proof.
  intros (H1 & H2 & H3) Ho Hl Hv. unfold seg_ok. rewrite splice_length by done. split_and!; [done..|]. unfold splice.
  apply Forall_app. split; [by apply Forall_take|]. apply Forall_app. split; [done|by apply Forall_drop].
Qed.
Lemma seg_ok_resize n bs : seg_ok bs → 0 ≤ n < 2 ^ 60 → n mod PGSIZE = 0 → seg_ok (resize_bytes n bs).
Proof.
  intros (H1 & H2 & H3) Hn Hm. unfold seg_ok. rewrite resize_length, Z2Nat.id by lia. split_and!; [done|lia|]. unfold resize_bytes.
  apply Forall_app. split; [by apply Forall_take|]. apply Forall_replicate. lia.
Qed.
Lemma ROUNDUP_page n : 0 ≤ n < 2 ^ 64 → 0 ≤ ROUNDUP n PGSIZE ∧ ROUNDUP n PGSIZE mod PGSIZE = 0.
Proof.
  intros Hn. unfold ROUNDUP. pose proof (u64_range (n + PGSIZE - 1)) as Hr. destruct (ROUNDDOWN_spec (u64 (n + PGSIZE - 1)) PGSIZE Hr) as [H1 H2]; [done|].
  split; [|done]. rewrite ROUNDDOWN_small by done. pose proof (Z.mod_le (u64 (n + PGSIZE - 1)) PGSIZE ltac:(apply Hr) ltac:(done)). lia.
Qed.
Lemma sanitize_fields u : um_kslot (sanitize u) = um_kslot u ∧ um_flags (sanitize u) = um_flags u ∧ um_va (sanitize u) = um_va u.
Proof. unfold sanitize. by destruct (_ =? _). Qed.
Lemma slots_ok_set_slot u l : slots_ok l → 0 ≤ um_kslot u < 2 ^ 32 → 0 ≤ um_va u < 2 ^ 64 → slots_ok (set_slot u l).
Proof.
  intros [Hs Hf] Hk Hv. assert (Hsub : clear_slot (um_kslot u) l `sublist_of` l) by apply sublist_filter.
  assert (Hc : slots_ok (clear_slot (um_kslot u) l)) by (split; [by apply (sorted_sublist l)|by apply (Forall_sublist _ l)]).
  unfold set_slot. destruct (Z.eqb_spec (um_flags u) 0) as [|Hfl]; [done|]. destruct Hc as [Hs' Hf']. destruct (sanitize_fields u) as (E1 & E2 & E3). split.
  - apply insert_slot_sorted; [done|]. rewrite E1. apply Forall_forall. intros v Hv'. by apply list_elem_of_filter in Hv' as [? _].
  - apply Forall_forall. intros v [->|Hv']%elem_of_insert_slot; [by rewrite E1, E2, E3|]. rewrite Forall_forall in Hf'. by apply Hf'.
Qed.
Lemma number_sorted l (n : nat) :
  let l' := imap (λ i u, set_um_kslot (Z.of_nat (n + i)) (sanitize u)) l in
  StronglySorted slot_lt l' ∧ Forall (λ u, Z.of_nat n ≤ um_kslot u < Z.of_nat (n + length l)) l'.
Proof.
  revert n. induction l as [|u l IH]; intros n; [by repeat constructor|]. rewrite imap_cons. destruct (IH (S n)) as [Hs Hf].
  rewrite (imap_ext _ (λ i u, set_um_kslot (Z.of_nat (S n + i)) (sanitize u))) by (intros; simpl; do 2 f_equal; lia). split; constructor; simpl; try done; try lia.
  - eapply Forall_impl; [exact Hf|]. intros v Hv. unfold slot_lt. simpl in *. lia.
  - eapply Forall_impl; [exact Hf|]. intros v Hv. simpl in *. lia.
Qed.
Lemma slots_ok_number l : Z.of_nat (length l) < 2 ^ 32 → Forall (λ u, 0 ≤ um_va u < 2 ^ 64) l → slots_ok (in_use (number_slots l)).
Proof.
  intros Hn Hv. destruct (number_sorted l 0) as [Hs Hf]. change (imap _ l) with (number_slots l) in Hs, Hf. unfold in_use. split.
  - apply (sorted_sublist (number_slots l)); [apply sublist_filter|done].
  - apply Forall_forall. intros u [Hfl Hu]%list_elem_of_filter. rewrite Forall_forall in Hf, Hv. pose proof (Hf u Hu) as Hk. split_and!; [done|simpl in Hk; lia..| |];
      apply list_elem_of_lookup in Hu as [i Hi]; unfold number_slots in Hi; rewrite list_lookup_imap in Hi; apply fmap_Some in Hi as (v & Hi & ->);
      simpl; destruct (sanitize_fields v) as (_ & _ & ->); apply (Hv v); by eapply list_elem_of_lookup_2.
Qed.

#[export] Instance uk_laws : ProcKernelLaws ukern.
Proof.
  constructor.
  - exact uk_live_ok.
  - exact uk_seg_wf.
  - intros k id off v bs Hs Ho Hl Hv. simpl in *. rewrite Hs, (proj2 (Z.leb_le _ _) Ho), (proj2 (Z.leb_le _ _) Hl), (proj2 (forallb_Forall _ _ v byteb_spec) Hv). simpl.
    assert (seg_ok (splice off v bs)) by (apply seg_ok_splice; try done; by eapply uk_seg_wf). split; [by apply uk_put_same_but|]. by rewrite uk_view_put, decide_True.
  - intros k sh bytes name pid Hb. unfold wp. simpl. destruct (uk_segs k !! uk_next k) eqn:Hk; [left; by split_and!|].
    destruct (_ && _ && _) eqn:Hc; [|left; by split_and!]. apply andb_true_iff in Hc as [[Hc1 Hc2]%andb_true_iff Hc3]. apply Z.ltb_lt in Hc1, Hc2, Hc3. right.
    destruct (ROUNDUP_exact bytes PGSIZE) as [He Hr]; [unfold in_u64; lia|done|pgs; lia|].
    assert (Hok : seg_ok (replicate (Z.to_nat (ROUNDUP bytes PGSIZE)) 0)).
    { unfold seg_ok. rewrite length_replicate, Z2Nat.id by lia. split_and!; [rewrite He; pgs; dlia|pgs; lia|apply Forall_replicate; lia]. }
    split_and!; [lia|done|unfold uk_view_seg; by rewrite Hk| |].
    + constructor; [done..| |done]. intros id' Hne. simpl. unfold uk_view_seg. simpl. by rewrite lookup_insert_ne by done.
    + unfold uk_view_seg. simpl. rewrite lookup_insert_eq. simpl. by rewrite (proj2 (seg_okb_spec _) Hok).
  - intros k ref. unfold wp. simpl. split; [done|]. destruct (uk_view_seg k (so_object ref)) as [bs|]; [by eauto|left]. unfold E_NOT_FOUND. split; [lia|by right].
  - intros k ref n Hn. unfold wp. simpl. destruct (uk_view_seg k (so_object ref)) as [bs|] eqn:Hs; [|left; split_and!; [done|done|by right]]. destruct (Z.ltb_spec (ROUNDUP n PGSIZE) (2 ^ 60)); [|left; split_and!; [done|done|by left]].
    destruct (ROUNDUP_page n Hn). assert (seg_ok (resize_bytes (ROUNDUP n PGSIZE) bs)) by (apply seg_ok_resize; [by eapply uk_seg_wf|lia|done]).
    right. split_and!; [done|by apply uk_put_same_but|]. exists bs. split; [done|]. by rewrite uk_view_put, decide_True.
  - done.
  - intros k ref. unfold wp. simpl. constructor; [done..| |done]. intros id' Hne. simpl. unfold uk_view_seg. simpl. by rewrite lookup_delete_ne by done.
  - done.
  - intros k uat ents Hu. unfold wp. simpl. destruct (_ <=? _) eqn:Hc; simpl; rewrite ?Hc; done.
  - intros k uat ents Hu Hn Hv. unfold wp. simpl. right. split_and!; try done. apply uk_view_set_live, slots_ok_number; [rewrite length_take; lia|by apply Forall_take].
  - intros k u Hk Hv. unfold wp. simpl. right. split_and!; try done. apply uk_view_set_live, slots_ok_set_slot; [apply uk_live_ok|done..].
Qed.
