(* ===== verification/UasProps.v ===== *)
(** * The address-space manager: properties

    Mapping a segment, unmapping it and starting up, against any kernel that keeps the
    promises of [ProcKernelLaws], and runs on the kernel of UserKernel that show what
    empty mappings and mappings past the end of a segment do. *)
From Stdlib Require Import Sorting.Sorted.
From S2P Require Import Prelude Machine Ktypes Pmap At FaultProps Uas UasThms UserKernel.

Section as_init.
Context {K : Type} `{!ProcKernel K} `{!ProcKernelLaws K}.
Implicit Types (s : ustate K).

(** The mapping that [as_init] adds for the entries of the cache. *)
Definition ents_mapping (sh id kslot : Z) : u_address_mapping :=
  Uam address_mapping_segment (Sobj sh id) kslot (Z.lor SEGMAP_READ SEGMAP_WRITE) UADDRMAPENTS 0 (ROUNDUP usegmapents_bytes PGSIZE / PGSIZE).
(** A table as the loader leaves it: fewer than 64 mappings of segments, none of which
    overlaps another, the addresses that the manager hands out, or the cache. *)
Record loaded (l : list u_address_mapping) : Prop := Loaded {
  ld_len : Z.of_nat (length l) < n_base_mappings;
  ld_seg : Forall (λ u, um_type u = address_mapping_segment ∧ 0 ≤ um_num_pages u ∧ u_end u < 2 ^ 62 ∧ um_va u mod PGSIZE = 0) l;
  ld_apart i j u v : l !! i = Some u → l !! j = Some v → i ≠ j → apart u v;
  ld_away : Forall (λ u, (u_end u ≤ UASMANAGERBASE ∨ UASMANAGEREND ≤ um_va u) ∧ (u_end u ≤ UADDRMAPENTS ∨ UADDRMAPENTSEND ≤ um_va u)) l;
}.

Lemma number_slots_lookup l i : number_slots l !! i = (λ u, set_um_kslot (Z.of_nat i) (sanitize u)) <$> l !! i.
Proof. apply list_lookup_imap. Qed.
Lemma in_use_all l : Forall (λ u, um_flags u ≠ 0) l → in_use l = l.
Proof. unfold in_use. induction 1 as [|u l Hu Hl IH]; [done|]. rewrite filter_cons_True by done. by rewrite IH. Qed.
Lemma number_in_use l : Forall (λ u, um_flags u ≠ 0) l → in_use (number_slots l) = number_slots l.
Proof.
  intros H. apply in_use_all, Forall_lookup. intros i u. rewrite number_slots_lookup. intros (v & Hv & ->)%fmap_Some. rewrite Forall_lookup in H.
  simpl. destruct (sanitize_fields v) as (_ & -> & _). by apply (H i).
Qed.

(** The table with the cache's mapping last is one that the manager can work with. *)
Lemma loaded_lookup l e i w :
  Forall (λ u, um_type u = address_mapping_segment) (l ++ [e]) → number_slots (l ++ [e]) !! i = Some w →
  ∃ u, w = set_um_kslot (Z.of_nat i) u ∧ (i ≤ length l)%nat ∧ (l !! i = Some u ∨ (i = length l ∧ u = e)).
Proof.
  intros Hseg. rewrite number_slots_lookup. intros (u & Hu & ->)%fmap_Some. exists u. rewrite Forall_lookup in Hseg.
  assert (sanitize u = u) as -> by (unfold sanitize; by rewrite (Hseg i u Hu)). split; [done|]. apply lookup_lt_Some in Hu as Hlt. rewrite length_app in Hlt. simpl in Hlt.
  split; [lia|]. apply lookup_app_Some in Hu as [Hu|[Hi Hu]]; [by left|]. right. apply list_lookup_singleton_Some in Hu as [Hx <-]. split; [lia|done].
Qed.
Lemma loaded_table l sh id kk s :
  loaded l → k_live (us_kern s) = number_slots (l ++ [ents_mapping sh id kk]) → us_map_ptr s = UASMANAGERBASE → table_ok n_base_mappings s.
Proof.
  intros [Hlen Hseg Hap Haw] Hl Hp. set (e := ents_mapping sh id kk) in *. rewrite Forall_lookup in Hseg, Haw.
  assert (Hty : Forall (λ u, um_type u = address_mapping_segment) (l ++ [e])).
  { apply Forall_app. split; [|by repeat constructor]. apply Forall_lookup. intros i u Hu. by apply (Hseg i u Hu). }
  assert (He : um_va e = UADDRMAPENTS ∧ u_end e = UADDRMAPENTSEND ∧ 0 ≤ um_num_pages e) by by vm_compute. destruct He as (He1 & He2 & He3).
  constructor; rewrite ?Hl, ?Hp; try (unfold UASMANAGERBASE, UASMANAGEREND; split; [lia|done]).
  1, 2, 4, 5: intros; apply Forall_lookup; intros i w (u & -> & Hi & [Hu|[-> ->]])%loaded_lookup; try done; simpl; change (u_end (set_um_kslot _ ?x)) with (u_end x).
  - lia.
  - destruct (Hseg i u Hu). lia.
  - by apply (Hseg i u Hu).
  - destruct (Haw i u Hu) as [[?|?] _]; [by left|by right].
  - right. unfold UASMANAGEREND, UADDRMAPENTS. lia.
  - pose proof (λ i w, loaded_lookup l e i w Hty) as Hlk. intros v w [i (u1 & -> & Hi & Hu1)%Hlk]%list_elem_of_lookup [j (u2 & -> & Hj & Hu2)%Hlk]%list_elem_of_lookup.
    destruct (decide (i = j)) as [->|Hne].
    { left. f_equal. destruct Hu1 as [Hu1|[-> ->]], Hu2 as [Hu2|[Hx ->]]; try done; try congruence; apply lookup_lt_Some in Hu1 || apply lookup_lt_Some in Hu2; lia. }
    right. unfold apart. change (u_end (set_um_kslot _ ?x)) with (u_end x). simpl. destruct Hu1 as [Hu1|[-> ->]], Hu2 as [Hu2|[-> ->]]; [by apply (Hap i j)|..|lia];
      rewrite He1, He2; [destruct (Haw i u1 Hu1)|destruct (Haw j u2 Hu2)]; tauto.
Qed.

Lemma as_init_wpx s name uam_ents :
  loaded (k_live (us_kern s)) → us_map_ptr s = UASMANAGERBASE → length uam_ents = Z.to_nat n_base_mappings → Forall (λ u, 0 ≤ um_va u < 2 ^ 64) uam_ents →
  so_object (us_cached s) ≠ so_object (k_as (us_kern s)) →
  wpx (as_init name uam_ents) s (λ _ s', as_ok false s' ∧
    ∃ id kk, k_live (us_kern s') = number_slots (k_live (us_kern s) ++ [ents_mapping (ce_sh (us_env s)) id kk])) True.
Proof.
  intros Hld Hp Hlen Hva Hcd. pose proof (ld_len _ Hld) as Hll. set (l := k_live (us_kern s)) in *. unfold as_init, processor_current_as. apply wpx_bind_wp, wp_gets.
  apply wpx_bind_wp. eapply wp_kcall; [apply at_get_law; simpl; rewrite Hlen; unfold n_base_mappings; lia|]. intros [[r uat] ents] k1 [Hv1 Hr]. cbv zeta in Hr. simpl in Hr. fold l in Hr.
  rewrite (proj2 (Z.leb_le _ _)) in Hr by lia. destruct Hr as (-> & Hsz & Hnent & _ & ->). change (0 <? 0) with false. cbv iota. apply wpx_bind_wp, wp_gets. simpl.
  apply wpx_bind_wp. eapply wp_kcall; [apply segment_alloc_law; by vm_compute|]. intros id k2 [[Hneg _]|(Hid & _ & Hsb & _)].
  { rewrite (proj2 (Z.ltb_lt _ _) Hneg). by split. }
  rewrite (proj2 (Z.ltb_ge id 0)) by lia. rewrite Hnent, Nat2Z.id.
  assert (Hd : (length l < length uam_ents)%nat) by (rewrite Hlen; unfold n_base_mappings in *; lia).
  destruct (lookup_lt_is_Some_2 uam_ents (length l) Hd) as [e0 He0].
  apply wpx_bind_wp, (wp_deref _ _ e0). { rewrite lookup_app_r, Nat.sub_diag, lookup_drop, Nat.add_0_r by lia. done. }
  set (e := Uam _ _ (um_kslot e0) _ _ _ _). rewrite u64_small by (unfold in_u64, n_base_mappings in *; lia).
  assert (Hins : <[length l := e]> (l ++ drop (length l) uam_ents) = (l ++ [e]) ++ drop (S (length l)) uam_ents).
  { rewrite insert_app_r_alt, Nat.sub_diag by lia. rewrite (drop_S _ _ _ He0). simpl. by rewrite <- app_assoc. }
  rewrite Hins. destruct (live_ok (us_kern s)) as [_ Hall]. fold l in Hall. rewrite Forall_forall in Hall.
  assert (Hlv : k_live (us_kern (set_kern k2 (set_kern k1 s))) = l) by (simpl; rewrite (sb_live _ _ _ Hsb); apply Hv1).
  assert (Has : k_as (us_kern (set_kern k2 (set_kern k1 s))) = k_as (us_kern s)) by (simpl; rewrite (sb_as _ _ _ Hsb); apply Hv1).
  rewrite <- Has. apply wpx_bind_wp. eapply wp_kcall; [apply at_set_law; simpl|].
  { rewrite !length_app. simpl. lia. }
  { unfold n_base_mappings in *. lia. }
  { apply Forall_app. split; [apply Forall_app; split; [|by repeat constructor]|by apply Forall_drop]. apply Forall_forall. intros u Hu. by apply Hall. }
  intros [r ents'] k3 [(Hneg & _)|(-> & Hl3 & Has3 & Hseg3 & _)]. { rewrite (proj2 (Z.ltb_lt _ _) Hneg). by split. }
  change (0 <? 0) with false. cbv iota. simpl in Hl3. replace (Z.to_nat (Z.of_nat (length l) + 1)) with (length (l ++ [e])) in Hl3 by (rewrite length_app; simpl; lia).
  rewrite take_app_length, number_in_use in Hl3. 2: { apply Forall_app. split; [|by repeat constructor]. apply Forall_forall. intros u Hu. by apply Hall. }
  apply wpx_bind_wp, wp_modify. set (s4 := set_cache _ _ _). assert (Ht4 : table_ok n_base_mappings s4) by by apply (loaded_table l (ce_sh (us_env s)) id (um_kslot e0)).
  assert (Has4 : k_as (us_kern s4) = k_as (us_kern s)) by (simpl; rewrite Has3; exact Has). unfold cache_refresh. apply wpx_bind_wp, wp_bind, wp_gets.
  assert (Hcd4 : (so_object (us_cached s4) =? so_object (k_as (us_kern (set_kern k2 (set_kern k1 s))))) = false) by (rewrite Has; by apply Z.eqb_neq). rewrite Hcd4. cbn [negb].
  pose proof (live_le_size s4 Ht4 ltac:(done)) as Hle4. apply wp_bind. unfold cache_at_get. wp_pure. rewrite Has, <- Has4. eapply wp_kcall; [apply at_get_law; done|].
  intros [[r uat5] ents5] k5 [Hv5 Hr]. cbv zeta in Hr. rewrite (proj2 (Z.leb_le _ _) Hle4) in Hr. destruct Hr as (-> & Hsz5 & Hn5 & _ & ->). wp_pure. apply wp_wpx. wp_pure.
  assert (Hl5 : k_live k5 = k_live (us_kern s4)) by apply Hv5. split; [|exists id, (um_kslot e0); simpl; by rewrite Hl5].
  constructor; simpl; [done| | |].
  - rewrite Hsz5. by apply (table_ok_live _ s4).
  - constructor; simpl; rewrite ?Hsz5; [|done|by rewrite (sv_as _ _ Hv5)]. rewrite length_app, length_drop. simpl in *. unfold n_base_mappings in *. lia.
  - unfold coherent. simpl. rewrite Hl5. split; [done|]. by rewrite take_app_length.
Qed.
End as_init.

Section as_props.
Context {K : Type} `{!ProcKernel K} `{!ProcKernelLaws K}.
Implicit Types (s : ustate K).
Abbreviation live s := (k_live (us_kern s)).

(** Every address of a new mapping leads to the segment. *)
Lemma new_mapping_resolves s s' sgref start flags len va o :
  mapped_new s sgref start flags len va s' → 0 < len < 2 ^ 61 → 0 ≤ start → start mod PGSIZE = 0 → bit flags SEGMAP_READ = true →
  0 ≤ o < ROUNDUP len PGSIZE → resolve (live s') (va + o) 1 0 = Some (so_object sgref, start + o).
Proof.
  intros [Hok Hst (kslot & Hks & Hl) Hva Hcl] Hlen Hs Hsm Hr Ho. destruct (ROUNDUP_exact len PGSIZE) as [Hn _]; [unfold in_u64; lia|done|pgs; lia|].
  set (u := new_mapping sgref start flags len kslot va) in *. assert (Hu : u ∈ live s') by (rewrite Hl; apply elem_of_insert_slot; by left).
  assert (Hue : u_end u = va + ROUNDUP len PGSIZE) by (unfold u_end; simpl; rewrite Hn; pgs; dlia).
  rewrite (resolve_hit (live s') u); try done; try lia.
  - simpl. f_equal. f_equal. pgs. dlia.
  - intros v. by apply (live_plain false).
  - intros v Hv. by apply (tb_apart _ _ (ok_table _ _ Hok)).
  - simpl. lia.
  - apply Z.land_0_r.
Qed.


(** C28: Unmapping undoes mapping: as long as there are fresh addresses, [as_map] followed by
    [as_unmap] of the address it chose leaves exactly the mappings there were before,
    provided that no mapping is empty.  It returns 0 unless the kernel refuses a call, the
    table is full and cannot grow, or the segment is not known. *)
Theorem as_map_unmap s sgref start flags bst len :
  as_ok false s → wants s sgref start bst len → 0 ≤ start → start mod PGSIZE = 0 → 0 < len → len + start < 2 ^ 61 → 0 < flags < 2 ^ 32 →
  Forall (λ u, 0 < um_num_pages u) (live s) → fits s (ROUNDUP len PGSIZE) →
  wp ('(r, va, _) ← as_map sgref start flags (Some 0) bst;
      if r <? 0 then mret r else va ← deref (λ _, va); as_unmap va) s
    (λ r s', as_ok false s' ∧ (r = 0 ∧ live s' = live s ∨ r < 0 ∧ map_fails s sgref s')).
Proof.
  intros Hok Hw Hs Hsm Hlen Hmax Hfl Hne Hf. apply wp_bind. eapply wp_mono; [eapply wpx_wp; [by apply as_map_wpx|tauto]|].
  intros [[r vp] b] s1 (_ & [(Hneg & Hwhy & Hok' & _ & Hl)|(va & [= -> ->] & [Hok1 _ (kslot & Hks & Hl) _ Hcl])] & _).
  - simpl in Hneg. rewrite (proj2 (Z.ltb_lt _ _) Hneg). wp_pure. split; [done|by right].
  - change (0 <? 0) with false. cbv iota. apply wp_bind, (wp_deref _ _ va); [done|]. eapply wp_mono; [by apply as_unmap_wp|].
    intros r2 s2 (Hok2 & _ & _ & _ & _ & H). split; [done|]. destruct H as [[-> H]|(? & Href & _)]; [left; split; [done|]|right; split; [done|by left]]. rewrite H, Hl. clear H Hl.
    unfold not_at, clear_range in *. rewrite Forall_forall in Hcl, Hne. destruct (ROUNDUP_exact len PGSIZE) as [_ Hn]; [unfold in_u64; lia|done|pgs; lia|].
    assert (Hall : ∀ v, v ∈ live s → um_va v ≠ va). { intros v Hv He. destruct (Hcl v Hv) as [H1|H1]; [|lia]. pose proof (Hne v Hv). unfold u_end in H1. pgs. lia. }
    clear -Hall. induction (live s) as [|v l IH]; simpl.
    + by rewrite filter_cons_False by (simpl; tauto).
    + assert (um_va v ≠ va) by (apply Hall; by left). assert (Hl : ∀ w, w ∈ l → um_va w ≠ va) by (intros w Hw; apply Hall; by right).
      destruct (_ <? _); [rewrite filter_cons_False by (simpl; tauto)|]; rewrite filter_cons_True by done; f_equal; [|by apply IH].
      clear -Hl. induction l as [|w l IH]; [done|]. rewrite filter_cons_True by (apply Hl; by left). f_equal. apply IH. intros x Hx. apply Hl. by right.
Qed.

(** After [as_init] the manager works on the table the loader left, with one more mapping,
    that of its cache.  (The code panics when a call fails.) *)
Theorem as_init_correct s name uam_ents :
  loaded (live s) → us_map_ptr s = UASMANAGERBASE → length uam_ents = Z.to_nat n_base_mappings → Forall (λ u, 0 ≤ um_va u < 2 ^ 64) uam_ents →
  so_object (us_cached s) ≠ so_object (k_as (us_kern s)) →
  wpx (as_init name uam_ents) s (λ _ s', as_ok false s' ∧
    ∃ id kk, live s' = number_slots (live s ++ [ents_mapping (ce_sh (us_env s)) id kk])) True.
Proof. apply as_init_wpx. Qed.

(** A search for 0 bytes that starts inside a mapping never ends: the mapping always collides
    with the empty range at its end. *)
Theorem empty_search_never_ends b s u fuel :
  as_ok b s → u ∈ live s → um_va u ≤ UASMANAGERBASE < u_end u →
  get_va_loop fuel 0 UASMANAGERBASE (u64 (UASMANAGERBASE + 0)) s = Crash NoFuel.
Proof.
  intros Hok Hu Hin. rewrite (u64_small (UASMANAGERBASE + 0)) by by vm_compute. rewrite Z.add_0_r.
  assert (Hstart : ∃ v, v ∈ live s ∧ collides (um_va v) (u_end v) UASMANAGERBASE UASMANAGERBASE = true).
  { exists u. split; [done|]. unfold collides. rewrite (proj2 (Z.leb_le _ _)), (proj2 (Z.ltb_lt UASMANAGERBASE (u_end u))) by lia. done. }
  revert Hstart. generalize UASMANAGERBASE. clear u Hu Hin. induction fuel as [|fuel IH]; intros ts (v & Hv & Hc); [done|].
  cbn [get_va_loop]. pose proof (get_va_pass_eval b s ts ts Hok) as Hp. apply wp_run in Hp as (o & s' & Hrun & -> & Ho). eapply bind_ret; [exact Hrun|].
  destruct o as [e|]; [|by rewrite (Ho v Hv) in Hc]. destruct Ho as (w & Hw & -> & Hcw). destruct (u_end_u64 b s w Hok Hw) as [Hr _].
  assert (0 ≤ um_va w) as H0 by (by apply (live_plain b s w Hok)). rewrite Z.add_0_r, (u64_small (u_end w)) by (unfold in_u64; lia). apply IH. exists w. split; [done|].
  unfold collides in *. rewrite !orb_true_iff, !andb_true_iff, !Z.leb_le, !Z.ltb_lt in *. lia.
Qed.
End as_props.

(** ** An example *)

(** A process with one mapping, of the 8 KB segment 2, before and after [as_init]. *)
Module UasExample.
Definition kern0 : ukern :=
  Uk [Uam address_mapping_segment (Sobj 1 2) 0 7 0x400000 0 2] {[2 := replicate (Z.to_nat 8192) 0]} 10 (Sobj 1 3) false.
Definition env : core_env_t := CoreEnv 1 0 (Sobj 0 0) (FsHandle 0 (Sobj 0 0) 0) (FsHandle 0 (Sobj 0 0) 0).
Definition process0 : ustate ukern :=
  Us kern0 (Uat 0 0 0 0 0 0) [] false (Sobj 0 0) UASMANAGERBASE false 0 (Sobj 0 0) env.
Definition stack_ents : list u_address_mapping := replicate 64 zero_uam.
Definition final {A} (d : ustate ukern) (o : outcome (ustate ukern) A) : ustate ukern := match o with Ret _ s => s | Crash _ => d end.
Definition process1 : ustate ukern := final process0 (as_init [] stack_ents process0).

Lemma ue_loaded : loaded (k_live (us_kern process0)).
Proof.
  assert (E : k_live (us_kern process0) = [Uam address_mapping_segment (Sobj 1 2) 0 7 0x400000 0 2]) by by vm_compute. rewrite E. constructor.
  - done.
  - repeat constructor; done.
  - intros [|i] [|j] u v; simpl; try done.
  - apply Forall_singleton. split; left; done.
Qed.
Lemma ue_init_run : as_init [] stack_ents process0 = Ret tt process1.
Proof. vm_compute. reflexivity. Qed.
Lemma ue_init_wpx : as_ok false process1 ∧ ∃ id kk, k_live (us_kern process1) = number_slots (k_live (us_kern process0) ++ [ents_mapping 1 id kk]).
Proof.
  pose proof (as_init_wpx process0 [] stack_ents ue_loaded eq_refl eq_refl) as H. unfold wpx in H. rewrite ue_init_run in H.
  apply H; [apply Forall_replicate; simpl; lia|done].
Qed.
Lemma ue_ok : as_ok false process1.
Proof. apply ue_init_wpx. Qed.
Lemma ue_seg : k_seg (us_kern process1) 2 = Some (replicate (Z.to_nat 8192) 0).
Proof. vm_compute. reflexivity. Qed.
Lemma ue_wants : wants process1 (Sobj 1 2) 4096 None 4096.
Proof.
  intros bs. change (so_object (Sobj 1 2)) with 2. rewrite ue_seg. intros <-%(inj Some). rewrite length_replicate. done.
Qed.
End UasExample.
Import UasExample.

Lemma as_init_correct_witness : as_init [] stack_ents process0 = Ret tt process1 ∧ as_ok false process1.
Proof.
  split; [exact ue_init_run|]. pose proof (as_init_correct process0 [] stack_ents ue_loaded eq_refl eq_refl) as H.
  unfold wpx in H. rewrite ue_init_run in H. apply H; [apply Forall_replicate; simpl; lia|done].
Defined.


Lemma as_map_unmap_witness :
  k_live (us_kern (final process1 (('(r, va, _) ← as_map (Sobj 1 2) 4096 6 (Some 0) None;
    if r <? 0 then mret r else va ← deref (λ _, va); as_unmap va) process1))) = k_live (us_kern process1).
Proof.
  pose proof (as_map_unmap process1 (Sobj 1 2) 4096 6 None 4096 ue_ok ue_wants ltac:(done) ltac:(done) ltac:(done) ltac:(done) ltac:(done)) as H.
  assert (Hn : Forall (λ u, 0 < um_num_pages u) (k_live (us_kern process1))).
  { assert (E : forallb (λ u, 0 <? um_num_pages u) (k_live (us_kern process1)) = true) by (vm_compute; reflexivity).
    apply (proj1 (forallb_Forall _ (λ u, 0 < um_num_pages u) _ (λ u, Z.ltb_lt 0 (um_num_pages u))) E). }
  assert (Hf : fits process1 (ROUNDUP 4096 PGSIZE)) by (split; [vm_compute; reflexivity|vm_compute; discriminate]). specialize (H Hn Hf). unfold wp in H.
  assert (E : ∃ s', ('(r, va, _) ← as_map (Sobj 1 2) 4096 6 (Some 0) None;
    if r <? 0 then mret r else va ← deref (λ _, va); as_unmap va) process1 = Ret 0 s') by (eexists; vm_compute; reflexivity).
  destruct E as [s' E]. rewrite E in *. destruct H as [_ [[_ H]|[H _]]]; [exact H|exfalso; lia].
Defined.

(** The search from the base runs into the mapping that is there, for ever. *)
Lemma empty_search_never_ends_witness :
  ∃ s, as_map (Sobj 1 2) 4096 6 (Some 0) None process1 = Ret (0, Some UASMANAGERBASE, None) s ∧
       get_va_loop 1000 0 UASMANAGERBASE (u64 (UASMANAGERBASE + 0)) s = Crash NoFuel.
Proof.
  pose proof (as_map_wpx process1 (Sobj 1 2) 4096 6 None 4096 ue_ok ue_wants ltac:(done) ltac:(done) ltac:(done) ltac:(done) ltac:(done)) as H.
  assert (E : ∃ s', as_map (Sobj 1 2) 4096 6 (Some 0) None process1 = Ret (0, Some UASMANAGERBASE, None) s') by (eexists; vm_compute; reflexivity).
  destruct E as [s' E]. exists s'. split; [exact E|]. unfold wpx in H. rewrite E in H. destruct H as (_ & [[H _]|(va & Hva & Hm)] & _); [exfalso; cbn [fst] in H; lia|].
  cbn [fst] in Hva. assert (va = UASMANAGERBASE) as -> by congruence. destruct (mn_live _ _ _ _ _ _ _ Hm) as (kslot & _ & Hl).
  apply (empty_search_never_ends false s' (new_mapping (Sobj 1 2) 4096 6 4096 kslot UASMANAGERBASE)).
  - apply Hm.
  - rewrite Hl. apply elem_of_insert_slot. left. reflexivity.
  - split; [apply Z.le_refl|]. unfold u_end, new_mapping. cbn [um_va um_num_pages]. change (ROUNDUP 4096 PGSIZE / PGSIZE * PGSIZE) with 4096. lia.
Defined.

(** An outcome that returns a value and a state that pass a test. *)
Lemma outcome_test {S A} (o : outcome S A) (f : A → bool) (P : A → Prop) (g : S → bool) (Q : S → Prop) :
  (∀ a, f a = true → P a) → (∀ s, g s = true → Q s) →
  match o with Ret a s => f a && g s | Crash _ => false end = true → ∃ a s, o = Ret a s ∧ P a ∧ Q s.
Proof. intros Hf Hg. destruct o as [a s|]; [|done]. intros [Ha Hs]%andb_true_iff. exists a, s. auto. Qed.

Lemma outcome_value {S A} (o : outcome S A) (f : A → bool) (P : A → Prop) :
  (∀ a, f a = true → P a) → match o with Ret a _ => f a | Crash _ => false end = true → ∃ a s, o = Ret a s ∧ P a.
Proof. intros Hf. destruct o as [a s|]; [|done]. intros Ha. exists a, s. auto. Qed.

(** An empty mapping shares its address with the next one, and unmapping it takes both down. *)
Theorem empty_mapping_takes_another_down :
  ∃ res s, (id ← kcall (k_segment_alloc 1 0 [] 0);
            '(_, va1, _) ← as_map (Sobj 1 id) 0 6 (Some 0) None;
            '(_, va2, _) ← as_map (Sobj 1 2) 0 6 (Some 0) None;
            r ← as_unmap (default 0 va1);
            mret (va1, va2, r)) process1 = Ret res s ∧
           res = (Some UASMANAGERBASE, Some UASMANAGERBASE, 0) ∧
           resolve (k_live (us_kern s)) UASMANAGERBASE 1 0 = None.
Proof.
  apply (outcome_test _ (λ res, bool_decide (res = (Some UASMANAGERBASE, Some UASMANAGERBASE, 0))) _
           (λ s, bool_decide (resolve (k_live (us_kern s)) UASMANAGERBASE 1 0 = None))).
  - intros res. apply bool_decide_eq_true_1.
  - intros s. apply bool_decide_eq_true_1.
  - vm_compute. reflexivity.
Qed.

(** A mapping that starts past the end of its segment moves the pointer to fresh addresses
    back, and the next mapping overlaps an earlier one. *)
Theorem map_past_end_rewinds :
  ∃ res s, ('(_, va1, _) ← as_map (Sobj 1 2) 0 6 (Some 0) None;
            '(_, va2, _) ← as_map (Sobj 1 2) (4 * PGSIZE) 6 (Some 0) None;
            '(_, va3, _) ← as_map (Sobj 1 2) 0 6 (Some 0) None;
            mret (va1, va2, va3)) process1 = Ret res s ∧
           res = (Some UASMANAGERBASE, Some (UASMANAGERBASE + 2 * PGSIZE), Some UASMANAGERBASE) ∧
           length (filter (λ u, um_va u = UASMANAGERBASE) (k_live (us_kern s))) = 2%nat.
Proof.
  apply (outcome_test _ (λ res, bool_decide (res = (Some UASMANAGERBASE, Some (UASMANAGERBASE + 2 * PGSIZE), Some UASMANAGERBASE))) _
           (λ s, bool_decide (length (filter (λ u, um_va u = UASMANAGERBASE) (k_live (us_kern s))) = 2%nat))).
  - intros res. apply bool_decide_eq_true_1.
  - intros s. apply bool_decide_eq_true_1.
  - vm_compute. reflexivity.
Qed.
