(* ===== verification/FsProps.v ===== *)
(** * File systems: properties

    Files and directories of the RAM file system and the resolution of paths, against any
    kernel that keeps the promises of [ProcKernelLaws]. *)
From S2P Require Import Prelude Machine Ktypes Pmap At FaultProps Uas UasThms Ramfs RamfsThms RamfsDir Fs UserKernel UasProps.

(** ** Names in directories *)

Lemma le64_of w : 0 ≤ w < 2 ^ 64 → of_le (le64 w) = w.
Proof. intros Hw. apply of_le_bytes. change (256 ^ Z.of_nat 8) with (2 ^ 64). done. Qed.
(** A name that an entry can hold. *)
Record good_name (name : list Z) : Prop := GoodName {
  gn_len : (0 < length name ≤ 63)%nat;
  gn_chars : Forall (λ b, 0 < b < 256) name;
}.
Lemma good_bytes name : good_name name → Forall (λ b, 0 ≤ b < 256) name.
Proof. intros [_ H]. eapply Forall_impl; [exact H|]. simpl. lia. Qed.
Lemma sub_splice_within o v bs o' n :
  0 ≤ o → 0 ≤ o' → 0 ≤ n → o' + n ≤ Z.of_nat (length v) → o + Z.of_nat (length v) ≤ Z.of_nat (length bs) → sub_bytes (o + o') n (splice o v bs) = sub_bytes o' n v.
Proof.
  intros Ho Ho' Hn Hv Hl. apply list_eq. intros i. rewrite !sub_lookup. destruct (decide _) as [Hi|]; [|done].
  rewrite splice_lookup, decide_True by lia. f_equal. lia.
Qed.

Section new_entry.
Variables (bs name : list Z) (seg : sobj_ref) (i : Z).
Hypothesis Hlen : 8192 ≤ Z.of_nat (length bs).
Hypothesis Hi : 0 ≤ i < RAMFS_NDENT.
Hypothesis Hname : good_name name.
Hypothesis Hseg : 0 ≤ so_share seg < 2 ^ 64 ∧ 0 ≤ so_object seg < 2 ^ 64.
Local Definition bs' : list Z := splice (ent_off i) (dent_bytes name seg) bs.

Lemma new_entry_sub o n : 0 ≤ o → 0 ≤ n → o + n ≤ 80 → sub_bytes (ent_off i + o) n bs' = sub_bytes o n (dent_bytes name seg).
Proof.
  intros Ho Hn Hon. pose proof (ent_bound i 80 Hi ltac:(done)) as [E1 E2]. apply sub_splice_within; rewrite ?dent_length; lia.
Qed.
Lemma new_entry_name : dent_free bs' i = false ∧ dent_name bs' i = Some name.
Proof.
  destruct Hname as [Hl Hc]. unfold dent_free, dent_name. rewrite <- (Z.add_0_r (ent_off i)), !new_entry_sub by (unfold FS_NAME_LEN; lia).
  unfold sub_bytes. rewrite Z2Nat.inj_0, drop_0. unfold dent_bytes. change (Z.to_nat (FS_NAME_LEN - 1)) with 63%nat. unfold strncpy_bytes. rewrite (take_ge name 63) by lia. split.
  - destruct name as [|c name']; [simpl in Hl; lia|]. apply Forall_cons in Hc as [Hc _]. simpl. apply Z.eqb_neq. lia.
  - change (Z.to_nat FS_NAME_LEN) with 64%nat. rewrite <- app_assoc, take_app, (take_ge name 64) by lia.
    destruct (replicate (63 - length name) 0 ++ [0] ++ le64 (so_share seg) ++ le64 (so_object seg)) as [|z r] eqn:E.
    { apply (f_equal length) in E. rewrite !length_app in E. simpl in E. lia. }
    assert (z = 0) as ->. { destruct (63 - length name)%nat; simpl in E; congruence. }
    destruct (64 - length name)%nat eqn:En; [lia|]. simpl. apply cstr_app. eapply Forall_impl; [exact Hc|]. simpl. lia.
Qed.
Lemma new_entry_seg : dent_seg bs' i = seg.
Proof.
  unfold dent_seg. rewrite <- Z.add_assoc, !new_entry_sub by (unfold OFF_SEG; lia). unfold dent_bytes, sub_bytes.
  set (nm := strncpy_bytes (Z.to_nat (FS_NAME_LEN - 1)) name). assert (Hnm : length nm = 63%nat) by apply strncpy_length.
  assert (Hsh : drop (Z.to_nat OFF_SEG) (nm ++ [0] ++ le64 (so_share seg) ++ le64 (so_object seg)) = le64 (so_share seg) ++ le64 (so_object seg)).
  { rewrite drop_app_ge by (rewrite Hnm; unfold OFF_SEG; lia). rewrite Hnm. change (Z.to_nat OFF_SEG - 63)%nat with 1%nat. done. }
  assert (Hob : drop (Z.to_nat (OFF_SEG + 8)) (nm ++ [0] ++ le64 (so_share seg) ++ le64 (so_object seg)) = le64 (so_object seg)).
  { rewrite drop_app_ge by (rewrite Hnm; unfold OFF_SEG; lia). rewrite Hnm. change (Z.to_nat (OFF_SEG + 8) - 63)%nat with 9%nat. done. }
  rewrite Hsh, Hob. change (Z.to_nat 8) with 8%nat. destruct Hseg as [H1 H2]. destruct seg as [a b]. cbn [so_share so_object] in *. f_equal.
  - change (take 8 (le64 a ++ le64 b)) with (le64 a). by apply le64_of.
  - change (take 8 (le64 b)) with (le64 b). by apply le64_of.
Qed.
Lemma other_entry_sub j o n : 0 ≤ j < RAMFS_NDENT → j ≠ i → 0 ≤ o → 0 ≤ n → o + n ≤ 80 → sub_bytes (ent_off j + o) n bs' = sub_bytes (ent_off j + o) n bs.
Proof.
  intros Hj Hne Ho Hn Hon. pose proof (ent_bound i 80 Hi ltac:(done)) as [E1 E2]. pose proof (ent_bound j 80 Hj ltac:(done)) as [E3 E4].
  apply sub_splice_other; rewrite ?dent_length; [lia|lia|lia|]. unfold ent_off, DENT_BYTES in *. lia.
Qed.
Lemma other_entry j : 0 ≤ j < RAMFS_NDENT → j ≠ i → dent_free bs' j = dent_free bs j ∧ dent_name bs' j = dent_name bs j ∧ dent_seg bs' j = dent_seg bs j.
Proof.
  intros Hj Hne. unfold dent_free, dent_name, dent_seg. rewrite <- (Z.add_0_r (ent_off j)) at 1 2 3 4. rewrite <- !Z.add_assoc.
  rewrite !other_entry_sub by (done || unfold FS_NAME_LEN, OFF_SEG; lia). done.
Qed.
End new_entry.

Section ramfs_props.
Context {K : Type} `{!ProcKernel K} `{!ProcKernelLaws K}.
Implicit Types (s : ustate K).
Abbreviation live s := (k_live (us_kern s)).

(** What a directory with bytes [bs] answers to a lookup. *)
Definition dir_answer (bs fn : list Z) (l : Z * option fs_handle) : Prop :=
  (∃ i, first_named bs fn i ∧ l = (0, Some (FsHandle DEV_RAMFS (dent_seg bs i) 0))) ∨ (none_named bs fn ∧ l = (- E_NOT_FOUND, None)).

(** A lookup answers unless the kernel refuses, when there is room for a mapping. *)
Lemma lookup_answers s fn bs l s' : lookup_result s fn bs l s' → ¬ crowded s → k_refused (us_kern s') ∨ dir_answer bs fn l.
Proof. intros [H|[H|(_ & _ & [H|H])]] Hc; [right; by left|right; by right|by left|done]. Qed.
Lemma created_answer bs name seg i fn l :
  8192 ≤ Z.of_nat (length bs) → first_free bs i → good_name name → none_named bs name → 0 ≤ so_share seg < 2 ^ 64 → 0 ≤ so_object seg < 2 ^ 64 →
  dir_answer (splice (ent_off i) (dent_bytes name seg) bs) fn l →
  (fn = name ∧ l = (0, Some (FsHandle DEV_RAMFS seg 0))) ∨ (fn ≠ name ∧ dir_answer bs fn l).
Proof.
  intros Hlen (Hi & Hfree & _) Hn Hnone H1 H2 Ha. fold (bs' bs name seg i) in Ha. destruct (new_entry_name bs name seg i Hlen Hi Hn) as [Hf' Hn'].
  pose proof (λ j Hj Hne, other_entry bs name seg i Hlen Hi j Hj Hne) as Ho.
  assert (Hnamed : ∀ j, 0 ≤ j < RAMFS_NDENT → j ≠ i → named (bs' bs name seg i) fn j ↔ named bs fn j).
  { intros j Hj Hne. destruct (Ho j Hj Hne) as (E1 & E2 & _). unfold named. by rewrite E1, E2. }
  assert (Hi' : named (bs' bs name seg i) fn i ↔ fn = name) by (unfold named; rewrite Hf', Hn'; split; [by intros [_ [= ->]]|by intros ->]). assert (Hi0 : ¬ named bs fn i) by (unfold named; rewrite Hfree; by intros [? _]).
  destruct (decide (fn = name)) as [->|Hne]; [left|right]; (split; [done|]).
  - destruct Ha as [(j & (Hj & Hj1 & Hj2) & ->)|[Hno _]]; [|exfalso; by apply (Hno i Hi), Hi'].
    destruct (decide (j = i)) as [->|Hji]; [by rewrite new_entry_seg|]. exfalso. by apply (Hnone j Hj), Hnamed.
  - destruct Ha as [(j & (Hj & Hj1 & Hj2) & ->)|[Hno ->]]; [left|right].
    + destruct (decide (j = i)) as [->|Hji]; [by apply Hi' in Hj1|]. exists j. destruct (Ho j Hj Hji) as (_ & _ & ->). split; [|done]. split_and!; [lia|lia|by apply Hnamed|].
      intros k Hk Hnk. destruct (decide (k = i)) as [->|Hki]; [done|]. apply (Hj2 k Hk), Hnamed; [lia|done|done].
    + split; [|done]. intros j Hj Hnj. destruct (decide (j = i)) as [->|Hji]; [done|]. by apply (Hno j Hj), Hnamed.
Qed.
Lemma created_inode s s' seg0 bs name seg i n ids :
  inode s seg0 dir_type bs → going n ids s s' → k_seg (us_kern s') (so_object seg0) = Some (splice (ent_off i) (dent_bytes name seg) bs) → 0 ≤ i < RAMFS_NDENT →
  inode s' seg0 dir_type (splice (ent_off i) (dent_bytes name seg) bs).
Proof.
  intros Hin Hg Hs Hi. pose proof (inode_len _ _ _ _ Hin) as [Hl _]. pose proof (ent_bound i 80 Hi ltac:(done)) as [E1 E2]. destruct Hin as [_ H2 H3 H4 H5].
  pose proof (dent_length name seg) as Hd. constructor; [done| |rewrite splice_length; unfold INODE_BYTES in *; lia| |].
  - intros Hc. by apply H2, (go_id _ _ _ _ Hg).
  - rewrite sub_splice_other by lia. done.
  - unfold mutex_is, OFF_MU in *. rewrite sub_splice_other by lia. done.
Qed.
Lemma created_dir_ok bs name seg i :
  8192 ≤ Z.of_nat (length bs) → 0 ≤ i < RAMFS_NDENT → good_name name → dir_ok bs → dir_ok (splice (ent_off i) (dent_bytes name seg) bs).
Proof.
  intros Hlen Hi Hn Hd j Hj. fold (bs' bs name seg i). destruct (decide (j = i)) as [->|Hne].
  - intros _. destruct (new_entry_name bs name seg i Hlen Hi Hn) as [_ ->]. by eexists.
  - destruct (other_entry bs name seg i Hlen Hi j Hj Hne) as (-> & -> & _). by apply Hd.
Qed.

End ramfs_props.

Section file_props.
Context {K : Type} `{!ProcKernel K} `{!ProcKernelLaws K}.
Implicit Types (s : ustate K).

Lemma grown_lookup bs need x : (x < length (grown bs need))%nat → grown bs need !! x = Some (default 0 (bs !! x)).
Proof.
  unfold grown. destruct (_ <? _).
  - intros Hx. rewrite resize_lookup. destruct (decide _) as [|Hn]; [done|]. exfalso. apply Hn. unfold resize_bytes in Hx. rewrite length_app, length_take, length_replicate in Hx. lia.
  - intros Hx. destruct (lookup_lt_is_Some_2 bs x Hx) as [b Hb]. by rewrite Hb.
Qed.
(** The byte at [x] of a file after [buf] has been written at [off]. *)
Definition byte_after (bs buf : list Z) (off x : Z) : Z :=
  if decide (off ≤ x < off + Z.of_nat (length buf)) then default 0 (buf !! Z.to_nat (x - off)) else default 0 (bs !! Z.to_nat (OFF_RAM + x)).
Lemma written_bytes bs buf off need o n j b :
  8192 ≤ Z.of_nat (length bs) → 0 ≤ off → 0 ≤ o → 0 ≤ n → OFF_RAM + off + Z.of_nat (length buf) ≤ Z.of_nat (length (grown bs need)) →
  file_bytes (splice (OFF_RAM + off) buf (grown bs need)) o n !! j = Some b → b = byte_after bs buf off (o + Z.of_nat j).
Proof.
  unfold file_bytes, byte_after, OFF_RAM. intros Hl Ho Ho' Hn Hfit. rewrite sub_lookup. destruct (decide _) as [Hj|]; [|done]. rewrite splice_lookup by lia.
  destruct (decide (16 + off ≤ _ < _)) as [Hin|Hout].
  - rewrite decide_True by lia. replace (Z.to_nat (o + Z.of_nat j - off)) with (Z.to_nat (16 + o) + j - Z.to_nat (16 + off))%nat by lia. by intros ->.
  - rewrite decide_False by lia. intros Hb. apply lookup_lt_Some in Hb as Hlt. rewrite grown_lookup in Hb by done. injection Hb as <-. do 2 f_equal. lia.
Qed.

(** C26: What is written to a file is read back: when the kernel refuses no call,
    [ramfs_file_pwrite] writes the whole buffer, making the file larger if need be, and a
    read after it, of any range, gives the bytes of the buffer where they were written and
    elsewhere the bytes the file had, or zeroes where it has grown; it gives all the bytes
    asked for when they end before the end of what was written.  The cache of the manager
    must have room for a mapping. *)
Theorem ramfs_write_read s h bs buf off count off' :
  let need := Z.of_nat (length buf) + off in
  let g := grown bs need in
  as_ok false s → inode s (fh_ref h) file_type bs → 0 ≤ off → need < 2 ^ 59 → Forall (λ b, 0 ≤ b < 256) buf → 0 ≤ count < 2 ^ 63 → 0 ≤ off' < 2 ^ 64 →
  fits s (Z.of_nat (length bs) + 2 * Z.of_nat (length g)) → nmaps s < uat_size (us_uat s) →
  wp (r ← ramfs_file_pwrite h buf off; res ← ramfs_file_pread h count off'; mret (r, res)) s (λ '(r, res) s',
    as_ok false s' ∧
    (k_refused (us_kern s') ∨
     (r = Z.of_nat (length buf) ∧ res.1 = Z.of_nat (length res.2) ∧ res.1 ≤ count ∧ (off' + count ≤ need → res.1 = count) ∧
      ∀ j b, res.2 !! j = Some b → b = byte_after bs buf off (off' + Z.of_nat j)))).
Proof.
  intros need g Hok Hin Ho Hneed Hbuf Hc Ho' Hf Hspare. pose proof (inode_len _ _ _ _ Hin) as [Hl Hlm]. pose proof (grown_len bs need ltac:(lia) Hlm ltac:(lia)) as (G1 & G2 & G3).
  pose proof (grown_inode bs need file_type ltac:(lia) Hlm ltac:(lia) (in_type _ _ _ _ Hin) (in_mu _ _ _ _ Hin)) as (Ht & Hmu). fold g in G1, G2, G3, Ht, Hmu. unfold INODE_BYTES in G2.
  apply wp_bind. eapply wp_mono; [apply (ramfs_pwrite_wp s h bs buf off Hok Hin Ho); [fold need; lia|done|]|].
  { destruct Hf. split; [done|]. fold need g. lia. }
  intros r s1 (Hg & Ht1 & H). fold need g in Hg, H. assert (Hsp1 : k_refused (us_kern s1) ∨ ¬ crowded s1).
  { pose proof (go_size _ _ _ _ Hg). unfold crowded. destruct Ht1 as [?|?]; [by left|right; lia]. }
  set (id := so_object (fh_ref h)) in *. assert (Hnc : ¬ cache_id (k_live (us_kern s1)) id) by (intros Hx; by apply (in_cache _ _ _ _ Hin), (go_id _ _ _ _ Hg)).
  assert (Hf1 : ∀ n, n ≤ Z.of_nat (length g) → 0 ≤ n → fits s1 n).
  { intros n Hn Hn0. eapply going_fits; [exact Hg|lia|]. destruct Hf. split; [done|]. lia. }
  apply wp_bind. set (g' := splice (OFF_RAM + off) buf g). assert (Hg' : length g' = length g) by (apply splice_length; unfold OFF_RAM, need in *; lia).
  assert (Hread : ∀ x, k_seg (us_kern s1) id = Some x → x = bs ∨ x = g ∨ x = g' →
    wp (ramfs_file_pread h count off') s1 (λ res s', as_ok false s' ∧ (k_refused (us_kern s1) → k_refused (us_kern s')) ∧ (k_refused (us_kern s') ∨ res = (read_len x count off', file_bytes x off' (read_len x count off'))))).
  { intros x Hx Hor. assert (Hin1 : inode s1 (fh_ref h) file_type x).
    { constructor; [done|done|..]; destruct Hor as [->|[->| ->]]; try (unfold INODE_BYTES; lia); try done; try apply Hin.
      - unfold g'. rewrite sub_splice_other by (unfold OFF_RAM, need in *; lia). done.
      - unfold g', mutex_is, OFF_MU in *. rewrite sub_splice_other by (unfold OFF_RAM, need in *; lia). done. }
    eapply wp_mono; [apply (ramfs_pread_wp s1 h x count off' (go_ok _ _ _ _ Hg) Hin1); [|done|done]|].
    - apply Hf1; destruct Hor as [->|[->| ->]]; lia.
    - intros res s2 (Hg2 & _ & Hres). pose proof (go_refused _ _ _ _ Hg2) as Hrf. split_and!; [apply Hg2|done|]. destruct Hsp1 as [?|Hsp1]; [left; auto|].
      destruct Hres as [[_ [?|?]]|?]; [by left|done|by right]. }
  destruct H as [(Hneg & Hwhy & x & Hx & Hor)|[-> Hs1]].
  - eapply wp_mono; [apply (Hread x Hx); tauto|]. intros res s2 (Hok2 & Hrf & _). wp_pure. split; [done|]. left. destruct Hwhy as [?|Hcr]; [auto|]. unfold crowded in Hcr. lia.
  - eapply wp_mono; [apply (Hread g' Hs1); tauto|]. intros res s2 (Hok2 & _ & Hres). wp_pure. split; [done|]. destruct Hres as [?| ->]; [by left|right]. simpl.
    assert (Hrl : read_len g' count off' = Z.max 0 (Z.min count (Z.of_nat (length g) - 8192 - off'))) by (unfold read_len, size_of, INODE_BYTES; by rewrite Hg').
    split_and!; [done| |lia|lia|].
    + unfold file_bytes. destruct (decide (read_len g' count off' = 0)) as [->|]; [done|]. rewrite sub_length by (unfold OFF_RAM; lia). lia.
    + intros j b. apply written_bytes; [lia|done|lia|lia|]. fold g. unfold OFF_RAM, need in *. lia.
Qed.
End file_props.

(** ** Paths *)

(** The names of a path: the pieces between the slashes. *)
Fixpoint pieces (pn : list Z) : list (list Z) :=
  match pn with
  | [] => [[]]
  | c :: pn' => if c =? SLASH then [] :: pieces pn' else
                match pieces pn' with n :: r => (c :: n) :: r | [] => [[c]] end
  end.
Definition path_names (pn : list Z) : list (list Z) := filter (λ n, n ≠ []) (pieces pn).

Lemma split_pieces pn : ∃ tl, pieces pn = (split_name pn).1 :: tl ∧ filter (λ n, n ≠ []) tl = path_names (split_name pn).2.
Proof.
  induction pn as [|c pn IH]; [by exists []|]. cbn [pieces split_name]. destruct (c =? SLASH); [by exists (pieces pn)|].
  destruct IH as (tl & Hp & Hf). rewrite Hp. destruct (split_name pn) as [nm nx]. by exists tl.
Qed.
Lemma split_length pn : pn ≠ [] → (length (split_name pn).2 < length pn)%nat.
Proof.
  intros Hne. assert (H : ∀ l, (length (split_name l).2 ≤ length l)%nat ∧ (l ≠ [] → length (split_name l).2 < length l)%nat); [|by apply H].
  clear. induction l as [|c l [IH1 IH2]]; [done|]. cbn [split_name]. destruct (c =? SLASH); simpl; [lia|]. destruct (split_name l) as [nm nx]. simpl in *. lia.
Qed.

Section path_props.
Context {K : Type} `{!ProcKernel K}.
Variables vfs0_dev dbfs_dev : fs_dev K.
Implicit Types (s : ustate K).

(** Resolving one name after the other, from [q] on. *)
Fixpoint walk (mtab : Z) (q : fs_handle) (names : list (list Z)) : M (ustate K) (Z * fs_handle) :=
  match names with
  | [] => mret (0, q)
  | fn :: names' =>
      if FS_NAME_LEN <=? Z.of_nat (length fn) then mret (- E_NO_SPACE, q) else
      '(r, q') ← walk_name vfs0_dev dbfs_dev mtab q fn;
      if r <? 0 then mret (r, q) else walk mtab q' names'
  end.
Lemma lookup_loop_walk fuel mtab q pn s :
  (length pn ≤ fuel)%nat → lookup_path_loop vfs0_dev dbfs_dev fuel mtab q pn s = walk mtab q (path_names pn) s.
Proof.
  revert q pn s. induction fuel as [|fuel IH]; intros q pn s Hf.
  { destruct pn; [done|]. simpl in Hf. lia. }
  destruct pn as [|c pn']; [done|]. set (pn := c :: pn') in *. pose proof (split_length pn ltac:(done)) as Hlen. destruct (split_pieces pn) as (tl & Hp & Htl).
  change (lookup_path_loop vfs0_dev dbfs_dev (S fuel) mtab q pn) with
    (let '(fn, next_pn) := split_name pn in
     if FS_NAME_LEN <=? Z.of_nat (length fn) then mret (- E_NO_SPACE, q) else
     if decide (fn = []) then lookup_path_loop vfs0_dev dbfs_dev fuel mtab q next_pn else
     '(r, q') ← walk_name vfs0_dev dbfs_dev mtab q fn;
     if r <? 0 then mret (r, q) else lookup_path_loop vfs0_dev dbfs_dev fuel mtab q' next_pn).
  unfold path_names at 1. rewrite Hp. destruct (split_name pn) as [fn next] eqn:E. cbn [fst snd] in *. rewrite filter_cons, Htl. destruct (decide (fn = [])) as [->|Hne].
  - change (FS_NAME_LEN <=? Z.of_nat (length [])) with false. cbv iota. rewrite decide_False by tauto. apply IH. lia.
  - rewrite decide_True by done. cbn [walk]. destruct (FS_NAME_LEN <=? Z.of_nat (length fn)); [done|]. unfold mbind, m_bind.
    destruct (walk_name vfs0_dev dbfs_dev mtab q fn s) as [[r q'] s'|]; [|done]. destruct (r <? 0); [done|]. apply IH. lia.
Qed.

(** [fs_lookup_path] walks a path: it splits the path at the slashes, leaves out empty
    names, and looks the names up one after the other, from the root when the path starts
    with a slash and from the given directory otherwise, crossing mount points on the way.
    So repeated and trailing slashes do not matter. *)
Theorem fs_lookup_path_walks start_dir pn mtab s :
  fs_lookup_path vfs0_dev dbfs_dev start_dir pn mtab s =
  ('(r, h) ← walk mtab (if bool_decide (head pn = Some SLASH) then ce_rhand (us_env s) else start_dir) (path_names pn);
   mret (r, if r <? 0 then None else Some h)) s.
Proof.
  unfold fs_lookup_path, gets, mbind, m_bind. assert (H : ∀ q pn', path_names pn' = path_names pn →
    lookup_path_loop vfs0_dev dbfs_dev (length pn') mtab q pn' s = walk mtab q (path_names pn) s) by (intros q pn' <-; by apply lookup_loop_walk).
  destruct pn as [|c pn']; [by rewrite H|]. destruct (Z.eqb_spec c SLASH) as [->|Hne].
  - rewrite bool_decide_eq_true_2 by done. by rewrite H.
  - rewrite bool_decide_eq_false_2 by (simpl; congruence). by rewrite H.
Qed.
End path_props.

(** ** Growing a file with truncate *)

(** Code that returns with [Q] or makes an access outside its memory. *)
Definition wpu {S A} (m : M S A) (s : S) (Q : A → S → Prop) : Prop :=
  match m s with Ret a s' => Q a s' | Crash f => f = Undef end.
Lemma wpu_bind {S A B} (m : M S A) (k : A → M S B) s (Q : B → S → Prop) : wp m s (λ a s', wpu (k a) s' Q) → wpu (m ≫= k) s Q.
Proof. unfold wp, wpu, mbind, m_bind. by destruct (m s). Qed.
Lemma wp_wpu {S A} (m : M S A) s (Q : A → S → Prop) : wp m s Q → wpu m s Q.
Proof. unfold wp, wpu. by destruct (m s). Qed.

Lemma resolve_overrun l u va n req :
  (∀ v, v ∈ l → plain_range v) → (∀ v, v ∈ l → v = u ∨ apart v u) → u ∈ l → um_va u ≤ va < u_end u → u_end u < va + n →
  bit (um_flags u) SEGMAP_READ = true → Z.land (um_flags u) req = req → um_type u = address_mapping_segment →
  resolve l va n req = None.
Proof.
  intros Hpl Hap Hu H1 H2 Hr Hq Ht. induction l as [|v l IH]; [done|]. cbn [resolve].
  assert (Hpv : plain_range v) by (apply Hpl; by left). rewrite (covers_plain v va req Hpv), (plain_rounddown v Hpv).
  destruct (Hap v) as [->|Hv]; [by left| |].
  - rewrite Hr, Hq, Ht, Z.eqb_refl, (proj2 (Z.leb_le (um_va u) va)), (proj2 (Z.ltb_lt va (u_end u))) by lia. simpl. by rewrite (proj2 (Z.leb_gt _ _)).
  - destruct Hpv as (_ & _ & Hnp & _). assert (um_va v ≤ u_end v) by (unfold u_end; pgs; lia).
    assert ((um_va v <=? va) && (va <? u_end v) = false) as E1. { apply andb_false_iff. rewrite Z.leb_gt, Z.ltb_ge. unfold apart in Hv. lia. }
    rewrite <- andb_assoc, E1, andb_false_r. destruct ((va <? um_va v) && _); [done|]. apply IH.
    + intros w Hw. apply Hpl. by right.
    + intros w Hw. apply Hap. by right.
    + apply elem_of_cons in Hu as [Hu|Hu]; [|done]. subst u. destruct Hv; lia.
Qed.

Section truncate_props.
Context {K : Type} `{!ProcKernel K} `{!ProcKernelLaws K}.
Implicit Types (s : ustate K).

Lemma store_overrun s va id len bs u o v :
  at_work s va id len bs u → um_va u = va → 0 ≤ o < u_end u - va → u_end u < va + o + Z.of_nat (length v) → ustore (va + o) v s = Crash Undef.
Proof.
  intros [Hok [W1 W2 W3 W4 (R1 & R2 & R3)] _] Hu Ho Hn. unfold ustore. destruct (Z.eqb_spec (Z.of_nat (length v)) 0); [lia|].
  rewrite (resolve_overrun _ u); try done; try lia.
  - intros w. by apply (live_plain false).
  - intros w Hw. by apply (tb_apart _ _ (ok_table _ _ Hok)).
Qed.

(** Growing a file with [ramfs_file_truncate] past the pages it has is an access
    outside the memory of the process: the new bytes are cleared through the mapping of the
    old size.  It always ends so, unless the kernel refuses a call.  The cache of the
    manager must have room for a mapping. *)
Theorem truncate_growth_overruns s h bs new_size :
  as_ok false s → inode s (fh_ref h) file_type bs → fits s (Z.of_nat (length bs)) → nmaps s < uat_size (us_uat s) →
  size_of bs + INODE_BYTES - OFF_RAM < new_size < 2 ^ 60 →
  match ramfs_file_truncate h new_size s with
  | Ret _ s' => k_refused (us_kern s')
  | Crash f => f = Undef
  end.
Proof.
  intros Hok Hin Hf Hspare Hsz. pose proof (inode_len _ _ _ _ Hin) as [Hl Hlm]. unfold size_of, INODE_BYTES, OFF_RAM in Hsz.
  change (wpu (ramfs_file_truncate h new_size) s (λ _ s', k_refused (us_kern s'))). unfold ramfs_file_truncate.
  apply wpu_bind. eapply wp_mono; [apply (ramfs_map_wp s _ file_type _ _ Hok Hin Hf)|]. intros [r va] s1 [Hg1 H]. cbn [fst snd] in H.
  destruct H as [(Hneg & Hwhy & _)|(-> & _ & u & Hw & [Hu Hue] & _)].
  { rewrite (proj2 (Z.ltb_lt _ _) Hneg). apply wp_wpu, wp_ret. unfold crowded in Hwhy. destruct Hwhy as [?|[?|?]]; [done|lia|done]. }
  change (0 <? 0) with false. cbv iota. assert (Hnc1 : ¬ cache_id (k_live (us_kern s1)) (so_object (fh_ref h))) by (intros Hc; by apply (in_cache _ _ _ _ Hin), (go_id _ _ _ _ Hg1)).
  apply wpu_bind. eapply wp_mono; [eapply mutex_lock_wp; [exact Hw|lia..|apply Hin]|]. intros [] s2 (Hg2 & Hw2 & Hl2).
  apply wpu_bind. eapply wp_mono; [apply (ramfs_file_size_wp s2 h (splice OFF_MU (le64 1) bs) (go_ok _ _ _ _ Hg2)), Hw2|]. intros r s3 (Hg3 & Hl3 & Hs3 & Hr).
  unfold size_of in Hr. rewrite mutex_set_len in Hr by lia. unfold INODE_BYTES in Hr.
  assert (Hw3 : at_work s3 va (so_object (fh_ref h)) (Z.of_nat (length bs)) (splice OFF_MU (le64 1) bs) u).
  { eapply at_work_view; [exact Hw2|apply Hg3|done|]. rewrite Hs3. apply Hw2. }
  destruct (Z.ltb_spec r 0) as [Hneg|Hpos].
  { apply wp_wpu, wp_bind_assoc, wp_bind. eapply wp_mono; [eapply dir_leave_wp; [exact Hw3|done|by rewrite Hl3, Hl2|lia|lia|apply Hin]|]. intros r' s4 [Hg4 _]. apply wp_ret.
    destruct Hr as [[_ Href]|?]; [by apply (go_refused _ _ _ _ Hg4)|lia]. }
  destruct Hr as [[? _]| ->]; [lia|]. apply wpu_bind. rewrite u64_small by (unfold in_u64, INODE_BYTES; lia). eapply wp_kcall; [apply set_nbytes_law; unfold INODE_BYTES; lia|].
  intros r' k' Hr'. set (s4 := set_kern k' s3). assert (Hw4 : ∃ bs4, at_work s4 va (so_object (fh_ref h)) (Z.of_nat (length bs)) bs4 u).
  { destruct Hr' as [(_ & Hv & _)|(_ & Hsb & b0 & _ & Hs4)]; eexists; eapply at_work_view; try exact Hw3.
    - apply as_ok_same_live; [apply Hv|apply Hv|apply Hw3].
    - apply Hv.
    - simpl. rewrite (sv_seg _ _ Hv). apply Hw3.
    - apply as_ok_same_live; [apply Hsb|apply Hsb|apply Hw3].
    - apply Hsb.
    - exact Hs4. }
  destruct Hw4 as [bs4 Hw4]. rewrite (proj2 (Z.ltb_lt _ _)) by lia. destruct (wi_va _ _ _ _ _ _ (aw_win _ _ _ _ _ _ Hw4)) as [W1 W2].
  unfold wpu, mbind, m_bind. rewrite <- Z.add_assoc. unfold OFF_RAM. rewrite (store_overrun s4 va _ _ bs4 u _ _ Hw4 Hu); rewrite ?length_replicate; done || lia.
Qed.
End truncate_props.
