(* ===== verification/FsExamples.v ===== *)
(** * File systems: examples

    A process with an empty directory (segment 5) and an empty file (segment 6).  The
    theorems of FsProps apply to it; runs of the code show what happens to old bytes of a
    file, to long names and to descriptors opened for reading. *)
From S2P Require Import Prelude Machine Ktypes Pmap At FaultProps Uas UasThms Ramfs RamfsThms RamfsDir Fs UserKernel UasProps FsProps.

Module FsExample.
Definition dir_h : fs_handle := FsHandle DEV_RAMFS (Sobj 1 5) 0.
Definition file_h : fs_handle := FsHandle DEV_RAMFS (Sobj 1 6) 0.
Definition dir_bytes : list Z := new_inode dir_type.
Definition new_file_bytes : list Z := new_inode file_type.
Definition kern0 : ukern :=
  Uk [Uam address_mapping_segment (Sobj 1 2) 0 7 0x400000 0 2] {[2 := replicate (Z.to_nat 8192) 0; 5 := dir_bytes; 6 := new_file_bytes]} 10 (Sobj 1 3) false.
Definition env : core_env_t := CoreEnv 1 0 (Sobj 0 0) dir_h dir_h.
Definition process0 : ustate ukern :=
  Us kern0 (Uat 0 0 0 0 0 0) [] false (Sobj 0 0) UASMANAGERBASE false 0 (Sobj 0 0) env.
Definition process1 : ustate ukern := UasExample.final process0 (as_init [] UasExample.stack_ents process0).

Lemma fe_loaded : loaded (k_live (us_kern process0)).
Proof.
  assert (E : k_live (us_kern process0) = k_live (us_kern UasExample.process0)) by by vm_compute. rewrite E. apply UasExample.ue_loaded.
Qed.
Lemma fe_init_run : as_init [] UasExample.stack_ents process0 = Ret tt process1.
Proof. vm_compute. reflexivity. Qed.
Lemma fe_ok : as_ok false process1.
Proof.
  pose proof (as_init_wpx process0 [] UasExample.stack_ents fe_loaded eq_refl eq_refl) as H. unfold wpx in H. rewrite fe_init_run in H.
  apply H; [apply Forall_replicate; simpl; lia|discriminate].
Qed.
Lemma fe_live : k_live (us_kern process1) = [Uam 1 (Sobj 1 2) 0 7 0x400000 0 2; Uam 1 (Sobj 1 10) 1 6 UADDRMAPENTS 0 4096].
Proof. vm_compute. reflexivity. Qed.
Lemma fe_cache id : cache_id (k_live (us_kern process1)) id → id = 10.
Proof.
  rewrite fe_live. unfold cache_id. rewrite Exists_cons, Exists_cons, Exists_nil. cbn [um_va um_object so_object]. unfold UADDRMAPENTS. intros [[? _]|[[_ ?]|[]]]; lia.
Qed.
Lemma fe_reachable : cache_reachable process1.
Proof. intros id ->%fe_cache. vm_compute. by eexists. Qed.
Lemma fe_fits : fits process1 0x100000.
Proof. split; [vm_compute; reflexivity|vm_compute; discriminate]. Qed.
Lemma fe_fits_le n : n ≤ 0x100000 → fits process1 n.
Proof. intros Hn. destruct fe_fits as [H1 H2]. split; [exact H1|lia]. Qed.
Lemma fe_spare : nmaps process1 + 2 ≤ uat_size (us_uat process1).
Proof. vm_compute. discriminate. Qed.
Lemma fe_spare1 : nmaps process1 < uat_size (us_uat process1).
Proof. vm_compute. reflexivity. Qed.
Lemma fe_dir : inode process1 (fh_ref dir_h) dir_type dir_bytes.
Proof.
  constructor; [vm_compute; reflexivity|intros H%fe_cache; discriminate|vm_compute; discriminate|vm_compute; reflexivity|vm_compute; reflexivity].
Qed.
Lemma fe_file : inode process1 (fh_ref file_h) file_type new_file_bytes.
Proof.
  constructor; [vm_compute; reflexivity|intros H%fe_cache; discriminate|vm_compute; discriminate|vm_compute; reflexivity|vm_compute; reflexivity].
Qed.
Lemma fe_dir_free i : 0 ≤ i < RAMFS_NDENT → dent_free dir_bytes i = true.
Proof. intros Hi. apply (forallb_seqZ (dent_free dir_bytes) 0 RAMFS_NDENT i); [vm_compute; reflexivity|lia]. Qed.
Lemma fe_dir_ok : dir_ok dir_bytes.
Proof. intros i Hi. by rewrite fe_dir_free. Qed.
Lemma fe_none name : none_named dir_bytes name.
Proof. intros i Hi [H _]. by rewrite fe_dir_free in H. Qed.
End FsExample.
Import FsExample.


(** Two bytes written at 5 are read back. *)
Lemma ramfs_write_read_witness :
  ∃ s', (r ← ramfs_file_pwrite file_h [7; 8] 5; res ← ramfs_file_pread file_h 2 5; mret (r, res)) process1 = Ret (2, (2, [7; 8])) s' ∧ as_ok false s'.
Proof.
  assert (Hlen : length new_file_bytes = Z.to_nat 8192) by (vm_compute; reflexivity).
  assert (Hgl : length (grown new_file_bytes 7) = Z.to_nat 12288) by (vm_compute; reflexivity).
  pose proof (ramfs_write_read process1 file_h new_file_bytes [7; 8] 5 2 5 fe_ok fe_file) as H. change (Z.of_nat (length [7; 8]) + 5) with 7 in H. cbv zeta in H.
  rewrite Hlen, Hgl in H. specialize (H ltac:(lia) ltac:(lia) ltac:(repeat constructor; lia) ltac:(lia) ltac:(lia) ltac:(apply fe_fits_le; lia) fe_spare1). unfold wp in H.
  assert (E : ∃ s', (r ← ramfs_file_pwrite file_h [7; 8] 5; res ← ramfs_file_pread file_h 2 5; mret (r, res)) process1 = Ret (2, (2, [7; 8])) s') by (eexists; vm_compute; reflexivity).
  destruct E as [s' E]. exists s'. split; [exact E|]. rewrite E in H. apply H.
Defined.

Lemma truncate_growth_overruns_witness : ramfs_file_truncate file_h 16384 process1 = Crash Undef.
Proof.
  assert (Hlen : length new_file_bytes = Z.to_nat 8192) by (vm_compute; reflexivity).
  pose proof (truncate_growth_overruns process1 file_h new_file_bytes 16384 fe_ok fe_file) as H. unfold size_of in H. rewrite Hlen in H.
  specialize (H ltac:(apply fe_fits_le; lia) fe_spare1 ltac:(unfold INODE_BYTES, OFF_RAM; lia)).
  assert (E : match ramfs_file_truncate file_h 16384 process1 with Ret _ _ => False | Crash _ => True end) by (vm_compute; exact I).
  destruct (ramfs_file_truncate file_h 16384 process1) as [r s'|f]; [destruct E|]. by rewrite H.
Defined.

(** After a truncation to 0 and a write further on, the old bytes are there again. *)
Theorem truncated_bytes_come_back :
  ∃ res s, (_ ← ramfs_file_pwrite file_h [7] 100;
            r ← ramfs_file_truncate file_h 0;
            st ← ramfs_stat file_h;
            _ ← ramfs_file_pwrite file_h [1] 200;
            rd ← ramfs_file_pread file_h 1 100;
            mret (r, st, rd)) process1 = Ret res s ∧
           res = (0, (0, 0, 0), (1, [7])).
Proof.
  apply (outcome_value _ (λ res, bool_decide (res = (0, (0, 0, 0), (1, [7]))))); [intros res; apply bool_decide_eq_true_1|]. vm_compute. reflexivity.
Qed.

(** A name of 64 characters is cut when the file is made, and then not found. *)
Theorem long_name_is_not_found :
  let name := replicate 64 97 in
  ∃ res s, (c ← ramfs_file_create dir_h name; l ← ramfs_dir_lookup dir_h name; l' ← ramfs_dir_lookup dir_h (take 63 name); mret (c, l, l')) process1 = Ret res s ∧
           res.1.1.1 = 0 ∧ res.1.2 = (- E_NOT_FOUND, None) ∧ res.2 = res.1.1.
Proof.
  apply (outcome_value _ (λ res, bool_decide (res.1.1.1 = 0 ∧ res.1.2 = (- E_NOT_FOUND, None) ∧ res.2 = res.1.1))); [intros res; apply bool_decide_eq_true_1|].
  vm_compute. reflexivity.
Qed.

(** A descriptor opened with [O_RDONLY] can be written. *)
Theorem read_only_descriptor_writes :
  let fd := MkFd O_RDONLY 0 file_h in
  ∃ res s, (r ← fs_fd_write ramfs_dev ramfs_dev fd [7] 0; rd ← fs_fd_read ramfs_dev ramfs_dev fd 1 0; mret (r, rd)) process1 = Ret res s ∧
           res = (1, (1, [7])).
Proof.
  apply (outcome_value _ (λ res, bool_decide (res = (1, (1, [7]))))); [intros res; apply bool_decide_eq_true_1|]. vm_compute. reflexivity.
Qed.

(** With [O_APPEND] the data goes to the end of the last page: the four bytes of two
    appends are 4094 zeroes apart. *)
Theorem append_leaves_a_hole :
  let fd := MkFd (Z.lor O_WRONLY O_APPEND) 0 file_h in
  ∃ res s, (_ ← fs_fd_write ramfs_dev ramfs_dev fd [1; 2] 0; _ ← fs_fd_write ramfs_dev ramfs_dev fd [3; 4] 0;
            rd ← ramfs_file_pread file_h 4098 0; mret rd) process1 = Ret res s ∧
           res = (4098, [1; 2] ++ replicate (Z.to_nat 4094) 0 ++ [3; 4]).
Proof.
  apply (outcome_value _ (λ res, bool_decide (res = (4098, [1; 2] ++ replicate (Z.to_nat 4094) 0 ++ [3; 4])))); [intros res; apply bool_decide_eq_true_1|].
  vm_compute. reflexivity.
Qed.

(** Paths: a directory "a" is made, a file "b" in it, and "/a//b" leads to it. *)
Theorem path_example :
  ∃ res s, (d ← ramfs_dir_mk dir_h [97]; d' ← deref (λ _, d.2); f ← ramfs_file_create d' [98];
            l ← fs_lookup_path ramfs_dev ramfs_dev dir_h [SLASH; 97; SLASH; SLASH; 98] 0; mret (f, l)) process1 = Ret res s ∧
           res.1.1 = 0 ∧ res.1 = res.2.
Proof.
  apply (outcome_value _ (λ res, bool_decide (res.1.1 = 0 ∧ res.1 = res.2))); [intros res; apply bool_decide_eq_true_1|]. vm_compute. reflexivity.
Qed.
